(* ===== verification/_CoqProject ===== *)
-Q . S2P
Prelude.v
CommonData.v
RLP.v
RLPFacts.v
FixedHash.v
SHA3.v
Codec.v
Transaction.v
Account.v
Producer.v
Ballot.v
TransactionReceipt.v
BlockHeader.v
Trie.v
TrieFacts.v
Block.v
Status.v
BlockState.v
RollbackState.v
AttributeState.v
Database.v
Ledger.v
LedgerFacts.v
Actions.v
Repository.v
RepositoryFacts.v
FrameFacts.v
CommitFacts.v
LedgerExamples.v
Schedule.v
Caches.v
Crypto.v
BlockChain.v
BlockChainFacts.v
SolidifyFacts.v
NodeFacts.v
ChainExamples.v
Instruction.v
Word256.v
VM.v
VMFacts.v
VMSafety.v
VMRefine.v
VMSpec.v
VMExamples.v
Coding.v
Crc32c.v
Bloom.v
DbFormat.v
SkipList.v
MemTable.v
WriteBatch.v
LogFile.v
DbIter.v
TableBlock.v
Merger.v
TwoLevel.v
FilterBlock.v
TableFormat.v
TableBuilder.v
Table.v
DbScan.v
VersionEdit.v
Version.v
DbImpl.v
DbRecover.v
