(* ===== verification/Prelude.v ===== *)
(** * GSENetwork: a verified model of the node

    GSENetwork is a delegated-proof-of-stake blockchain node in C++. Elected
    producers sign one block per two-second slot; every node executes the
    blocks of the chain on a ledger of accounts and producers, collects the
    confirmations of the other producers and stores a block once two thirds of
    them confirmed it. This library is a shallow embedding of the node: every
    C++ function under src/ that is modelled is a Rocq function of the same
    name, stateful code passes its state explicitly, and a C++ exception is a
    value of the type [exn].

    ** How the parts of the program fit together

    - The network and the RPC service hand transactions and blocks to the
      chain (chain/BlockChain.cpp), which checks them and keeps them in caches.
    - The producer (producer/ProducerServer.cpp) takes cached transactions in
      its slots, makes a block and hands it to the chain.
    - The chain links a block into the fork database (chain/RollbackState.cpp)
      and executes it (runtime/action) on a new repository
      (runtime/storage/Repository.cpp), a cache on top of the repositories of
      the earlier blocks and of the database.
    - When the fork database reports a block with a quorum of confirmations,
      the chain commits the repositories up to it into the database
      (database/DatabaseController.cpp) and prunes the fork database.
    - Everything stored or sent is encoded with RLP (core/RLP.cpp) and
      identified by its Keccak hash (crypto/SHAx.cpp).

    ** Files

    Foundations: [Prelude] (machine integers, exceptions, the error and state
    monads and their tactics), [CommonData] (core/CommonData: hexadecimal and
    big-endian conversions), [FixedHash] (core/FixedHash.h), [SHA3]
    (crypto/SHAx.cpp), [RLP] and [RLPFacts] (core/RLP), [Codec] (the shape
    that all record codecs share), [Crypto] (crypto/Common.cpp, GKey.cpp and
    Valid.cpp over an interface of libsecp256k1).

    Records: [Transaction], [Account], [Producer], [Ballot],
    [TransactionReceipt], [BlockHeader], [Block], [Status], [AttributeState]
    (the files of the same name in core/) and [BlockState]
    (chain/BlockState.cpp). [Trie] and [TrieFacts] hold trie/.

    State: [RollbackState] (chain/RollbackState.cpp: the states on a heap,
    shared by pointers, and the multi-index container as the list of pointers
    in insertion order), [Database] (database/, over the interface [KVStore] of
    a key-value store), [Ledger] (the operations of Repository.cpp on accounts
    and producers, against the interface [Ledger] of a store of records),
    [Repository] (the caches themselves, an instance of that interface),
    [Actions] (runtime/action, Runtime.cpp and Correlation.cpp), [Schedule]
    (producer/), [Caches] (core/Queue.h and the containers of BlockChain.h),
    [BlockChain] (chain/BlockChain.cpp and chain/Sync.cpp).

    Proofs about the state: [LedgerFacts], [RepositoryFacts], [FrameFacts],
    [CommitFacts], [BlockChainFacts], [SolidifyFacts], [NodeFacts]; worked
    examples are in [LedgerExamples] and [ChainExamples].

    The contract machine: [Instruction] (the opcodes and their table,
    vm/Instruction), [Word256] (u256, s256 and the arithmetic on them), [VM]
    (vm/VM.cpp: one definition per group of instructions, [step] for a round
    of the loop of [interpret]); [VMFacts] (the jump table), [VMSafety],
    [VMRefine] and [VMSpec] hold its proofs, [VMExamples] a program.

    LevelDB, the store below the database (database/leveldb): [Coding],
    [Crc32c] and [Bloom] (util/coding, crc32c, hash, bloom), [DbFormat]
    (db/dbformat and util/comparator: the interface [Comparator] with its laws
    and the two comparators), [SkipList] (db/skiplist.h: nodes in an arena,
    pointers are indices), [MemTable] (db/memtable.cc), [WriteBatch]
    (db/write_batch.cc), [LogFile] (db/log_writer.cc, db/log_reader.cc over
    an interface of files), [DbIter] (db/db_iter.cc), [TableBlock]
    (table/block_builder.cc, table/block.cc), [Merger] (table/merger.cc),
    [TwoLevel] (table/two_level_iterator.cc), [FilterBlock]
    (table/filter_block.cc), [TableFormat] (table/format.cc), [TableBuilder]
    (table/table_builder.cc), [Table] (table/table.cc), [DbScan] (how
    NewIterator puts them together over the memtables), [VersionEdit]
    (db/version_edit), [Version] (db/version_set.cc: the class Version),
    [DbImpl] (db/db_impl.cc: the queue of writers, Write and Get; what other
    threads do meanwhile is a list of functions on the state) and [DbRecover]
    (RecoverLogFile). The class [CursorLaws] of [DbIter] is the interface of
    all iterators: each is shown to be a cursor in a list. Their loops take the
    number of entries, restart points or bytes as fuel, and the theorems show
    that they end within it.

    ** What the theorems show

    - Codecs: every record read back from its encoding is the record written,
      but for the code of an account, which comes back RLP-encoded, and for
      receipts without a code of four bytes, with which a block is not decoded
      at all ([block_roundtrip]); RLP accepts canonical
      encodings only, and the cached random access of its reader does not
      depend on the order of reads.
    - Hashing: the unrolled permutation is Keccak-f[1600] and the hash the
      sponge construction, both defined bit by bit after FIPS 202 and
      independently of the code; the Merkle loop computes the tree and the trie root
      is always computed.
    - Ledger: [Ledger] gives the abstract view (three maps) that the actions
      are verified against. [repository_transparent] shows that the stack of
      caches refines it, [commit_to_parent] and [commit_to_database] that
      commits preserve it (account code is RLP-encoded on its way through the
      database), [block_keeps_ledger] what executing a block does to balances,
      supply and votes: fees are burnt, transfers to oneself mint, and entries
      of a ballot that name a candidate again are counted without being kept.
    - Fork database: blocks are linked under their parents, the head is the
      highest block, pruning removes exactly the ancestors, and in every
      reachable state a block marked final by confirmations has as many
      different confirmations as two thirds of its producers (they may be of
      fewer producers, if one sends several).
    - Chain: a block is executed completely or not at all as far as queue,
      latest block and ledger go ([block_execution_atomic], which also says
      what a rejected block leaves behind); solidification moves the view from
      the caches into the database, changing nothing but account code, while a
      block is queued above the final one (otherwise the code reads the front
      of an empty list, [Undefined] here); a restart resumes there. Further
      theorems cover blocks beside the head, the one block of a producer and
      slot between two schedules, the synchronisation requests and replies and
      the transaction cache.
    - Producer: elections, slots and the blocks produced.
    - Contract machine: it stays within its arrays whatever it runs, only
      visits instructions of its program, and refines a machine on a list of
      integers ([vm_refines_list_machine]), for any schedule. The code never
      sets the schedule: the eleven instructions that read it dereference a
      null pointer, the exception [NullSchedule]. [exec_never_returns] shows that its
      loop is never left, which is a bug of the code.
    - LevelDB: the checksum is CRC-32C, filters have no false negatives, a
      batch is played back as it was built and is not accepted when cut short,
      the skip list refines a sorted list, a memtable answers with the newest
      operation a snapshot can see, and the log gives back, from any prefix of
      the file, the records that are complete in it. An iterator is a cursor in
      the list of the newest values, and so are, in their lists, the iterators
      of blocks, of tables and of merged children ([block_is_cursor],
      [two_level_is_cursor], [merger_is_cursor]); over the memtables it agrees
      with reads ([scan_agrees_with_get]). A table is read back from its file,
      key by key through its index, filter and cache and entry by entry
      ([table_get_finds], [table_iterates]); a read in a version of the
      database finds the newest entry of all its tables
      ([version_get_newest]). Version edits are read back as written. Writers
      commit in groups, and opening the database after a crash restores a
      prefix of these groups ([write_commits_group],
      [recovery_restores_prefix]).

    ** Bounds and fuel

    Loops over RLP items use the item count as fuel, [remove_loop] and the
    branch searches of the fork database use the size of the heap or index, as
    each step visits another state; [trieHash256_total] and [remove_prunes]
    show that the fuel is enough. [collect_blocks] has one step per block
    number asked for. Sizes of byte strings are bounded by what fits into a
    64-bit size. Integers are [Z] reduced to the width of their C++ type
    wherever the code can leave it.

    ** Assumptions

    Code outside src/ is a parameter: the key-value store ([KVStore], with an
    instance), the curve arithmetic of libsecp256k1 ([Secp256k1]) and, for the
    chain, the object that owns it ([MessageFace]). Two things under src/ are
    parameters as well: the callback and surroundings of the contract machine,
    which are virtual, and in [DbRecover] the memory a memtable uses and the
    status of [WriteLevel0Table], which the recovery theorem takes to be
    success. When a commit to the database throws midway, the records written
    before are not followed. Objects that C++ leaves
    uninitialised are arguments ([h0], [s0], [count0]); operations run one at
    a time, as the locks of the code make them.

    ** Not modelled

    Sockets, the handshake and peer discovery (net/), the HTTP and WebSocket
    service (rpc/), threads, clocks, logging and the command line: they
    consist of calls into libraries. The just-in-time compiler (runtime/jit),
    the stubs beside the contract machine (vm/Runtime.cpp, vm/State.cpp) and
    of LevelDB the descriptor, compactions, repair and the operating system;
    the database component uses LevelDB through [KVStore].
*)

From stdpp Require Export base numbers list gmap vector option sorting.
From Stdlib Require Export ZArith Lia.
From Stdlib Require Strings.Byte.

#[global] Open Scope Z_scope.

Declare Scope gse_scope.
Delimit Scope gse_scope with gse.
#[global] Open Scope gse_scope.

Create HintDb gse.
Create Rewrite HintDb gse_len.

(** ** Machine integers

    Every C++ integer is a [Z] kept in the range of its type; the functions
    below are the conversions the language performs on arithmetic results. *)

Definition u8 (z : Z) : Z := z mod 2 ^ 8.
Definition u32 (z : Z) : Z := z mod 2 ^ 32.
Definition u64 (z : Z) : Z := z mod 2 ^ 64.
Definition i32 (z : Z) : Z := (z + 2 ^ 31) mod 2 ^ 32 - 2 ^ 31.
Definition i64 (z : Z) : Z := (z + 2 ^ 63) mod 2 ^ 64 - 2 ^ 63.

Definition is_u8 (z : Z) : Prop := 0 <= z < 2 ^ 8.
Definition is_u32 (z : Z) : Prop := 0 <= z < 2 ^ 32.
Definition is_u64 (z : Z) : Prop := 0 <= z < 2 ^ 64.
Definition is_i64 (z : Z) : Prop := - 2 ^ 63 <= z < 2 ^ 63.

Lemma u64_range z : is_u64 (u64 z).
Proof. unfold is_u64, u64. apply Z.mod_pos_bound. lia. Qed.

Lemma u64_small z : is_u64 z -> u64 z = z.
Proof. unfold is_u64, u64. intros H. by apply Z.mod_small. Qed.

Lemma u32_small z : is_u32 z -> u32 z = z.
Proof. unfold is_u32, u32. intros H. by apply Z.mod_small. Qed.

Lemma u8_small z : is_u8 z -> u8 z = z.
Proof. unfold is_u8, u8. intros H. by apply Z.mod_small. Qed.

Lemma i64_range z : is_i64 (i64 z).
Proof.
  unfold is_i64, i64.
  pose proof (Z.mod_pos_bound (z + 2 ^ 63) (2 ^ 64) ltac:(lia)). lia.
Qed.

Lemma i64_small z : is_i64 z -> i64 z = z.
Proof.
  unfold is_i64, i64. intros H. rewrite Z.mod_small; lia.
Qed.

#[export] Hint Resolve u64_range i64_range : gse.

(** Unsigned 64-bit addition wraps exactly when the sum is smaller than an
    operand: the test [a + b < b] that the sources use as an overflow check. *)
Lemma u64_add_overflow a b :
  is_u64 a -> is_u64 b -> (u64 (a + b) <? b) = (2 ^ 64 <=? a + b).
Proof.
  unfold is_u64, u64. intros Ha Hb.
  destruct (Z.leb_spec (2 ^ 64) (a + b)).
  - replace (a + b) with ((a + b - 2 ^ 64) + 1 * 2 ^ 64) by lia.
    rewrite Z.mod_add by lia. rewrite Z.mod_small by lia. apply Z.ltb_lt. lia.
  - rewrite Z.mod_small by lia. apply Z.ltb_ge. lia.
Qed.

(** ** Bytes *)

Abbreviation byte := Byte.byte.
Abbreviation bytes := (list Byte.byte).

#[export] Instance byte_eq_dec : EqDecision byte := Byte.byte_eq_dec.

(** The unsigned value of a byte, and the conversion [(byte)z]. *)
Definition bval (b : byte) : Z := Z.of_N (Byte.to_N b).

Definition byte_of (z : Z) : byte :=
  match Byte.of_N (Z.to_N (z mod 256)) with
  | Some b => b
  | None => Byte.x00
  end.

Lemma bval_range b : 0 <= bval b < 256.
Proof. unfold bval. pose proof (Byte.to_N_bounded b). lia. Qed.

Lemma bval_byte_of z : bval (byte_of z) = z mod 256.
Proof.
  unfold bval, byte_of.
  pose proof (Z.mod_pos_bound z 256 ltac:(lia)) as Hr.
  destruct (Byte.of_N (Z.to_N (z mod 256))) as [b|] eqn:E.
  - apply Byte.to_of_N in E. rewrite E. lia.
  - apply Byte.of_N_None_iff in E. lia.
Qed.

Lemma byte_of_bval b : byte_of (bval b) = b.
Proof.
  unfold byte_of. pose proof (bval_range b).
  rewrite Z.mod_small by done. unfold bval. rewrite N2Z.id, Byte.of_to_N. done.
Qed.

Lemma bval_inj b1 b2 : bval b1 = bval b2 -> b1 = b2.
Proof. intros H. by rewrite <- (byte_of_bval b1), <- (byte_of_bval b2), H. Qed.

Lemma bval_byte_of_small z : 0 <= z < 256 -> bval (byte_of z) = z.
Proof. intros H. by rewrite bval_byte_of, Z.mod_small. Qed.

#[export] Hint Resolve bval_range : gse.

#[export] Program Instance byte_countable : Countable byte :=
  inj_countable Byte.to_N Byte.of_N _.
Next Obligation. intros b. apply Byte.of_to_N. Qed.

(** Length of a vector as the [size_t] the code computes with. *)
Definition zlen {A} (l : list A) : Z := Z.of_nat (length l).

Lemma zlen_nonneg {A} (l : list A) : 0 <= zlen l.
Proof. unfold zlen. lia. Qed.

Lemma zlen_app {A} (l k : list A) : zlen (l ++ k) = zlen l + zlen k.
Proof. unfold zlen. rewrite length_app. lia. Qed.

Lemma zlen_cons {A} (x : A) l : zlen (x :: l) = 1 + zlen l.
Proof. unfold zlen. simpl. lia. Qed.

Lemma zlen_nil {A} : zlen (@nil A) = 0.
Proof. done. Qed.

Lemma to_nat_zlen {A} (l : list A) : Z.to_nat (zlen l) = length l.
Proof. unfold zlen. lia. Qed.

Lemma zlen_0_inv {A} (l : list A) : zlen l = 0 -> l = [].
Proof. destruct l; [done|]. rewrite zlen_cons. pose proof (zlen_nonneg l). lia. Qed.

#[export] Hint Resolve zlen_nonneg : gse.
#[export] Hint Rewrite @zlen_app @zlen_cons @zlen_nil : gse_len.

Lemma rev_replicate' {A} n (x : A) : rev (replicate n x) = replicate n x.
Proof. induction n as [|n IH]; [done|]. cbn [replicate rev]. by rewrite IH, <- replicate_cons_app. Qed.

(** ** Fixed-size vectors of bytes: the carrier of [FixedHash<N>] *)

Fixpoint vec_of_bytes (n : nat) (l : bytes) : vec byte n :=
  match n with
  | O => [#]
  | S m => match l with
           | [] => Byte.x00 ::: vec_of_bytes m []
           | b :: l' => b ::: vec_of_bytes m l'
           end
  end.

Lemma vec_of_bytes_to_list n (v : vec byte n) : vec_of_bytes n (vec_to_list v) = v.
Proof. induction v as [|b m v IH]; simpl; [done|]. by rewrite IH. Qed.

Lemma vec_to_list_of_bytes n (l : bytes) :
  length l = n -> vec_to_list (vec_of_bytes n l) = l.
Proof.
  revert l. induction n as [|n IH]; intros [|b l] H; simplify_eq/=; [done|].
  by rewrite IH.
Qed.

Lemma zlen_vec n (v : vec byte n) : zlen (vec_to_list v) = Z.of_nat n.
Proof. unfold zlen. by rewrite length_vec_to_list. Qed.

#[export] Hint Rewrite @zlen_vec : gse_len.

#[export] Program Instance vec_countable n : Countable (vec byte n) :=
  inj_countable vec_to_list (fun l => Some (vec_of_bytes n l)) _.
Next Obligation. intros n v. simpl. by rewrite vec_of_bytes_to_list. Qed.

(** ** Exceptions and the two effect monads *)

(** The exception types the modelled code throws (core/Exceptions.h and
    vm/Exceptions.h; [RangeError] and [LengthError] are those of the standard
    library); the message strings are not kept. The last three are not exceptions and no
    handler catches them: [Exit] is a call of [exit()], [Undefined] an
    operation whose behaviour the language leaves undefined (a null pointer
    dereferenced, a vector read out of range) and [NullSchedule] one kind of
    it, a read through the pointer [m_schedule] of the contract machine while
    it is null. *)
Inductive exn : Type :=
  | BadCast | BadRLP | OversizeRLP | UndersizeRLP | RLPException
  | BadHexCharacter
  | CoreException
  | RangeError
  | GSException
  | DeserializeException
  | InvalidTransactionException
  | InvalidProducerException
  | AttributeStateException
  | RepositoryException
  | BlockChainException
  | RollbackStateException
  | RollbackStateAncestorException
  | ProducerException
  | ProducerServerException
  | BadInstructionException
  | BadJumpException
  | BadStackException
  | BufferOverrunException
  | BadOverflowException
  | OutOfGasException
  | DisallowedStateChangeException
  | LengthError
  | Exit
  | Undefined
  | NullSchedule.

#[export] Instance exn_eq_dec : EqDecision exn.
Proof. solve_decision. Defined.

(** [catch (core::Exception&)]: the RLP exceptions and the other simple
    exceptions derive from [core::Exception]. *)
Definition is_Exception (e : exn) : bool :=
  match e with
  | BadCast | BadRLP | OversizeRLP | UndersizeRLP | RLPException | BadHexCharacter | CoreException => true
  | _ => false
  end.

(** [catch (GSException&)]: the exceptions made by the *_TEMPLATE_EXCEPTION
    macros derive from [GSException], which does not derive from
    [core::Exception]. *)
Definition is_GSException (e : exn) : bool :=
  match e with
  | RangeError | LengthError | Exit | Undefined | NullSchedule => false
  | e => negb (is_Exception e)
  end.

(** [catch (std::exception&)]: both hierarchies derive from it. *)
Definition is_std_exception (e : exn) : bool :=
  match e with
  | Exit | Undefined | NullSchedule => false
  | _ => true
  end.

(** A computation that returns or throws. *)
Inductive result (A : Type) : Type :=
  | Ok (a : A)
  | Throw (e : exn).
Arguments Ok {A} a.
Arguments Throw {A} e.

#[export] Instance result_ret : MRet result := @Ok.
#[export] Instance result_bind : MBind result := fun A B f m =>
  match m with
  | Ok a => f a
  | Throw e => Throw e
  end.

Definition is_ok {A} (r : result A) : bool :=
  match r with
  | Ok _ => true
  | Throw _ => false
  end.

(** [try { ... } catch (Exception& e) { BOOST_THROW_EXCEPTION(e); }]: the
    copy thrown again has the static type [core::Exception]. *)
Definition rethrow {A} (r : result A) : result A :=
  match r with
  | Ok a => Ok a
  | Throw e => Throw (if is_Exception e then CoreException else e)
  end.

(** [if (c) throw e;] *)
Definition throw_if (c : bool) (e : exn) : result unit :=
  if c then Throw e else Ok tt.

(** A computation on a mutable state: what was written before a [throw]
    stays written. *)
Definition ST (S A : Type) : Type := S -> result A * S.

#[export] Instance ST_ret S : MRet (ST S) := fun A a s => (Ok a, s).
#[export] Instance ST_bind S : MBind (ST S) := fun A B f m s =>
  match m s with
  | (Ok a, s') => f a s'
  | (Throw e, s') => (Throw e, s')
  end.

Definition st_throw {S A} (e : exn) : ST S A := fun s => (Throw e, s).
Definition st_get {S} : ST S S := fun s => (Ok s, s).
Definition st_put {S} (s : S) : ST S unit := fun _ => (Ok tt, s).
Definition st_modify {S} (f : S -> S) : ST S unit := fun s => (Ok tt, f s).
Definition st_lift {S A} (r : result A) : ST S A := fun s => (r, s).
Definition st_throw_if {S} (c : bool) (e : exn) : ST S unit := st_lift (throw_if c e).

(** [try { m } catch ...]: [h e] is the handler selected for [e], if any. *)
Definition st_catch {S A} (m : ST S A) (h : exn -> option (ST S A)) : ST S A := fun s =>
  match m s with
  | (Throw e, s') => match h e with Some k => k s' | None => (Throw e, s') end
  | r => r
  end.

(** [for (auto x : xs) f(x);] *)
Fixpoint st_foreach {S A} (f : A -> ST S unit) (xs : list A) : ST S unit :=
  match xs with
  | [] => mret tt
  | x :: xs' => f x ≫= fun _ => st_foreach f xs'
  end.

Fixpoint result_map {A B} (f : A -> result B) (xs : list A) : result (list B) :=
  match xs with
  | [] => Ok []
  | x :: xs' => y ← f x; ys ← result_map f xs'; Ok (y :: ys)
  end.

Lemma result_map_ok {A B} (f : A -> result B) (g : A -> B) xs :
  (forall x, x ∈ xs -> f x = Ok (g x)) -> result_map f xs = Ok (map g xs).
Proof.
  induction xs as [|x xs IH]; intros H; simpl; [done|].
  rewrite H by set_solver. simpl. rewrite IH; [done|]. set_solver.
Qed.

Lemma st_bind_ok {S A B} (m : ST S A) (f : A -> ST S B) s a s' :
  m s = (Ok a, s') -> (m ≫= f) s = f a s'.
Proof. unfold mbind, ST_bind. by intros ->. Qed.

Lemma st_bind_throw {S A B} (m : ST S A) (f : A -> ST S B) s e s' :
  m s = (Throw e, s') -> (m ≫= f) s = (Throw e, s').
Proof. unfold mbind, ST_bind. by intros ->. Qed.

(** ** Which exceptions a computation throws *)

Definition throws {A} (P : exn -> bool) (r : result A) : Prop := forall e, r = Throw e -> P e = true.

Create HintDb throws.

Lemma throws_ok {A} P (a : A) : throws P (Ok a).
Proof. by intros e. Qed.
Lemma throws_throw {A} (P : exn -> bool) e : P e = true -> throws P (@Throw A e).
Proof. by intros He e' [= <-]. Qed.
Lemma throws_bind {A B} P (m : result A) (f : A -> result B) :
  throws P m -> (forall a, throws P (f a)) -> throws P (m ≫= f).
Proof. intros Hm Hf e. destruct m as [a|e']; cbn; [apply Hf|]. intros [= ->]. by apply Hm. Qed.
Lemma throws_if {A} P (b : bool) (m n : result A) : throws P m -> throws P n -> throws P (if b then m else n).
Proof. by destruct b. Qed.
Lemma throws_throw_if (P : exn -> bool) b e : P e = true -> throws P (throw_if b e).
Proof. intros He. apply throws_if; [by apply throws_throw|apply throws_ok]. Qed.

Lemma throws_weaken {A} (P Q : exn -> bool) (r : result A) : (forall e, P e = true -> Q e = true) -> throws P r -> throws Q r.
Proof. intros Hpq Hr e He. by apply Hpq, Hr. Qed.

#[export] Hint Resolve throws_ok throws_throw throws_bind throws_if throws_throw_if : throws.
#[export] Hint Extern 0 (_ = true) => reflexivity : throws.

(** Invert a successful bind in a hypothesis. *)
Lemma result_bind_inv {A B} (m : result A) (f : A -> result B) b :
  (m ≫= f) = Ok b -> exists a, m = Ok a /\ f a = Ok b.
Proof. destruct m; simpl; [eauto|discriminate]. Qed.

Lemma st_bind_inv {S A B} (m : ST S A) (f : A -> ST S B) s b s'' :
  (m ≫= f) s = (Ok b, s'') -> exists a s', m s = (Ok a, s') /\ f a s' = (Ok b, s'').
Proof.
  unfold mbind, ST_bind. destruct (m s) as [[a|e] s'] eqn:E; [eauto|discriminate].
Qed.

(** ** Sums over finite maps *)

Section MapSum.
Context `{Countable K}.

(** The sum of the values of a map. *)
Definition map_sum (m : gmap K Z) : Z := map_fold (fun _ v acc => v + acc) 0 m.

Lemma map_sum_empty : map_sum ∅ = 0.
Proof. apply map_fold_empty. Qed.

Lemma map_sum_insert_None m k v : m !! k = None -> map_sum (<[k := v]> m) = v + map_sum m.
Proof. intros Hk. unfold map_sum. apply map_fold_insert_L; [intros; lia|done]. Qed.

Lemma map_sum_delete m k v : m !! k = Some v -> map_sum (delete k m) = map_sum m - v.
Proof.
  intros Hk. unfold map_sum. rewrite (map_fold_delete_L _ _ k v m); [lia|intros; lia|done].
Qed.

Lemma map_sum_insert m k v : map_sum (<[k := v]> m) = v + map_sum m - default 0 (m !! k).
Proof.
  destruct (m !! k) as [w|] eqn:Hk; cbn.
  - rewrite <- insert_delete_eq, map_sum_insert_None by apply lookup_delete_eq.
    rewrite (map_sum_delete m k w Hk). lia.
  - rewrite map_sum_insert_None by done. lia.
Qed.

Lemma map_sum_nonneg m : map_Forall (fun _ v => 0 <= v) m -> 0 <= map_sum m.
Proof.
  induction m as [|k v m Hk IH] using map_ind; [done|]. intros Hm.
  rewrite map_sum_insert_None by done. apply map_Forall_insert in Hm as [Hv Hm]; [|done].
  specialize (IH Hm). lia.
Qed.

Lemma map_sum_lookup_le m k v : map_Forall (fun _ v => 0 <= v) m -> m !! k = Some v -> v <= map_sum m.
Proof.
  intros Hm Hk. assert (0 <= map_sum (delete k m)) as Hd by (apply map_sum_nonneg; by apply map_Forall_delete).
  rewrite (map_sum_delete m k v Hk) in Hd. lia.
Qed.
End MapSum.

(** ** Tactics of the development *)

(** Turn boolean comparisons of hypotheses and goal into propositions. *)
Ltac zify_bool :=
  repeat match goal with
  | H : (_ <? _) = true |- _ => apply Z.ltb_lt in H
  | H : (_ <? _) = false |- _ => apply Z.ltb_ge in H
  | H : (_ <=? _) = true |- _ => apply Z.leb_le in H
  | H : (_ <=? _) = false |- _ => apply Z.leb_gt in H
  | H : (_ =? _) = true |- _ => apply Z.eqb_eq in H
  | H : (_ =? _) = false |- _ => apply Z.eqb_neq in H
  | H : andb _ _ = true |- _ => apply andb_prop in H; destruct H
  | H : orb _ _ = false |- _ => apply orb_false_elim in H; destruct H
  | H : negb _ = true |- _ => apply negb_true_iff in H
  | H : negb _ = false |- _ => apply negb_false_iff in H
  end.

(** Split on the first [if] over an integer comparison in the goal. *)
Ltac case_zbool :=
  match goal with
  | |- context [if ?a <? ?b then _ else _] => destruct (Z.ltb_spec a b)
  | |- context [if ?a <=? ?b then _ else _] => destruct (Z.leb_spec a b)
  | |- context [if ?a =? ?b then _ else _] => destruct (Z.eqb_spec a b)
  end.

(** Decompose a successful run of a monadic program in a hypothesis. *)
Ltac inv_ok :=
  repeat match goal with
  | H : Ok _ = Ok _ |- _ => injection H as H; subst
  | H : Throw _ = Ok _ |- _ => discriminate H
  | H : Ok _ = Throw _ |- _ => discriminate H
  | H : (Ok _, _) = (Ok _, _) |- _ => injection H as ? ?; subst
  | H : (Throw _, _) = (Ok _, _) |- _ => discriminate H
  | H : (_ ≫= _) = Ok _ |- _ =>
      let a := fresh "a" in
      let Ha := fresh "Ha" in
      apply result_bind_inv in H as (a & Ha & H)
  end.

(** Normalise lengths and finish with [lia]. *)
Ltac len_lia := autorewrite with gse_len in *; lia.
