(* ===== verification/CommonData.v ===== *)
(** * Byte-level utilities: core/vector_ref.h and core/CommonData.{h,cpp}

    [VectorRef] models the views the decoder works on; [BigEndian] the integer
    conversions [toBigEndian], [fromBigEndian], [bytesRequired] and
    [toCompactBigEndian]; [Hex] the hexadecimal and nibble conversions. A
    [std::string] is the list of its bytes. *)

From S2P Require Import Prelude.

Module VectorRef.

(** [vector_ref::cropped(_begin, _count)]: out of bounds gives the empty view. *)
Definition cropped2 {A} (m : list A) (_begin _count : Z) : list A :=
  if (_begin <=? zlen m) && (_count <=? zlen m) && (_begin + _count <=? zlen m)
  then take (Z.to_nat _count) (drop (Z.to_nat _begin) m)
  else [].

(** [vector_ref::cropped(_begin)]. *)
Definition cropped {A} (m : list A) (_begin : Z) : list A :=
  if _begin <=? zlen m then drop (Z.to_nat _begin) m else [].

Lemma cropped2_app {A} (a b c : list A) :
  cropped2 (a ++ b ++ c) (zlen a) (zlen b) = b.
Proof.
  unfold cropped2. rewrite !zlen_app.
  pose proof (zlen_nonneg a). pose proof (zlen_nonneg b). pose proof (zlen_nonneg c).
  rewrite !(proj2 (Z.leb_le _ _)) by lia. simpl.
  unfold zlen. rewrite !Nat2Z.id, drop_app_length, take_app_length. done.
Qed.

Lemma cropped2_prefix {A} (b c : list A) n :
  n = zlen b -> cropped2 (b ++ c) 0 n = b.
Proof. intros ->. exact (cropped2_app [] b c). Qed.

Lemma cropped2_all {A} (a b : list A) :
  cropped2 (a ++ b) (zlen a) (zlen b) = b.
Proof. pose proof (cropped2_app a b []) as H. by rewrite app_nil_r in H. Qed.

Lemma cropped_app {A} (a b : list A) n :
  n = zlen a -> cropped (a ++ b) n = b.
Proof.
  intros ->. unfold cropped. rewrite zlen_app.
  pose proof (zlen_nonneg b). rewrite (proj2 (Z.leb_le _ _)) by lia.
  unfold zlen. by rewrite Nat2Z.id, drop_app_length.
Qed.

(** A cropped view never exceeds the view it was cropped from. *)
Lemma zlen_cropped2_le {A} (m : list A) b c : zlen (cropped2 m b c) <= zlen m.
Proof.
  unfold cropped2. case_match; [|apply zlen_nonneg].
  unfold zlen. rewrite length_take, length_drop. lia.
Qed.

Lemma zlen_cropped_le {A} (m : list A) b : 0 <= b -> zlen (cropped m b) <= zlen m - b \/ cropped m b = [].
Proof.
  intros Hb. unfold cropped. destruct (Z.leb_spec b (zlen m)); [left|by right].
  unfold zlen in *. rewrite length_drop. lia.
Qed.

End VectorRef.

Module BigEndian.

(** [toBigEndian(_val, o_out)] on a container of [n] bytes: the loop stores
    the low byte last and shifts. *)
Fixpoint toBigEndian (n : nat) (_val : Z) : bytes :=
  match n with
  | O => []
  | S m => toBigEndian m (Z.shiftr _val 8) ++ [byte_of (Z.land _val 255)]
  end.

(** [fromBigEndian<T>(_bytes)]; [T] is the conversion to the result type
    ([u64], [i64], ..., the identity for [bigint]). *)
Definition fromBigEndian (T : Z -> Z) (_bytes : bytes) : Z :=
  fold_left (fun ret i => T (Z.lor (Z.shiftl ret 8) (bval i))) _bytes 0.

(** [bytesRequired(_i)]: [for (; _i != 0; ++i, _i >>= 8)]. The fuel is the
    number of bits of [_i] plus two; [bytesRequired_unique] shows it suffices. *)
Fixpoint bytesRequired_loop (fuel : nat) (i _i : Z) : Z :=
  match fuel with
  | O => i
  | S f => if _i =? 0 then i else bytesRequired_loop f (i + 1) (Z.shiftr _i 8)
  end.

Definition bytesRequired (_i : Z) : Z :=
  bytesRequired_loop (S (S (Z.to_nat (Z.log2 _i)))) 0 _i.

(** [toCompactBigEndian(_val, _min)]. *)
Definition toCompactBigEndian (_val _min : Z) : bytes :=
  toBigEndian (Z.to_nat (Z.max _min (bytesRequired _val))) _val.

Lemma length_toBigEndian n v : length (toBigEndian n v) = n.
Proof. revert v. induction n as [|n IH]; intros v; simpl; [done|]. rewrite length_app, IH. simpl. lia. Qed.

Lemma zlen_toBigEndian n v : zlen (toBigEndian n v) = Z.of_nat n.
Proof. unfold zlen. by rewrite length_toBigEndian. Qed.

(** The big-endian value of a byte string: the reference meaning of the
    conversions. *)
Fixpoint be_val (l : bytes) : Z :=
  match l with
  | [] => 0
  | b :: l' => bval b * 256 ^ zlen l' + be_val l'
  end.

Lemma be_val_app l k : be_val (l ++ k) = be_val l * 256 ^ zlen k + be_val k.
Proof.
  induction l as [|b l IH]; simpl; [lia|].
  rewrite IH, zlen_app, Z.pow_add_r by apply zlen_nonneg. lia.
Qed.

Lemma be_val_range l : 0 <= be_val l < 256 ^ zlen l.
Proof.
  induction l as [|b l IH]; [unfold zlen; simpl; lia|].
  cbn [be_val]. rewrite zlen_cons, Z.pow_add_r by (pose proof (zlen_nonneg l); lia).
  pose proof (bval_range b). nia.
Qed.

Lemma lor_shift_byte a b : 0 <= b < 256 -> Z.lor (Z.shiftl a 8) b = a * 256 + b.
Proof.
  intros Hb. rewrite Z.shiftl_mul_pow2 by lia. change (2 ^ 8) with 256.
  rewrite <- Z.lxor_lor, <- Z.add_nocarry_lxor; [done| |].
  all: apply Z.bits_inj'; intros n Hn; rewrite Z.land_spec, Z.bits_0.
  all: change 256 with (2 ^ 8); destruct (Z.ltb_spec n 8).
  all: try (rewrite Z.mul_pow2_bits_low by lia; done).
  all: rewrite andb_comm, Z.bits_above_log2; try done; try lia.
  all: destruct (Z.eq_dec b 0) as [->|]; [simpl; lia|].
  all: apply Z.log2_lt_pow2; [lia|]; apply Z.lt_le_trans with (2 ^ 8); [lia|].
  all: apply Z.pow_le_mono_r; lia.
Qed.

Lemma fold_be_val l acc :
  fold_left (fun ret i => Z.lor (Z.shiftl ret 8) (bval i)) l acc = acc * 256 ^ zlen l + be_val l.
Proof.
  revert acc. induction l as [|b l IH]; intros acc; cbn [fold_left be_val].
  - unfold zlen. simpl. lia.
  - rewrite IH, lor_shift_byte by apply bval_range. rewrite zlen_cons, Z.pow_add_r by (pose proof (zlen_nonneg l); lia).
    lia.
Qed.

(** At [bigint] the loop computes the big-endian value. *)
Lemma fromBigEndian_bigint l : fromBigEndian id l = be_val l.
Proof.
  unfold fromBigEndian. change (fun ret i => id (Z.lor (Z.shiftl ret 8) (bval i)))
    with (fun ret i => Z.lor (Z.shiftl ret 8) (bval i)).
  rewrite fold_be_val. lia.
Qed.

(** At a type whose conversion is the identity on [lo, hi) the loop computes
    the big-endian value as long as it fits. *)
Lemma fromBigEndian_small T l :
  (forall z, 0 <= z <= be_val l -> T z = z) -> fromBigEndian T l = be_val l.
Proof.
  intros HT. rewrite <- fromBigEndian_bigint. unfold fromBigEndian.
  assert (forall acc, 0 <= acc ->
    fold_left (fun ret i => Z.lor (Z.shiftl ret 8) (bval i)) l acc <= be_val l ->
    fold_left (fun ret i => T (Z.lor (Z.shiftl ret 8) (bval i))) l acc =
    fold_left (fun ret i => id (Z.lor (Z.shiftl ret 8) (bval i))) l acc) as Hgen.
  { generalize (be_val l) HT. clear HT. intros M HT. induction l as [|b l IH]; intros acc Hacc Hle; [done|].
    cbn [fold_left] in *. pose proof (bval_range b). rewrite lor_shift_byte in * by done.
    assert (acc * 256 + bval b <= M).
    { rewrite fold_be_val in Hle. pose proof (be_val_range l).
      assert (1 <= 256 ^ zlen l) by (pose proof (zlen_nonneg l); apply (Z.pow_le_mono_r 256 0); lia).
      nia. }
    rewrite HT by lia. change (id (acc * 256 + bval b)) with (acc * 256 + bval b). apply IH; [lia|done]. }
  apply Hgen; [lia|]. rewrite fold_be_val. lia.
Qed.

(** For a type whose conversion wraps, the loop computes the wrapped value. *)
Lemma fromBigEndian_wrap T l :
  T 0 = 0 -> (forall a b, T (T a * 256 + b) = T (a * 256 + b)) -> fromBigEndian T l = T (be_val l).
Proof.
  intros H0 HT. unfold fromBigEndian.
  assert (forall acc, fold_left (fun ret i => T (Z.lor (Z.shiftl ret 8) (bval i))) l (T acc) =
                      T (acc * 256 ^ zlen l + be_val l)) as Hgen.
  { induction l as [|b l IH]; intros acc; cbn [fold_left be_val].
    - rewrite (@zlen_nil byte). f_equal. lia.
    - rewrite lor_shift_byte by apply bval_range. rewrite HT, IH. f_equal.
      rewrite zlen_cons, Z.pow_add_r by (pose proof (zlen_nonneg l); lia). lia. }
  specialize (Hgen 0). rewrite H0, Z.mul_0_l in Hgen. exact Hgen.
Qed.

Lemma fromBigEndian_i64 l : fromBigEndian i64 l = i64 (be_val l).
Proof.
  apply fromBigEndian_wrap; [done|]. intros a b. unfold i64. f_equal.
  set (q := (a + 2 ^ 63) mod 2 ^ 64). pose proof (Z.div_mod (a + 2 ^ 63) (2 ^ 64) ltac:(lia)) as Hd. fold q in Hd.
  replace (a * 256 + b + 2 ^ 63) with ((q - 2 ^ 63) * 256 + b + 2 ^ 63 + ((a + 2 ^ 63) / 2 ^ 64 * 256) * 2 ^ 64) by lia.
  by rewrite Z.mod_add by lia.
Qed.

Lemma be_val_toBigEndian n v : 0 <= v -> be_val (toBigEndian n v) = v mod 256 ^ Z.of_nat n.
Proof.
  revert v. induction n as [|n IH]; intros v Hv.
  - simpl. by rewrite Z.mod_1_r.
  - cbn [toBigEndian]. rewrite be_val_app. cbn [be_val]. rewrite zlen_cons, zlen_nil.
    rewrite IH by (apply Z.shiftr_nonneg; lia).
    rewrite bval_byte_of. change 255 with (Z.ones 8). rewrite Z.land_ones by lia.
    rewrite Z.shiftr_div_pow2 by lia. change (2 ^ 8) with 256. change (256 ^ (1 + 0)) with 256.
    change (256 ^ 0) with 1. rewrite Z.mod_mod by lia.
    replace (256 ^ Z.of_nat (S n)) with (256 * 256 ^ Z.of_nat n) by (rewrite Nat2Z.inj_succ, Z.pow_succ_r; lia).
    rewrite Z.rem_mul_r by lia. lia.
Qed.

Lemma toBigEndian_be_val l : toBigEndian (length l) (be_val l) = l.
Proof.
  induction l as [|b l IH] using rev_ind; [done|].
  rewrite length_app, Nat.add_comm. cbn [length Nat.add toBigEndian]. f_equal.
  - rewrite be_val_app. cbn [be_val]. rewrite Z.shiftr_div_pow2 by lia. change (2 ^ 8) with 256.
    change (256 ^ zlen [b]) with 256. change (256 ^ zlen (@nil byte)) with 1.
    pose proof (bval_range b). rewrite Z.div_add_l, Z.div_small by lia. rewrite Z.add_0_r. exact IH.
  - f_equal. rewrite be_val_app. cbn [be_val]. change (256 ^ zlen [b]) with 256.
    change (256 ^ zlen (@nil byte)) with 1. change 255 with (Z.ones 8). rewrite Z.land_ones by lia.
    change (2 ^ 8) with 256. rewrite Z.add_comm, Z.mod_add by lia.
    pose proof (bval_range b). rewrite Z.mod_small by lia.
    rewrite <- (byte_of_bval b) at 2. f_equal. lia.
Qed.

Lemma be_val_inj l k : length l = length k -> be_val l = be_val k -> l = k.
Proof.
  intros Hl Hv. by rewrite <- (toBigEndian_be_val l), <- (toBigEndian_be_val k), Hl, Hv.
Qed.

(** The loop of [bytesRequired] returns the number of base-256 digits. *)
Lemma bytesRequired_loop_spec fuel i v k :
  0 <= k -> (Z.to_nat k < fuel)%nat ->
  (v = 0 /\ k = 0 \/ 1 <= k /\ 256 ^ (k - 1) <= v < 256 ^ k) ->
  bytesRequired_loop fuel i v = i + k.
Proof.
  revert i v k. induction fuel as [|f IH]; intros i v k Hk Hf Hv; [lia|].
  cbn [bytesRequired_loop]. destruct (Z.eqb_spec v 0) as [->|Hne].
  - destruct Hv as [[_ ->]|[H1 H2]]; [lia|].
    assert (1 <= 256 ^ (k - 1)) by (apply (Z.pow_le_mono_r 256 0); lia). lia.
  - destruct Hv as [[? _]|[H1 [H2 H3]]]; [lia|].
    rewrite (IH (i + 1) _ (k - 1)); [lia|lia|lia|].
    rewrite Z.shiftr_div_pow2 by lia. change (2 ^ 8) with 256.
    destruct (Z.eq_dec k 1) as [->|].
    + left. split; [|lia]. apply Z.div_small. change (256 ^ 1) with 256 in H3. lia.
    + right. split; [lia|].
      replace (256 ^ (k - 1)) with (256 * 256 ^ (k - 1 - 1)) in * by (rewrite <- Z.pow_succ_r by lia; f_equal; lia).
      replace (256 ^ k) with (256 * (256 * 256 ^ (k - 1 - 1))) in H3
        by (rewrite <- !Z.pow_succ_r by lia; f_equal; lia).
      split; [apply Z.div_le_lower_bound; lia|apply Z.div_lt_upper_bound; lia].
Qed.

Lemma bytesRequired_unique v k :
  1 <= k -> 256 ^ (k - 1) <= v < 256 ^ k -> bytesRequired v = k.
Proof.
  intros Hk Hv. unfold bytesRequired.
  rewrite (bytesRequired_loop_spec _ 0 v k); [lia|lia| |right; lia].
  assert (k - 1 <= Z.log2 v); [|lia].
  etransitivity; [|apply (Z.log2_le_mono (256 ^ (k - 1)) v); lia].
  change 256 with (2 ^ 8). rewrite <- Z.pow_mul_r, Z.log2_pow2 by lia. lia.
Qed.

Lemma bytesRequired_0 : bytesRequired 0 = 0.
Proof. done. Qed.

Lemma bytesRequired_pos v :
  0 < v -> 1 <= bytesRequired v /\ 256 ^ (bytesRequired v - 1) <= v < 256 ^ bytesRequired v.
Proof.
  intros Hv. set (k := Z.log2 v / 8 + 1).
  pose proof (Z.log2_spec v Hv) as [Hlo Hhi]. pose proof (Z.log2_nonneg v).
  pose proof (Z.div_mod (Z.log2 v) 8 ltac:(lia)). pose proof (Z.mod_pos_bound (Z.log2 v) 8 ltac:(lia)).
  assert (1 <= k) by (pose proof (Z.div_pos (Z.log2 v) 8); lia).
  assert (256 ^ (k - 1) <= v < 256 ^ k) as Hk.
  { change 256 with (2 ^ 8). rewrite <- !Z.pow_mul_r by lia. split.
    - etransitivity; [|exact Hlo]. apply Z.pow_le_mono_r; lia.
    - eapply Z.lt_le_trans; [exact Hhi|]. apply Z.pow_le_mono_r; lia. }
  rewrite (bytesRequired_unique v k) by done. done.
Qed.

Lemma bytesRequired_nonneg v : 0 <= v -> 0 <= bytesRequired v.
Proof.
  intros Hv. destruct (Z.eq_dec v 0) as [->|]; [done|]. pose proof (bytesRequired_pos v). lia.
Qed.

Lemma bytesRequired_le v n : 0 <= n -> 0 <= v < 256 ^ n -> bytesRequired v <= n.
Proof.
  intros Hn Hv. destruct (Z.eq_dec v 0) as [->|]; [done|].
  destruct (bytesRequired_pos v) as (H1 & H2 & H3); [lia|].
  destruct (Z.le_gt_cases (bytesRequired v) n); [done|].
  assert (256 ^ n <= 256 ^ (bytesRequired v - 1)) by (apply Z.pow_le_mono_r; lia). lia.
Qed.

Lemma be_val_compact v m :
  0 <= v -> 0 <= m -> be_val (toCompactBigEndian v m) = v.
Proof.
  intros Hv Hm. unfold toCompactBigEndian. rewrite be_val_toBigEndian by done.
  pose proof (bytesRequired_nonneg v Hv). rewrite Z2Nat.id by lia.
  apply Z.mod_small. split; [done|].
  destruct (Z.eq_dec v 0) as [->|]; [apply Z.pow_pos_nonneg; lia|].
  destruct (bytesRequired_pos v) as (_ & _ & H3); [lia|].
  eapply Z.lt_le_trans; [exact H3|]. apply Z.pow_le_mono_r; lia.
Qed.

Lemma zlen_compact v : 0 <= v -> zlen (toCompactBigEndian v 0) = bytesRequired v.
Proof.
  intros Hv. pose proof (bytesRequired_nonneg v Hv). unfold toCompactBigEndian.
  rewrite zlen_toBigEndian. lia.
Qed.

(** A compact encoding starts with a non-zero byte. *)
Lemma compact_head v b l : 0 <= v -> toCompactBigEndian v 0 = b :: l -> bval b <> 0.
Proof.
  intros Hv E H0. pose proof (be_val_compact v 0 Hv ltac:(lia)) as Hval.
  pose proof (zlen_compact v Hv) as Hlen. rewrite E in Hval, Hlen. cbn [be_val] in Hval.
  rewrite zlen_cons in Hlen. rewrite H0 in Hval. pose proof (zlen_nonneg l).
  destruct (bytesRequired_pos v) as (_ & H2 & _).
  { destruct (Z.eq_dec v 0) as [->|]; [vm_compute in E; discriminate|lia]. }
  pose proof (be_val_range l). replace (bytesRequired v - 1) with (zlen l) in H2 by lia. lia.
Qed.

Lemma compact_be_val b l : bval b <> 0 -> toCompactBigEndian (be_val (b :: l)) 0 = b :: l.
Proof.
  intros Hb. pose proof (be_val_range (b :: l)) as [_ Hhi]. pose proof (be_val_range l) as [Hlo _].
  pose proof (bval_range b). pose proof (zlen_nonneg l).
  assert (bytesRequired (be_val (b :: l)) = zlen (b :: l)) as Hr.
  { apply bytesRequired_unique; [rewrite zlen_cons; lia|]. split; [|done].
    rewrite zlen_cons. cbn [be_val]. replace (1 + zlen l - 1) with (zlen l) by lia.
    replace (zlen l + 1 - 1) with (zlen l) by lia.
    pose proof (Z.pow_pos_nonneg 256 (zlen l)). nia. }
  unfold toCompactBigEndian. rewrite Hr, Z.max_r by apply zlen_nonneg.
  rewrite to_nat_zlen. apply toBigEndian_be_val.
Qed.

End BigEndian.

Module Hex.

Definition c_0 : byte := Byte.x30.
Definition c_x : byte := Byte.x78.

(** [fromHexChar(_i)], [-1] for a character that is no hexadecimal digit. *)
Definition fromHexChar (_i : byte) : Z :=
  if (48 <=? bval _i) && (bval _i <=? 57) then bval _i - 48
  else if (97 <=? bval _i) && (bval _i <=? 102) then bval _i - 97 + 10
  else if (65 <=? bval _i) && (bval _i <=? 70) then bval _i - 65 + 10
  else -1.

(** [hexdigits[n]] for a nibble [n]. *)
Definition hexdigit (n : Z) : byte :=
  if n <? 10 then byte_of (48 + n) else byte_of (97 + (n - 10)).

(** [toHex(_it, _end, _prefix)]. *)
Definition toHex (_prefix data : bytes) : bytes :=
  _prefix ++ flat_map (fun b => [hexdigit (Z.land (Z.shiftr (bval b) 4) 15); hexdigit (Z.land (bval b) 15)]) data.

Definition prefix_0x : bytes := [c_0; c_x].

Definition has_0x (_s : bytes) : bool :=
  match _s with
  | a :: b :: _ => bool_decide (a = c_0) && bool_decide (b = c_x)
  | _ => false
  end.

(** [isHex(_s)]. *)
Definition isHex (_s : bytes) : bool :=
  forallb (fun c => negb (fromHexChar c =? -1)) (if has_0x _s then drop 2 _s else _s).

(** The loop of [fromHex] over the remaining, even number of characters:
    [None] at a bad character. *)
Fixpoint fromHex_pairs (_s : bytes) : option bytes :=
  match _s with
  | hc :: lc :: r =>
      let h := fromHexChar hc in
      let l := fromHexChar lc in
      if negb (h =? -1) && negb (l =? -1)
      then ret ← fromHex_pairs r; Some (byte_of (h * 16 + l) :: ret)
      else None
  | _ => Some []
  end.

(** [fromHex(_s, _throw)]: [_throw] is [WhenError::Throw]. *)
Definition fromHex (_s : bytes) (_throw : bool) : result bytes :=
  let bad := if _throw then Throw BadHexCharacter else Ok [] in
  let rest := if has_0x _s then drop 2 _s else _s in
  let finish (pre r : bytes) :=
    match fromHex_pairs r with
    | Some l => Ok (pre ++ l)
    | None => bad
    end in
  if Z.odd (zlen _s) then
    match rest with
    | c :: r => if fromHexChar c =? -1 then bad else finish [byte_of (fromHexChar c)] r
    | [] => bad
    end
  else finish [] rest.

(** [asNibbles(_s)]. *)
Definition asNibbles (_s : bytes) : bytes :=
  flat_map (fun i => [byte_of (bval i / 16); byte_of (bval i mod 16)]) _s.

Lemma fromHexChar_hexdigit n : 0 <= n < 16 -> fromHexChar (hexdigit n) = n.
Proof.
  intros H. assert (n ∈ seqZ 0 16) as Hin by (apply elem_of_seqZ; lia).
  revert n Hin H. apply (proj1 (Forall_forall (fun n => 0 <= n < 16 -> fromHexChar (hexdigit n) = n) (seqZ 0 16))).
  repeat (constructor; [intros; reflexivity|]). constructor.
Qed.

Lemma hexdigit_not_x n : 0 <= n < 16 -> hexdigit n <> c_x.
Proof.
  intros H E. pose proof (fromHexChar_hexdigit n H) as F. rewrite E in F. vm_compute in F. lia.
Qed.

Lemma nibbles_range b :
  0 <= Z.land (Z.shiftr (bval b) 4) 15 < 16 /\ 0 <= Z.land (bval b) 15 < 16 /\
  Z.land (Z.shiftr (bval b) 4) 15 * 16 + Z.land (bval b) 15 = bval b.
Proof.
  pose proof (bval_range b). change 15 with (Z.ones 4). rewrite !Z.land_ones, Z.shiftr_div_pow2 by lia.
  change (2 ^ 4) with 16. assert (bval b / 16 < 16) by (apply Z.div_lt_upper_bound; lia).
  pose proof (Z.div_pos (bval b) 16 ltac:(lia) ltac:(lia)).
  rewrite (Z.mod_small (bval b / 16)) by lia. pose proof (Z.div_mod (bval b) 16 ltac:(lia)).
  pose proof (Z.mod_pos_bound (bval b) 16 ltac:(lia)). lia.
Qed.

Lemma fromHex_pairs_toHex data : fromHex_pairs (toHex [] data) = Some data.
Proof.
  induction data as [|b data IH]; [done|].
  unfold toHex in *. cbn [flat_map app fromHex_pairs]. cbn [app] in IH.
  destruct (nibbles_range b) as (H1 & H2 & H3).
  rewrite !fromHexChar_hexdigit by done.
  rewrite !(proj2 (Z.eqb_neq _ _)) by lia. cbn [negb andb].
  rewrite IH. simpl. by rewrite H3, byte_of_bval.
Qed.

Lemma zlen_toHex p data : zlen (toHex p data) = zlen p + 2 * zlen data.
Proof.
  unfold toHex. rewrite zlen_app. f_equal. induction data as [|b data IH]; [done|].
  cbn [flat_map app]. rewrite !zlen_cons. cbn [flat_map app] in IH. rewrite IH. lia.
Qed.

Lemma has_0x_toHex data : has_0x (toHex [] data) = false.
Proof.
  unfold toHex. destruct data as [|b data]; [done|]. cbn [flat_map app has_0x].
  destruct (nibbles_range b) as (_ & H2 & _).
  rewrite (bool_decide_eq_false_2 (hexdigit (Z.land (bval b) 15) = c_x)) by (by apply hexdigit_not_x).
  apply andb_false_r.
Qed.

(** Hex strings written by [toHex], with or without the 0x prefix, are read
    back by [fromHex] to the bytes they were written from. *)
Theorem fromHex_toHex (data : bytes) (prefixed throws : bool) :
  fromHex (toHex (if prefixed then prefix_0x else []) data) throws = Ok data.
Proof.
  unfold fromHex. rewrite zlen_toHex.
  replace (Z.odd (zlen (if prefixed then prefix_0x else []) + 2 * zlen data)) with false
    by (rewrite Z.odd_add_mul_2; by destruct prefixed).
  destruct prefixed.
  - change (toHex prefix_0x data) with (c_0 :: c_x :: toHex [] data).
    replace (has_0x (c_0 :: c_x :: toHex [] data)) with true by reflexivity.
    change (drop 2 (c_0 :: c_x :: toHex [] data)) with (toHex [] data).
    by rewrite fromHex_pairs_toHex.
  - rewrite has_0x_toHex, fromHex_pairs_toHex. done.
Qed.

End Hex.
