(* ===== verification/RLP.v ===== *)
(** * Recursive Linear Prefix coding: core/RLP.{h,cpp}

    [Decoder] is the class [RLP] (views on encoded data, with the index cache
    of [operator[]]), [Stream] the class [RLPStream], [Spec] the reference
    encoding of a tree of strings and lists. *)

From S2P Require Import Prelude CommonData.
Import VectorRef BigEndian.

(** ** The constants of RLP.h *)

Definition c_rlpMaxLengthBytes : Z := 8.
Definition c_rlpDataImmLenStart : Z := 0x80.
Definition c_rlpListStart : Z := 0xc0.
Definition c_rlpDataImmLenCount : Z := c_rlpListStart - c_rlpDataImmLenStart - c_rlpMaxLengthBytes.
Definition c_rlpDataIndLenZero : Z := c_rlpDataImmLenStart + c_rlpDataImmLenCount - 1.
Definition c_rlpListImmLenCount : Z := 256 - c_rlpListStart - c_rlpMaxLengthBytes.
Definition c_rlpListIndLenZero : Z := c_rlpListStart + c_rlpListImmLenCount - 1.

(** ** The reference encoding *)

Module Spec.

#[warnings="-register-all"]
Inductive item : Type :=
  | Str (b : bytes)
  | Lst (l : list item).

(** Length header: one byte for short payloads, else the length of the
    big-endian length followed by the length. *)
Definition header (immStart len : Z) : bytes :=
  if len <? 56 then [byte_of (immStart + len)]
  else byte_of (immStart + 55 + bytesRequired len) :: toCompactBigEndian len 0.

Definition enc_str (b : bytes) : bytes :=
  match b with
  | [x] => if bval x <? 128 then b else header 128 (zlen b) ++ b
  | _ => header 128 (zlen b) ++ b
  end.

Definition enc_list (es : list bytes) : bytes :=
  header 192 (zlen (concat es)) ++ concat es.

Fixpoint enc (it : item) : bytes :=
  match it with
  | Str b => enc_str b
  | Lst l => enc_list (map enc l)
  end.

(** An unsigned integer is the string of its big-endian digits. *)
Definition enc_int (v : Z) : bytes := enc_str (toCompactBigEndian v 0).

End Spec.

(** ** Class RLP *)

Module Decoder.

(** Conversion flags. *)
Definition AllowNonCanon : Z := 1.
Definition ThrowOnFail : Z := 4.
Definition FailIfTooBig : Z := 8.
Definition FailIfTooSmall : Z := 16.
Definition Strict : Z := Z.lor ThrowOnFail FailIfTooBig.
Definition VeryStrict : Z := Z.lor (Z.lor ThrowOnFail FailIfTooBig) FailIfTooSmall.
Definition LaissezFaire : Z := AllowNonCanon.

Definition flag (s f : Z) : bool := negb (Z.land s f =? 0).

(** [m_data[i]]; every use in the code is guarded by a size check. *)
Definition at_ (m : bytes) (i : Z) : Z := bval (nth (Z.to_nat i) m Byte.x00).

Definition isNull (m : bytes) : bool := zlen m =? 0.
Definition isEmpty (m : bytes) : bool :=
  negb (isNull m) && ((at_ m 0 =? c_rlpDataImmLenStart) || (at_ m 0 =? c_rlpListStart)).
Definition isData (m : bytes) : bool := negb (isNull m) && (at_ m 0 <? c_rlpListStart).
Definition isList (m : bytes) : bool := negb (isNull m) && (c_rlpListStart <=? at_ m 0).
Definition isSingleByte (m : bytes) : bool := negb (isNull m) && (at_ m 0 <? c_rlpDataImmLenStart).

Definition requireGood (m : bytes) : result unit :=
  if isNull m then Throw BadRLP
  else if negb (at_ m 0 =? c_rlpDataImmLenStart + 1) then Ok tt
  else if zlen m <? 2 then Throw BadRLP
  else if at_ m 1 <? c_rlpDataImmLenStart then Throw BadRLP
  else Ok tt.

Definition isInt (m : bytes) : result bool :=
  if isNull m then Ok false else
  _ ← requireGood m;
  let n := at_ m 0 in
  if n <? c_rlpDataImmLenStart then Ok (negb (n =? 0))
  else if n =? c_rlpDataImmLenStart then Ok true
  else if n <=? c_rlpDataIndLenZero then
    if zlen m <=? 1 then Throw BadRLP else Ok (negb (at_ m 1 =? 0))
  else if n <? c_rlpListStart then
    if zlen m <=? 1 + n - c_rlpDataIndLenZero then Throw BadRLP
    else Ok (negb (at_ m (1 + n - c_rlpDataIndLenZero) =? 0))
  else Ok false.

(** The common part of the two multi-byte length cases of [length()]:
    [lengthSize] length bytes follow the first byte. *)
Definition long_length (m : bytes) (lengthSize limit : Z) : result Z :=
  _ ← throw_if (zlen m <=? lengthSize) BadRLP;
  _ ← throw_if ((1 <? zlen m) && (at_ m 1 =? 0)) BadRLP;
  _ ← throw_if (8 <? lengthSize) UndersizeRLP;
  _ ← throw_if (at_ m 1 =? 0) BadRLP;
  let ret := fromBigEndian u64 (take (Z.to_nat lengthSize) (drop 1 m)) in
  _ ← throw_if (ret <? limit) BadRLP;
  _ ← throw_if (2 ^ 64 - 1 - 0x100 <=? ret) UndersizeRLP;
  Ok ret.

(** [RLP::length()]: the payload size the header announces. *)
Definition length (m : bytes) : result Z :=
  if isNull m then Ok 0 else
  _ ← requireGood m;
  let n := at_ m 0 in
  if n <? c_rlpDataImmLenStart then Ok 1
  else if n <=? c_rlpDataIndLenZero then Ok (n - c_rlpDataImmLenStart)
  else if n <? c_rlpListStart then
    long_length m (n - c_rlpDataIndLenZero)
      (c_rlpListStart - c_rlpDataImmLenStart - c_rlpMaxLengthBytes)
  else if n <=? c_rlpListIndLenZero then Ok (n - c_rlpListStart)
  else long_length m (n - c_rlpListIndLenZero) (0x100 - c_rlpListStart - c_rlpMaxLengthBytes).

Definition lengthSize (m : bytes) : Z :=
  if isData m && (c_rlpDataIndLenZero <? at_ m 0) then at_ m 0 - c_rlpDataIndLenZero
  else if isList m && (c_rlpListIndLenZero <? at_ m 0) then at_ m 0 - c_rlpListIndLenZero
  else 0.

Definition payloadOffset (m : bytes) : Z := if isSingleByte m then 0 else 1 + lengthSize m.

Definition payload (m : bytes) : result bytes :=
  l ← length m;
  if zlen m <? l then Throw BadRLP else Ok (cropped2 m (payloadOffset m) l).

Definition actualSize (m : bytes) : result Z :=
  if isNull m then Ok 0
  else if isSingleByte m then Ok 1
  else if isData m || isList m then l ← length m; Ok (payloadOffset m + l)
  else Ok 0.

(** The object: its bytes and the mutable index cache of [operator[]]. *)
Record RLP : Type := mkRLP {
  m_data : bytes;
  m_lastIndex : Z;
  m_lastEnd : Z;
  m_lastItem : bytes
}.

Definition fresh (d : bytes) : RLP := mkRLP d (2 ^ 64 - 1) 0 [].

(** [RLP::RLP(bytesConstRef _d, Strictness _s)]. *)
Definition make (_d : bytes) (_s : Z) : result RLP :=
  sz ← (if flag _s FailIfTooBig then actualSize _d else Ok 0);
  d1 ← (if flag _s FailIfTooBig && (sz <? zlen _d)
        then if flag _s ThrowOnFail then Throw OversizeRLP else Ok []
        else Ok _d);
  sz2 ← (if flag _s FailIfTooSmall then actualSize d1 else Ok 0);
  d2 ← (if flag _s FailIfTooSmall && (zlen _d <? sz2)
        then if flag _s ThrowOnFail then Throw UndersizeRLP else Ok []
        else Ok d1);
  Ok (fresh d2).

(** [RLP::sizeAsEncoded(_data)]. *)
Definition sizeAsEncoded (_data : bytes) : result Z :=
  r ← make _data (Z.lor ThrowOnFail FailIfTooSmall);
  actualSize (m_data r).

(** [RLP::items()]: [for (; d.size(); ++i) d = d.cropped(sizeAsEncoded(d));].
    Each round drops at least one byte, so the payload's length is enough fuel. *)
Fixpoint items_loop (fuel : nat) (d : bytes) (i : Z) : result Z :=
  match fuel with
  | O => Ok i
  | S f => if zlen d =? 0 then Ok i
           else sz ← sizeAsEncoded d; items_loop f (cropped d sz) (i + 1)
  end.

Definition items (m : bytes) : result Z :=
  if isList m then d ← payload m; items_loop (S (Datatypes.length d)) d 0 else Ok 0.

Definition itemCount (m : bytes) : result Z := if isList m then items m else Ok 0.

(** The loop of [operator[]], at most [_i - m_lastIndex] rounds. *)
Fixpoint index_loop (fuel : nat) (_i : Z) (r : RLP) : result RLP :=
  match fuel with
  | O => Ok r
  | S f =>
      if (m_lastIndex r <? _i) && negb (zlen (m_lastItem r) =? 0) then
        p ← payload (m_data r);
        let rest := cropped p (m_lastEnd r) in
        sz ← sizeAsEncoded rest;
        let it := cropped2 rest 0 sz in
        index_loop f _i (mkRLP (m_data r) (m_lastIndex r + 1) (m_lastEnd r + zlen it) it)
      else Ok r
  end.

(** [RLP::operator[](_i)]: the item and the receiver with its new cache. *)
Definition index (r : RLP) (_i : Z) : result (RLP * RLP) :=
  r1 ← (if _i <? m_lastIndex r then
          p ← payload (m_data r);
          e ← sizeAsEncoded p;
          Ok (mkRLP (m_data r) 0 e (cropped2 p 0 e))
        else Ok r);
  r2 ← index_loop (Z.to_nat (_i - m_lastIndex r1)) _i r1;
  item ← make (m_lastItem r2) (Z.lor ThrowOnFail FailIfTooSmall);
  Ok (item, r2).

(** [rlp[_i].data()] on a decoder whose cache is empty. *)
Definition nth_item (d : bytes) (_i : Z) : result bytes :=
  '(it, _) ← index (fresh d) _i; Ok (m_data it).

(** [RLP::toBytes(_flags)]. *)
Definition toBytes (m : bytes) (_flags : Z) : result bytes :=
  if negb (isData m) then
    if flag _flags ThrowOnFail then Throw BadCast else Ok []
  else
    p ← payload m; l ← length m; Ok (take (Z.to_nat l) p).

(** [RLP::toInt<_T>(_flags)]; [_T] is the conversion to the type and
    [maxSize] is [intTraits<_T>::maxSize]. *)
Definition toInt (_T : Z -> Z) (maxSize : Z) (m : bytes) (_flags : Z) : result Z :=
  _ ← requireGood m;
  b ← isInt m;
  if (negb b && negb (flag _flags AllowNonCanon)) || isList m || isNull m then
    if flag _flags ThrowOnFail then Throw BadCast else Ok 0
  else
    p ← payload m;
    if (maxSize <? zlen p) && flag _flags FailIfTooBig then
      if flag _flags ThrowOnFail then Throw BadCast else Ok 0
    else Ok (fromBigEndian _T p).

Definition toInt_u8 (m : bytes) : result Z := toInt u8 1 m Strict.
Definition toInt_u32 (m : bytes) : result Z := toInt u32 4 m Strict.
Definition toInt_i32 (m : bytes) : result Z := toInt i32 4 m Strict.
Definition toInt_u64 (m : bytes) : result Z := toInt u64 8 m Strict.
Definition toInt_i64 (m : bytes) : result Z := toInt i64 8 m Strict.
Definition toInt_u256 (m : bytes) : result Z := toInt (fun z => z mod 2 ^ 256) 32 m Strict.

(** [RLP::toPositiveInt64(_flags)] at the default flags. *)
Definition toPositiveInt64 (m : bytes) : result Z :=
  i ← toInt_i64 m;
  if i <? 0 then Throw BadCast else Ok i.

(** [RLP::toHash<FixedHash<N>>(_flags)]. *)
Definition toHash (N : nat) (m : bytes) (_flags : Z) : result (vec byte N) :=
  _ ← requireGood m;
  p ← payload m;
  let l := zlen p in
  if negb (isData m) || ((Z.of_nat N <? l) && flag _flags FailIfTooBig)
     || ((l <? Z.of_nat N) && flag _flags FailIfTooSmall) then
    if flag _flags ThrowOnFail then Throw BadCast else Ok (vec_of_bytes N [])
  else
    let s := Nat.min N (Z.to_nat l) in
    Ok (vec_of_bytes N (replicate (N - s) Byte.x00 ++ take s p)).

End Decoder.

(** ** Class RLPStream *)

Module Stream.

(** [m_listStack] is kept with its back first. *)
Record RLPStream : Type := mkStream {
  m_out : bytes;
  m_listStack : list (Z * Z)
}.

Definition empty : RLPStream := mkStream [] [].

(** The loop of [pushInt] and of the list header: [for (; _i; _i >>= 8)
    *(b--) = (byte)_i;], on the buffer read backwards from [b]. *)
Fixpoint write_back (rbuf : bytes) (_i : Z) : bytes :=
  match rbuf with
  | [] => []
  | c :: r => if _i =? 0 then c :: r else byte_of _i :: write_back r (Z.shiftr _i 8)
  end.

(** [RLPStream::pushInt(_i, _br)] on [m_out]. *)
Definition pushInt (out : bytes) (_i _br : Z) : bytes :=
  rev (write_back (rev (out ++ replicate (Z.to_nat _br) Byte.x00)) _i).

(** [RLPStream::pushCount(_count, _base)] on [m_out]. *)
Definition pushCount (out : bytes) (_count _base : Z) : result bytes :=
  let br := bytesRequired _count in
  if 0xff <? br + _base then Throw RLPException
  else Ok (pushInt (out ++ [byte_of (br + _base)]) _count br).

(** The header that [noteAppended] writes at position [p] of a finished list
    of [s] bytes, in the gap it makes with [memmove]. *)
Definition list_header (s : Z) : result bytes :=
  let brs := bytesRequired s in
  if s <? c_rlpListImmLenCount then Ok [byte_of (c_rlpListStart + s)]
  else if c_rlpListIndLenZero + brs <=? 0xff then
    Ok (byte_of (c_rlpListIndLenZero + brs)
        :: rev (write_back (replicate (Z.to_nat brs) Byte.x00) s))
  else Throw RLPException.

(** The loop of [RLPStream::noteAppended(_itemCount)]. *)
Fixpoint note_loop (stack : list (Z * Z)) (out : bytes) (_itemCount : Z) : result RLPStream :=
  match stack with
  | [] => Ok (mkStream out [])
  | (first, p) :: rest =>
      if first <? _itemCount then Throw RLPException
      else if negb (first - _itemCount =? 0) then
        Ok (mkStream out ((first - _itemCount, p) :: rest))
      else
        h ← list_header (zlen out - p);
        note_loop rest (take (Z.to_nat p) out ++ h ++ drop (Z.to_nat p) out) 1
  end.

Definition noteAppended (_itemCount : Z) (st : RLPStream) : result RLPStream :=
  if _itemCount =? 0 then Ok st else note_loop (m_listStack st) (m_out st) _itemCount.

(** [RLPStream::appendRaw(_s, _itemCount)]. *)
Definition appendRaw (_s : bytes) (_itemCount : Z) (st : RLPStream) : result RLPStream :=
  noteAppended _itemCount (mkStream (m_out st ++ _s) (m_listStack st)).

(** [RLPStream::appendList(bytesConstRef _rlp)]. *)
Definition appendListBytes (_rlp : bytes) (st : RLPStream) : result RLPStream :=
  out ← (if zlen _rlp <? c_rlpListImmLenCount
         then Ok (m_out st ++ [byte_of (zlen _rlp + c_rlpListStart)])
         else pushCount (m_out st) (zlen _rlp) c_rlpListIndLenZero);
  appendRaw _rlp 1 (mkStream out (m_listStack st)).

(** [RLPStream::appendList(size_t _items)]. *)
Definition appendList (_items : Z) (st : RLPStream) : result RLPStream :=
  if negb (_items =? 0) then Ok (mkStream (m_out st) ((_items, zlen (m_out st)) :: m_listStack st))
  else appendListBytes [] st.

Fixpoint strip_zeros (l : bytes) : bytes :=
  match l with
  | b :: l' => if bval b =? 0 then strip_zeros l' else l
  | [] => []
  end.

(** [RLPStream::append(bytesConstRef _s, bool _compact)]. *)
Definition append (_s : bytes) (_compact : bool) (st : RLPStream) : result RLPStream :=
  let d := if _compact then strip_zeros _s else _s in
  let s := zlen d in
  if (s =? 1) && (bval (nth 0 d Byte.x00) <? c_rlpDataImmLenStart) then
    noteAppended 1 (mkStream (m_out st ++ d) (m_listStack st))
  else
    out ← (if s <? c_rlpDataImmLenCount
           then Ok (m_out st ++ [byte_of (s + c_rlpDataImmLenStart)])
           else pushCount (m_out st) s c_rlpDataIndLenZero);
    st' ← appendRaw d 0 (mkStream out (m_listStack st));
    noteAppended 1 st'.

(** [RLPStream::append(bigint _i)]. *)
Definition appendInt (_i : Z) (st : RLPStream) : result RLPStream :=
  out ←
    (if _i =? 0 then Ok (m_out st ++ [byte_of c_rlpDataImmLenStart])
     else if _i <? c_rlpDataImmLenStart then Ok (m_out st ++ [byte_of _i])
     else
       let br := bytesRequired _i in
       o ← (if br <? c_rlpDataImmLenCount then Ok (m_out st ++ [byte_of (br + c_rlpDataImmLenStart)])
            else
              let brbr := bytesRequired br in
              if 0xff <? c_rlpDataIndLenZero + brbr then Throw RLPException
              else Ok (pushInt (m_out st ++ [byte_of (c_rlpDataIndLenZero + brbr)]) br brbr));
       Ok (pushInt o _i br));
  noteAppended 1 (mkStream out (m_listStack st)).

(** [stream << FixedHash]. *)
Definition appendHash {N} (h : vec byte N) (st : RLPStream) : result RLPStream :=
  append (vec_to_list h) false st.

(** [RLPStream::out()]. *)
Definition out (st : RLPStream) : result bytes :=
  match m_listStack st with
  | [] => Ok (m_out st)
  | _ => Throw RLPException
  end.

End Stream.
