(* ===== verification/RLPFacts.v ===== *)
(** * Correctness of the RLP codec

    The stream writes the reference encoding; the decoder reads strings,
    integers and list items back from it. Sizes are bounded by [2^63], the
    largest object an address space holds. *)

From S2P Require Import Prelude CommonData RLP.
Import VectorRef BigEndian Spec Decoder Stream.

(** A buffer that exists in memory. *)
Definition fits (l : bytes) : Prop := zlen l < 2 ^ 63.

(** ** The writing side *)

Section Encode.

Lemma byte_of_land v : byte_of (Z.land v 255) = byte_of v.
Proof.
  apply bval_inj. rewrite !bval_byte_of. change 255 with (Z.ones 8).
  rewrite Z.land_ones by lia. change (2 ^ 8) with 256. by rewrite Z.mod_mod.
Qed.

Lemma toBigEndian_0 n : toBigEndian n 0 = replicate n Byte.x00.
Proof.
  induction n as [|n IH]; [done|]. cbn [toBigEndian]. change (Z.shiftr 0 8) with 0. rewrite IH.
  change (byte_of (Z.land 0 255)) with Byte.x00. by rewrite <- replicate_cons_app.
Qed.

Lemma write_back_zeros n r v :
  0 <= v < 256 ^ Z.of_nat n ->
  write_back (replicate n Byte.x00 ++ r) v = rev (toBigEndian n v) ++ r.
Proof.
  revert v. induction n as [|n IH]; intros v Hv.
  - assert (v = 0) as -> by (change (256 ^ Z.of_nat 0) with 1 in Hv; lia). by destruct r.
  - cbn [replicate app write_back toBigEndian]. rewrite rev_app_distr. cbn [rev app].
    destruct (Z.eqb_spec v 0) as [->|Hne].
    + change (Z.shiftr 0 8) with 0. rewrite toBigEndian_0. change (byte_of (Z.land 0 255)) with Byte.x00.
      by rewrite rev_replicate'.
    + rewrite byte_of_land, IH; [done|].
      rewrite Nat2Z.inj_succ, Z.pow_succ_r in Hv by lia.
      rewrite Z.shiftr_div_pow2 by lia. change (2 ^ 8) with 256.
      split; [apply Z.div_pos; lia|apply Z.div_lt_upper_bound; lia].
Qed.

Lemma bytesRequired_bound v : 0 <= v -> v < 256 ^ Z.of_nat (Z.to_nat (bytesRequired v)).
Proof.
  intros Hv. pose proof (bytesRequired_nonneg v Hv). rewrite Z2Nat.id by done.
  destruct (Z.eq_dec v 0) as [->|]; [done|]. pose proof (bytesRequired_pos v). lia.
Qed.

Lemma compact_eq v : 0 <= v -> toCompactBigEndian v 0 = toBigEndian (Z.to_nat (bytesRequired v)) v.
Proof.
  intros Hv. unfold toCompactBigEndian. by rewrite Z.max_r by (by apply bytesRequired_nonneg).
Qed.

Lemma pushInt_spec o v : 0 <= v -> pushInt o v (bytesRequired v) = o ++ toCompactBigEndian v 0.
Proof.
  intros Hv. unfold pushInt. rewrite rev_app_distr, compact_eq by done.
  rewrite rev_replicate', write_back_zeros.
  - by rewrite rev_app_distr, !rev_involutive.
  - split; [done|]. apply bytesRequired_bound. lia.
Qed.

Lemma bytesRequired_8 v : 0 <= v < 2 ^ 64 -> bytesRequired v <= 8.
Proof. intros H. apply bytesRequired_le; [lia|]. change (256 ^ 8) with (2 ^ 64). done. Qed.

Lemma list_header_spec s : 0 <= s < 2 ^ 64 -> list_header s = Ok (header 192 s).
Proof.
  intros Hs. unfold list_header, header. pose proof (bytesRequired_8 s Hs).
  change c_rlpListImmLenCount with 56. change c_rlpListStart with 192. change c_rlpListIndLenZero with 247.
  destruct (Z.ltb_spec s 56); [done|]. rewrite (proj2 (Z.leb_le _ _)) by lia.
  do 2 f_equal. rewrite compact_eq by lia.
  rewrite <- (app_nil_r (replicate _ _)), write_back_zeros.
  - by rewrite app_nil_r, rev_involutive.
  - split; [lia|]. apply bytesRequired_bound. lia.
Qed.

Lemma pushCount_spec o s base :
  0 <= s < 2 ^ 64 -> 0 <= base <= 247 ->
  pushCount o s base = Ok (o ++ byte_of (base + bytesRequired s) :: toCompactBigEndian s 0).
Proof.
  intros Hs Hb. unfold pushCount. pose proof (bytesRequired_8 s Hs).
  rewrite (proj2 (Z.ltb_ge _ _)) by lia. rewrite pushInt_spec by lia.
  rewrite <- app_assoc. cbn [app]. do 4 f_equal. lia.
Qed.

(** Every way of appending one item is "write its encoding, then note it". *)
Definition emit (e : bytes) (st : RLPStream) : result RLPStream :=
  noteAppended 1 (mkStream (m_out st ++ e) (m_listStack st)).

Fixpoint emits (es : list bytes) (st : RLPStream) : result RLPStream :=
  match es with
  | [] => Ok st
  | e :: es' => st' ← emit e st; emits es' st'
  end.

Lemma appendRaw_emit e st : appendRaw e 1 st = emit e st.
Proof. done. Qed.

Lemma append_emit s st : fits s -> append s false st = emit (enc_str s) st.
Proof.
  intros Hs. unfold fits in Hs. pose proof (zlen_nonneg s). unfold append.
  assert (forall x, s = [x] -> (bval x <? 128) = true ->
    noteAppended 1 (mkStream (m_out st ++ s) (m_listStack st)) = emit (enc_str s) st) as Hone.
  { intros x -> Hx. unfold enc_str. by rewrite Hx. }
  destruct ((zlen s =? 1) && (bval (nth 0 s Byte.x00) <? c_rlpDataImmLenStart)) eqn:E.
  - apply andb_prop in E as [E1 E2]. apply Z.eqb_eq in E1.
    destruct s as [|x [|y s']]; [by vm_compute in E1| |rewrite !zlen_cons in E1; pose proof (zlen_nonneg s'); lia].
    by apply (Hone x).
  - assert (enc_str s = header 128 (zlen s) ++ s) as Henc.
    { destruct s as [|x [|y s']]; [done| |done]. unfold enc_str. cbn [nth] in E.
      change (zlen [x] =? 1) with true in E. change c_rlpDataImmLenStart with 128 in E. cbn [andb] in E.
      by rewrite E. }
    rewrite Henc. unfold emit, header. change c_rlpDataImmLenCount with 56.
    change c_rlpDataIndLenZero with 183. change c_rlpDataImmLenStart with 128.
    destruct (Z.ltb_spec (zlen s) 56); cbn.
    + rewrite (Z.add_comm (zlen s) 128), <- app_assoc. done.
    + rewrite pushCount_spec by lia. cbn. rewrite <- app_assoc. done.
Qed.

Lemma appendHash_emit N (h : vec byte N) st :
  (N <= 1000)%nat -> appendHash h st = emit (enc_str (vec_to_list h)) st.
Proof. intros HN. apply append_emit. unfold fits. rewrite zlen_vec. lia. Qed.

(** Integers of up to 32 bytes (every machine type and [u256]). *)
Lemma appendInt_emit v st : 0 <= v < 2 ^ 256 -> appendInt v st = emit (enc_int v) st.
Proof.
  intros Hv. unfold appendInt, enc_int.
  change c_rlpDataImmLenStart with 128. change c_rlpDataImmLenCount with 56.
  destruct (Z.eqb_spec v 0) as [->|Hne]; [done|].
  destruct (Z.ltb_spec v 128).
  - assert (bytesRequired v = 1) as Hb by (apply bytesRequired_unique; lia).
    rewrite compact_eq, Hb by lia. change (toBigEndian (Z.to_nat 1) v) with [byte_of (Z.land v 255)].
    unfold enc_str. rewrite byte_of_land, bval_byte_of_small by lia.
    rewrite (proj2 (Z.ltb_lt _ _)) by lia. done.
  - assert (bytesRequired v <= 32) as Hb.
    { apply bytesRequired_le; [lia|]. change (256 ^ 32) with (2 ^ 256). lia. }
    rewrite (proj2 (Z.ltb_lt _ _)) by lia. cbn [mbind result_bind].
    rewrite pushInt_spec by lia.
    assert (enc_str (toCompactBigEndian v 0) = header 128 (bytesRequired v) ++ toCompactBigEndian v 0) as ->.
    { pose proof (zlen_compact v ltac:(lia)) as Hl. pose proof (be_val_compact v 0 ltac:(lia) ltac:(lia)) as Hv'.
      rewrite <- Hl. destruct (toCompactBigEndian v 0) as [|x [|y l]]; [done| |done].
      cbn [be_val] in Hv'. change (256 ^ zlen (@nil byte)) with 1 in Hv'. unfold enc_str.
      rewrite (proj2 (Z.ltb_ge _ _)); [done|lia]. }
    unfold emit, header. rewrite (proj2 (Z.ltb_lt _ _)) by lia.
    rewrite (Z.add_comm (bytesRequired v) 128), <- app_assoc. done.
Qed.

(** A list announced with [appendList] and filled with its items is written
    as one item of the enclosing list. *)
Lemma emits_frame es o p stk n :
  es <> [] -> n = Z.of_nat (Datatypes.length es) -> 0 <= p <= zlen o ->
  zlen o + zlen (concat es) < 2 ^ 64 ->
  emits es (mkStream o ((n, p) :: stk)) =
  note_loop stk (take (Z.to_nat p) o ++ header 192 (zlen o - p + zlen (concat es))
                 ++ drop (Z.to_nat p) o ++ concat es) 1.
Proof.
  revert o n. induction es as [|e es IH]; intros o n Hne -> Hp Hfit; [done|].
  cbn [emits]. unfold emit, noteAppended. cbn [m_out m_listStack note_loop].
  change (1 =? 0) with false. cbn [Datatypes.length concat].
  rewrite (proj2 (Z.ltb_ge _ _)) by lia. cbn [concat] in Hfit. rewrite zlen_app in Hfit |- *.
  pose proof (zlen_nonneg e). pose proof (zlen_nonneg (concat es)).
  assert ((Z.to_nat p <= Datatypes.length o)%nat) by (unfold zlen in *; lia).
  destruct es as [|e' es'].
  - cbn [Datatypes.length]. change (Z.of_nat 1 - 1 =? 0) with true. cbn [negb concat app].
    cbn [concat] in Hfit. rewrite (@zlen_nil byte) in Hfit.
    rewrite zlen_app, list_header_spec by lia. cbn [mbind result_bind].
    rewrite !app_nil_r, (@zlen_nil byte), take_app_le, drop_app_le by done.
    rewrite !Z.add_0_r. replace (zlen o + zlen e - p) with (zlen o - p + zlen e) by lia.
    destruct (note_loop stk _ 1); done.
  - rewrite (proj2 (Z.eqb_neq _ _)) by (cbn [Datatypes.length]; lia). cbn [negb mbind result_bind].
    rewrite IH; [|done|cbn [Datatypes.length]; lia|rewrite zlen_app; lia|rewrite zlen_app; lia].
    rewrite zlen_app, take_app_le, drop_app_le by done.
    replace (zlen o + zlen e - p + zlen (concat (e' :: es'))) with
      (zlen o - p + (zlen e + zlen (concat (e' :: es')))) by lia.
    by rewrite <- (app_assoc (drop _ _)), (zlen_app e).
Qed.

Lemma emit_list es st n :
  n = Z.of_nat (Datatypes.length es) -> fits (m_out st) -> fits (concat es) ->
  (appendList n st ≫= emits es) = emit (enc_list es) st.
Proof.
  intros -> Hst Hfit. unfold fits in *. unfold appendList. destruct es as [|e es].
  - destruct st as [o stk]. change (negb (Z.of_nat (Datatypes.length (@nil bytes)) =? 0)) with false.
    unfold appendListBytes. change (zlen (@nil byte) <? c_rlpListImmLenCount) with true.
    cbn [mbind result_bind m_out m_listStack]. unfold appendRaw. cbn [m_out m_listStack].
    rewrite app_nil_r. change (enc_list []) with [byte_of (zlen (@nil byte) + c_rlpListStart)].
    unfold emit. cbn [m_out m_listStack]. by destruct (noteAppended 1 _).
  - rewrite (proj2 (Z.eqb_neq _ _)) by (cbn [Datatypes.length]; lia). cbn [negb mbind result_bind].
    pose proof (zlen_nonneg (m_out st)).
    rewrite emits_frame by (try done; lia).
    unfold emit, noteAppended. change (1 =? 0) with false. cbn [m_out m_listStack].
    rewrite to_nat_zlen, firstn_all, drop_all. cbn [app].
    by rewrite Z.sub_diag.
Qed.

Lemma emits_app es fs st : emits (es ++ fs) st = (emits es st ≫= emits fs).
Proof.
  revert st. induction es as [|e es IH]; intros st; [done|]. cbn [emits app].
  destruct (emit e st); [apply IH|done].
Qed.

(** A whole message: one list on an empty stream. *)
Lemma out_list es n :
  n = Z.of_nat (Datatypes.length es) -> fits (concat es) ->
  ((appendList n empty ≫= emits es) ≫= out) = Ok (enc_list es).
Proof.
  intros Hn Hf. rewrite emit_list; [|done|done|done]. done.
Qed.

End Encode.

(** ** The reading side *)

Section Decode.

Lemma at_0 x (l : bytes) : at_ (x :: l) 0 = bval x.
Proof. done. Qed.

Lemma at_1 x y (l : bytes) : at_ (x :: y :: l) 1 = bval y.
Proof. done. Qed.

Lemma isNull_cons x (l : bytes) : isNull (x :: l) = false.
Proof. unfold isNull. rewrite zlen_cons. pose proof (zlen_nonneg l). apply Z.eqb_neq. lia. Qed.

Lemma long_length_spec n len (m : bytes) x :
  56 <= len < 2 ^ 63 -> n = bytesRequired len -> m = x :: toCompactBigEndian len 0 ++ drop (S (Z.to_nat n)) m ->
  long_length m n 56 = Ok len.
Proof.
  intros Hlen -> Hm. set (rest := drop _ m) in Hm. clearbody rest. subst m.
  pose proof (bytesRequired_8 len ltac:(lia)) as H8. destruct (bytesRequired_pos len) as (H1 & _); [lia|].
  pose proof (zlen_compact len ltac:(lia)) as Hz.
  assert ((at_ (x :: toCompactBigEndian len 0 ++ rest) 1 =? 0) = false) as Hat.
  { destruct (toCompactBigEndian len 0) as [|y l] eqn:E; [change (zlen (@nil byte)) with 0 in Hz; lia|].
    cbn [app]. rewrite at_1. apply Z.eqb_neq. by apply (compact_head len y l); [lia|]. }
  unfold long_length. pose proof (zlen_nonneg rest).
  rewrite (proj2 (Z.leb_gt (zlen _) _)) by (rewrite zlen_cons, zlen_app; lia). cbn [throw_if mbind result_bind].
  rewrite Hat, andb_false_r. cbn [throw_if mbind result_bind].
  rewrite (proj2 (Z.ltb_ge 8 _)) by lia. cbn [throw_if mbind result_bind].
  replace (take (Z.to_nat (bytesRequired len)) (drop 1 (x :: toCompactBigEndian len 0 ++ rest)))
    with (toCompactBigEndian len 0).
  2: { change (drop 1 (x :: toCompactBigEndian len 0 ++ rest)) with (toCompactBigEndian len 0 ++ rest).
       rewrite <- Hz, to_nat_zlen, take_app_length. done. }
  rewrite fromBigEndian_small, be_val_compact by
    (rewrite ?be_val_compact by lia; first [lia | intros z Hz'; apply u64_small; unfold is_u64; lia]).
  rewrite (proj2 (Z.ltb_ge len 56)) by lia. cbn [throw_if mbind result_bind].
  rewrite (proj2 (Z.leb_gt _ _)) by lia. done.
Qed.

(** What the decoder sees of a length header followed by anything. *)
Lemma dec_header imm len body :
  imm = 128 \/ imm = 192 -> 0 <= len < 2 ^ 63 ->
  (imm = 128 -> len = 1 -> 0 < zlen body /\ 128 <= at_ body 0) ->
  let m := header imm len ++ body in
  isNull m = false /\ isSingleByte m = false /\ isList m = (imm =? 192) /\ isData m = (imm =? 128) /\
  requireGood m = Ok tt /\ length m = Ok len /\ payloadOffset m = zlen (header imm len).
Proof.
  intros Himm Hlen Hgood. unfold header. destruct (Z.ltb_spec len 56) as [Hs|Hs]; cbn [app].
  - set (x := byte_of (imm + len)).
    assert (bval x = imm + len) as Hx by (apply bval_byte_of_small; lia).
    cbv zeta. unfold isSingleByte, isList, isData, lengthSize, payloadOffset, length, requireGood, isSingleByte, lengthSize, isData, isList.
    rewrite isNull_cons, at_0, Hx. cbn [negb andb].
    change c_rlpListStart with 192. change c_rlpDataImmLenStart with 128. change c_rlpDataIndLenZero with 183.
    change c_rlpListIndLenZero with 247. change (zlen [x]) with 1.
    assert ((imm =? 192) = negb (imm =? 128)) as Heqb by (destruct Himm as [->| ->]; done).
    assert ((imm + len <? 128) = false) as -> by (apply Z.ltb_ge; lia).
    assert ((imm + len <? 192) = (imm =? 128)) as -> by (destruct Himm as [->| ->]; cbn; [apply Z.ltb_lt|apply Z.ltb_ge]; lia).
    assert ((192 <=? imm + len) = (imm =? 192)) as -> by (destruct Himm as [->| ->]; cbn; [apply Z.leb_gt|apply Z.leb_le]; lia).
    assert ((imm + len <=? 183) = (imm =? 128)) as -> by (destruct Himm as [->| ->]; cbn; [apply Z.leb_le|apply Z.leb_gt]; lia).
    assert ((183 <? imm + len) = (imm =? 192)) as -> by (destruct Himm as [->| ->]; cbn; [apply Z.ltb_ge|apply Z.ltb_lt]; lia).
    assert ((247 <? imm + len) = false) as -> by (apply Z.ltb_ge; lia).
    assert ((imm + len <=? 247) = true) as -> by (apply Z.leb_le; lia).
    assert ((if negb (imm + len =? 128 + 1) then Ok () else
             if zlen (x :: body) <? 2 then Throw BadRLP else
             if at_ (x :: body) 1 <? 128 then Throw BadRLP else Ok ()) = Ok ()) as ->.
    { destruct (Z.eqb_spec (imm + len) (128 + 1)); [|done]. cbn [negb].
      destruct (Hgood ltac:(lia) ltac:(lia)) as [Hb1 Hb2]. destruct body as [|y body]; [by vm_compute in Hb1|].
      rewrite at_1. rewrite at_0 in Hb2. rewrite !zlen_cons. pose proof (zlen_nonneg body).
      rewrite !(proj2 (Z.ltb_ge _ _)) by lia. done. }
    cbn [mbind result_bind]. rewrite Heqb. destruct Himm as [->| ->]; cbn; repeat split; f_equal; lia.
  - set (n := bytesRequired len).
    pose proof (bytesRequired_8 len ltac:(lia)) as H8. destruct (bytesRequired_pos len) as (H1 & _); [lia|].
    fold n in H8, H1.
    set (x := byte_of (imm + 55 + n)).
    assert (bval x = imm + 55 + n) as Hx by (apply bval_byte_of_small; lia).
    pose proof (zlen_compact len ltac:(lia)) as Hz. fold n in Hz.
    set (m := x :: toCompactBigEndian len 0 ++ body).
    assert (long_length m n 56 = Ok len) as Hll.
    { apply (long_length_spec n len m x); [lia|done|]. unfold m. f_equal. f_equal.
      replace (S (Z.to_nat n)) with (1 + Z.to_nat n)%nat by lia. rewrite <- drop_drop.
      change (drop 1 (x :: toCompactBigEndian len 0 ++ body)) with (toCompactBigEndian len 0 ++ body).
      rewrite <- Hz, to_nat_zlen, drop_app_length. done. }
    cbv zeta. change (x :: toCompactBigEndian len 0 ++ body) with m.
    unfold isSingleByte, isList, isData, lengthSize, payloadOffset, length, requireGood, isSingleByte, lengthSize, isData, isList.
    assert (isNull m = false) as -> by apply isNull_cons. assert (at_ m 0 = imm + 55 + n) as -> by exact Hx.
    cbn [negb andb].
    change c_rlpListStart with 192. change c_rlpDataImmLenStart with 128. change c_rlpDataIndLenZero with 183.
    change c_rlpListIndLenZero with 247. rewrite zlen_cons, Hz.
    change (192 - 128 - c_rlpMaxLengthBytes) with 56. change (256 - 192 - c_rlpMaxLengthBytes) with 56.
    rewrite (proj2 (Z.eqb_neq (imm + 55 + n) (128 + 1))) by lia.
    rewrite (proj2 (Z.ltb_ge (imm + 55 + n) 128)) by lia.
    rewrite (proj2 (Z.leb_gt (imm + 55 + n) 183)) by lia.
    cbn [negb mbind result_bind].
    destruct Himm as [->| ->].
    + rewrite (proj2 (Z.ltb_lt (128 + 55 + n) 192)) by lia. rewrite (proj2 (Z.leb_gt 192 (128 + 55 + n))) by lia.
      rewrite (proj2 (Z.ltb_lt 183 (128 + 55 + n))) by lia.
      replace (128 + 55 + n - 183) with n by lia. rewrite Hll. done.
    + rewrite (proj2 (Z.ltb_ge (192 + 55 + n) 192)) by lia. rewrite (proj2 (Z.leb_le 192 (192 + 55 + n))) by lia.
      rewrite (proj2 (Z.leb_gt (192 + 55 + n) 247)) by lia. rewrite (proj2 (Z.ltb_lt 247 (192 + 55 + n))) by lia.
      replace (192 + 55 + n - 247) with n by lia. cbn [andb]. rewrite Hll. done.
Qed.

(** A byte string that is one encoded item: whatever follows it, the decoder
    finds where it ends. *)
Record wf_item (e : bytes) : Prop := {
  wf_pos : 0 < zlen e;
  wf_size : forall rest, actualSize (e ++ rest) = Ok (zlen e)
}.

Lemma enc_str_cases b :
  (exists x, b = [x] /\ bval x < 128 /\ enc_str b = [x]) \/
  (enc_str b = header 128 (zlen b) ++ b /\ (zlen b = 1 -> 0 < zlen b /\ 128 <= at_ b 0)).
Proof.
  destruct b as [|x [|y b]].
  - right. done.
  - unfold enc_str. destruct (Z.ltb_spec (bval x) 128); [left; eauto|right].
    split; [done|]. intros _. by rewrite at_0.
  - right. split; [done|]. rewrite !zlen_cons. pose proof (zlen_nonneg b). lia.
Qed.

Lemma zlen_header_pos imm len : 0 < zlen (header imm len).
Proof.
  unfold header. case_zbool; rewrite zlen_cons; [done|]. pose proof (zlen_nonneg (toCompactBigEndian len 0)). lia.
Qed.

Lemma single_byte_view x rest :
  bval x < 128 ->
  let m := x :: rest in
  isNull m = false /\ isSingleByte m = true /\ isList m = false /\ isData m = true /\
  requireGood m = Ok tt /\ length m = Ok 1 /\ payloadOffset m = 0.
Proof.
  intros Hx. cbv zeta. unfold payloadOffset, length, requireGood, isSingleByte, isList, isData.
  rewrite isNull_cons, at_0. change c_rlpListStart with 192. change c_rlpDataImmLenStart with 128.
  rewrite (proj2 (Z.ltb_lt _ _)) by lia. rewrite (proj2 (Z.leb_gt _ _)) by lia.
  rewrite (proj2 (Z.ltb_lt _ _)) by lia. rewrite (proj2 (Z.eqb_neq _ _)) by lia. done.
Qed.

(** The decoder's view of an encoded string followed by anything. *)
Lemma str_view b rest :
  fits b ->
  let m := enc_str b ++ rest in
  isNull m = false /\ isList m = false /\ isData m = true /\ requireGood m = Ok tt /\
  length m = Ok (zlen b) /\ actualSize m = Ok (zlen (enc_str b)) /\ payload m = Ok b.
Proof.
  intros Hf. cbv zeta. unfold fits in Hf. pose proof (zlen_nonneg b). pose proof (zlen_nonneg rest).
  destruct (enc_str_cases b) as [(x & -> & Hx & ->)|[-> Hg]].
  - cbn [app]. destruct (single_byte_view x rest Hx) as (H1 & H2 & H3 & H4 & H5 & H6 & H7).
    unfold actualSize, payload. rewrite H1, H2, H3, H4, H5, H6, H7. cbn [mbind result_bind].
    repeat split. rewrite (proj2 (Z.ltb_ge _ _)) by (rewrite zlen_cons; lia).
    f_equal. by apply (cropped2_prefix [x]).
  - rewrite <- app_assoc.
    destruct (dec_header 128 (zlen b) (b ++ rest)) as (H1 & H2 & H3 & H4 & H5 & H6 & H7); [by left|lia| |].
    { intros _ Hb. destruct (Hg Hb) as [_ Hat]. rewrite zlen_app. split; [lia|].
      destruct b; [by vm_compute in Hb|exact Hat]. }
    unfold actualSize, payload. rewrite H1, H2, H3, H4, H5, H6, H7. cbn [mbind result_bind orb].
    pose proof (zlen_nonneg (header 128 (zlen b))).
    repeat split; [by rewrite zlen_app|].
    rewrite (proj2 (Z.ltb_ge _ _)) by (rewrite !zlen_app; lia). by rewrite cropped2_app.
Qed.

Lemma list_view es rest :
  fits (concat es) ->
  let m := enc_list es ++ rest in
  isNull m = false /\ isList m = true /\ isData m = false /\ requireGood m = Ok tt /\
  length m = Ok (zlen (concat es)) /\ actualSize m = Ok (zlen (enc_list es)) /\ payload m = Ok (concat es).
Proof.
  intros Hf. cbv zeta. unfold fits in Hf. pose proof (zlen_nonneg (concat es)). pose proof (zlen_nonneg rest).
  unfold enc_list. rewrite <- app_assoc.
  destruct (dec_header 192 (zlen (concat es)) (concat es ++ rest)) as (H1 & H2 & H3 & H4 & H5 & H6 & H7);
    [by right|lia|done|].
  unfold actualSize, payload. rewrite H1, H2, H3, H4, H5, H6, H7. cbn [mbind result_bind orb].
  pose proof (zlen_nonneg (header 192 (zlen (concat es)))).
  repeat split; [by rewrite zlen_app|].
  rewrite (proj2 (Z.ltb_ge _ _)) by (rewrite !zlen_app; lia). by rewrite cropped2_app.
Qed.

Lemma wf_enc_str b : fits b -> wf_item (enc_str b).
Proof.
  intros Hf. split.
  - destruct (enc_str_cases b) as [(x & _ & _ & ->)|[-> _]]; [done|].
    rewrite zlen_app. pose proof (zlen_header_pos 128 (zlen b)). pose proof (zlen_nonneg b). lia.
  - intros rest. apply str_view. done.
Qed.

Lemma wf_enc_list es : fits (concat es) -> wf_item (enc_list es).
Proof.
  intros Hf. split.
  - unfold enc_list. rewrite zlen_app. pose proof (zlen_header_pos 192 (zlen (concat es))).
    pose proof (zlen_nonneg (concat es)). lia.
  - intros rest. apply list_view. done.
Qed.

Lemma wf_item_size e : wf_item e -> actualSize e = Ok (zlen e).
Proof. intros [_ H]. specialize (H []). by rewrite app_nil_r in H. Qed.

(** [RLP(data)] accepts exactly one item, at any strictness. *)
Lemma make_item e s : wf_item e -> make e s = Ok (fresh e).
Proof.
  intros H. unfold make. pose proof (wf_item_size e H) as Hs.
  destruct (flag s FailIfTooBig), (flag s FailIfTooSmall);
    repeat (progress (cbn [mbind result_bind andb]; rewrite ?Hs, ?Z.ltb_irrefl)); done.
Qed.

Lemma sizeAsEncoded_item e rest : wf_item e -> sizeAsEncoded (e ++ rest) = Ok (zlen e).
Proof.
  intros [Hpos Hsz]. unfold sizeAsEncoded, make.
  change (flag (Z.lor ThrowOnFail FailIfTooSmall) FailIfTooBig) with false.
  change (flag (Z.lor ThrowOnFail FailIfTooSmall) FailIfTooSmall) with true. cbn [mbind result_bind andb].
  rewrite Hsz. cbn [mbind result_bind]. pose proof (zlen_nonneg rest).
  rewrite (proj2 (Z.ltb_ge _ _)) by (rewrite zlen_app; lia). cbn [mbind result_bind m_data fresh]. apply Hsz.
Qed.

Lemma make_empty s : make [] s = Ok (fresh []).
Proof. unfold make. by destruct (flag s FailIfTooBig), (flag s FailIfTooSmall). Qed.

(** [itemCount()] counts the items. *)
Lemma items_loop_spec es fuel i :
  Forall wf_item es -> (Datatypes.length (concat es) < fuel)%nat ->
  items_loop fuel (concat es) i = Ok (i + Z.of_nat (Datatypes.length es)).
Proof.
  intros Hwf. revert fuel i. induction Hwf as [|e es He Hes IH]; intros fuel i Hfuel.
  - destruct fuel; [lia|]. cbn. f_equal. lia.
  - destruct fuel as [|fuel]; [lia|]. cbn [items_loop concat].
    pose proof (wf_pos e He) as Hpos. cbn [concat] in Hfuel. rewrite length_app in Hfuel.
    pose proof (zlen_nonneg (concat es)).
    rewrite (proj2 (Z.eqb_neq _ _)) by (rewrite zlen_app; lia). rewrite sizeAsEncoded_item by done.
    cbn [mbind result_bind]. rewrite cropped_app by done. rewrite IH by (unfold zlen in *; lia).
    f_equal. cbn [Datatypes.length]. lia.
Qed.

Lemma itemCount_list es :
  Forall wf_item es -> fits (concat es) ->
  itemCount (enc_list es) = Ok (Z.of_nat (Datatypes.length es)).
Proof.
  intros Hwf Hf. destruct (list_view es [] Hf) as (_ & Hl & _ & _ & _ & _ & Hp). rewrite app_nil_r in Hl, Hp.
  unfold itemCount, items. rewrite Hl, Hp. cbn [mbind result_bind]. apply items_loop_spec; [done|lia].
Qed.

(** The index cache of [operator[]] is either unset or points at an item (or
    just past the last one). *)
Definition cache_ok (es : list bytes) (r : RLP) : Prop :=
  m_data r = enc_list es /\
  (m_lastIndex r = 2 ^ 64 - 1 \/
   exists k, (k <= Datatypes.length es)%nat /\ m_lastIndex r = Z.of_nat k /\
     m_lastItem r = nth k es [] /\ m_lastEnd r = zlen (concat (take (S k) es))).

Lemma fresh_cache_ok es : cache_ok es (fresh (enc_list es)).
Proof. split; [done|]. by left. Qed.

Lemma concat_split {A} (es : list (list A)) k : concat es = concat (take k es) ++ concat (drop k es).
Proof. by rewrite <- concat_app, take_drop. Qed.

Lemma index_loop_spec es i n k r :
  Forall wf_item es -> fits (concat es) -> m_data r = enc_list es ->
  (k <= Datatypes.length es)%nat -> m_lastIndex r = Z.of_nat k ->
  m_lastItem r = nth k es [] -> m_lastEnd r = zlen (concat (take (S k) es)) ->
  (i - k <= n)%nat -> (k <= i)%nat ->
  let k' := Nat.min i (Datatypes.length es) in
  index_loop n (Z.of_nat i) r =
  Ok (mkRLP (enc_list es) (Z.of_nat k') (zlen (concat (take (S k') es))) (nth k' es [])).
Proof.
  intros Hwf Hf. revert k r. induction n as [|n IH]; intros k r Hd Hk Hi Hit Hend Hn Hki; cbv zeta.
  - assert (i = k) as -> by lia. rewrite Nat.min_l by lia. destruct r. cbn in *. by subst.
  - cbn [index_loop]. rewrite Hi, Hit.
    destruct (decide (k = i)) as [->|Hne].
    { rewrite Z.ltb_irrefl. cbn [andb]. rewrite Nat.min_l by lia. destruct r. cbn in *. by subst. }
    rewrite (proj2 (Z.ltb_lt _ _)) by lia. cbn [andb].
    destruct (decide (k = Datatypes.length es)) as [->|Hlt].
    { rewrite nth_overflow by lia. cbn [negb]. rewrite Nat.min_r by lia. rewrite nth_overflow in * by lia.
      destruct r. cbn in *. by subst. }
    assert (wf_item (nth k es [])) as Hwfk.
    { eapply Forall_forall; [exact Hwf|]. apply list_elem_of_In, nth_In. lia. }
    rewrite (proj2 (Z.eqb_neq (zlen (nth k es [])) 0)) by (pose proof (wf_pos _ Hwfk); lia). cbn [negb].
    destruct (list_view es [] Hf) as (_ & _ & _ & _ & _ & _ & Hp). rewrite app_nil_r in Hp.
    rewrite Hd, Hp. cbn [mbind result_bind]. rewrite Hend.
    cbv zeta.
    replace (cropped (concat es) (zlen (concat (take (S k) es)))) with (concat (drop (S k) es))
      by (rewrite (concat_split es (S k)) at 1; by rewrite cropped_app).
    assert (exists e rest, concat (drop (S k) es) = e ++ rest /\ nth (S k) es [] = e /\
      sizeAsEncoded (e ++ rest) = Ok (zlen e)) as (e & rest & He & Hnth & Hsz).
    { destruct (drop (S k) es) as [|e es'] eqn:Edrop.
      - exists [], []. repeat split. rewrite nth_overflow; [done|].
        assert (Datatypes.length (drop (S k) es) = 0%nat) by (by rewrite Edrop). rewrite length_drop in *. lia.
      - exists e, (concat es').
        assert (es !! S k = Some e) as Hlk.
        { rewrite <- (Nat.add_0_r (S k)), <- lookup_drop, Edrop. done. }
        split; [done|]. split; [by apply nth_lookup_Some with (d := []) in Hlk|].
        apply sizeAsEncoded_item. eapply Forall_lookup_1; [exact Hwf|exact Hlk]. }
    rewrite He, Hsz. cbn [mbind result_bind]. rewrite (cropped2_prefix e rest) by done.
    apply (IH (S k)); cbn; try done; try lia.
    destruct (decide (S k < Datatypes.length es)%nat).
    + destruct (lookup_lt_is_Some_2 es (S k)) as [x Hx]; [done|].
      rewrite (take_S_r es (S k) x), concat_app, zlen_app by done.
      cbn [concat]. rewrite app_nil_r, <- Hnth. by rewrite (nth_lookup_Some es (S k) [] x).
    + rewrite <- Hnth, nth_overflow by lia. rewrite zlen_nil, Z.add_0_r.
      by rewrite !take_ge by lia.
Qed.

End Decode.

(** ** Reading the fields of a message *)

Section Fields.

Lemma index_ok es r i :
  Forall wf_item es -> fits (concat es) -> cache_ok es r -> Z.of_nat i < 2 ^ 64 - 1 ->
  exists r', index r (Z.of_nat i) = Ok (fresh (nth i es []), r') /\ cache_ok es r'.
Proof.
  intros Hwf Hf [Hd Hc] Hi.
  destruct (list_view es [] Hf) as (_ & _ & _ & _ & _ & _ & Hp). rewrite app_nil_r in Hp.
  assert (exists r1 k, (if Z.of_nat i <? m_lastIndex r then
            p ← payload (m_data r); e ← sizeAsEncoded p; Ok (mkRLP (m_data r) 0 e (cropped2 p 0 e))
          else Ok r) = Ok r1 /\ m_data r1 = enc_list es /\ (k <= i)%nat /\ (k <= Datatypes.length es)%nat /\
          m_lastIndex r1 = Z.of_nat k /\ m_lastItem r1 = nth k es [] /\
          m_lastEnd r1 = zlen (concat (take (S k) es))) as (r1 & k & Hr1 & Hd1 & Hki & Hk & Hi1 & Hit1 & Hend1).
  { destruct (Z.ltb_spec (Z.of_nat i) (m_lastIndex r)) as [Hlt|Hge].
    - rewrite Hd, Hp. cbn [mbind result_bind]. destruct es as [|e es'].
      + eexists _, 0%nat. split; [reflexivity|]. cbn. repeat split; lia.
      + inversion_clear Hwf as [|? ? Hwe _]. cbn [concat]. rewrite sizeAsEncoded_item by done. cbn [mbind result_bind].
        rewrite (cropped2_prefix e) by done. eexists _, 0%nat. split; [reflexivity|].
        cbn. rewrite app_nil_r. repeat split; lia.
    - destruct Hc as [Hc|(k & Hk & Hi1 & Hit & Hend)]; [lia|].
      exists r, k. repeat split; try done; lia. }
  unfold index. rewrite Hr1. cbn [mbind result_bind]. rewrite Hi1.
  rewrite (index_loop_spec es i _ k) by (try done; lia). cbn [mbind result_bind m_lastItem].
  set (k' := Nat.min i (Datatypes.length es)).
  assert (nth k' es [] = nth i es []) as ->.
  { unfold k'. destruct (Nat.min_spec i (Datatypes.length es)) as [[_ ->]|[Hge ->]]; [done|].
    by rewrite !nth_overflow by lia. }
  assert (make (nth i es []) (Z.lor ThrowOnFail FailIfTooSmall) = Ok (fresh (nth i es []))) as ->.
  { destruct (Nat.lt_ge_cases i (Datatypes.length es)).
    - apply make_item. eapply Forall_forall; [exact Hwf|]. by apply list_elem_of_In, nth_In.
    - rewrite nth_overflow by done. apply make_empty. }
  eexists. split; [reflexivity|]. split; [done|]. right. exists k'. cbn. repeat split; [lia|].
  unfold k'. destruct (Nat.min_spec i (Datatypes.length es)) as [[_ ->]|[Hge ->]]; [done|].
  by rewrite !nth_overflow by lia.
Qed.

Lemma nth_item_list es i e :
  Forall wf_item es -> fits (concat es) -> es !! i = Some e -> Z.of_nat i < 2 ^ 64 - 1 ->
  nth_item (enc_list es) (Z.of_nat i) = Ok e.
Proof.
  intros Hwf Hf Hi Hb. destruct (index_ok es (fresh (enc_list es)) i) as (r' & Hr & _); [done..|apply fresh_cache_ok|done|].
  unfold nth_item. rewrite Hr. cbn. by rewrite (nth_lookup_Some es i [] e).
Qed.

Lemma toBytes_str b flags : fits b -> toBytes (enc_str b) flags = Ok b.
Proof.
  intros Hf. destruct (str_view b [] Hf) as (_ & _ & Hd & _ & Hl & _ & Hp). rewrite app_nil_r in *.
  unfold toBytes. rewrite Hd, Hp, Hl. cbn. by rewrite to_nat_zlen, firstn_all.
Qed.

Lemma toHash_str N (h : vec byte N) flags :
  (N <= 1000)%nat -> toHash N (enc_str (vec_to_list h)) flags = Ok h.
Proof.
  intros HN. destruct (str_view (vec_to_list h) []) as (_ & _ & Hd & Hg & Hl & _ & Hp).
  { unfold fits. rewrite zlen_vec. lia. }
  rewrite app_nil_r in *. unfold toHash. rewrite Hg, Hp, Hd. cbn. rewrite zlen_vec, Z.ltb_irrefl. cbn.
  rewrite Nat2Z.id, Nat.min_id, Nat.sub_diag. cbn.
  rewrite take_ge by (by rewrite length_vec_to_list). by rewrite vec_of_bytes_to_list.
Qed.

Lemma isInt_enc_int v : 0 <= v < 2 ^ 256 -> isInt (enc_int v) = Ok true.
Proof.
  intros Hv. unfold enc_int. pose proof (zlen_compact v ltac:(lia)) as Hz.
  assert (bytesRequired v <= 32) as Hb.
  { apply bytesRequired_le; [lia|]. change (256 ^ 32) with (2 ^ 256). lia. }
  assert (fits (toCompactBigEndian v 0)) as Hf by (unfold fits; lia).
  destruct (str_view _ [] Hf) as (Hn & _ & _ & Hg & _). rewrite app_nil_r in *.
  unfold isInt. rewrite Hn, Hg. cbn [mbind result_bind].
  destruct (enc_str_cases (toCompactBigEndian v 0)) as [(x & Hx & Hlt & ->)|[-> _]].
  - rewrite at_0. change c_rlpDataImmLenStart with 128. rewrite (proj2 (Z.ltb_lt _ _)) by done.
    rewrite (proj2 (Z.eqb_neq _ _)); [done|]. by apply (compact_head v x []); [lia|].
  - rewrite Hz. unfold header. rewrite (proj2 (Z.ltb_lt (bytesRequired v) 56)) by lia. cbn [app].
    pose proof (bytesRequired_nonneg v ltac:(lia)).
    rewrite at_0, bval_byte_of_small by lia.
    change c_rlpDataImmLenStart with 128. change c_rlpDataIndLenZero with 183. change c_rlpListStart with 192.
    rewrite (proj2 (Z.ltb_ge _ _)) by lia. destruct (Z.eqb_spec (128 + bytesRequired v) 128); [done|].
    rewrite (proj2 (Z.leb_le _ _)) by lia.
    destruct (toCompactBigEndian v 0) as [|y l] eqn:E; [change (zlen (@nil byte)) with 0 in Hz; lia|].
    rewrite (proj2 (Z.leb_gt _ _)) by (rewrite !zlen_cons; pose proof (zlen_nonneg l); lia).
    rewrite at_1, (proj2 (Z.eqb_neq _ _)); [done|]. by apply (compact_head v y l); [lia|].
Qed.

(** [toInt<T>] reads back every value that fits the type. *)
Lemma toInt_enc_int T maxSize v :
  0 <= v < 2 ^ 256 -> v < 256 ^ maxSize -> 0 <= maxSize -> (forall z, 0 <= z <= v -> T z = z) ->
  toInt T maxSize (enc_int v) Strict = Ok v.
Proof.
  intros Hv Hmax Hm HT. pose proof (zlen_compact v ltac:(lia)) as Hz.
  assert (bytesRequired v <= maxSize) as Hb by (apply bytesRequired_le; lia).
  assert (bytesRequired v <= 32) as Hb32.
  { apply bytesRequired_le; [lia|]. change (256 ^ 32) with (2 ^ 256). lia. }
  assert (fits (toCompactBigEndian v 0)) as Hf by (unfold fits; lia).
  pose proof (isInt_enc_int v Hv) as Hint.
  destruct (str_view _ [] Hf) as (Hn & Hl & _ & Hg & _ & _ & Hp). rewrite app_nil_r in *.
  change (enc_str (toCompactBigEndian v 0)) with (enc_int v) in *.
  unfold toInt. rewrite Hg, Hint. cbn [mbind result_bind]. rewrite Hl, Hn. cbn [negb andb orb].
  rewrite Hp. cbn [mbind result_bind]. rewrite Hz, (proj2 (Z.ltb_ge _ _)) by lia. cbn [andb].
  f_equal. rewrite <- (be_val_compact v 0) at 2 by lia. apply fromBigEndian_small.
  intros z Hz'. apply HT. rewrite be_val_compact in Hz' by lia. done.
Qed.

Lemma toInt_u64_int v : is_u64 v -> toInt_u64 (enc_int v) = Ok v.
Proof.
  unfold is_u64. intros Hv. apply toInt_enc_int; try lia.
  intros z Hz. apply u64_small. unfold is_u64. lia.
Qed.

Lemma toInt_u32_int v : is_u32 v -> toInt_u32 (enc_int v) = Ok v.
Proof.
  unfold is_u32. intros Hv. apply toInt_enc_int; try lia.
  intros z Hz. apply u32_small. unfold is_u32. lia.
Qed.

Lemma toInt_u8_int v : is_u8 v -> toInt_u8 (enc_int v) = Ok v.
Proof.
  unfold is_u8. intros Hv. apply toInt_enc_int; try lia.
  intros z Hz. apply u8_small. unfold is_u8. lia.
Qed.

Lemma toInt_i64_int v : 0 <= v < 2 ^ 63 -> toInt_i64 (enc_int v) = Ok v.
Proof.
  intros Hv. apply toInt_enc_int; try lia. intros z Hz. apply i64_small. unfold is_i64. lia.
Qed.

Lemma toInt_i32_int v : 0 <= v < 2 ^ 31 -> toInt_i32 (enc_int v) = Ok v.
Proof.
  intros Hv. apply toInt_enc_int; try lia. intros z Hz. unfold i32. rewrite Z.mod_small; lia.
Qed.

(** A value of [uint64_t] that does not fit [int64_t] wraps to a negative one,
    which [toPositiveInt64] rejects. *)
Lemma toPositiveInt64_large v : 2 ^ 63 <= v < 2 ^ 64 -> toPositiveInt64 (enc_int v) = Throw BadCast.
Proof.
  intros Hv. pose proof (zlen_compact v ltac:(lia)) as Hz.
  assert (bytesRequired v <= 8) as Hb by (apply bytesRequired_le; lia).
  assert (fits (toCompactBigEndian v 0)) as Hf by (unfold fits; lia).
  pose proof (isInt_enc_int v ltac:(lia)) as Hint.
  destruct (str_view _ [] Hf) as (Hn & Hl & _ & Hg & _ & _ & Hp). rewrite app_nil_r in *.
  change (enc_str (toCompactBigEndian v 0)) with (enc_int v) in *.
  unfold toPositiveInt64, toInt_i64, toInt. rewrite Hg, Hint. cbn [mbind result_bind]. rewrite Hl, Hn. cbn [negb andb orb].
  rewrite Hp. cbn [mbind result_bind]. rewrite Hz, (proj2 (Z.ltb_ge 8 _)) by lia. cbn [andb mbind result_bind].
  rewrite fromBigEndian_i64, be_val_compact by lia. rewrite (proj2 (Z.ltb_lt _ _)); [done|].
  unfold i64. replace (v + 2 ^ 63) with (v - 2 ^ 63 + 1 * 2 ^ 64) by lia. rewrite Z.mod_add, Z.mod_small by lia. lia.
Qed.

Lemma toInt_u256_int v : 0 <= v < 2 ^ 256 -> toInt_u256 (enc_int v) = Ok v.
Proof.
  intros Hv. apply toInt_enc_int; try lia. intros z Hz. apply Z.mod_small. lia.
Qed.

Lemma toPositiveInt64_int v : 0 <= v < 2 ^ 63 -> toPositiveInt64 (enc_int v) = Ok v.
Proof.
  intros Hv. unfold toPositiveInt64. rewrite toInt_i64_int by done. cbn.
  by rewrite (proj2 (Z.ltb_ge _ _)) by lia.
Qed.

Lemma wf_enc_int v : 0 <= v < 2 ^ 256 -> wf_item (enc_int v).
Proof.
  intros Hv. apply wf_enc_str. unfold fits. rewrite zlen_compact by lia.
  assert (bytesRequired v <= 32); [|lia]. apply bytesRequired_le; [lia|]. change (256 ^ 32) with (2 ^ 256). lia.
Qed.

Lemma wf_enc_hash N (h : vec byte N) : (N <= 1000)%nat -> wf_item (enc_str (vec_to_list h)).
Proof. intros HN. apply wf_enc_str. unfold fits. rewrite zlen_vec. lia. Qed.

Lemma zlen_header imm len : 0 <= len < 2 ^ 64 -> zlen (header imm len) <= 9.
Proof.
  intros Hl. unfold header. case_zbool; [done|]. rewrite zlen_cons, zlen_compact by lia.
  pose proof (bytesRequired_8 len Hl). lia.
Qed.

Lemma zlen_enc_str b : fits b -> zlen (enc_str b) <= 9 + zlen b.
Proof.
  unfold fits. intros Hf. pose proof (zlen_nonneg b).
  destruct (enc_str_cases b) as [(x & -> & _ & ->)|[-> _]]; [done|].
  rewrite zlen_app. pose proof (zlen_header 128 (zlen b)). lia.
Qed.

Lemma zlen_enc_int v : 0 <= v < 2 ^ 256 -> zlen (enc_int v) <= 41.
Proof.
  intros Hv. assert (bytesRequired v <= 32).
  { apply bytesRequired_le; [lia|]. change (256 ^ 32) with (2 ^ 256). lia. }
  pose proof (zlen_compact v ltac:(lia)). unfold enc_int.
  pose proof (zlen_enc_str (toCompactBigEndian v 0)) as H1. unfold fits in H1. lia.
Qed.

Lemma zlen_enc_hash N (h : vec byte N) : (N <= 1000)%nat -> zlen (enc_str (vec_to_list h)) <= 9 + Z.of_nat N.
Proof. intros HN. rewrite <- (zlen_vec N h). apply zlen_enc_str. unfold fits. rewrite zlen_vec. lia. Qed.

End Fields.

(** ** Whole trees

    [write] and [read] are the generic clients of the two classes: the tree is
    written with [appendList] and [append], and read back with [isList],
    [itemCount], [operator[]] and [toBytes]. *)

Section Trees.

Fixpoint write (it : item) (st : RLPStream) : result RLPStream :=
  match it with
  | Str b => append b false st
  | Lst l => appendList (zlen l) st ≫= (fix go l st :=
               match l with
               | [] => Ok st
               | x :: l' => write x st ≫= go l'
               end) l
  end.

Fixpoint writes (l : list item) (st : RLPStream) : result RLPStream :=
  match l with
  | [] => Ok st
  | x :: l' => write x st ≫= writes l'
  end.

Lemma write_Lst l st : write (Lst l) st = appendList (zlen l) st ≫= writes l.
Proof. reflexivity. Qed.

(** [n] calls of [operator[]] on the same object, from index [i]; every item
    is read by [f]. *)
Fixpoint read_items (f : bytes -> result item) (r : RLP) (i : Z) (n : nat) : result (list item) :=
  match n with
  | O => Ok []
  | S n' => '(it, r') ← index r i;
            x ← f (m_data it);
            xs ← read_items f r' (i + 1) n';
            Ok (x :: xs)
  end.

Fixpoint read (depth : nat) (d : bytes) : result item :=
  match depth with
  | O => Throw BadRLP
  | S k => if isList d then
             n ← itemCount d; xs ← read_items (read k) (fresh d) 0 (Z.to_nat n); Ok (Lst xs)
           else b ← toBytes d Strict; Ok (Str b)
  end.

Fixpoint depth (it : item) : nat :=
  match it with
  | Str _ => 1
  | Lst l => S (fold_right (fun x n => Nat.max (depth x) n) 0%nat l)
  end.

Definition item_ind' (P : item -> Prop) (HS : forall b, P (Str b))
    (HL : forall l, Forall P l -> P (Lst l)) : forall it, P it :=
  fix go it := match it with
    | Str b => HS b
    | Lst l => HL l ((fix gol l : Forall P l := match l with
                       | [] => List.Forall_nil P
                       | x :: l' => @List.Forall_cons _ P x l' (go x) (gol l')
                       end) l)
    end.

Lemma fits_concat_elem es e : fits (concat es) -> e ∈ es -> fits e.
Proof.
  unfold fits. intros Hf [l1 [l2 ->]]%list_elem_of_split. rewrite concat_app in Hf. cbn [concat] in Hf.
  rewrite !zlen_app in Hf. pose proof (zlen_nonneg (concat l1)). pose proof (zlen_nonneg (concat l2)). lia.
Qed.

Lemma fits_enc_list es : fits (enc_list es) -> fits (concat es).
Proof.
  unfold fits, enc_list. rewrite zlen_app. pose proof (zlen_nonneg (header 192 (zlen (concat es)))). lia.
Qed.

Lemma fits_enc_str b : fits (enc_str b) -> fits b.
Proof.
  unfold fits. destruct (enc_str_cases b) as [(x & -> & _ & ->)|[-> _]]; [done|].
  rewrite zlen_app. pose proof (zlen_header_pos 128 (zlen b)). lia.
Qed.

Lemma fits_Lst l x : fits (enc (Lst l)) -> x ∈ l -> fits (enc x).
Proof.
  cbn [enc]. intros Hf Hx. eapply fits_concat_elem; [by apply fits_enc_list|]. by apply list_elem_of_fmap_2.
Qed.

Lemma wf_enc it : fits (enc it) -> wf_item (enc it).
Proof.
  destruct it as [b|l]; cbn [enc]; intros Hf.
  - by apply wf_enc_str, fits_enc_str.
  - by apply wf_enc_list, fits_enc_list.
Qed.

Lemma wf_encs l : fits (enc (Lst l)) -> Forall wf_item (map enc l).
Proof.
  intros Hf. apply Forall_fmap, Forall_forall. intros x Hx. apply wf_enc. by eapply fits_Lst.
Qed.

Lemma writes_emits l o n p stk :
  Forall (fun x => forall st, zlen (m_out st) + zlen (enc x) < 2 ^ 63 -> write x st = emit (enc x) st) l ->
  n = zlen l -> zlen o + zlen (concat (map enc l)) < 2 ^ 63 ->
  writes l (mkStream o ((n, p) :: stk)) = emits (map enc l) (mkStream o ((n, p) :: stk)).
Proof.
  intros Hl. revert o n. induction Hl as [|x l Hx Hl IH]; intros o n -> Hf; [done|].
  cbn [map concat] in Hf. rewrite zlen_app in Hf. pose proof (zlen_nonneg (concat (map enc l))).
  cbn [writes emits map]. rewrite Hx by (cbn [m_out]; lia).
  destruct l as [|y l]; [done|].
  assert (emit (enc x) (mkStream o ((zlen (x :: y :: l), p) :: stk)) =
          Ok (mkStream (o ++ enc x) ((zlen (y :: l), p) :: stk))) as ->.
  { unfold emit, noteAppended. cbn [m_out m_listStack note_loop]. change (1 =? 0) with false.
    pose proof (zlen_nonneg l). rewrite !zlen_cons. rewrite (proj2 (Z.ltb_ge _ _)) by lia.
    rewrite (proj2 (Z.eqb_neq _ _)) by lia. cbn [negb]. do 3 f_equal. f_equal. lia. }
  cbn [mbind result_bind]. apply IH; [done|]. rewrite zlen_app. lia.
Qed.

(** The stream writes the reference encoding. *)
Lemma write_emit it st : zlen (m_out st) + zlen (enc it) < 2 ^ 63 -> write it st = emit (enc it) st.
Proof.
  revert st. induction it as [b|l IH] using item_ind'; intros st Hf.
  - apply append_emit, fits_enc_str. unfold fits. cbn [enc] in Hf. pose proof (zlen_nonneg (m_out st)). lia.
  - rewrite write_Lst. pose proof (zlen_nonneg (m_out st)). pose proof (zlen_nonneg (enc (Lst l))).
    assert (zlen (m_out st) + zlen (concat (map enc l)) < 2 ^ 63) as Hf'.
    { cbn [enc] in Hf. unfold enc_list in Hf. rewrite zlen_app in Hf.
      pose proof (zlen_nonneg (header 192 (zlen (concat (map enc l))))). lia. }
    pose proof (zlen_nonneg (concat (map enc l))).
    cbn [enc]. rewrite <- (emit_list (map enc l) st (zlen l)) by
      (unfold fits; first [by rewrite length_map | lia]).
    destruct l as [|x l]; [done|]. unfold appendList.
    rewrite (proj2 (Z.eqb_neq _ _)) by (rewrite zlen_cons; pose proof (zlen_nonneg l); lia).
    cbn [negb mbind result_bind]. by apply writes_emits.
Qed.

Lemma read_items_ok f es xs :
  forall r i, Forall wf_item es -> fits (concat es) -> cache_ok es r ->
  (i + Datatypes.length xs <= Datatypes.length es)%nat -> Z.of_nat (i + Datatypes.length xs) < 2 ^ 64 ->
  (forall j x, xs !! j = Some x -> f (nth (i + j) es []) = Ok x) ->
  read_items f r (Z.of_nat i) (Datatypes.length xs) = Ok xs.
Proof.
  induction xs as [|x xs IH]; intros r i Hwf Hf Hc Hlen Hb Hx; [done|].
  cbn [Datatypes.length] in *. cbn [read_items].
  destruct (index_ok es r i) as (r' & -> & Hc'); [done..|lia|]. cbn [mbind result_bind m_data fresh].
  rewrite <- (Nat.add_0_r i) at 1. rewrite (Hx 0%nat x eq_refl). cbn [mbind result_bind].
  replace (Z.of_nat i + 1) with (Z.of_nat (S i)) by lia.
  rewrite (IH r' (S i)); [done|done|done|done|lia|lia|].
  intros j y Hj. rewrite <- (Hx (S j) y Hj). do 2 f_equal. lia.
Qed.

Lemma length_encs_le l : fits (enc (Lst l)) -> zlen l <= zlen (concat (map enc l)).
Proof.
  intros Hf. pose proof (wf_encs l Hf) as Hwf. clear Hf. induction l as [|x l IH]; [done|].
  cbn [map concat]. rewrite zlen_app, zlen_cons. inversion_clear Hwf as [|? ? Hx Hl].
  pose proof (wf_pos _ Hx). specialize (IH Hl). lia.
Qed.

Lemma read_enc it k : fits (enc it) -> (depth it <= k)%nat -> read k (enc it) = Ok it.
Proof.
  revert k. induction it as [b|l IH] using item_ind'; intros k Hf Hd.
  - destruct k as [|k]; [cbn in Hd; lia|]. cbn [read enc].
    pose proof (fits_enc_str _ Hf) as Hb. destruct (str_view b [] Hb) as (_ & Hl & _). rewrite app_nil_r in Hl.
    by rewrite Hl, toBytes_str.
  - destruct k as [|k]; [cbn in Hd; lia|]. cbn [depth] in Hd. pose proof (wf_encs l Hf) as Hwf.
    pose proof (length_encs_le l Hf) as Hlen. pose proof (fits_enc_list (map enc l) Hf) as Hc.
    destruct (list_view (map enc l) [] Hc) as (_ & Hl & _). rewrite app_nil_r in Hl.
    cbn [read enc]. rewrite Hl, itemCount_list by done. cbn [mbind result_bind].
    rewrite length_map, Nat2Z.id.
    assert (zlen l < 2 ^ 64) as Hl64 by (unfold fits in Hc; lia).
    rewrite (read_items_ok (read k) (map enc l) l _ 0); cbn [mbind result_bind]; try done.
    + apply fresh_cache_ok.
    + by rewrite length_map.
    + intros j x Hj. cbn [Nat.add]. rewrite (nth_lookup_Some _ j [] (enc x)).
      2: { change (map enc l) with (enc <$> l). by rewrite list_lookup_fmap, Hj. }
      eapply Forall_lookup_1 in IH; [|exact Hj]. apply IH.
      * apply (fits_Lst l); [done|]. by eapply list_elem_of_lookup_2.
      * assert (depth x <= fold_right (fun x n => Nat.max (depth x) n) 0 l)%nat; [|lia].
        clear -Hj. revert j Hj. induction l as [|y l IH]; intros [|j] Hj; simplify_eq/=; [lia|].
        specialize (IH j Hj). lia.
Qed.

End Trees.

(** ** Canonical encodings *)

Section Canonical.

Lemma throw_if_inv {A} b e (k : unit -> result A) a : (throw_if b e ≫= k) = Ok a -> b = false /\ k tt = Ok a.
Proof. by destruct b. Qed.

Lemma long_length_inv m n ret :
  1 <= n -> long_length m n 56 = Ok ret ->
  exists lb rest, m = take 1 m ++ lb ++ rest /\ zlen lb = n /\ n <= 8 /\ 56 <= ret /\
    toCompactBigEndian ret 0 = lb /\ 0 <= ret.
Proof.
  intros Hn. unfold long_length. intros H.
  apply throw_if_inv in H as [H1 H]. apply throw_if_inv in H as [_ H].
  apply throw_if_inv in H as [H2 H]. apply throw_if_inv in H as [H3 H].
  cbv zeta in H. apply throw_if_inv in H as [H4 H]. apply throw_if_inv in H as [_ H]. inv_ok.
  zify_bool. set (lb := take (Z.to_nat n) (drop 1 m)) in *.
  assert (zlen lb = n) as Hlb by (unfold lb, zlen in *; rewrite length_take, length_drop; lia).
  pose proof (be_val_range lb) as Hr.
  assert (256 ^ zlen lb <= 2 ^ 64) by (change (2 ^ 64) with (256 ^ 8); apply Z.pow_le_mono_r; lia).
  assert (fromBigEndian u64 lb = be_val lb) as Hv
    by (apply fromBigEndian_small; intros z Hz; apply u64_small; unfold is_u64; lia).
  rewrite Hv in *. exists lb, (drop (Z.to_nat n) (drop 1 m)).
  repeat split; try lia.
  - unfold lb. by rewrite take_drop, take_drop.
  - destruct lb as [|b l] eqn:E; [change (zlen (@nil byte)) with 0 in Hlb; lia|].
    apply compact_be_val. intros H0. apply H3.
    destruct m as [|x [|y m']]; [done..|]. rewrite at_1. unfold lb in E.
    destruct (Z.to_nat n) eqn:En; [lia|]. cbn in E. by simplify_eq.
Qed.

Lemma split_header imm n ret (d : bytes) :
  imm = 128 \/ imm = 192 -> 1 <= n -> at_ d 0 = imm + 55 + n -> long_length d n 56 = Ok ret ->
  zlen d = 1 + n + ret -> exists p, d = header imm ret ++ p /\ zlen p = ret.
Proof.
  intros Himm Hn Hx Hll Hz. destruct (long_length_inv d n ret Hn Hll) as (lb & rest & Hd & Hlb & H8 & H56 & Hc & H0).
  destruct d as [|x d]; [change (zlen (@nil byte)) with 0 in Hz; lia|]. cbn in Hd.
  exists rest. rewrite zlen_cons in Hz. injection Hd as Hd.
  assert (zlen d = n + zlen rest) as Hzd by (rewrite Hd at 1; rewrite zlen_app; lia).
  split; [|lia]. unfold header. rewrite (proj2 (Z.ltb_ge _ _)) by lia.
  rewrite Hc, <- zlen_compact, Hc, Hlb by done. rewrite at_0 in Hx. rewrite <- Hx, byte_of_bval.
  cbn [app]. by rewrite Hd at 1.
Qed.

Lemma short_header imm (d : bytes) x :
  bval x = imm + zlen d -> zlen d < 56 -> x :: d = header imm (zlen d) ++ d.
Proof.
  intros Hx Hd. unfold header. rewrite (proj2 (Z.ltb_lt _ _)) by done.
  rewrite <- Hx, byte_of_bval. done.
Qed.

Lemma enc_str_header p :
  requireGood (header 128 (zlen p) ++ p) = Ok tt -> enc_str p = header 128 (zlen p) ++ p.
Proof.
  destruct p as [|x [|y p]]; [done| |done]. unfold enc_str. destruct (Z.ltb_spec (bval x) 128); [|done].
  change (header 128 (zlen [x]) ++ [x]) with [Byte.x81; x]. unfold requireGood.
  change (isNull [Byte.x81; x]) with false. change (negb (at_ [Byte.x81; x] 0 =? c_rlpDataImmLenStart + 1)) with false.
  change (zlen [Byte.x81; x] <? 2) with false. rewrite at_1. change c_rlpDataImmLenStart with 128.
  cbv iota. rewrite (proj2 (Z.ltb_lt _ _)) by done. done.
Qed.

Lemma requireGood_length d : isNull d = false -> is_Some (match length d with Ok l => Some l | _ => None end) -> requireGood d = Ok tt.
Proof.
  unfold length. intros ->. destruct (requireGood d) as [[]|]; [done|]. cbn. by intros [? [=]].
Qed.

Lemma canonical_shape d l :
  isNull d = false -> length d = Ok l -> zlen d = payloadOffset d + l ->
  (exists x, d = [x] /\ bval x < 128) \/
  (isList d = false /\ exists p, zlen p = l /\ d = header 128 l ++ p) \/
  (isList d = true /\ exists p, zlen p = l /\ d = header 192 l ++ p).
Proof.
  intros Hn Hl Hz. destruct d as [|x d]; [done|]. pose proof (bval_range x) as Hx.
  unfold length in Hl. rewrite isNull_cons in Hl. destruct (requireGood (x :: d)) as [[]|]; [|done].
  cbn [mbind result_bind] in Hl. rewrite at_0 in Hl.
  unfold payloadOffset, isSingleByte, lengthSize, isData, isList in *. rewrite isNull_cons, at_0 in *. cbn [negb andb] in *.
  change c_rlpDataImmLenStart with 128 in *. change c_rlpDataIndLenZero with 183 in *.
  change c_rlpListStart with 192 in *. change c_rlpListIndLenZero with 247 in *.
  change (192 - 128 - c_rlpMaxLengthBytes) with 56 in *. change (256 - 192 - c_rlpMaxLengthBytes) with 56 in *.
  rewrite zlen_cons in Hz.
  destruct (Z.ltb_spec (bval x) 128) as [H1|H1].
  { inv_ok. left. exists x. by rewrite (zlen_0_inv d) by lia. }
  right. destruct (Z.leb_spec (bval x) 183) as [H2|H2].
  { inv_ok. left. split; [lia|]. exists d. rewrite (proj2 (Z.ltb_ge 183 _)) in Hz by lia.
    rewrite (proj2 (Z.ltb_ge 247 _)), !andb_false_r in Hz by lia. 
    assert (zlen d = bval x - 128) as <- by lia. split; [done|]. apply short_header; lia. }
  destruct (Z.ltb_spec (bval x) 192) as [H3|H3].
  { left. split; [lia|]. rewrite (proj2 (Z.ltb_lt 183 _)) in Hz by lia. cbn [andb] in Hz.
    edestruct (split_header 128 (bval x - 183) l (x :: d)) as (p & ? & ?); eauto; rewrite ?at_0, ?zlen_cons; lia. }
  right. split; [lia|]. cbn [andb] in Hz. rewrite (proj2 (Z.leb_le 192 _)) in Hz by lia. cbn [andb] in Hz.
  destruct (Z.leb_spec (bval x) 247) as [H4|H4].
  { inv_ok. exists d. rewrite (proj2 (Z.ltb_ge 247 _)) in Hz by lia.
    assert (zlen d = bval x - 192) as <- by lia. split; [done|]. apply short_header; lia. }
  rewrite (proj2 (Z.ltb_lt 247 _)) in Hz by lia.
  edestruct (split_header 192 (bval x - 247) l (x :: d)) as (p & ? & ?); eauto; rewrite ?at_0, ?zlen_cons; lia.
Qed.

Lemma payload_split d h p :
  d = h ++ p -> length d = Ok (zlen p) -> zlen d = payloadOffset d + zlen p -> payload d = Ok p.
Proof.
  intros Hd Hl Hoff. unfold payload. rewrite Hl. cbn [mbind result_bind].
  assert (zlen d = zlen h + zlen p) as Hz by (by rewrite Hd, zlen_app). pose proof (zlen_nonneg h).
  rewrite (proj2 (Z.ltb_ge _ _)) by lia. replace (payloadOffset d) with (zlen h) by lia.
  by rewrite Hd, cropped2_all.
Qed.

End Canonical.

(** ** Properties of the codec *)

Section CodecProperties.

(** A sequence of reads on one object, each on the cache the previous left. *)
Fixpoint index_seq (r : RLP) (idx : list nat) : result (list bytes) :=
  match idx with
  | [] => Ok []
  | i :: idx' => '(it, r') ← index r (Z.of_nat i); rest ← index_seq r' idx'; Ok (m_data it :: rest)
  end.

Lemma index_seq_ok es r idx :
  Forall wf_item es -> fits (concat es) -> cache_ok es r -> Forall (fun i => Z.of_nat i < 2 ^ 64 - 1) idx ->
  index_seq r idx = Ok (map (fun i => nth i es []) idx).
Proof.
  intros Hwf Hf Hc His. revert r Hc. induction His as [|i idx Hi His IH]; intros r Hc; [done|].
  cbn [index_seq]. destruct (index_ok es r i) as (r' & -> & Hc'); [done..|]. cbn [mbind result_bind].
  by rewrite IH.
Qed.

Lemma toInt_too_big T maxSize v :
  0 <= v < 2 ^ 256 -> 0 <= maxSize -> 256 ^ maxSize <= v -> toInt T maxSize (enc_int v) Strict = Throw BadCast.
Proof.
  intros Hv Hm Hmax. pose proof (zlen_compact v ltac:(lia)) as Hz. pose proof (Z.pow_pos_nonneg 256 maxSize).
  assert (maxSize < bytesRequired v) as Hb.
  { destruct (bytesRequired_pos v) as (_ & _ & Hlt); [lia|]. apply (Z.pow_lt_mono_r_iff 256); try lia.
    apply bytesRequired_nonneg. lia. }
  assert (bytesRequired v <= 32) as Hb32.
  { apply bytesRequired_le; [lia|]. change (256 ^ 32) with (2 ^ 256). lia. }
  assert (fits (toCompactBigEndian v 0)) as Hf by (unfold fits; lia).
  pose proof (isInt_enc_int v Hv) as Hint.
  destruct (str_view _ [] Hf) as (Hn & Hl & _ & Hg & _ & _ & Hp). rewrite app_nil_r in *.
  change (enc_str (toCompactBigEndian v 0)) with (enc_int v) in *.
  unfold toInt. rewrite Hg, Hint. cbn [mbind result_bind]. rewrite Hl, Hn. cbn [negb andb orb].
  rewrite Hp. cbn [mbind result_bind]. by rewrite Hz, (proj2 (Z.ltb_lt _ _)) by lia.
Qed.

(** C24. RLP round trip: every tree of strings and lists that fits in memory is
    written by [RLPStream] without error, the bytes are accepted by the
    strictest [RLP] constructor, and reading them back through [isList],
    [itemCount], [operator[]] (one object per list, with its cache) and
    [toBytes] gives the same tree. *)
Theorem rlp_roundtrip (it : item) (Hfit : fits (enc it)) :
  exists e, (write it empty ≫= out) = Ok e /\ make e VeryStrict = Ok (fresh e) /\ read (depth it) e = Ok it.
Proof.
  exists (enc it). rewrite write_emit by (cbn [m_out empty]; rewrite (@zlen_nil byte); unfold fits in *; lia).
  repeat split; [by apply make_item, wf_enc|by apply read_enc].
Qed.

Lemma rlp_roundtrip_witness :
  let it := Lst [Str [Byte.x01]; Lst []; Lst [Str []; Str (replicate 60 Byte.x80)]] in
  fits (enc it) /\ exists e, (write it empty ≫= out) = Ok e /\ make e VeryStrict = Ok (fresh e) /\ read (depth it) e = Ok it.
Proof.
  cbv zeta. split; [vm_compute; reflexivity|]. apply (rlp_roundtrip (Lst [Str [Byte.x01]; Lst []; Lst [Str []; Str (replicate 60 Byte.x80)]])).
  vm_compute. reflexivity.
Defined.

(** Canonical encodings only: a non-empty buffer the strict [RLP]
    constructor accepts is the reference encoding of its payload, as a string
    or as a list; so a value has one accepted encoding. *)
Theorem rlp_canonical (d : bytes) (r : RLP) (Hd : d <> []) (Hmake : make d VeryStrict = Ok r) :
  exists p, payload d = Ok p /\ d = (if isList d then enc_list [p] else enc_str p).
Proof.
  assert (isNull d = false) as Hn by (destruct d; [done|apply isNull_cons]).
  unfold make in Hmake. change (flag VeryStrict FailIfTooBig) with true in Hmake.
  change (flag VeryStrict FailIfTooSmall) with true in Hmake. change (flag VeryStrict ThrowOnFail) with true in Hmake.
  cbn [andb] in Hmake. destruct (actualSize d) as [sz|e] eqn:Hs; [|done]. cbn [mbind result_bind] in Hmake.
  destruct (Z.ltb_spec sz (zlen d)); [done|]. cbn [mbind result_bind] in Hmake. rewrite Hs in Hmake. cbn [mbind result_bind] in Hmake.
  destruct (Z.ltb_spec (zlen d) sz); [done|]. clear Hmake. assert (zlen d = sz) as Hz by lia.
  assert (exists l, length d = Ok l /\ zlen d = payloadOffset d + l) as (l & Hl & Hoff).
  { unfold actualSize in Hs. rewrite Hn in Hs. destruct (isSingleByte d) eqn:Hb.
    - inv_ok. exists 1. unfold payloadOffset. rewrite Hb. split; [|lia].
      unfold isSingleByte in Hb. rewrite Hn in Hb. cbn [negb andb] in Hb. unfold length, requireGood. rewrite Hn, Hb.
      zify_bool. change c_rlpDataImmLenStart with 128 in *. by rewrite (proj2 (Z.eqb_neq _ _)) by lia.
    - destruct (isData d || isList d); [|inv_ok; destruct d; [done|rewrite zlen_cons in *; pose proof (zlen_nonneg d); lia]].
      destruct (length d) as [l|]; [|done]. cbn in Hs. inv_ok. by exists l. }
  assert (requireGood d = Ok tt) as Hg by (apply requireGood_length; [done|rewrite Hl; eauto]).
  destruct (canonical_shape d l Hn Hl Hoff) as [(x & -> & Hx)|[[Hlist (p & <- & Hp)]|[Hlist (p & <- & Hp)]]].
  - exists [x]. assert (enc_str [x] = [x]) as Hx1 by (unfold enc_str; by rewrite (proj2 (Z.ltb_lt _ _)) by done).
    destruct (str_view [x] [] ltac:(done)) as (_ & Hxl & _ & _ & _ & _ & Hp). rewrite Hx1 in *.
    split; [exact Hp|]. change ([x] ++ []) with [x] in Hxl. by rewrite Hxl.
  - rewrite Hlist. exists p. rewrite Hp in Hg. rewrite (enc_str_header p Hg). split; [|done].
    by apply (payload_split d (header 128 (zlen p))).
  - rewrite Hlist. exists p. unfold enc_list. cbn [concat]. rewrite app_nil_r. split; [|done].
    by apply (payload_split d (header 192 (zlen p))).
Qed.

Lemma rlp_canonical_witness :
  exists p, payload [Byte.x82; Byte.x04; Byte.x00] = Ok p /\
    [Byte.x82; Byte.x04; Byte.x00] = (if isList [Byte.x82; Byte.x04; Byte.x00] then enc_list [p] else enc_str p).
Proof.
  apply (rlp_canonical [Byte.x82; Byte.x04; Byte.x00] (fresh [Byte.x82; Byte.x04; Byte.x00])); [discriminate|reflexivity].
Defined.

(** The index cache of [operator[]] is transparent: whatever sequence of
    indices is read on one [RLP] object, each read returns the item at its
    index (the null item past the end), independently of the reads before. *)
Theorem rlp_index_any_order (es : list bytes) (idx : list nat)
    (Hwf : Forall wf_item es) (Hfit : fits (concat es)) (His : Forall (fun i => Z.of_nat i < 2 ^ 64 - 1) idx) :
  index_seq (fresh (enc_list es)) idx = Ok (map (fun i => nth i es []) idx).
Proof. apply index_seq_ok; try done. apply fresh_cache_ok. Qed.

Lemma rlp_index_any_order_witness :
  index_seq (fresh (enc_list [enc_int 5; enc_str (replicate 56 Byte.x00); enc_int 1024])) [2%nat; 0%nat; 1%nat; 7%nat; 1%nat] =
  Ok (map (fun i => nth i [enc_int 5; enc_str (replicate 56 Byte.x00); enc_int 1024] []) [2%nat; 0%nat; 1%nat; 7%nat; 1%nat]).
Proof.
  apply rlp_index_any_order; [|vm_compute; reflexivity|repeat constructor].
  repeat constructor; solve [apply wf_enc_int; lia | apply wf_enc_str; vm_compute; reflexivity].
Defined.

(** Integers: a value below [2^256] written with [append(bigint)] is read
    back exactly by [toInt<T>] when it fits the [w]-byte unsigned type [T], and
    raises [BadCast] (never a truncated value) when it does not. *)
Theorem rlp_int_exact (v w : Z) (Hv : 0 <= v < 2 ^ 256) (Hw : 0 <= w) :
  exists e, (appendInt v empty ≫= out) = Ok e /\
    toInt (fun z => z mod 256 ^ w) w e Strict = (if v <? 256 ^ w then Ok v else Throw BadCast).
Proof.
  exists (enc_int v). rewrite appendInt_emit by done. split; [done|].
  destruct (Z.ltb_spec v (256 ^ w)).
  - apply toInt_enc_int; try lia. intros z Hz. apply Z.mod_small. lia.
  - by apply toInt_too_big.
Qed.

Lemma rlp_int_exact_witness :
  exists e, (appendInt 65536 empty ≫= out) = Ok e /\
    toInt (fun z => z mod 256 ^ 2) 2 e Strict = (if 65536 <? 256 ^ 2 then Ok 65536 else Throw BadCast).
Proof. apply (rlp_int_exact 65536 2); lia. Defined.

End CodecProperties.

(** ** Exceptions of the decoder *)

Section Throws.
Import Decoder.

Lemma requireGood_throws m : throws is_Exception (requireGood m).
Proof. unfold requireGood. auto 10 with throws. Qed.
#[local] Hint Resolve requireGood_throws : throws.

Lemma isInt_throws m : throws is_Exception (isInt m).
Proof. unfold isInt. cbv zeta. auto 20 with throws. Qed.

Lemma long_length_throws m n limit : throws is_Exception (long_length m n limit).
Proof. unfold long_length. cbv zeta. auto 20 with throws. Qed.
#[local] Hint Resolve isInt_throws long_length_throws : throws.

Lemma length_throws m : throws is_Exception (length m).
Proof. unfold length. cbv zeta. auto 20 with throws. Qed.
#[local] Hint Resolve length_throws : throws.

Lemma payload_throws m : throws is_Exception (payload m).
Proof. unfold payload. auto 10 with throws. Qed.
Lemma actualSize_throws m : throws is_Exception (actualSize m).
Proof. unfold actualSize. auto 10 with throws. Qed.
#[local] Hint Resolve payload_throws actualSize_throws : throws.

Lemma make_throws d s : throws is_Exception (make d s).
Proof. unfold make. auto 20 with throws. Qed.
#[local] Hint Resolve make_throws : throws.

Lemma sizeAsEncoded_throws d : throws is_Exception (sizeAsEncoded d).
Proof. unfold sizeAsEncoded. auto with throws. Qed.
#[local] Hint Resolve sizeAsEncoded_throws : throws.

Lemma items_loop_throws fuel d i : throws is_Exception (items_loop fuel d i).
Proof. revert d i. induction fuel as [|n IH]; intros d i; cbn [items_loop]; auto with throws. Qed.
#[local] Hint Resolve items_loop_throws : throws.

Lemma itemCount_throws m : throws is_Exception (itemCount m).
Proof. unfold itemCount, items. auto 10 with throws. Qed.

Lemma index_loop_throws fuel i r : throws is_Exception (index_loop fuel i r).
Proof. revert r. induction fuel as [|n IH]; intros r; cbn [index_loop]; cbv zeta; auto 10 with throws. Qed.
#[local] Hint Resolve index_loop_throws : throws.

Lemma nth_item_throws d i : throws is_Exception (nth_item d i).
Proof.
  unfold nth_item, index. apply throws_bind; [|intros []; apply throws_ok]. auto 20 with throws.
Qed.

Lemma toInt_throws T n m f : throws is_Exception (toInt T n m f).
Proof. unfold toInt. auto 20 with throws. Qed.

Lemma toHash_throws N m f : throws is_Exception (toHash N m f).
Proof. unfold toHash. cbv zeta. auto 20 with throws. Qed.

Lemma toBytes_throws m f : throws is_Exception (toBytes m f).
Proof. unfold toBytes. auto 20 with throws. Qed.
End Throws.

#[export] Hint Resolve make_throws itemCount_throws nth_item_throws toInt_throws toHash_throws toBytes_throws : throws.
