(* ===== verification/FixedHash.v ===== *)
(** * Fixed-size byte arrays: core/FixedHash.h

    [FixedHash<N>] is [vec byte N]. The comparison operators, the bitwise
    operators, the big-endian increment and the conversions from and to byte
    strings and the arithmetic type; [SecureFixedHash] in a module of its own. *)

From S2P Require Import Prelude CommonData.
Import BigEndian Hex VectorRef.

Abbreviation h520 := (vec byte 65).
Abbreviation h512 := (vec byte 64).
Abbreviation h256 := (vec byte 32).
Abbreviation h160 := (vec byte 20).

(** [FixedHash()]. *)
Definition zero_hash (N : nat) : vec byte N := vreplicate N Byte.x00.

(** [explicit operator bool()]. *)
Definition to_bool {N} (h : vec byte N) : bool :=
  existsb (fun b => negb (bval b =? 0)) (vec_to_list h).

Inductive ConstructFromHashType : Set := AlignLeft | AlignRight | FailIfDifferent.

(** [for (i = 0; i < c; ++i) m_data[right ? N-1-i : i] = _b[right ? size-1-i : i];] *)
Definition align_copy (N : nat) (_b : bytes) (right : bool) : bytes :=
  fold_left
    (fun m i => <[(if right then N - 1 - i else i)%nat :=
                   nth (if right then length _b - 1 - i else i)%nat _b Byte.x00]> m)
    (seq 0 (Nat.min (length _b) N)) (replicate N Byte.x00).

(** [FixedHash(bytes const& _b, _t)]. *)
Definition fromBytes (N : nat) (_b : bytes) (_t : ConstructFromHashType) : vec byte N :=
  if bool_decide (length _b = N) then vec_of_bytes N _b
  else match _t with
       | FailIfDifferent => zero_hash N
       | AlignRight => vec_of_bytes N (align_copy N _b true)
       | AlignLeft => vec_of_bytes N (align_copy N _b false)
       end.

(** [FixedHash(std::string const& _s, FromHex, _ht)]. *)
Definition fromHexString (N : nat) (_s : bytes) (_ht : ConstructFromHashType) : result (vec byte N) :=
  b ← fromHex _s true; Ok (fromBytes N b _ht).

(** [FixedHash(Arith)] and [operator Arith()]. *)
Definition fromArith (N : nat) (_arith : Z) : vec byte N := vec_of_bytes N (toBigEndian N _arith).
Definition toArith {N} (h : vec byte N) : Z :=
  fromBigEndian (fun z => z mod 2 ^ (8 * Z.of_nat N)) (vec_to_list h).

(** [operator<]. *)
Fixpoint bytes_ltb (a b : bytes) : bool :=
  match a, b with
  | x :: a', y :: b' =>
      if bval x <? bval y then true else if bval y <? bval x then false else bytes_ltb a' b'
  | _, _ => false
  end.

Definition hash_ltb {N} (a b : vec byte N) : bool := bytes_ltb (vec_to_list a) (vec_to_list b).
Definition hash_eqb {N} (a b : vec byte N) : bool := bool_decide (a = b).
Definition hash_leb {N} (a b : vec byte N) : bool := hash_eqb a b || hash_ltb a b.
Definition hash_gtb {N} (a b : vec byte N) : bool := negb (hash_leb a b).
Definition hash_geb {N} (a b : vec byte N) : bool := negb (hash_ltb a b).

(** The bitwise operators. *)
Definition byte_op (f : Z -> Z -> Z) (x y : byte) : byte := byte_of (f (bval x) (bval y)).
Definition hash_xor {N} (a b : vec byte N) : vec byte N := vzip_with (byte_op Z.lxor) a b.
Definition hash_or {N} (a b : vec byte N) : vec byte N := vzip_with (byte_op Z.lor) a b.
Definition hash_and {N} (a b : vec byte N) : vec byte N := vzip_with (byte_op Z.land) a b.
Definition hash_not {N} (a : vec byte N) : vec byte N := vmap (fun x => byte_of (Z.lnot (bval x))) a.

Definition contains {N} (a _c : vec byte N) : bool := hash_eqb (hash_and a _c) _c.

(** [operator++]: [for (i = size; i > 0 && !++m_data[--i]; ) {}], on the bytes
    from the last to the first. *)
Fixpoint incr_loop (l : bytes) : bytes :=
  match l with
  | [] => []
  | x :: l' =>
      let y := byte_of (bval x + 1) in
      if bval y =? 0 then y :: incr_loop l' else y :: l'
  end.

Definition hash_incr {N} (a : vec byte N) : vec byte N :=
  vec_of_bytes N (rev (incr_loop (rev (vec_to_list a)))).

(** [firstBitSet()]: [for (;; ++ret, d <<= 1) if (d & 0x80) return ret;] on a
    non-zero byte stops within eight rounds. *)
Fixpoint first_bit_byte (fuel : nat) (d ret : Z) : Z :=
  match fuel with
  | O => ret
  | S f => if negb (Z.land d 0x80 =? 0) then ret else first_bit_byte f (u8 (Z.shiftl d 1)) (ret + 1)
  end.

Fixpoint first_bit_loop (l : bytes) (ret : Z) : Z :=
  match l with
  | [] => ret
  | d :: l' => if negb (bval d =? 0) then first_bit_byte 8 (bval d) ret else first_bit_loop l' (ret + 8)
  end.

Definition firstBitSet {N} (a : vec byte N) : Z := first_bit_loop (vec_to_list a) 0.

Definition setFirstBit {N} (a : vec byte (S N)) : vec byte (S N) :=
  vinsert 0%fin (byte_of (Z.lor (bval (a !!! 0%fin)) 0x80)) a.
Definition unsetFirstBit {N} (a : vec byte (S N)) : vec byte (S N) :=
  vinsert 0%fin (byte_of (Z.land (bval (a !!! 0%fin)) 0x7F)) a.
Definition checkFirstBit {N} (a : vec byte (S N)) : Z := Z.land (bval (a !!! 0%fin)) 0x80.

(** [right160(_t)]: the last 20 of 32 bytes. *)
Definition right160 (_t : h256) : h160 := vec_of_bytes 20 (drop 12 (vec_to_list _t)).

(** [SecureFixedHash]: [|=] and [&=] call [operator^=] of the base class. *)
Module Secure.
Definition secure_xor {N} (a b : vec byte N) : vec byte N := hash_xor a b.
Definition secure_or {N} (a b : vec byte N) : vec byte N := hash_xor a b.
Definition secure_and {N} (a b : vec byte N) : vec byte N := hash_xor a b.
Definition secure_not {N} (a : vec byte N) : vec byte N := hash_not a.
End Secure.

(** ** The order *)

Lemma bytes_ltb_be_val a b : length a = length b -> bytes_ltb a b = (be_val a <? be_val b).
Proof.
  revert b. induction a as [|x a IH]; intros [|y b] Hl; simplify_eq/=; [done|].
  pose proof (be_val_range a). pose proof (be_val_range b).
  assert (zlen a = zlen b) as Hz by (unfold zlen; lia). rewrite Hz in *.
  pose proof (Z.pow_pos_nonneg 256 (zlen b) ltac:(lia) (zlen_nonneg b)).
  destruct (Z.ltb_spec (bval x) (bval y)); [symmetry; apply Z.ltb_lt; nia|].
  destruct (Z.ltb_spec (bval y) (bval x)); [symmetry; apply Z.ltb_ge; nia|].
  rewrite IH by done. replace (bval x) with (bval y) by lia.
  destruct (Z.ltb_spec (be_val a) (be_val b)); symmetry; [apply Z.ltb_lt|apply Z.ltb_ge]; lia.
Qed.

Lemma hash_ltb_val {N} (a b : vec byte N) :
  hash_ltb a b = (be_val (vec_to_list a) <? be_val (vec_to_list b)).
Proof. apply bytes_ltb_be_val. by rewrite !length_vec_to_list. Qed.

Lemma hash_val_inj {N} (a b : vec byte N) : be_val (vec_to_list a) = be_val (vec_to_list b) -> a = b.
Proof. intros H. apply vec_to_list_inj2. apply be_val_inj; [by rewrite !length_vec_to_list|done]. Qed.

Lemma hash_eqb_val {N} (a b : vec byte N) :
  hash_eqb a b = (be_val (vec_to_list a) =? be_val (vec_to_list b)).
Proof.
  unfold hash_eqb. case_bool_decide as H.
  - subst. by rewrite Z.eqb_refl.
  - symmetry. apply Z.eqb_neq. intros E. by apply H, hash_val_inj.
Qed.

Lemma hash_leb_val {N} (a b : vec byte N) :
  hash_leb a b = (be_val (vec_to_list a) <=? be_val (vec_to_list b)).
Proof.
  unfold hash_leb. rewrite hash_eqb_val, hash_ltb_val.
  destruct (Z.eqb_spec (be_val (vec_to_list a)) (be_val (vec_to_list b))); cbn [orb].
  - symmetry. apply Z.leb_le. lia.
  - destruct (Z.ltb_spec (be_val (vec_to_list a)) (be_val (vec_to_list b))); symmetry; [apply Z.leb_le|apply Z.leb_gt]; lia.
Qed.

Lemma hash_gtb_val {N} (a b : vec byte N) : hash_gtb a b = hash_ltb b a.
Proof. unfold hash_gtb. rewrite hash_leb_val, hash_ltb_val, Z.leb_antisym. by rewrite negb_involutive. Qed.

Lemma hash_geb_val {N} (a b : vec byte N) : hash_geb a b = hash_leb b a.
Proof. unfold hash_geb. by rewrite hash_leb_val, hash_ltb_val, Z.leb_antisym. Qed.

(** The key order of [std::map<FixedHash<N>, _>] as a relation. *)
Definition hash_le {N} (a b : vec byte N) : Prop := hash_leb a b = true.

#[export] Instance hash_le_dec {N} : RelDecision (@hash_le N).
Proof. intros a b. unfold hash_le. apply _. Defined.

#[export] Instance hash_le_po {N} : PartialOrder (@hash_le N).
Proof.
  unfold hash_le. split; [split|].
  - intros a. rewrite hash_leb_val. apply Z.leb_refl.
  - intros a b c. rewrite !hash_leb_val, !Z.leb_le. lia.
  - intros a b. rewrite !hash_leb_val, !Z.leb_le. intros. apply hash_val_inj. lia.
Qed.

#[export] Instance hash_le_total {N} : Total (@hash_le N).
Proof. intros a b. unfold hash_le. rewrite !hash_leb_val, !Z.leb_le. lia. Qed.

(** ** Arithmetic *)

Lemma incr_loop_length l : length (incr_loop l) = length l.
Proof. induction l as [|x l IH]; [done|]. cbn. by case_match; cbn; rewrite ?IH. Qed.

Lemma byte_succ x : bval (byte_of (bval x + 1)) = if bval x =? 255 then 0 else bval x + 1.
Proof.
  pose proof (bval_range x). rewrite bval_byte_of.
  destruct (Z.eqb_spec (bval x) 255) as [->|]; [done|]. apply Z.mod_small. lia.
Qed.

Lemma be_val_incr l : be_val (rev (incr_loop (rev l))) = (be_val l + 1) mod 256 ^ zlen l.
Proof.
  induction l as [|x l IH] using rev_ind; [done|].
  rewrite rev_app_distr. cbn [rev app incr_loop]. rewrite byte_succ.
  pose proof (be_val_range l) as Hr. pose proof (bval_range x).
  rewrite (zlen_app l [x]), be_val_app. change (zlen [x]) with 1. cbn [be_val].
  change (zlen (@nil byte)) with 0. rewrite Z.pow_add_r by (pose proof (zlen_nonneg l); lia).
  change (256 ^ 1) with 256. change (256 ^ 0) with 1.
  pose proof (Z.pow_pos_nonneg 256 (zlen l) ltac:(lia) (zlen_nonneg l)).
  destruct (Z.eqb_spec (bval x) 255) as [E|E].
  - rewrite Z.eqb_refl. cbn [rev]. rewrite be_val_app, IH. cbn [be_val].
    rewrite byte_succ, E. change (zlen [byte_of (255 + 1)]) with 1. change (zlen (@nil byte)) with 0.
    change (255 =? 255) with true. cbv iota. change (256 ^ 1) with 256.
    replace (be_val l * 256 + (255 * 1 + 0) + 1) with ((be_val l + 1) * 256) by lia.
    rewrite Z.mul_mod_distr_r by lia. lia.
  - rewrite (proj2 (Z.eqb_neq _ _)) by lia. cbn [rev]. rewrite rev_involutive, be_val_app. cbn [be_val].
    rewrite byte_succ, (proj2 (Z.eqb_neq _ _)) by done.
    change (zlen [_]) with 1. change (zlen (@nil byte)) with 0. change (256 ^ 1) with 256. change (256 ^ 0) with 1.
    rewrite Z.mod_small; nia.
Qed.

Lemma toArith_val {N} (h : vec byte N) : toArith h = be_val (vec_to_list h).
Proof.
  apply fromBigEndian_small. intros z Hz. apply Z.mod_small.
  pose proof (be_val_range (vec_to_list h)) as Hr. rewrite zlen_vec in Hr.
  rewrite Z.pow_mul_r by lia. change (2 ^ 8) with 256. lia.
Qed.

(** ** Properties *)

(** [FixedHash<N>] is the big-endian [8N]-bit unsigned integer its class
    comment announces: the order operators compare the values, [operator++]
    adds one modulo [2^(8N)], and the conversions from and to the arithmetic
    type are inverse to each other. *)
Theorem fixedhash_is_big_endian (N : nat) (a b : vec byte N) :
  hash_ltb a b = (toArith a <? toArith b) /\ hash_leb a b = (toArith a <=? toArith b) /\
  hash_gtb a b = (toArith b <? toArith a) /\ hash_geb a b = (toArith b <=? toArith a) /\
  hash_eqb a b = (toArith a =? toArith b) /\
  toArith (hash_incr a) = (toArith a + 1) mod 2 ^ (8 * Z.of_nat N) /\
  fromArith N (toArith a) = a.
Proof.
  rewrite hash_gtb_val, hash_geb_val, !toArith_val, !hash_leb_val, !hash_ltb_val, hash_eqb_val.
  repeat split.
  - unfold hash_incr. rewrite vec_to_list_of_bytes by (by rewrite length_rev, incr_loop_length, length_rev, length_vec_to_list).
    rewrite be_val_incr, zlen_vec, Z.pow_mul_r by lia. done.
  - unfold fromArith. pose proof (toBigEndian_be_val (vec_to_list a)) as H. rewrite length_vec_to_list in H.
    rewrite H. apply vec_of_bytes_to_list.
Qed.

(** [SecureFixedHash::operator|] and [operator&] are not the bitwise or and
    and of the base class: both call [operator^=]. *)
Theorem secure_or_and_are_xor :
  Secure.secure_or (fromArith 1 1) (fromArith 1 1) <> hash_or (fromArith 1 1) (fromArith 1 1) /\
  Secure.secure_and (fromArith 1 1) (fromArith 1 1) <> hash_and (fromArith 1 1) (fromArith 1 1).
Proof. split; intros H%(f_equal (fun h => toArith h)); vm_compute in H; discriminate H. Qed.
