(* ===== verification/SHA3.v ===== *)
(** * Keccak: crypto/SHAx.cpp and crypto/SHA3.{h,cpp}

    The permutation [keccakf] on 25 words of 64 bits, in place as in the
    code, the sponge [hash], and [sha3_256], [sha3_512]. [Reference] is FIPS
    202 bit by bit, with its own rotation offsets, round constants, absorption
    and output, and shares nothing with the model of the code; the theorems
    relate the two. *)

From S2P Require Import Prelude CommonData FixedHash.
Import Hex.

Definition rho : list Z :=
  [1; 3; 6; 10; 15; 21; 28; 36; 45; 55; 2; 14; 27; 41; 56; 8; 25; 43; 62; 18; 39; 61; 20; 44].
Definition pi : list nat :=
  [10; 7; 11; 17; 18; 3; 5; 16; 8; 21; 24; 4; 15; 23; 19; 13; 12; 2; 20; 14; 22; 9; 6; 1]%nat.
Definition RC : list Z :=
  [0x1; 0x8082; 0x800000000000808a; 0x8000000080008000;
   0x808b; 0x80000001; 0x8000000080008081; 0x8000000000008009;
   0x8a; 0x88; 0x80008009; 0x8000000a;
   0x8000808b; 0x800000000000008b; 0x8000000000008089; 0x8000000000008003;
   0x8000000000008002; 0x8000000000000080; 0x800a; 0x800000008000000a;
   0x8000000080008081; 0x8000000000008080; 0x80000001; 0x8000000080008008].

(** [#define rol(x, s)] on [uint64_t]. *)
Definition rol (x s : Z) : Z := Z.lor (u64 (Z.shiftl x s)) (Z.shiftr x (64 - s)).

(** [a[i]]; every index of the code is a constant below the array's size. *)
Definition word (a : list Z) (i : nat) : Z := nth i a 0.

(** [FOR5(v, s, e)]: [v] runs over [0, s, .., 4s]. *)
Definition for5 {S} (s : nat) (e : nat -> S -> S) (st : S) : S :=
  fold_left (fun st v => e v st) [0; s; 2 * s; 3 * s; 4 * s]%nat st.

Definition theta (a : list Z) : list Z :=
  let b := for5 1 (fun x b => for5 5 (fun y b => <[x := Z.lxor (word b x) (word a (x + y))]> b) (<[x := 0]> b))
             [0; 0; 0; 0; 0] in
  for5 1 (fun x a => for5 5 (fun y a =>
    <[(y + x)%nat := Z.lxor (word a (y + x)) (Z.lxor (word b ((x + 4) mod 5)) (rol (word b ((x + 1) mod 5)) 1))]> a) a) a.

Definition rho_pi (a : list Z) : list Z :=
  snd (fold_left
    (fun '(t, a) x =>
       let p := nth x pi 0%nat in
       (word a p, <[p := rol t (nth x rho 0)]> a))
    (seq 0 24) (word a 1, a)).

Definition chi (a : list Z) : list Z :=
  for5 5 (fun y a =>
    let b := for5 1 (fun x b => <[x := word a (y + x)]> b) [0; 0; 0; 0; 0] in
    for5 1 (fun x a =>
      <[(y + x)%nat := Z.lxor (word b x) (Z.land (Z.lnot (word b ((x + 1) mod 5))) (word b ((x + 2) mod 5)))]> a) a) a.

Definition iota (i : nat) (a : list Z) : list Z := <[0%nat := Z.lxor (word a 0) (nth i RC 0)]> a.

Definition keccak_round (a : list Z) (i : nat) : list Z := iota i (chi (rho_pi (theta a))).

Definition keccakf_words (a : list Z) : list Z := fold_left keccak_round (seq 0 24) a.

(** The state is an array of 200 bytes that [keccakf] reads as 25
    little-endian words. *)
Fixpoint le_val (l : bytes) : Z :=
  match l with
  | [] => 0
  | b :: l' => bval b + 256 * le_val l'
  end.

Fixpoint le_bytes (n : nat) (v : Z) : bytes :=
  match n with
  | O => []
  | S m => byte_of v :: le_bytes m (Z.shiftr v 8)
  end.

Definition to_words (a : bytes) : list Z :=
  map (fun i => le_val (take 8 (drop (8 * i) a))) (seq 0 25).
Definition of_words (ws : list Z) : bytes := concat (map (le_bytes 8) ws).

Definition keccakf (state : bytes) : bytes := of_words (keccakf_words (to_words state)).

(** [xorin(dst, src, len)]. *)
Fixpoint xorin (dst src : bytes) (len : nat) {struct len} : bytes :=
  match len, dst, src with
  | S n, d :: dst', s :: src' => byte_of (Z.lxor (bval d) (bval s)) :: xorin dst' src' n
  | _, _, _ => dst
  end.

Definition xor_at (a : bytes) (i : nat) (v : Z) : bytes :=
  <[i := byte_of (Z.lxor (bval (nth i a Byte.x00)) v)]> a.

Definition Plen : nat := 200.

(** [foldP(in, inlen, xorin)]: the state and the rest of the input. The fuel
    is the length of the input; a round consumes [rate >= 1] bytes. *)
Fixpoint absorb_loop (fuel rate : nat) (a input : bytes) : bytes * bytes :=
  match fuel with
  | O => (a, input)
  | S f =>
      if (rate <=? length input)%nat
      then absorb_loop f rate (keccakf (xorin a input rate)) (drop rate input)
      else (a, input)
  end.

(** [foldP(out, outlen, setout); setout(a, out, outlen)]. *)
Fixpoint squeeze_loop (fuel rate : nat) (a : bytes) (outlen : nat) : bytes :=
  match fuel with
  | O => take outlen a
  | S f =>
      if (rate <=? outlen)%nat
      then take rate a ++ squeeze_loop f rate (keccakf a) (outlen - rate)
      else take outlen a
  end.

(** [hash(out, outlen, in, inlen, rate, delim)]; [None] is the return value -1. *)
Definition hash (outlen : nat) (input : bytes) (rate : nat) (delim : Z) : option bytes :=
  if (Plen <=? rate)%nat then None
  else
    let '(a, rest) := absorb_loop (length input) rate (replicate Plen Byte.x00) input in
    let a := xor_at a (length rest) delim in
    let a := xor_at a (rate - 1) 0x80 in
    let a := keccakf (xorin a rest (length rest)) in
    Some (squeeze_loop outlen rate a outlen).

Definition SHA3_RATE (x : nat) : nat := (200 - x / 4)%nat.

Definition sha3_256 (input : bytes) : bytes := default [] (hash 32 input (SHA3_RATE 256) 0x1).
Definition sha3_512 (input : bytes) : bytes := default [] (hash 64 input (SHA3_RATE 512) 0x1).

(** [h256 sha3(bytesConstRef input)]. *)
Definition sha3 (input : bytes) : h256 := vec_of_bytes 32 (sha3_256 input).

(** [sha3(std::pair<h256, h256>)]: the hash of the two hexadecimal strings. *)
Definition sha3_pair (l r : h256) : h256 :=
  sha3 (toHex [] (vec_to_list l) ++ toHex [] (vec_to_list r)).

(** ** Reference definitions *)

(** FIPS 202, bit by bit: section 3.2 and 3.3 for the permutation, section 4
    for the sponge. Nothing of the code above is used. *)
Module Reference.

(** A state array [A[x, y, z]]. *)
Definition State : Type := nat -> nat -> Z -> bool.

Definition parity (A : State) (x : nat) (z : Z) : bool := fold_right xorb false (map (fun y => A (x mod 5)%nat y (z mod 64)) (seq 0 5)).
Definition theta_bits (A : State) : State := fun x y z => xorb (A x y z) (xorb (parity A (x + 4) z) (parity A (x + 1) (z - 1))).

(** Algorithm 2: the offset of a lane is found on the walk from [(1, 0)]. *)
Fixpoint rho_walk (n t x y : nat) (x' y' : nat) : Z :=
  match n with
  | O => 0
  | S n => if ((x =? x') && (y =? y'))%nat then Z.of_nat ((t + 1) * (t + 2) / 2) else rho_walk n (t + 1) y ((2 * x + 3 * y) mod 5) x' y'
  end.
Definition rho_bits (A : State) : State := fun x y z => A x y ((z - rho_walk 24 0 1 0 x y) mod 64).

Definition pi_bits (A : State) : State := fun x y z => A ((x + 3 * y) mod 5)%nat x z.

Definition chi_bits (A : State) : State := fun x y z => xorb (A x y z) (negb (A ((x + 1) mod 5)%nat y z) && A ((x + 2) mod 5)%nat y z).

(** Algorithm 5: the round constants come from a shift register. *)
Definition rc_step (R : list bool) : list bool :=
  match R with
  | [r0; r1; r2; r3; r4; r5; r6; r7] => [r7; r0; r1; r2; xorb r3 r7; xorb r4 r7; xorb r5 r7; r6]
  | _ => R
  end.
Definition rc (t : nat) : bool := hd false (Nat.iter (t mod 255) rc_step [true; false; false; false; false; false; false; false]).
Definition rc_bit (ir : nat) (z : Z) : bool := existsb (fun j => (z =? 2 ^ Z.of_nat j - 1) && rc (j + 7 * ir)) (seq 0 7).
Definition iota_bits (ir : nat) (A : State) : State := fun x y z => if ((x =? 0) && (y =? 0))%nat then xorb (A x y z) (rc_bit ir z) else A x y z.

Definition round_bits (A : State) (ir : nat) : State := iota_bits ir (chi_bits (pi_bits (rho_bits (theta_bits A)))).
Definition keccak_f1600 (A : State) : State := fold_left round_bits (seq 0 24) A.

(** Strings of bytes and state arrays (section 3.1): the bits of a byte from
    the lowest on. *)
Definition bit_of (s : bytes) (n : Z) : bool := Z.testbit (bval (nth (Z.to_nat (n / 8)) s Byte.x00)) (n mod 8).
Definition array_of (s : bytes) : State := fun x y z => bit_of s (64 * Z.of_nat (5 * y + x) + z).
Definition byte_of_bits (f : Z -> bool) : byte := byte_of (fold_right Z.add 0 (map (fun j => if f (Z.of_nat j) then 2 ^ Z.of_nat j else 0) (seq 0 8))).
Definition string_of (A : State) : bytes :=
  map (fun i => byte_of_bits (fun j => A ((i / 8) mod 5)%nat (i / 40)%nat (8 * Z.of_nat (i mod 8) + j))) (seq 0 200).
Definition keccak (s : bytes) : bytes := string_of (keccak_f1600 (array_of s)).

(** The padding: the domain byte, zeros, and the final bit, in one byte when
    only one is left. *)
Definition pad (rate : nat) (delim : Z) (n : nat) : bytes :=
  match (rate - n)%nat with
  | 1%nat => [byte_of (Z.lxor delim 0x80)]
  | q => byte_of delim :: replicate (q - 2) Byte.x00 ++ [Byte.x80]
  end.

(** Algorithm 8: the blocks of the padded message, extended by the capacity,
    are added to the state; the output is cut from the states that follow. *)
Definition xor_bytes (a b : bytes) : bytes := zip_with (fun x y => byte_of (Z.lxor (bval x) (bval y))) a b.
Fixpoint absorb (n rate : nat) (a m : bytes) : bytes :=
  match n with
  | O => a
  | S k => absorb k rate (keccak (xor_bytes a (take rate m ++ replicate (200 - rate) Byte.x00))) (drop rate m)
  end.
Definition squeeze (outlen rate : nat) (a : bytes) : bytes := take outlen (concat (map (fun i => take rate (Nat.iter i keccak a)) (seq 0 (outlen / rate + 1)))).
Definition sponge (outlen : nat) (m : bytes) (rate : nat) (delim : Z) : bytes :=
  squeeze outlen rate (absorb (length m / rate + 1) rate (replicate 200 Byte.x00) (m ++ pad rate delim (length m mod rate))).

End Reference.
Import Reference.

(** ** The step mappings on words *)

(** Lane [A[x, y]] of the state. *)
Definition lane (a : list Z) (x y : nat) : Z := word a (5 * (y mod 5) + x mod 5).

(** A state from its lanes. *)
Definition build (f : nat -> nat -> Z) : list Z :=
  flat_map (fun y => map (fun x => f x y) (seq 0 5)) (seq 0 5).

Definition column (a : list Z) (x : nat) : Z :=
  fold_right Z.lxor 0 (map (lane a x) (seq 0 5)).

Definition theta_ref (a : list Z) : list Z :=
  build (fun x y => Z.lxor (lane a x y) (Z.lxor (column a (x + 4)) (rol (column a (x + 1)) 1))).

Definition rotate (w s : Z) : Z := if s =? 0 then w else rol w s.

(** Rho then pi. *)
Definition rho_pi_ref (a : list Z) : list Z :=
  build (fun x y => rotate (lane a (x + 3 * y) x) (rho_walk 24 0 1 0 ((x + 3 * y) mod 5) x mod 64)).

Definition chi_ref (a : list Z) : list Z :=
  build (fun x y => Z.lxor (lane a x y) (Z.land (Z.lnot (lane a (x + 1) y)) (lane a (x + 2) y))).

Definition iota_ref (i : nat) (a : list Z) : list Z :=
  build (fun x y => if ((x =? 0) && (y =? 0))%nat then Z.lxor (lane a x y) (nth i RC 0) else lane a x y).

Definition round_ref (a : list Z) (i : nat) : list Z := iota_ref i (chi_ref (rho_pi_ref (theta_ref a))).

Definition permutation (a : list Z) : list Z := fold_left round_ref (seq 0 24) a.

(** ** The permutation *)

Lemma list_25 {A} (a : list A) : length a = 25%nat ->
  exists a0 a1 a2 a3 a4 a5 a6 a7 a8 a9 a10 a11 a12 a13 a14 a15 a16 a17 a18 a19 a20 a21 a22 a23 a24,
  a = [a0; a1; a2; a3; a4; a5; a6; a7; a8; a9; a10; a11; a12; a13; a14; a15; a16; a17; a18; a19; a20; a21; a22; a23; a24].
Proof.
  intros H. do 25 (destruct a as [|? a]; [discriminate H|]). destruct a; [|discriminate H].
  do 25 eexists. reflexivity.
Qed.

Lemma build_length f : length (build f) = 25%nat.
Proof. reflexivity. Qed.

Lemma theta_eq a : length a = 25%nat -> theta a = theta_ref a.
Proof.
  intros (?&?&?&?&?&?&?&?&?&?&?&?&?&?&?&?&?&?&?&?&?&?&?&?&?&->)%list_25.
  lazy -[Z.lxor rol]. rewrite !Z.lxor_0_l, !Z.lxor_0_r, !Z.lxor_assoc. reflexivity.
Qed.

Lemma rho_pi_eq a : length a = 25%nat -> rho_pi a = rho_pi_ref a.
Proof.
  intros (?&?&?&?&?&?&?&?&?&?&?&?&?&?&?&?&?&?&?&?&?&?&?&?&?&->)%list_25. lazy -[rol]. reflexivity.
Qed.

Lemma chi_eq a : length a = 25%nat -> chi a = chi_ref a.
Proof.
  intros (?&?&?&?&?&?&?&?&?&?&?&?&?&?&?&?&?&?&?&?&?&?&?&?&?&->)%list_25. lazy -[Z.lxor Z.land Z.lnot]. reflexivity.
Qed.

Lemma iota_eq i a : length a = 25%nat -> iota i a = iota_ref i a.
Proof.
  intros (?&?&?&?&?&?&?&?&?&?&?&?&?&?&?&?&?&?&?&?&?&?&?&?&?&->)%list_25.
  unfold iota, iota_ref. generalize (nth i RC 0). intros rc. lazy -[Z.lxor]. reflexivity.
Qed.

Lemma round_ref_length a i : length (round_ref a i) = 25%nat.
Proof. exact (build_length _). Qed.

Lemma round_eq a i : length a = 25%nat -> keccak_round a i = round_ref a i.
Proof.
  intros Ha. unfold keccak_round, round_ref. rewrite (theta_eq a Ha).
  rewrite (rho_pi_eq (theta_ref a)) by exact (build_length _).
  rewrite (chi_eq (rho_pi_ref (theta_ref a))) by exact (build_length _).
  apply iota_eq. exact (build_length _).
Qed.

Lemma fold_left_agree {A B} (f g : A -> B -> A) (P : A -> Prop) l a :
  (forall a b, P a -> f a b = g a b) -> (forall a b, P (g a b)) -> P a -> fold_left f l a = fold_left g l a.
Proof.
  intros Hfg HP. revert a. induction l as [|b l IH]; intros a Ha; [done|]. cbn [fold_left].
  rewrite Hfg by done. by apply IH.
Qed.

Lemma keccakf_words_eq a : length a = 25%nat -> keccakf_words a = permutation a.
Proof.
  exact (fold_left_agree keccak_round round_ref (fun a => length a = 25%nat) (seq 0 24) a round_eq round_ref_length).
Qed.

Lemma permutation_length a : length a = 25%nat -> length (permutation a) = 25%nat.
Proof.
  unfold permutation. generalize (seq 0 24). intros l. revert a.
  induction l as [|i l IH]; intros a Ha; [done|]. cbn [fold_left]. apply IH, round_ref_length.
Qed.

Lemma length_le_bytes n v : length (le_bytes n v) = n.
Proof. revert v. induction n as [|n IH]; intros v; cbn; [done|]. by rewrite IH. Qed.

Lemma length_of_words ws : length (of_words ws) = (8 * length ws)%nat.
Proof.
  unfold of_words. induction ws as [|w ws IH]; [done|]. cbn [map concat length]. rewrite length_app, length_le_bytes, IH. lia.
Qed.

Lemma keccakf_length st : length (keccakf st) = Plen.
Proof.
  unfold keccakf. rewrite keccakf_words_eq by (unfold to_words; by rewrite length_map, length_seq).
  rewrite length_of_words, permutation_length; [done|]. unfold to_words. by rewrite length_map, length_seq.
Qed.

(** ** The words bit by bit *)

Definition bits (a : list Z) : State := fun x y z => Z.testbit (word a (5 * y + x)) z.
Definition agree (A B : State) : Prop := forall x y z, (x < 5)%nat -> (y < 5)%nat -> 0 <= z < 64 -> A x y z = B x y z.

Lemma build_word f x y : (x < 5)%nat -> (y < 5)%nat -> word (build f) (5 * y + x) = f x y.
Proof. intros Hx Hy. do 5 (destruct x as [|x]; [do 5 (destruct y as [|y]; [reflexivity|]); lia|]). lia. Qed.
Lemma lane_word a x y : (x < 5)%nat -> (y < 5)%nat -> lane a x y = word a (5 * y + x).
Proof. intros Hx Hy. unfold lane. by rewrite !Nat.mod_small. Qed.
Lemma mod_5 x : (x mod 5 < 5)%nat.
Proof. apply Nat.mod_upper_bound. lia. Qed.
Lemma lane_bits a x y z : Z.testbit (lane a x y) z = bits a (x mod 5)%nat (y mod 5)%nat z.
Proof. done. Qed.

Lemma testbit_u64_high w z : is_u64 w -> 64 <= z -> Z.testbit w z = false.
Proof. intros Hw Hz. destruct (Z.eq_dec w 0) as [->|]; [apply Z.bits_0|]. unfold is_u64 in Hw. apply Z.bits_above_log2; [lia|]. pose proof (proj1 (Z.log2_lt_pow2 w 64 ltac:(lia))). lia. Qed.
Lemma u64_of_bits w : 0 <= w -> (forall z, 64 <= z -> Z.testbit w z = false) -> is_u64 w.
Proof.
  intros Hw Hz. split; [done|]. destruct (Z.eq_dec w 0) as [->|]; [done|]. apply Z.log2_lt_pow2; [lia|]. destruct (Z.lt_ge_cases (Z.log2 w) 64) as [|Hge]; [done|]. pose proof (Hz _ Hge) as H. rewrite Z.bit_log2 in H by lia. done.
Qed.
Lemma u64_lxor v w : is_u64 v -> is_u64 w -> is_u64 (Z.lxor v w).
Proof. intros Hv Hw. apply u64_of_bits; [apply Z.lxor_nonneg; unfold is_u64 in *; lia|]. intros z Hz. by rewrite Z.lxor_spec, !testbit_u64_high. Qed.
Lemma u64_land v w : is_u64 w -> is_u64 (Z.land v w).
Proof. intros Hw. apply u64_of_bits; [apply Z.land_nonneg; unfold is_u64 in *; lia|]. intros z Hz. by rewrite Z.land_spec, (testbit_u64_high w), andb_false_r. Qed.
(** A rotation moves bit [z - s] to bit [z]. *)
Lemma rol_bit w s z : is_u64 w -> 0 < s < 64 -> 0 <= z < 64 -> Z.testbit (rol w s) z = Z.testbit w ((z - s) mod 64).
Proof.
  intros Hw Hs Hz. unfold rol, u64. rewrite Z.lor_spec, Z.mod_pow2_bits_low, Z.shiftl_spec, Z.shiftr_spec by lia. destruct (Z.lt_ge_cases z s) as [Hlt|Hge].
  - rewrite Z.testbit_neg_r by lia. replace ((z - s) mod 64) with (z + (64 - s)); [done|]. apply Z.mod_unique_pos with (-1); lia.
  - rewrite (testbit_u64_high w (z + _)), orb_false_r by (done || lia). by rewrite Z.mod_small by lia.
Qed.
Lemma u64_rol w s : is_u64 w -> 0 < s < 64 -> is_u64 (rol w s).
Proof.
  intros Hw Hs. unfold rol. apply u64_of_bits; [apply Z.lor_nonneg; split; [apply u64_range|apply Z.shiftr_nonneg; unfold is_u64 in Hw; lia]|].
  intros z Hz. rewrite Z.lor_spec, Z.shiftr_spec, (testbit_u64_high w (z + _)) by (done || lia). unfold u64. by rewrite Z.mod_pow2_bits_high by lia.
Qed.

Lemma u64_word a i : Forall is_u64 a -> is_u64 (word a i).
Proof. intros Ha. unfold word. destruct (nth_in_or_default i a 0) as [Hin| ->]; [|done]. rewrite Forall_forall in Ha. apply Ha. by apply list_elem_of_In. Qed.
Lemma u64_build f : (forall x y, (x < 5)%nat -> (y < 5)%nat -> is_u64 (f x y)) -> Forall is_u64 (build f).
Proof. intros Hf. unfold build. apply Forall_flat_map, Forall_forall. intros y Hy%elem_of_seq. apply Forall_map, Forall_forall. intros x Hx%elem_of_seq. apply Hf; lia. Qed.
Lemma u64_column a x : Forall is_u64 a -> is_u64 (column a x).
Proof. intros Ha. unfold column. cbn. repeat apply u64_lxor; try apply (u64_word a _ Ha). done. Qed.

Lemma column_bit a x z : 0 <= z < 64 -> Z.testbit (column a x) z = parity (bits a) x z.
Proof. intros Hz. unfold column, parity. rewrite Z.mod_small by done. cbn [seq map fold_right]. rewrite !Z.lxor_spec, Z.bits_0, !lane_bits. done. Qed.
Lemma parity_mod A x z : parity A x (z mod 64) = parity A x z.
Proof. unfold parity. by rewrite Z.mod_mod. Qed.

Section Steps.
Context (a : list Z) (Ha : Forall is_u64 a).
Lemma theta_step : Forall is_u64 (theta_ref a) /\ agree (bits (theta_ref a)) (theta_bits (bits a)).
Proof using Ha.
  split; [apply u64_build; intros x y _ _; apply u64_lxor; [by apply u64_word|apply u64_lxor; [by apply u64_column|apply u64_rol; [by apply u64_column|lia]]]|].
  intros x y z Hx Hy Hz. unfold bits at 1, theta_ref. rewrite build_word, lane_word, !Z.lxor_spec, rol_bit by (done || lia || by apply u64_column). unfold theta_bits. rewrite !column_bit by (done || apply Z.mod_pos_bound; lia). by rewrite parity_mod.
Qed.
Lemma rho_pi_step : Forall is_u64 (rho_pi_ref a) /\ agree (bits (rho_pi_ref a)) (pi_bits (rho_bits (bits a))).
Proof using Ha.
  assert (forall n t x y x' y', 0 <= rho_walk n t x y x' y') as Hpos by (induction n as [|n IH]; intros; cbn [rho_walk]; [done|]; destruct (_ && _); [lia|apply IH]).
  split.
  - apply u64_build. intros x y _ _. unfold rotate. destruct (Z.eqb_spec (rho_walk 24 0 1 0 ((x + 3 * y) mod 5) x mod 64) 0) as [|Hne]; [by apply u64_word|]. apply u64_rol; [by apply u64_word|]. pose proof (Z.mod_pos_bound (rho_walk 24 0 1 0 ((x + 3 * y) mod 5) x) 64). lia.
  - intros x y z Hx Hy Hz. unfold bits at 1, rho_pi_ref, pi_bits, rho_bits. rewrite build_word by done. set (s := rho_walk 24 0 1 0 ((x + 3 * y) mod 5) x). pose proof (Z.mod_pos_bound s 64 ltac:(lia)). unfold rotate.
    assert (lane a (x + 3 * y) x = word a (5 * x + (x + 3 * y) mod 5)) as -> by (unfold lane; by rewrite (Nat.mod_small x)). unfold bits. destruct (Z.eqb_spec (s mod 64) 0) as [E|E].
    + f_equal. rewrite Zminus_mod, E, Z.sub_0_r, Z.mod_mod, Z.mod_small by lia. done.
    + rewrite rol_bit by (by apply u64_word || lia). f_equal. by rewrite Zminus_mod_idemp_r.
Qed.
Lemma chi_step : Forall is_u64 (chi_ref a) /\ agree (bits (chi_ref a)) (chi_bits (bits a)).
Proof using Ha.
  split; [apply u64_build; intros x y _ _; apply u64_lxor; [by apply u64_word|apply u64_land; by apply u64_word]|].
  intros x y z Hx Hy Hz. unfold bits at 1, chi_ref. rewrite build_word, Z.lxor_spec, Z.land_spec, Z.lnot_spec, !lane_bits by (done || lia). by rewrite !(Nat.mod_small y), (Nat.mod_small x).
Qed.
(** The table of the code holds what the shift register gives. *)
Lemma RC_bits ir z : (ir < 24)%nat -> 0 <= z < 64 -> Z.testbit (nth ir RC 0) z = rc_bit ir z.
Proof.
  intros Hi Hz. assert (forallb (fun ir => forallb (fun z => Bool.eqb (Z.testbit (nth ir RC 0) (Z.of_nat z)) (rc_bit ir (Z.of_nat z))) (seq 0 64)) (seq 0 24) = true) as H by (vm_compute; reflexivity).
  rewrite forallb_forall in H. specialize (H ir ltac:(apply in_seq; lia)). rewrite forallb_forall in H. specialize (H (Z.to_nat z) ltac:(apply in_seq; lia)). apply Bool.eqb_prop in H. by rewrite Z2Nat.id in H by lia.
Qed.
Lemma iota_step ir : (ir < 24)%nat -> Forall is_u64 (iota_ref ir a) /\ agree (bits (iota_ref ir a)) (iota_bits ir (bits a)).
Proof using Ha.
  intros Hi. assert (Forall is_u64 RC) as HRC by (apply Forall_forall; intros w Hw; unfold RC in Hw; rewrite !elem_of_cons in Hw; unfold is_u64; destruct_or! Hw; try (subst w; lia); by apply elem_of_nil in Hw). split.
  - apply u64_build. intros x y _ _. destruct (_ && _)%nat; [apply u64_lxor; [by apply u64_word|by apply (u64_word RC)]|by apply u64_word].
  - intros x y z Hx Hy Hz. unfold bits at 1, iota_ref, iota_bits. rewrite build_word, lane_word by done. destruct (_ && _)%nat; [|done]. rewrite Z.lxor_spec. f_equal. by apply RC_bits.
Qed.
End Steps.

(** The mappings of the standard do not look at more than the state. *)
Lemma agree_trans A B C : agree A B -> agree B C -> agree A C.
Proof. intros H1 H2 x y z Hx Hy Hz. by rewrite H1, H2. Qed.
Lemma round_agree ir A B : agree A B -> agree (round_bits A ir) (round_bits B ir).
Proof.
  intros H. assert (agree (theta_bits A) (theta_bits B)) as H1.
  { intros x y z Hx Hy Hz. unfold theta_bits, parity. rewrite H by done. do 2 f_equal; f_equal; apply map_ext_in; intros i [_ Hi]%in_seq; (apply H; [apply mod_5|lia|apply Z.mod_pos_bound; lia]). }
  assert (agree (pi_bits (rho_bits (theta_bits A))) (pi_bits (rho_bits (theta_bits B)))) as H2 by (intros x y z Hx Hy Hz; apply H1; [apply mod_5|done|apply Z.mod_pos_bound; lia]).
  intros x y z Hx Hy Hz. unfold round_bits, iota_bits, chi_bits. rewrite !(H2 _ y z) by (done || apply mod_5). done.
Qed.
Lemma round_step a ir : Forall is_u64 a -> (ir < 24)%nat -> Forall is_u64 (round_ref a ir) /\ agree (bits (round_ref a ir)) (round_bits (bits a) ir).
Proof.
  intros Ha Hi. destruct (theta_step a Ha) as [U1 A1], (rho_pi_step _ U1) as [U2 A2], (chi_step _ U2) as [U3 A3], (iota_step _ U3 ir Hi) as [U4 A4]. split; [done|]. eapply agree_trans; [exact A4|]. unfold round_bits.
  intros x y z Hx Hy Hz. unfold iota_bits. rewrite !A3 by done. assert (agree (bits (rho_pi_ref (theta_ref a))) (pi_bits (rho_bits (theta_bits (bits a))))) as A12.
  { eapply agree_trans; [exact A2|]. intros x' y' z' Hx' Hy' Hz'. apply A1; [apply mod_5|done|apply Z.mod_pos_bound; lia]. }
  unfold chi_bits. rewrite !(A12 _ y z) by (done || apply mod_5). done.
Qed.
Lemma rounds_step l a A : Forall (fun i => (i < 24)%nat) l -> Forall is_u64 a -> agree (bits a) A -> agree (bits (fold_left round_ref l a)) (fold_left round_bits l A) /\ Forall is_u64 (fold_left round_ref l a).
Proof.
  revert a A. induction l as [|i l IH]; intros a A Hl Ha HA; [done|]. apply Forall_cons in Hl as [Hi Hl]. destruct (round_step a i Ha Hi) as [U R]. cbn [fold_left]. apply IH; [done|done|]. eapply agree_trans; [exact R|]. by apply round_agree.
Qed.
Lemma permutation_bits a : length a = 25%nat -> Forall is_u64 a -> agree (bits (keccakf_words a)) (keccak_f1600 (bits a)) /\ Forall is_u64 (keccakf_words a).
Proof. intros Hl Ha. rewrite (keccakf_words_eq a Hl). apply rounds_step; [|done|done]. by repeat constructor; lia. Qed.

(** *** Bytes *)
Lemma bit_of_cons b l z : 0 <= z -> bit_of (b :: l) z = if z <? 8 then Z.testbit (bval b) z else bit_of l (z - 8).
Proof.
  intros Hz. unfold bit_of. destruct (Z.ltb_spec z 8) as [Hlt|Hge]; [by rewrite Z.div_small, Z.mod_small by lia|].
  replace z with (z - 8 + 1 * 8) at 1 2 by lia. rewrite Z.div_add, Z_mod_plus_full by lia. rewrite Z2Nat.inj_add, Nat.add_comm by (try apply Z.div_pos; lia). done.
Qed.
Lemma le_val_bit l z : 0 <= z -> Z.testbit (le_val l) z = bit_of l z.
Proof.
  revert z. induction l as [|b l IH]; intros z Hz; cbn [le_val]; [unfold bit_of; destruct (Z.to_nat (z / 8)); by rewrite !Z.bits_0|]. pose proof (bval_range b). rewrite bit_of_cons by done. destruct (Z.ltb_spec z 8) as [Hlt|Hge].
  - rewrite <- (Z.mod_pow2_bits_low (bval b + _) 8) by lia. f_equal. change (2 ^ 8) with 256. rewrite Z.mul_comm, Z_mod_plus_full. apply Z.mod_small. lia.
  - replace z with (z - 8 + 8) at 1 by lia. rewrite <- Z.div_pow2_bits by lia. change (2 ^ 8) with 256. rewrite Z.mul_comm, Z.div_add, Z.div_small, Z.add_0_l by lia. apply IH. lia.
Qed.
Lemma bit_of_take_drop s k z : (0 <= z < 64) -> bit_of (take 8 (drop (8 * k) s)) z = bit_of s (64 * Z.of_nat k + z).
Proof.
  intros Hz. unfold bit_of. pose proof (Z.div_pos z 8 ltac:(lia) ltac:(lia)). assert (z / 8 < 8) by (apply Z.div_lt_upper_bound; lia).
  replace (64 * Z.of_nat k + z) with (z + Z.of_nat k * 8 * 8) by lia. rewrite Z.div_add, Z_mod_plus_full by lia. do 2 f_equal. rewrite nth_firstn, nth_skipn, (proj2 (Nat.ltb_lt _ _)) by lia. f_equal. lia.
Qed.
Lemma u64_le_val l : (length l <= 8)%nat -> is_u64 (le_val l).
Proof.
  intros Hl. apply u64_of_bits; [clear Hl; induction l as [|b l IH]; cbn [le_val]; [done|pose proof (bval_range b); lia]|]. intros z Hz. rewrite le_val_bit by lia. unfold bit_of. rewrite nth_overflow; [apply Z.bits_0|].
  assert (8 <= z / 8) by (apply Z.div_le_lower_bound; lia). lia.
Qed.
Lemma to_words_bits s : agree (bits (to_words s)) (array_of s) /\ Forall is_u64 (to_words s) /\ length (to_words s) = 25%nat.
Proof.
  unfold to_words. split; [|split; [|by rewrite length_map, length_seq]].
  - intros x y z Hx Hy Hz. unfold bits, word. rewrite (nth_indep _ _ (le_val (take 8 (drop (8 * 0) s)))) by (rewrite length_map, length_seq; lia). rewrite (map_nth (fun i => le_val (take 8 (drop (8 * i) s)))), seq_nth by lia. rewrite le_val_bit by lia. by apply bit_of_take_drop.
  - apply Forall_map, Forall_forall. intros i _. apply u64_le_val. rewrite length_take. lia.
Qed.
Lemma nth_le_bytes n v i : (i < n)%nat -> nth i (le_bytes n v) Byte.x00 = byte_of (Z.shiftr v (8 * Z.of_nat i)).
Proof.
  revert v i. induction n as [|n IH]; intros v i Hi; [lia|]. destruct i as [|i]; cbn [le_bytes nth]; [done|]. rewrite IH, Z.shiftr_shiftr by lia. do 2 f_equal. lia.
Qed.
Lemma nth_of_words ws i : (i < 8 * length ws)%nat -> nth i (of_words ws) Byte.x00 = byte_of (Z.shiftr (word ws (i / 8)) (8 * Z.of_nat (i mod 8))).
Proof.
  unfold of_words, word. revert i. induction ws as [|w ws IH]; intros i Hi; [cbn in Hi; lia|]. cbn [map concat]. destruct (Nat.lt_ge_cases i 8) as [Hlt|Hge].
  - rewrite app_nth1 by (by rewrite length_le_bytes). rewrite nth_le_bytes, Nat.div_small, Nat.mod_small by done. done.
  - rewrite app_nth2; rewrite length_le_bytes; [|done]. cbn [length] in Hi. rewrite IH by lia. replace i with (i - 8 + 1 * 8)%nat at 3 4 by lia. rewrite Nat.div_add, Nat.Div0.mod_add by lia. by rewrite Nat.add_comm.
Qed.
Lemma byte_of_bits_testbit b : byte_of_bits (fun j => Z.testbit (bval b) j) = b.
Proof. by destruct b. Qed.
Lemma byte_of_bits_ext f g : (forall j, 0 <= j < 8 -> f j = g j) -> byte_of_bits f = byte_of_bits g.
Proof. intros H. unfold byte_of_bits. do 2 f_equal. apply map_ext_in. intros j [_ Hj]%in_seq. by rewrite H by lia. Qed.
Lemma keccakf_is_keccak s : keccakf s = keccak s.
Proof.
  destruct (to_words_bits s) as (Hb & Hu & Hl). destruct (permutation_bits _ Hl Hu) as [Hp _]. unfold keccakf, keccak, string_of. set (ws := keccakf_words (to_words s)) in *. assert (length ws = 25%nat) as Hws by (unfold ws; rewrite keccakf_words_eq by done; by apply permutation_length).
  assert (agree (bits ws) (keccak_f1600 (array_of s))) as Ha. { eapply agree_trans; [exact Hp|]. clear -Hb. unfold keccak_f1600. generalize (seq 0 24). intros l. revert Hb. generalize (bits (to_words s)) (array_of s). induction l as [|i l IH]; intros A B HAB; [done|]. cbn [fold_left]. apply IH. by apply round_agree. }
  apply (nth_ext _ _ Byte.x00 Byte.x00); [by rewrite length_of_words, Hws, length_map, length_seq|]. intros i Hi. rewrite length_of_words, Hws in Hi. rewrite nth_of_words by (rewrite Hws; lia).
  set (g := fun i => byte_of_bits (fun j => keccak_f1600 (array_of s) ((i / 8) mod 5)%nat (i / 40)%nat (8 * Z.of_nat (i mod 8) + j))). rewrite (nth_indep _ _ (g 0%nat)) by (rewrite length_map, length_seq; lia). rewrite (map_nth g), seq_nth by lia. unfold g. clear g. rewrite Nat.add_0_l.
  rewrite <- (byte_of_bits_testbit (byte_of _)). apply byte_of_bits_ext. intros j Hj. pose proof (Nat.mod_upper_bound i 8 ltac:(lia)). assert (i / 40 < 5)%nat as Hq by (apply Nat.Div0.div_lt_upper_bound; lia). rewrite <- Ha by (apply mod_5 || lia).
  rewrite bval_byte_of. change 256 with (2 ^ 8). rewrite Z.mod_pow2_bits_low, Z.shiftr_spec by lia. unfold bits. f_equal; [|lia]. f_equal. replace (i / 40)%nat with (i / 8 / 5)%nat by (by rewrite Nat.Div0.div_div). pose proof (Nat.div_mod_eq (i / 8) 5). lia.
Qed.
(** ** The sponge *)

Lemma xorin_take dst src n : xorin dst (take n src) n = xorin dst src n.
Proof.
  revert dst src. induction n as [|n IH]; intros [|d dst] [|s src]; cbn; try done. by rewrite IH.
Qed.

Lemma lookup_xorin dst src n i :
  xorin dst src n !! i =
  match dst !! i with
  | None => None
  | Some d => Some (if decide (i < n)%nat then byte_of (Z.lxor (bval d) (bval (nth i src Byte.x00))) else d)
  end.
Proof.
  assert (forall d, byte_of (Z.lxor (bval d) 0) = d) as H0 by (intros d; by rewrite Z.lxor_0_r, byte_of_bval).
  revert dst src i. induction n as [|n IH]; intros dst src i.
  - cbn [xorin]. destruct (dst !! i); [|done]. by rewrite decide_False by lia.
  - destruct dst as [|d dst]; [done|]. destruct src as [|s src]; cbn [xorin].
    + destruct ((d :: dst) !! i) as [x|]; [|done]. f_equal. case_decide; [|done].
      destruct i; cbn; by rewrite H0.
    + destruct i as [|i]; cbn [lookup list_lookup nth]; [done|]. rewrite IH.
      destruct (dst !! i); [|done]. f_equal. by repeat case_decide; try lia.
Qed.

Lemma length_xorin dst src n : length (xorin dst src n) = length dst.
Proof.
  revert dst src. induction n as [|n IH]; intros [|d dst] [|s src]; cbn; try done. by rewrite IH.
Qed.

Lemma lxor_u8 x y : is_u8 x -> is_u8 y -> is_u8 (Z.lxor x y).
Proof.
  unfold is_u8. intros Hx Hy. assert (0 <= Z.lxor x y) by (apply Z.lxor_nonneg; lia).
  split; [done|]. destruct (Z.eq_dec (Z.lxor x y) 0); [lia|].
  assert (forall z, 0 <= z < 256 -> Z.log2 z < 8) as Hlog.
  { intros z Hz. destruct (Z.eq_dec z 0) as [->|]; [done|]. apply Z.log2_lt_pow2; lia. }
  change (2 ^ 8) with 256 in *. apply (Z.log2_lt_pow2 _ 8); [lia|].
  pose proof (Z.log2_lxor x y ltac:(lia) ltac:(lia)). pose proof (Hlog x Hx). pose proof (Hlog y Hy). lia.
Qed.

Lemma bval_u8 b : is_u8 (bval b).
Proof. apply bval_range. Qed.

Lemma bval_xor x y : is_u8 x -> is_u8 y -> bval (byte_of (Z.lxor x y)) = Z.lxor x y.
Proof. intros Hx Hy. apply bval_byte_of_small. pose proof (lxor_u8 x y Hx Hy) as H. unfold is_u8 in H. lia. Qed.

Lemma nth_repeat_zero n i : nth i (replicate n Byte.x00) Byte.x00 = Byte.x00.
Proof. revert i. induction n as [|n IH]; intros [|i]; cbn; auto. Qed.

(** The byte of the last block at position [i], when [n] message bytes remain. *)
Lemma pad_nth rate delim n i :
  (n < rate)%nat -> (n <= i < rate)%nat ->
  nth (i - n) (pad rate delim n) Byte.x00 =
  if decide (n = rate - 1)%nat then byte_of (Z.lxor delim 0x80)
  else if decide (i = n) then byte_of delim else if decide (i = rate - 1)%nat then Byte.x80 else Byte.x00.
Proof.
  intros Hn Hi. unfold pad. destruct (decide (n = rate - 1)%nat) as [->|Hne].
  - replace (rate - (rate - 1))%nat with 1%nat by lia. by replace (i - (rate - 1))%nat with 0%nat by lia.
  - destruct (rate - n)%nat as [|[|q]] eqn:E; [lia|lia|].
    destruct (decide (i = n)) as [->|Hin]; [by rewrite Nat.sub_diag|].
    destruct (i - n)%nat as [|j] eqn:Ej; [lia|]. replace (S (S q) - 2)%nat with q by lia. cbn [nth].
    destruct (decide (i = rate - 1)%nat).
    + rewrite app_nth2 by (rewrite length_replicate; lia). rewrite length_replicate. by replace (j - q)%nat with 0%nat by lia.
    + rewrite app_nth1 by (rewrite length_replicate; lia). by rewrite nth_repeat_zero.
Qed.

Lemma pad_length rate delim n : (n < rate)%nat -> length (pad rate delim n) = (rate - n)%nat.
Proof. intros Hn. unfold pad. destruct (rate - n)%nat as [|[|q]] eqn:E; [lia|done|]. cbn [length]. rewrite length_app, length_replicate. cbn. lia. Qed.

Lemma lookup_xor_at a j v i :
  (j < length a)%nat ->
  xor_at a j v !! i = if decide (i = j) then Some (byte_of (Z.lxor (bval (nth j a Byte.x00)) v)) else a !! i.
Proof.
  intros Hj. unfold xor_at. destruct (decide (i = j)) as [->|]; [by rewrite list_lookup_insert_eq|].
  by rewrite list_lookup_insert_ne.
Qed.

Lemma nth_lookup_byte (a : bytes) i d : a !! i = Some d -> nth i a Byte.x00 = d.
Proof. apply nth_lookup_Some. Qed.

(** Xoring the domain byte and the final bit into the state, then the rest of
    the message, is absorbing the padded block. *)
Lemma last_block (a rest : bytes) rate delim :
  length a = Plen -> (length rest < rate)%nat -> (rate < Plen)%nat -> is_u8 delim ->
  xorin (xor_at (xor_at a (length rest) delim) (rate - 1) 0x80) rest (length rest) =
  xorin a (rest ++ pad rate delim (length rest)) rate.
Proof.
  intros Ha Hr HP Hd. set (n := length rest) in *.
  assert (length (xor_at a n delim) = Plen) as Hl1 by (unfold xor_at; by rewrite length_insert).
  apply list_eq. intros i. rewrite !lookup_xorin, !lookup_xor_at by lia.
  destruct (a !! i) as [d|] eqn:Ei.
  2: { apply lookup_ge_None in Ei. rewrite !decide_False by lia. done. }
  pose proof (bval_u8 d) as Hdu. assert (is_u8 0x80) as H80 by (unfold is_u8; lia).
  assert (byte_of (Z.lxor (bval d) (bval Byte.x00)) = d) as Hd0
    by (change (bval Byte.x00) with 0; by rewrite Z.lxor_0_r, byte_of_bval).
  assert (bval (byte_of delim) = delim) as Hdel by (apply bval_byte_of_small; unfold is_u8 in Hd; lia).
  pose proof (nth_lookup_byte a i d Ei) as Hn.
  destruct (decide (i < n)%nat) as [Hin|Hin].
  { rewrite !(decide_False (P := i = _)) by lia. rewrite (decide_True (P := (i < rate)%nat)) by lia.
    by rewrite app_nth1 by lia. }
  destruct (decide (i < rate)%nat) as [Hir|Hir].
  2: { by rewrite !decide_False by lia. }
  rewrite app_nth2 by lia. fold n. rewrite pad_nth by lia.
  destruct (decide (n = rate - 1)%nat) as [Hnr|Hnr].
  - assert (i = n) as -> by lia. rewrite !(decide_True (P := n = _)) by lia. f_equal. f_equal.
    rewrite <- Hnr. erewrite (nth_lookup_byte (xor_at a n delim) n).
    2: { rewrite lookup_xor_at, decide_True by lia. done. }
    rewrite Hn, !bval_xor by done. apply Z.lxor_assoc.
  - destruct (decide (i = n)) as [->|Hne].
    + rewrite !(decide_False (P := n = (rate - 1)%nat)) by lia. by rewrite Hn, Hdel.
    + destruct (decide (i = (rate - 1)%nat)) as [->|]; [|by rewrite Hd0].
      f_equal. erewrite (nth_lookup_byte (xor_at a n delim) (rate - 1)).
      2: { rewrite lookup_xor_at, decide_False by lia. exact Ei. }
      done.
Qed.

(** The blocks as the code adds them to the state. *)
Fixpoint absorb_x (n rate : nat) (a m : bytes) : bytes :=
  match n with
  | O => a
  | S k => absorb_x k rate (keccakf (xorin a (take rate m) rate)) (drop rate m)
  end.
Lemma xorin_block a m rate : length a = 200%nat -> (rate <= length m)%nat -> (rate <= 200)%nat -> xorin a m rate = xor_bytes a (take rate m ++ replicate (200 - rate) Byte.x00).
Proof.
  intros Ha Hm Hr. apply list_eq. intros i. rewrite lookup_xorin. unfold xor_bytes. rewrite lookup_zip_with. destruct (a !! i) as [d|] eqn:Ei; [|done]. apply lookup_lt_Some in Ei. destruct (decide (i < rate)%nat) as [Hi|Hi].
  - rewrite lookup_app_l, lookup_take_lt by (rewrite ?length_take; lia). destruct (lookup_lt_is_Some_2 m i ltac:(lia)) as [x Hx]. rewrite Hx. cbn. by rewrite (nth_lookup_byte m i x Hx).
  - rewrite lookup_app_r by (rewrite length_take; lia). rewrite lookup_replicate_2 by (rewrite length_take; lia). cbn. change (bval Byte.x00) with 0. by rewrite Z.lxor_0_r, byte_of_bval.
Qed.
Lemma absorb_absorb_x n rate a m : length a = 200%nat -> (rate <= 200)%nat -> (n * rate <= length m)%nat -> absorb n rate a m = absorb_x n rate a m.
Proof.
  intros Ha Hr. revert a m Ha. induction n as [|n IH]; intros a m Ha Hm; [done|]. cbn [absorb absorb_x]. rewrite xorin_take, xorin_block, keccakf_is_keccak by lia. apply IH; [rewrite <- keccakf_is_keccak; apply keccakf_length|rewrite length_drop; lia].
Qed.

(** The output loop cuts from the states that follow each other. *)
Lemma squeeze_loop_spec fuel rate a n : (0 < rate <= 200)%nat -> (n <= fuel)%nat -> length a = 200%nat -> squeeze_loop fuel rate a n = squeeze n rate a.
Proof.
  intros Hr. unfold squeeze. revert a n. induction fuel as [|fuel IH]; intros a n Hn Ha; cbn [squeeze_loop]; [by replace n with 0%nat by lia|]. destruct (Nat.leb_spec rate n) as [Hle|Hlt].
  - rewrite IH by (lia || apply keccakf_length). assert (n / rate = (n - rate) / rate + 1)%nat as Hq by (rewrite <- Nat.div_add by lia; f_equal; lia). rewrite Hq. rewrite (Nat.add_1_r (_ + 1)). cbn [seq map concat]. change (Nat.iter 0 keccak a) with a. rewrite take_app, length_take, take_take.
    replace (n `min` rate)%nat with rate by lia. replace (rate `min` length a)%nat with rate by lia. do 3 f_equal. rewrite <- seq_shift, map_map. apply map_ext. intros i. by rewrite Nat.iter_succ_r, keccakf_is_keccak.
  - rewrite Nat.div_small by done. cbn. by rewrite app_nil_r, take_take, Nat.min_l by lia.
Qed.

Lemma absorb_loop_spec rate fuel a input :
  (0 < rate)%nat -> (length input <= fuel)%nat -> length a = Plen ->
  exists a' rest, absorb_loop fuel rate a input = (a', rest) /\ length a' = Plen /\
    length rest = (length input mod rate)%nat /\
    forall p, absorb_x (length input / rate + 1) rate a (input ++ p) = absorb_x 1 rate a' (rest ++ p).
Proof.
  intros Hr. revert a input. induction fuel as [|fuel IH]; intros a input Hf Ha.
  - destruct input; [|cbn in Hf; lia]. exists a, []. cbn [length absorb_loop].
    rewrite Nat.Div0.mod_0_l, Nat.Div0.div_0_l. done.
  - cbn [absorb_loop]. destruct (Nat.leb_spec rate (length input)) as [Hle|Hlt].
    + destruct (IH (keccakf (xorin a input rate)) (drop rate input)) as (a' & rest & -> & Ha' & Hrest & Habs).
      { rewrite length_drop. lia. } { apply keccakf_length. }
      exists a', rest. split; [done|]. split; [done|]. rewrite length_drop in *.
      assert (length input = (length input - rate + 1 * rate)%nat) as Hl by lia.
      split; [rewrite Hl, Nat.Div0.mod_add; exact Hrest|]. intros p. rewrite <- Habs.
      rewrite Hl at 1. rewrite Nat.div_add by lia. rewrite (Nat.add_1_r (_ + 1)). cbn [absorb_x].
      rewrite take_app_le, drop_app_le, xorin_take by lia. done.
    + exists a, input. rewrite Nat.mod_small, Nat.div_small by done. done.
Qed.

(** ** Properties *)

(** C27. The unrolled in-place [keccakf] computes Keccak-f[1600] of FIPS 202,
    bit by bit: after it, bit [z] of word [5y + x] is bit [(x, y, z)] of the
    state array to which the step mappings theta, rho, pi, chi and iota were
    applied in 24 rounds, with the rotation offsets from the walk over the lanes
    and the round constants from the shift register of the standard. *)
Theorem keccakf_is_keccak_f1600 (a : list Z) (Ha : length a = 25%nat) (Hu : Forall is_u64 a) (x y : nat) (z : Z) (Hx : (x < 5)%nat) (Hy : (y < 5)%nat) (Hz : 0 <= z < 64) :
  Z.testbit (word (keccakf_words a) (5 * y + x)) z = keccak_f1600 (fun x y z => Z.testbit (word a (5 * y + x)) z) x y z.
Proof. exact (proj1 (permutation_bits a Ha Hu) x y z Hx Hy Hz). Qed.

Lemma keccakf_is_keccak_f1600_witness : Z.testbit (word (keccakf_words (replicate 25 1)) (5 * 2 + 3)) 17 = keccak_f1600 (fun x y z => Z.testbit (word (replicate 25 1) (5 * y + x)) z) 3%nat 2%nat 17.
Proof. apply keccakf_is_keccak_f1600; [reflexivity|repeat (constructor; [split; [discriminate|reflexivity]|]); constructor|lia|lia|lia]. Defined.

(** C26. [hash] is the sponge of FIPS 202 on the padded message: for every rate
    below the state size it returns the output cut from the states that follow
    the absorption of the message and the padding, where the permutation is that
    of the standard on strings of 200 bytes. *)
Theorem hash_is_sponge (outlen : nat) (input : bytes) (rate : nat) (delim : Z)
    (Hrate : (0 < rate < Plen)%nat) (Hd : is_u8 delim) :
  hash outlen input rate delim = Some (sponge outlen input rate delim).
Proof.
  unfold hash. rewrite (proj2 (Nat.leb_gt Plen rate)) by lia.
  destruct (absorb_loop_spec rate (length input) (replicate Plen Byte.x00) input) as (a & rest & -> & Ha & Hrest & Habs);
    [lia|done|apply length_replicate|].
  assert (length rest < rate)%nat by (rewrite Hrest; apply Nat.mod_upper_bound; lia). change Plen with 200%nat in Hrate.
  rewrite squeeze_loop_spec by (lia || apply keccakf_length). unfold sponge. rewrite absorb_absorb_x; [|apply length_replicate|lia|rewrite length_app, pad_length by (apply Nat.mod_upper_bound; lia); pose proof (Nat.div_mod_eq (length input) rate); pose proof (Nat.mod_upper_bound (length input) rate); nia].
  rewrite <- Hrest. change 200%nat with Plen. rewrite Habs. cbn [absorb_x]. rewrite xorin_take, last_block by (done || lia || (unfold Plen; lia)). done.
Qed.

Lemma hash_is_sponge_witness : hash 32 [Byte.x61] 136 1 = Some (sponge 32 [Byte.x61] 136 1).
Proof. apply hash_is_sponge; [split; apply Nat.ltb_lt; reflexivity|split; [discriminate|reflexivity]]. Defined.

(** Known answers: Keccak-256 of the empty string and of "abc". *)
Example sha3_256_empty :
  sha3_256 [] = map byte_of
    [0xc5; 0xd2; 0x46; 0x01; 0x86; 0xf7; 0x23; 0x3c; 0x92; 0x7e; 0x7d; 0xb2; 0xdc; 0xc7; 0x03; 0xc0;
     0xe5; 0x00; 0xb6; 0x53; 0xca; 0x82; 0x27; 0x3b; 0x7b; 0xfa; 0xd8; 0x04; 0x5d; 0x85; 0xa4; 0x70].
Proof. vm_compute. reflexivity. Qed.

Example sha3_256_abc :
  sha3_256 [Byte.x61; Byte.x62; Byte.x63] = map byte_of
    [0x4e; 0x03; 0x65; 0x7a; 0xea; 0x45; 0xa9; 0x4f; 0xc7; 0xd4; 0x7b; 0xa8; 0x26; 0xc8; 0xd6; 0x67;
     0xc0; 0xd1; 0xe6; 0xe3; 0x3a; 0x64; 0xa0; 0x36; 0xec; 0x44; 0xf5; 0x8f; 0xa1; 0x2d; 0x6c; 0x45].
Proof. vm_compute. reflexivity. Qed.
