(* ===== verification/Codec.v ===== *)
(** * Shared parts of the object codecs

    Every object of core/ has a [streamRLP] that announces a list and writes
    its fields with [<<], and a constructor from bytes that checks the number
    of items and reads them back. This file holds what they share: the chain
    of [<<], the iteration order of [std::map], the loops over nested lists,
    and the lemmas that turn a codec into the reference encoding of its list
    of fields. *)

From S2P Require Import Prelude CommonData RLP RLPFacts FixedHash.
Import VectorRef BigEndian Spec Decoder Stream.

(** [stream << a << b << c]. *)
Fixpoint chain (ws : list (RLPStream -> result RLPStream)) (st : RLPStream) : result RLPStream :=
  match ws with
  | [] => Ok st
  | w :: ws' => w st ≫= chain ws'
  end.

(** [RLPStream s; f(s); return s.out();]. *)
Definition run (f : RLPStream -> result RLPStream) : result bytes := f Stream.empty ≫= out.

Lemma run_ext f g : f Stream.empty = g Stream.empty -> run f = run g.
Proof. unfold run. by intros ->. Qed.

(** ** [std::map] keyed by hashes *)

Section Entries.
Context {N : nat} {A : Type}.

Definition entry_le (p q : vec byte N * A) : Prop := hash_le (fst p) (fst q).

#[export] Instance entry_le_dec : RelDecision entry_le.
Proof. intros p q. unfold entry_le. apply _. Defined.

#[export] Instance entry_le_total : Total entry_le.
Proof. intros p q. unfold entry_le. apply total, _. Qed.

#[export] Instance entry_le_trans : Transitive entry_le.
Proof. intros p q r. unfold entry_le. apply transitivity. Qed.

(** [for (auto i : m)] visits the keys in the order of [operator<]. *)
Definition map_entries (m : gmap (vec byte N) A) : list (vec byte N * A) :=
  merge_sort entry_le (map_to_list m).

(** [m[k] = v;] for each entry in turn. *)
Definition insert_entries (m : gmap (vec byte N) A) (l : list (vec byte N * A)) : gmap (vec byte N) A :=
  fold_left (fun m kv => <[fst kv := snd kv]> m) l m.

Lemma map_entries_perm m : map_entries m ≡ₚ map_to_list m.
Proof. apply merge_sort_Permutation. Qed.

Lemma map_entries_sorted m : StronglySorted entry_le (map_entries m).
Proof. apply StronglySorted_merge_sort; apply _. Qed.

Lemma map_entries_lookup m k v : (k, v) ∈ map_entries m <-> m !! k = Some v.
Proof. by rewrite map_entries_perm, elem_of_map_to_list. Qed.

Lemma length_map_entries m : Datatypes.length (map_entries m) = size m.
Proof. rewrite map_entries_perm. apply length_map_to_list. Qed.

Lemma insert_entries_lookup l m k :
  insert_entries m l !! k = match list_to_map (M := gmap (vec byte N) A) (rev l) !! k with Some v => Some v | None => m !! k end.
Proof.
  revert m. induction l as [|[k' v'] l IH] using rev_ind; intros m; [done|].
  unfold insert_entries in *. rewrite fold_left_app, rev_app_distr. cbn [fold_left rev app list_to_map foldr].
  cbn [fst snd uncurry]. destruct (decide (k = k')) as [->|Hne].
  - by rewrite !lookup_insert_eq.
  - rewrite !lookup_insert_ne by done. apply IH.
Qed.

Lemma insert_map_entries_over m m0 k :
  insert_entries m0 (map_entries m) !! k = match m !! k with Some v => Some v | None => m0 !! k end.
Proof.
  rewrite insert_entries_lookup.
  assert (list_to_map (M := gmap (vec byte N) A) (rev (map_entries m)) = m) as ->; [|done].
  rewrite <- (list_to_map_to_list m) at 2. apply list_to_map_proper.
  - rewrite <- Permutation_rev, map_entries_perm. apply NoDup_fst_map_to_list.
  - by rewrite <- Permutation_rev, map_entries_perm.
Qed.

Lemma insert_map_entries m : insert_entries ∅ (map_entries m) = m.
Proof. apply map_eq. intros k. rewrite insert_map_entries_over, lookup_empty. by destruct (m !! k). Qed.
End Entries.

(** ** The loops that read nested lists *)

(** [for (unsigned i = i0; i < rlp.itemCount(); i++) v.push_back(f(rlp[i]));].
    The fuel is the number of items. *)
Fixpoint read_from {A} (f : bytes -> result A) (fuel : nat) (d : bytes) (i count : Z) : result (list A) :=
  match fuel with
  | O => Ok []
  | S n =>
      if i <? count then
        it ← nth_item d i; x ← f it; xs ← read_from f n d (i + 1) count; Ok (x :: xs)
      else Ok []
  end.

(** [for (i = 0; i < rlp.itemCount(); ) { k = rlp[i++].toHash<Address>(VeryStrict);
    v = f(rlp[i++]); m[k] = v; }]. *)
Fixpoint read_pairs (f : bytes -> result Z) (fuel : nat) (d : bytes) (i count : Z) (m : gmap h160 Z)
    : result (gmap h160 Z) :=
  match fuel with
  | O => Ok m
  | S n =>
      if i <? count then
        it ← nth_item d i; k ← toHash 20 it VeryStrict;
        it2 ← nth_item d (i + 1); v ← f it2;
        read_pairs f n d (i + 2) count (<[k := v]> m)
      else Ok m
  end.

(** [RLP r(d); if (r.isList() && r.itemCount() > 0) loop]. *)
Definition if_list {A} (d : bytes) (default : A) (loop : Z -> result A) : result A :=
  _ ← make d VeryStrict;
  if isList d then
    n ← itemCount d;
    if 0 <? n then loop n else Ok default
  else Ok default.

(** ** From codecs to reference encodings *)

Section Emits.

Definition writes_item (w : RLPStream -> result RLPStream) (e : bytes) : Prop :=
  forall st, w st = emit e st.

Lemma chain_emits ws es : Forall2 writes_item ws es -> forall st, chain ws st = emits es st.
Proof.
  induction 1 as [|w e ws es Hw _ IH]; intros st; [done|]. cbn [chain emits]. rewrite Hw.
  destruct (emit e st); [apply IH|done].
Qed.

Lemma writes_int v : 0 <= v < 2 ^ 256 -> writes_item (appendInt v) (enc_int v).
Proof. intros Hv st. by apply appendInt_emit. Qed.

Lemma writes_hash N (h : vec byte N) : (N <= 1000)%nat -> writes_item (appendHash h) (enc_str (vec_to_list h)).
Proof. intros HN st. by apply appendHash_emit. Qed.

Lemma writes_bytes b : fits b -> writes_item (Stream.append b false) (enc_str b).
Proof. intros Hb st. by apply append_emit. Qed.

Lemma writes_raw e : writes_item (appendRaw e 1) e.
Proof. intros st. apply appendRaw_emit. Qed.

(** One item on an empty stream. *)
Lemma run_item w e : writes_item w e -> run w = Ok e.
Proof. intros Hw. unfold run. by rewrite Hw. Qed.

(** A [streamRLP] of [n] fields on an empty stream. *)
Lemma run_list n ws es :
  n = Z.of_nat (Datatypes.length es) -> fits (concat es) -> Forall2 writes_item ws es ->
  run (fun st => appendList n st ≫= chain ws) = Ok (enc_list es).
Proof.
  intros -> Hf Hws. unfold run.
  assert ((appendList (Z.of_nat (Datatypes.length es)) Stream.empty ≫= chain ws) =
          (appendList (Z.of_nat (Datatypes.length es)) Stream.empty ≫= emits es)) as ->.
  { destruct (appendList _ _) as [st|]; [|done]. by apply chain_emits. }
  by apply out_list.
Qed.

Lemma nth_item_enc es i e :
  0 <= i < 2 ^ 64 - 1 -> Forall wf_item es -> fits (concat es) -> es !! Z.to_nat i = Some e ->
  nth_item (enc_list es) i = Ok e.
Proof.
  intros Hi Hwf Hf Hl. rewrite <- (Z2Nat.id i) by lia. apply nth_item_list; try done. lia.
Qed.

Lemma isList_enc es : fits (concat es) -> isList (enc_list es) = true.
Proof. intros Hf. destruct (list_view es [] Hf) as (_ & Hl & _). by rewrite app_nil_r in Hl. Qed.

Lemma make_enc_list es s : fits (concat es) -> make (enc_list es) s = Ok (fresh (enc_list es)).
Proof. intros Hf. by apply make_item, wf_enc_list. Qed.

(** The loop reads the items one after the other and stops at the first that
    cannot be read. *)
Lemma read_from_map {A} (f : bytes -> result A) (enc : A -> bytes) es1 xs fuel :
  Forall wf_item (es1 ++ map enc xs) -> fits (concat (es1 ++ map enc xs)) ->
  Z.of_nat (Datatypes.length (es1 ++ map enc xs)) < 2 ^ 64 - 1 -> (Datatypes.length xs <= fuel)%nat ->
  read_from f fuel (enc_list (es1 ++ map enc xs)) (zlen es1) (zlen (es1 ++ map enc xs)) = result_map (fun x => f (enc x)) xs.
Proof.
  revert es1 fuel. induction xs as [|x xs IH]; intros es1 fuel Hwf Hf Hlen Hfuel.
  - destruct fuel; [done|]. cbn [read_from]. rewrite app_nil_r, Z.ltb_irrefl. done.
  - destruct fuel as [|fuel]; [cbn in Hfuel; lia|]. cbn [read_from map].
    pose proof (zlen_nonneg es1). rewrite (proj2 (Z.ltb_lt _ _)) by (rewrite zlen_app, zlen_cons; pose proof (zlen_nonneg (map enc xs)); lia).
    cbn [map] in *. rewrite length_app in Hlen. cbn [Datatypes.length] in Hlen.
    rewrite (nth_item_enc _ _ (enc x)); [|unfold zlen; lia|done|done|].
    2: { rewrite to_nat_zlen. rewrite lookup_app_r, Nat.sub_diag by lia. done. }
    cbn [mbind result_bind result_map]. destruct (f (enc x)); [|done]. cbn [mbind result_bind].
    specialize (IH (es1 ++ [enc x]) fuel). rewrite <- !app_assoc in IH. cbn [app] in IH.
    rewrite zlen_app in IH at 1. change (zlen [enc x]) with 1 in IH.
    rewrite IH; [done|done|done|rewrite length_app; cbn [Datatypes.length]; lia|cbn in Hfuel; lia].
Qed.

Lemma read_from_ok {A} (f : bytes -> result A) (enc : A -> bytes) es1 xs fuel :
  Forall wf_item (es1 ++ map enc xs) -> fits (concat (es1 ++ map enc xs)) ->
  (forall x, x ∈ xs -> f (enc x) = Ok x) ->
  Z.of_nat (Datatypes.length (es1 ++ map enc xs)) < 2 ^ 64 - 1 -> (Datatypes.length xs <= fuel)%nat ->
  read_from f fuel (enc_list (es1 ++ map enc xs)) (zlen es1) (zlen (es1 ++ map enc xs)) = Ok xs.
Proof. intros Hwf Hf Hx Hlen Hfuel. rewrite read_from_map by done. rewrite (result_map_ok _ (fun x => x)) by done. by rewrite map_id. Qed.

Definition enc_pair (kv : h160 * Z) : list bytes := [enc_str (vec_to_list (fst kv)); enc_int (snd kv)].

Lemma length_enc_pairs l : Datatypes.length (concat (map enc_pair l)) = (2 * Datatypes.length l)%nat.
Proof. induction l as [|x l IH]; [done|]. cbn [map concat enc_pair app Datatypes.length]. rewrite IH. lia. Qed.

Lemma read_pairs_ok (f : bytes -> result Z) es1 l m fuel :
  let es := es1 ++ concat (map enc_pair l) in
  Forall wf_item es -> fits (concat es) -> (forall k v, (k, v) ∈ l -> f (enc_int v) = Ok v) ->
  Z.of_nat (Datatypes.length es) < 2 ^ 64 - 1 -> (Datatypes.length l <= fuel)%nat ->
  read_pairs f fuel (enc_list es) (zlen es1) (zlen es) m = Ok (insert_entries m l).
Proof.
  revert es1 m fuel. induction l as [|[k v] l IH]; intros es1 m fuel es Hwf Hf Hl Hlen Hfuel.
  - subst es. cbn [map concat] in *. rewrite app_nil_r in *. destruct fuel; [done|]. cbn [read_pairs].
    by rewrite Z.ltb_irrefl.
  - destruct fuel as [|fuel]; [cbn in Hfuel; lia|]. cbn [read_pairs].
    assert (es = es1 ++ [enc_str (vec_to_list k); enc_int v] ++ concat (map enc_pair l)) as Hes by done.
    clearbody es.
    assert (zlen es = zlen es1 + 2 + zlen (concat (map enc_pair l))) as Hz.
    { rewrite Hes, !zlen_app. change (zlen [enc_str (vec_to_list k); enc_int v]) with 2. lia. }
    pose proof (zlen_nonneg es1). pose proof (zlen_nonneg (concat (map enc_pair l))).
    rewrite (proj2 (Z.ltb_lt _ _)) by lia. change (Z.of_nat (Datatypes.length es)) with (zlen es) in Hlen.
    rewrite (nth_item_enc es (zlen es1) (enc_str (vec_to_list k))); [|lia|done|done|].
    2: { rewrite Hes, to_nat_zlen, lookup_app_r, Nat.sub_diag by lia. done. }
    cbn [mbind result_bind]. rewrite toHash_str by lia. cbn [mbind result_bind].
    rewrite (nth_item_enc es (zlen es1 + 1) (enc_int v)); [|lia|done|done|].
    2: { rewrite Hes. replace (Z.to_nat (zlen es1 + 1)) with (Datatypes.length es1 + 1)%nat by (unfold zlen; lia).
         rewrite lookup_app_r by lia. by replace (Datatypes.length es1 + 1 - Datatypes.length es1)%nat with 1%nat by lia. }
    cbn [mbind result_bind]. rewrite (Hl k v) by set_solver. cbn [mbind result_bind].
    specialize (IH (es1 ++ [enc_str (vec_to_list k); enc_int v]) (<[k := v]> m) fuel).
    cbv zeta in IH. rewrite <- app_assoc, <- Hes in IH. rewrite (zlen_app es1) in IH.
    change (zlen [enc_str (vec_to_list k); enc_int v]) with 2 in IH.
    rewrite IH; [done|done|done|set_solver|done|cbn in Hfuel; lia].
Qed.

End Emits.

(** ** Injectivity: equal encodings come from equal values *)

Section Injective.

Lemma enc_list_inj es fs :
  Forall wf_item es -> Forall wf_item fs -> fits (concat es) -> fits (concat fs) ->
  Z.of_nat (Datatypes.length es) < 2 ^ 63 -> enc_list es = enc_list fs -> es = fs.
Proof.
  intros Hwe Hwf Hfe Hff Hl Heq.
  assert (Datatypes.length es = Datatypes.length fs) as Hlen.
  { pose proof (itemCount_list es Hwe Hfe) as H1. rewrite Heq, itemCount_list in H1 by done. injection H1. lia. }
  apply list_eq_same_length with (n := Datatypes.length es); [done|done|].
  intros i x y Hi Hx Hy.
  pose proof (nth_item_list es i x Hwe Hfe Hx ltac:(lia)) as H1. rewrite Heq in H1.
  rewrite (nth_item_list fs i y) in H1 by (done || lia). by injection H1.
Qed.

Lemma enc_str_inj a b : fits a -> fits b -> enc_str a = enc_str b -> a = b.
Proof.
  intros Ha Hb Heq. pose proof (toBytes_str a Strict Ha) as H. rewrite Heq, toBytes_str in H by done. by injection H.
Qed.

Lemma enc_int_inj v w : 0 <= v < 2 ^ 256 -> 0 <= w < 2 ^ 256 -> enc_int v = enc_int w -> v = w.
Proof.
  intros Hv Hw Heq. pose proof (toInt_u256_int v Hv) as H. rewrite Heq, toInt_u256_int in H by done. by injection H.
Qed.

Lemma enc_hash_inj N (a b : vec byte N) :
  (N <= 1000)%nat -> enc_str (vec_to_list a) = enc_str (vec_to_list b) -> a = b.
Proof.
  intros HN Heq. apply vec_to_list_inj2, enc_str_inj; [unfold fits; rewrite zlen_vec; lia..|done].
Qed.

End Injective.

(** ** Nested lists of hashes and of (address, integer) pairs *)

Section Nested.

Definition enc_hash {N} (h : vec byte N) : bytes := enc_str (vec_to_list h).

Lemma zlen_concat_le {A} (l : list (list A)) K : Forall (fun x => zlen x <= K) l -> zlen (concat l) <= K * zlen l.
Proof.
  induction 1 as [|x l Hx _ IH]; [by rewrite Z.mul_0_r|]. cbn [concat]. rewrite zlen_app, zlen_cons. nia.
Qed.

Lemma chain_app ws1 ws2 st : chain (ws1 ++ ws2) st = (chain ws1 st ≫= chain ws2).
Proof.
  revert st. induction ws1 as [|w ws1 IH]; intros st; [done|]. cbn [chain app].
  destruct (w st); [apply IH|done].
Qed.

Lemma zlen_hashes_le {N} (l : list (vec byte N)) :
  (N <= 1000)%nat -> zlen (concat (map enc_hash l)) <= 1009 * zlen l.
Proof.
  intros HN. replace (zlen l) with (zlen (map enc_hash l)) by (unfold zlen; by rewrite length_map).
  apply zlen_concat_le, Forall_fmap, Forall_forall. intros h _. cbn. unfold enc_hash.
  pose proof (zlen_enc_hash N h HN). lia.
Qed.

Lemma zlen_enc_list_le es : zlen (concat es) <= 2 ^ 59 -> zlen (enc_list es) <= 2 ^ 60.
Proof.
  intros H. unfold enc_list. rewrite zlen_app. pose proof (zlen_header 192 (zlen (concat es))).
  pose proof (zlen_nonneg (concat es)). lia.
Qed.

Lemma fits_hashes {N} (l : list (vec byte N)) :
  (N <= 1000)%nat -> zlen l < 2 ^ 40 -> fits (concat (map enc_hash l)).
Proof.
  intros HN Hl. unfold fits. pose proof (zlen_hashes_le l HN). lia.
Qed.

Lemma wf_hashes {N} (l : list (vec byte N)) : (N <= 1000)%nat -> Forall wf_item (map enc_hash l).
Proof. intros HN. apply Forall_fmap, Forall_forall. intros h _. by apply wf_enc_hash. Qed.

Lemma run_hashes {N} (l : list (vec byte N)) n :
  n = zlen l -> (N <= 1000)%nat -> zlen l < 2 ^ 40 ->
  run (fun s => appendList n s ≫= chain (map appendHash l)) = Ok (enc_list (map enc_hash l)).
Proof.
  intros -> HN Hl. apply run_list; [by rewrite length_map|by apply fits_hashes|].
  clear Hl. induction l; constructor; [by apply writes_hash|done].
Qed.

Definition u256_entries (l : list (h160 * Z)) : Prop := Forall (fun kv => 0 <= snd kv < 2 ^ 256) l.

Lemma wf_pairs l : u256_entries l -> Forall wf_item (concat (map enc_pair l)).
Proof.
  induction 1 as [|[k v] l Hv _ IH]; [done|]. cbn [map concat enc_pair app fst snd] in *.
  repeat apply Forall_cons_2; [apply wf_enc_hash; lia|by apply wf_enc_int|done].
Qed.

Lemma zlen_pairs_le l : u256_entries l -> zlen (concat (concat (map enc_pair l))) <= 70 * zlen l.
Proof.
  induction 1 as [|[k v] l Hv _ IH]; [done|]. cbn [map concat enc_pair app fst snd] in *.
  rewrite !zlen_app, zlen_cons. pose proof (zlen_enc_hash 20 k). pose proof (zlen_enc_int v Hv). lia.
Qed.

Lemma fits_pairs l : u256_entries l -> zlen l < 2 ^ 40 -> fits (concat (concat (map enc_pair l))).
Proof. intros Hv Hl. unfold fits. pose proof (zlen_pairs_le l Hv). lia. Qed.

Lemma run_pairs l n :
  n = 2 * zlen l -> u256_entries l -> zlen l < 2 ^ 40 ->
  run (fun s => appendList n s ≫= chain (concat (map (fun i => [appendHash (fst i); appendInt (snd i)]) l))) =
  Ok (enc_list (concat (map enc_pair l))).
Proof.
  intros -> Hv Hl. apply run_list; [rewrite length_enc_pairs; unfold zlen; lia|by apply fits_pairs|].
  clear Hl. induction Hv as [|[k v] l Hv _ IH]; [constructor|].
  cbn [map concat enc_pair app fst snd] in *. constructor; [apply writes_hash; lia|].
  constructor; [by apply writes_int|done].
Qed.

Lemma if_list_enc {A} es (d : A) loop :
  Forall wf_item es -> fits (concat es) ->
  if_list (enc_list es) d loop = match es with [] => Ok d | _ => loop (zlen es) end.
Proof.
  intros Hwf Hf. unfold if_list. rewrite make_enc_list, isList_enc, itemCount_list by done.
  cbn [mbind result_bind]. change (Z.of_nat (Datatypes.length es)) with (zlen es).
  destruct es as [|e es]; [done|]. rewrite (proj2 (Z.ltb_lt _ _)); [done|].
  rewrite zlen_cons. pose proof (zlen_nonneg es). lia.
Qed.

Lemma if_list_all {A} (f : bytes -> result A) (enc : A -> bytes) xs :
  Forall wf_item (map enc xs) -> fits (concat (map enc xs)) -> (forall x, x ∈ xs -> f (enc x) = Ok x) ->
  zlen xs < 2 ^ 40 ->
  if_list (enc_list (map enc xs)) [] (fun n => read_from f (Z.to_nat n) (enc_list (map enc xs)) 0 n) = Ok xs.
Proof.
  intros Hwf Hf Hx Hl. rewrite if_list_enc by done. destruct xs as [|x xs]; [done|].
  refine (read_from_ok f enc [] (x :: xs) (Z.to_nat (zlen (map enc (x :: xs)))) Hwf Hf Hx _ _).
  - cbn [app]. rewrite length_map. unfold zlen in Hl. lia.
  - by rewrite to_nat_zlen, length_map.
Qed.

Lemma if_list_hashes {N} (l : list (vec byte N)) :
  (N <= 1000)%nat -> zlen l < 2 ^ 40 ->
  if_list (enc_list (map enc_hash l)) [] (fun n =>
    read_from (fun it => toHash N it VeryStrict) (Z.to_nat n) (enc_list (map enc_hash l)) 0 n) = Ok l.
Proof.
  intros HN Hl. apply if_list_all; [by apply wf_hashes|by apply fits_hashes| |done].
  intros x _. by apply toHash_str.
Qed.

Lemma if_list_pairs (f : bytes -> result Z) l :
  u256_entries l -> zlen l < 2 ^ 40 -> (forall k v, (k, v) ∈ l -> f (enc_int v) = Ok v) ->
  if_list (enc_list (concat (map enc_pair l))) ∅ (fun n =>
    read_pairs f (Z.to_nat n) (enc_list (concat (map enc_pair l))) 0 n ∅) = Ok (insert_entries ∅ l).
Proof.
  intros Hv Hl Hf. rewrite if_list_enc by (by apply wf_pairs || by apply fits_pairs).
  destruct l as [|kv l]; [done|].
  refine (read_pairs_ok f [] (kv :: l) ∅ (Z.to_nat (zlen (concat (map enc_pair (kv :: l))))) _ _ Hf _ _); cbn [app].
  - by apply wf_pairs.
  - by apply fits_pairs.
  - rewrite length_enc_pairs. unfold zlen in Hl. lia.
  - rewrite to_nat_zlen, length_enc_pairs. lia.
Qed.

End Nested.

(** ** Automation *)

Lemma itemCount_enc es n :
  Forall wf_item es -> fits (concat es) -> n = Z.of_nat (Datatypes.length es) -> itemCount (enc_list es) = Ok n.
Proof. intros Hwf Hf ->. by apply itemCount_list. Qed.

(** Bounds of machine integers. *)
Ltac range := unfold is_u8, is_u32, is_u64, is_i64 in *; lia.

Create HintDb codec.
#[export] Hint Extern 1 (wf_item (enc_int _)) => apply wf_enc_int; range : codec.
#[export] Hint Extern 1 (wf_item (enc_str (vec_to_list _))) => apply wf_enc_hash; lia : codec.
#[export] Hint Extern 2 (wf_item (enc_str _)) => apply wf_enc_str; unfold fits in *; lia : codec.
#[export] Hint Extern 2 (wf_item (enc_list _)) => apply wf_enc_list; unfold fits in *; lia : codec.
#[export] Hint Extern 1 (writes_item (appendInt _) _) => apply writes_int; range : codec.
#[export] Hint Extern 1 (writes_item (appendHash _) _) => apply writes_hash; lia : codec.
#[export] Hint Extern 1 (writes_item (Stream.append _ false) _) => apply writes_bytes; unfold fits in *; lia : codec.
#[export] Hint Extern 1 (writes_item (appendRaw _ 1) _) => apply writes_raw : codec.

(** Goals [Forall wf_item [..]] and [Forall2 writes_item [..] [..]]. *)
Ltac solve_fields :=
  repeat first [apply Forall_nil_2 | apply Forall_cons_2 | apply Forall2_nil_2 | apply Forall2_cons_2];
  auto with codec.

(** Bound the encoded fields that occur in the goal. *)
Ltac bound_fields :=
  repeat match goal with
  | |- context [zlen (enc_int ?v)] =>
      let H := fresh in assert (zlen (enc_int v) <= 41) as H by (apply zlen_enc_int; range);
      generalize dependent (zlen (enc_int v)); intros ? H
  | |- context [zlen (enc_str (vec_to_list ?h))] =>
      let H := fresh in pose proof (zlen_enc_hash _ h ltac:(lia)) as H;
      generalize dependent (zlen (enc_str (vec_to_list h))); intros ? H
  | |- context [zlen (enc_str ?b)] =>
      let H := fresh in pose proof (zlen_enc_str b ltac:(unfold fits in *; lia)) as H;
      generalize dependent (zlen (enc_str b)); intros ? H
  end.

(** Goals [fits (concat [..])] for fields of bounded size. *)
Ltac solve_fits :=
  unfold fits in *; cbn [concat]; rewrite ?zlen_app, ?(@zlen_nil byte); bound_fields; lia.

(** One step of a field-by-field read of [enc_list es]. *)
Ltac read_step :=
  first
  [ progress cbn [mbind result_bind m_data fresh rethrow negb orb andb]
  | rewrite make_enc_list by assumption
  | rewrite isList_enc by assumption
  | rewrite (itemCount_enc _ _) by (first [assumption | reflexivity])
  | match goal with |- context [nth_item (enc_list ?es) ?i] =>
      erewrite (nth_item_enc es i) by (first [assumption | reflexivity | lia]) end
  | rewrite toInt_u64_int by range | rewrite toInt_u32_int by range | rewrite toInt_u8_int by range
  | rewrite toInt_i64_int by range | rewrite toInt_i32_int by range | rewrite toPositiveInt64_int by range
  | rewrite toInt_u256_int by range
  | rewrite toHash_str by lia
  | rewrite toBytes_str by (unfold fits in *; lia) ].
Ltac read_fields := repeat read_step.

(** ** Exceptions *)

Lemma read_from_throws {A} P (f : bytes -> result A) fuel d i count :
  (forall e, is_Exception e = true -> P e = true) -> (forall it, throws P (f it)) -> throws P (read_from f fuel d i count).
Proof.
  intros HP Hf. revert i. induction fuel as [|n IH]; intros i; cbn [read_from]; [auto with throws|].
  apply throws_if; [|auto with throws]. apply throws_bind; [eapply throws_weaken; [exact HP|auto with throws]|].
  auto with throws.
Qed.
