(* ===== verification/Transaction.v ===== *)
(** * Transactions: core/Transaction.{h,cpp}

    The fields, the two encodings (with and without the signature), the
    decoding constructor, the hash and the signature. *)

From S2P Require Import Prelude CommonData RLP RLPFacts FixedHash Codec SHA3.
Import Spec Decoder Stream.

Definition TRANSACTION_FIELDS_WITHOUT_SIG : Z := 7.
Definition TRANSACTION_FIELDS_ALL : Z := 8.

(** [enum Type]. *)
Definition VoteType : Z := 0.
Definition TransferType : Z := 1.
Definition BeenProducerType : Z := 2.
Definition CreationType : Z := 0x10.
Definition CallType : Z := 0x11.

(** [m_signature] is kept as the 65 bytes it is written and read as. *)
Record Transaction : Type := mkTransaction {
  m_chainID : Z;
  m_type : Z;
  m_sender : h160;
  m_recipient : h160;
  m_timestamp : Z;
  m_data : bytes;
  m_value : Z;
  m_signature : h520
}.

#[export] Instance Transaction_eq_dec : EqDecision Transaction.
Proof. solve_decision. Defined.

(** [Transaction(bytesConstRef data)]. *)
Definition decode (data : bytes) : result Transaction :=
  _ ← make data VeryStrict;
  rethrow (
    n ← (if isList data then itemCount data else Ok (-1));
    _ ← throw_if (negb (isList data) || negb (n =? TRANSACTION_FIELDS_ALL)) RangeError;
    f0 ← nth_item data 0; chainID ← toInt_u64 f0;
    f1 ← nth_item data 1; type ← toInt_u32 f1;
    f2 ← nth_item data 2; sender ← toHash 20 f2 VeryStrict;
    f3 ← nth_item data 3; recipient ← toHash 20 f3 VeryStrict;
    f4 ← nth_item data 4; timestamp ← toInt_i64 f4;
    f5 ← nth_item data 5; d ← toBytes f5 LaissezFaire;
    f6 ← nth_item data 6; value ← toInt_u64 f6;
    f7 ← nth_item data 7; sig ← toHash 65 f7 VeryStrict;
    Ok (mkTransaction chainID type sender recipient timestamp d value sig)).

Definition streamRLP (tx : Transaction) (st : RLPStream) : result RLPStream :=
  appendList TRANSACTION_FIELDS_ALL st ≫= chain
    [appendInt (m_chainID tx); appendInt (m_type tx); appendHash (m_sender tx);
     appendHash (m_recipient tx); appendInt (m_timestamp tx); Stream.append (m_data tx) false;
     appendInt (m_value tx); appendHash (m_signature tx)].

Definition streamRLPContent (tx : Transaction) (st : RLPStream) : result RLPStream :=
  appendList TRANSACTION_FIELDS_WITHOUT_SIG st ≫= chain
    [appendInt (m_chainID tx); appendInt (m_type tx); appendHash (m_sender tx);
     appendHash (m_recipient tx); appendInt (m_timestamp tx); Stream.append (m_data tx) false;
     appendInt (m_value tx)].

Definition getRLPData (tx : Transaction) : result bytes := run (streamRLP tx).

(** Signing, for any signature scheme ([crypto::sign] and
    [SignatureStruct::isValid]). *)
Section Crypto.
Variable crypto_sign : h256 -> h256 -> h520.
Variable sig_isValid : h520 -> bool.

Definition getHash (tx : Transaction) : result h256 :=
  o ← run (streamRLPContent tx); Ok (sha3 o).

Definition getKey (tx : Transaction) : result bytes :=
  h ← getHash tx; Ok (vec_to_list h).

Definition sign (secret : h256) (tx : Transaction) : result Transaction :=
  o ← run (streamRLPContent tx);
  let sig := crypto_sign secret (sha3 o) in
  Ok (if sig_isValid sig
      then mkTransaction (m_chainID tx) (m_type tx) (m_sender tx) (m_recipient tx) (m_timestamp tx)
             (m_data tx) (m_value tx) sig
      else tx).

(** [operator==]. *)
Definition tx_eqb (a b : Transaction) : result bool :=
  hb ← getHash b; ha ← getHash a; Ok (hash_eqb ha hb).

End Crypto.

(** The values the C++ types hold; a timestamp is not negative and the data
    fits in memory. *)
Record valid (tx : Transaction) : Prop := {
  valid_chainID : is_u64 (m_chainID tx);
  valid_type : is_u32 (m_type tx);
  valid_timestamp : 0 <= m_timestamp tx < 2 ^ 63;
  valid_data : zlen (m_data tx) < 2 ^ 62;
  valid_value : is_u64 (m_value tx)
}.

Definition content_fields (tx : Transaction) : list bytes :=
  [enc_int (m_chainID tx); enc_int (m_type tx); enc_str (vec_to_list (m_sender tx));
   enc_str (vec_to_list (m_recipient tx)); enc_int (m_timestamp tx); enc_str (m_data tx); enc_int (m_value tx)].

Definition fields (tx : Transaction) : list bytes :=
  content_fields tx ++ [enc_str (vec_to_list (m_signature tx))].

Section Facts.
Context (tx : Transaction) (Hv : valid tx).

Lemma transaction_fields_fit : fits (concat (fields tx)).
Proof. destruct Hv. unfold fields, content_fields. cbn [app]. solve_fits. Qed.

Lemma transaction_content_fit : fits (concat (content_fields tx)).
Proof. destruct Hv. unfold content_fields. solve_fits. Qed.

Lemma transaction_fields_wf : Forall wf_item (fields tx).
Proof. destruct Hv. unfold fields, content_fields. cbn [app]. solve_fields. Qed.

Lemma content_wf : Forall wf_item (content_fields tx).
Proof. destruct Hv. unfold content_fields. solve_fields. Qed.

Lemma transaction_getRLPData_enc : getRLPData tx = Ok (enc_list (fields tx)).
Proof.
  destruct Hv. apply run_list; [done|apply transaction_fields_fit|]. unfold fields, content_fields. cbn [app]. solve_fields.
Qed.

Lemma transaction_content_enc : run (streamRLPContent tx) = Ok (enc_list (content_fields tx)).
Proof. destruct Hv. apply run_list; [done|apply transaction_content_fit|]. unfold content_fields. solve_fields. Qed.

Lemma transaction_decode_enc : decode (enc_list (fields tx)) = Ok tx.
Proof.
  pose proof transaction_fields_fit. pose proof transaction_fields_wf. destruct Hv. unfold decode. read_fields.
  change (8 =? TRANSACTION_FIELDS_ALL) with true. read_fields. by destruct tx.
Qed.

End Facts.

(** Two transactions that differ at most in their signature. *)
Definition same_content (a b : Transaction) : Prop :=
  mkTransaction (m_chainID a) (m_type a) (m_sender a) (m_recipient a) (m_timestamp a) (m_data a) (m_value a)
    (m_signature b) = b.

Lemma content_fields_inj a b :
  valid a -> valid b -> enc_list (content_fields a) = enc_list (content_fields b) -> same_content a b.
Proof.
  intros Ha Hb Heq. apply enc_list_inj in Heq.
  - unfold content_fields in Heq. destruct Ha, Hb. destruct b. cbn in *. injection Heq as E1 E2 E3 E4 E5 E6 E7.
    apply enc_int_inj in E1, E2, E5, E7; try range. apply enc_hash_inj in E3, E4; try lia.
    apply enc_str_inj in E6; [|unfold fits; lia..]. unfold same_content. cbn. by subst.
  - by apply content_wf.
  - by apply content_wf.
  - by apply transaction_content_fit.
  - by apply transaction_content_fit.
  - cbn. lia.
Qed.

(** The bytes that are hashed and signed determine every field but the
    signature: two transactions with the same signing payload differ at most
    in their signature. *)
Theorem signing_payload_injective (a b : Transaction) (Ha : valid a) (Hb : valid b)
    (Heq : run (streamRLPContent a) = run (streamRLPContent b)) : same_content a b.
Proof.
  rewrite !transaction_content_enc in Heq by done. injection Heq as Heq. by apply content_fields_inj.
Qed.

(** A transaction survives the wire and the database: encoding it succeeds
    and decoding the bytes gives back every field, signature included. *)
Theorem transaction_roundtrip (tx : Transaction) (Hv : valid tx) :
  exists b, getRLPData tx = Ok b /\ decode b = Ok tx.
Proof. exists (enc_list (fields tx)). split; [by apply transaction_getRLPData_enc|by apply transaction_decode_enc]. Qed.

Definition example_tx : Transaction :=
  mkTransaction 16 TransferType (vec_of_bytes 20 [Byte.x01]) (vec_of_bytes 20 [Byte.x02])
    1538352000000 [Byte.x00; Byte.xff] 1000 (vec_of_bytes 65 [Byte.x03]).

Lemma example_tx_valid : valid example_tx.
Proof. split; vm_compute; intuition congruence. Qed.

Lemma transaction_roundtrip_witness : exists b, getRLPData example_tx = Ok b /\ decode b = Ok example_tx.
Proof. apply transaction_roundtrip, example_tx_valid. Defined.

Lemma signing_payload_injective_witness : same_content example_tx example_tx.
Proof. apply signing_payload_injective; [apply example_tx_valid|apply example_tx_valid|reflexivity]. Defined.
