(* ===== verification/Account.v ===== *)
(** * Accounts: core/Account.{h,cpp}

    The record, its constructors, copies, mutators and its codec. *)

From S2P Require Import Prelude CommonData RLP RLPFacts FixedHash Codec.
Import Spec Decoder Stream.

Definition ACCOUNT_COMMON_FIELDS : Z := 9.
Definition ExternalType : Z := 1.
Definition ContractType : Z := 2.

Record Account : Type := mkAccount {
  m_address : h160;
  m_type : Z;
  m_code : bytes;
  m_alive : bool;
  m_balance : Z;
  m_timestamp : Z;
  m_contractAddresses : list h160;
  m_votes : Z;
  m_candidates : gmap h160 Z
}.

#[export] Instance Account_eq_dec : EqDecision Account.
Proof. solve_decision. Defined.

(** [EmptyAccount]: a namespace-scope object, zero-initialised before its
    default constructor sets [m_type]. *)
Definition EmptyAccount : Account := mkAccount (zero_hash 20) ExternalType [] false 0 0 [] 0 ∅.

(** [Account(address, balance, timestamp)]. *)
Definition newAccount (address : h160) (balance timestamp : Z) : Account :=
  mkAccount address ExternalType [] true balance timestamp [] 0 ∅.

(** [Account(contractAddress, type, timestamp)]. *)
Definition newContractAccount (contractAddress : h160) (type timestamp : Z) : Account :=
  mkAccount contractAddress type [] true 0 timestamp [] 0 ∅.

(** [operator=]: every field but the contract addresses. *)
Definition assign (this account : Account) : Account :=
  mkAccount (m_address account) (m_type account) (m_code account) (m_alive account)
    (m_balance account) (m_timestamp account) (m_contractAddresses this)
    (m_votes account) (m_candidates account).

(** [operator==] and [equal]. *)
Definition account_eqb (a b : Account) : bool :=
  hash_eqb (m_address a) (m_address b) && (m_type a =? m_type b) && Bool.eqb (m_alive a) (m_alive b)
  && (m_balance a =? m_balance b) && (m_timestamp a =? m_timestamp b).

Definition setBalance (balance : Z) (a : Account) : Account :=
  mkAccount (m_address a) (m_type a) (m_code a) (m_alive a) balance (m_timestamp a)
    (m_contractAddresses a) (m_votes a) (m_candidates a).

Definition setAlive (status : bool) (a : Account) : Account :=
  mkAccount (m_address a) (m_type a) (m_code a) status (m_balance a) (m_timestamp a)
    (m_contractAddresses a) (m_votes a) (m_candidates a).

Definition setCode (code : bytes) (a : Account) : Account :=
  mkAccount (m_address a) (m_type a) code (m_alive a) (m_balance a) (m_timestamp a)
    (m_contractAddresses a) (m_votes a) (m_candidates a).

(** [m_candidates[address] = value; m_votes += value;]. *)
Definition addVoter (address : h160) (value : Z) (a : Account) : Account :=
  mkAccount (m_address a) (m_type a) (m_code a) (m_alive a) (m_balance a) (m_timestamp a)
    (m_contractAddresses a) (u64 (m_votes a + value)) (<[address := value]> (m_candidates a)).

Definition clearVote (a : Account) : Account :=
  mkAccount (m_address a) (m_type a) (m_code a) (m_alive a) (m_balance a) (m_timestamp a)
    (m_contractAddresses a) 0 ∅.

Definition getKey (a : Account) : bytes := vec_to_list (m_address a).

(** [Account(bytesConstRef data)]; [m_code] is read with [data().toBytes()],
    the encoded item and not its payload. *)
Definition decode (data : bytes) : result Account :=
  rethrow (
    _ ← make data VeryStrict;
    n ← (if isList data then itemCount data else Ok (-1));
    if isList data && (n =? ACCOUNT_COMMON_FIELDS) then
      f0 ← nth_item data 0; address ← toHash 20 f0 VeryStrict;
      f1 ← nth_item data 1; type ← toInt_u32 f1;
      f2 ← nth_item data 2;
      f3 ← nth_item data 3; alive ← toInt_u8 f3;
      f4 ← nth_item data 4; balance ← toPositiveInt64 f4;
      f5 ← nth_item data 5; timestamp ← toInt_i64 f5;
      casBytes ← nth_item data 6;
      contracts ← if_list casBytes [] (fun n =>
        read_from (fun it => toHash 20 it VeryStrict) (Z.to_nat n) casBytes 0 n);
      f7 ← nth_item data 7; votes ← toPositiveInt64 f7;
      csBytes ← nth_item data 8;
      candidates ← if_list csBytes ∅ (fun n => read_pairs toPositiveInt64 (Z.to_nat n) csBytes 0 n ∅);
      Ok (mkAccount address type f2 (negb (alive =? 0)) balance timestamp contracts votes candidates)
    else Throw RangeError).

Definition streamRLP (a : Account) (st : RLPStream) : result RLPStream :=
  st1 ← (appendList ACCOUNT_COMMON_FIELDS st ≫= chain
    [appendHash (m_address a); appendInt (m_type a); Stream.append (m_code a) false;
     appendInt (if m_alive a then 1 else 0); appendInt (m_balance a); appendInt (m_timestamp a)]);
  contracts ← run (fun s => appendList (zlen (m_contractAddresses a)) s
                     ≫= chain (map appendHash (m_contractAddresses a)));
  st2 ← chain [appendRaw contracts 1; appendInt (m_votes a)] st1;
  candidates ← run (fun s => appendList (u64 (Z.of_nat (size (m_candidates a)) * 2)) s
                     ≫= chain (concat (map (fun i => [appendHash (fst i); appendInt (snd i)])
                                           (map_entries (m_candidates a)))));
  appendRaw candidates 1 st2.

Definition getRLPData (a : Account) : result bytes := run (streamRLP a).

(** The values the C++ types hold. *)
Record writable (a : Account) : Prop := {
  valid_type : is_u32 (m_type a);
  valid_code : zlen (m_code a) < 2 ^ 62;
  valid_timestamp : 0 <= m_timestamp a < 2 ^ 63;
  valid_contracts : zlen (m_contractAddresses a) < 2 ^ 40;
  valid_votes : 0 <= m_votes a < 2 ^ 63;
  valid_candidates : map_Forall (fun _ v => 0 <= v < 2 ^ 63) (m_candidates a);
  valid_candidates_size : Z.of_nat (size (m_candidates a)) < 2 ^ 40;
  valid_balance : is_u64 (m_balance a)
}.

(** The decoder reads the balance as a non-negative [int64_t]. *)
Definition valid (a : Account) : Prop := writable a /\ m_balance a < 2 ^ 63.

Definition fields (a : Account) : list bytes :=
  [enc_str (vec_to_list (m_address a)); enc_int (m_type a); enc_str (m_code a);
   enc_int (if m_alive a then 1 else 0); enc_int (m_balance a); enc_int (m_timestamp a);
   enc_list (map enc_hash (m_contractAddresses a)); enc_int (m_votes a);
   enc_list (concat (map enc_pair (map_entries (m_candidates a))))].

Section Facts.
Context (a : Account) (Hv : writable a).

Lemma candidates_u256 : u256_entries (map_entries (m_candidates a)).
Proof.
  apply Forall_forall. intros [k v] H%map_entries_lookup. cbn.
  pose proof (valid_candidates a Hv k v H) as Hk. cbn in Hk. lia.
Qed.

Lemma candidates_len : zlen (map_entries (m_candidates a)) = Z.of_nat (size (m_candidates a)).
Proof. unfold zlen. by rewrite length_map_entries. Qed.

Lemma account_fields_fit : fits (concat (fields a)).
Proof.
  destruct Hv. pose proof candidates_u256 as Hc. pose proof candidates_len as Hl.
  assert (zlen (enc_list (map enc_hash (m_contractAddresses a))) <= 2 ^ 60).
  { apply zlen_enc_list_le. pose proof (zlen_hashes_le (m_contractAddresses a) ltac:(lia)). lia. }
  assert (zlen (enc_list (concat (map enc_pair (map_entries (m_candidates a))))) <= 2 ^ 60).
  { apply zlen_enc_list_le. pose proof (zlen_pairs_le _ Hc). lia. }
  unfold fields. destruct (m_alive a); solve_fits.
Qed.

Lemma account_fields_wf : Forall wf_item (fields a).
Proof.
  destruct Hv. pose proof candidates_u256 as Hc. pose proof candidates_len as Hl. unfold fields.
  destruct (m_alive a); solve_fields.
  all: apply wf_enc_list; first [apply fits_hashes; lia | apply fits_pairs; [done|lia]].
Qed.

Lemma account_getRLPData_enc : getRLPData a = Ok (enc_list (fields a)).
Proof.
  destruct Hv. pose proof candidates_u256 as Hc. pose proof candidates_len as Hl.
  rewrite <- (run_list ACCOUNT_COMMON_FIELDS
    [appendHash (m_address a); appendInt (m_type a); Stream.append (m_code a) false;
     appendInt (if m_alive a then 1 else 0); appendInt (m_balance a); appendInt (m_timestamp a);
     appendRaw (enc_list (map enc_hash (m_contractAddresses a))) 1; appendInt (m_votes a);
     appendRaw (enc_list (concat (map enc_pair (map_entries (m_candidates a))))) 1] (fields a));
    [|done|apply account_fields_fit|unfold fields; destruct (m_alive a); solve_fields].
  apply run_ext. unfold streamRLP.
  destruct (appendList ACCOUNT_COMMON_FIELDS Stream.empty) as [st|e]; [|done].
  cbn [mbind result_bind]. rewrite (run_hashes _ (zlen (m_contractAddresses a))) by (done || lia).
  rewrite u64_small, (run_pairs _ (Z.of_nat (size (m_candidates a)) * 2)) by (done || lia || unfold is_u64; lia).
  match goal with |- _ = chain (?w1 :: ?w2 :: ?w3 :: ?w4 :: ?w5 :: ?w6 :: ?ws) _ =>
    change (chain (w1 :: w2 :: w3 :: w4 :: w5 :: w6 :: ws) st) with (chain ([w1; w2; w3; w4; w5; w6] ++ ws) st) end.
  rewrite chain_app. destruct (chain _ st) as [st1|]; [|done]. cbn [mbind result_bind chain].
  destruct (appendRaw _ 1 st1) as [st2|]; [|done]. cbn [mbind result_bind].
  destruct (appendInt _ st2) as [st3|]; [|done]. cbn [mbind result_bind].
  by destruct (appendRaw _ 1 st3).
Qed.

Lemma account_decode_enc : m_balance a < 2 ^ 63 -> decode (enc_list (fields a)) = Ok (setCode (enc_str (m_code a)) a).
Proof.
  intros Hb. pose proof account_fields_fit. pose proof account_fields_wf. pose proof candidates_u256 as Hc. pose proof candidates_len as Hl.
  destruct Hv. unfold decode. read_fields.
  change (9 =? ACCOUNT_COMMON_FIELDS) with true. read_fields.
  rewrite toInt_u8_int by (destruct (m_alive a); range). read_fields.
  rewrite if_list_hashes by lia. read_fields.
  rewrite if_list_pairs by (try done; try lia; intros k v Hk%map_entries_lookup; apply toPositiveInt64_int;
    exact (valid_candidates0 k v Hk)).
  cbn [mbind result_bind]. rewrite insert_map_entries. by destruct a as [? ? ? [] ? ? ? ? ?].
Qed.

End Facts.

(** An account written to the database is read back with every field
    unchanged but one: [m_code] comes back as the RLP encoding of the code. *)
Theorem account_roundtrip_upto_code (a : Account) (Hv : valid a) :
  exists b, getRLPData a = Ok b /\ decode b = Ok (setCode (enc_str (m_code a)) a).
Proof. exists (enc_list (fields a)). destruct Hv. split; [by apply account_getRLPData_enc|by apply account_decode_enc]. Qed.

Definition example_account : Account :=
  mkAccount (vec_of_bytes 20 [Byte.x01]) ExternalType [] true 5000 1538352000000 [vec_of_bytes 20 [Byte.x09]]
    7 {[vec_of_bytes 20 [Byte.x02] := 3; vec_of_bytes 20 [Byte.x03] := 4]}.

Lemma example_account_valid : valid example_account.
Proof.
  split; [|done]. split; cbn [m_type m_code m_timestamp m_contractAddresses m_votes m_candidates m_balance example_account];
    match goal with
    | |- map_Forall _ _ => idtac
    | |- context [size] => idtac
    | |- _ => vm_compute; intuition congruence
    end.
  - apply map_Forall_insert_2; [lia|]. apply map_Forall_singleton. lia.
  - rewrite (map_size_insert_None _ _ _); [by rewrite map_size_singleton|]. by apply lookup_singleton_ne.
Qed.

Lemma account_roundtrip_upto_code_witness :
  exists b, getRLPData example_account = Ok b /\
    decode b = Ok (setCode (enc_str (m_code example_account)) example_account).
Proof. apply account_roundtrip_upto_code, example_account_valid. Defined.

(** The code is not restored: an account whose code is empty or has two or
    more bytes comes back from the database with a longer code, so each save
    and load makes it grow. *)
Theorem account_code_grows (a : Account) (Hv : valid a) (Hcode : zlen (m_code a) <> 1) :
  exists b a', getRLPData a = Ok b /\ decode b = Ok a' /\ zlen (m_code a) < zlen (m_code a').
Proof.
  exists (enc_list (fields a)), (setCode (enc_str (m_code a)) a).
  destruct Hv. split; [by apply account_getRLPData_enc|]. split; [by apply account_decode_enc|]. cbn [m_code setCode].
  destruct (enc_str_cases (m_code a)) as [(x & Hx & _)|[-> _]]; [by rewrite Hx in Hcode|].
  rewrite zlen_app. pose proof (zlen_header_pos 128 (zlen (m_code a))). lia.
Qed.

Lemma account_code_grows_witness :
  exists b a', getRLPData example_account = Ok b /\ decode b = Ok a' /\ zlen (m_code example_account) < zlen (m_code a').
Proof. apply account_code_grows; [apply example_account_valid|discriminate]. Defined.

(** A balance of [2^63] or more is written but never read back: the
    decoder reads it as a negative [int64_t] and throws. *)
Theorem account_large_balance_unreadable (a : Account) (Hv : writable a) (Hb : 2 ^ 63 <= m_balance a) :
  exists b, getRLPData a = Ok b /\ decode b = Throw CoreException.
Proof.
  exists (enc_list (fields a)). split; [by apply account_getRLPData_enc|].
  pose proof (account_fields_fit a Hv). pose proof (account_fields_wf a Hv). destruct Hv. unfold decode. read_fields.
  change (9 =? ACCOUNT_COMMON_FIELDS) with true. read_fields.
  rewrite toInt_u8_int by (destruct (m_alive a); range). read_fields.
  by rewrite toPositiveInt64_large by range.
Qed.

Lemma account_large_balance_unreadable_witness :
  exists b, getRLPData (setBalance (2 ^ 63) example_account) = Ok b /\ decode b = Throw CoreException.
Proof.
  apply account_large_balance_unreadable; [|cbn; lia].
  destruct example_account_valid as [[] _]. split; try assumption.
Defined.
