(* ===== verification/Producer.v ===== *)
(** * Block producers: core/Producer.{h,cpp}

    [Producer] with its voters and its order, and the two snapshot classes
    ([ProducerSnapshot], and [ActiveProducerSnapshot] with the same text). *)

From S2P Require Import Prelude CommonData RLP RLPFacts FixedHash Codec.
Import Spec Decoder Stream.

Definition PRODUCER_FIELDS : Z := 4.

Record Producer : Type := mkProducer {
  m_address : h160;
  m_timestamp : Z;
  m_votes : Z;
  m_voters : gmap h160 Z
}.

#[export] Instance Producer_eq_dec : EqDecision Producer.
Proof. solve_decision. Defined.

(** [EmptyProducer]: a namespace-scope object, zero-initialised. *)
Definition EmptyProducer : Producer := mkProducer (zero_hash 20) 0 0 ∅.

(** [Producer(address, timestamp)]. *)
Definition newProducer (address : h160) (timestamp : Z) : Producer := mkProducer address timestamp 0 ∅.

(** [operator==]: the voters and the votes are not compared. *)
Definition producer_eqb (a b : Producer) : bool :=
  hash_eqb (m_address a) (m_address b) && (m_timestamp a =? m_timestamp b).

Definition producer_gtb (a b : Producer) : bool :=
  if m_votes b <? m_votes a then true
  else if m_votes a =? m_votes b then hash_gtb (m_address a) (m_address b)
  else false.

Definition producer_ltb (a b : Producer) : bool :=
  if m_votes a <? m_votes b then true
  else if m_votes a =? m_votes b then hash_ltb (m_address a) (m_address b)
  else false.

Definition setVotes (votes : Z) (p : Producer) : Producer :=
  mkProducer (m_address p) (m_timestamp p) votes (m_voters p).

(** [m_voters[voter] = value; m_votes += value;]. *)
Definition addVoter (voter : h160) (value : Z) (p : Producer) : Producer :=
  mkProducer (m_address p) (m_timestamp p) (u64 (m_votes p + value)) (<[voter := value]> (m_voters p)).

Definition eraseVoter (voter : h160) (p : Producer) : Producer :=
  match m_voters p !! voter with
  | Some v => mkProducer (m_address p) (m_timestamp p) (u64 (m_votes p - v)) (delete voter (m_voters p))
  | None => p
  end.

Definition getKey (p : Producer) : bytes := vec_to_list (m_address p).

(** [Producer(bytesConstRef data)]. *)
Definition decode (data : bytes) : result Producer :=
  rethrow (
    _ ← make data VeryStrict;
    n ← (if isList data then itemCount data else Ok (-1));
    if isList data && (n =? PRODUCER_FIELDS) then
      f0 ← nth_item data 0; address ← toHash 20 f0 VeryStrict;
      f1 ← nth_item data 1; timestamp ← toInt_i64 f1;
      f2 ← nth_item data 2; votes ← toInt_u64 f2;
      vBytes ← nth_item data 3;
      voters ← if_list vBytes ∅ (fun n => read_pairs toInt_u64 (Z.to_nat n) vBytes 0 n ∅);
      Ok (mkProducer address timestamp votes voters)
    else Throw RangeError).

Definition streamRLP (p : Producer) (st : RLPStream) : result RLPStream :=
  st1 ← (appendList PRODUCER_FIELDS st ≫= chain
    [appendHash (m_address p); appendInt (m_timestamp p); appendInt (m_votes p)]);
  voters ← run (fun s => appendList (u64 (Z.of_nat (size (m_voters p)) * 2)) s
                 ≫= chain (concat (map (fun i => [appendHash (fst i); appendInt (snd i)])
                                       (map_entries (m_voters p)))));
  appendRaw voters 1 st1.

Definition getRLPData (p : Producer) : result bytes := run (streamRLP p).

(** ** Snapshots *)

Record ProducerSnapshot : Type := mkSnapshot {
  s_timestamp : Z;
  s_producers : list Producer
}.

(** The loop of [populate]: what was pushed before a throw stays. *)
Fixpoint populate_loop (fuel : nat) (data : bytes) (i count : Z) : list Producer :=
  match fuel with
  | O => []
  | S n =>
      if i <? count then
        match nth_item data i ≫= decode with
        | Ok p => p :: populate_loop n data (i + 1) count
        | Throw _ => []
        end
      else []
  end.

(** [populate(data)]; [catch (...)] swallows every exception. *)
Definition populate (data : bytes) (ps : ProducerSnapshot) : ProducerSnapshot :=
  let unread := mkSnapshot (s_timestamp ps) [] in
  match make data VeryStrict with
  | Throw _ => unread
  | Ok _ =>
      if isList data then
        match itemCount data with
        | Throw _ => unread
        | Ok n =>
            if 0 <? n then
              match nth_item data 0 ≫= toInt_i64 with
              | Throw _ => unread
              | Ok ts => mkSnapshot ts (populate_loop (Z.to_nat n) data 1 n)
              end
            else unread
        end
      else unread
  end.

Definition isExist (address : h160) (ps : ProducerSnapshot) : bool :=
  existsb (fun i => hash_eqb (m_address i) address) (s_producers ps).

Definition addProducer (producer : Producer) (ps : ProducerSnapshot) : ProducerSnapshot :=
  if negb (isExist (m_address producer) ps)
  then mkSnapshot (s_timestamp ps) (s_producers ps ++ [producer])
  else ps.

(** [std::find] with [operator==], then [erase]. *)
Fixpoint erase_first (producer : Producer) (l : list Producer) : list Producer :=
  match l with
  | [] => []
  | x :: l' => if producer_eqb x producer then l' else x :: erase_first producer l'
  end.

Definition deleteProducer (producer : Producer) (ps : ProducerSnapshot) : ProducerSnapshot :=
  mkSnapshot (s_timestamp ps) (erase_first producer (s_producers ps)).

Definition snapshot_streamRLP (ps : ProducerSnapshot) (st : RLPStream) : result RLPStream :=
  raws ← result_map getRLPData (s_producers ps);
  appendList (1 + zlen (s_producers ps)) st ≫= chain
    (appendInt (s_timestamp ps) :: map (fun r => appendRaw r 1) raws).

Definition snapshot_getRLPData (ps : ProducerSnapshot) : result bytes := run (snapshot_streamRLP ps).

(** ** The codec *)

(** The values the C++ types hold. *)
Record valid (p : Producer) : Prop := {
  valid_timestamp : 0 <= m_timestamp p < 2 ^ 63;
  valid_votes : is_u64 (m_votes p);
  valid_voters : map_Forall (fun _ v => is_u64 v) (m_voters p);
  valid_size : Z.of_nat (size (m_voters p)) < 2 ^ 20
}.

Definition fields (p : Producer) : list bytes :=
  [enc_str (vec_to_list (m_address p)); enc_int (m_timestamp p); enc_int (m_votes p);
   enc_list (concat (map enc_pair (map_entries (m_voters p))))].

Section Facts.
Context (p : Producer) (Hv : valid p).

Lemma voters_u256 : u256_entries (map_entries (m_voters p)).
Proof.
  apply Forall_forall. intros [k v] H%map_entries_lookup. cbn.
  pose proof (valid_voters p Hv k v H) as Hk. cbn in Hk. range.
Qed.

Lemma voters_len : zlen (map_entries (m_voters p)) = Z.of_nat (size (m_voters p)).
Proof. unfold zlen. by rewrite length_map_entries. Qed.

Lemma producer_fields_len : zlen (concat (fields p)) <= 2 ^ 30.
Proof.
  destruct Hv. pose proof (zlen_pairs_le _ voters_u256). pose proof voters_len.
  assert (zlen (enc_list (concat (map enc_pair (map_entries (m_voters p))))) <= 9 + 70 * 2 ^ 20).
  { unfold enc_list. rewrite zlen_app.
    pose proof (zlen_header 192 (zlen (concat (concat (map enc_pair (map_entries (m_voters p))))))).
    pose proof (zlen_nonneg (concat (concat (map enc_pair (map_entries (m_voters p)))))). lia. }
  unfold fields. cbn [concat]. rewrite ?zlen_app, ?(@zlen_nil byte). bound_fields. lia.
Qed.

Lemma producer_fields_fit : fits (concat (fields p)).
Proof. pose proof producer_fields_len. unfold fits. lia. Qed.

Lemma producer_fields_wf : Forall wf_item (fields p).
Proof.
  destruct Hv. pose proof voters_u256. pose proof voters_len. unfold fields. solve_fields.
  apply wf_enc_list, fits_pairs; [done|lia].
Qed.

Lemma producer_getRLPData_enc : getRLPData p = Ok (enc_list (fields p)).
Proof.
  destruct Hv. pose proof voters_u256 as Hc. pose proof voters_len as Hl.
  rewrite <- (run_list PRODUCER_FIELDS
    [appendHash (m_address p); appendInt (m_timestamp p); appendInt (m_votes p);
     appendRaw (enc_list (concat (map enc_pair (map_entries (m_voters p))))) 1] (fields p));
    [|done|apply producer_fields_fit|unfold fields; solve_fields].
  apply run_ext. unfold streamRLP.
  destruct (appendList PRODUCER_FIELDS Stream.empty) as [st|e]; [|done]. cbn [mbind result_bind].
  rewrite u64_small, (run_pairs _ (Z.of_nat (size (m_voters p)) * 2)) by (done || lia || unfold is_u64; lia).
  match goal with |- _ = chain (?w1 :: ?w2 :: ?w3 :: ?ws) _ =>
    change (chain (w1 :: w2 :: w3 :: ws) st) with (chain ([w1; w2; w3] ++ ws) st) end.
  rewrite chain_app. destruct (chain _ st) as [st1|]; [|done]. cbn [mbind result_bind chain].
  by destruct (appendRaw _ 1 st1).
Qed.

Lemma producer_decode_enc : decode (enc_list (fields p)) = Ok p.
Proof.
  pose proof producer_fields_fit. pose proof producer_fields_wf. pose proof voters_u256 as Hc. pose proof voters_len as Hl.
  destruct Hv. unfold decode. read_fields.
  change (4 =? PRODUCER_FIELDS) with true. read_fields.
  rewrite if_list_pairs by (try done; try lia; intros k v Hk%map_entries_lookup; apply toInt_u64_int;
    exact (valid_voters0 k v Hk)).
  cbn [mbind result_bind]. rewrite insert_map_entries. by destruct p.
Qed.

End Facts.

(** ** Properties *)

(** A producer with its voters is read back unchanged. *)
Theorem producer_roundtrip (p : Producer) (Hv : valid p) :
  exists b, getRLPData p = Ok b /\ decode b = Ok p.
Proof. exists (enc_list (fields p)). split; [by apply producer_getRLPData_enc|by apply producer_decode_enc]. Qed.

Definition addr (n : Z) : h160 := fromArith 20 n.

Definition example_producer : Producer := addVoter (addr 2) 9 (addVoter (addr 1) 5 (newProducer (addr 7) 1538352000000)).

Lemma example_producer_valid : valid example_producer.
Proof.
  split.
  - cbn. lia.
  - vm_compute. intuition congruence.
  - apply map_Forall_insert_2; [range|]. apply map_Forall_insert_2; [range|apply map_Forall_empty].
  - cbn [m_voters example_producer addVoter newProducer].
    rewrite map_size_insert_None by (by apply lookup_insert_None; split; [done|vm_compute]).
    rewrite map_size_insert_None by done. rewrite map_size_empty. lia.
Qed.

Lemma producer_roundtrip_witness : exists b, getRLPData example_producer = Ok b /\ decode b = Ok example_producer.
Proof. apply producer_roundtrip, example_producer_valid. Defined.

(** The votes of a producer are the sum of its voters' values. *)
Definition votes_consistent (p : Producer) : Prop := m_votes p = u64 (map_sum (m_voters p)).

Lemma u64_add_u64 a b : u64 (u64 a + b) = u64 (a + b).
Proof. unfold u64. by rewrite Zplus_mod_idemp_l. Qed.

Lemma u64_sub_u64 a b : u64 (u64 a - b) = u64 (a - b).
Proof. unfold u64. by rewrite Zminus_mod_idemp_l. Qed.

Lemma newProducer_consistent a t : votes_consistent (newProducer a t).
Proof. done. Qed.

Lemma addVoter_consistent p voter value :
  m_voters p !! voter = None -> votes_consistent p -> votes_consistent (addVoter voter value p).
Proof.
  unfold votes_consistent. intros Hn Hc. cbn. rewrite map_sum_insert_None by done. rewrite Hc, u64_add_u64. f_equal. lia.
Qed.

Lemma eraseVoter_consistent p voter : votes_consistent p -> votes_consistent (eraseVoter voter p).
Proof.
  unfold votes_consistent, eraseVoter. intros Hc. destruct (m_voters p !! voter) as [v|] eqn:E; [|done]. cbn.
  rewrite (map_sum_delete _ _ _ E), Hc, u64_sub_u64. done.
Qed.

Lemma eraseVoter_lookup p voter : m_voters (eraseVoter voter p) !! voter = None.
Proof.
  unfold eraseVoter. destruct (m_voters p !! voter) eqn:E; [|done]. cbn. apply lookup_delete_eq.
Qed.

(** ** Snapshots *)

Definition enc_producer (p : Producer) : bytes := enc_list (fields p).

Record snapshot_valid (ps : ProducerSnapshot) : Prop := {
  sv_timestamp : 0 <= s_timestamp ps < 2 ^ 63;
  sv_producers : Forall valid (s_producers ps);
  sv_size : zlen (s_producers ps) < 2 ^ 20
}.

Definition snapshot_fields (ps : ProducerSnapshot) : list bytes :=
  enc_int (s_timestamp ps) :: map enc_producer (s_producers ps).

Lemma populate_loop_read fuel d i n xs : read_from decode fuel d i n = Ok xs -> populate_loop fuel d i n = xs.
Proof.
  revert i xs. induction fuel as [|fuel IH]; intros i xs H; cbn [read_from populate_loop] in *; [by inv_ok|].
  destruct (i <? n); [|by inv_ok]. destruct (nth_item d i) as [it|]; [|done]. cbn [mbind result_bind] in *.
  destruct (decode it) as [p|]; [|done]. cbn [mbind result_bind] in *.
  destruct (read_from decode fuel d (i + 1) n) as [l|] eqn:E; [|done]. cbn in H. inv_ok. f_equal. by apply IH.
Qed.

Section SnapshotFacts.
Context (ps : ProducerSnapshot) (Hv : snapshot_valid ps).

Lemma snapshot_len : zlen (concat (snapshot_fields ps)) <= 2 ^ 60.
Proof.
  destruct Hv as [Ht Hp Hs]. unfold snapshot_fields. cbn [concat]. rewrite zlen_app.
  pose proof (zlen_enc_int (s_timestamp ps) ltac:(lia)).
  assert (zlen (concat (map enc_producer (s_producers ps))) <= 2 ^ 31 * zlen (map enc_producer (s_producers ps))) as H1.
  { apply zlen_concat_le, Forall_fmap. eapply Forall_impl; [exact Hp|]. intros p Hpv. cbn.
    unfold enc_producer, enc_list. rewrite zlen_app. pose proof (producer_fields_len p Hpv).
    pose proof (zlen_header 192 (zlen (concat (fields p)))). pose proof (zlen_nonneg (concat (fields p))). lia. }
  assert (zlen (map enc_producer (s_producers ps)) = zlen (s_producers ps)) as H2 by (unfold zlen; by rewrite length_map).
  rewrite H2 in H1. lia.
Qed.

Lemma snapshot_wf : Forall wf_item (snapshot_fields ps).
Proof.
  destruct Hv as [Ht Hp Hs]. unfold snapshot_fields. apply Forall_cons_2; [auto with codec|].
  apply Forall_fmap. eapply Forall_impl; [exact Hp|]. intros p Hpv. by apply wf_enc_list, producer_fields_fit.
Qed.

Lemma snapshot_enc : snapshot_getRLPData ps = Ok (enc_list (snapshot_fields ps)).
Proof.
  destruct Hv as [Ht Hp Hs]. unfold snapshot_getRLPData, snapshot_streamRLP.
  rewrite (result_map_ok _ enc_producer).
  2: { intros p Hin. apply producer_getRLPData_enc. by eapply Forall_forall in Hp. }
  cbn [mbind result_bind]. apply run_list.
  - unfold snapshot_fields. cbn [Datatypes.length]. rewrite length_map. unfold zlen. lia.
  - pose proof snapshot_len. unfold fits. lia.
  - unfold snapshot_fields. apply Forall2_cons_2; [auto with codec|].
    clear. induction (s_producers ps); cbn; constructor; auto using writes_raw.
Qed.

Lemma producer_populate_enc old : populate (enc_list (snapshot_fields ps)) old = ps.
Proof.
  assert (fits (concat (snapshot_fields ps))) as Hf by (pose proof snapshot_len; unfold fits; lia).
  pose proof snapshot_wf as Hwf. destruct Hv as [Ht Hp Hs].
  unfold populate. rewrite make_enc_list, isList_enc, itemCount_list by done.
  assert (Z.of_nat (Datatypes.length (snapshot_fields ps)) = 1 + zlen (s_producers ps)) as Hn.
  { unfold snapshot_fields. cbn [Datatypes.length]. rewrite length_map. unfold zlen. lia. }
  rewrite Hn. pose proof (zlen_nonneg (s_producers ps)). rewrite (proj2 (Z.ltb_lt _ _)) by lia.
  rewrite (nth_item_enc _ 0 (enc_int (s_timestamp ps))) by (done || lia). cbn [mbind result_bind].
  rewrite toInt_i64_int by done. destruct ps as [ts l]. cbn [s_timestamp s_producers] in *. f_equal.
  apply populate_loop_read.
  pose proof (read_from_ok decode enc_producer [enc_int ts] l (Z.to_nat (1 + zlen l))) as HR.
  change ([enc_int ts] ++ map enc_producer l) with (snapshot_fields (mkSnapshot ts l)) in HR.
  change (zlen [enc_int ts]) with 1 in HR. unfold zlen at 3 in HR. rewrite Hn in HR. apply HR; try done; try (unfold zlen in *; lia).
  intros p Hin. apply producer_decode_enc. by eapply Forall_forall in Hp.
Qed.

End SnapshotFacts.
