(* ===== verification/Ballot.v ===== *)
(** * Ballots: core/Ballot.{h,cpp}

    A candidate is an address with a number of votes; a ballot is the payload
    of a vote transaction, a non-empty list of candidates. *)

From S2P Require Import Prelude CommonData RLP RLPFacts FixedHash Codec.
Import Spec Decoder Stream.

Record Candidate : Type := mkCandidate {
  m_address : h160;
  m_value : Z
}.

#[export] Instance Candidate_eq_dec : EqDecision Candidate.
Proof. solve_decision. Defined.

(** [catch (DeserializeException e) { throw e; } catch (Exception e) { throw
    DeserializeException(..); }]. *)
Definition deserialize {A} (r : result A) : result A :=
  match r with
  | Ok a => Ok a
  | Throw e => Throw (if is_Exception e then DeserializeException else e)
  end.

(** [Candidate(bytesConstRef data)]. *)
Definition decodeCandidate (data : bytes) : result Candidate :=
  deserialize (
    _ ← make data VeryStrict;
    n ← (if isList data then itemCount data else Ok (-1));
    if isList data && (n =? 2) then
      f0 ← nth_item data 0; address ← toHash 20 f0 VeryStrict;
      f1 ← nth_item data 1; value ← toInt_u64 f1;
      Ok (mkCandidate address value)
    else Throw DeserializeException).

Definition candidate_streamRLP (c : Candidate) (st : RLPStream) : result RLPStream :=
  appendList 2 st ≫= chain [appendHash (m_address c); appendInt (m_value c)].

Definition candidate_getRLPData (c : Candidate) : result bytes := run (candidate_streamRLP c).

(** [m_candidateVector]. *)
Definition Ballot : Type := list Candidate.

(** [Ballot(bytesConstRef data)]. *)
Definition decode (data : bytes) : result Ballot :=
  deserialize (
    _ ← make data VeryStrict;
    n ← (if isList data then itemCount data else Ok (-1));
    if isList data && (0 <? n) then read_from decodeCandidate (Z.to_nat n) data 0 n
    else Throw DeserializeException).

(** [operator=]: the candidates are appended to those already there. *)
Definition assign (this ballot : Ballot) : Ballot := this ++ ballot.

Definition put (address : h160) (value : Z) (b : Ballot) : Ballot := b ++ [mkCandidate address value].

Definition streamRLP (b : Ballot) (st : RLPStream) : result RLPStream :=
  raws ← result_map candidate_getRLPData b;
  appendList (zlen b) st ≫= chain (map (fun r => appendRaw r 1) raws).

Definition getRLPData (b : Ballot) : result bytes := run (streamRLP b).

(** ** The codec *)

Definition candidate_fields (c : Candidate) : list bytes :=
  [enc_str (vec_to_list (m_address c)); enc_int (m_value c)].
Definition enc_candidate (c : Candidate) : bytes := enc_list (candidate_fields c).

Section CandidateFacts.
Context (c : Candidate) (Hv : is_u64 (m_value c)).

Lemma candidate_fit : fits (concat (candidate_fields c)).
Proof. unfold candidate_fields. solve_fits. Qed.

Lemma candidate_wf : Forall wf_item (candidate_fields c).
Proof. unfold candidate_fields. solve_fields. Qed.

Lemma zlen_enc_candidate : zlen (enc_candidate c) <= 100.
Proof.
  unfold enc_candidate, enc_list. rewrite zlen_app.
  pose proof (zlen_header 192 (zlen (concat (candidate_fields c)))) as Hh.
  pose proof (zlen_nonneg (concat (candidate_fields c))).
  assert (zlen (concat (candidate_fields c)) <= 70); [|lia].
  unfold candidate_fields. cbn [concat]. rewrite ?zlen_app, ?(@zlen_nil byte). bound_fields. lia.
Qed.

Lemma candidate_enc : candidate_getRLPData c = Ok (enc_candidate c).
Proof. apply run_list; [done|apply candidate_fit|]. unfold candidate_fields. solve_fields. Qed.

Lemma decodeCandidate_enc : decodeCandidate (enc_candidate c) = Ok c.
Proof.
  pose proof candidate_fit. pose proof candidate_wf. unfold decodeCandidate, enc_candidate. read_fields.
  change (2 =? 2) with true. read_fields. by destruct c.
Qed.
End CandidateFacts.

Definition valid (b : Ballot) : Prop :=
  Forall (fun c => is_u64 (m_value c)) b /\ zlen b < 2 ^ 40.

Section Facts.
Context (b : Ballot) (Hv : valid b).

Lemma ballot_fit : fits (concat (map enc_candidate b)).
Proof.
  destruct Hv as [Hc Hl]. unfold fits.
  assert (zlen (concat (map enc_candidate b)) <= 100 * zlen (map enc_candidate b)) as H.
  { apply zlen_concat_le, Forall_fmap. eapply Forall_impl; [exact Hc|]. intros c. apply zlen_enc_candidate. }
  replace (zlen (map enc_candidate b)) with (zlen b) in H by (unfold zlen; by rewrite length_map). lia.
Qed.

Lemma ballot_wf : Forall wf_item (map enc_candidate b).
Proof.
  destruct Hv as [Hc _]. apply Forall_fmap. eapply Forall_impl; [exact Hc|].
  intros c Hcv. by apply wf_enc_list, candidate_fit.
Qed.

Lemma ballot_getRLPData_enc : getRLPData b = Ok (enc_list (map enc_candidate b)).
Proof.
  destruct Hv as [Hc _]. unfold getRLPData, streamRLP. rewrite (result_map_ok _ enc_candidate).
  2: { intros c Hin. apply candidate_enc. by eapply Forall_forall in Hc. }
  cbn [mbind result_bind]. apply run_list; [by rewrite length_map|apply ballot_fit|].
  clear. induction b; cbn; constructor; auto using writes_raw.
Qed.

Lemma ballot_decode_enc : b <> [] -> decode (enc_list (map enc_candidate b)) = Ok b.
Proof.
  intros Hne. pose proof ballot_fit as Hf. pose proof ballot_wf as Hwf. destruct Hv as [Hc Hl].
  unfold decode. rewrite make_enc_list, isList_enc, itemCount_list by done. cbn [mbind result_bind andb].
  rewrite length_map. rewrite (proj2 (Z.ltb_lt _ _)) by (destruct b; [done|cbn; lia]).
  pose proof (read_from_ok decodeCandidate enc_candidate [] b (Z.to_nat (zlen b))) as HR. cbn [app] in HR.
  replace (zlen (map enc_candidate b)) with (zlen b) in HR by (unfold zlen; by rewrite length_map).
  change (zlen (@nil bytes)) with 0 in HR. change (Z.of_nat (Datatypes.length b)) with (zlen b).
  rewrite HR; [done|done|done| |rewrite length_map; unfold zlen in Hl; lia|unfold zlen; lia].
  intros c Hin. apply decodeCandidate_enc. by eapply Forall_forall in Hc.
Qed.
End Facts.

(** A non-empty ballot is read back unchanged, in its order and with its
    duplicate candidates. *)
Theorem ballot_roundtrip (b : Ballot) (Hv : valid b) (Hne : b <> []) :
  exists d, getRLPData b = Ok d /\ decode d = Ok b.
Proof. exists (enc_list (map enc_candidate b)). split; [by apply ballot_getRLPData_enc|by apply ballot_decode_enc]. Qed.

Lemma ballot_roundtrip_witness :
  let b := put (zero_hash 20) 3 (put (zero_hash 20) 4 []) in
  exists d, getRLPData b = Ok d /\ decode d = Ok b.
Proof.
  apply ballot_roundtrip; [|discriminate]. split; [|vm_compute; reflexivity].
  repeat constructor; vm_compute; congruence.
Defined.

(** ** Exceptions *)

Lemma deserialize_throws {A} (r : result A) :
  throws (fun e => is_Exception e || is_GSException e) r -> throws is_GSException (deserialize r).
Proof.
  intros Hr e He. destruct r as [a|e']; [done|]. cbn in He. injection He as <-. specialize (Hr e' eq_refl).
  cbv beta in Hr. by destruct (is_Exception e').
Qed.

Lemma core_or_gs {A} (r : result A) : throws is_Exception r -> throws (fun e => is_Exception e || is_GSException e) r.
Proof. apply throws_weaken. by intros e ->. Qed.
#[local] Hint Resolve core_or_gs : throws.

Lemma decodeCandidate_throws data : throws is_GSException (decodeCandidate data).
Proof. unfold decodeCandidate, toInt_u64. apply deserialize_throws. auto 20 with throws. Qed.

(** A malformed ballot is a [GSException]. *)
Lemma ballot_decode_throws data : throws is_GSException (decode data).
Proof.
  unfold decode. apply deserialize_throws. apply throws_bind; [auto with throws|]. intros _.
  apply throws_bind; [auto with throws|]. intros n. apply throws_if; [|auto with throws].
  apply read_from_throws; [by intros e ->|]. intros it. eapply throws_weaken; [|apply decodeCandidate_throws].
  intros e He. by rewrite He, orb_true_r.
Qed.
