(* ===== verification/TransactionReceipt.v ===== *)
(** * Transaction receipts: core/TransactionReceipt.{h,cpp}

    A receipt is either a status code or a state root. *)

From S2P Require Import Prelude CommonData RLP RLPFacts FixedHash Codec.
Import BigEndian Spec Decoder Stream.

Definition TRANSACTION_RECEIPT_FIELDS : Z := 1.

(** [m_isCode] with the field it selects. *)
Inductive TransactionReceipt : Type :=
  | ReceiptCode (m_receiptCode : Z)
  | StateRoot (m_stateRoot : h256).

#[export] Instance TransactionReceipt_eq_dec : EqDecision TransactionReceipt.
Proof. solve_decision. Defined.

(** [RLP::size()]. *)
Definition rlp_size (m : bytes) : result Z := if isData m then Decoder.length m else Ok 0.

(** [TransactionReceipt(bytesConstRef data)]: an item of four bytes is a code,
    any other is read as a state root, at index 1. *)
Definition decode (data : bytes) : result TransactionReceipt :=
  rethrow (
    _ ← make data VeryStrict;
    n ← (if isList data then itemCount data else Ok (-1));
    if isList data && (n =? TRANSACTION_RECEIPT_FIELDS) then
      f0 ← nth_item data 0;
      sz ← rlp_size f0;
      if sz =? 4 then c ← toInt_u32 f0; Ok (ReceiptCode c)
      else f1 ← nth_item data 1; h ← toHash 32 f1 Strict; Ok (StateRoot h)
    else Throw RangeError).

Definition hasReceiptCode (r : TransactionReceipt) : bool :=
  match r with ReceiptCode _ => true | StateRoot _ => false end.

Definition streamRLP (r : TransactionReceipt) (st : RLPStream) : result RLPStream :=
  appendList TRANSACTION_RECEIPT_FIELDS st ≫= chain
    [match r with
     | ReceiptCode c => appendInt c
     | StateRoot h => appendHash h
     end].

Definition getRLPData (r : TransactionReceipt) : result bytes := run (streamRLP r).

Definition valid (r : TransactionReceipt) : Prop :=
  match r with ReceiptCode c => is_u32 c | StateRoot _ => True end.

Definition enc_receipt (r : TransactionReceipt) : bytes :=
  match r with
  | ReceiptCode c => enc_int c
  | StateRoot h => enc_str (vec_to_list h)
  end.

Section Facts.
Context (r : TransactionReceipt) (Hv : valid r).

Lemma receipt_wf : wf_item (enc_receipt r).
Proof. destruct r; cbn in *; auto with codec. Qed.

Lemma receipt_fit : fits (concat [enc_receipt r]).
Proof. destruct r; cbn [valid enc_receipt] in *; solve_fits. Qed.

Lemma receipt_getRLPData_enc : getRLPData r = Ok (enc_list [enc_receipt r]).
Proof. apply run_list; [done|apply receipt_fit|]. destruct r; cbn [valid enc_receipt] in *; solve_fields. Qed.

Lemma rlp_size_enc b : fits b -> rlp_size (enc_str b) = Ok (zlen b).
Proof.
  intros Hf. destruct (str_view b [] Hf) as (_ & _ & Hd & _ & Hl & _). rewrite app_nil_r in *.
  unfold rlp_size. by rewrite Hd.
Qed.
End Facts.

Lemma nth_item_past es i :
  Forall wf_item es -> fits (concat es) -> (List.length es <= i)%nat -> Z.of_nat i < 2 ^ 64 - 1 ->
  nth_item (enc_list es) (Z.of_nat i) = Ok [].
Proof.
  intros Hwf Hf Hi Hb. destruct (index_ok es (fresh (enc_list es)) i) as (r' & Hr & _); [done..|apply fresh_cache_ok|done|].
  unfold nth_item. rewrite Hr. cbn. by rewrite nth_overflow.
Qed.

(** What the decoder reads of what the encoder writes: a code of four bytes. *)
Definition readable (r : TransactionReceipt) : bool :=
  match r with ReceiptCode c => 2 ^ 24 <=? c | StateRoot _ => false end.

Lemma receipt_decode_enc r : valid r -> decode (enc_list [enc_receipt r]) = if readable r then Ok r else Throw CoreException.
Proof.
  intros Hv. pose proof (receipt_fit r Hv) as Hf. assert (Forall wf_item [enc_receipt r]) as Hw by (repeat constructor; by apply receipt_wf).
  assert (nth_item (enc_list [enc_receipt r]) 1 = Ok []) as H1 by (apply (nth_item_past _ 1); cbn; done || lia).
  unfold decode. read_fields. change (1 =? TRANSACTION_RECEIPT_FIELDS) with true. read_fields. rewrite H1.
  destruct r as [c|h]; cbn [valid enc_receipt readable] in *.
  - change (rlp_size (enc_int c)) with (rlp_size (enc_str (toCompactBigEndian c 0))). pose proof (zlen_compact c ltac:(range)) as Hz.
    assert (bytesRequired c <= 4) as Hb by (apply bytesRequired_le; range).
    rewrite rlp_size_enc by (unfold fits; lia). cbn [mbind result_bind]. rewrite Hz.
    destruct (Z.leb_spec (2 ^ 24) c) as [Hc|Hc].
    + rewrite (bytesRequired_unique c 4) by range. change (4 =? 4) with true. cbv iota. by rewrite toInt_u32_int.
    + rewrite (proj2 (Z.eqb_neq (bytesRequired c) 4)); [reflexivity|].
      assert (bytesRequired c <= 3); [|lia]. apply bytesRequired_le; range.
  - rewrite rlp_size_enc by (unfold fits; rewrite zlen_vec; lia). cbn [mbind result_bind]. by rewrite zlen_vec.
Qed.

(** The receipt decoder accepts what the encoder wrote only for status
    codes of four significant bytes; a smaller code (every code below [2^24])
    and every state root make it throw, because it then reads a second item
    that the encoder never writes. *)
Theorem receipt_decodes_only_large_codes (r : TransactionReceipt) (Hv : valid r) :
  exists b, getRLPData r = Ok b /\
    decode b = match r with
               | ReceiptCode c => if 2 ^ 24 <=? c then Ok r else Throw CoreException
               | StateRoot _ => Throw CoreException
               end.
Proof.
  exists (enc_list [enc_receipt r]). split; [by apply receipt_getRLPData_enc|]. rewrite receipt_decode_enc by done. by destruct r.
Qed.

Lemma receipt_decodes_only_large_codes_witness :
  exists b, getRLPData (ReceiptCode 1) = Ok b /\
    decode b = if 2 ^ 24 <=? 1 then Ok (ReceiptCode 1) else Throw CoreException.
Proof. apply (receipt_decodes_only_large_codes (ReceiptCode 1)). cbn. range. Defined.
