(* ===== verification/BlockHeader.v ===== *)
(** * Block headers: class BlockHeader of core/Block.{h,cpp}

    The header with its codec, its hash and its signature
    ([SignatureStruct] of crypto/Common.h). *)

From S2P Require Import Prelude CommonData RLP RLPFacts FixedHash Codec SHA3.
Import BigEndian Spec Decoder Stream.

Definition BLOCK_HEADER_FIELDS_WITHOUT_SIG : Z := 9.
Definition BLOCK_HEADER_FIELDS_ALL : Z := 9 + 3.

Record SignatureStruct : Type := mkSignature {
  sig_r : h256;
  sig_s : h256;
  sig_v : Z
}.

#[export] Instance SignatureStruct_eq_dec : EqDecision SignatureStruct.
Proof. solve_decision. Defined.

(** [Signature] to [SignatureStruct]: 32 bytes, 32 bytes, one byte. *)
Definition sig_of_bytes (_s : h520) : SignatureStruct :=
  let l := vec_to_list _s in
  mkSignature (vec_of_bytes 32 (take 32 l)) (vec_of_bytes 32 (take 32 (drop 32 l))) (bval (nth 64 l Byte.x00)).

Definition sig_to_bytes (s : SignatureStruct) : h520 :=
  vec_of_bytes 65 (vec_to_list (sig_r s) ++ vec_to_list (sig_s s) ++ [byte_of (sig_v s)]).

Record BlockHeader : Type := mkHeader {
  m_chainID : Z;
  m_producer : h160;
  m_parentHash : h256;
  m_mklRoot : h256;
  m_transactionsRoot : h256;
  m_receiptRoot : h256;
  m_number : Z;
  m_timestamp : Z;
  m_extra : bytes;
  m_signature : SignatureStruct
}.

#[export] Instance BlockHeader_eq_dec : EqDecision BlockHeader.
Proof. solve_decision. Defined.

(** [operator==]: everything but the signature. *)
Definition header_eqb (a b : BlockHeader) : bool :=
  (m_chainID a =? m_chainID b) && hash_eqb (m_producer a) (m_producer b)
  && hash_eqb (m_parentHash a) (m_parentHash b) && hash_eqb (m_mklRoot a) (m_mklRoot b)
  && hash_eqb (m_transactionsRoot a) (m_transactionsRoot b) && hash_eqb (m_receiptRoot a) (m_receiptRoot b)
  && (m_number a =? m_number b) && (m_timestamp a =? m_timestamp b)
  && bool_decide (m_extra a = m_extra b).

(** [populate(data)], also the body of the decoding constructor: a list of
    another length leaves the header [h0] as it is. *)
Definition populate (data : bytes) (h0 : BlockHeader) : result BlockHeader :=
  rethrow (
    _ ← make data VeryStrict;
    n ← (if isList data then itemCount data else Ok (-1));
    if isList data && (n =? BLOCK_HEADER_FIELDS_ALL) then
      f0 ← nth_item data 0; chainID ← toInt_u64 f0;
      f1 ← nth_item data 1; producer ← toHash 20 f1 VeryStrict;
      f2 ← nth_item data 2; parentHash ← toHash 32 f2 VeryStrict;
      f3 ← nth_item data 3; mklRoot ← toHash 32 f3 VeryStrict;
      f4 ← nth_item data 4; transactionsRoot ← toHash 32 f4 VeryStrict;
      f5 ← nth_item data 5; receiptRoot ← toHash 32 f5 VeryStrict;
      f6 ← nth_item data 6; number ← toPositiveInt64 f6;
      f7 ← nth_item data 7; timestamp ← toInt_i64 f7;
      f8 ← nth_item data 8; extra ← toBytes f8 LaissezFaire;
      f9 ← nth_item data 9; v ← toInt_i32 f9;
      f10 ← nth_item data 10; r ← toInt_u256 f10;
      f11 ← nth_item data 11; s ← toInt_u256 f11;
      Ok (mkHeader chainID producer parentHash mklRoot transactionsRoot receiptRoot number timestamp extra
            (mkSignature (fromArith 32 r) (fromArith 32 s) (u8 v)))
    else Ok h0).

Definition streamRLP (h : BlockHeader) (st : RLPStream) : result RLPStream :=
  appendList BLOCK_HEADER_FIELDS_ALL st ≫= chain
    [appendInt (m_chainID h); appendHash (m_producer h); appendHash (m_parentHash h);
     appendHash (m_mklRoot h); appendHash (m_transactionsRoot h); appendHash (m_receiptRoot h);
     appendInt (m_number h); appendInt (m_timestamp h); Stream.append (m_extra h) false;
     appendInt (sig_v (m_signature h)); appendInt (toArith (sig_r (m_signature h)));
     appendInt (toArith (sig_s (m_signature h)))].

Definition streamRLPContent (h : BlockHeader) (st : RLPStream) : result RLPStream :=
  appendList BLOCK_HEADER_FIELDS_WITHOUT_SIG st ≫= chain
    [appendInt (m_chainID h); appendHash (m_producer h); appendHash (m_parentHash h);
     appendHash (m_mklRoot h); appendHash (m_transactionsRoot h); appendHash (m_receiptRoot h);
     appendInt (m_number h); appendInt (m_timestamp h); Stream.append (m_extra h) false].

Definition getRLPData (h : BlockHeader) : result bytes := run (streamRLP h).

Definition setRoots (mkl t r : h256) (h : BlockHeader) : BlockHeader :=
  mkHeader (m_chainID h) (m_producer h) (m_parentHash h) mkl t r (m_number h) (m_timestamp h)
    (m_extra h) (m_signature h).

Definition setSignature (sig : SignatureStruct) (h : BlockHeader) : BlockHeader :=
  mkHeader (m_chainID h) (m_producer h) (m_parentHash h) (m_mklRoot h) (m_transactionsRoot h)
    (m_receiptRoot h) (m_number h) (m_timestamp h) (m_extra h) sig.

(** [clear()]. *)
Definition clear : BlockHeader :=
  mkHeader 0 (zero_hash 20) (zero_hash 32) (zero_hash 32) (zero_hash 32) (zero_hash 32) 0 0 []
    (mkSignature (zero_hash 32) (zero_hash 32) 0).

Section Crypto.
Variable crypto_sign : h256 -> h256 -> h520.
Variable sig_isValid : SignatureStruct -> bool.

Definition getHash (h : BlockHeader) : result h256 :=
  o ← run (streamRLPContent h); Ok (sha3 o).

Definition getKey (h : BlockHeader) : result bytes :=
  o ← run (streamRLPContent h); Ok (vec_to_list (sha3 o)).

Definition sign (priv : h256) (h : BlockHeader) : result BlockHeader :=
  hash ← getHash h;
  let sig := sig_of_bytes (crypto_sign priv hash) in
  Ok (if sig_isValid sig then setSignature sig h else h).
End Crypto.

(** ** The codec *)

Record valid (h : BlockHeader) : Prop := {
  valid_chainID : is_u64 (m_chainID h);
  valid_number : 0 <= m_number h < 2 ^ 63;
  valid_timestamp : 0 <= m_timestamp h < 2 ^ 63;
  valid_extra : zlen (m_extra h) < 2 ^ 40;
  valid_v : is_u8 (sig_v (m_signature h))
}.

Definition content_fields (h : BlockHeader) : list bytes :=
  [enc_int (m_chainID h); enc_str (vec_to_list (m_producer h)); enc_str (vec_to_list (m_parentHash h));
   enc_str (vec_to_list (m_mklRoot h)); enc_str (vec_to_list (m_transactionsRoot h));
   enc_str (vec_to_list (m_receiptRoot h)); enc_int (m_number h); enc_int (m_timestamp h); enc_str (m_extra h)].

Definition fields (h : BlockHeader) : list bytes :=
  content_fields h ++ [enc_int (sig_v (m_signature h)); enc_int (toArith (sig_r (m_signature h)));
                       enc_int (toArith (sig_s (m_signature h)))].

Lemma toArith_range (x : h256) : 0 <= toArith x < 2 ^ 256.
Proof.
  rewrite toArith_val. pose proof (be_val_range (vec_to_list x)) as H. rewrite zlen_vec in H.
  change (2 ^ 256) with (256 ^ 32). exact H.
Qed.

Lemma fromArith_toArith N (x : vec byte N) : fromArith N (toArith x) = x.
Proof.
  rewrite toArith_val. unfold fromArith. pose proof (toBigEndian_be_val (vec_to_list x)) as H.
  rewrite length_vec_to_list in H. rewrite H. apply vec_of_bytes_to_list.
Qed.

Section Facts.
Context (h : BlockHeader) (Hv : valid h).

Lemma header_fields_len : zlen (concat (fields h)) <= 2 ^ 41.
Proof.
  destruct Hv. pose proof (toArith_range (sig_r (m_signature h))). pose proof (toArith_range (sig_s (m_signature h))).
  unfold fields, content_fields. cbn [app concat]. rewrite ?zlen_app, ?(@zlen_nil byte). bound_fields. lia.
Qed.

Lemma header_fields_fit : fits (concat (fields h)).
Proof. pose proof header_fields_len. unfold fits. lia. Qed.

Lemma header_content_fit : fits (concat (content_fields h)).
Proof. destruct Hv. unfold content_fields. solve_fits. Qed.

Lemma header_fields_wf : Forall wf_item (fields h).
Proof.
  destruct Hv. pose proof (toArith_range (sig_r (m_signature h))). pose proof (toArith_range (sig_s (m_signature h))).
  unfold fields, content_fields. cbn [app]. solve_fields.
Qed.

Lemma header_getRLPData_enc : getRLPData h = Ok (enc_list (fields h)).
Proof.
  destruct Hv. pose proof (toArith_range (sig_r (m_signature h))). pose proof (toArith_range (sig_s (m_signature h))).
  apply run_list; [done|apply header_fields_fit|]. unfold fields, content_fields. cbn [app]. solve_fields.
Qed.

Lemma header_content_enc : run (streamRLPContent h) = Ok (enc_list (content_fields h)).
Proof. destruct Hv. apply run_list; [done|apply header_content_fit|]. unfold content_fields. solve_fields. Qed.

Lemma header_populate_enc h0 : populate (enc_list (fields h)) h0 = Ok h.
Proof.
  pose proof header_fields_fit. pose proof header_fields_wf. destruct Hv.
  pose proof (toArith_range (sig_r (m_signature h))). pose proof (toArith_range (sig_s (m_signature h))).
  unfold populate. read_fields. change (12 =? BLOCK_HEADER_FIELDS_ALL) with true. read_fields.
  rewrite !fromArith_toArith, u8_small by range. by destruct h as [? ? ? ? ? ? ? ? ? []].
Qed.
End Facts.
