(* ===== verification/Trie.v ===== *)
(** * Merkle root and Patricia trie root: trie/Trie.cpp, trie/TrieBase.{h,cpp}

    The binary Merkle tree over transaction hashes ([merkle]), the hex-prefix
    encoding of nibble paths with its readers, and the recursive
    [hash256rlp]/[hash256aux] that give the root of a Patricia trie. *)

From S2P Require Import Prelude CommonData RLP RLPFacts FixedHash SHA3 Codec.
Import VectorRef BigEndian Hex Spec Decoder Stream.

(** ** The Merkle tree *)

Definition makeTrieLeft (value : h256) : h256 := unsetFirstBit value.
Definition makeTrieRight (value : h256) : h256 := setFirstBit value.
Definition isTrieLeft (value : h256) : bool := checkFirstBit value =? 0.
Definition isTrieRight (value : h256) : bool := negb (checkFirstBit value =? 0).

(** [sha3(makeTriePair(l, r))]. *)
Definition pair_hash (l r : h256) : h256 := sha3_pair (makeTrieLeft l) (makeTrieRight r).

Section Merkle.
Variable node : h256 -> h256 -> h256.

Definition id_at (ids : list h256) (i : nat) : h256 := nth i ids (zero_hash 32).

(** [for (i = 0; i < ids.size() / 2; i++) ids[i] = node(ids[2i], ids[2i+1]);],
    in place. *)
Fixpoint merkle_pass (n i : nat) (ids : list h256) : list h256 :=
  match n with
  | O => ids
  | S n' => merkle_pass n' (S i) (<[i := node (id_at ids (2 * i)) (id_at ids (2 * i + 1))]> ids)
  end.

(** One round of the [while] loop. *)
Definition merkle_round (ids : list h256) : list h256 :=
  let ids := if Nat.odd (Datatypes.length ids) then ids ++ [List.last ids (zero_hash 32)] else ids in
  let half := (Datatypes.length ids / 2)%nat in
  take half (merkle_pass half 0 ids).

(** [while (ids.size() > 1)]; each round shortens the list, so its length is
    enough fuel. *)
Fixpoint merkle_loop (fuel : nat) (ids : list h256) : list h256 :=
  match fuel with
  | O => ids
  | S f => if (1 <? Datatypes.length ids)%nat then merkle_loop f (merkle_round ids) else ids
  end.

Definition merkle_with (ids : list h256) : h256 :=
  match ids with
  | [] => zero_hash 32
  | _ => id_at (merkle_loop (Datatypes.length ids) ids) 0
  end.
End Merkle.

Definition merkle (ids : list h256) : h256 := merkle_with pair_hash ids.

(** ** Hex-prefix encoding *)

Fixpoint pack_pairs (ns : bytes) : bytes :=
  match ns with
  | a :: b :: r => byte_of (bval a * 16 + bval b) :: pack_pairs r
  | [a] => [byte_of (bval a * 16)]
  | [] => []
  end.

(** [hexPrefixEncode(bytes const& _hexVector, bool _leaf, int _begin, int _end)]. *)
Definition hexPrefixEncode (_hexVector : bytes) (_leaf : bool) (_begin _end : Z) : bytes :=
  let end_ := if _end <? 0 then zlen _hexVector + 1 + _end else _end in
  let odd := negb ((end_ - _begin) mod 2 =? 0) in
  let ns := drop (Z.to_nat _begin) (take (Z.to_nat end_) _hexVector) in
  let flags := Z.lor (if _leaf then 2 else 0) (if odd then 1 else 0) * 16 in
  match odd, ns with
  | true, n :: ns' => byte_of (Z.lor flags (bval n)) :: pack_pairs ns'
  | _, _ => byte_of flags :: pack_pairs ns
  end.

(** [nibble(_data, _i)]. *)
Definition nibble (_data : bytes) (_i : nat) : Z :=
  let b := bval (nth (_i / 2) _data Byte.x00) in
  if Nat.odd _i then Z.land b 15 else Z.shiftr b 4.

(** [NibbleSlice]: a byte string and an offset in nibbles. *)
Record NibbleSlice : Type := mkSlice {
  ns_data : bytes;
  ns_offset : nat
}.

Definition slice_size (s : NibbleSlice) : nat := (Datatypes.length (ns_data s) * 2 - ns_offset s)%nat.
Definition slice_at (s : NibbleSlice) (i : nat) : Z := nibble (ns_data s) (ns_offset s + i).

(** [keyOf(bytesConstRef _hpe)]. *)
Definition keyOf (_hpe : bytes) : NibbleSlice :=
  match _hpe with
  | [] => mkSlice [] 0
  | b :: _ => if negb (Z.land (bval b) 0x10 =? 0) then mkSlice _hpe 1 else mkSlice _hpe 2
  end.

(** The flag test of [isLeaf], on the payload of the first item. *)
Definition hpe_isLeaf (pl : bytes) : bool := negb (Z.land (bval (nth 0 pl Byte.x00)) 0x20 =? 0).

(** The nibbles of a slice. *)
Definition slice_list (s : NibbleSlice) : list Z := map (slice_at s) (seq 0 (slice_size s)).

(** ** The Patricia trie *)

Definition entry : Type := bytes * bytes.

(** [for (; shared < x && _begin->first[shared] == i->first[shared]; ++shared) {}]. *)
Fixpoint shared_loop (fuel : nat) (a b : bytes) (shared x : Z) : Z :=
  match fuel with
  | O => shared
  | S f =>
      if (shared <? x) && (at_ a shared =? at_ b shared) then shared_loop f a b (shared + 1) x else shared
  end.

(** The loop that finds [sharedPre]; it stops at zero. *)
Fixpoint shared_pre (first : bytes) (preLen sharedPre : Z) (rest : list entry) : Z :=
  match rest with
  | [] => sharedPre
  | (k, _) :: rest' =>
      if sharedPre =? 0 then sharedPre
      else
        let x := Z.min sharedPre (Z.min (zlen first) (zlen k)) in
        let shared := shared_loop (Z.to_nat (x - preLen)) first k preLen x in
        shared_pre first preLen (Z.min shared sharedPre) rest'
  end.

(** [for (; n != _end && n->first[_preLen] == i; ++n) {}]: the entries whose
    next nibble is [i], and the rest. *)
Fixpoint span_nibble (preLen i : Z) (s : list entry) : list entry * list entry :=
  match s with
  | (k, v) :: s' =>
      if at_ k preLen =? i then
        let '(a, b) := span_nibble preLen i s' in ((k, v) :: a, b)
      else ([], s)
  | [] => ([], [])
  end.

(** The 16 branches, in order. *)
Fixpoint branches (n : nat) (preLen i : Z) (b : list entry) (aux : list entry -> RLPStream -> result RLPStream)
    (st : RLPStream) : result RLPStream :=
  match n with
  | O => Ok st
  | S n' =>
      let '(here, rest) := span_nibble preLen i b in
      st' ← (match here with
             | [] => Stream.append [] false st
             | _ => aux here st
             end);
      branches n' preLen (i + 1) rest aux st'
  end.

(** [hash256aux] around a given [hash256rlp]. *)
Definition hash256aux_with (rlp256 : list entry -> Z -> RLPStream -> result RLPStream)
    (s : list entry) (_preLen : Z) (_rlp : RLPStream) : result RLPStream :=
  o ← run (rlp256 s _preLen);
  if zlen o <? 32 then appendRaw o 1 _rlp else appendHash (sha3 o) _rlp.

(** [hash256rlp(_s, _begin, _end, _preLen, _rlp)]; the range is the list of
    its entries. Every recursive call has a longer prefix, so the fuel is
    bounded by the longest key. *)
Fixpoint hash256rlp (fuel : nat) (s : list entry) (_preLen : Z) (_rlp : RLPStream) : result RLPStream :=
  match fuel with
  | O => Throw RLPException
  | S f =>
      match s with
      | [] => Stream.append [] false _rlp
      | [(k, v)] =>
          appendList 2 _rlp ≫= chain [Stream.append (hexPrefixEncode k true _preLen (-1)) false; Stream.append v false]
      | (k, v) :: rest =>
          let sharedPre := shared_pre k _preLen (2 ^ 32 - 1) rest in
          if _preLen <? sharedPre then
            st ← appendList 2 _rlp;
            st ← Stream.append (hexPrefixEncode k false _preLen (i32 sharedPre)) false st;
            hash256aux_with (hash256rlp f) s sharedPre st
          else
            st ← appendList 17 _rlp;
            st ← branches 16 _preLen 0 (if _preLen =? zlen k then rest else s)
                   (fun here => hash256aux_with (hash256rlp f) here (_preLen + 1)) st;
            if _preLen =? zlen k then Stream.append v false st else Stream.append [] false st
      end
  end.

(** ** Byte-keyed maps *)

(** [std::vector<byte>::operator<]. *)
Fixpoint lex_leb (a b : bytes) : bool :=
  match a, b with
  | [], _ => true
  | _ :: _, [] => false
  | x :: a', y :: b' => if bval x <? bval y then true else if bval y <? bval x then false else lex_leb a' b'
  end.

Definition lex_le (p q : entry) : Prop := lex_leb (fst p) (fst q) = true.

#[export] Instance lex_le_dec : RelDecision lex_le.
Proof. intros p q. unfold lex_le. apply _. Defined.

Definition bytes_entries (m : gmap bytes bytes) : list entry := merge_sort lex_le (map_to_list m).

Definition max_key (s : list entry) : nat := fold_right (fun e n => Nat.max (Datatypes.length (fst e)) n) 0%nat s.

(** [trieRLP256(bytesMap)]. *)
Definition trieRLP256 (bytesMap : gmap bytes bytes) : result bytes :=
  match bytes_entries bytesMap with
  | [] => run (Stream.append [] false)
  | es =>
      let hexMap : gmap bytes bytes :=
        fold_left (fun m e => <[asNibbles (fst e) := snd e]> m) (rev es) ∅ in
      let s := bytes_entries hexMap in
      run (hash256rlp (max_key s + 2) s 0)
  end.

(** [trieHash256(bytesMap)]. *)
Definition trieHash256 (bytesMap : gmap bytes bytes) : result h256 :=
  o ← trieRLP256 bytesMap; Ok (sha3 o).

(** ** The Merkle tree: facts *)

Section MerkleFacts.
Variable node : h256 -> h256 -> h256.
Local Abbreviation len := Datatypes.length.

(** The level above, and the padding of an odd level. *)
Fixpoint pair_up (ids : list h256) : list h256 :=
  match ids with
  | a :: b :: r => node a b :: pair_up r
  | _ => []
  end.

Definition pad_odd (ids : list h256) : list h256 :=
  if Nat.odd (len ids) then ids ++ [List.last ids (zero_hash 32)] else ids.

Lemma pair_up_ind (P : list h256 -> Prop) :
  P [] -> (forall a, P [a]) -> (forall a b r, P r -> P (a :: b :: r)) -> forall l, P l.
Proof.
  intros H0 H1 H2. fix go 1. intros [|a [|b r]]; [apply H0|apply H1|apply H2, go].
Qed.

Lemma length_pair_up ids : len (pair_up ids) = (len ids / 2)%nat.
Proof.
  induction ids as [|a|a b r IH] using pair_up_ind; [done|done|]. cbn [pair_up len]. rewrite IH.
  replace (S (S (len r))) with (len r + 1 * 2)%nat by lia. rewrite Nat.div_add by lia. lia.
Qed.

Lemma pair_up_lookup ids j :
  (j < len ids / 2)%nat -> pair_up ids !! j = Some (node (id_at ids (2 * j)) (id_at ids (2 * j + 1))).
Proof.
  revert j. induction ids as [|a|a b r IH] using pair_up_ind; intros j Hj; [cbn in Hj; lia|cbn in Hj; lia|].
  cbn [pair_up]. destruct j as [|j]; [done|]. cbn [lookup list_lookup].
  cbn [len] in Hj. replace (S (S (len r))) with (len r + 1 * 2)%nat in Hj by lia. rewrite Nat.div_add in Hj by lia.
  change (list_lookup j (pair_up r)) with (pair_up r !! j). rewrite IH by lia.
  unfold id_at. replace (2 * S j)%nat with (S (S (2 * j))) by lia. done.
Qed.

Lemma merkle_pass_spec orig n i ids :
  (i + n = len orig / 2)%nat -> len ids = len orig ->
  (forall j, (i <= j)%nat -> id_at ids j = id_at orig j) ->
  (forall j, (j < i)%nat -> ids !! j = pair_up orig !! j) ->
  forall j, (j < len orig / 2)%nat -> merkle_pass node n i ids !! j = pair_up orig !! j.
Proof.
  revert i ids. induction n as [|n IH]; intros i ids Hn Hlen Hhi Hlo j Hj; cbn [merkle_pass].
  - apply Hlo. lia.
  - pose proof (Nat.Div0.mul_div_le (len orig) 2).
    apply (IH (S i)); [lia|by rewrite length_insert| | |done].
    + intros k Hk. generalize (node (id_at ids (2 * i)) (id_at ids (2 * i + 1))). intros w.
      rewrite <- (Hhi k) by lia. unfold id_at. rewrite !nth_lookup. by rewrite list_lookup_insert_ne by lia.
    + intros k Hk. destruct (decide (k = i)) as [->|].
      * rewrite list_lookup_insert_eq by lia. rewrite pair_up_lookup by lia. by rewrite !Hhi by lia.
      * rewrite list_lookup_insert_ne by lia. apply Hlo. lia.
Qed.

Lemma length_merkle_pass n i ids : len (merkle_pass node n i ids) = len ids.
Proof. revert i ids. induction n as [|n IH]; intros i ids; cbn; [done|]. by rewrite IH, length_insert. Qed.

(** The in-place pass computes the level above. *)
Lemma merkle_round_spec ids : merkle_round node ids = pair_up (pad_odd ids).
Proof.
  unfold merkle_round. change (if Nat.odd (len ids) then _ else ids) with (pad_odd ids).
  set (orig := pad_odd ids). apply list_eq. intros j.
  pose proof (Nat.Div0.mul_div_le (len orig) 2).
  destruct (decide (j < len orig / 2)%nat) as [Hj|Hj].
  - rewrite lookup_take_lt by done. apply merkle_pass_spec; try done; lia.
  - rewrite lookup_take_ge by lia. symmetry. apply lookup_ge_None. rewrite length_pair_up. lia.
Qed.

Lemma length_pad_odd ids : len (pad_odd ids) = (2 * ((len ids + 1) / 2))%nat.
Proof.
  unfold pad_odd. destruct (Nat.odd (len ids)) eqn:E.
  - apply Nat.odd_spec in E as [k Hk]. rewrite length_app, Hk. cbn [len].
    replace (2 * k + 1 + 1)%nat with ((k + 1) * 2)%nat by lia. rewrite Nat.div_mul; lia.
  - rewrite <- Nat.negb_even in E. apply negb_false_iff, Nat.even_spec in E as [k Hk]. rewrite Hk.
    replace (2 * k + 1)%nat with (1 + k * 2)%nat by lia. rewrite Nat.div_add by lia. cbn. lia.
Qed.

Lemma length_merkle_round ids : len (merkle_round node ids) = ((len ids + 1) / 2)%nat.
Proof.
  rewrite merkle_round_spec, length_pair_up, length_pad_odd.
  replace (2 * ((len ids + 1) / 2))%nat with ((len ids + 1) / 2 * 2)%nat by lia. apply Nat.div_mul. lia.
Qed.

Lemma half_lt n : (1 < n)%nat -> ((n + 1) / 2 < n)%nat.
Proof. intros Hn. apply Nat.Div0.div_lt_upper_bound. lia. Qed.

Lemma half_pos n : (1 < n)%nat -> (1 <= (n + 1) / 2)%nat.
Proof. intros Hn. apply Nat.div_le_lower_bound; lia. Qed.

Lemma merkle_loop_fuel f1 f2 ids :
  (len ids <= f1)%nat -> (len ids <= f2)%nat -> merkle_loop node f1 ids = merkle_loop node f2 ids.
Proof.
  revert f2 ids. induction f1 as [|f1 IH]; intros f2 ids H1 H2.
  - destruct ids; [|cbn in H1; lia]. by destruct f2.
  - destruct f2 as [|f2]; [destruct ids; [done|cbn in H2; lia]|]. cbn [merkle_loop].
    destruct (Nat.ltb_spec 1 (len ids)) as [Hlt|]; [|done].
    pose proof (half_lt _ Hlt). apply IH; rewrite length_merkle_round; lia.
Qed.

Lemma merkle_step ids : (1 < len ids)%nat -> merkle_with node ids = merkle_with node (pair_up (pad_odd ids)).
Proof.
  intros Hlen. rewrite <- merkle_round_spec. unfold merkle_with. destruct ids as [|x ids]; [cbn in Hlen; lia|].
  pose proof (length_merkle_round (x :: ids)) as Hr. pose proof (half_lt _ Hlen). pose proof (half_pos _ Hlen).
  assert (1 <= len (merkle_round node (x :: ids)))%nat as Hr1 by lia.
  destruct (merkle_round node (x :: ids)) as [|y ys] eqn:E; [cbn in Hr1; lia|]. rewrite <- E in *.
  change (len (x :: ids)) with (S (len ids)) at 1. cbn [merkle_loop].
  rewrite (proj2 (Nat.ltb_lt _ _)) by done. f_equal. apply merkle_loop_fuel; [|lia]. cbn [len] in *. lia.
Qed.

Lemma merkle_dup_last ids :
  Nat.odd (len ids) = true -> (1 < len ids)%nat ->
  merkle_with node (ids ++ [List.last ids (zero_hash 32)]) = merkle_with node ids.
Proof.
  intros Ho Hl. rewrite merkle_step by (rewrite length_app; cbn; lia). rewrite (merkle_step ids) by done.
  do 2 f_equal. unfold pad_odd. rewrite Ho. rewrite length_app, Nat.add_1_r, Nat.odd_succ, <- Nat.negb_odd, Ho. done.
Qed.
End MerkleFacts.

(** ** Hex-prefix encoding: facts *)

Section HexPrefixFacts.
Local Abbreviation len := Datatypes.length.

Definition is_nibbles (v : bytes) : Prop := Forall (fun b => bval b < 16) v.

(** The nibbles of a byte string. *)
Definition nibs (d : bytes) : list Z := flat_map (fun b => [Z.shiftr (bval b) 4; Z.land (bval b) 15]) d.

Lemma length_nibs d : len (nibs d) = (2 * len d)%nat.
Proof. unfold nibs. induction d as [|b d IH]; [done|]. cbn [flat_map app len]. rewrite IH. lia. Qed.

Lemma nibs_nth d i : nth i (nibs d) 0 = nibble d i.
Proof.
  revert i. induction d as [|b d IH]; intros i.
  - unfold nibble. replace (nth (i / 2) [] Byte.x00) with Byte.x00 by (by destruct (i / 2)%nat).
    transitivity 0; [by destruct i|]. by destruct (Nat.odd i).
  - destruct i as [|[|i]]; [done|done|]. unfold nibs in *. cbn [flat_map app nth]. rewrite IH.
    unfold nibble. replace (S (S i) / 2)%nat with (S (i / 2)).
    2: { replace (S (S i)) with (i + 1 * 2)%nat by lia. rewrite Nat.div_add by lia. lia. }
    cbn [nth]. by rewrite Nat.odd_succ, Nat.even_succ.
Qed.

Lemma slice_list_nibs d o : (o <= 2 * len d)%nat -> slice_list (mkSlice d o) = drop o (nibs d).
Proof.
  intros Ho. apply nth_ext with (d := 0) (d' := 0); unfold slice_list, slice_size; cbn [ns_data ns_offset].
  - rewrite length_map, length_seq, length_drop, length_nibs. lia.
  - intros i Hi. rewrite length_map, length_seq in Hi.
    rewrite nth_indep with (d' := slice_at (mkSlice d o) 0) by (by rewrite length_map, length_seq).
    rewrite map_nth, seq_nth by done. unfold slice_at. cbn [ns_data ns_offset].
    rewrite !nth_lookup, lookup_drop, <- nth_lookup, nibs_nth. done.
Qed.

Lemma nibble_pair x y : 0 <= x < 16 -> 0 <= y < 16 ->
  Z.shiftr (bval (byte_of (x * 16 + y))) 4 = x /\ Z.land (bval (byte_of (x * 16 + y))) 15 = y.
Proof.
  intros Hx Hy. rewrite bval_byte_of_small by lia. change 15 with (Z.ones 4).
  rewrite Z.land_ones, Z.shiftr_div_pow2 by lia. change (2 ^ 4) with 16.
  split; symmetry; [apply (Z.div_unique _ _ _ y); lia|apply (Z.mod_unique _ _ x); lia].
Qed.

Lemma nibs_pack_pairs ns : is_nibbles ns -> Nat.even (len ns) = true -> nibs (pack_pairs ns) = map bval ns.
Proof.
  unfold is_nibbles, nibs. revert ns. fix IH 1. intros [|a [|b r]] Hn Hev; [done|done|].
  apply Forall_cons in Hn as [Ha Hn]. apply Forall_cons in Hn as [Hb Hn].
  pose proof (bval_range a). pose proof (bval_range b). cbn [pack_pairs flat_map app map].
  destruct (nibble_pair (bval a) (bval b)) as [-> ->]; [lia|lia|]. do 2 f_equal. by apply IH.
Qed.

(** The slice of the key and the leaf flag of an encoded path. *)
Lemma hexPrefix_even ns (leaf : bool) :
  is_nibbles ns -> Nat.even (len ns) = true ->
  let e := byte_of ((if leaf then 2 else 0) * 16) :: pack_pairs ns in
  slice_list (keyOf e) = map bval ns /\ hpe_isLeaf e = leaf.
Proof.
  intros Hn Hev. cbv zeta. split; [|by destruct leaf].
  rewrite <- (nibs_pack_pairs ns Hn Hev).
  assert (keyOf (byte_of ((if leaf then 2 else 0) * 16) :: pack_pairs ns) =
          mkSlice (byte_of ((if leaf then 2 else 0) * 16) :: pack_pairs ns) 2) as -> by (by destruct leaf).
  rewrite slice_list_nibs by (cbn; lia). done.
Qed.

Lemma hexPrefix_odd n ns (leaf : bool) :
  bval n < 16 -> is_nibbles ns -> Nat.even (len ns) = true ->
  let e := byte_of (Z.lor ((if leaf then 3 else 1) * 16) (bval n)) :: pack_pairs ns in
  slice_list (keyOf e) = bval n :: map bval ns /\ hpe_isLeaf e = leaf.
Proof.
  intros Hn0 Hn Hev. cbv zeta. pose proof (bval_range n).
  set (f := if leaf then 3 else 1). assert (f = 3 \/ f = 1) as Hf by (destruct leaf; auto).
  assert (Z.lor (f * 16) (bval n) = f * 16 + bval n) as ->.
  { rewrite <- Z.lxor_lor, <- Z.add_nocarry_lxor; [done| |].
    all: assert (bval n = Z.land (bval n) (Z.ones 4)) as -> by (rewrite Z.land_ones, Z.mod_small; lia).
    all: rewrite (Z.land_comm (bval n)), Z.land_assoc, Z.land_ones by lia; change (2 ^ 4) with 16; by rewrite Z.mod_mul. }
  destruct (nibble_pair f (bval n)) as [H1 H2]; [lia|lia|].
  set (b0 := byte_of (f * 16 + bval n)) in *.
  assert (bval b0 = f * 16 + bval n) as Hb0 by (apply bval_byte_of_small; lia).
  assert ((Z.land (bval b0) 0x10 =? 0) = false) as Hodd.
  { apply Z.eqb_neq. intros E. apply (f_equal (fun z => Z.testbit z 4)) in E.
    rewrite Z.land_spec, Z.bits_0 in E. change (Z.testbit 16 4) with true in E.
    assert (Z.testbit f 0 = true) as Hf0 by (destruct Hf as [->| ->]; done).
    rewrite <- H1, Z.shiftr_spec in Hf0 by lia. change (0 + 4) with 4 in Hf0. by rewrite Hf0 in E. }
  assert (hpe_isLeaf (b0 :: pack_pairs ns) = leaf) as Hleaf.
  { unfold hpe_isLeaf. cbn [nth]. destruct (Z.testbit (bval b0) 5) eqn:E5.
    - assert (Z.testbit f 1 = true) as Hf1 by (rewrite <- H1, Z.shiftr_spec by lia; exact E5).
      rewrite (proj2 (Z.eqb_neq _ _)). { unfold f in Hf1. by destruct leaf. }
      intros E. apply (f_equal (fun z => Z.testbit z 5)) in E. rewrite Z.land_spec, E5 in E. done.
    - assert (Z.testbit f 1 = false) as Hf1 by (rewrite <- H1, Z.shiftr_spec by lia; exact E5).
      rewrite (proj2 (Z.eqb_eq _ _)). { unfold f in Hf1. by destruct leaf. }
      apply Z.bits_inj'. intros k Hk. rewrite Z.land_spec, Z.bits_0. change 0x20 with (2 ^ 5).
      destruct (Z.eq_dec k 5) as [->|]; [by rewrite E5|]. by rewrite Z.pow2_bits_false, andb_false_r by lia. }
  split; [|exact Hleaf]. unfold keyOf. rewrite Hodd. cbn [negb]. rewrite slice_list_nibs by (cbn; lia).
  unfold nibs. cbn [flat_map app drop]. rewrite H2. f_equal. by apply nibs_pack_pairs.
Qed.

(** The encoding of the nibbles from [_begin] up to [_end]. *)
Lemma hexPrefixEncode_roundtrip v leaf b e :
  is_nibbles v -> 0 <= b <= e -> e <= zlen v ->
  let enc := hexPrefixEncode v leaf b e in
  slice_list (keyOf enc) = map bval (drop (Z.to_nat b) (take (Z.to_nat e) v)) /\ hpe_isLeaf enc = leaf.
Proof.
  intros Hv Hb He. unfold hexPrefixEncode. rewrite (proj2 (Z.ltb_ge e 0)) by lia.
  set (ns := drop (Z.to_nat b) (take (Z.to_nat e) v)).
  assert (is_nibbles ns) as Hns by (by apply Forall_drop, Forall_take).
  assert (Z.of_nat (len ns) = e - b) as Hlen.
  { unfold ns. rewrite length_drop, length_take. unfold zlen in He. lia. }
  pose proof (Z.mod_pos_bound (e - b) 2 ltac:(lia)). pose proof (Z.div_mod (e - b) 2 ltac:(lia)).
  destruct (Z.eqb_spec ((e - b) mod 2) 0) as [E|E]; cbn [negb].
  - assert (Nat.even (len ns) = true) as Hev by (apply Nat.even_spec; exists (Z.to_nat ((e - b) / 2)); lia).
    pose proof (hexPrefix_even ns leaf Hns Hev) as H1. by destruct leaf.
  - destruct ns as [|n ns'] eqn:En; [cbn in Hlen; rewrite <- Hlen in E; done|].
    apply Forall_cons in Hns as [Hn Hns].
    assert (Nat.even (len ns') = true) as Hev.
    { apply Nat.even_spec. exists (Z.to_nat ((e - b) / 2)). cbn [len] in Hlen. lia. }
    pose proof (hexPrefix_odd n ns' leaf Hn Hns Hev) as H1. by destruct leaf.
Qed.
End HexPrefixFacts.
