(* ===== verification/TrieFacts.v ===== *)
(** * The Patricia trie root is always computed

    [hash256rlp] recurses on ranges of a sorted map with growing prefixes.
    This file shows that the recursion ends within the fuel given by the
    longest key and that every list it opens on the stream is filled, so that
    [trieRLP256] and [trieHash256] return for every map; and states the
    properties of the Merkle root and of the hex-prefix paths. *)

From S2P Require Import Prelude CommonData RLP RLPFacts FixedHash SHA3 Codec Trie.
Import VectorRef BigEndian Hex Spec Decoder Stream.
Local Abbreviation len := Datatypes.length.

(** ** The order of byte strings *)

Lemma lex_leb_refl a : lex_leb a a = true.
Proof. induction a as [|x a IH]; [done|]. cbn. by rewrite Z.ltb_irrefl. Qed.

Lemma lex_leb_total a b : lex_leb a b = true \/ lex_leb b a = true.
Proof.
  revert b. induction a as [|x a IH]; intros [|y b]; cbn; auto.
  destruct (Z.ltb_spec (bval x) (bval y)); [auto|]. destruct (Z.ltb_spec (bval y) (bval x)); auto.
Qed.

Lemma lex_leb_trans a b c : lex_leb a b = true -> lex_leb b c = true -> lex_leb a c = true.
Proof.
  revert b c. induction a as [|x a IH]; intros [|y b] [|z c]; cbn; try done.
  destruct (Z.ltb_spec (bval x) (bval y)), (Z.ltb_spec (bval y) (bval x)),
    (Z.ltb_spec (bval y) (bval z)), (Z.ltb_spec (bval z) (bval y)),
    (Z.ltb_spec (bval x) (bval z)), (Z.ltb_spec (bval z) (bval x)); try done; try lia. apply IH.
Qed.

#[export] Instance lex_le_total : Total lex_le.
Proof. intros p q. apply lex_leb_total. Qed.

#[export] Instance lex_le_trans : Transitive lex_le.
Proof. intros p q r. apply lex_leb_trans. Qed.

(** A proper extension is not below its prefix. *)
Lemma lex_leb_prefix p x t : lex_leb (p ++ x :: t) p = false.
Proof. induction p as [|y p IH]; [done|]. cbn. by rewrite Z.ltb_irrefl. Qed.

(** ** Ranges of the sorted map *)

(** What holds of the range of a call with prefix length [p]: the keys are
    sorted, distinct and share their first [p] nibbles; sizes are bounded. *)
Record range_ok (p : nat) (s : list entry) : Prop := {
  ro_sorted : StronglySorted lex_le s;
  ro_nodup : NoDup (map fst s);
  ro_long : Forall (fun e => (p <= len (fst e))%nat) s;
  ro_shared : exists pre, Forall (fun e => take p (fst e) = pre) s;
  ro_key : Forall (fun e => zlen (fst e) < 2 ^ 30) s;
  ro_val : Forall (fun e => zlen (snd e) < 2 ^ 60) s
}.

Lemma Forall_sublist {A} (P : A -> Prop) l k : sublist l k -> Forall P k -> Forall P l.
Proof.
  induction 1; intros HP; [done|apply Forall_cons in HP as []..]; [constructor|]; auto.
Qed.

Lemma StronglySorted_sublist {A} (R : A -> A -> Prop) l k : sublist l k -> StronglySorted R k -> StronglySorted R l.
Proof.
  intros Hs Hk. induction Hs as [|x l k Hs IH|x l k Hs IH]; [constructor| |].
  - apply StronglySorted_inv in Hk as [Hk Hx]. constructor; [by apply IH|]. by eapply Forall_sublist.
  - apply StronglySorted_inv in Hk as [Hk _]. by apply IH.
Qed.

Lemma max_key_sublist l k : sublist l k -> (max_key l <= max_key k)%nat.
Proof. unfold max_key. induction 1; cbn [fold_right] in *; lia. Qed.

Lemma max_key_elem e s : e ∈ s -> (len (fst e) <= max_key s)%nat.
Proof. unfold max_key. induction 1; cbn [fold_right] in *; lia. Qed.

(** Entries with the same nibble at [p] share one nibble more. *)
Lemma range_ok_nibble p i s here :
  range_ok p s -> sublist here s -> Forall (fun e => (p < len (fst e))%nat) here ->
  Forall (fun e => at_ (fst e) (Z.of_nat p) = i) here -> range_ok (S p) here.
Proof.
  intros [H1 H2 H3 [pre H4] H5 H6] Hs Hlong Hi. split.
  - by eapply StronglySorted_sublist.
  - eapply sublist_NoDup; [exact H2|]. clear -Hs. induction Hs; cbn; constructor; auto.
  - eapply Forall_impl; [exact Hlong|]. cbn. lia.
  - exists (pre ++ [byte_of i]). apply Forall_forall. intros e He.
    eapply Forall_forall in Hi; [|exact He]. eapply Forall_forall in Hlong; [|exact He].
    eapply (Forall_sublist _ _ _ Hs) in H4. eapply Forall_forall in H4; [|exact He]. cbn in *.
    destruct (lookup_lt_is_Some_2 (fst e) p Hlong) as [b Hb]. rewrite (take_S_r _ _ b) by done.
    rewrite H4. do 2 f_equal. unfold at_ in Hi. rewrite Nat2Z.id, (nth_lookup_Some _ p _ b) in Hi by done.
    by rewrite <- Hi, byte_of_bval.
  - by eapply Forall_sublist.
  - by eapply Forall_sublist.
Qed.

Lemma span_nibble_spec p i s a b :
  span_nibble p i s = (a, b) -> s = a ++ b /\ Forall (fun e => at_ (fst e) p = i) a.
Proof.
  revert a b. induction s as [|[k v] s IH]; intros a b H; cbn in H; [by simplify_eq|].
  destruct (Z.eqb_spec (at_ k p) i) as [E|E]; [|by simplify_eq].
  destruct (span_nibble p i s) as [a' b'] eqn:Es. simplify_eq. destruct (IH a' b eq_refl) as [-> Ha].
  split; [done|]. by constructor.
Qed.

(** ** The shared prefix *)

Lemma shared_loop_spec a b n s x :
  (s <= x)%nat -> (n = x - s)%nat -> (x <= len a)%nat -> (x <= len b)%nat -> take s a = take s b ->
  exists r, shared_loop n a b (Z.of_nat s) (Z.of_nat x) = Z.of_nat r /\ (s <= r <= x)%nat /\ take r a = take r b.
Proof.
  revert s. induction n as [|n IH]; intros s Hs Hn Ha Hb Ht; cbn [shared_loop].
  - exists s. repeat split; [lia|lia|done].
  - rewrite (proj2 (Z.ltb_lt _ _)) by lia. cbn [andb].
    destruct (Z.eqb_spec (at_ a (Z.of_nat s)) (at_ b (Z.of_nat s))) as [E|E].
    + replace (Z.of_nat s + 1) with (Z.of_nat (S s)) by lia.
      destruct (IH (S s)) as (r & -> & Hr & Htr); [lia..| |exists r; repeat split; [lia|lia|done]].
      destruct (lookup_lt_is_Some_2 a s) as [x1 H1]; [lia|]. destruct (lookup_lt_is_Some_2 b s) as [x2 H2]; [lia|].
      rewrite (take_S_r _ _ x1), (take_S_r _ _ x2), Ht by done. do 2 f_equal.
      unfold at_ in E. rewrite Nat2Z.id, (nth_lookup_Some _ _ _ _ H1), (nth_lookup_Some _ _ _ _ H2) in E. by apply bval_inj.
    + exists s. repeat split; [lia|lia|done].
Qed.

Lemma take_shorter {A} (a b : list A) r q : take r a = take r b -> (q <= r)%nat -> take q a = take q b.
Proof. intros H Hq. rewrite <- (Nat.min_l q r Hq), <- !take_take. by rewrite H. Qed.

Lemma shared_pre_spec k0 p rest q :
  (p <= q)%nat -> (p <= len k0)%nat ->
  Forall (fun e => (p <= len (fst e))%nat /\ take p (fst e) = take p k0) rest ->
  exists r, shared_pre k0 (Z.of_nat p) (Z.of_nat q) rest = Z.of_nat r /\ (p <= r <= q)%nat /\
    Forall (fun e => (r <= len (fst e))%nat /\ take r (fst e) = take r k0) rest /\ (rest <> [] -> (r <= len k0)%nat).
Proof.
  intros Hq Hk0 Hrest. revert q Hq. induction Hrest as [|[k v] rest [Hk Ht] Hrest IH]; intros q Hq; cbn [shared_pre fst] in *.
  - exists q. repeat split; [lia|lia|constructor|done].
  - destruct (Z.eqb_spec (Z.of_nat q) 0) as [E|E].
    + assert (q = 0)%nat as -> by lia. exists 0%nat. repeat split; [lia..| |lia].
      apply Forall_cons; split; [split; [lia|done]|]. eapply Forall_impl; [exact Hrest|]. intros; split; [lia|done].
    + set (x := Nat.min q (Nat.min (len k0) (len k))).
      replace (Z.min (Z.of_nat q) (Z.min (zlen k0) (zlen k))) with (Z.of_nat x) by (unfold x, zlen; lia).
      replace (Z.to_nat (Z.of_nat x - Z.of_nat p)) with (x - p)%nat by lia.
      destruct (shared_loop_spec k0 k (x - p) p x) as (r1 & -> & Hr1 & Ht1); [unfold x; lia|lia|unfold x; lia|unfold x; lia|done|].
      rewrite Z.min_l by (unfold x in Hr1; lia).
      destruct (IH r1) as (r & -> & Hr & Hall & Hlen); [lia|].
      exists r. unfold x in Hr1. repeat split; [lia|lia| |lia].
      apply Forall_cons; cbn. split; [|done]. split; [lia|]. symmetry. by eapply take_shorter; [exact Ht1|lia].
Qed.

Lemma shared_pre_spec_Z k0 p rest q :
  Z.of_nat p <= q -> (p <= len k0)%nat -> rest <> [] ->
  Forall (fun e => (p <= len (fst e))%nat /\ take p (fst e) = take p k0) rest ->
  exists r, shared_pre k0 (Z.of_nat p) q rest = Z.of_nat r /\ (p <= r)%nat /\ (r <= len k0)%nat /\
    Forall (fun e => (r <= len (fst e))%nat /\ take r (fst e) = take r k0) rest.
Proof.
  intros Hq Hk Hne Hrest. destruct (shared_pre_spec k0 p rest (Z.to_nat q)) as (r & Hr & Hp & Hall & Hlen); [lia|done|done|].
  rewrite Z2Nat.id in Hr by lia. exists r. split; [done|]. split; [lia|]. split; [by apply Hlen|done].
Qed.

Lemma range_ok_longer p r k v rest :
  range_ok p ((k, v) :: rest) -> (r <= len k)%nat ->
  Forall (fun e => (r <= len (fst e))%nat /\ take r (fst e) = take r k) rest -> range_ok r ((k, v) :: rest).
Proof.
  intros [H1 H2 H3 _ H5 H6] Hk Hrest. split; try done.
  - constructor; [done|]. eapply Forall_impl; [exact Hrest|]. by intros e [? _].
  - exists (take r k). constructor; [done|]. eapply Forall_impl; [exact Hrest|]. by intros e [_ ?].
Qed.

(** ** The recursion writes one item *)

(** [w] writes one item of at most [n] bytes on a stream that fits. *)
Definition emits_item (n : Z) (w : RLPStream -> result RLPStream) : Prop :=
  exists e, zlen e <= n /\ forall st, fits (m_out st) -> w st = emit e st.

(** The same on any stream. *)
Definition emits_any (n : Z) (w : RLPStream -> result RLPStream) : Prop :=
  exists e, zlen e <= n /\ writes_item w e.

Lemma append_emits b n : zlen b <= n -> n < 2 ^ 62 -> emits_any (n + 9) (Stream.append b false).
Proof.
  intros Hb Hn. exists (enc_str b). assert (fits b) as Hf by (unfold fits; lia).
  split; [pose proof (zlen_enc_str b Hf); lia|by apply writes_bytes].
Qed.

Lemma aux_emits rlp256 (s : list entry) p :
  emits_item (2 ^ 62) (rlp256 s p) -> emits_any 41 (hash256aux_with rlp256 s p).
Proof.
  intros (e & He & Hw). unfold emits_any, writes_item, hash256aux_with, run. rewrite Hw by done.
  change (emit e Stream.empty ≫= out) with (Ok e). cbn [mbind result_bind].
  destruct (Z.ltb_spec (zlen e) 32).
  - exists e. split; [lia|]. apply writes_raw.
  - exists (enc_str (vec_to_list (sha3 e))). split; [|by apply writes_hash; lia].
    pose proof (zlen_enc_hash 32 (sha3 e)). lia.
Qed.

Lemma length_pack_pairs ns : (len (pack_pairs ns) <= len ns)%nat.
Proof. revert ns. fix IH 1. intros [|a [|b r]]; cbn; [lia|lia|]. specialize (IH r). lia. Qed.

Lemma zlen_hexPrefixEncode v leaf b e : zlen (hexPrefixEncode v leaf b e) <= 1 + zlen v.
Proof.
  unfold hexPrefixEncode. set (e' := if e <? 0 then _ else _).
  assert (len (drop (Z.to_nat b) (take (Z.to_nat e') v)) <= len v)%nat as Hl by (rewrite length_drop, length_take; lia).
  assert (forall x l, (len l <= len v)%nat -> zlen (x :: pack_pairs l) <= 1 + zlen v) as Hgen.
  { intros x l H. rewrite zlen_cons. pose proof (length_pack_pairs l). unfold zlen. lia. }
  destruct (negb _), (drop (Z.to_nat b) (take (Z.to_nat e') v)) as [|n ns]; apply Hgen; cbn [len] in *; lia.
Qed.

Lemma branches_emits n p i b aux :
  (forall j here, here <> [] -> sublist here b -> Forall (fun e => at_ (fst e) p = j) here -> emits_any 41 (aux here)) ->
  exists es, len es = n /\ Forall (fun e => zlen e <= 41) es /\ forall st, branches n p i b aux st = emits es st.
Proof.
  revert i b. induction n as [|n IH]; intros i b Haux; [by exists []|].
  cbn [branches]. destruct (span_nibble p i b) as [here rest] eqn:Es.
  destruct (span_nibble_spec _ _ _ _ _ Es) as [-> Hhere].
  destruct (IH (i + 1) rest) as (es & Hlen & Hes & Hb).
  { intros j h Hne Hs Hj. apply (Haux j); [done| |done]. by apply sublist_inserts_l. }
  assert (emits_any 41 (fun st => match here with [] => Stream.append [] false st | _ => aux here st end)) as (e & He & Hw).
  { destruct here as [|x here]; [apply (append_emits [] 32); [done|lia]|].
    apply (Haux i); [done|by apply sublist_inserts_r|done]. }
  exists (e :: es). split; [cbn; lia|]. split; [by constructor|]. intros st. cbn [emits].
  specialize (Hw st). cbv beta in Hw. rewrite Hw. destruct (emit e st); [|done]. cbn [mbind result_bind]. apply Hb.
Qed.

(** A list of [n] items of at most [2^61] bytes in all is one item. *)
Lemma list_emits n es w :
  n = Z.of_nat (len es) -> zlen (concat es) <= 2 ^ 61 -> (forall st, w st = emits es st) ->
  emits_item (2 ^ 62) (fun st => appendList n st ≫= w).
Proof.
  intros -> Hes Hw. exists (enc_list es). split.
  - unfold enc_list. rewrite zlen_app. pose proof (zlen_header 192 (zlen (concat es))). pose proof (zlen_nonneg (concat es)). lia.
  - intros st Hst. rewrite <- (emit_list es st (Z.of_nat (len es))) by (done || unfold fits; lia).
    destruct (appendList _ st); [|done]. apply Hw.
Qed.

(** The keys of the branches are longer than the prefix. *)
Lemma branch_long p k v rest e :
  range_ok p ((k, v) :: rest) ->
  e ∈ (if Z.of_nat p =? zlen k then rest else (k, v) :: rest) -> (p < len (fst e))%nat.
Proof.
  intros [Hs Hn Hl [pre Hp] _ _] He.
  assert (e ∈ (k, v) :: rest) as Hin by (destruct (Z.of_nat p =? zlen k); [by apply list_elem_of_further|done]).
  pose proof (proj1 (Forall_forall _ _) Hl e Hin) as Hle. pose proof (proj1 (Forall_forall _ _) Hp e Hin) as Hpe.
  apply Forall_cons in Hp as [Hpk _]. apply Forall_cons in Hl as [Hlk _]. cbn in *.
  destruct (Nat.eq_dec (len (fst e)) p) as [Heq|]; [|lia]. exfalso.
  rewrite take_ge in Hpe by lia.
  destruct (Z.eqb_spec (Z.of_nat p) (zlen k)) as [Ek|Ek].
  - unfold zlen in Ek. rewrite take_ge in Hpk by lia. apply NoDup_cons in Hn as [Hk _].
    apply Hk, list_elem_of_fmap. exists e. split; [cbn; congruence|done].
  - unfold zlen in Ek. apply elem_of_cons in He as [->|He]; [cbn in Heq; lia|].
    apply StronglySorted_inv in Hs as [_ Hs]. pose proof (proj1 (Forall_forall _ _) Hs e He) as Hke.
    unfold lex_le in Hke. cbn in Hke. rewrite Hpe, <- (take_drop p k), Hpk in Hke.
    destruct (drop p k) as [|x t] eqn:Ed; [|by rewrite lex_leb_prefix in Hke].
    apply (f_equal len) in Ed. rewrite length_drop in Ed. cbn in Ed. lia.
Qed.

Lemma emits_any_item n m w : n <= m -> emits_any n w -> emits_item m w.
Proof. intros Hn (e & He & Hw). exists e. split; [lia|]. intros st _. apply Hw. Qed.

Lemma hash256rlp_emits fuel s p :
  s <> [] -> range_ok p s -> (max_key s + 2 <= fuel + p)%nat -> emits_item (2 ^ 62) (hash256rlp fuel s (Z.of_nat p)).
Proof.
  revert s p. induction fuel as [|fuel IH]; intros s p Hne Hr Hfuel.
  { destruct s as [|e s]; [done|]. pose proof (ro_long _ _ Hr) as Hl. apply Forall_cons in Hl as [Hl _].
    pose proof (max_key_elem e (e :: s) ltac:(by left)). lia. }
  destruct s as [|[k v] rest]; [done|]. cbn [hash256rlp].
  pose proof (ro_key _ _ Hr) as Hk. apply Forall_cons in Hk as [Hk _]. pose proof (ro_val _ _ Hr) as Hv. apply Forall_cons in Hv as [Hv _].
  pose proof (ro_long _ _ Hr) as Hl. pose proof (ro_shared _ _ Hr) as [pre Hpre]. cbn [fst snd] in *.
  destruct rest as [|e2 rest2]; [|set (rest := e2 :: rest2) in *].
  - destruct (append_emits (hexPrefixEncode k true (Z.of_nat p) (-1)) (2 ^ 31)) as (e1 & He1 & Hw1);
      [pose proof (zlen_hexPrefixEncode k true (Z.of_nat p) (-1)); lia|lia|].
    destruct (append_emits v (2 ^ 60)) as (ev & Hev & Hwv); [lia|lia|].
    apply (list_emits 2 [e1; ev]); [done|cbn [concat]; rewrite !zlen_app, (@zlen_nil byte); lia|].
    apply chain_emits. by repeat constructor.
  - apply Forall_cons in Hl as [Hlk Hl]. apply Forall_cons in Hpre as [Hpk Hpre]. cbn [fst] in *.
    destruct (shared_pre_spec_Z k p rest (2 ^ 32 - 1)) as (q & Hq & Hpq & Hqk & Hall); [unfold zlen in Hk; lia|done|done| |].
    { apply Forall_forall. intros e He. split; [by eapply Forall_forall in Hl|].
      eapply Forall_forall in Hpre; [|exact He]. cbn in Hpre. congruence. }
    rewrite Hq.
    destruct (Z.ltb_spec (Z.of_nat p) (Z.of_nat q)) as [Hpq'|Hpq'].
    + destruct (append_emits (hexPrefixEncode k false (Z.of_nat p) (i32 (Z.of_nat q))) (2 ^ 31)) as (e1 & He1 & Hw1);
        [pose proof (zlen_hexPrefixEncode k false (Z.of_nat p) (i32 (Z.of_nat q))); lia|lia|].
      destruct (aux_emits (hash256rlp fuel) ((k, v) :: rest) (Z.of_nat q)) as (e3 & He3 & Hw3).
      { apply IH; [done|by eapply range_ok_longer|]. eapply Nat.le_trans; [exact Hfuel|lia]. }
      apply (list_emits 2 [e1; e3]); [done|cbn [concat]; rewrite !zlen_app, (@zlen_nil byte); lia|].
      intros st. cbn [emits]. rewrite Hw1. destruct (emit e1 st) as [st1|]; [|done]. cbn [mbind result_bind].
      rewrite Hw3. by destruct (emit e3 st1).
    + destruct (branches_emits 16 (Z.of_nat p) 0 (if Z.of_nat p =? zlen k then rest else (k, v) :: rest)
        (fun here => hash256aux_with (hash256rlp fuel) here (Z.of_nat p + 1))) as (es & Hlen & Hes & Hb).
      { intros j here Hne' Hs Hj. apply aux_emits. replace (Z.of_nat p + 1) with (Z.of_nat (S p)) by lia.
        assert (sublist here ((k, v) :: rest)) as Hs' by (destruct (Z.of_nat p =? zlen k); [by apply sublist_cons|done]).
        apply IH; [done| |].
        2: { eapply Nat.le_trans; [apply Nat.add_le_mono_r, (max_key_sublist _ _ Hs')|].
             eapply Nat.le_trans; [exact Hfuel|lia]. }
        eapply (range_ok_nibble p j); [exact Hr|done| |done]. eapply Forall_sublist; [exact Hs|].
        apply Forall_forall. intros e He. by eapply branch_long. }
      assert (emits_any (2 ^ 60 + 9) (fun st => if Z.of_nat p =? zlen k then Stream.append v false st else Stream.append [] false st)) as (e & He & Hw).
      { destruct (Z.of_nat p =? zlen k); apply append_emits; try lia. rewrite (@zlen_nil byte). lia. }
      apply (list_emits 17 (es ++ [e])).
      * rewrite length_app, Hlen. done.
      * rewrite concat_app, zlen_app. cbn [concat]. rewrite app_nil_r.
        pose proof (zlen_concat_le es 41 Hes) as H1. unfold zlen in H1 at 2. rewrite Hlen in H1. lia.
      * intros st. rewrite Hb, emits_app. destruct (emits es st) as [st1|]; [|done]. cbn [mbind result_bind emits].
        specialize (Hw st1). cbv beta in Hw. rewrite Hw. by destruct (emit e st1).
Qed.

(** ** The whole map *)

Definition small_entry (k v : bytes) : Prop := zlen k < 2 ^ 29 /\ zlen v < 2 ^ 60.

Lemma zlen_asNibbles k : zlen (asNibbles k) = 2 * zlen k.
Proof.
  unfold asNibbles. induction k as [|b k IH]; [done|]. cbn [flat_map app]. rewrite !zlen_cons, IH. lia.
Qed.

Lemma bytes_entries_perm m : bytes_entries m ≡ₚ map_to_list m.
Proof. apply merge_sort_Permutation. Qed.

Lemma length_bytes_entries m : len (bytes_entries m) = size m.
Proof. rewrite <- length_map_to_list. apply Permutation_length, bytes_entries_perm. Qed.

Lemma bytes_entries_range m :
  map_Forall (fun k v => zlen k < 2 ^ 30 /\ zlen v < 2 ^ 60) m -> range_ok 0 (bytes_entries m).
Proof.
  intros Hm. assert (forall e, e ∈ bytes_entries m -> zlen (fst e) < 2 ^ 30 /\ zlen (snd e) < 2 ^ 60) as Hall.
  { intros [k v] He. rewrite bytes_entries_perm in He. apply elem_of_map_to_list in He. exact (Hm k v He). }
  split.
  - apply StronglySorted_merge_sort; apply _.
  - rewrite bytes_entries_perm. apply NoDup_fst_map_to_list.
  - apply Forall_forall. lia.
  - exists []. by apply Forall_forall.
  - apply Forall_forall. intros e He. by apply Hall.
  - apply Forall_forall. intros e He. by apply Hall.
Qed.

Lemma fold_insert_Forall (f : bytes -> bytes) (P : bytes -> bytes -> Prop) (es : list entry) (m : gmap bytes bytes) :
  Forall (fun e => P (f (fst e)) (snd e)) es -> map_Forall P m ->
  map_Forall P (fold_left (fun m e => <[f (fst e) := snd e]> m) es m).
Proof.
  intros Hes. revert m. induction Hes as [|e es He _ IH]; intros m Hm; [done|]. cbn [fold_left].
  apply IH. by apply map_Forall_insert_2.
Qed.

Lemma fold_insert_nonempty (f : bytes -> bytes) (es : list entry) (m : gmap bytes bytes) :
  es <> [] \/ m <> ∅ -> fold_left (fun m e => <[f (fst e) := snd e]> m) es m <> ∅.
Proof.
  revert m. induction es as [|e es IH]; intros m H; [by destruct H|]. cbn [fold_left].
  apply IH. right. apply insert_non_empty.
Qed.

Lemma trieRLP256_total m : map_Forall small_entry m -> exists o, trieRLP256 m = Ok o.
Proof.
  intros Hm. unfold trieRLP256. destruct (bytes_entries m) as [|e es] eqn:E; [eexists; reflexivity|].
  rewrite <- E. set (hex := fold_left _ _ ∅).
  assert (map_Forall (fun k v => zlen k < 2 ^ 30 /\ zlen v < 2 ^ 60) hex) as Hhex.
  { apply (fold_insert_Forall asNibbles); [|apply map_Forall_empty]. apply Forall_rev, Forall_forall.
    intros [k v] He. rewrite bytes_entries_perm in He. apply elem_of_map_to_list in He.
    destruct (Hm k v He) as [H1 H2]. cbn. rewrite zlen_asNibbles. lia. }
  assert (bytes_entries hex <> []) as Hne.
  { intros H0. assert (size hex = 0%nat) as H1 by (by rewrite <- length_bytes_entries, H0).
    apply map_size_empty_inv in H1. revert H1. apply fold_insert_nonempty. left. rewrite E. intros H%(f_equal len).
    rewrite length_rev in H. done. }
  destruct (hash256rlp_emits (max_key (bytes_entries hex) + 2) (bytes_entries hex) 0 Hne) as (o & _ & Ho);
    [by apply bytes_entries_range|lia|].
  exists o. unfold run. change 0 with (Z.of_nat 0). rewrite Ho by done. done.
Qed.

(** ** Properties *)

(** The Merkle root of the transaction hashes is computed for every list,
    by the in-place loop of the code, as the tree says: the zero hash for no
    transaction, the hash itself for one, and otherwise the root of the level
    above, made of the node hashes of consecutive pairs after an odd level has
    been completed with its last element. *)
Theorem merkle_is_tree (ids : list h256) :
  merkle ids = match ids with
               | [] => zero_hash 32
               | [x] => x
               | _ => merkle (pair_up pair_hash (pad_odd ids))
               end.
Proof.
  unfold merkle. destruct ids as [|x [|y ids]]; [reflexivity|reflexivity|].
  apply merkle_step. cbn. lia.
Qed.

(** The Merkle root does not determine the number of transactions: an odd
    list of at least three and the same list with its last element repeated
    have the same root. *)
Theorem merkle_repeats_last (ids : list h256) (Hodd : Nat.odd (len ids) = true) (Hlen : (1 < len ids)%nat) :
  merkle (ids ++ [List.last ids (zero_hash 32)]) = merkle ids.
Proof. by apply merkle_dup_last. Qed.

Lemma merkle_repeats_last_witness :
  merkle ([fromArith 32 1; fromArith 32 2; fromArith 32 3] ++ [List.last [fromArith 32 1; fromArith 32 2; fromArith 32 3] (zero_hash 32)])
  = merkle [fromArith 32 1; fromArith 32 2; fromArith 32 3].
Proof. apply merkle_repeats_last; [reflexivity|apply Nat.ltb_lt; reflexivity]. Defined.

(** Hex-prefix paths: for every nibble string, range and leaf flag, the
    readers [keyOf] and [isLeaf] recover from [hexPrefixEncode] exactly the
    nibbles of the range and the flag. *)
Theorem hexPrefix_roundtrip (v : bytes) (leaf : bool) (b e : Z)
    (Hv : is_nibbles v) (Hb : 0 <= b <= e) (He : e <= zlen v) :
  slice_list (keyOf (hexPrefixEncode v leaf b e)) = map bval (drop (Z.to_nat b) (take (Z.to_nat e) v)) /\
  hpe_isLeaf (hexPrefixEncode v leaf b e) = leaf.
Proof. by apply hexPrefixEncode_roundtrip. Qed.

Lemma hexPrefix_roundtrip_witness :
  let v := [Byte.x00; Byte.x00; Byte.x01; Byte.x02; Byte.x03; Byte.x04; Byte.x05] in
  slice_list (keyOf (hexPrefixEncode v true 1 6)) = map bval (drop (Z.to_nat 1) (take (Z.to_nat 6) v)) /\
  hpe_isLeaf (hexPrefixEncode v true 1 6) = true.
Proof. apply hexPrefix_roundtrip; [repeat constructor|split; discriminate|vm_compute; discriminate]. Defined.

(** C40. The trie root is computed for every map: the mutual recursion of
    [hash256rlp] and [hash256aux] ends, every list opened on a stream is
    filled, and [trieHash256] returns the hash of the encoded root. *)
Theorem trieHash256_total (m : gmap bytes bytes) (Hm : map_Forall small_entry m) :
  exists o, trieRLP256 m = Ok o /\ trieHash256 m = Ok (sha3 o).
Proof. destruct (trieRLP256_total m Hm) as [o Ho]. exists o. split; [done|]. unfold trieHash256. by rewrite Ho. Qed.

Lemma trieHash256_total_witness :
  exists o, trieRLP256 {[ [Byte.x64] := [Byte.x01] ]} = Ok o /\ trieHash256 {[ [Byte.x64] := [Byte.x01] ]} = Ok (sha3 o).
Proof. apply trieHash256_total. apply map_Forall_singleton. split; vm_compute; reflexivity. Defined.
