(* ===== verification/Block.v ===== *)
(** * Blocks: class Block of core/Block.{h,cpp}

    A header with its transactions and receipts; the codec and the roots the
    header commits to. *)

From S2P Require Import Prelude CommonData RLP RLPFacts FixedHash SHA3 Codec Transaction TransactionReceipt BlockHeader Trie TrieFacts.
Import Spec Decoder Stream.

Definition BLOCK_FIELDS : Z := 3.

Record Block : Type := mkBlock {
  m_blockHeader : BlockHeader;
  m_transactions : list Transaction;
  m_transactionReceipts : list TransactionReceipt;
  m_syncBlock : bool
}.

#[export] Instance Block_eq_dec : EqDecision Block.
Proof. solve_decision. Defined.

(** [for (i = 0; i < rlp.itemCount(); i++) v.push_back(T(rlp[i].data()));] when
    the item is a list. *)
Definition read_objects {A} (f : bytes -> result A) (d : bytes) : result (list A) :=
  _ ← make d VeryStrict;
  if isList d then n ← itemCount d; read_from f (Z.to_nat n) d 0 n else Ok [].

(** [Block(bytesConstRef data)]; [h0] is the default-constructed header, whose
    number and timestamp are indeterminate. The final [catch] clauses throw a
    copy of the exception again. *)
Definition decode (h0 : BlockHeader) (data : bytes) : result Block :=
  rethrow (
    _ ← make data VeryStrict;
    n ← (if isList data then itemCount data else Ok (-1));
    if isList data && (n =? BLOCK_FIELDS) then
      bytesHeader ← nth_item data 0;
      bytesTransactions ← nth_item data 1;
      bytesReceipts ← nth_item data 2;
      header ← BlockHeader.populate bytesHeader h0;
      txs ← read_objects Transaction.decode bytesTransactions;
      rps ← read_objects TransactionReceipt.decode bytesReceipts;
      Ok (mkBlock header txs rps false)
    else Throw DeserializeException).

(** The stream of one list of objects: [appendList(v.size())], then each
    object's own stream appended raw. *)
Definition stream_objects {A} (stream : A -> RLPStream -> result RLPStream) (v : list A) : result bytes :=
  run (fun st =>
    raws ← result_map (fun x => run (stream x)) v;
    appendList (zlen v) st ≫= chain (map (fun r => appendRaw r 1) raws)).

Definition streamRLP (b : Block) (st : RLPStream) : result RLPStream :=
  st ← appendList 3 st;
  h ← run (BlockHeader.streamRLP (m_blockHeader b));
  st ← appendRaw h 1 st;
  txs ← stream_objects Transaction.streamRLP (m_transactions b);
  st ← appendRaw txs 1 st;
  rps ← stream_objects TransactionReceipt.streamRLP (m_transactionReceipts b);
  appendRaw rps 1 st.

Definition getRLPData (b : Block) : result bytes := run (streamRLP b).

Definition getHash (b : Block) : result h256 := BlockHeader.getHash (m_blockHeader b).
Definition getKey (b : Block) : result bytes := BlockHeader.getKey (m_blockHeader b).

(** [operator==]. *)
Definition block_eqb (a b : Block) : result bool :=
  ha ← getHash a; hb ← getHash b; Ok (hash_eqb ha hb).

Definition setBlockHeader (h : BlockHeader) (b : Block) : Block :=
  mkBlock h (m_transactions b) (m_transactionReceipts b) (m_syncBlock b).
Definition addTransaction (tx : Transaction) (b : Block) : Block :=
  mkBlock (m_blockHeader b) (m_transactions b ++ [tx]) (m_transactionReceipts b) (m_syncBlock b).
Definition addTransactionReceipt (r : TransactionReceipt) (b : Block) : Block :=
  mkBlock (m_blockHeader b) (m_transactions b) (m_transactionReceipts b ++ [r]) (m_syncBlock b).
Definition setSyncBlock (b : Block) : Block :=
  mkBlock (m_blockHeader b) (m_transactions b) (m_transactionReceipts b) true.

Definition getTransactionMerkle (b : Block) : result h256 :=
  ids ← result_map Transaction.getHash (m_transactions b); Ok (merkle ids).

(** The loop of [setRoots]: [transactionsMap.insert(rlp(i), rlp(tx))]. *)
Fixpoint transactions_map (i : Z) (txs : list Transaction) (m : gmap bytes bytes) : result (gmap bytes bytes) :=
  match txs with
  | [] => Ok m
  | tx :: txs' =>
      k ← run (appendInt i);
      v ← run (Transaction.streamRLP tx);
      transactions_map (i + 1) txs' (match m !! k with Some _ => m | None => <[k := v]> m end)
  end.

Definition setRoots (b : Block) : result Block :=
  transactionsMap ← transactions_map 0 (m_transactions b) ∅;
  mklRoot ← getTransactionMerkle b;
  t ← trieHash256 transactionsMap;
  r ← trieHash256 ∅;
  Ok (setBlockHeader (BlockHeader.setRoots mklRoot t r (m_blockHeader b)) b).

(** ** The codec *)

(** The values the C++ types hold, and lists that fit in memory. *)
Record writable (b : Block) : Prop := {
  valid_header_w : BlockHeader.valid (m_blockHeader b);
  valid_txs : Forall (fun tx => Transaction.valid tx /\ zlen (Transaction.m_data tx) < 2 ^ 30) (m_transactions b);
  valid_receipts : Forall TransactionReceipt.valid (m_transactionReceipts b);
  valid_txs_size : zlen (m_transactions b) < 2 ^ 20;
  valid_receipts_size : zlen (m_transactionReceipts b) < 2 ^ 20
}.

(** A block that is also read back unchanged: its receipts are readable, and it
    is not marked as synchronised, which is not written. *)
Definition valid (b : Block) : Prop :=
  writable b /\ forallb readable (m_transactionReceipts b) = true /\ m_syncBlock b = false.
Lemma valid_header b : valid b -> BlockHeader.valid (m_blockHeader b).
Proof. intros [[] _]. done. Qed.

(** Lists of objects, for any codec of the object. *)
Section Objects.
Context {A : Type} (stream : A -> RLPStream -> result RLPStream) (dec : bytes -> result A) (enc : A -> bytes) (v : list A).
Context (Hstream : forall x, x ∈ v -> run (stream x) = Ok (enc x))
        (Hwf : forall x, x ∈ v -> wf_item (enc x) /\ zlen (enc x) <= 2 ^ 40)
        (Hlen : zlen v < 2 ^ 20).

Lemma objects_len : zlen (concat (map enc v)) <= 2 ^ 60.
Proof.
  assert (zlen (concat (map enc v)) <= 2 ^ 40 * zlen (map enc v)) as H.
  { apply zlen_concat_le, Forall_fmap, Forall_forall. intros x Hx. by apply Hwf. }
  replace (zlen (map enc v)) with (zlen v) in H by (unfold zlen; by rewrite length_map). lia.
Qed.

Lemma objects_wf : Forall wf_item (map enc v).
Proof. apply Forall_fmap, Forall_forall. intros x Hx. by apply Hwf. Qed.

Lemma stream_objects_enc : stream_objects stream v = Ok (enc_list (map enc v)).
Proof.
  unfold stream_objects. rewrite (result_map_ok _ enc) by done. cbn [mbind result_bind].
  apply run_list; [by rewrite length_map|pose proof objects_len; unfold fits; lia|].
  clear. induction v; cbn; constructor; auto using writes_raw.
Qed.

Lemma read_objects_enc : read_objects dec (enc_list (map enc v)) = result_map (fun x => dec (enc x)) v.
Proof.
  pose proof objects_wf as Hw. assert (fits (concat (map enc v))) as Hf by (pose proof objects_len; unfold fits; lia).
  unfold read_objects. rewrite make_enc_list, isList_enc, itemCount_list by done. cbn [mbind result_bind].
  pose proof (read_from_map dec enc [] v (Datatypes.length v)) as HR. cbn [app] in HR.
  rewrite length_map, Nat2Z.id in *. unfold zlen in HR at 2. rewrite length_map in HR.
  change (zlen (@nil bytes)) with 0 in HR. apply HR; try done. unfold zlen in Hlen. lia.
Qed.
End Objects.

Definition enc_tx (tx : Transaction) : bytes := enc_list (Transaction.fields tx).
Definition enc_rp (r : TransactionReceipt) : bytes := enc_list [enc_receipt r].

Lemma zlen_enc_list es K : zlen (concat es) <= K -> K < 2 ^ 60 -> zlen (enc_list es) <= K + 9.
Proof.
  intros H HK. unfold enc_list. rewrite zlen_app. pose proof (zlen_header 192 (zlen (concat es))).
  pose proof (zlen_nonneg (concat es)). lia.
Qed.

Lemma enc_tx_ok tx :
  Transaction.valid tx -> zlen (Transaction.m_data tx) < 2 ^ 30 -> wf_item (enc_tx tx) /\ zlen (enc_tx tx) <= 2 ^ 40.
Proof.
  intros Hv Hd. split; [by apply wf_enc_list, Transaction.transaction_fields_fit|].
  assert (zlen (concat (Transaction.fields tx)) <= 2 ^ 31) as H; [|pose proof (zlen_enc_list _ _ H); unfold enc_tx; lia].
  destruct Hv. unfold Transaction.fields, Transaction.content_fields. cbn [app concat].
  rewrite ?zlen_app, ?(@zlen_nil byte). bound_fields. lia.
Qed.

Lemma enc_rp_ok r : TransactionReceipt.valid r -> wf_item (enc_rp r) /\ zlen (enc_rp r) <= 2 ^ 40.
Proof.
  intros Hv. split; [by apply wf_enc_list, receipt_fit|].
  assert (zlen (concat [enc_receipt r]) <= 50) as H; [|pose proof (zlen_enc_list _ _ H); unfold enc_rp; lia].
  destruct r as [c|h]; cbn [enc_receipt concat TransactionReceipt.valid] in *; rewrite ?zlen_app, ?(@zlen_nil byte); bound_fields; lia.
Qed.

Lemma readable_map (rs : list TransactionReceipt) :
  Forall TransactionReceipt.valid rs ->
  result_map (fun r => TransactionReceipt.decode (enc_rp r)) rs = if forallb readable rs then Ok rs else Throw CoreException.
Proof.
  induction 1 as [|r rs Hr Hrs IH]; [done|]. cbn [result_map forallb]. rewrite (receipt_decode_enc r Hr : TransactionReceipt.decode (enc_rp r) = _).
  destruct (readable r); [|done]. cbn [mbind result_bind andb]. rewrite IH. by destruct (forallb readable rs).
Qed.

Definition fields (b : Block) : list bytes :=
  [enc_list (BlockHeader.fields (m_blockHeader b)); enc_list (map enc_tx (m_transactions b));
   enc_list (map enc_rp (m_transactionReceipts b))].

Section Facts.
Context (b : Block) (Hv : writable b).

Lemma txs_ok tx : tx ∈ m_transactions b ->
  run (Transaction.streamRLP tx) = Ok (enc_tx tx) /\ Transaction.decode (enc_tx tx) = Ok tx /\
  wf_item (enc_tx tx) /\ zlen (enc_tx tx) <= 2 ^ 40.
Proof.
  intros Hin. destruct Hv as [_ Ht _ _ _]. eapply Forall_forall in Ht as [Htv Hd]; [|exact Hin].
  split; [by apply Transaction.transaction_getRLPData_enc|]. split; [by apply Transaction.transaction_decode_enc|by apply enc_tx_ok].
Qed.

Lemma rps_ok r : r ∈ m_transactionReceipts b ->
  run (TransactionReceipt.streamRLP r) = Ok (enc_rp r) /\ wf_item (enc_rp r) /\ zlen (enc_rp r) <= 2 ^ 40.
Proof.
  intros Hin. destruct Hv as [_ _ Hr _ _]. eapply Forall_forall in Hr; [|exact Hin].
  split; [by apply TransactionReceipt.receipt_getRLPData_enc|by apply enc_rp_ok].
Qed.

Lemma fields_wf_fit : Forall wf_item (fields b) /\ fits (concat (fields b)).
Proof.
  pose proof (objects_len enc_tx (m_transactions b) (fun x Hx => proj2 (proj2 (txs_ok x Hx))) (valid_txs_size b Hv)) as H1.
  pose proof (objects_len enc_rp (m_transactionReceipts b) (fun x Hx => proj2 (rps_ok x Hx)) (valid_receipts_size b Hv)) as H2.
  pose proof (BlockHeader.header_fields_len _ (valid_header_w b Hv)) as H3. split.
  - unfold fields. repeat apply Forall_cons_2; [..|done]; apply wf_enc_list; unfold fits; lia.
  - unfold fields, fits. cbn [concat]. rewrite !zlen_app, (@zlen_nil byte). unfold enc_list. rewrite !zlen_app.
    pose proof (zlen_header 192 (zlen (concat (BlockHeader.fields (m_blockHeader b))))).
    pose proof (zlen_header 192 (zlen (concat (map enc_tx (m_transactions b))))).
    pose proof (zlen_header 192 (zlen (concat (map enc_rp (m_transactionReceipts b))))).
    pose proof (zlen_nonneg (concat (BlockHeader.fields (m_blockHeader b)))).
    pose proof (zlen_nonneg (concat (map enc_tx (m_transactions b)))).
    pose proof (zlen_nonneg (concat (map enc_rp (m_transactionReceipts b)))). lia.
Qed.

Lemma block_written : getRLPData b = Ok (enc_list (fields b)).
Proof.
  destruct fields_wf_fit as [_ Hf].
  rewrite <- (run_list BLOCK_FIELDS
    [appendRaw (enc_list (BlockHeader.fields (m_blockHeader b))) 1; appendRaw (enc_list (map enc_tx (m_transactions b))) 1;
     appendRaw (enc_list (map enc_rp (m_transactionReceipts b))) 1] (fields b));
    [|done|done|unfold fields; solve_fields].
  apply run_ext. unfold streamRLP. change BLOCK_FIELDS with 3.
  destruct (appendList 3 Stream.empty) as [st|]; [|done]. cbn [mbind result_bind].
  pose proof (BlockHeader.header_getRLPData_enc _ (valid_header_w b Hv)) as Hh. unfold BlockHeader.getRLPData in Hh. rewrite Hh.
  rewrite (stream_objects_enc _ enc_tx) by (try (intros x Hx; by apply txs_ok); by apply valid_txs_size).
  rewrite (stream_objects_enc _ enc_rp) by (try (intros x Hx; by apply rps_ok); by apply valid_receipts_size).
  cbn [mbind result_bind chain]. destruct (appendRaw _ 1 st) as [st1|]; [|done]. cbn [mbind result_bind].
  destruct (appendRaw _ 1 st1) as [st2|]; [|done]. cbn [mbind result_bind]. by destruct (appendRaw _ 1 st2).
Qed.

(** What the decoder makes of it. *)
Definition read_back : result Block :=
  if forallb readable (m_transactionReceipts b)
  then Ok (mkBlock (m_blockHeader b) (m_transactions b) (m_transactionReceipts b) false) else Throw CoreException.

Lemma block_read h0 : decode h0 (enc_list (fields b)) = read_back.
Proof.
  destruct fields_wf_fit as [Hw Hf]. unfold decode, read_back. read_fields. change (3 =? BLOCK_FIELDS) with true. read_fields.
  rewrite BlockHeader.header_populate_enc by apply Hv. cbn [mbind result_bind].
  rewrite (read_objects_enc _ enc_tx) by (try (intros x Hx; by apply txs_ok); by apply valid_txs_size).
  rewrite (result_map_ok _ (fun x => x)), map_id by (intros x Hx; by apply txs_ok).
  cbn [mbind result_bind].
  rewrite (read_objects_enc _ enc_rp) by (try (intros x Hx; by apply rps_ok); by apply valid_receipts_size).
  rewrite readable_map by apply Hv. by destruct (forallb readable _).
Qed.
End Facts.

Lemma block_getRLPData_enc b : valid b -> getRLPData b = Ok (enc_list (fields b)).
Proof. intros [Hw _]. by apply block_written. Qed.
Lemma block_decode_enc b h0 : valid b -> decode h0 (enc_list (fields b)) = Ok b.
Proof. intros (Hw & Hr & Hs). rewrite block_read by done. unfold read_back. rewrite Hr, <- Hs. by destruct b. Qed.

(** ** The roots *)

Definition tx_hash (tx : Transaction) : h256 := sha3 (enc_list (Transaction.content_fields tx)).

Lemma transactions_map_total txs i m :
  Forall (fun tx => Transaction.valid tx /\ zlen (Transaction.m_data tx) < 2 ^ 30) txs ->
  0 <= i -> i + zlen txs < 2 ^ 32 -> map_Forall small_entry m ->
  exists m', transactions_map i txs m = Ok m' /\ map_Forall small_entry m'.
Proof.
  intros Htx. revert i m. induction Htx as [|tx txs [Hv Hd] Htx IH]; intros i m Hi Hlen Hm; [by exists m|].
  rewrite zlen_cons in Hlen. pose proof (zlen_nonneg txs). cbn [transactions_map].
  rewrite (run_item (appendInt i) (enc_int i)) by (apply writes_int; lia).
  cbn [mbind result_bind]. pose proof (Transaction.transaction_getRLPData_enc tx Hv) as Hs. unfold Transaction.getRLPData in Hs.
  rewrite Hs. cbn [mbind result_bind]. apply IH; [lia|lia|]. destruct (m !! enc_int i); [done|].
  apply map_Forall_insert_2; [|done]. destruct (enc_tx_ok tx Hv Hd) as [_ H2]. unfold enc_tx in H2.
  pose proof (zlen_enc_int i ltac:(lia)). split; lia.
Qed.

Lemma getTransactionMerkle_ok b :
  Forall Transaction.valid (m_transactions b) -> getTransactionMerkle b = Ok (merkle (map tx_hash (m_transactions b))).
Proof.
  intros Hv. unfold getTransactionMerkle. rewrite (result_map_ok _ tx_hash); [done|].
  intros tx Hin. unfold Transaction.getHash. eapply Forall_forall in Hv; [|exact Hin].
  by rewrite Transaction.transaction_content_enc.
Qed.

(** ** Properties *)

(** C30. What decoding a written block gives, whatever the header object held
    before: the block with the same header, transactions and receipts, no longer
    marked as synchronised, if each receipt is a code of four bytes; with a
    smaller code or a state root among the receipts the decoder throws. *)
Theorem block_roundtrip (b : Block) (h0 : BlockHeader) (Hw : writable b) :
  exists d, getRLPData b = Ok d /\
    decode h0 d = if forallb readable (m_transactionReceipts b)
                  then Ok (mkBlock (m_blockHeader b) (m_transactions b) (m_transactionReceipts b) false) else Throw CoreException.
Proof. exists (enc_list (fields b)). split; [by apply block_written|by apply (block_read b Hw)]. Qed.

Definition example_block : Block :=
  mkBlock (mkHeader 16 (zero_hash 20) (zero_hash 32) (zero_hash 32) (zero_hash 32) (zero_hash 32) 7 1538352002000
             [Byte.x01] (mkSignature (fromArith 32 5) (fromArith 32 6) 1))
    [example_tx; example_tx] [ReceiptCode 0x1000000] false.

Lemma example_block_writable rs : Forall TransactionReceipt.valid rs -> zlen rs < 2 ^ 20 ->
  writable (mkBlock (m_blockHeader example_block) (m_transactions example_block) rs false).
Proof.
  intros Hrs Hl. split; [| |done| |done].
  - split; vm_compute; intuition congruence.
  - repeat constructor; try apply example_tx_valid; vm_compute; reflexivity.
  - vm_compute. reflexivity.
Qed.

Lemma example_block_valid : valid example_block.
Proof.
  split; [|done]. apply (example_block_writable [ReceiptCode 0x1000000]); [|vm_compute; reflexivity].
  repeat constructor; vm_compute; congruence.
Qed.

(** With a receipt of a small code the block does not decode. *)
Lemma block_roundtrip_witness :
  (exists d, getRLPData example_block = Ok d /\ decode clear d = Ok example_block) /\
  exists d, getRLPData (mkBlock (m_blockHeader example_block) (m_transactions example_block) [ReceiptCode 1] false) = Ok d /\
    decode clear d = Throw CoreException.
Proof.
  split; [apply (block_roundtrip example_block clear), example_block_valid|].
  apply (block_roundtrip (mkBlock (m_blockHeader example_block) (m_transactions example_block) [ReceiptCode 1] false) clear).
  apply example_block_writable; [repeat constructor; vm_compute; congruence|vm_compute; reflexivity].
Defined.

(** [setRoots] succeeds on every block and the header it leaves commits to
    the transactions: its Merkle root is that of the transaction hashes and
    its other fields and the transactions are unchanged. *)
Theorem setRoots_commits (b : Block)
    (Htx : Forall (fun tx => Transaction.valid tx /\ zlen (Transaction.m_data tx) < 2 ^ 30) (m_transactions b))
    (Hlen : zlen (m_transactions b) < 2 ^ 20) :
  exists t r, setRoots b =
    Ok (setBlockHeader (BlockHeader.setRoots (merkle (map tx_hash (m_transactions b))) t r (m_blockHeader b)) b).
Proof.
  destruct (transactions_map_total (m_transactions b) 0 ∅ Htx) as (m & Hm & Hsmall); [lia|lia|apply map_Forall_empty|].
  destruct (trieRLP256_total m Hsmall) as [o Ho].
  destruct (trieRLP256_total ∅ (map_Forall_empty _)) as [o' Ho'].
  exists (sha3 o), (sha3 o'). unfold setRoots. rewrite Hm. cbn [mbind result_bind].
  rewrite getTransactionMerkle_ok by (eapply Forall_impl; [exact Htx|]; by intros ? []).
  cbn [mbind result_bind]. unfold trieHash256. rewrite Ho, Ho'. done.
Qed.

Lemma setRoots_commits_witness :
  exists t r, setRoots example_block =
    Ok (setBlockHeader (BlockHeader.setRoots (merkle (map tx_hash (m_transactions example_block))) t r
          (m_blockHeader example_block)) example_block).
Proof.
  apply setRoots_commits; [|vm_compute; reflexivity].
  repeat constructor; try apply example_tx_valid; vm_compute; reflexivity.
Defined.
