(* ===== verification/Status.v ===== *)
(** * Status messages: core/Status.{h,cpp}

    The message with which nodes ask each other for their height and for
    blocks. The layout depends on the type of the message. *)

From S2P Require Import Prelude CommonData RLP RLPFacts FixedHash SHA3 Codec.
From S2P Require Import Transaction TransactionReceipt BlockHeader Block.
Import Spec Decoder Stream.

(** [enum StatusPacketType]. *)
Definition GetHeight : Z := 1.
Definition ReplyHeight : Z := 2.
Definition SyncBlocks : Z := 3.
Definition ReplyBlocks : Z := 4.
Definition UnknownSPT : Z := 0xFF.

Record Status : Type := mkStatus {
  st_type : Z;
  st_height : Z;
  st_start : Z;
  st_end : Z;
  st_blocks : list Block
}.

(** The constructors; members they do not set keep what [u] holds, the
    indeterminate contents of the new object. *)
Definition newStatus (type : Z) (u : Status) : Status := mkStatus type (st_height u) (st_start u) (st_end u) [].
Definition newRequest (type start end_ : Z) (u : Status) : Status := mkStatus type (st_height u) start end_ [].
Definition newHeight (type number : Z) (u : Status) : Status := mkStatus type number (st_start u) (st_end u) [].

Definition addBlock (b : Block) (s : Status) : Status :=
  mkStatus (st_type s) (st_height s) (st_start s) (st_end s) (st_blocks s ++ [b]).

(** [operator=] appends the blocks to those already there. *)
Definition assign (this s : Status) : Status :=
  mkStatus (st_type s) (st_height s) (st_start s) (st_end s) (st_blocks this ++ st_blocks s).

Definition streamRLP (s : Status) (st : RLPStream) : result RLPStream :=
  if st_type s =? GetHeight then appendList 1 st ≫= chain [appendInt (u8 (st_type s))]
  else if st_type s =? ReplyHeight then
    appendList 2 st ≫= chain [appendInt (u8 (st_type s)); appendInt (st_height s)]
  else if st_type s =? SyncBlocks then
    appendList 3 st ≫= chain [appendInt (u8 (st_type s)); appendInt (st_start s); appendInt (st_end s)]
  else if st_type s =? ReplyBlocks then
    raws ← result_map Block.getRLPData (st_blocks s);
    appendList (1 + zlen (st_blocks s)) st ≫= chain
      (appendInt (u8 (st_type s)) :: map (fun r => appendRaw r 1) raws)
  else Ok st.

Definition getRLPData (s : Status) : result bytes := run (streamRLP s).

Section Populate.
Variable h0 : BlockHeader.

(** The loop of [populate]: what was pushed before a throw stays. *)
Fixpoint blocks_loop (fuel : nat) (data : bytes) (i count : Z) : list Block :=
  match fuel with
  | O => []
  | S n =>
      if i <? count then
        match nth_item data i ≫= Block.decode h0 with
        | Ok b => b :: blocks_loop n data (i + 1) count
        | Throw _ => []
        end
      else []
  end.

(** The reading of the members after the type; an exception ends it. *)
Definition populate_type (type : Z) (data : bytes) (n : Z) (s : Status) : Status :=
  let s := mkStatus type (st_height s) (st_start s) (st_end s) (st_blocks s) in
  if type =? ReplyHeight then
    match nth_item data 1 ≫= toInt_u64 with
    | Ok h => mkStatus type h (st_start s) (st_end s) (st_blocks s)
    | Throw _ => s
    end
  else if type =? SyncBlocks then
    match nth_item data 1 ≫= toInt_u64 with
    | Throw _ => s
    | Ok a =>
        match nth_item data 2 ≫= toInt_u64 with
        | Throw _ => mkStatus type (st_height s) a (st_end s) (st_blocks s)
        | Ok e => mkStatus type (st_height s) a e (st_blocks s)
        end
    end
  else if type =? ReplyBlocks then
    mkStatus type (st_height s) (st_start s) (st_end s) (st_blocks s ++ blocks_loop (Z.to_nat n) data 1 n)
  else s.

(** [populate(data)]; [catch (...)] swallows every exception. *)
Definition populate (data : bytes) (s : Status) : Status :=
  match make data VeryStrict with
  | Throw _ => s
  | Ok _ =>
      if isList data then
        match itemCount data with
        | Throw _ => s
        | Ok n =>
            if 1 <=? n then
              match nth_item data 0 ≫= toInt_u8 with
              | Throw _ => s
              | Ok type => populate_type type data n s
              end
            else s
        end
      else s
  end.

(** [Status(bytesConstRef data)]. *)
Definition decode (data : bytes) (u : Status) : Status := populate data (newStatus UnknownSPT u).
End Populate.

(** ** The codec *)

Definition enc_block (b : Block) : bytes := enc_list (Block.fields b).

(** The messages the nodes exchange, with values of their C++ types. *)
Definition valid (s : Status) : Prop :=
  match st_type s with
  | 1 => True
  | 2 => is_u64 (st_height s)
  | 3 => is_u64 (st_start s) /\ is_u64 (st_end s)
  | 4 => Forall Block.valid (st_blocks s) /\ zlen (st_blocks s) < 2 ^ 20 /\ zlen (concat (map enc_block (st_blocks s))) < 2 ^ 60
  | _ => False
  end.

Definition fields (s : Status) : list bytes :=
  enc_int (st_type s) ::
  match st_type s with
  | 2 => [enc_int (st_height s)]
  | 3 => [enc_int (st_start s); enc_int (st_end s)]
  | 4 => map enc_block (st_blocks s)
  | _ => []
  end.

(** What a message of each type carries. *)
Definition same_message (s t : Status) : Prop :=
  st_type s = st_type t /\
  match st_type s with
  | 2 => st_height s = st_height t
  | 3 => st_start s = st_start t /\ st_end s = st_end t
  | 4 => st_blocks s = st_blocks t
  | _ => True
  end.

Lemma blocks_loop_read h0 fuel d i n xs :
  read_from (Block.decode h0) fuel d i n = Ok xs -> blocks_loop h0 fuel d i n = xs.
Proof.
  revert i xs. induction fuel as [|fuel IH]; intros i xs H; cbn [read_from blocks_loop] in *; [by inv_ok|].
  destruct (i <? n); [|by inv_ok]. destruct (nth_item d i) as [it|]; [|done]. cbn [mbind result_bind] in *.
  destruct (Block.decode h0 it) as [p|]; [|done]. cbn [mbind result_bind] in *.
  destruct (read_from _ fuel d (i + 1) n) as [l|] eqn:E; [|done]. cbn in H. inv_ok. f_equal. by apply IH.
Qed.

Lemma status_types s : valid s ->
  st_type s = 1 \/ st_type s = 2 \/ st_type s = 3 \/ st_type s = 4.
Proof.
  unfold valid. destruct (st_type s) as [|p|p]; [done| |done].
  destruct p as [p|p|]; [destruct p as [p|p|]|destruct p as [p|p|]|]; try done; try lia.
  destruct p as [p|p|]; try done; lia.
Qed.

Section Facts.
Context (s : Status) (Hv : valid s).

Lemma status_fields_wf : Forall wf_item (fields s).
Proof.
  unfold valid in Hv. unfold fields. destruct (status_types s Hv) as [E|[E|[E|E]]]; rewrite E in *; cbn in Hv.
  1-3: solve_fields.
  apply Forall_cons_2; [auto with codec|]. destruct Hv as (Hb & Hn & _). apply Forall_fmap.
  eapply Forall_impl; [exact Hb|]. intros b [Hbv _]. by apply wf_enc_list, Block.fields_wf_fit.
Qed.

Lemma status_fields_fit : fits (concat (fields s)).
Proof.
  unfold valid in Hv. unfold fields. destruct (status_types s Hv) as [E|[E|[E|E]]]; rewrite E in *; cbn in Hv.
  1-3: solve_fits.
  unfold fits. cbn [concat]. rewrite zlen_app. pose proof (zlen_enc_int 4 ltac:(lia)). destruct Hv as (_ & _ & ?). lia.
Qed.

Lemma status_getRLPData_enc : getRLPData s = Ok (enc_list (fields s)).
Proof.
  pose proof status_fields_fit as Hf. unfold getRLPData, streamRLP. unfold valid in Hv.
  unfold fields in *. destruct (status_types s Hv) as [E|[E|[E|E]]]; rewrite E in *; cbn in Hv.
  1-3: change (u8 _) with (st_type s) || idtac; cbn [Z.eqb Pos.eqb GetHeight ReplyHeight SyncBlocks];
       apply run_list; [done|done|cbn; solve_fields].
  destruct Hv as (Hb & Hn & _). cbn [Z.eqb Pos.eqb GetHeight ReplyHeight SyncBlocks ReplyBlocks].
  rewrite (result_map_ok _ enc_block).
  2: { intros b Hin. apply Block.block_getRLPData_enc. by eapply Forall_forall in Hb. }
  cbn [mbind result_bind]. apply run_list; [|done|].
  - cbn [Datatypes.length]. rewrite length_map. unfold zlen. lia.
  - apply Forall2_cons_2; [cbn; auto with codec|]. clear. induction (st_blocks s); cbn; constructor; auto using writes_raw.
Qed.

Lemma status_decode_enc h0 u : same_message (decode h0 (enc_list (fields s)) u) s.
Proof.
  pose proof status_fields_fit as Hf. pose proof status_fields_wf as Hw. unfold decode, populate.
  rewrite make_enc_list, isList_enc, itemCount_list by done.
  unfold valid in Hv. unfold fields in *. destruct (status_types s Hv) as [E|[E|[E|E]]]; rewrite E in *; cbn in Hv.
  1-3: cbn [Datatypes.length Z.of_nat Pos.of_succ_nat Pos.succ Z.leb Z.compare Pos.compare Pos.compare_cont];
       read_fields; unfold populate_type; cbn [Z.eqb Pos.eqb GetHeight ReplyHeight SyncBlocks];
       read_fields; unfold same_message; cbn; try rewrite E; done.
  destruct Hv as (Hb & Hn & _). cbn [Datatypes.length]. rewrite length_map, Nat2Z.inj_succ. fold (zlen (st_blocks s)).
  pose proof (zlen_nonneg (st_blocks s)). rewrite (proj2 (Z.leb_le 1 _)) by lia. read_fields. unfold populate_type.
  cbn [Z.eqb Pos.eqb GetHeight ReplyHeight SyncBlocks ReplyBlocks]. unfold same_message. cbn. split; [done|].
  apply blocks_loop_read.
  pose proof (read_from_ok (Block.decode h0) enc_block [enc_int 4] (st_blocks s) (Z.to_nat (Z.succ (zlen (st_blocks s))))) as HR.
  change ([enc_int 4] ++ map enc_block (st_blocks s)) with (enc_int 4 :: map enc_block (st_blocks s)) in HR.
  change (zlen [enc_int 4]) with 1 in HR. 
  replace (zlen (enc_int 4 :: map enc_block (st_blocks s))) with (Z.succ (zlen (st_blocks s))) in HR
    by (rewrite zlen_cons; unfold zlen; rewrite length_map; lia).
  apply HR; [done|done| | |].
  - intros b Hin. apply Block.block_decode_enc. by eapply Forall_forall in Hb.
  - cbn [Datatypes.length]. rewrite length_map. unfold zlen in *. lia.
  - unfold zlen. lia.
Qed.
End Facts.

(** A status message of every type is decoded from its encoding: the type
    and the members that the type carries (height, range or blocks) are the
    ones sent, whatever the receiving object held before. *)
Theorem status_roundtrip (s : Status) (h0 : BlockHeader) (u : Status) (Hv : valid s) :
  exists data, getRLPData s = Ok data /\ same_message (decode h0 data u) s.
Proof. exists (enc_list (fields s)). split; [by apply status_getRLPData_enc|by apply status_decode_enc]. Qed.

Lemma status_roundtrip_witness :
  exists data, getRLPData (mkStatus ReplyBlocks 0 0 0 [Block.example_block]) = Ok data /\
    same_message (decode (m_blockHeader Block.example_block) data (mkStatus 0 1 2 3 [])) (mkStatus ReplyBlocks 0 0 0 [Block.example_block]).
Proof.
  apply (status_roundtrip (mkStatus ReplyBlocks 0 0 0 [Block.example_block])). split.
  - constructor; [exact Block.example_block_valid|constructor].
  - split; vm_compute; reflexivity.
Defined.
