(* ===== verification/BlockState.v ===== *)
(** * Block states and confirmations: chain/BlockState.{h,cpp}

    [HeaderConfirmation] is a producer's signed vote for a block;
    [BlockState] collects the confirmations of one block and decides whether
    the block is solidified. *)

From S2P Require Import Prelude CommonData RLP RLPFacts FixedHash SHA3 Codec Producer BlockHeader Block.
Import Spec Decoder Stream.

Definition HEADER_CONFIRMATION_FIELDS_WITHOUT_SIG : Z := 5.
Definition HEADER_CONFIRMATION_FIELDS_ALL : Z := 6.

Record HeaderConfirmation : Type := mkConfirmation {
  hc_chainID : Z;
  hc_number : Z;
  hc_blockID : h256;
  hc_timestamp : Z;
  hc_producer : h160;
  hc_signature : h520
}.

#[export] Instance HeaderConfirmation_eq_dec : EqDecision HeaderConfirmation.
Proof. solve_decision. Defined.

(** [HeaderConfirmation(bytesConstRef data)]; only [GSException]s are caught. *)
Definition decodeConfirmation (data : bytes) : result HeaderConfirmation :=
  _ ← make data VeryStrict;
  n ← (if isList data then itemCount data else Ok (-1));
  if isList data && (n =? HEADER_CONFIRMATION_FIELDS_ALL) then
    f0 ← nth_item data 0; chainID ← toInt_u64 f0;
    f1 ← nth_item data 1; number ← toInt_u64 f1;
    f2 ← nth_item data 2; blockID ← toHash 32 f2 VeryStrict;
    f3 ← nth_item data 3; timestamp ← toInt_i64 f3;
    f4 ← nth_item data 4; producer ← toHash 20 f4 VeryStrict;
    f5 ← nth_item data 5; sig ← toHash 65 f5 VeryStrict;
    Ok (mkConfirmation chainID number blockID timestamp producer sig)
  else Throw DeserializeException.

(** [operator==]: everything but the signature. *)
Definition confirmation_eqb (a b : HeaderConfirmation) : bool :=
  (hc_chainID a =? hc_chainID b) && (hc_number a =? hc_number b) && hash_eqb (hc_blockID a) (hc_blockID b)
  && (hc_timestamp a =? hc_timestamp b) && hash_eqb (hc_producer a) (hc_producer b).

Definition confirmation_streamRLP (c : HeaderConfirmation) (st : RLPStream) : result RLPStream :=
  appendList HEADER_CONFIRMATION_FIELDS_ALL st ≫= chain
    [appendInt (hc_chainID c); appendInt (hc_number c); appendHash (hc_blockID c);
     appendInt (hc_timestamp c); appendHash (hc_producer c); appendHash (hc_signature c)].

Definition confirmation_streamRLPContent (c : HeaderConfirmation) (st : RLPStream) : result RLPStream :=
  appendList HEADER_CONFIRMATION_FIELDS_WITHOUT_SIG st ≫= chain
    [appendInt (hc_chainID c); appendInt (hc_number c); appendHash (hc_blockID c);
     appendInt (hc_timestamp c); appendHash (hc_producer c)].

Definition confirmation_getRLPData (c : HeaderConfirmation) : result bytes := run (confirmation_streamRLP c).

Definition confirmation_getHash (c : HeaderConfirmation) : result h256 :=
  o ← run (confirmation_streamRLPContent c); Ok (sha3 o).

Record BlockState : Type := mkBlockState {
  m_block : Block;
  m_blockNumber : Z;
  m_blockID : h256;
  m_bftSolidifyBlockNumber : Z;
  m_validated : bool;
  m_inCurrentChain : bool;
  m_activeProucers : ProducerSnapshot;
  m_confirmCount : Z;
  m_confirmations : list HeaderConfirmation
}.

(** [BlockState(Block& block)]; [count0] and [ts0] are the values of the
    members the constructor does not set ([m_confirmCount] and the snapshot's
    timestamp). *)
Definition newBlockState (count0 ts0 : Z) (block : Block) : result BlockState :=
  id ← getHash block;
  Ok (mkBlockState block (m_number (m_blockHeader block)) id 0 false false (mkSnapshot ts0 []) count0 []).

(** [BlockState(BlockState const& bs)] copies every member; [operator=]
    appends the confirmations to those already there. *)
Definition assign (this bs : BlockState) : BlockState :=
  mkBlockState (m_block bs) (m_blockNumber bs) (m_blockID bs) (m_bftSolidifyBlockNumber bs) (m_validated bs)
    (m_inCurrentChain bs) (m_activeProucers bs) (m_confirmCount bs) (m_confirmations this ++ m_confirmations bs).

Definition blockstate_eqb (a b : BlockState) : bool :=
  (m_blockNumber a =? m_blockNumber b) && hash_eqb (m_blockID a) (m_blockID b)
  && (zlen (s_producers (m_activeProucers a)) =? zlen (s_producers (m_activeProucers b)))
  && (m_confirmCount a =? m_confirmCount b).

Definition setProducerSnapshot (ps : ProducerSnapshot) (s : BlockState) : BlockState :=
  mkBlockState (m_block s) (m_blockNumber s) (m_blockID s) (m_bftSolidifyBlockNumber s) (m_validated s)
    (m_inCurrentChain s) ps (m_confirmCount s) (m_confirmations s).

Definition setBft (n : Z) (s : BlockState) : BlockState :=
  mkBlockState (m_block s) (m_blockNumber s) (m_blockID s) n (m_validated s)
    (m_inCurrentChain s) (m_activeProucers s) (m_confirmCount s) (m_confirmations s).

Definition setConfirmations (count : Z) (cs : list HeaderConfirmation) (s : BlockState) : BlockState :=
  mkBlockState (m_block s) (m_blockNumber s) (m_blockID s) (m_bftSolidifyBlockNumber s) (m_validated s)
    (m_inCurrentChain s) (m_activeProucers s) count cs.

Definition getPrev (s : BlockState) : h256 := m_parentHash (m_blockHeader (m_block s)).

(** [addConfirmation(confirmation)]; the count is a [uint8_t]. *)
Definition addConfirmation (c : HeaderConfirmation) (s : BlockState) : BlockState :=
  if negb (hc_number c =? m_blockNumber s) || negb (hash_eqb (hc_blockID c) (m_blockID s)) then s
  else if negb (isExist (hc_producer c) (m_activeProucers s)) then s
  else if existsb (fun x => confirmation_eqb x c) (m_confirmations s) then s
  else setConfirmations (u8 (m_confirmCount s + 1)) (m_confirmations s ++ [c]) s.

Definition isSolidified (s : BlockState) : bool :=
  if zlen (s_producers (m_activeProucers s)) =? 0 then false
  else (zlen (s_producers (m_activeProucers s)) * 2) / 3 <=? m_confirmCount s.

Definition streamRLP (s : BlockState) (st : RLPStream) : result RLPStream :=
  ps ← run (snapshot_streamRLP (m_activeProucers s));
  raws ← result_map confirmation_getRLPData (m_confirmations s);
  appendList (4 + zlen (m_confirmations s)) st ≫= chain
    ([appendInt (m_blockNumber s); appendHash (m_blockID s); appendRaw ps 1; appendInt (m_confirmCount s)]
     ++ map (fun r => appendRaw r 1) raws).

Definition getRLPData (s : BlockState) : result bytes := run (streamRLP s).

(** The loop of the decoding constructor; what was pushed before a throw
    stays. *)
Fixpoint confirmations_loop (fuel : nat) (data : bytes) (i count : Z) : list HeaderConfirmation :=
  match fuel with
  | O => []
  | S n =>
      if i <? count then
        match nth_item data i ≫= decodeConfirmation with
        | Ok c => c :: confirmations_loop n data (i + 1) count
        | Throw _ => []
        end
      else []
  end.

(** [BlockState(bytesConstRef data)] on an object [s0]: the members are set in
    order and [catch (...)] keeps what was set before an exception. *)
Definition decode (data : bytes) (s0 : BlockState) : BlockState :=
  match make data VeryStrict, itemCount data with
  | Ok _, Ok n =>
      if isList data && (4 <=? n) then
        match nth_item data 0 ≫= toInt_u64 with
        | Throw _ => s0
        | Ok number =>
            let s1 := mkBlockState (m_block s0) number (m_blockID s0) (m_bftSolidifyBlockNumber s0) (m_validated s0)
                        (m_inCurrentChain s0) (m_activeProucers s0) (m_confirmCount s0) (m_confirmations s0) in
            match nth_item data 1 ≫= (fun it => toHash 32 it VeryStrict) with
            | Throw _ => s1
            | Ok id =>
                let s2 := mkBlockState (m_block s0) number id (m_bftSolidifyBlockNumber s0) (m_validated s0)
                            (m_inCurrentChain s0) (m_activeProucers s0) (m_confirmCount s0) (m_confirmations s0) in
                match nth_item data 2 with
                | Throw _ => s2
                | Ok aps =>
                    let s3 := setProducerSnapshot (Producer.populate aps (m_activeProucers s0)) s2 in
                    match nth_item data 3 ≫= toInt_u8 with
                    | Throw _ => s3
                    | Ok count => setConfirmations count (m_confirmations s0 ++ confirmations_loop (Z.to_nat n) data 4 n) s3
                    end
                end
            end
        end
      else s0
  | _, _ => s0
  end.

(** ** The codecs *)

Record confirmation_valid (c : HeaderConfirmation) : Prop := {
  cv_chainID : is_u64 (hc_chainID c);
  cv_number : is_u64 (hc_number c);
  cv_timestamp : 0 <= hc_timestamp c < 2 ^ 63
}.

Definition confirmation_fields (c : HeaderConfirmation) : list bytes :=
  [enc_int (hc_chainID c); enc_int (hc_number c); enc_str (vec_to_list (hc_blockID c));
   enc_int (hc_timestamp c); enc_str (vec_to_list (hc_producer c)); enc_str (vec_to_list (hc_signature c))].
Definition enc_confirmation (c : HeaderConfirmation) : bytes := enc_list (confirmation_fields c).

Section ConfirmationFacts.
Context (c : HeaderConfirmation) (Hv : confirmation_valid c).

Lemma confirmation_len : zlen (concat (confirmation_fields c)) <= 400.
Proof.
  destruct Hv. unfold confirmation_fields. cbn [concat]. rewrite ?zlen_app, ?(@zlen_nil byte). bound_fields. lia.
Qed.

Lemma confirmation_fit : fits (concat (confirmation_fields c)).
Proof. pose proof confirmation_len. unfold fits. lia. Qed.

Lemma confirmation_wf : Forall wf_item (confirmation_fields c).
Proof. destruct Hv. unfold confirmation_fields. solve_fields. Qed.

Lemma confirmation_enc : confirmation_getRLPData c = Ok (enc_confirmation c).
Proof. destruct Hv. apply run_list; [done|apply confirmation_fit|]. unfold confirmation_fields. solve_fields. Qed.

Lemma confirmation_hash_ok :
  confirmation_getHash c = Ok (sha3 (enc_list [enc_int (hc_chainID c); enc_int (hc_number c); enc_str (vec_to_list (hc_blockID c));
    enc_int (hc_timestamp c); enc_str (vec_to_list (hc_producer c))])).
Proof.
  unfold confirmation_getHash.
  match goal with |- _ = Ok (sha3 ?o) => assert (run (confirmation_streamRLPContent c) = Ok o) as ->; [|done] end.
  apply run_list; [done| |].
  - pose proof confirmation_fit as Hf. unfold fits, confirmation_fields in *. cbn [concat] in *.
    rewrite ?zlen_app in *. pose proof (zlen_nonneg (enc_str (vec_to_list (hc_signature c)))). lia.
  - destruct Hv. solve_fields.
Qed.

Lemma decodeConfirmation_enc : decodeConfirmation (enc_confirmation c) = Ok c.
Proof.
  pose proof confirmation_fit. pose proof confirmation_wf. destruct Hv.
  unfold decodeConfirmation, enc_confirmation. read_fields.
  change (6 =? HEADER_CONFIRMATION_FIELDS_ALL) with true. read_fields. by destruct c.
Qed.
End ConfirmationFacts.

Lemma confirmations_loop_read fuel d i n xs :
  read_from decodeConfirmation fuel d i n = Ok xs -> confirmations_loop fuel d i n = xs.
Proof.
  revert i xs. induction fuel as [|fuel IH]; intros i xs H; cbn [read_from confirmations_loop] in *; [by inv_ok|].
  destruct (i <? n); [|by inv_ok]. destruct (nth_item d i) as [it|]; [|done]. cbn [mbind result_bind] in *.
  destruct (decodeConfirmation it) as [p|]; [|done]. cbn [mbind result_bind] in *.
  destruct (read_from decodeConfirmation fuel d (i + 1) n) as [l|] eqn:E; [|done]. cbn in H. inv_ok. f_equal. by apply IH.
Qed.

Record valid (s : BlockState) : Prop := {
  bs_number : is_u64 (m_blockNumber s);
  bs_producers : snapshot_valid (m_activeProucers s);
  bs_count : is_u8 (m_confirmCount s);
  bs_confirmations : Forall confirmation_valid (m_confirmations s);
  bs_size : zlen (m_confirmations s) < 2 ^ 20
}.

Definition head_fields (s : BlockState) : list bytes :=
  [enc_int (m_blockNumber s); enc_str (vec_to_list (m_blockID s));
   enc_list (snapshot_fields (m_activeProucers s)); enc_int (m_confirmCount s)].
Definition fields (s : BlockState) : list bytes := head_fields s ++ map enc_confirmation (m_confirmations s).

Section Facts.
Context (s : BlockState) (Hv : valid s).

Lemma blockState_fields_fit : fits (concat (fields s)).
Proof.
  destruct Hv as [Hn Hp Hc Hcs Hsz]. pose proof (snapshot_len _ Hp) as Hsl.
  assert (zlen (concat (map enc_confirmation (m_confirmations s))) <= 410 * zlen (map enc_confirmation (m_confirmations s))) as H1.
  { apply zlen_concat_le, Forall_fmap. eapply Forall_impl; [exact Hcs|]. intros c Hcv. cbn.
    pose proof (confirmation_len c Hcv). pose proof (zlen_enc_list (confirmation_fields c) 400). unfold enc_confirmation. lia. }
  assert (zlen (map enc_confirmation (m_confirmations s)) = zlen (m_confirmations s)) as H2 by (unfold zlen; by rewrite length_map).
  pose proof (zlen_header 192 (zlen (concat (snapshot_fields (m_activeProucers s))))).
  pose proof (zlen_nonneg (concat (snapshot_fields (m_activeProucers s)))).
  assert (zlen (enc_list (snapshot_fields (m_activeProucers s))) <= 2 ^ 61) by (unfold enc_list; rewrite zlen_app; lia).
  unfold fields, head_fields, fits. rewrite concat_app, zlen_app. cbn [concat]. rewrite ?zlen_app, ?(@zlen_nil byte).
  bound_fields. lia.
Qed.

Lemma blockState_fields_wf : Forall wf_item (fields s).
Proof.
  destruct Hv as [Hn Hp Hc Hcs Hsz]. unfold fields, head_fields. apply Forall_app. split.
  - pose proof (snapshot_len _ Hp). solve_fields.
  - apply Forall_fmap. eapply Forall_impl; [exact Hcs|]. intros c Hcv. by apply wf_enc_list, confirmation_fit.
Qed.

Lemma blockState_getRLPData_enc : getRLPData s = Ok (enc_list (fields s)).
Proof.
  pose proof blockState_fields_fit as Hf. destruct Hv as [Hn Hp Hc Hcs Hsz]. unfold getRLPData, streamRLP.
  pose proof (snapshot_enc _ Hp) as Hps. unfold snapshot_getRLPData in Hps. rewrite Hps.
  rewrite (result_map_ok _ enc_confirmation).
  2: { intros c Hin. apply confirmation_enc. by eapply Forall_forall in Hcs. }
  cbn [mbind result_bind]. apply run_list; [|done|].
  - unfold fields, head_fields. rewrite length_app, length_map. cbn [Datatypes.length]. unfold zlen. lia.
  - unfold fields, head_fields. apply Forall2_app; [solve_fields|].
    clear. induction (m_confirmations s); cbn; constructor; auto using writes_raw.
Qed.

Lemma blockState_decode_enc s0 :
  m_confirmations s0 = [] ->
  decode (enc_list (fields s)) s0 =
  mkBlockState (m_block s0) (m_blockNumber s) (m_blockID s) (m_bftSolidifyBlockNumber s0) (m_validated s0)
    (m_inCurrentChain s0) (m_activeProucers s) (m_confirmCount s) (m_confirmations s).
Proof.
  intros H0. pose proof blockState_fields_fit as Hf. pose proof blockState_fields_wf as Hw. destruct Hv as [Hn Hp Hc Hcs Hsz].
  assert (Z.of_nat (Datatypes.length (fields s)) = 4 + zlen (m_confirmations s)) as Hlen.
  { unfold fields, head_fields. rewrite length_app, length_map. cbn [Datatypes.length]. unfold zlen. lia. }
  unfold decode. rewrite make_enc_list, itemCount_list, isList_enc, Hlen by done.
  pose proof (zlen_nonneg (m_confirmations s)). rewrite (proj2 (Z.leb_le _ _)) by lia. cbn [andb].
  rewrite (nth_item_enc _ 0 (enc_int (m_blockNumber s))) by (done || lia). cbn [mbind result_bind].
  rewrite toInt_u64_int by done. rewrite (nth_item_enc _ 1 (enc_str (vec_to_list (m_blockID s)))) by (done || lia).
  cbn [mbind result_bind]. rewrite toHash_str by lia.
  rewrite (nth_item_enc _ 2 (enc_list (snapshot_fields (m_activeProucers s)))) by (done || lia).
  rewrite (nth_item_enc _ 3 (enc_int (m_confirmCount s))) by (done || lia). cbn [mbind result_bind].
  rewrite toInt_u8_int, Producer.producer_populate_enc by done. rewrite H0. cbn [app setConfirmations setProducerSnapshot].
  rewrite (confirmations_loop_read _ _ _ _ (m_confirmations s)); [done|].
  pose proof (read_from_ok decodeConfirmation enc_confirmation (head_fields s) (m_confirmations s)
    (Z.to_nat (4 + zlen (m_confirmations s)))) as HR. fold (fields s) in HR.
  change (zlen (fields s)) with (Z.of_nat (Datatypes.length (fields s))) in HR. rewrite Hlen in HR.
  change (zlen (head_fields s)) with 4 in HR. apply HR; try done; try (unfold zlen in *; lia).
  intros c Hin. apply decodeConfirmation_enc. by eapply Forall_forall in Hcs.
Qed.
End Facts.

(** ** Collecting confirmations *)

(** What the confirmations of a block state satisfy. *)
Record collected (count0 : Z) (s : BlockState) : Prop := {
  col_block : Forall (fun c => hc_number c = m_blockNumber s /\ hc_blockID c = m_blockID s) (m_confirmations s);
  col_active : Forall (fun c => isExist (hc_producer c) (m_activeProucers s) = true) (m_confirmations s);
  col_distinct : StronglySorted (fun a b => confirmation_eqb a b = false) (m_confirmations s);
  col_count : m_confirmCount s = u8 (count0 + zlen (m_confirmations s))
}.

Definition confirm_all (cs : list HeaderConfirmation) (s : BlockState) : BlockState :=
  fold_left (fun s c => addConfirmation c s) cs s.

Lemma StronglySorted_snoc {A} (R : A -> A -> Prop) l x :
  StronglySorted R l -> Forall (fun y => R y x) l -> StronglySorted R (l ++ [x]).
Proof.
  induction 1 as [|y l Hl IH Hy]; intros Hx; [repeat constructor|]. apply Forall_cons in Hx as [Hyx Hx]. cbn. constructor.
  - by apply IH.
  - apply Forall_app. split; [done|]. by constructor.
Qed.

Lemma addConfirmation_collected count0 c s : collected count0 s -> collected count0 (addConfirmation c s).
Proof.
  intros Hc. unfold addConfirmation.
  destruct (negb (hc_number c =? m_blockNumber s) || negb (hash_eqb (hc_blockID c) (m_blockID s))) eqn:E1; [done|].
  destruct (isExist (hc_producer c) (m_activeProucers s)) eqn:E2; [|done]. cbn [negb].
  destruct (existsb (fun x => confirmation_eqb x c) (m_confirmations s)) eqn:E3; [done|].
  zify_bool. unfold hash_eqb in *. apply bool_decide_eq_true in H0. destruct Hc as [H1 H2 H3 H4].
  split; cbn [setConfirmations m_confirmations m_blockNumber m_blockID m_activeProucers m_confirmCount].
  - apply Forall_app. split; [done|]. by repeat constructor.
  - apply Forall_app. split; [done|]. by repeat constructor.
  - apply StronglySorted_snoc; [done|]. apply Forall_forall. intros x Hx.
    destruct (confirmation_eqb x c) eqn:Ex; [|done].
    assert (existsb (fun x => confirmation_eqb x c) (m_confirmations s) = true); [|congruence].
    apply existsb_exists. exists x. split; [by apply list_elem_of_In|done].
  - rewrite H4, zlen_app. change (zlen [c]) with 1. unfold u8. rewrite Zplus_mod_idemp_l. f_equal. lia.
Qed.

Lemma confirm_all_collected count0 cs s : collected count0 s -> collected count0 (confirm_all cs s).
Proof.
  revert s. induction cs as [|c cs IH]; intros s Hs; [done|]. apply IH. by apply addConfirmation_collected.
Qed.

(** Whatever confirmations are received, in whatever order: a block state
    keeps only confirmations of its own block (number and id), from producers
    of its active list, no two equal, and counts them (modulo 256, from the
    value the counter started with). *)
Theorem confirmations_invariant (count0 : Z) (s : BlockState) (cs : list HeaderConfirmation)
    (Hnone : m_confirmations s = []) (Hcount : m_confirmCount s = u8 count0) :
  collected count0 (confirm_all cs s).
Proof.
  apply confirm_all_collected. split; rewrite Hnone; try constructor. rewrite Hcount, zlen_nil. f_equal. lia.
Qed.

Definition seven_producers : ProducerSnapshot :=
  mkSnapshot 1538352000000 (map (fun i => newProducer (addr i) 1538352000000) [1; 2; 3; 4; 5; 6; 7]).

Definition fresh_state : BlockState :=
  mkBlockState (mkBlock clear [] [] false) 7 (fromArith 32 9) 0 false false seven_producers 0 [].

Definition vote_of (producer timestamp : Z) : HeaderConfirmation :=
  mkConfirmation 16 7 (fromArith 32 9) timestamp (addr producer) (zero_hash 65).

Lemma confirmations_invariant_witness :
  collected 0 (confirm_all [vote_of 1 5; vote_of 1 5; vote_of 9 5; vote_of 2 5] fresh_state).
Proof. apply confirmations_invariant; reflexivity. Defined.

(** The quorum counts confirmations, not producers: four confirmations of
    one and the same producer (out of seven), with different timestamps and no
    signature, solidify the block. *)
Theorem single_producer_solidifies :
  isSolidified (confirm_all [vote_of 1 1; vote_of 1 2; vote_of 1 3; vote_of 1 4] fresh_state) = true /\
  Forall (fun c => hc_producer c = addr 1)
    (m_confirmations (confirm_all [vote_of 1 1; vote_of 1 2; vote_of 1 3; vote_of 1 4] fresh_state)).
Proof. split; [vm_compute; reflexivity|]. vm_compute. repeat constructor. Qed.
