(* ===== verification/RollbackState.v ===== *)
(** * The fork database: chain/RollbackState.{h,cpp}

    Block states are shared objects ([std::shared_ptr]): they live in a heap
    and are named by their position in it. [m_index] is the multi-index
    container as the list of its elements in insertion order, unique by block
    id; [m_head] may outlive its entry in the index. *)

From S2P Require Import Prelude CommonData FixedHash SHA3 Producer BlockHeader Block BlockState.

Abbreviation ptr := nat (only parsing).

Record RollbackState : Type := mkRollback {
  heap : list BlockState;
  m_index : list ptr;
  m_head : option ptr;
  m_solidifyNumber : Z
}.

Definition empty_rollback : RollbackState := mkRollback [] [] None 0.

(** [make_shared<BlockState>(s)]. *)
Definition alloc (s : BlockState) (rs : RollbackState) : ptr * RollbackState :=
  (length (heap rs), mkRollback (heap rs ++ [s]) (m_index rs) (m_head rs) (m_solidifyNumber rs)).

Definition set_index (ix : list ptr) (rs : RollbackState) : RollbackState :=
  mkRollback (heap rs) ix (m_head rs) (m_solidifyNumber rs).
Definition set_head (h : option ptr) (rs : RollbackState) : RollbackState :=
  mkRollback (heap rs) (m_index rs) h (m_solidifyNumber rs).

(** Write through a pointer. *)
Definition update (p : ptr) (f : BlockState -> BlockState) (rs : RollbackState) : RollbackState :=
  mkRollback (alter f p (heap rs)) (m_index rs) (m_head rs) (m_solidifyNumber rs).

Definition points (P : BlockState -> bool) (rs : RollbackState) (p : ptr) : bool :=
  match heap rs !! p with Some s => P s | None => false end.

Definition find_index (P : BlockState -> bool) (rs : RollbackState) : option ptr :=
  List.find (points P rs) (m_index rs).

(** [getBlock(BlockID)] and [getBlock(uint64_t)]; among equal numbers the
    first inserted. *)
Definition getBlock (id : h256) (rs : RollbackState) : option ptr :=
  find_index (fun s => hash_eqb (m_blockID s) id) rs.
Definition getBlockByNumber (number : Z) (rs : RollbackState) : option ptr :=
  find_index (fun s => m_blockNumber s =? number) rs.

(** [m_index.insert(bsp)]: refused when the id is there. *)
Definition insert_index (p : ptr) (rs : RollbackState) : option RollbackState :=
  match heap rs !! p with
  | Some s => match getBlock (m_blockID s) rs with
              | Some _ => None
              | None => Some (set_index (m_index rs ++ [p]) rs)
              end
  | None => None
  end.

(** The first of an ordered index: the best entry, the first inserted among
    equals. [better a b] says that [a] comes strictly before [b]. *)
Definition first_by (better : BlockState -> BlockState -> bool) (rs : RollbackState) : option ptr :=
  fold_left
    (fun acc p =>
       match heap rs !! p with
       | None => acc
       | Some s =>
           match acc with
           | None => Some p
           | Some q => match heap rs !! q with
                       | Some t => if better s t then Some p else acc
                       | None => Some p
                       end
           end
       end)
    (m_index rs) None.

(** The orders of ByBlockNumber, ByUpBlockNumber and ByMultiBlockNumber. *)
Definition higher (a b : BlockState) : bool := m_blockNumber b <? m_blockNumber a.
Definition lower (a b : BlockState) : bool := m_blockNumber a <? m_blockNumber b.
Definition more_solid (a b : BlockState) : bool :=
  (m_bftSolidifyBlockNumber b <? m_bftSolidifyBlockNumber a)
  || ((m_bftSolidifyBlockNumber a =? m_bftSolidifyBlockNumber b) && (m_blockNumber a <? m_blockNumber b)).

(** [set(bsp)]. *)
Definition set (p : ptr) (rs : RollbackState) : result RollbackState :=
  match insert_index p rs with
  | None => Throw RollbackStateException
  | Some rs1 =>
      match m_head rs1 ≫= fun h => heap rs1 !! h, heap rs1 !! p with
      | Some h, Some s => Ok (if m_blockNumber h <? m_blockNumber s then set_head (Some p) rs1 else rs1)
      | _, _ => Ok (set_head (Some p) rs1)
      end
  end.

(** [add(BlockStatePtr nextBSP)]: the new state and the block state handed to
    [m_solidifiable], if any. *)
Definition add_state (p : ptr) (rs : RollbackState) : result (option ptr * RollbackState) :=
  match insert_index p rs with
  | None => Throw RollbackStateException
  | Some rs1 =>
      let rs2 := set_head (first_by higher rs1) rs1 in
      match first_by more_solid rs2 ≫= fun q => heap rs2 !! q, first_by lower rs2 ≫= fun q => heap rs2 !! q with
      | Some top, Some oldest =>
          let solidifyNumber := m_bftSolidifyBlockNumber top in
          Ok (if m_blockNumber oldest <? solidifyNumber then getBlockByNumber solidifyNumber rs2 else None, rs2)
      | _, _ => Throw RollbackStateException
      end
  end.

(** [add(Block& block, ProducerSnapshot const& ps, bool trust)]; [count0] is
    the indeterminate confirmation counter of the new object. *)
Definition add (count0 : Z) (block : Block) (ps : ProducerSnapshot) (rs : RollbackState)
    : result (ptr * option ptr * RollbackState) :=
  match m_head rs with
  | None => Throw RollbackStateException
  | Some _ =>
      id ← getHash block;
      match getBlock id rs with
      | Some _ => Throw RollbackStateException
      | None =>
          match getBlock (m_parentHash (m_blockHeader block)) rs with
          | None => Throw RollbackStateException
          | Some _ =>
              s ← newBlockState count0 0 block;
              let '(p, rs1) := alloc (setProducerSnapshot ps s) rs in
              '(sig, rs2) ← add_state p rs1;
              Ok (p, sig, rs2)
          end
      end
  end.

(** [remove(BlockID)]: the block after its ancestors. The recursion follows
    distinct entries of the index, so its length is enough fuel. *)
Fixpoint remove_loop (fuel : nat) (id : h256) (rs : RollbackState) : RollbackState :=
  match fuel with
  | O => rs
  | S f =>
      match getBlock id rs with
      | None => rs
      | Some p =>
          match heap rs !! p with
          | None => rs
          | Some s =>
              let rs1 := match getBlock (getPrev s) rs with
                         | Some _ => remove_loop f (getPrev s) rs
                         | None => rs
                         end in
              set_index (List.filter (fun q => negb (Nat.eqb p q)) (m_index rs1)) rs1
          end
      end
  end.

Definition remove (id : h256) (rs : RollbackState) : RollbackState := remove_loop (length (m_index rs)) id rs.

Definition remove_number (number : Z) (rs : RollbackState) : RollbackState :=
  match getBlockByNumber number rs ≫= fun p => heap rs !! p with
  | Some s => remove (m_blockID s) rs
  | None => rs
  end.

(** [setBFTSolidify(blockID)]. *)
Definition setBFTSolidify (id : h256) (rs : RollbackState) : RollbackState :=
  match getBlock id rs with
  | Some p => update p (fun s => setBft (m_blockNumber s) s) rs
  | None => rs
  end.

(** [add(HeaderConfirmation const& confirmation)]. *)
Definition add_confirmation (c : HeaderConfirmation) (rs : RollbackState) : RollbackState :=
  match getBlock (hc_blockID c) rs with
  | None => rs
  | Some p =>
      let rs1 := update p (addConfirmation c) rs in
      match heap rs1 !! p with
      | None => rs1
      | Some s =>
          if (m_bftSolidifyBlockNumber s <? m_blockNumber s)
             && ((zlen (s_producers (m_activeProucers s)) * 2) / 3 <=? zlen (m_confirmations s))
          then setBFTSolidify (m_blockID s) rs1 else rs1
      end
  end.

Definition setSolidifyNumber (number : Z) (rs : RollbackState) : RollbackState :=
  mkRollback (heap rs) (m_index rs) (m_head rs) number.

(** [addSyncBlockState(bs)]. *)
Definition addSyncBlockState (bs : BlockState) (rs : RollbackState) : RollbackState :=
  if m_blockNumber bs <=? m_solidifyNumber rs then rs
  else fold_left (fun rs c => add_confirmation c rs) (m_confirmations bs) rs.

(** The first two loops of [fetchBranchFrom]: climb while the number is above [floor], collecting the
    states left behind; [None] is a step limit hit. *)
Fixpoint climb (fuel : nat) (floor : Z) (p : ptr) (rs : RollbackState) : option (list ptr * option ptr) :=
  match fuel with
  | O => None
  | S f =>
      match heap rs !! p with
      | None => Some ([], None)
      | Some s =>
          if floor <? m_blockNumber s then
            match getBlock (getPrev s) rs with
            | None => Some ([p], None)
            | Some q => '(l, r) ← climb f floor q rs; Some (p :: l, r)
            end
          else Some ([], Some p)
      end
  end.

(** The third loop; the exception object it builds is not thrown, so a branch
    that leaves the index ends the loop. *)
Fixpoint climb_both (fuel : nat) (p q : option ptr) (rs : RollbackState) : option (list ptr * list ptr) :=
  match fuel with
  | O => None
  | S f =>
      match p, q with
      | Some p, Some q =>
          match heap rs !! p, heap rs !! q with
          | Some s, Some t =>
              if hash_eqb (getPrev s) (getPrev t) then Some ([], [])
              else '(l, r) ← climb_both f (getBlock (getPrev s) rs) (getBlock (getPrev t) rs) rs; Some (p :: l, q :: r)
          | _, _ => Some ([], [])
          end
      | _, _ => Some ([], [])
      end
  end.

(** [fetchBranchFrom(first, second)]; [None] is a step limit hit. *)
Definition fetchBranchFrom (fuel : nat) (first second : h256) (rs : RollbackState)
    : option (result (list ptr * list ptr)) :=
  match getBlock first rs, getBlock second rs with
  | Some p, Some q =>
      match heap rs !! p, heap rs !! q with
      | Some _, Some t =>
          '(l1, p1) ← climb fuel (m_blockNumber t) p rs;
          match p1 ≫= fun p1 => heap rs !! p1 with
          | None => Some (Throw RollbackStateAncestorException)
          | Some s1 =>
              '(l2, q1) ← climb fuel (m_blockNumber s1) q rs;
              match q1 with
              | None => Some (Throw RollbackStateAncestorException)
              | Some _ => '(l, r) ← climb_both fuel p1 q1 rs; Some (Ok (l1 ++ l, l2 ++ r))
              end
          end
      | _, _ => Some (Ok ([], []))
      end
  | _, _ => Some (Ok ([], []))
  end.

(** [rollbackTo(first, second, branch)]: the value returned and the branch
    ([branch] is empty at the call); [None] is a step limit hit. *)
Definition rollbackTo (fuel : nat) (first second : ptr) (rs : RollbackState) : option (bool * list ptr) :=
  match heap rs !! first with
  | None => None
  | Some s =>
      '(branch, prev) ← climb fuel (m_blockNumber s) second rs;
      match prev ≫= fun p => heap rs !! p with
      | None => Some (false, [])
      | Some t =>
          if negb (m_blockNumber s =? m_blockNumber t) then Some (false, [])
          else if negb (hash_eqb (getPrev s) (getPrev t)) then Some (false, [])
          else Some (true, branch)
      end
  end.

(** ** The index *)

Definition entry (rs : RollbackState) (p : ptr) (s : BlockState) : Prop := p ∈ m_index rs /\ heap rs !! p = Some s.

Definition id_at (rs : RollbackState) (p : ptr) : option h256 := m_blockID <$> heap rs !! p.

(** Every pointer of the index is live and the block ids are distinct. *)
Record index_wf (rs : RollbackState) : Prop := {
  iw_valid : Forall (fun p => is_Some (heap rs !! p)) (m_index rs);
  iw_ids : NoDup (map (id_at rs) (m_index rs))
}.

(** Parents have smaller numbers. *)
Definition linked (rs : RollbackState) : Prop :=
  forall p s q t, entry rs p s -> entry rs q t -> getPrev s = m_blockID t -> m_blockNumber t < m_blockNumber s.

Lemma entry_inj rs p q s t :
  index_wf rs -> entry rs p s -> entry rs q t -> m_blockID s = m_blockID t -> p = q.
Proof.
  intros [_ Hnd] [Hp Hs] [Hq Ht] He. apply list_elem_of_lookup in Hp as [i Hi]. apply list_elem_of_lookup in Hq as [j Hj].
  assert (i = j) as <-; [|congruence].
  eapply NoDup_lookup; [exact Hnd| |]; rewrite list_lookup_fmap; [by rewrite Hi|]. rewrite Hj. cbn. unfold id_at.
  rewrite Hs, Ht. cbn. by rewrite He.
Qed.

Lemma find_index_entry P rs p : find_index P rs = Some p -> exists s, entry rs p s /\ P s = true.
Proof.
  intros H. apply find_some in H as [Hin Hp]. unfold points in Hp. destruct (heap rs !! p) as [s|] eqn:E; [|done].
  exists s. split; [split|]; [by apply list_elem_of_In|done|done].
Qed.

Lemma find_index_none P rs p s : find_index P rs = None -> entry rs p s -> P s = false.
Proof.
  intros H [Hin Hs]. apply list_elem_of_In in Hin. pose proof (find_none _ _ H _ Hin) as Hn.
  unfold points in Hn. by rewrite Hs in Hn.
Qed.

Lemma getBlock_entry id rs p : getBlock id rs = Some p -> exists s, entry rs p s /\ m_blockID s = id.
Proof. intros (s & He & Hs)%find_index_entry. exists s. split; [done|]. by apply bool_decide_eq_true in Hs. Qed.

Lemma getBlock_none id rs p s : getBlock id rs = None -> entry rs p s -> m_blockID s <> id.
Proof. intros H He. pose proof (find_index_none _ _ _ _ H He) as Hn. by apply bool_decide_eq_false in Hn. Qed.

Lemma getBlock_some rs p s : index_wf rs -> entry rs p s -> getBlock (m_blockID s) rs = Some p.
Proof.
  intros Hw He. destruct (getBlock (m_blockID s) rs) as [q|] eqn:E.
  - apply getBlock_entry in E as (t & Ht & Hid). f_equal. by eapply entry_inj.
  - by apply (getBlock_none _ _ _ _ E) in He.
Qed.

Lemma insert_index_some p rs rs' :
  insert_index p rs = Some rs' ->
  rs' = set_index (m_index rs ++ [p]) rs /\ exists s, heap rs !! p = Some s /\ getBlock (m_blockID s) rs = None.
Proof.
  unfold insert_index. destruct (heap rs !! p) as [s|] eqn:E; [|done].
  destruct (getBlock (m_blockID s) rs) eqn:E2; [done|]. intros [= <-]. split; [done|]. by exists s.
Qed.

Lemma insert_index_wf p rs rs' : index_wf rs -> insert_index p rs = Some rs' -> index_wf rs'.
Proof.
  intros Hw (-> & s & Hs & Hn)%insert_index_some. pose proof (iw_valid _ Hw) as Hv. destruct Hw as [_ Hd]. split; cbn.
  - apply Forall_app. split; [done|]. repeat constructor. by eexists.
  - rewrite map_app. apply NoDup_app. split; [done|]. split; [|by apply NoDup_singleton].
    intros x Hx Hx2. cbn in Hx2. apply list_elem_of_singleton in Hx2. subst x.
    apply list_elem_of_fmap in Hx as (q & Hq & Hin). unfold id_at in Hq. cbn in Hq. rewrite Hs in Hq. cbn in Hq.
    destruct (heap rs !! q) as [t|] eqn:Et; [|done]. cbn in Hq. injection Hq as Hq.
    by apply (getBlock_none _ _ _ _ Hn (conj Hin Et)).
Qed.

(** ** The ordered indices *)

Section FirstBy.
Context (better : BlockState -> BlockState -> bool) (rs : RollbackState).
Context (Htrans : forall a b c, better b a = false -> better c b = false -> better c a = false).
Context (Hasym : forall a b, better a b = true -> better b a = false).

Definition best_of (l : list ptr) (acc : option ptr) : Prop :=
  match acc with
  | None => l = []
  | Some q => exists t, q ∈ l /\ heap rs !! q = Some t /\
                        forall r u, r ∈ l -> heap rs !! r = Some u -> better u t = false
  end.

Lemma better_irrefl a : better a a = false.
Proof. destruct (better a a) eqn:E; [|done]. rewrite (Hasym _ _ E) in E. done. Qed.

Lemma first_by_best :
  Forall (fun p => is_Some (heap rs !! p)) (m_index rs) -> best_of (m_index rs) (first_by better rs).
Proof.
  unfold first_by. intros Hv. change (best_of (m_index rs)) with (best_of ([] ++ m_index rs)).
  assert (best_of [] None) as H0 by done. revert H0. generalize (@None ptr) as acc. generalize (@nil ptr) as done_.
  induction Hv as [|p l [s Hs] Hv IH]; intros dn acc H0; cbn [fold_left]; [by rewrite app_nil_r|].
  rewrite Hs. change (p :: l) with ([p] ++ l). rewrite (assoc_L (++)). apply IH. destruct acc as [q|]; cbn in *.
  - destruct H0 as (t & Hq & Ht & Hb). rewrite Ht. destruct (better s t) eqn:Es; cbn.
    + exists s. split; [set_solver|]. split; [done|]. intros r u [Hr| ->%list_elem_of_singleton]%elem_of_app Hu.
      * eapply Htrans; [apply Hasym, Es|]. by eapply Hb.
      * simplify_eq. apply better_irrefl.
    + exists t. split; [set_solver|]. split; [done|]. intros r u [Hr| ->%list_elem_of_singleton]%elem_of_app Hu.
      * by eapply Hb.
      * by simplify_eq.
  - subst dn. exists s. split; [set_solver|]. split; [done|]. intros r u Hr Hu.
    apply list_elem_of_singleton in Hr. simplify_eq. apply better_irrefl.
Qed.
End FirstBy.


Lemma higher_trans a b c : higher b a = false -> higher c b = false -> higher c a = false.
Proof. unfold higher. rewrite !Z.ltb_ge. lia. Qed.
Lemma higher_asym a b : higher a b = true -> higher b a = false.
Proof. unfold higher. rewrite Z.ltb_lt, Z.ltb_ge. lia. Qed.
Lemma lower_trans a b c : lower b a = false -> lower c b = false -> lower c a = false.
Proof. unfold lower. rewrite !Z.ltb_ge. lia. Qed.
Lemma lower_asym a b : lower a b = true -> lower b a = false.
Proof. unfold lower. rewrite Z.ltb_lt, Z.ltb_ge. lia. Qed.

Lemma more_solid_true a b :
  more_solid a b = true <->
  m_bftSolidifyBlockNumber b < m_bftSolidifyBlockNumber a \/
  m_bftSolidifyBlockNumber a = m_bftSolidifyBlockNumber b /\ m_blockNumber a < m_blockNumber b.
Proof. unfold more_solid. rewrite orb_true_iff, andb_true_iff, !Z.ltb_lt, Z.eqb_eq. done. Qed.
Lemma more_solid_false a b :
  more_solid a b = false <->
  ~ (m_bftSolidifyBlockNumber b < m_bftSolidifyBlockNumber a \/
     m_bftSolidifyBlockNumber a = m_bftSolidifyBlockNumber b /\ m_blockNumber a < m_blockNumber b).
Proof. rewrite <- more_solid_true. by destruct (more_solid a b). Qed.
Lemma more_solid_trans a b c : more_solid b a = false -> more_solid c b = false -> more_solid c a = false.
Proof. rewrite !more_solid_false. lia. Qed.
Lemma more_solid_asym a b : more_solid a b = true -> more_solid b a = false.
Proof. rewrite more_solid_true, more_solid_false. lia. Qed.

(** What [add_state] does when it succeeds. *)
Lemma add_state_ok p rs sig rs' :
  index_wf rs -> add_state p rs = Ok (sig, rs') ->
  index_wf rs' /\ heap rs' = heap rs /\ m_index rs' = m_index rs ++ [p] /\ m_solidifyNumber rs' = m_solidifyNumber rs /\
  exists h s, m_head rs' = Some h /\ entry rs' h s /\
              forall q t, entry rs' q t -> m_blockNumber t <= m_blockNumber s.
Proof.
  intros Hw. unfold add_state. destruct (insert_index p rs) as [rs1|] eqn:E; [|done].
  pose proof (insert_index_wf _ _ _ Hw E) as Hw1. apply insert_index_some in E as (-> & s & Hs & Hn).
  set (rs2 := set_head _ _). intros H.
  assert (rs' = rs2) as ->.
  { repeat match type of H with context [match ?x with _ => _ end] => destruct x end; by inv_ok. }
  assert (index_wf rs2) as Hw2 by (destruct Hw1; by split). split; [done|]. split; [done|]. split; [done|]. split; [done|].
  pose proof (first_by_best higher (set_index (m_index rs ++ [p]) rs) higher_trans higher_asym (iw_valid _ Hw1)) as Hb.
  cbn [rs2 m_head set_head]. destruct (first_by higher _) as [h|]; cbn in Hb; [|by destruct (m_index rs)].
  destruct Hb as (t & Hh & Ht & Hb). exists h, t. split; [done|]. split; [done|].
  intros q u [Hq Hu]. specialize (Hb q u Hq Hu). unfold higher in Hb. lia.
Qed.

Lemma first_by_lookup better rs :
  (forall a b c, better b a = false -> better c b = false -> better c a = false) ->
  (forall a b, better a b = true -> better b a = false) ->
  Forall (fun p => is_Some (heap rs !! p)) (m_index rs) -> m_index rs <> [] ->
  exists q t, first_by better rs = Some q /\ entry rs q t /\ forall r u, entry rs r u -> better u t = false.
Proof.
  intros H1 H2 Hv Hne. pose proof (first_by_best better rs H1 H2 Hv) as Hb.
  destruct (first_by better rs) as [q|]; cbn in Hb; [|done]. destruct Hb as (t & Hq & Ht & Hb).
  exists q, t. split; [done|]. split; [done|]. intros r u [Hr Hu]. by eapply Hb.
Qed.

Lemma add_state_total p s rs :
  index_wf rs -> heap rs !! p = Some s -> getBlock (m_blockID s) rs = None -> exists sig rs', add_state p rs = Ok (sig, rs').
Proof.
  intros Hw Hs Hn. assert (insert_index p rs = Some (set_index (m_index rs ++ [p]) rs)) as E
    by (unfold insert_index; by rewrite Hs, Hn).
  pose proof (insert_index_wf _ _ _ Hw E) as Hw1. unfold add_state. rewrite E. set (rs2 := set_head _ _).
  assert (Forall (fun p => is_Some (heap rs2 !! p)) (m_index rs2)) as Hv by apply Hw1.
  assert (m_index rs2 <> []) as Hne by (cbn; by destruct (m_index rs)).
  destruct (first_by_lookup _ _ more_solid_trans more_solid_asym Hv Hne) as (q & t & -> & [_ Ht] & _).
  destruct (first_by_lookup _ _ lower_trans lower_asym Hv Hne) as (r & u & -> & [_ Hu] & _).
  cbn [mbind option_bind]. rewrite Ht, Hu. by eexists _, _.
Qed.

(** Allocation leaves the index as it was. *)
Lemma alloc_old s rs p t : heap rs !! p = Some t -> heap (alloc s rs).2 !! p = Some t.
Proof. intros H. cbn. by apply lookup_app_l_Some. Qed.

Lemma alloc_index_ids s rs :
  Forall (fun p => is_Some (heap rs !! p)) (m_index rs) ->
  Forall (fun p => heap (alloc s rs).2 !! p = heap rs !! p) (m_index rs).
Proof. intros Hv. eapply Forall_impl; [exact Hv|]. intros p [t Ht]. rewrite Ht. by apply alloc_old. Qed.

Lemma alloc_wf s rs : index_wf rs -> index_wf (alloc s rs).2.
Proof.
  intros [Hv Hd]. pose proof (alloc_index_ids s rs Hv) as Ho. split.
  - apply Forall_forall. intros p Hp. rewrite Forall_forall in Hv, Ho. cbn [m_index alloc snd] in Hp.
    rewrite Ho by done. by apply Hv.
  - cbn [alloc snd m_index]. erewrite map_ext_in; [exact Hd|]. intros p Hp. apply list_elem_of_In in Hp.
    rewrite Forall_forall in Ho. unfold id_at. by rewrite <- (Ho p Hp).
Qed.

Lemma find_ext {A} (P Q : A -> bool) l : Forall (fun x => P x = Q x) l -> List.find P l = List.find Q l.
Proof. induction 1 as [|x l Hx Hl IH]; [done|]. cbn. rewrite Hx. by destruct (Q x). Qed.

Lemma alloc_getBlock id s rs :
  Forall (fun p => is_Some (heap rs !! p)) (m_index rs) -> getBlock id (alloc s rs).2 = getBlock id rs.
Proof.
  intros Hv. apply find_ext. eapply Forall_impl; [exact (alloc_index_ids s rs Hv)|]. intros p Hp. unfold points. by rewrite Hp.
Qed.

(** The block state [add] builds. *)
Definition fresh_for (count0 : Z) (ps : ProducerSnapshot) (block : Block) (id : h256) : BlockState :=
  mkBlockState block (m_number (m_blockHeader block)) id 0 false false ps count0 [].

Lemma add_inv count0 block ps rs p sig rs' :
  add count0 block ps rs = Ok (p, sig, rs') ->
  exists id, getHash block = Ok id /\ is_Some (m_head rs) /\ getBlock id rs = None /\
             is_Some (getBlock (m_parentHash (m_blockHeader block)) rs) /\ p = length (heap rs) /\
             add_state p (alloc (fresh_for count0 ps block id) rs).2 = Ok (sig, rs').
Proof.
  unfold add. destruct (m_head rs) as [h|]; [|done]. destruct (getHash block) as [id|e] eqn:Eid; [|done].
  cbn [mbind result_bind]. destruct (getBlock id rs) eqn:E1; [done|].
  destruct (getBlock (m_parentHash (m_blockHeader block)) rs) eqn:E2; [|done].
  unfold newBlockState. rewrite Eid. cbn [mbind result_bind alloc setProducerSnapshot m_block m_blockNumber m_blockID
    m_bftSolidifyBlockNumber m_validated m_inCurrentChain m_confirmCount m_confirmations].
  destruct (add_state _ _) as [[sig' rs1]|] eqn:E3; [|done]. cbn [mbind result_bind]. intros [= <- <- <-].
  exists id. by repeat (split; [done || by eexists|]).
Qed.

(** The head after [add]: the new state if it is higher than the head, else
    the head there was. *)
Lemma first_by_snoc better rs p s q t :
  heap rs !! p = Some s -> first_by better rs = Some q -> heap rs !! q = Some t ->
  first_by better (set_index (m_index rs ++ [p]) rs) = Some (if better s t then p else q).
Proof.
  unfold first_by. intros Hp Hq Ht. cbn [set_index m_index heap]. rewrite fold_left_app, Hq. cbn [fold_left]. rewrite Hp, Ht.
  by destruct (better s t).
Qed.

Lemma first_by_alloc better s rs : index_wf rs -> first_by better (alloc s rs).2 = first_by better rs.
Proof.
  intros [Hv _]. unfold first_by. cbn [alloc snd m_index].
  assert (forall q, (None : option ptr) = Some q -> is_Some (heap rs !! q)) as Hacc by done. revert Hacc. generalize (@None ptr) as acc.
  induction Hv as [|p l [u Hu] Hv IH]; intros acc Hacc; [done|]. cbn [fold_left]. cbn [heap].
  rewrite (lookup_app_l_Some _ _ _ _ Hu), Hu. destruct acc as [q|]; [|apply IH; intros q [= <-]; by rewrite Hu].
  destruct (Hacc q eq_refl) as [w Hw]. rewrite (lookup_app_l_Some _ _ _ _ Hw), Hw.
  apply IH. intros r. destruct (better u w); intros [= <-]; by eexists.
Qed.

Lemma add_state_head p rs sig rs' : add_state p rs = Ok (sig, rs') -> m_head rs' = first_by higher (set_index (m_index rs ++ [p]) rs).
Proof.
  unfold add_state. destruct (insert_index p rs) as [rs1|] eqn:E; [|done]. apply insert_index_some in E as (-> & _).
  set (rs2 := set_head _ _). intros H. assert (rs' = rs2) as ->; [|done].
  repeat match type of H with context [match ?x with _ => _ end] => destruct x end; by inv_ok.
Qed.

Lemma add_head count0 block ps rs p sig rs' old t :
  index_wf rs -> first_by higher rs = Some old -> heap rs !! old = Some t -> add count0 block ps rs = Ok (p, sig, rs') ->
  (exists id, getHash block = Ok id /\ entry rs' p (fresh_for count0 ps block id)) /\ heap rs' !! old = Some t /\
  m_head rs' = Some (if m_blockNumber t <? m_number (m_blockHeader block) then p else old).
Proof.
  intros Hw Hold Ht Hadd. apply add_inv in Hadd as (id & Hid & _ & _ & _ & -> & Ha).
  set (s := fresh_for count0 ps block id) in *. pose proof (add_state_head _ _ _ _ Ha) as Hh.
  apply add_state_ok in Ha as (_ & Hheap & Hix & _); [|by apply alloc_wf].
  assert (heap (alloc s rs).2 !! length (heap rs) = Some s) as Hs by by apply list_lookup_middle.
  split; [exists id; split; [done|]; split; [rewrite Hix; set_solver|by rewrite Hheap]|].
  split; [rewrite Hheap; by apply alloc_old|].
  rewrite Hh. erewrite first_by_snoc; [|exact Hs|by rewrite first_by_alloc|by apply alloc_old]. done.
Qed.

Lemma add_succeeds count0 block ps rs id :
  index_wf rs -> getHash block = Ok id -> is_Some (m_head rs) -> getBlock id rs = None ->
  is_Some (getBlock (m_parentHash (m_blockHeader block)) rs) -> exists p sig rs', add count0 block ps rs = Ok (p, sig, rs').
Proof.
  intros Hw Hid [h Hh] Hn [q Hq]. unfold add. rewrite Hh, Hid. cbn [mbind result_bind]. rewrite Hn, Hq.
  unfold newBlockState. rewrite Hid. cbn [mbind result_bind].
  destruct (add_state_total (length (heap rs)) (fresh_for count0 ps block id) (alloc (fresh_for count0 ps block id) rs).2)
    as (sig & rs' & E).
  - by apply alloc_wf.
  - cbn. rewrite lookup_app_r by lia. by rewrite Nat.sub_diag.
  - rewrite alloc_getBlock by apply Hw. done.
  - cbn [alloc snd] in E |- *. change (setProducerSnapshot ps _) with (fresh_for count0 ps block id).
    match type of E with ?a = _ => match goal with |- context [add_state ?p ?r] => change (add_state p r) with a end end.
    rewrite E. cbn. by eexists _, _, _.
Qed.

(** C23. [RollbackState::add] takes a block exactly when a head is set, its id
    is new and its parent is in the index. It then holds the block as a new
    state with no confirmation and the snapshot given, keeps every older state
    as it was, keeps the block ids distinct, and its head is a state of
    highest number. *)
Theorem add_links_block count0 block ps rs id (Hw : index_wf rs) (Hid : getHash block = Ok id) :
  let fits := is_Some (m_head rs) /\ getBlock id rs = None /\
              is_Some (getBlock (m_parentHash (m_blockHeader block)) rs) in
  (fits <-> exists p sig rs', add count0 block ps rs = Ok (p, sig, rs')) /\
  (~ fits -> add count0 block ps rs = Throw RollbackStateException) /\
  forall p sig rs', add count0 block ps rs = Ok (p, sig, rs') ->
    index_wf rs' /\ m_index rs' = m_index rs ++ [p] /\ entry rs' p (fresh_for count0 ps block id) /\
    (forall q t, entry rs q t -> entry rs' q t) /\
    exists h s, m_head rs' = Some h /\ entry rs' h s /\ forall q t, entry rs' q t -> m_blockNumber t <= m_blockNumber s.
Proof.
  cbv zeta. split; [split|split].
  - intros (Hh & Hn & Hp). by eapply add_succeeds.
  - intros (p & sig & rs' & H). apply add_inv in H as (id' & Hid' & H1 & H2 & H3 & _). rewrite Hid in Hid'. injection Hid' as <-. exact (conj H1 (conj H2 H3)).
  - intros Hf. unfold add. destruct (m_head rs) eqn:E1; [|done]. rewrite Hid. cbn [mbind result_bind].
    destruct (getBlock id rs) eqn:E2; [done|]. destruct (getBlock (m_parentHash (m_blockHeader block)) rs) eqn:E3; [|done].
    exfalso. apply Hf. by repeat (split; [done || by eexists|]).
  - intros p sig rs' H. apply add_inv in H as (id' & Hid' & H1 & H2 & H3 & -> & H4).
    rewrite Hid in Hid'. injection Hid' as <-.
    apply add_state_ok in H4 as (Hw' & Hheap & Hix & _ & Hh); [|by apply alloc_wf]. cbn [alloc snd m_index heap] in Hheap, Hix.
    split; [done|]. split; [done|]. split; [|split; [|done]].
    + split; [rewrite Hix; apply elem_of_app; by (left + (right; constructor))|]. rewrite Hheap, lookup_app_r by lia. by rewrite Nat.sub_diag.
    + intros q t [Hq Ht]. split; [rewrite Hix; apply elem_of_app; by (left + (right; constructor))|]. rewrite Hheap. by apply lookup_app_l_Some.
Qed.

(** ** A small chain, for the examples *)

Definition block_at (number : Z) (parent : h256) : Block :=
  mkBlock (mkHeader 16 (addr 1) parent (zero_hash 32) (zero_hash 32) (zero_hash 32) number
             (1538352000000 + 1000 * number) [] (m_signature clear)) [] [] false.
Definition id1 : h256 := fromArith 32 27711483025990200040908277235649771721629996239821644354402635845592530953596.
Definition id2 : h256 := fromArith 32 28175399695269100852334109411107072069888909228597043505795545143391764527676.
Definition block1 : Block := block_at 1 (zero_hash 32).
Definition block2 : Block := block_at 2 id1.
Definition root_state : BlockState := setBft 1 (fresh_for 0 (mkSnapshot 0 []) block1 id1).
Definition rollback1 : RollbackState := mkRollback [root_state] [0%nat] (Some 0%nat) 0.

Lemma block1_hash : getHash block1 = Ok id1.
Proof. vm_compute. reflexivity. Qed.
Lemma block2_hash : getHash block2 = Ok id2.
Proof. vm_compute. reflexivity. Qed.

Lemma rollback1_wf : index_wf rollback1.
Proof. split; [repeat constructor; by eexists|]. apply NoDup_singleton. Qed.

Lemma add_links_block_witness :
  index_wf rollback1 /\
  exists p sig rs', add 0 block2 seven_producers rollback1 = Ok (p, sig, rs').
Proof.
  split; [apply rollback1_wf|].
  apply (add_links_block 0 block2 seven_producers rollback1 id2); [apply rollback1_wf|apply block2_hash|].
  split; [by eexists|]. split; [vm_compute; reflexivity|]. exists 0%nat. vm_compute. reflexivity.
Defined.

(** ** Pruning *)

(** [reaches rs id q]: the index entry [q] is the block [id] or an ancestor of
    it along entries of the index. *)
Inductive reaches (rs : RollbackState) : h256 -> ptr -> Prop :=
  | reaches_here p s : entry rs p s -> reaches rs (m_blockID s) p
  | reaches_prev p s q : entry rs p s -> reaches rs (getPrev s) q -> reaches rs (m_blockID s) q.

(** The entries [remove_loop] erases. *)
Fixpoint erased (fuel : nat) (id : h256) (rs : RollbackState) : list ptr :=
  match fuel with
  | O => []
  | S f => match getBlock id rs with
           | None => []
           | Some p => match heap rs !! p with None => [] | Some s => p :: erased f (getPrev s) rs end
           end
  end.

Lemma filter_filter_and {A} (P Q : A -> bool) l :
  List.filter P (List.filter Q l) = List.filter (fun x => P x && Q x) l.
Proof. induction l as [|x l IH]; [done|]. cbn. destruct (Q x); cbn; destruct (P x); cbn; by rewrite ?IH. Qed.

Lemma filter_true {A} (l : list A) : List.filter (fun _ => true) l = l.
Proof. induction l; cbn; congruence. Qed.

Lemma remove_loop_erased fuel id rs :
  remove_loop fuel id rs =
  set_index (List.filter (fun q => negb (existsb (Nat.eqb q) (erased fuel id rs))) (m_index rs)) rs.
Proof.
  assert (forall rs, rs = set_index (List.filter (fun q => negb (existsb (Nat.eqb q) [])) (m_index rs)) rs) as Hid.
  { intros [h ix hd n]. unfold set_index. cbn. f_equal. by rewrite filter_true. }
  revert id. induction fuel as [|f IH]; intros id; cbn [remove_loop erased]; [apply Hid|].
  destruct (getBlock id rs) as [p|]; [|apply Hid]. destruct (heap rs !! p) as [s|]; [|apply Hid].
  set (rs1 := match getBlock (getPrev s) rs with Some _ => remove_loop f (getPrev s) rs | None => rs end).
  assert (rs1 = set_index (List.filter (fun q => negb (existsb (Nat.eqb q) (erased f (getPrev s) rs))) (m_index rs)) rs) as ->.
  { unfold rs1. destruct (getBlock (getPrev s) rs) eqn:E; [apply IH|]. destruct f; cbn; [apply Hid|]. rewrite E. apply Hid. }
  unfold set_index. cbn [heap m_index m_head m_solidifyNumber]. f_equal. rewrite filter_filter_and.
  apply filter_ext. intros q. cbn [existsb]. rewrite negb_orb, (Nat.eqb_sym q p). done.
Qed.

Lemma erased_reaches fuel id rs q : q ∈ erased fuel id rs -> reaches rs id q.
Proof.
  revert id. induction fuel as [|f IH]; intros id H; [by apply not_elem_of_nil in H|]. cbn in H.
  destruct (getBlock id rs) as [p|] eqn:E; [|by apply not_elem_of_nil in H].
  apply getBlock_entry in E as (s & Hs & <-). pose proof Hs as [_ Hl]. rewrite Hl in H.
  apply elem_of_cons in H as [->|H]; [by constructor|]. eapply reaches_prev; [done|]. by apply IH.
Qed.

(** The number of entries at or below a block number bounds the walk. *)
Definition below (n : Z) (rs : RollbackState) : list ptr :=
  List.filter (points (fun s => m_blockNumber s <=? n) rs) (m_index rs).

Lemma filter_length_mono {A} (P Q : A -> bool) l :
  (forall x, In x l -> P x = true -> Q x = true) -> (length (List.filter P l) <= length (List.filter Q l))%nat.
Proof.
  induction l as [|x l IH]; intros H; [done|]. cbn. assert (length (List.filter P l) <= length (List.filter Q l))%nat as H1
    by (apply IH; intros y Hy; apply H; by right).
  specialize (H x (or_introl eq_refl)). destruct (P x); [rewrite H by done; cbn; lia|]. destruct (Q x); cbn; lia.
Qed.

Lemma filter_length_strict {A} (P Q : A -> bool) l x :
  (forall x, In x l -> P x = true -> Q x = true) -> In x l -> P x = false -> Q x = true ->
  (length (List.filter P l) < length (List.filter Q l))%nat.
Proof.
  induction l as [|y l IH]; intros H Hin Hp Hq; [done|]. cbn.
  assert (forall z, In z l -> P z = true -> Q z = true) as H' by (intros z Hz; apply H; by right).
  destruct Hin as [->|Hin].
  - rewrite Hp, Hq. cbn. pose proof (filter_length_mono P Q l H'). lia.
  - specialize (IH H' Hin Hp Hq). specialize (H y (or_introl eq_refl)).
    destruct (P y); [rewrite H by done; cbn; lia|]. destruct (Q y); cbn; lia.
Qed.

Lemma below_lt rs p s n : entry rs p s -> n < m_blockNumber s -> (length (below n rs) < length (below (m_blockNumber s) rs))%nat.
Proof.
  intros [Hp Hs] Hn. apply (filter_length_strict _ _ _ p).
  - intros q _. unfold points. destruct (heap rs !! q); [|done]. rewrite !Z.leb_le. lia.
  - by apply list_elem_of_In.
  - unfold points. rewrite Hs. apply Z.leb_gt. lia.
  - unfold points. rewrite Hs. apply Z.leb_le. lia.
Qed.

Lemma below_le n rs : (length (below n rs) <= length (m_index rs))%nat.
Proof. apply filter_length_le. Qed.

Lemma reaches_erased fuel id rs q :
  index_wf rs -> linked rs -> reaches rs id q ->
  (forall p s, entry rs p s -> m_blockID s = id -> (length (below (m_blockNumber s) rs) <= fuel)%nat) ->
  q ∈ erased fuel id rs.
Proof.
  intros Hw Hl Hr. revert fuel. induction Hr as [p s He|p s q He Hr IH]; intros fuel Hf.
  all: specialize (Hf _ _ He eq_refl) as Hs.
  all: assert (0 < length (below (m_blockNumber s) rs))%nat as Hpos
    by (pose proof (below_lt rs p s (m_blockNumber s - 1) He); lia).
  all: destruct fuel as [|fuel]; [lia|]; cbn [erased]; rewrite (getBlock_some _ _ _ Hw He);
    pose proof He as [_ Hh]; rewrite Hh.
  - left.
  - right. apply IH. intros p' s' He' Hid. pose proof (Hl _ _ _ _ He He' (eq_sym Hid)).
    pose proof (below_lt rs p s _ He H). lia.
Qed.

Lemma NoDup_map_filter {A B} (f : A -> B) (P : A -> bool) l : NoDup (map f l) -> NoDup (map f (List.filter P l)).
Proof.
  induction l as [|x l IH]; [done|]. cbn. intros [Hx Hd]%NoDup_cons. destruct (P x); [|by apply IH]. cbn.
  apply NoDup_cons. split; [|by apply IH]. intros (y & Hf & Hy)%list_elem_of_fmap. apply Hx, list_elem_of_fmap.
  exists y. split; [done|]. apply list_elem_of_In in Hy. apply filter_In in Hy as [Hy _]. by apply list_elem_of_In.
Qed.

Lemma index_wf_filter P rs : index_wf rs -> index_wf (set_index (List.filter P (m_index rs)) rs).
Proof.
  intros [Hv Hd]. split; cbn [m_index heap set_index].
  - rewrite Forall_forall in Hv |- *. intros x Hx. apply Hv. apply list_elem_of_In in Hx. apply filter_In in Hx as [Hx _].
    by apply list_elem_of_In.
  - change (id_at (set_index _ rs)) with (id_at rs). by apply NoDup_map_filter.
Qed.

(** [RollbackState::remove] erases exactly the block named and those of its
    ancestors that are in the index, and nothing else; the recursion ends. *)
Theorem remove_prunes (rs : RollbackState) (id : h256) (q : ptr) (Hw : index_wf rs) (Hl : linked rs) :
  (q ∈ m_index (remove id rs) <-> q ∈ m_index rs /\ ~ reaches rs id q) /\
  heap (remove id rs) = heap rs /\ index_wf (remove id rs).
Proof.
  unfold remove. rewrite remove_loop_erased. set (er := erased _ id rs).
  assert (q ∈ er <-> reaches rs id q) as Her.
  { split; [apply erased_reaches|]. intros Hr. apply reaches_erased; [done..|]. intros. apply below_le. }
  assert (forall x, existsb (Nat.eqb x) er = true <-> x ∈ er) as Hex.
  { intros x. rewrite existsb_exists, list_elem_of_In. setoid_rewrite Nat.eqb_eq.
    split; [by intros (y & Hy & ->)|]. intros Hx. by exists x. }
  cbn [m_index heap set_index]. split; [|split; [done|]].
  - rewrite !list_elem_of_In, filter_In, negb_true_iff, <- not_true_iff_false, Hex, Her. done.
  - by apply index_wf_filter.
Qed.

(** Executable checks of the two invariants. *)
Definition index_wfb (rs : RollbackState) : bool :=
  forallb (fun p => if heap rs !! p is Some _ then true else false) (m_index rs)
  && bool_decide (NoDup (map (id_at rs) (m_index rs))).

Definition linkedb (rs : RollbackState) : bool :=
  forallb (fun p => forallb (fun q =>
    match heap rs !! p, heap rs !! q with
    | Some s, Some t => negb (hash_eqb (getPrev s) (m_blockID t)) || (m_blockNumber t <? m_blockNumber s)
    | _, _ => true
    end) (m_index rs)) (m_index rs).

Lemma index_wfb_sound rs : index_wfb rs = true -> index_wf rs.
Proof.
  unfold index_wfb. intros [H1 H2]%andb_true_iff. apply bool_decide_eq_true in H2. split; [|done].
  apply Forall_forall. intros p Hp. rewrite forallb_forall in H1. apply list_elem_of_In in Hp. specialize (H1 p Hp).
  destruct (heap rs !! p); [by eexists|done].
Qed.

Lemma linkedb_sound rs : linkedb rs = true -> linked rs.
Proof.
  unfold linkedb. intros H p s q t [Hp Hs] [Hq Ht] He. rewrite forallb_forall in H. apply list_elem_of_In in Hp, Hq.
  specialize (H p Hp). rewrite forallb_forall in H. specialize (H q Hq). rewrite Hs, Ht, He in H. unfold hash_eqb in H.
  rewrite bool_decide_eq_true_2 in H by done. cbn in H. by apply Z.ltb_lt in H.
Qed.

(** A fork: block 2 and its sibling [block2'] (another timestamp) on block 1,
    and block 3 on block 2. *)
Definition id2' : h256 := fromArith 32 22.
Definition id3 : h256 := fromArith 32 3.
Definition block2' : Block :=
  mkBlock (mkHeader 16 (addr 2) id1 (zero_hash 32) (zero_hash 32) (zero_hash 32) 2
             1538352009000 [] (m_signature clear)) [] [] false.
Definition block3 : Block := block_at 3 id2.
Definition state_of (b : Block) (id : h256) : BlockState := fresh_for 0 seven_producers b id.
Definition forked : RollbackState :=
  mkRollback [root_state; state_of block2 id2; state_of block2' id2'; state_of block3 id3] [0; 1; 2; 3]%nat (Some 3%nat) 0.

Lemma forked_wf : index_wf forked.
Proof. apply index_wfb_sound. vm_compute. reflexivity. Qed.
Lemma forked_linked : linked forked.
Proof. apply linkedb_sound. vm_compute. reflexivity. Qed.

Lemma remove_prunes_witness :
  m_index (remove id2 forked) = [2; 3]%nat /\
  (2%nat ∈ m_index (remove id2 forked) <->
   2%nat ∈ m_index forked /\ ~ reaches forked id2 2%nat).
Proof.
  split; [vm_compute; reflexivity|].
  exact (proj1 (remove_prunes forked id2 2%nat forked_wf forked_linked)).
Defined.

(** ** Walking the branches *)

(** [path rs p l q]: following parents from [p], the states of [l] are passed
    and [q] is reached. *)
Inductive path (rs : RollbackState) : ptr -> list ptr -> ptr -> Prop :=
  | path_nil p s : heap rs !! p = Some s -> path rs p [] p
  | path_cons p s q l r : heap rs !! p = Some s -> getBlock (getPrev s) rs = Some q -> path rs q l r -> path rs p (p :: l) r.

Definition number_at (rs : RollbackState) (p : ptr) : Z :=
  match heap rs !! p with Some s => m_blockNumber s | None => 0 end.

Lemma climb_path fuel floor p rs l q :
  climb fuel floor p rs = Some (l, Some q) ->
  path rs p l q /\ number_at rs q <= floor /\ Forall (fun r => floor < number_at rs r) l.
Proof.
  revert p l. induction fuel as [|f IH]; intros p l H; [done|]. cbn in H.
  destruct (heap rs !! p) as [s|] eqn:Es; [|done]. destruct (floor <? m_blockNumber s) eqn:Ef; zify_bool.
  - destruct (getBlock (getPrev s) rs) as [p'|] eqn:Ep; [|done].
    destruct (climb f floor p' rs) as [[l' r']|] eqn:Ec; [|done]. cbn in H. injection H as <- ->.
    apply IH in Ec as (H1 & H2 & H3). split; [by eapply path_cons|]. split; [done|]. constructor; [|done].
    unfold number_at. by rewrite Es.
  - injection H as <- <-. split; [by eapply path_nil|]. split; [|constructor]. unfold number_at. rewrite Es. lia.
Qed.

Lemma climb_total_entry fuel floor p s rs :
  index_wf rs -> linked rs -> entry rs p s -> (length (below (m_blockNumber s) rs) <= fuel)%nat ->
  is_Some (climb (S fuel) floor p rs).
Proof.
  intros Hw Hl. revert p s. induction fuel as [|f IH]; intros p s He Hf.
  - pose proof (below_lt rs p s (m_blockNumber s - 1) He). lia.
  - cbn [climb]. pose proof He as [_ Hs]. rewrite Hs. destruct (floor <? m_blockNumber s); [|by eexists].
    destruct (getBlock (getPrev s) rs) as [q|] eqn:E; [|by eexists].
    apply getBlock_entry in E as (t & Ht & Hid). pose proof (Hl _ _ _ _ He Ht (eq_sym Hid)) as Hn.
    pose proof (below_lt rs p s _ He Hn) as Hb. destruct (IH q t Ht ltac:(lia)) as [[l r] Hc].
    change (is_Some ('(l, r) ← climb (S f) floor q rs; Some (p :: l, r))). rewrite Hc. by eexists.
Qed.

Lemma climb_total fuel floor p rs :
  index_wf rs -> linked rs -> (length (m_index rs) <= fuel)%nat -> is_Some (climb (S (S fuel)) floor p rs).
Proof.
  intros Hw Hl Hf. cbn [climb]. destruct (heap rs !! p) as [s|] eqn:Es; [|by eexists].
  destruct (floor <? m_blockNumber s); [|by eexists]. destruct (getBlock (getPrev s) rs) as [q|] eqn:E; [|by eexists].
  apply getBlock_entry in E as (t & Ht & _). pose proof (below_le (m_blockNumber t) rs).
  destruct (climb_total_entry fuel floor q t rs Hw Hl Ht ltac:(lia)) as [[l r] Hc].
  change (is_Some ('(l, r) ← climb (S fuel) floor q rs; Some (p :: l, r))). rewrite Hc. by eexists.
Qed.

Lemma climb_both_total fuel p s q rs :
  index_wf rs -> linked rs -> entry rs p s -> (length (below (m_blockNumber s) rs) <= fuel)%nat ->
  is_Some (climb_both (S fuel) (Some p) q rs).
Proof.
  intros Hw Hl. revert p s q. induction fuel as [|f IH]; intros p s q He Hf.
  - pose proof (below_lt rs p s (m_blockNumber s - 1) He). lia.
  - cbn [climb_both]. destruct q as [q|]; [|by eexists]. pose proof He as [_ Hs]. rewrite Hs.
    destruct (heap rs !! q) as [t|]; [|by eexists]. destruct (hash_eqb (getPrev s) (getPrev t)); [by eexists|].
    assert (is_Some (climb_both (S f) (getBlock (getPrev s) rs) (getBlock (getPrev t) rs) rs)) as [[l r] Hc].
    { destruct (getBlock (getPrev s) rs) as [p'|] eqn:E; [|by eexists].
      apply getBlock_entry in E as (s' & Hs' & Hid). pose proof (Hl _ _ _ _ He Hs' (eq_sym Hid)) as Hn.
      pose proof (below_lt rs p s _ He Hn). apply (IH p' s'); [done|lia]. }
    change (is_Some ('(l, r) ← climb_both (S f) (getBlock (getPrev s) rs) (getBlock (getPrev t) rs) rs; Some (p :: l, q :: r))).
    rewrite Hc. by eexists.
Qed.

(** [rollbackTo(first, second, branch)] ends, and answers [true] exactly
    with the branch from [second] up to (and without) a state that has the
    number and the parent of [first]; every state of the branch is above
    [first]. When it answers [false] the branch is empty. *)
Theorem rollbackTo_branch (rs : RollbackState) (first second : ptr) (s : BlockState) (fuel : nat)
    (Hw : index_wf rs) (Hl : linked rs) (Hs : heap rs !! first = Some s) (Hfuel : (length (m_index rs) + 2 <= fuel)%nat) :
  exists ok branch, rollbackTo fuel first second rs = Some (ok, branch) /\
    (ok = true -> exists q t, path rs second branch q /\ heap rs !! q = Some t /\
                  m_blockNumber t = m_blockNumber s /\ getPrev t = getPrev s /\
                  Forall (fun r => m_blockNumber s < number_at rs r) branch) /\
    (ok = false -> branch = []).
Proof.
  unfold rollbackTo. rewrite Hs. destruct fuel as [|[|fuel]]; [lia..|].
  destruct (climb_total fuel (m_blockNumber s) second rs Hw Hl ltac:(lia)) as [[l [q|]] Hc]; rewrite Hc; cbn [mbind option_bind].
  2: by exists false, [].
  apply climb_path in Hc as (H1 & H2 & H3). destruct (heap rs !! q) as [t|] eqn:Et; [|by exists false, []].
  destruct (negb (m_blockNumber s =? m_blockNumber t)) eqn:E1; [by exists false, []|].
  destruct (negb (hash_eqb (getPrev s) (getPrev t))) eqn:E2; [by exists false, []|].
  exists true, l. split; [done|]. split; [|done]. intros _. exists q, t. apply negb_false_iff in E1, E2.
  apply bool_decide_eq_true in E2. apply Z.eqb_eq in E1. by repeat (split; [done|]).
Qed.

Lemma rollbackTo_branch_witness :
  rollbackTo 6 2%nat 3%nat forked = Some (true, [3%nat]) /\
  exists ok branch, rollbackTo 6 2%nat 3%nat forked = Some (ok, branch) /\ (ok = false -> branch = []).
Proof.
  split; [vm_compute; reflexivity|].
  destruct (rollbackTo_branch forked 2%nat 3%nat (state_of block2' id2') 6%nat forked_wf forked_linked eq_refl (le_n 6))
    as (ok & br & H1 & _ & H3). exact (ex_intro _ ok (ex_intro _ br (conj H1 H3))).
Defined.

Lemma climb_stays fuel floor p s rs :
  heap rs !! p = Some s -> m_blockNumber s <= floor -> climb (S fuel) floor p rs = Some ([], Some p).
Proof. intros Hs Hn. cbn [climb]. rewrite Hs. by rewrite (proj2 (Z.ltb_ge _ _)). Qed.

Lemma path_end rs p l q : index_wf rs -> path rs p l q -> p ∈ m_index rs -> exists s, entry rs q s.
Proof.
  intros Hw. induction 1 as [p s Hs|p s q l r Hs Hg Hp IH]; intros Hin; [by exists s|].
  apply getBlock_entry in Hg as (t & [Ht _] & _). by apply IH.
Qed.

(** [fetchBranchFrom] ends on every pair of ids, within the size of the
    index. Its branches stop before the two states that share a parent: for
    two siblings both are empty, although the comment on the function says
    that the branches end with the common ancestor. *)
Theorem fetchBranchFrom_ends (rs : RollbackState) (fuel : nat) (Hw : index_wf rs) (Hl : linked rs)
    (Hfuel : (length (m_index rs) + 2 <= fuel)%nat) :
  (forall first second, is_Some (fetchBranchFrom fuel first second rs)) /\
  (forall p q s t, entry rs p s -> entry rs q t -> m_blockNumber s = m_blockNumber t -> getPrev s = getPrev t ->
     fetchBranchFrom fuel (m_blockID s) (m_blockID t) rs = Some (Ok ([], []))).
Proof.
  destruct fuel as [|[|fuel]]; [lia..|]. split.
  - intros first second. unfold fetchBranchFrom. destruct (getBlock first rs) as [p|] eqn:Ep; [|by eexists].
    destruct (getBlock second rs) as [q|] eqn:Eq; [|by eexists].
    apply getBlock_entry in Ep as (s & [Hpi Hs] & _). apply getBlock_entry in Eq as (t & [Hqi Ht] & _). rewrite Hs, Ht.
    destruct (climb_total fuel (m_blockNumber t) p rs Hw Hl ltac:(lia)) as [[l1 [p1|]] Hc]; rewrite Hc;
      cbn [mbind option_bind]; [|by eexists].
    apply climb_path in Hc as (Hp & _ & _). apply path_end in Hp as (s1 & Hs1); [|done..]. rewrite (proj2 Hs1).
    destruct (climb_total fuel (m_blockNumber s1) q rs Hw Hl ltac:(lia)) as [[l2 [q1|]] Hc2]; rewrite Hc2;
      cbn [mbind option_bind]; [|by eexists].
    destruct (climb_both_total (S fuel) p1 s1 (Some q1) rs Hw Hl Hs1) as [[l r] Hb];
      [pose proof (below_le (m_blockNumber s1) rs); lia|]. rewrite Hb. by eexists.
  - intros p q s t Hp Hq Hn Hprev. unfold fetchBranchFrom. rewrite !(getBlock_some _ _ _ Hw) by done.
    destruct Hp as [_ Hp], Hq as [_ Hq]. rewrite Hp, Hq, (climb_stays _ _ p s) by (done || lia). cbn [mbind option_bind].
    rewrite Hp. rewrite (climb_stays _ _ q t) by (done || lia). cbn [mbind option_bind climb_both]. rewrite Hp, Hq, Hprev.
    unfold hash_eqb. by rewrite bool_decide_eq_true_2.
Qed.

Lemma fetchBranchFrom_ends_witness :
  fetchBranchFrom 6 id2 id2' forked = Some (Ok ([], [])).
Proof.
  apply (proj2 (fetchBranchFrom_ends forked 6%nat forked_wf forked_linked (le_n 6)) 1%nat 2%nat
    (state_of block2 id2) (state_of block2' id2')).
  - split; [right; left|reflexivity].
  - split; [right; right; left|reflexivity].
  - vm_compute. reflexivity.
  - vm_compute. reflexivity.
Defined.

(** ** Reachable states *)

(** The calls that change the rollback state: the root set up from the
    database ([BlockChain::initializeRollbackState]), blocks, confirmations,
    block states sent by a peer, pruning and the solidified number. *)
Inductive step (rs : RollbackState) : RollbackState -> Prop :=
  | step_root count0 block s p rs1 rs' :
      is_u8 count0 -> newBlockState count0 0 block = Ok s ->
      alloc (setBft (m_number (m_blockHeader block)) s) rs = (p, rs1) -> set p rs1 = Ok rs' -> step rs rs'
  | step_add count0 block ps p sig rs' : is_u8 count0 -> add count0 block ps rs = Ok (p, sig, rs') -> step rs rs'
  | step_confirm c : step rs (add_confirmation c rs)
  | step_sync bs : step rs (addSyncBlockState bs rs)
  | step_remove id : step rs (remove id rs)
  | step_remove_number n : step rs (remove_number n rs)
  | step_solidify n : step rs (setSolidifyNumber n rs).

Definition reachable : RollbackState -> Prop := rtc step empty_rollback.

(** A block state's solidified number is zero, or its own number with a quorum
    of confirmations. *)
Record state_ok (s : BlockState) : Prop := {
  so_collected : exists count0, collected count0 s;
  so_bft : m_bftSolidifyBlockNumber s = 0 \/
           m_bftSolidifyBlockNumber s = m_blockNumber s /\
           (zlen (s_producers (m_activeProucers s)) * 2) / 3 <= zlen (m_confirmations s)
}.

Definition rollback_ok (rs : RollbackState) : Prop := index_wf rs /\ Forall state_ok (heap rs).

Lemma update_lookup p f rs q : heap (update p f rs) !! q = (if decide (p = q) then f <$> heap rs !! q else heap rs !! q).
Proof. cbn. case_decide as Hd; [subst; apply list_lookup_alter_eq|by apply list_lookup_alter_ne]. Qed.

Lemma update_wf p f rs : (forall s, m_blockID (f s) = m_blockID s) -> index_wf rs -> index_wf (update p f rs).
Proof.
  intros Hf [Hv Hd]. split.
  - eapply Forall_impl; [exact Hv|]. intros q [t Ht]. rewrite update_lookup, Ht. case_decide; by eexists.
  - cbn [m_index update]. erewrite map_ext_in; [exact Hd|]. intros q _. unfold id_at. rewrite update_lookup.
    case_decide; [|done]. destruct (heap rs !! q); [|done]. cbn. by rewrite Hf.
Qed.

Lemma update_ok p f rs :
  (forall s, heap rs !! p = Some s -> state_ok s -> state_ok (f s)) -> Forall state_ok (heap rs) ->
  Forall state_ok (heap (update p f rs)).
Proof.
  intros Hf H. rewrite Forall_lookup in H |- *. intros q t Hq. rewrite update_lookup in Hq. case_decide as Hd.
  - subst. destruct (heap rs !! q) as [s|] eqn:E; [|done]. cbn in Hq. injection Hq as <-. apply Hf; [done|]. by eapply H.
  - by eapply H.
Qed.

Lemma addConfirmation_fixed c s :
  m_blockID (addConfirmation c s) = m_blockID s /\ m_blockNumber (addConfirmation c s) = m_blockNumber s /\
  m_bftSolidifyBlockNumber (addConfirmation c s) = m_bftSolidifyBlockNumber s /\
  m_activeProucers (addConfirmation c s) = m_activeProucers s /\
  zlen (m_confirmations s) <= zlen (m_confirmations (addConfirmation c s)).
Proof.
  unfold addConfirmation. repeat case_match; cbn; repeat (split; [done|]); try lia.
  rewrite zlen_app. pose proof (zlen_nonneg [c]). lia.
Qed.

Lemma addConfirmation_ok c s : state_ok s -> state_ok (addConfirmation c s).
Proof.
  intros [[count0 Hc] Hb]. pose proof (addConfirmation_fixed c s) as (_ & Hn & Hbft & Ha & Hl). split.
  - exists count0. by apply addConfirmation_collected.
  - rewrite Hn, Hbft, Ha. destruct Hb as [Hb|[Hb Hq]]; [by left|right]. split; [done|lia].
Qed.

Lemma add_confirmation_ok c rs : rollback_ok rs -> rollback_ok (add_confirmation c rs).
Proof.
  intros [Hw Ho]. unfold add_confirmation. destruct (getBlock (hc_blockID c) rs) as [p|] eqn:Ep; [|done].
  assert (index_wf (update p (addConfirmation c) rs)) as Hw1 by (apply update_wf; [intros; apply addConfirmation_fixed|done]).
  assert (Forall state_ok (heap (update p (addConfirmation c) rs))) as Ho1
    by (apply update_ok; [intros; by apply addConfirmation_ok|done]).
  set (rs1 := update p (addConfirmation c) rs) in *. destruct (heap rs1 !! p) as [s|] eqn:Es; [|by split].
  destruct (_ && _) eqn:Eq; [|by split]. apply andb_true_iff in Eq as [_ Hq%Z.leb_le]. unfold setBFTSolidify.
  apply getBlock_entry in Ep as (s0 & [Hp _] & _). rewrite (getBlock_some rs1 p s Hw1) by (by split). split.
  - by apply update_wf.
  - apply update_ok; [|done]. intros s' Hs' [Hc _]. simplify_eq. split; [destruct Hc as [n Hc]; exists n; destruct Hc; by split|].
    right. by split.
Qed.

Lemma insert_index_ok p rs rs' : rollback_ok rs -> insert_index p rs = Some rs' -> rollback_ok rs'.
Proof.
  intros [Hw Ho] H. split; [by eapply insert_index_wf|]. by apply insert_index_some in H as (-> & _).
Qed.

Lemma remove_ok id rs : rollback_ok rs -> rollback_ok (remove id rs).
Proof. intros [Hw Ho]. unfold remove. rewrite remove_loop_erased. split; [by apply index_wf_filter|done]. Qed.

Lemma alloc_ok s rs : rollback_ok rs -> state_ok s -> rollback_ok (alloc s rs).2.
Proof. intros [Hw Ho] Hs. split; [by apply alloc_wf|]. cbn. apply Forall_app. split; [done|]. by apply Forall_singleton. Qed.

Lemma fresh_ok count0 ps block id : is_u8 count0 -> state_ok (fresh_for count0 ps block id).
Proof.
  intros Hc. split; [|by left]. exists count0. split; try constructor. cbn [m_confirmCount m_confirmations fresh_for].
  rewrite (@zlen_nil HeaderConfirmation), Z.add_0_r. unfold u8, is_u8 in *. by rewrite Z.mod_small by lia.
Qed.

Lemma root_ok count0 block s :
  is_u8 count0 -> newBlockState count0 0 block = Ok s -> state_ok (setBft (m_number (m_blockHeader block)) s).
Proof.
  unfold newBlockState. destruct (getHash block) as [id|]; [|done]. cbn. intros Hc [= <-]. split.
  - destruct (so_collected _ (fresh_ok count0 (mkSnapshot 0 []) block id Hc)) as [n H]. exists n. destruct H. by split.
  - right. by split.
Qed.

Lemma step_ok rs rs' : step rs rs' -> rollback_ok rs -> rollback_ok rs'.
Proof.
  intros [count0 block s p rs1 rs2 Hc Hn Ha Hset|count0 block ps p sig rs2 Hc Hadd|c|bs|id|n|n] Hr.
  - assert (rollback_ok rs1) as H1.
    { change rs1 with (p, rs1).2. rewrite <- Ha. apply alloc_ok; [done|]. by eapply root_ok. }
    unfold set in Hset. destruct (insert_index p rs1) as [rs3|] eqn:Ei; [|done]. apply insert_index_ok in Ei as [Hw Ho]; [|done].
    assert (forall h, rollback_ok (set_head h rs3)) as Hh by (intros h; split; [destruct Hw; by split|done]).
    repeat case_match; inv_ok; done || apply Hh || by split.
  - apply add_inv in Hadd as (id & _ & _ & _ & _ & -> & H).
    destruct (alloc_ok (fresh_for count0 ps block id) rs Hr (fresh_ok _ _ _ _ Hc)) as [Hw Ho].
    apply add_state_ok in H as (Hw' & Hheap & _); [|done]. split; [done|]. by rewrite Hheap.
  - by apply add_confirmation_ok.
  - unfold addSyncBlockState. case_match; [done|]. clear - Hr. revert rs Hr.
    induction (m_confirmations bs) as [|c cs IH]; intros rs Hr; [done|]. cbn. by apply IH, add_confirmation_ok.
  - by apply remove_ok.
  - unfold remove_number. case_match; [by apply remove_ok|done].
  - destruct Hr as [[]]. by repeat split.
Qed.

(** Confirmations that differ, of producers that each sent one. *)
Lemma distinct_senders (l : list HeaderConfirmation) :
  StronglySorted (fun a b => confirmation_eqb a b = false) l ->
  (forall a b, a ∈ l -> b ∈ l -> hc_producer a = hc_producer b -> confirmation_eqb a b = true) -> NoDup (map hc_producer l).
Proof.
  induction 1 as [|a l Hl IH Ha]; intros Hone; [constructor|]. cbn [map]. apply NoDup_cons. split.
  - intros (b & Hb & Hin)%list_elem_of_fmap. rewrite Forall_forall in Ha. specialize (Ha b Hin).
    by rewrite (Hone a b) in Ha by (done || (by left) || by right).
  - apply IH. intros b c Hb Hc. apply Hone; by right.
Qed.

(** C19. However blocks, confirmations, peers' block states and pruning are
    interleaved, the index keeps live, distinct blocks, and every block state
    marked solid holds confirmations, all different, all for this block and all
    naming producers of its snapshot, whose number is at least two thirds of
    that of the producers (rounded down). They come from that many producers
    when none of these sent two different ones; [operator==] is all that keeps
    a producer from being counted twice. *)
Theorem solid_blocks_have_quorum (rs : RollbackState) (Hr : reachable rs) :
  index_wf rs /\
  forall p s, entry rs p s -> m_bftSolidifyBlockNumber s <> 0 ->
    m_bftSolidifyBlockNumber s = m_blockNumber s /\
    (zlen (s_producers (m_activeProucers s)) * 2) / 3 <= zlen (m_confirmations s) /\
    (exists count0, collected count0 s) /\
    ((forall a b, a ∈ m_confirmations s -> b ∈ m_confirmations s -> hc_producer a = hc_producer b -> confirmation_eqb a b = true) ->
     NoDup (map hc_producer (m_confirmations s))).
Proof.
  assert (rollback_ok rs) as [Hw Ho].
  { apply (rtc_ind_r rollback_ok empty_rollback) in Hr; [done| |].
    - split; [|constructor]. split; constructor.
    - intros y z _ Hs Hy. by eapply step_ok. }
  split; [done|]. intros p s [_ Hs] Hb. rewrite Forall_lookup in Ho. destruct (Ho _ _ Hs) as [Hc [|[H1 H2]]]; [done|].
  split; [done|]. split; [done|]. split; [done|]. destruct Hc as [count0 Hc]. apply distinct_senders, (col_distinct _ _ Hc).
Qed.

Definition confirm2 (producer : Z) : HeaderConfirmation :=
  mkConfirmation 16 2 id2 1538352003000 (addr producer) (zero_hash 65).

(** Block 1 as the root, block 2 on it, and four producers confirm block 2. *)
Definition solid2 : result RollbackState :=
  s ← newBlockState 0 0 block1;
  let '(p, rs1) := alloc (setBft 1 s) empty_rollback in
  rs2 ← set p rs1;
  '(_, _, rs3) ← add 0 block2 seven_producers rs2;
  Ok (fold_left (fun rs c => add_confirmation c rs) (map confirm2 [1; 2; 3; 4]) rs3).
Definition rollback2 : RollbackState :=
  mkRollback [root_state; state_of block2 id2] [0; 1]%nat (Some 1%nat) 0.
Definition solid2_state : RollbackState := fold_left (fun rs c => add_confirmation c rs) (map confirm2 [1; 2; 3; 4]) rollback2.

Lemma newBlockState_hash c0 t0 b id :
  getHash b = Ok id -> newBlockState c0 t0 b = Ok (fresh_for c0 (mkSnapshot t0 []) b id).
Proof. intros H. unfold newBlockState. by rewrite H. Qed.

(** [add] of a block whose hash is known. *)
Lemma add_hash c0 b ps rs id :
  getHash b = Ok id -> is_Some (m_head rs) -> getBlock id rs = None ->
  is_Some (getBlock (m_parentHash (m_blockHeader b)) rs) ->
  add c0 b ps rs =
    let '(p, rs1) := alloc (setProducerSnapshot ps (fresh_for c0 (mkSnapshot 0 []) b id)) rs in
    '(sig, rs2) ← add_state p rs1; Ok (p, sig, rs2).
Proof.
  intros H [h Hh] H1 [q Hq]. unfold add. rewrite Hh, H. cbn [mbind result_bind]. rewrite H1, Hq.
  by rewrite (newBlockState_hash _ _ _ _ H).
Qed.

Lemma add_block2 : add 0 block2 seven_producers rollback1 = Ok (1%nat, None, rollback2).
Proof.
  etransitivity; [apply (add_hash 0 block2 seven_producers rollback1 id2 block2_hash)|].
  - by exists 0%nat.
  - vm_compute. reflexivity.
  - exists 0%nat. vm_compute. reflexivity.
  - vm_compute. reflexivity.
Qed.

(** The root and its child, as [set] and [add] build them. *)
Lemma solid2_of s p rs1 rs2 q sig rs3 :
  newBlockState 0 0 block1 = Ok s -> alloc (setBft 1 s) empty_rollback = (p, rs1) -> set p rs1 = Ok rs2 ->
  add 0 block2 seven_producers rs2 = Ok (q, sig, rs3) ->
  solid2 = Ok (fold_left (fun rs c => add_confirmation c rs) (map confirm2 [1; 2; 3; 4]) rs3).
Proof.
  unfold solid2. generalize (newBlockState 0 0 block1) as r. intros r -> H2 H3 H4. cbn [mbind result_bind].
  rewrite H2, H3. cbn [mbind result_bind]. by rewrite H4.
Qed.

Lemma solid2_ok : solid2 = Ok solid2_state.
Proof.
  exact (solid2_of _ 0%nat (mkRollback [root_state] [] None 0) rollback1 1%nat None rollback2
           (newBlockState_hash 0 0 block1 id1 block1_hash) eq_refl eq_refl add_block2).
Qed.

Lemma confirm_all_reachable cs rs :
  reachable rs -> reachable (fold_left (fun rs c => add_confirmation c rs) cs rs).
Proof.
  revert rs. induction cs as [|c cs IH]; intros rs H; [done|]. cbn. apply IH. eapply rtc_r; [exact H|]. constructor.
Qed.

Lemma solid2_reachable rs : solid2 = Ok rs -> reachable rs.
Proof.
  unfold solid2. destruct (newBlockState 0 0 block1) as [s|] eqn:E1; [|done]. cbn [mbind result_bind].
  destruct (alloc (setBft 1 s) empty_rollback) as [p rs1] eqn:E2. destruct (set p rs1) as [rs2|] eqn:E3; [|done].
  cbn [mbind result_bind]. destruct (add 0 block2 seven_producers rs2) as [[[q sig] rs3]|] eqn:E4; [|done].
  cbn [mbind result_bind]. intros [= <-].
  apply (confirm_all_reachable (map confirm2 [1; 2; 3; 4])). eapply rtc_r; [eapply rtc_once|].
  - eapply step_root; [|exact E1|exact E2|exact E3]. unfold is_u8. lia.
  - eapply step_add; [|exact E4]. unfold is_u8. lia.
Qed.

Lemma solid_blocks_have_quorum_witness :
  map m_bftSolidifyBlockNumber (heap solid2_state) = [1; 2] /\ index_wf solid2_state /\
  forall s, entry solid2_state 1%nat s -> (zlen (s_producers (m_activeProucers s)) * 2) / 3 <= zlen (m_confirmations s).
Proof.
  split; [vm_compute; reflexivity|]. destruct (solid_blocks_have_quorum solid2_state (solid2_reachable _ solid2_ok)) as [Hw Hq].
  split; [exact Hw|]. intros s He. apply (Hq 1%nat s He). destruct He as [_ He].
  assert (m_bftSolidifyBlockNumber <$> heap solid2_state !! 1%nat = Some 2) as Hs by (vm_compute; reflexivity).
  rewrite He in Hs. injection Hs as ->. discriminate.
Defined.

(** With an empty producer snapshot the quorum is zero: any confirmation
    that names the block solidifies it, and is not even recorded. *)
Theorem empty_snapshot_solidifies (rs : RollbackState) (p : ptr) (s : BlockState) (c : HeaderConfirmation)
    (Hw : index_wf rs) (He : entry rs p s) (Hc : hc_blockID c = m_blockID s)
    (Hps : s_producers (m_activeProucers s) = []) (Hn : m_bftSolidifyBlockNumber s < m_blockNumber s) :
  entry (add_confirmation c rs) p (setBft (m_blockNumber s) s).
Proof.
  unfold add_confirmation. rewrite Hc, (getBlock_some _ _ _ Hw He).
  assert (addConfirmation c s = s) as Hs.
  { unfold addConfirmation, isExist. rewrite Hps. cbn. by case_match. }
  assert (update p (addConfirmation c) rs = rs) as ->.
  { destruct rs as [h ix hd n]. unfold update. cbn. f_equal. apply list_eq. intros q. destruct (decide (p = q)) as [<-|Hne].
    - rewrite list_lookup_alter_eq. destruct He as [_ He]. cbn in He. by rewrite He; cbn; rewrite Hs.
    - by apply list_lookup_alter_ne. }
  rewrite (proj2 He), Hps, (proj2 (Z.ltb_lt _ _)) by done. cbn [andb]. rewrite (proj2 (Z.leb_le _ _)).
  - unfold setBFTSolidify. rewrite (getBlock_some _ _ _ Hw He). destruct He as [H1 H2]. split; [done|].
    rewrite update_lookup, decide_True by done. by rewrite H2.
  - rewrite (@zlen_nil Producer). apply zlen_nonneg.
Qed.

Lemma empty_snapshot_solidifies_witness :
  entry (add_confirmation (mkConfirmation 0 0 (zero_hash 32) 0 (addr 9) (zero_hash 65))
          (mkRollback [fresh_for 0 (mkSnapshot 0 []) block1 (zero_hash 32)] [0%nat] None 0)) 0%nat
    (setBft 1 (fresh_for 0 (mkSnapshot 0 []) block1 (zero_hash 32))).
Proof.
  apply (empty_snapshot_solidifies _ 0%nat (fresh_for 0 (mkSnapshot 0 []) block1 (zero_hash 32))).
  - split; [repeat constructor; by eexists|]. apply NoDup_singleton.
  - split; [left|reflexivity].
  - reflexivity.
  - reflexivity.
  - reflexivity.
Defined.
