(* ===== verification/AttributeState.v ===== *)
(** * Named attributes: core/AttributeState.{h,cpp}

    The records of the attribute store (genesis flag, dirty flag, block height
    and the three producer lists), their copies and their codec. *)

From S2P Require Import Prelude CommonData RLP RLPFacts FixedHash Codec.
Import Spec Decoder Stream.

(** [AttributeState::Type]. *)
Definition Uint64Type : Z := 0.
Definition BytesType : Z := 1.
Definition UnknownType : Z := 2.

Record AttributeState : Type := mkAttribute {
  m_key : bytes;
  m_type : Z;
  m_value : Z;
  m_data : bytes
}.

#[export] Instance AttributeState_eq_dec : EqDecision AttributeState.
Proof. solve_decision. Defined.

(** [AttributeState(key, value)] and [AttributeState(key)]. *)
Definition newUint64 (key : bytes) (value : Z) : AttributeState := mkAttribute key Uint64Type value [].
Definition newBytes (key : bytes) : AttributeState := mkAttribute key BytesType 0 [].

Definition setValue (value : Z) (t : AttributeState) : AttributeState :=
  mkAttribute (m_key t) (m_type t) value (m_data t).
Definition setData (data : bytes) (t : AttributeState) : AttributeState :=
  mkAttribute (m_key t) (m_type t) (m_value t) data.

(** [AttributeState(key, data)]; the raw item is kept for [BytesType]. Both
    handlers throw a copy of the exception with the static type caught. *)
Definition decode (key data : bytes) : result AttributeState :=
  rethrow (
    _ ← make data VeryStrict;
    n ← (if isList data then itemCount data else Ok (-1));
    if isList data && (n =? 2) then
      f0 ← nth_item data 0; type ← toInt_u32 f0;
      if type =? Uint64Type then
        f1 ← nth_item data 1; value ← toInt_u64 f1; Ok (mkAttribute key type value [])
      else if type =? BytesType then
        f1 ← nth_item data 1; Ok (mkAttribute key type 0 f1)
      else Ok (mkAttribute key type 0 [])
    else Throw AttributeStateException).

(** [operator=]: the member the type does not use keeps its old value. *)
Definition assign (this as' : AttributeState) : AttributeState :=
  mkAttribute (m_key as') (m_type as')
    (if m_type as' =? Uint64Type then m_value as' else m_value this)
    (if m_type as' =? Uint64Type then m_data this else if m_type as' =? BytesType then m_data as' else m_data this).

Definition streamRLP (t : AttributeState) (st : RLPStream) : result RLPStream :=
  appendList 2 st ≫= chain
    (appendInt (m_type t) ::
     (if m_type t =? Uint64Type then [appendInt (m_value t)]
      else if m_type t =? BytesType then [appendRaw (m_data t) 1]
      else [])).

Definition getRLPData (t : AttributeState) : result bytes := run (streamRLP t).

(** ** The codec *)

(** The two kinds the program stores. *)
Definition stored (t : AttributeState) : Prop :=
  m_type t = Uint64Type /\ is_u64 (m_value t) /\ m_data t = [] \/
  m_type t = BytesType /\ m_value t = 0 /\ wf_item (m_data t) /\ zlen (m_data t) < 2 ^ 61.

Definition fields (t : AttributeState) : list bytes :=
  [enc_int (m_type t); if m_type t =? Uint64Type then enc_int (m_value t) else m_data t].

Section Facts.
Context (t : AttributeState) (Hv : stored t).

Lemma attribute_fields_fit : fits (concat (fields t)).
Proof.
  unfold fields, fits. cbn [concat]. rewrite ?zlen_app, ?(@zlen_nil byte).
  destruct Hv as [(-> & H1 & _)|(-> & _ & _ & H1)]; cbn [Z.eqb Uint64Type BytesType Pos.eqb].
  - pose proof (zlen_enc_int Uint64Type ltac:(unfold Uint64Type; lia)). pose proof (zlen_enc_int (m_value t) ltac:(range)). lia.
  - pose proof (zlen_enc_int BytesType ltac:(unfold BytesType; lia)). lia.
Qed.

Lemma attribute_fields_wf : Forall wf_item (fields t).
Proof. unfold fields. destruct Hv as [(-> & H1 & _)|(-> & _ & H1 & _)]; unfold Uint64Type, BytesType; cbn [Z.eqb]; solve_fields. Qed.

Lemma attribute_getRLPData_enc : getRLPData t = Ok (enc_list (fields t)).
Proof.
  pose proof attribute_fields_fit as Hf. unfold getRLPData, streamRLP. apply run_list; [|done|].
  - done.
  - unfold fields. destruct Hv as [(-> & H1 & _)|(-> & _ & H1 & _)]; unfold Uint64Type, BytesType; cbn [Z.eqb Pos.eqb];
      solve_fields.
Qed.

Lemma attribute_decode_enc : decode (m_key t) (enc_list (fields t)) = Ok t.
Proof.
  pose proof attribute_fields_fit as Hf. pose proof attribute_fields_wf as Hw. unfold decode. read_fields. change (2 =? 2) with true. cbv iota.
  destruct Hv as [(Ht & H1 & H2)|(Ht & H1 & H2 & H3)]; destruct t as [k ty v d]; cbn [m_key m_type m_value m_data fields] in *; subst;
    unfold fields, Uint64Type, BytesType in *; cbn [m_key m_type m_value m_data Z.eqb Pos.eqb] in *; read_fields; done.
Qed.
End Facts.
