(* ===== verification/Database.v ===== *)
(** * The database: database/Database.{h,cpp} and database/DatabaseController.{h,cpp}

    The byte store under it (LevelDB) is an interface: a class with the laws of
    its documentation, and a finite map as an instance. [DatabaseController]
    is the ten stores; the attributes the program keeps in global variables are
    the record [Globals]. *)

From Stdlib Require Import String.
From S2P Require Import Prelude CommonData RLP RLPFacts FixedHash SHA3 Codec.
Import Spec.
From S2P Require Import Account Producer Transaction BlockHeader Block BlockState AttributeState.

(** ** The byte store *)

Class KVStore (DB : Type) : Type := {
  kv_get : bytes -> DB -> option bytes;
  kv_put : bytes -> bytes -> DB -> DB;
  kv_del : bytes -> DB -> DB;
  kv_list : DB -> list (bytes * bytes)
}.

(** What LevelDB promises of [Get], [Put], [Delete] and an iterator. *)
Class KVStoreLaws (DB : Type) `{KVStore DB} : Prop := {
  kv_get_put k k' v d : kv_get k (kv_put k' v d) = if decide (k = k') then Some v else kv_get k d;
  kv_get_del k k' d : kv_get k (kv_del k' d) = if decide (k = k') then None else kv_get k d;
  kv_list_get k v d : (k, v) ∈ kv_list d <-> kv_get k d = Some v;
  kv_list_nodup d : NoDup (kv_list d).*1
}.

(** Finite maps implement it. *)
#[export] Instance gmap_store : KVStore (gmap bytes bytes) := {
  kv_get k d := d !! k;
  kv_put k v d := <[k := v]> d;
  kv_del k d := delete k d;
  kv_list d := map_to_list d
}.

#[export] Instance gmap_store_laws : KVStoreLaws (gmap bytes bytes).
Proof.
  split; cbn.
  - intros k k' v d. case_decide; subst; [apply lookup_insert_eq|by apply lookup_insert_ne].
  - intros k k' d. case_decide; subst; [apply lookup_delete_eq|by apply lookup_delete_ne].
  - intros k v d. apply elem_of_map_to_list.
  - intros d. apply NoDup_fst_map_to_list.
Qed.

(** [toString(uint64_t)] as bytes: the decimal digits. *)
Fixpoint digits (fuel : nat) (n : Z) : list Z :=
  match fuel with
  | O => []
  | S f => if n <? 10 then [n] else digits f (n / 10) ++ [n mod 10]
  end.
Definition decimal (n : Z) : bytes := map (fun d => byte_of (48 + d)) (digits 20 n).

(** [EmptyTransaction], [EmptyBlock] and [EmptyBlockState]: namespace-scope
    objects, zero-initialised before their constructors run. *)
Definition EmptyTransaction : Transaction :=
  mkTransaction 0 0 (zero_hash 20) (zero_hash 20) 0 [] 0 (zero_hash 65).
Definition EmptyHeader : BlockHeader :=
  mkHeader (2 ^ 64 - 1) (zero_hash 20) (zero_hash 32) (zero_hash 32) (zero_hash 32) (zero_hash 32) 0 0 []
    (mkSignature (zero_hash 32) (zero_hash 32) 0).
Definition EmptyBlock : Block := mkBlock EmptyHeader [] [] false.
Definition EmptyBlockState : BlockState :=
  mkBlockState EmptyBlock 0 (zero_hash 32) 0 false false (mkSnapshot 0 []) 0 [].

Section Database.
Context {DB : Type} `{KVStore DB}.

(** [DatabaseImpl::get]: [EmptyBytes] when the key is not found. *)
Definition get (key : bytes) (db : DB) : bytes := default [] (kv_get key db).
Definition put (key value : bytes) (db : DB) : DB := kv_put key value db.
Definition get_number (key : Z) (db : DB) : bytes := get (decimal key) db.
Definition put_number (key : Z) (value : bytes) (db : DB) : DB := put (decimal key) value db.

(** [DatabaseImpl::del] deletes [toString(key)], which prints bytes in
    hexadecimal with the prefix 0x. *)
Definition del (key : bytes) (db : DB) : DB := kv_del (Hex.toHex Hex.prefix_0x key) db.

Definition getAll (db : DB) : list bytes := (kv_list db).*2.

(** ** The controller *)

Record DatabaseController : Type := mkDBC {
  m_attributesStore : DB;
  m_accountStore : DB;
  m_transactionStore : DB;
  m_blockStore : DB;
  m_blockIndexStore : DB;
  m_blockStateStore : DB;
  m_blockStateIndexStore : DB;
  m_subChainStore : DB;
  m_producerStore : DB;
  m_storageStore : DB
}.

Definition with_attributes (d : DB) (c : DatabaseController) : DatabaseController :=
  mkDBC d (m_accountStore c) (m_transactionStore c) (m_blockStore c) (m_blockIndexStore c) (m_blockStateStore c)
    (m_blockStateIndexStore c) (m_subChainStore c) (m_producerStore c) (m_storageStore c).
Definition with_account (d : DB) (c : DatabaseController) : DatabaseController :=
  mkDBC (m_attributesStore c) d (m_transactionStore c) (m_blockStore c) (m_blockIndexStore c) (m_blockStateStore c)
    (m_blockStateIndexStore c) (m_subChainStore c) (m_producerStore c) (m_storageStore c).
Definition with_transaction (d : DB) (c : DatabaseController) : DatabaseController :=
  mkDBC (m_attributesStore c) (m_accountStore c) d (m_blockStore c) (m_blockIndexStore c) (m_blockStateStore c)
    (m_blockStateIndexStore c) (m_subChainStore c) (m_producerStore c) (m_storageStore c).
Definition with_blocks (d i : DB) (c : DatabaseController) : DatabaseController :=
  mkDBC (m_attributesStore c) (m_accountStore c) (m_transactionStore c) d i (m_blockStateStore c)
    (m_blockStateIndexStore c) (m_subChainStore c) (m_producerStore c) (m_storageStore c).
Definition with_blockStates (d i : DB) (c : DatabaseController) : DatabaseController :=
  mkDBC (m_attributesStore c) (m_accountStore c) (m_transactionStore c) (m_blockStore c) (m_blockIndexStore c) d i
    (m_subChainStore c) (m_producerStore c) (m_storageStore c).
Definition with_producer (d : DB) (c : DatabaseController) : DatabaseController :=
  mkDBC (m_attributesStore c) (m_accountStore c) (m_transactionStore c) (m_blockStore c) (m_blockIndexStore c)
    (m_blockStateStore c) (m_blockStateIndexStore c) (m_subChainStore c) d (m_storageStore c).

(** [h0] and [s0] are a default-constructed header and block state, some of
    whose members are indeterminate. *)
Variable h0 : BlockHeader.
Variable s0 : BlockState.

Definition getAccount (address : h160) (c : DatabaseController) : result Account :=
  let data := get (vec_to_list address) (m_accountStore c) in
  if bool_decide (data = []) then Ok EmptyAccount else Account.decode data.

Definition put_account (account : Account) (c : DatabaseController) : result DatabaseController :=
  value ← Account.getRLPData account;
  Ok (with_account (put (Account.getKey account) value (m_accountStore c)) c).

Definition getProducer (address : h160) (c : DatabaseController) : result Producer :=
  let data := get (vec_to_list address) (m_producerStore c) in
  if bool_decide (data = []) then Ok EmptyProducer else Producer.decode data.

(** [getProducerList()]: the records are filed under the address they hold. *)
Definition getProducerList (c : DatabaseController) : result (gmap h160 Producer) :=
  ps ← result_map Producer.decode (getAll (m_producerStore c));
  Ok (fold_left (fun m p => <[Producer.m_address p := p]> m) ps ∅).

Definition put_producer (producer : Producer) (c : DatabaseController) : result DatabaseController :=
  value ← Producer.getRLPData producer;
  Ok (with_producer (put (Producer.getKey producer) value (m_producerStore c)) c).

Definition getTransaction (key : h256) (c : DatabaseController) : result Transaction :=
  let data := get (vec_to_list key) (m_transactionStore c) in
  if bool_decide (data = []) then Ok EmptyTransaction else Transaction.decode data.

Definition put_transaction (tx : Transaction) (c : DatabaseController) : result DatabaseController :=
  key ← Transaction.getKey tx;
  value ← Transaction.getRLPData tx;
  Ok (with_transaction (put key value (m_transactionStore c)) c).

Definition getBlock (key : h256) (c : DatabaseController) : result Block :=
  let data := get (vec_to_list key) (m_blockStore c) in
  if bool_decide (data = []) then Ok EmptyBlock else Block.decode h0 data.

Definition getBlockByNumber (blockNumber : Z) (c : DatabaseController) : result Block :=
  let data := get_number blockNumber (m_blockIndexStore c) in
  if bool_decide (data = []) then Ok EmptyBlock else Block.decode h0 data.

Definition put_block (block : Block) (c : DatabaseController) : result DatabaseController :=
  key ← Block.getKey block;
  value ← Block.getRLPData block;
  Ok (with_blocks (put key value (m_blockStore c))
        (put_number (m_number (m_blockHeader block)) value (m_blockIndexStore c)) c).

Definition getBlockState (key : h256) (c : DatabaseController) : BlockState :=
  let data := get (vec_to_list key) (m_blockStateStore c) in
  if bool_decide (data = []) then EmptyBlockState else BlockState.decode data s0.

Definition getBlockStateByNumber (key : Z) (c : DatabaseController) : BlockState :=
  let data := get_number key (m_blockStateIndexStore c) in
  if bool_decide (data = []) then EmptyBlockState else BlockState.decode data s0.

(** [put(BlockState&)]; the key of a block state is the key of its block. *)
Definition put_blockState (bs : BlockState) (c : DatabaseController) : result DatabaseController :=
  key ← Block.getKey (m_block bs);
  value ← BlockState.getRLPData bs;
  Ok (with_blockStates (put key value (m_blockStateStore c))
        (put_number (m_blockNumber bs) value (m_blockStateIndexStore c)) c).

Definition getAttribute (key : bytes) (c : DatabaseController) : result AttributeState :=
  AttributeState.decode key (get key (m_attributesStore c)).

Definition putAttribute (t : AttributeState) (c : DatabaseController) : result DatabaseController :=
  value ← AttributeState.getRLPData t;
  Ok (with_attributes (put (AttributeState.m_key t) value (m_attributesStore c)) c).

(** ** Start-up *)

(** The global attributes of core/AttributeState.cpp. *)
Record Globals : Type := mkGlobals {
  ATTRIBUTE_GENESIS_INITED : AttributeState;
  ATTRIBUTE_DB_DIRTY : AttributeState;
  ATTRIBUTE_CURRENT_BLOCK_HEIGHT : AttributeState;
  ATTRIBUTE_PREV_PRODUCER_LIST : AttributeState;
  ATTRIBUTE_CURRENT_PRODUCER_LIST : AttributeState;
  ATTRIBUTE_SOLIDIFY_ACTIVE_PRODUCER_LIST : AttributeState
}.

Definition set_dirty (t : AttributeState) (g : Globals) : Globals :=
  mkGlobals (ATTRIBUTE_GENESIS_INITED g) t (ATTRIBUTE_CURRENT_BLOCK_HEIGHT g) (ATTRIBUTE_PREV_PRODUCER_LIST g)
    (ATTRIBUTE_CURRENT_PRODUCER_LIST g) (ATTRIBUTE_SOLIDIFY_ACTIVE_PRODUCER_LIST g).
Definition set_height (t : AttributeState) (g : Globals) : Globals :=
  mkGlobals (ATTRIBUTE_GENESIS_INITED g) (ATTRIBUTE_DB_DIRTY g) t (ATTRIBUTE_PREV_PRODUCER_LIST g)
    (ATTRIBUTE_CURRENT_PRODUCER_LIST g) (ATTRIBUTE_SOLIDIFY_ACTIVE_PRODUCER_LIST g).
Definition set_prev (t : AttributeState) (g : Globals) : Globals :=
  mkGlobals (ATTRIBUTE_GENESIS_INITED g) (ATTRIBUTE_DB_DIRTY g) (ATTRIBUTE_CURRENT_BLOCK_HEIGHT g) t
    (ATTRIBUTE_CURRENT_PRODUCER_LIST g) (ATTRIBUTE_SOLIDIFY_ACTIVE_PRODUCER_LIST g).
Definition set_current (t : AttributeState) (g : Globals) : Globals :=
  mkGlobals (ATTRIBUTE_GENESIS_INITED g) (ATTRIBUTE_DB_DIRTY g) (ATTRIBUTE_CURRENT_BLOCK_HEIGHT g)
    (ATTRIBUTE_PREV_PRODUCER_LIST g) t (ATTRIBUTE_SOLIDIFY_ACTIVE_PRODUCER_LIST g).
Definition set_active (t : AttributeState) (g : Globals) : Globals :=
  mkGlobals (ATTRIBUTE_GENESIS_INITED g) (ATTRIBUTE_DB_DIRTY g) (ATTRIBUTE_CURRENT_BLOCK_HEIGHT g)
    (ATTRIBUTE_PREV_PRODUCER_LIST g) (ATTRIBUTE_CURRENT_PRODUCER_LIST g) t.

(** Their initial values. *)
Definition attribute_key (s : String.string) : bytes := String.list_byte_of_string s.
Definition initial_globals : Globals :=
  mkGlobals (newUint64 (attribute_key "attribute_genesis_inited_key") 1)
    (newUint64 (attribute_key "attribute_db_dirty_key") 0)
    (newUint64 (attribute_key "attribute_current_block_height") 0)
    (newBytes (attribute_key "attribute_prev_producer_list"))
    (newBytes (attribute_key "attribute_current_producer_list"))
    (newBytes (attribute_key "attribute_solidify_active_producer_list")).

(** chain/Genesis.h. *)
Record Genesis : Type := mkGenesis {
  m_initAccounts : gmap h160 Account;
  m_initProducers : gmap h160 Producer;
  m_producerSnapshot : ProducerSnapshot;
  m_genesisBlock : Block
}.

(** [checkGenesisExisted()]: every exception of the attribute decoder is
    caught. *)
Definition checkGenesisExisted (g : Globals) (c : DatabaseController) : bool :=
  match getAttribute (AttributeState.m_key (ATTRIBUTE_GENESIS_INITED g)) c with
  | Ok t => negb (AttributeState.m_value t =? 0)
  | Throw _ => false
  end.

Fixpoint put_all {A} (f : A -> DatabaseController -> result DatabaseController) (xs : list A)
    (c : DatabaseController) : result DatabaseController :=
  match xs with
  | [] => Ok c
  | x :: xs' => c' ← f x c; put_all f xs' c'
  end.

(** [initGenesis()]. *)
Definition initGenesis (genesis : Genesis) (g : Globals) (c : DatabaseController)
    : result (Globals * DatabaseController) :=
  c ← put_all put_account (map snd (map_entries (m_initAccounts genesis))) c;
  c ← put_all put_producer (map snd (map_entries (m_initProducers genesis))) c;
  c ← put_block (m_genesisBlock genesis) c;
  let g := set_height (setValue 0 (ATTRIBUTE_CURRENT_BLOCK_HEIGHT g)) g in
  c ← putAttribute (ATTRIBUTE_CURRENT_BLOCK_HEIGHT g) c;
  c ← putAttribute (ATTRIBUTE_GENESIS_INITED g) c;
  c ← putAttribute (ATTRIBUTE_DB_DIRTY g) c;
  ps ← snapshot_getRLPData (m_producerSnapshot genesis);
  let g := set_prev (setData ps (ATTRIBUTE_PREV_PRODUCER_LIST g)) g in
  let g := set_current (setData ps (ATTRIBUTE_CURRENT_PRODUCER_LIST g)) g in
  c ← putAttribute (ATTRIBUTE_PREV_PRODUCER_LIST g) c;
  c ← putAttribute (ATTRIBUTE_CURRENT_PRODUCER_LIST g) c;
  Ok (g, c).

(** [init()]: the attributes are read in order, up to the first exception. *)
Definition load_attributes (g : Globals) (c : DatabaseController) : Globals :=
  match getAttribute (AttributeState.m_key (ATTRIBUTE_CURRENT_BLOCK_HEIGHT g)) c with
  | Throw _ => g
  | Ok t =>
      let g := set_height (AttributeState.assign (ATTRIBUTE_CURRENT_BLOCK_HEIGHT g) t) g in
      match getAttribute (AttributeState.m_key (ATTRIBUTE_PREV_PRODUCER_LIST g)) c with
      | Throw _ => g
      | Ok t =>
          let g := set_prev (AttributeState.assign (ATTRIBUTE_PREV_PRODUCER_LIST g) t) g in
          match getAttribute (AttributeState.m_key (ATTRIBUTE_CURRENT_PRODUCER_LIST g)) c with
          | Throw _ => g
          | Ok t =>
              let g := set_current (AttributeState.assign (ATTRIBUTE_CURRENT_PRODUCER_LIST g) t) g in
              match getAttribute (AttributeState.m_key (ATTRIBUTE_SOLIDIFY_ACTIVE_PRODUCER_LIST g)) c with
              | Throw _ => g
              | Ok t => set_active (AttributeState.assign (ATTRIBUTE_SOLIDIFY_ACTIVE_PRODUCER_LIST g) t) g
              end
          end
      end
  end.

Definition init (genesis : Genesis) (g : Globals) (c : DatabaseController) : result (Globals * DatabaseController) :=
  if checkGenesisExisted g c then Ok (load_attributes g c, c) else initGenesis genesis g c.

(** [incrementBlockHeight(incr)] and [decrementBlockHeight(decr)]. *)
Definition incrementBlockHeight (incr : Z) (g : Globals) (c : DatabaseController) : result (Globals * DatabaseController) :=
  let h := AttributeState.m_value (ATTRIBUTE_CURRENT_BLOCK_HEIGHT g) in
  if u64 (h + incr) <? incr then Throw GSException
  else let g := set_height (setValue (u64 (h + incr)) (ATTRIBUTE_CURRENT_BLOCK_HEIGHT g)) g in
       c ← putAttribute (ATTRIBUTE_CURRENT_BLOCK_HEIGHT g) c; Ok (g, c).

Definition decrementBlockHeight (decr : Z) (g : Globals) (c : DatabaseController) : result (Globals * DatabaseController) :=
  let h := AttributeState.m_value (ATTRIBUTE_CURRENT_BLOCK_HEIGHT g) in
  if h <? decr then Throw GSException
  else let g := set_height (setValue (h - decr) (ATTRIBUTE_CURRENT_BLOCK_HEIGHT g)) g in
       c ← putAttribute (ATTRIBUTE_CURRENT_BLOCK_HEIGHT g) c; Ok (g, c).
End Database.

(** ** The store *)

Lemma digits_nonempty fuel n : digits (S fuel) n <> [].
Proof. cbn. case_match; [done|]. by destruct (digits fuel (n / 10)). Qed.

Lemma digits_range fuel n : 0 <= n -> Forall (fun d => 0 <= d < 10) (digits fuel n).
Proof.
  revert n. induction fuel as [|f IH]; intros n Hn; cbn; [constructor|]. case_match; zify_bool; [by repeat constructor|].
  apply Forall_app. split; [apply IH; apply Z.div_pos; lia|]. repeat constructor; apply Z.mod_pos_bound; lia.
Qed.

Definition digits_value (l : list Z) : Z := fold_left (fun a d => 10 * a + d) l 0.

Lemma digits_value_app l d : digits_value (l ++ [d]) = 10 * digits_value l + d.
Proof. unfold digits_value. by rewrite fold_left_app. Qed.

Lemma digits_correct fuel n : 0 <= n < 10 ^ Z.of_nat fuel -> digits_value (digits fuel n) = n.
Proof.
  revert n. induction fuel as [|f IH]; intros n Hn; [cbn in *; lia|]. cbn [digits]. case_match; zify_bool; [cbn; lia|].
  rewrite digits_value_app, IH.
  - pose proof (Z.div_mod n 10). lia.
  - rewrite Nat2Z.inj_succ, Z.pow_succ_r in Hn by lia. split; [apply Z.div_pos; lia|]. apply Z.div_lt_upper_bound; lia.
Qed.

Lemma decimal_inj n m : is_u64 n -> is_u64 m -> decimal n = decimal m -> n = m.
Proof.
  unfold is_u64. intros Hn Hm H. rewrite <- (digits_correct 20 n), <- (digits_correct 20 m) by lia. f_equal.
  pose proof (digits_range 20 n ltac:(lia)) as Rn. pose proof (digits_range 20 m ltac:(lia)) as Rm.
  unfold decimal in H. revert H Rm. generalize (digits 20 m) as l2. induction Rn as [|x l1 Hx Rn IH]; intros [|y l2] H Rm;
    try done. cbn [map] in H. injection H as Hxy H. apply Forall_cons in Rm as [Hy Rm]. f_equal; [|by apply IH].
  apply (f_equal bval) in Hxy. rewrite !bval_byte_of, !Z.mod_small in Hxy by lia. lia.
Qed.

Section Facts.
Context {DB : Type} `{KVStoreLaws DB}.

Lemma get_put k k' v (db : DB) : get k (put k' v db) = if decide (k = k') then v else get k db.
Proof. unfold get, put. rewrite kv_get_put. by case_decide. Qed.

Lemma get_put_number n m v (db : DB) :
  is_u64 n -> is_u64 m -> get_number n (put_number m v db) = if decide (n = m) then v else get_number n db.
Proof.
  intros Hn Hm. unfold get_number, put_number. rewrite get_put. destruct (decide (n = m)) as [->|Hne].
  - by rewrite decide_True.
  - rewrite decide_False; [done|]. intros He. by apply decimal_inj in He.
Qed.

(** [Database::del] removes nothing under the key it is given: it deletes
    the hexadecimal text of the key, which is never the key itself. *)
Theorem del_never_deletes (key : bytes) (db : DB) : get key (del key db) = get key db.
Proof.
  unfold get, del. rewrite kv_get_del, decide_False; [done|]. intros He. apply (f_equal zlen) in He. revert He.
  rewrite Hex.zlen_toHex. change (zlen Hex.prefix_0x) with 2. pose proof (zlen_nonneg key). lia.
Qed.

Lemma enc_list_nonempty es : enc_list es <> [].
Proof.
  intros He. apply (f_equal zlen) in He. unfold enc_list in He. rewrite zlen_app, (@zlen_nil byte) in He.
  pose proof (zlen_header_pos 192 (zlen (concat es))). pose proof (zlen_nonneg (concat es)). lia.
Qed.

Lemma database_read_enc {A} es (e : A) (f : bytes -> A) : (if bool_decide (enc_list es = []) then e else f (enc_list es)) = f (enc_list es).
Proof. rewrite bool_decide_eq_false_2; [done|]. apply enc_list_nonempty. Qed.

Lemma put_account_enc a (c : @DatabaseController DB) :
  Account.writable a ->
  put_account a c = Ok (with_account (put (vec_to_list (Account.m_address a)) (enc_list (Account.fields a)) (m_accountStore c)) c).
Proof. intros Hv. unfold put_account. by rewrite Account.account_getRLPData_enc. Qed.

Lemma put_producer_enc p (c : @DatabaseController DB) :
  Producer.valid p ->
  put_producer p c = Ok (with_producer (put (vec_to_list (Producer.m_address p)) (enc_list (Producer.fields p)) (m_producerStore c)) c).
Proof. intros Hv. unfold put_producer. by rewrite Producer.producer_getRLPData_enc. Qed.

Lemma vec_to_list_decide {N} (a b : vec byte N) {T} (x y : T) :
  (if decide (vec_to_list a = vec_to_list b) then x else y) = if decide (a = b) then x else y.
Proof.
  destruct (decide (a = b)) as [->|Hne]; [by rewrite decide_True|]. rewrite decide_False; [done|].
  intros He. by apply vec_to_list_inj2 in He.
Qed.

Lemma getAccount_put a b (c : @DatabaseController DB) v :
  getAccount b (with_account (put (vec_to_list a) v (m_accountStore c)) c) =
  if decide (b = a) then (if bool_decide (v = []) then Ok EmptyAccount else Account.decode v) else getAccount b c.
Proof. unfold getAccount. cbn [with_account m_accountStore]. rewrite get_put, vec_to_list_decide. by case_decide. Qed.

(** Storing an account succeeds, and reading the store afterwards gives
    the account (up to its code) at its own address, the unchanged answer at
    every other address, and leaves the other nine stores alone. *)
Theorem account_store_readback (a : Account) (c : @DatabaseController DB) (Hv : Account.valid a) :
  exists c', put_account a c = Ok c' /\
    (forall b, getAccount b c' = if decide (b = Account.m_address a) then Ok (setCode (enc_str (m_code a)) a) else getAccount b c) /\
    c' = with_account (m_accountStore c') c.
Proof.
  destruct Hv as [Hw Hb]. rewrite put_account_enc by done. eexists. split; [done|]. split; [|done]. intros b.
  rewrite getAccount_put. case_decide; [|done]. rewrite database_read_enc. by apply Account.account_decode_enc.
Qed.

Definition header_hash (h : BlockHeader) : h256 := sha3 (enc_list (BlockHeader.content_fields h)).

Lemma block_getHash b : BlockHeader.valid (m_blockHeader b) -> Block.getHash b = Ok (header_hash (m_blockHeader b)).
Proof. intros Hv. unfold Block.getHash, BlockHeader.getHash. by rewrite BlockHeader.header_content_enc. Qed.

Lemma block_getKey b : BlockHeader.valid (m_blockHeader b) -> Block.getKey b = Ok (vec_to_list (header_hash (m_blockHeader b))).
Proof. intros Hv. unfold Block.getKey, BlockHeader.getKey, BlockHeader.getHash. by rewrite BlockHeader.header_content_enc. Qed.

(** A block stored in the database is found again both by its id and by
    its number; other ids and numbers answer as before. *)
Theorem block_store_readback (b : Block) (h0 : BlockHeader) (c : @DatabaseController DB) (Hv : Block.valid b) :
  exists id c', Block.getHash b = Ok id /\ put_block b c = Ok c' /\
    (forall k, getBlock h0 k c' = if decide (k = id) then Ok b else getBlock h0 k c) /\
    (forall n, is_u64 n ->
       getBlockByNumber h0 n c' = if decide (n = m_number (m_blockHeader b)) then Ok b else getBlockByNumber h0 n c).
Proof.
  pose proof (Block.valid_header b Hv) as Hh. exists (header_hash (m_blockHeader b)). unfold put_block.
  rewrite block_getKey, Block.block_getRLPData_enc by done. cbn [mbind result_bind]. eexists.
  split; [by apply block_getHash|]. split; [done|]. split.
  - intros k. unfold getBlock. cbn [with_blocks m_blockStore]. rewrite get_put, vec_to_list_decide. case_decide; [|done].
    rewrite database_read_enc. by apply Block.block_decode_enc.
  - intros n Hn. unfold getBlockByNumber. cbn [with_blocks m_blockIndexStore].
    rewrite get_put_number by (done || pose proof (BlockHeader.valid_number _ Hh); unfold is_u64; lia). case_decide; [|done].
    rewrite database_read_enc. by apply Block.block_decode_enc.
Qed.

Lemma putAttribute_enc t (c : @DatabaseController DB) :
  stored t ->
  putAttribute t c = Ok (with_attributes (put (AttributeState.m_key t) (enc_list (AttributeState.fields t)) (m_attributesStore c)) c).
Proof. intros Ht. unfold putAttribute. by rewrite AttributeState.attribute_getRLPData_enc. Qed.

Lemma getAttribute_put k t (c : @DatabaseController DB) :
  stored t ->
  getAttribute k (with_attributes (put (AttributeState.m_key t) (enc_list (AttributeState.fields t)) (m_attributesStore c)) c) =
  if decide (k = AttributeState.m_key t) then Ok t else getAttribute k c.
Proof.
  intros Ht. unfold getAttribute. cbn [with_attributes m_attributesStore]. rewrite get_put. case_decide; [|done].
  subst. by apply AttributeState.attribute_decode_enc.
Qed.

(** The height attribute moves by the amount asked for, in memory and in
    the database, or the call throws and changes neither: on overflow of the
    64-bit height when incrementing, on a height smaller than the amount when
    decrementing. *)
Theorem block_height_moves (g : Globals) (c : @DatabaseController DB) (n : Z)
    (Ht : AttributeState.m_type (ATTRIBUTE_CURRENT_BLOCK_HEIGHT g) = Uint64Type)
    (Hd : AttributeState.m_data (ATTRIBUTE_CURRENT_BLOCK_HEIGHT g) = [])
    (Hh : is_u64 (AttributeState.m_value (ATTRIBUTE_CURRENT_BLOCK_HEIGHT g))) (Hn : is_u64 n) :
  let h := AttributeState.m_value (ATTRIBUTE_CURRENT_BLOCK_HEIGHT g) in
  let moved h' r := exists g' c', r = Ok (g', c') /\
    AttributeState.m_value (ATTRIBUTE_CURRENT_BLOCK_HEIGHT g') = h' /\
    getAttribute (AttributeState.m_key (ATTRIBUTE_CURRENT_BLOCK_HEIGHT g)) c' = Ok (ATTRIBUTE_CURRENT_BLOCK_HEIGHT g') in
  (if h + n <? 2 ^ 64 then moved (h + n) (incrementBlockHeight n g c) else incrementBlockHeight n g c = Throw GSException) /\
  (if n <=? h then moved (h - n) (decrementBlockHeight n g c) else decrementBlockHeight n g c = Throw GSException).
Proof.
  cbv zeta. unfold incrementBlockHeight, decrementBlockHeight. set (h := AttributeState.m_value _) in *.
  assert (forall v, is_u64 v -> stored (setValue v (ATTRIBUTE_CURRENT_BLOCK_HEIGHT g))) as Hs.
  { intros v Hv. left. by rewrite <- Hd. }
  unfold is_u64 in *. split.
  - destruct (h + n <? 2 ^ 64) eqn:E; zify_bool.
    + assert (u64 (h + n) = h + n) as -> by (unfold u64; apply Z.mod_small; lia).
      rewrite (proj2 (Z.ltb_ge _ _)) by lia. rewrite putAttribute_enc by (apply Hs; lia). cbn [mbind result_bind].
      eexists _, _. split; [done|]. split; [done|]. rewrite getAttribute_put by (apply Hs; lia). by rewrite decide_True.
    + rewrite (proj2 (Z.ltb_lt _ _)); [done|]. unfold u64. rewrite <- (Z.mod_unique (h + n) (2 ^ 64) 1 (h + n - 2 ^ 64)); lia.
  - destruct (n <=? h) eqn:E; zify_bool.
    + rewrite (proj2 (Z.ltb_ge _ _)) by lia. rewrite putAttribute_enc by (apply Hs; lia). cbn [mbind result_bind].
      eexists _, _. split; [done|]. split; [done|]. rewrite getAttribute_put by (apply Hs; lia). by rewrite decide_True.
    + by rewrite (proj2 (Z.ltb_lt _ _)) by lia.
Qed.

(** ** Genesis *)

Record genesis_valid (gen : Genesis) : Prop := {
  gv_accounts : map_Forall (fun a acc => Account.valid acc /\ Account.m_address acc = a) (m_initAccounts gen);
  gv_producers : map_Forall (fun a p => Producer.valid p /\ Producer.m_address p = a) (m_initProducers gen);
  gv_snapshot : snapshot_valid (m_producerSnapshot gen);
  gv_block : Block.valid (m_genesisBlock gen)
}.

(** Writing a list of records with distinct keys. *)
Definition put_records {A} (key val : A -> bytes) (l : list A) (d : DB) : DB :=
  fold_left (fun d x => put (key x) (val x) d) l d.

Lemma get_put_records {A} (key val : A -> bytes) l d k :
  NoDup (map key l) ->
  (forall x, x ∈ l -> get (key x) (put_records key val l d) = val x) /\
  (k ∉ map key l -> get k (put_records key val l d) = get k d).
Proof.
  revert d k. unfold put_records. induction l as [|y l IH]; intros d k Hn; [by split; [intros x ?%not_elem_of_nil|]|].
  cbn [map] in *. apply NoDup_cons in Hn as [Hy Hn]. split.
  - intros x [->|Hx]%elem_of_cons; [|by apply (IH _ k)].
    cbn [fold_left]. rewrite (proj2 (IH _ (key y) Hn)) by done. rewrite get_put. by rewrite decide_True.
  - intros [Hk1 Hk2]%not_elem_of_cons. cbn [fold_left]. rewrite (proj2 (IH _ k Hn)), get_put by done. by rewrite decide_False.
Qed.

Lemma put_all_accounts l (c : @DatabaseController DB) :
  Forall Account.writable l ->
  put_all put_account l c =
  Ok (with_account (put_records Account.getKey (fun a => enc_list (Account.fields a)) l (m_accountStore c)) c).
Proof.
  intros Hl. revert c. induction Hl as [|x l Hx Hl IH]; intros c; cbn [put_all]; [by destruct c|].
  rewrite put_account_enc by done. cbn [mbind result_bind]. rewrite IH. done.
Qed.

Lemma put_all_producers l (c : @DatabaseController DB) :
  Forall Producer.valid l ->
  put_all put_producer l c =
  Ok (with_producer (put_records Producer.getKey (fun a => enc_list (Producer.fields a)) l (m_producerStore c)) c).
Proof.
  intros Hl. revert c. induction Hl as [|x l Hx Hl IH]; intros c; cbn [put_all]; [by destruct c|].
  rewrite put_producer_enc by done. cbn [mbind result_bind]. rewrite IH. done.
Qed.

Lemma map_entries_values {N A} (m : gmap (vec byte N) A) x : x ∈ map snd (map_entries m) <-> exists k, m !! k = Some x.
Proof.
  rewrite list_elem_of_fmap. setoid_rewrite <- map_entries_lookup. split.
  - intros ([k v] & -> & Hin). by exists k.
  - intros [k Hk]. by exists (k, x).
Qed.

Lemma map_entries_keys_nodup {N A} (m : gmap (vec byte N) A) (key : A -> vec byte N) :
  map_Forall (fun k x => key x = k) m -> NoDup (map (fun x => vec_to_list (key x)) (map snd (map_entries m))).
Proof.
  intros Hk. rewrite map_map.
  assert (map (fun kv => vec_to_list (key kv.2)) (map_entries m) = map (fun kv => vec_to_list kv.1) (map_entries m)) as ->.
  { apply map_ext_in. intros [k x] Hin. apply list_elem_of_In, map_entries_lookup in Hin. cbn. by rewrite (Hk _ _ Hin). }
  rewrite <- (map_map fst vec_to_list). apply NoDup_fmap_2; [intros x y; apply vec_to_list_inj2|].
  rewrite map_entries_perm. apply NoDup_fst_map_to_list.
Qed.

Lemma snapshot_data_stored k ps :
  snapshot_valid ps -> stored (setData (enc_list (snapshot_fields ps)) (newBytes k)).
Proof.
  intros Hps. pose proof (snapshot_len _ Hps). right. cbn. split; [done|]. split; [done|]. split.
  - apply wf_enc_list. unfold fits. lia.
  - pose proof (zlen_header 192 (zlen (concat (snapshot_fields ps)))). pose proof (zlen_nonneg (concat (snapshot_fields ps))).
    unfold enc_list. rewrite zlen_app. lia.
Qed.

(** The attributes after the first start. *)
Definition genesis_globals (ps : bytes) : Globals :=
  set_current (setData ps (ATTRIBUTE_CURRENT_PRODUCER_LIST initial_globals))
    (set_prev (setData ps (ATTRIBUTE_PREV_PRODUCER_LIST initial_globals)) initial_globals).

Definition put_attr (t : AttributeState) (c : @DatabaseController DB) : @DatabaseController DB :=
  with_attributes (put (AttributeState.m_key t) (enc_list (AttributeState.fields t)) (m_attributesStore c)) c.

(** The database after the genesis attributes were written. *)
Definition put_genesis_attributes (ps : bytes) (c : @DatabaseController DB) : @DatabaseController DB :=
  put_attr (ATTRIBUTE_CURRENT_PRODUCER_LIST (genesis_globals ps))
    (put_attr (ATTRIBUTE_PREV_PRODUCER_LIST (genesis_globals ps))
       (put_attr (ATTRIBUTE_DB_DIRTY initial_globals)
          (put_attr (ATTRIBUTE_GENESIS_INITED initial_globals)
             (put_attr (ATTRIBUTE_CURRENT_BLOCK_HEIGHT initial_globals) c)))).

Lemma stored_initial v k : is_u64 v -> stored (newUint64 k v).
Proof. intros Hv. by left. Qed.

Lemma initGenesis_ok gen (c : @DatabaseController DB) :
  genesis_valid gen ->
  let ps := enc_list (snapshot_fields (m_producerSnapshot gen)) in
  exists c1, put_block (m_genesisBlock gen)
      (with_producer (put_records Producer.getKey (fun p => enc_list (Producer.fields p))
                        (map snd (map_entries (m_initProducers gen))) (m_producerStore c))
         (with_account (put_records Account.getKey (fun a => enc_list (Account.fields a))
                          (map snd (map_entries (m_initAccounts gen))) (m_accountStore c)) c)) = Ok c1 /\
    initGenesis gen initial_globals c = Ok (genesis_globals ps, put_genesis_attributes ps c1).
Proof.
  intros [Ha Hp Hs Hb] ps. unfold initGenesis. rewrite put_all_accounts.
  2: { apply Forall_forall. intros a [k Hk]%map_entries_values. apply (Ha k a Hk). }
  cbn [mbind result_bind]. rewrite put_all_producers.
  2: { apply Forall_forall. intros p [k Hk]%map_entries_values. apply (Hp k p Hk). }
  cbn [mbind result_bind with_account m_producerStore]. unfold put_block.
  rewrite block_getKey, Block.block_getRLPData_enc by (done || by apply Block.valid_header). cbn [mbind result_bind].
  eexists. split; [done|].
  rewrite (putAttribute_enc (ATTRIBUTE_CURRENT_BLOCK_HEIGHT _)) by (by apply (stored_initial 0)). cbn [mbind result_bind].
  rewrite (putAttribute_enc (ATTRIBUTE_GENESIS_INITED _)) by (by apply (stored_initial 1)). cbn [mbind result_bind].
  rewrite (putAttribute_enc (ATTRIBUTE_DB_DIRTY _)) by (by apply (stored_initial 0)). cbn [mbind result_bind].
  rewrite snapshot_enc by done. cbn [mbind result_bind].
  rewrite (putAttribute_enc (ATTRIBUTE_PREV_PRODUCER_LIST _)) by (by apply snapshot_data_stored). cbn [mbind result_bind].
  rewrite (putAttribute_enc (ATTRIBUTE_CURRENT_PRODUCER_LIST _)) by (by apply snapshot_data_stored). done.
Qed.

Lemma getAttribute_put_attr k t (c : @DatabaseController DB) :
  stored t -> getAttribute k (put_attr t c) = if decide (k = AttributeState.m_key t) then Ok t else getAttribute k c.
Proof. apply getAttribute_put. Qed.

Lemma decode_nothing k : AttributeState.decode k [] = Throw AttributeStateException.
Proof. reflexivity. Qed.

(** Look the attribute [k] up in a list of attribute writes. *)
Ltac attr_lookup :=
  repeat (rewrite getAttribute_put_attr by first [by apply (stored_initial 0) | by apply (stored_initial 1) | by apply snapshot_data_stored];
          first [rewrite decide_True by reflexivity | rewrite decide_False by discriminate]).

Lemma restart_reads ps (c : @DatabaseController DB) :
  snapshot_valid ps -> (forall k, get k (m_attributesStore c) = []) ->
  let c' := put_genesis_attributes (enc_list (snapshot_fields ps)) c in
  checkGenesisExisted initial_globals c' = true /\
  load_attributes initial_globals c' = genesis_globals (enc_list (snapshot_fields ps)).
Proof.
  intros Hps Hc c'. unfold checkGenesisExisted, load_attributes, c', put_genesis_attributes. split; [by attr_lookup|].
  attr_lookup. cbv zeta. attr_lookup. attr_lookup. attr_lookup. unfold getAttribute. rewrite Hc, decode_nothing. done.
Qed.

(** C38. On an empty attribute store the first start writes the genesis: every
    initial account and producer, the genesis block and the attributes. A
    restart on that database finds the genesis, writes nothing, and ends with
    the same attributes in memory as the first start. The producers and the
    block read back as they were; an account reads back with its code
    RLP-encoded. *)
Theorem genesis_then_restart (gen : Genesis) (h0 : BlockHeader) (c : @DatabaseController DB)
    (Hg : genesis_valid gen) (Hc : forall k, get k (m_attributesStore c) = []) :
  exists g' c', init gen initial_globals c = Ok (g', c') /\ init gen initial_globals c' = Ok (g', c') /\
    (forall a acc, m_initAccounts gen !! a = Some acc -> getAccount a c' = Ok (setCode (enc_str (m_code acc)) acc)) /\
    (forall a p, m_initProducers gen !! a = Some p -> getProducer a c' = Ok p) /\
    getBlockByNumber h0 (m_number (m_blockHeader (m_genesisBlock gen))) c' = Ok (m_genesisBlock gen).
Proof.
  destruct (initGenesis_ok gen c Hg) as (c1 & Hput & Hinit). destruct Hg as [Ha Hp Hs Hb].
  unfold put_block in Hput. rewrite block_getKey, Block.block_getRLPData_enc in Hput by (done || by apply Block.valid_header).
  cbn [mbind result_bind] in Hput. injection Hput as Hput.
  eexists _, _. split; [|split; [|split; [|split]]].
  - unfold init. unfold checkGenesisExisted, getAttribute. rewrite Hc, decode_nothing. exact Hinit.
  - destruct (restart_reads (m_producerSnapshot gen) c1 Hs) as [H1 H2]; [by subst c1|]. unfold init. by rewrite H1, H2.
  - intros a acc Hacc. pose proof (Ha a acc Hacc) as [Hv Haddr]. unfold getAccount.
    assert (m_accountStore (put_genesis_attributes (enc_list (snapshot_fields (m_producerSnapshot gen))) c1) =
      put_records Account.getKey (fun a => enc_list (Account.fields a)) (map snd (map_entries (m_initAccounts gen))) (m_accountStore c))
      as -> by (by subst c1).
    subst a. change (vec_to_list (Account.m_address acc)) with (Account.getKey acc).
    rewrite (proj1 (get_put_records Account.getKey _ _ _ [] (map_entries_keys_nodup _ Account.m_address (map_Forall_impl _ _ _ Ha (fun _ _ => @proj2 _ _))))).
    2: { apply map_entries_values. by eexists. }
    rewrite database_read_enc. apply Account.account_decode_enc; apply Hv.
  - intros a p Hpr. pose proof (Hp a p Hpr) as [Hv Haddr]. unfold getProducer.
    assert (m_producerStore (put_genesis_attributes (enc_list (snapshot_fields (m_producerSnapshot gen))) c1) =
      put_records Producer.getKey (fun a => enc_list (Producer.fields a)) (map snd (map_entries (m_initProducers gen))) (m_producerStore c))
      as -> by (by subst c1).
    subst a. change (vec_to_list (Producer.m_address p)) with (Producer.getKey p).
    rewrite (proj1 (get_put_records Producer.getKey _ _ _ [] (map_entries_keys_nodup _ Producer.m_address (map_Forall_impl _ _ _ Hp (fun _ _ => @proj2 _ _))))).
    2: { apply map_entries_values. by eexists. }
    rewrite database_read_enc. by apply Producer.producer_decode_enc.
  - unfold getBlockByNumber. subst c1. cbn [put_genesis_attributes put_attr with_attributes m_blockIndexStore with_blocks].
    pose proof (BlockHeader.valid_number _ (Block.valid_header _ Hb)).
    rewrite get_put_number, decide_True by (done || unfold is_u64; lia). rewrite database_read_enc. by apply Block.block_decode_enc.
Qed.
End Facts.

(** ** Examples on finite maps *)

Definition empty_dbc : @DatabaseController (gmap bytes bytes) := mkDBC ∅ ∅ ∅ ∅ ∅ ∅ ∅ ∅ ∅ ∅.

Definition example_genesis : Genesis :=
  mkGenesis {[Account.m_address example_account := example_account]}
    {[Producer.m_address example_producer := example_producer]} seven_producers example_block.

Lemma newProducer_valid a t : 0 <= t < 2 ^ 63 -> Producer.valid (newProducer a t).
Proof.
  intros Ht. split; cbn [m_timestamp m_votes m_voters newProducer]; [done|done|apply map_Forall_empty|].
  rewrite map_size_empty. done.
Qed.

Lemma seven_producers_valid : snapshot_valid seven_producers.
Proof.
  split; [vm_compute; intuition congruence| |vm_compute; reflexivity].
  apply Forall_fmap, Forall_forall. intros i _. by apply newProducer_valid.
Qed.

Lemma example_genesis_valid : genesis_valid example_genesis.
Proof.
  split.
  - apply map_Forall_singleton. split; [apply example_account_valid|done].
  - apply map_Forall_singleton. split; [apply example_producer_valid|done].
  - apply seven_producers_valid.
  - apply example_block_valid.
Qed.

Lemma del_never_deletes_witness :
  get [Byte.x01] (del [Byte.x01] (put [Byte.x01] [Byte.x02] (∅ : gmap bytes bytes))) = [Byte.x02].
Proof. exact (del_never_deletes [Byte.x01] (put [Byte.x01] [Byte.x02] (∅ : gmap bytes bytes))). Defined.

Lemma account_store_readback_witness :
  exists c', put_account example_account empty_dbc = Ok c' /\
    getAccount (Account.m_address example_account) c' = Ok (setCode (enc_str (m_code example_account)) example_account).
Proof.
  destruct (account_store_readback example_account empty_dbc example_account_valid) as (c' & H1 & H2 & _).
  exists c'. split; [exact H1|]. rewrite (H2 (Account.m_address example_account)). apply decide_True. reflexivity.
Defined.

Lemma block_store_readback_witness :
  exists id c', Block.getHash example_block = Ok id /\ put_block example_block empty_dbc = Ok c'.
Proof.
  destruct (block_store_readback example_block BlockHeader.clear empty_dbc example_block_valid) as (id & c' & H1 & H2 & _).
  exists id, c'. exact (conj H1 H2).
Defined.

Lemma block_height_moves_witness :
  decrementBlockHeight (2 ^ 64 - 1) initial_globals empty_dbc = Throw GSException.
Proof.
  refine (proj2 (block_height_moves initial_globals empty_dbc (2 ^ 64 - 1) _ _ _ _)); [reflexivity|reflexivity| |];
    vm_compute; intuition congruence.
Defined.

Lemma genesis_then_restart_witness :
  exists g' c', init example_genesis initial_globals empty_dbc = Ok (g', c') /\ init example_genesis initial_globals c' = Ok (g', c').
Proof.
  destruct (genesis_then_restart example_genesis BlockHeader.clear empty_dbc example_genesis_valid
    (fun k => f_equal (default []) (lookup_empty k)))
    as (g' & c' & H1 & H2 & _). exists g', c'. exact (conj H1 H2).
Defined.
