(* ===== verification/Ledger.v ===== *)
(** * Operations on accounts and producers: the state-changing methods of
    runtime/storage/Repository.cpp

    They only use the lookups and updates of the repository, so they are
    written against an interface, [Ledger]; [LedgerLaws] is what it promises to
    them. The repository implements both. *)

From S2P Require Import Prelude CommonData RLP RLPFacts FixedHash SHA3 Codec.
From S2P Require Import Account Producer Transaction Database.
Import Spec.

(** The lookups and updates, and [m_block.getBlockHeader().getTimestamp()]. *)
Class Ledger (S : Type) : Type := {
  getAccount : h160 -> ST S Account;
  put_account : Account -> ST S unit;
  getProducer : h160 -> ST S Producer;
  put_producer : Producer -> ST S unit;
  getTransaction : h256 -> ST S Transaction;
  put_transaction : Transaction -> ST S unit;
  block_timestamp : ST S Z
}.

Definition is_empty_account (a : Account) : bool := account_eqb a EmptyAccount.
Definition is_empty_producer (p : Producer) : bool := producer_eqb p EmptyProducer.

Section Operations.
Context {S : Type} `{Ledger S}.

(** [if (account == EmptyAccount) { Account temp(address, 0, timestamp); account = temp; }] *)
Definition or_new (address : h160) (account : Account) : ST S Account :=
  t ← block_timestamp;
  mret (if is_empty_account account then Account.assign account (newAccount address 0 t) else account).

Definition getBalance (address : h160) : ST S Z :=
  account ← getAccount address;
  mret (if is_empty_account account then 0 else m_balance account).

Definition addBalance (address : h160) (amount : Z) : ST S unit :=
  account ← getAccount address;
  account ← or_new address account;
  _ ← st_throw_if (u64 (m_balance account + amount) <? amount) RepositoryException;
  put_account (setBalance (u64 (m_balance account + amount)) account).

Definition subBalance (address : h160) (amount : Z) : ST S unit :=
  account ← getAccount address;
  _ ← st_throw_if (is_empty_account account || (m_balance account <? amount)) RepositoryException;
  put_account (setBalance (m_balance account - amount) account).

Definition set_balance (address : h160) (value : Z) : ST S unit :=
  account ← getAccount address;
  account ← or_new address account;
  put_account (setBalance value account).

Definition transfer (from to : h160) (value : Z) : ST S unit :=
  _from ← getAccount from;
  _to ← getAccount to;
  _ ← st_throw_if (is_empty_account _from) RepositoryException;
  _to ← or_new to _to;
  _ ← st_throw_if ((m_balance _from <? value) || (u64 (m_balance _to + value) <? value)) RepositoryException;
  _ ← put_account (setBalance (m_balance _from - value) _from);
  put_account (setBalance (u64 (m_balance _to + value)) _to).

Definition burn (target : h160) (value : Z) : ST S unit :=
  _target ← getAccount target;
  _ ← st_throw_if (is_empty_account _target) RepositoryException;
  _ ← st_throw_if (m_balance _target <? value) RepositoryException;
  put_account (setBalance (m_balance _target - value) _target).

Definition bonus (target : h160) (value : Z) : ST S unit :=
  _target ← getAccount target;
  _ ← st_throw_if (is_empty_account _target) RepositoryException;
  put_account (setBalance (u64 (m_balance _target + value)) _target).

Definition clearVote (address : h160) : ST S unit :=
  account ← getAccount address;
  _ ← st_throw_if (is_empty_account account) RepositoryException;
  _ ← st_foreach (fun i =>
        producer ← getProducer (fst i);
        _ ← st_throw_if (is_empty_producer producer) RepositoryException;
        put_producer (eraseVoter address producer)) (map_entries (m_candidates account));
  put_account (Account.clearVote account).

Definition voteIncrease (voter candidate : h160) (value : Z) : ST S unit :=
  account ← getAccount voter;
  _ ← st_throw_if (is_empty_account account) RepositoryException;
  producer ← getProducer candidate;
  _ ← st_throw_if (is_empty_producer producer) RepositoryException;
  _ ← st_throw_if (u64 (m_balance account - u64 (Account.m_votes account * 1000000)) <? u64 (value * 1000000)) RepositoryException;
  _ ← put_account (Account.addVoter candidate value account);
  put_producer (Producer.addVoter voter value producer).

Definition isAddressExist (address : h160) : ST S bool :=
  account ← getAccount address; mret (negb (is_empty_account account)).

Definition isContractAddress (address : h160) : ST S bool :=
  account ← getAccount address;
  mret (negb (is_empty_account account) && (Account.m_type account =? ContractType)).

(** [codeSize], [codeHash] and [code]. *)
Definition code (address : h160) : ST S bytes :=
  account ← getAccount address;
  mret (if is_empty_account account || negb (Account.m_type account =? ContractType) then [] else m_code account).
Definition codeSize (address : h160) : ST S Z :=
  account ← getAccount address;
  mret (if is_empty_account account || negb (Account.m_type account =? ContractType) then 0 else zlen (m_code account)).
Definition codeHash (address : h160) : ST S h256 :=
  account ← getAccount address;
  mret (if is_empty_account account || negb (Account.m_type account =? ContractType) then zero_hash 32
        else sha3 (m_code account)).
End Operations.

(** ** What a ledger promises *)

(** An account as the ledger holds it, and the reference state: plain
    functions. *)
Definition good_account (a : h160) (x : Account) : Prop :=
  Account.m_address x = a /\ m_alive x = true /\ m_contractAddresses x = [].
Definition good_producer (a : h160) (x : Producer) : Prop :=
  Producer.m_address x = a /\ is_empty_producer x = false.
Definition good_transaction (h : h256) (x : Transaction) : Prop :=
  Transaction.getHash x = Ok h /\ tx_eqb x EmptyTransaction = Ok false.

Record View : Type := mkView {
  v_acct : h160 -> Account;
  v_prod : h160 -> Producer;
  v_txn : h256 -> Transaction;
  v_now : Z
}.

Definition upd {N A} (k : vec byte N) (x : A) (f : vec byte N -> A) : vec byte N -> A :=
  fun k' => if decide (k' = k) then x else f k'.
Definition upd_acct (x : Account) (v : View) : View :=
  mkView (upd (Account.m_address x) x (v_acct v)) (v_prod v) (v_txn v) (v_now v).
Definition upd_prod (x : Producer) (v : View) : View :=
  mkView (v_acct v) (upd (Producer.m_address x) x (v_prod v)) (v_txn v) (v_now v).
Definition upd_txn (h : h256) (x : Transaction) (v : View) : View :=
  mkView (v_acct v) (v_prod v) (upd h x (v_txn v)) (v_now v).

(** [reps s v]: the state [s] holds exactly the view [v]. *)
Class LedgerLaws (S : Type) `{Ledger S} : Type := {
  reps : S -> View -> Prop;
  reps_acct s v a : reps s v -> good_account a (v_acct v a) \/ v_acct v a = EmptyAccount;
  reps_prod s v a : reps s v -> good_producer a (v_prod v a) \/ v_prod v a = EmptyProducer;
  getAccount_spec s v a : reps s v -> exists s', getAccount a s = (Ok (v_acct v a), s') /\ reps s' v;
  put_account_spec s v x : reps s v -> good_account (Account.m_address x) x ->
                           exists s', put_account x s = (Ok tt, s') /\ reps s' (upd_acct x v);
  getProducer_spec s v a : reps s v -> exists s', getProducer a s = (Ok (v_prod v a), s') /\ reps s' v;
  put_producer_spec s v x : reps s v -> good_producer (Producer.m_address x) x ->
                            exists s', put_producer x s = (Ok tt, s') /\ reps s' (upd_prod x v);
  getTransaction_spec s v h : reps s v -> exists s', getTransaction h s = (Ok (v_txn v h), s') /\ reps s' v;
  put_transaction_spec s v h x : reps s v -> good_transaction h x ->
                                 exists s', put_transaction x s = (Ok tt, s') /\ reps s' (upd_txn h x v);
  block_timestamp_spec s v : reps s v -> block_timestamp s = (Ok (v_now v), s)
}.

Lemma good_not_empty a x : good_account a x -> is_empty_account x = false.
Proof.
  intros (_ & Hl & _). unfold is_empty_account, account_eqb. rewrite Hl. cbn. by rewrite !andb_false_r.
Qed.

Lemma good_setBalance a b x : good_account a x -> good_account (Account.m_address (setBalance b x)) (setBalance b x).
Proof. by intros (_ & ? & ?). Qed.

Lemma upd_eq {N A} (k : vec byte N) (x : A) f : upd k x f k = x.
Proof. unfold upd. by rewrite decide_True. Qed.
Lemma upd_ne {N A} (k k' : vec byte N) (x : A) f : k' <> k -> upd k x f k' = f k'.
Proof. intros Hne. unfold upd. by rewrite decide_False. Qed.

(** ** The balance operations *)

(** The account an operation that creates missing accounts works on. *)
Definition acct_or_new (v : View) (a : h160) : Account :=
  if is_empty_account (v_acct v a) then newAccount a 0 (v_now v) else v_acct v a.

(** Rewrite a bind whose first computation is known. *)
Ltac st_run H := rewrite (st_bind_ok _ _ _ _ _ H).
Ltac st_stop H := rewrite (st_bind_throw _ _ _ _ _ H).

Section OperationFacts.
Context {S : Type} `{LedgerLaws S}.

Lemma throw_if_true {A} (e : exn) (f : unit -> ST S A) s : (st_throw_if true e ≫= f) s = (Throw e, s).
Proof. done. Qed.
Lemma throw_if_false {A} (e : exn) (f : unit -> ST S A) s : (st_throw_if false e ≫= f) s = f tt s.
Proof. done. Qed.

Lemma reps_good s v a : reps s v -> is_empty_account (v_acct v a) = false -> good_account a (v_acct v a).
Proof. intros Hr He. destruct (reps_acct s v a Hr) as [Hg|Hg]; [done|by rewrite Hg in He]. Qed.

Lemma or_new_run s v a : reps s v -> or_new a (v_acct v a) s = (Ok (acct_or_new v a), s).
Proof.
  intros Hr. unfold or_new. st_run (block_timestamp_spec s v Hr). unfold acct_or_new.
  destruct (is_empty_account (v_acct v a)) eqn:E; [|done].
  destruct (reps_acct s v a Hr) as [Hg|Hg]; [by rewrite (good_not_empty _ _ Hg) in E|].
  by rewrite Hg.
Qed.

Lemma acct_or_new_good s v a : reps s v -> good_account a (acct_or_new v a).
Proof. intros Hr. unfold acct_or_new. case_match; [done|by eapply reps_good]. Qed.

Lemma getBalance_run s v a :
  reps s v -> exists s', getBalance a s = (Ok (if is_empty_account (v_acct v a) then 0 else m_balance (v_acct v a)), s') /\ reps s' v.
Proof.
  intros Hr. destruct (getAccount_spec s v a Hr) as (s1 & H1 & Hr1). unfold getBalance. st_run H1. by exists s1.
Qed.

(** An operation either throws with the view unchanged, or returns with a new
    view. *)
Definition outcome (m : ST S unit) (s : S) (v : View) (fails : bool) (v' : View) : Prop :=
  exists s', if fails then m s = (Throw RepositoryException, s') /\ reps s' v else m s = (Ok tt, s') /\ reps s' v'.

Lemma outcome_put x s v : reps s v -> good_account (Account.m_address x) x -> outcome (put_account x) s v false (upd_acct x v).
Proof. intros Hr Hg. destruct (put_account_spec s v x Hr Hg) as (s' & H1 & H2). by exists s'. Qed.

Lemma burn_run s v a value :
  reps s v ->
  outcome (burn a value) s v (is_empty_account (v_acct v a) || (m_balance (v_acct v a) <? value))
    (upd_acct (setBalance (m_balance (v_acct v a) - value) (v_acct v a)) v).
Proof.
  intros Hr. destruct (getAccount_spec s v a Hr) as (s1 & H1 & Hr1). unfold outcome, burn. st_run H1.
  destruct (is_empty_account (v_acct v a)) eqn:E1; cbn [orb]; [by exists s1|]. rewrite throw_if_false.
  destruct (m_balance (v_acct v a) <? value); [by exists s1|]. rewrite throw_if_false.
  apply (outcome_put (setBalance _ _) s1 v Hr1). eapply good_setBalance, reps_good, E1. exact Hr.
Qed.

Lemma bonus_run s v a value :
  reps s v ->
  outcome (bonus a value) s v (is_empty_account (v_acct v a))
    (upd_acct (setBalance (u64 (m_balance (v_acct v a) + value)) (v_acct v a)) v).
Proof.
  intros Hr. destruct (getAccount_spec s v a Hr) as (s1 & H1 & Hr1). unfold outcome, bonus. st_run H1.
  destruct (is_empty_account (v_acct v a)) eqn:E1; [by exists s1|]. rewrite throw_if_false.
  apply (outcome_put (setBalance _ _) s1 v Hr1). eapply good_setBalance, reps_good, E1. exact Hr.
Qed.

Lemma transfer_run s v from to value :
  reps s v ->
  let F := v_acct v from in
  let T := acct_or_new v to in
  outcome (transfer from to value) s v
    (is_empty_account F || (m_balance F <? value) || (u64 (m_balance T + value) <? value))
    (upd_acct (setBalance (u64 (m_balance T + value)) T) (upd_acct (setBalance (m_balance F - value) F) v)).
Proof.
  intros Hr F T. destruct (getAccount_spec s v from Hr) as (s1 & H1 & Hr1).
  destruct (getAccount_spec s1 v to Hr1) as (s2 & H2 & Hr2). unfold outcome, transfer. st_run H1. st_run H2.
  fold F. destruct (is_empty_account F) eqn:E1; cbn [orb]; [by exists s2|]. rewrite throw_if_false.
  st_run (or_new_run s2 v to Hr2). fold T. destruct (_ || _) eqn:E2; [by exists s2|]. rewrite throw_if_false.
  pose proof (reps_good _ _ _ Hr E1) as Hf. pose proof (acct_or_new_good _ _ to Hr) as Ht. fold F in Hf. fold T in Ht.
  destruct (put_account_spec s2 v (setBalance (m_balance F - value) F) Hr2) as (s3 & H3 & Hr3).
  { by eapply good_setBalance. }
  st_run H3. destruct (outcome_put (setBalance (u64 (m_balance T + value)) T) s3 _ Hr3) as (s4 & H4); [by eapply good_setBalance|].
  by exists s4.
Qed.
End OperationFacts.
