(* ===== verification/LedgerFacts.v ===== *)
(** * What the operations on accounts and producers do

    Stated for every state that implements [LedgerLaws], in terms of the view
    it represents. *)

From S2P Require Import Prelude CommonData RLP RLPFacts FixedHash SHA3 Codec.
From S2P Require Import Account Producer Transaction Database Ledger.
Import Spec.

(** The balance of an address, zero when there is no account. *)
Definition balance (v : View) (a : h160) : Z := m_balance (v_acct v a).

(** The balances of a list of addresses together. *)
Definition total (v : View) (L : list h160) : Z := foldr (fun a z => balance v a + z) 0 L.

Lemma balance_upd x v b : balance (upd_acct x v) b = if decide (b = Account.m_address x) then m_balance x else balance v b.
Proof. unfold balance, upd_acct, upd. cbn. by case_decide. Qed.

Lemma total_change v v' a L d :
  NoDup L -> a ∈ L -> (forall b, balance v' b = balance v b + (if decide (b = a) then d else 0)) ->
  total v' L = total v L + d.
Proof.
  intros Hn Ha Hb. induction L as [|x L IH]; [by apply not_elem_of_nil in Ha|]. apply NoDup_cons in Hn as [Hx Hn].
  cbn [total foldr]. fold (total v' L). fold (total v L). rewrite Hb.
  destruct (decide (x = a)) as [->|Hne].
  - assert (total v' L = total v L); [|lia]. clear IH Ha Hn. induction L as [|y L IH]; [done|].
    apply not_elem_of_cons in Hx as [Hy Hx]. cbn [total foldr]. fold (total v' L). fold (total v L).
    rewrite Hb, decide_False by done. rewrite IH by done. lia.
  - apply elem_of_cons in Ha as [->|Ha]; [done|]. rewrite IH by done. lia.
Qed.

(** The balances are 64-bit values. *)
Definition balances_ok (v : View) : Prop := forall a, is_u64 (balance v a).

Section Balances.
Context {S : Type} `{LedgerLaws S}.

Lemma acct_or_new_balance s v a : reps s v -> m_balance (acct_or_new v a) = balance v a.
Proof.
  intros Hr. unfold acct_or_new, balance. destruct (is_empty_account (v_acct v a)) eqn:E; [|done].
  destruct (reps_acct s v a Hr) as [Hg|Hg]; [by rewrite (good_not_empty _ _ Hg) in E|]. by rewrite Hg.
Qed.

Lemma good_address s v a : reps s v -> is_empty_account (v_acct v a) = false -> Account.m_address (v_acct v a) = a.
Proof. intros Hr He. by apply (reps_good s v a Hr He). Qed.

Lemma u64_overflow x y : is_u64 x -> is_u64 y -> (u64 (x + y) <? y) = (2 ^ 64 <=? x + y).
Proof.
  unfold is_u64. intros Hx Hy. unfold u64. destruct (Z.leb_spec (2 ^ 64) (x + y)).
  - rewrite <- (Z.mod_unique (x + y) (2 ^ 64) 1 (x + y - 2 ^ 64)) by lia. apply Z.ltb_lt. lia.
  - rewrite Z.mod_small by lia. apply Z.ltb_ge. lia.
Qed.

(** The view after a transfer. *)
Definition moved (from to : h160) (value : Z) (v : View) : View :=
  upd_acct (setBalance (u64 (balance v to + value)) (acct_or_new v to))
    (upd_acct (setBalance (balance v from - value) (v_acct v from)) v).

Lemma transfer_moved s v from to value :
  reps s v -> balances_ok v -> is_u64 value ->
  outcome (transfer from to value) s v
    (is_empty_account (v_acct v from) || (balance v from <? value) || (2 ^ 64 <=? balance v to + value)) (moved from to value v).
Proof.
  intros Hr Hb Hv. pose proof (transfer_run s v from to value Hr) as Ho. cbv zeta in Ho.
  rewrite (acct_or_new_balance s v to Hr), u64_overflow in Ho by (done || apply Hb). exact Ho.
Qed.

Lemma moved_balance s v from to value b :
  reps s v -> is_empty_account (v_acct v from) = false -> from <> to -> 0 <= balance v to + value < 2 ^ 64 ->
  balance (moved from to value v) b =
  balance v b + (if decide (b = from) then - value else 0) + (if decide (b = to) then value else 0).
Proof.
  intros Hr He Hne Hfit. pose proof (good_address s v from Hr He) as Haf. pose proof (acct_or_new_good s v to Hr) as (Hat & _ & _).
  unfold moved. rewrite !balance_upd. cbn [Account.m_address setBalance m_balance]. rewrite Hat, Haf. unfold u64.
  rewrite (Z.mod_small (balance v to + value)) by done. repeat case_decide; subst; congruence || lia.
Qed.

Lemma moved_self_balance s v a value b :
  reps s v -> is_empty_account (v_acct v a) = false -> 0 <= balance v a + value < 2 ^ 64 ->
  balance (moved a a value v) b = balance v b + (if decide (b = a) then value else 0).
Proof.
  intros Hr He Hfit. pose proof (good_address s v a Hr He) as Haf. pose proof (acct_or_new_good s v a Hr) as (Hat & _ & _).
  unfold moved. rewrite !balance_upd. cbn [Account.m_address setBalance m_balance]. rewrite Hat, Haf, u64_small by done.
  case_decide; subst; lia.
Qed.

Lemma moved_total v from to value L :
  NoDup L -> from ∈ L -> to ∈ L -> (forall b, balance (moved from to value v) b =
    balance v b + (if decide (b = from) then - value else 0) + (if decide (b = to) then value else 0)) ->
  total (moved from to value v) L = total v L.
Proof.
  intros HL Hf Ht Hb.
  set (v1 := mkView (fun b => setBalance (balance v b + (if decide (b = from) then - value else 0)) (v_acct v b))
               (v_prod v) (v_txn v) (v_now v)).
  rewrite (total_change v1 _ to L value HL Ht), (total_change v v1 from L (- value) HL Hf); [lia|done|]. intros b. apply Hb.
Qed.

(** [Repository::transfer] between two different accounts moves exactly
    [value]: it succeeds when the sender exists, has the amount, and the
    recipient's balance does not overflow 64 bits; it then lowers the sender,
    raises the recipient (created when missing), leaves every other balance
    and every producer alone, and the balances together are what they were.
    Otherwise it throws and nothing changes. *)
Theorem transfer_conserves (s : S) (v : View) (from to : h160) (value : Z) (L : list h160)
    (Hr : reps s v) (Hb : balances_ok v) (Hv : is_u64 value) (Hne : from <> to)
    (HL : NoDup L) (Hf : from ∈ L) (Ht : to ∈ L) :
  let fails := is_empty_account (v_acct v from) || (balance v from <? value) || (2 ^ 64 <=? balance v to + value) in
  exists s' v', reps s' v' /\
    (if fails then transfer from to value s = (Throw RepositoryException, s') /\ v' = v
     else transfer from to value s = (Ok tt, s') /\
          (forall b, balance v' b = if decide (b = from) then balance v from - value
                                    else if decide (b = to) then balance v to + value else balance v b) /\
          v_prod v' = v_prod v /\ balances_ok v' /\ total v' L = total v L).
Proof.
  cbv zeta. destruct (transfer_moved s v from to value Hr Hb Hv) as (s' & Hs).
  destruct (_ || _) eqn:E; destruct Hs as [Hs Hr']; [by exists s', v|].
  apply orb_false_iff in E as [[E1 E2]%orb_false_iff E3]. zify_bool. pose proof (Hb to) as Hbt. unfold is_u64 in Hv, Hbt.
  pose proof (fun b => moved_balance s v from to value b Hr E1 Hne ltac:(lia)) as Hm.
  exists s', (moved from to value v). split; [done|]. split; [done|]. split; [|split; [done|split]].
  - intros b. rewrite Hm. repeat case_decide; subst; congruence || lia.
  - intros b. pose proof (Hb b). unfold is_u64 in *. rewrite Hm. repeat case_decide; subst; lia || congruence.
  - by apply moved_total.
Qed.

(** A transfer to oneself mints: the account gains [value], because the
    recipient's copy of the account was read before the sender's was lowered
    and is written last. *)
Theorem self_transfer_mints (s : S) (v : View) (a : h160) (value : Z)
    (Hr : reps s v) (Hb : balances_ok v) (Hv : is_u64 value) (He : is_empty_account (v_acct v a) = false)
    (Henough : value <= balance v a) (Hfit : balance v a + value < 2 ^ 64) :
  exists s' v', transfer a a value s = (Ok tt, s') /\ reps s' v' /\ balance v' a = balance v a + value.
Proof.
  destruct (transfer_run s v a a value Hr) as (s' & Hs). rewrite (acct_or_new_balance s v a Hr), He in Hs.
  fold (balance v a) in Hs. rewrite u64_overflow, (proj2 (Z.ltb_ge _ _)), (proj2 (Z.leb_gt _ _)) in Hs by (done || apply Hb).
  destruct Hs as [Hs Hr']. eexists s', _. split; [exact Hs|]. split; [exact Hr'|]. rewrite balance_upd.
  pose proof (acct_or_new_good s v a Hr) as (Hat & _ & _). cbn [Account.m_address setBalance m_balance].
  rewrite Hat, decide_True by done. pose proof (Hb a). unfold is_u64, u64 in *. apply Z.mod_small. lia.
Qed.
End Balances.

(** ** Votes *)

(** The bookkeeping of votes: candidates and voters mirror each other, an
    account's votes are the sum of its candidates over [extra], and a producer's
    votes are the sum of its voters over [base]. In a ledger in order [extra] is
    zero and [base] the votes a producer was created with. *)
Record votes_ok (base extra : h160 -> Z) (v : View) : Prop := {
  vo_account a : Account.m_votes (v_acct v a) = u64 (extra a + map_sum (m_candidates (v_acct v a)));
  vo_link a c : m_candidates (v_acct v a) !! c = m_voters (v_prod v c) !! a;
  vo_producer c : Producer.m_votes (v_prod v c) = u64 (base c + map_sum (m_voters (v_prod v c)))
}.

(** An update of an account that keeps its votes keeps the bookkeeping. *)
Lemma votes_ok_same base extra v v' :
  votes_ok base extra v -> (forall c, v_prod v' c = v_prod v c) ->
  (forall a, Account.m_votes (v_acct v' a) = Account.m_votes (v_acct v a) /\ m_candidates (v_acct v' a) = m_candidates (v_acct v a)) ->
  votes_ok base extra v'.
Proof.
  intros [H1 H2 H3] Hp Ha. split.
  - intros a. destruct (Ha a) as [-> ->]. apply H1.
  - intros a c. destruct (Ha a) as [_ ->]. rewrite Hp. apply H2.
  - intros c. rewrite Hp. apply H3.
Qed.

Lemma votes_ok_ext base extra base' extra' v :
  votes_ok base extra v -> (forall c, base' c = base c) -> (forall a, extra' a = extra a) -> votes_ok base' extra' v.
Proof. intros [H1 H2 H3] Hb He. split; [intros a; by rewrite He|done|intros c; by rewrite Hb]. Qed.

Lemma upd_acct_lookup x v a : v_acct (upd_acct x v) a = if decide (a = Account.m_address x) then x else v_acct v a.
Proof. done. Qed.
Lemma upd_prod_lookup x v a : v_prod (upd_prod x v) a = if decide (a = Producer.m_address x) then x else v_prod v a.
Proof. done. Qed.

(** The view after [clearVote]: the voter is erased from its candidates. *)
Definition erase_all (a : h160) (cs : list (h160 * Z)) (v : View) : View :=
  fold_left (fun v i => upd_prod (eraseVoter a (v_prod v (fst i))) v) cs v.
Definition cleared (a : h160) (v : View) : View :=
  upd_acct (Account.clearVote (v_acct v a)) (erase_all a (map_entries (m_candidates (v_acct v a))) v).

Lemma eraseVoter_address a p : Producer.m_address (eraseVoter a p) = Producer.m_address p.
Proof. unfold eraseVoter. by case_match. Qed.
Lemma eraseVoter_empty a p : is_empty_producer (eraseVoter a p) = is_empty_producer p.
Proof. unfold eraseVoter. by case_match. Qed.
Lemma good_eraseVoter a c p : good_producer c p -> good_producer (Producer.m_address (eraseVoter a p)) (eraseVoter a p).
Proof. intros [_ Hg]. split; [done|]. by rewrite eraseVoter_empty. Qed.

Lemma erase_all_acct a cs v : v_acct (erase_all a cs v) = v_acct v /\ v_now (erase_all a cs v) = v_now v.
Proof. revert v. unfold erase_all. induction cs as [|i cs IH]; intros v; [done|]. cbn [fold_left]. by destruct (IH (upd_prod (eraseVoter a (v_prod v i.1)) v)) as [-> ->]. Qed.

Lemma erase_all_prod a cs v c :
  NoDup (map fst cs) -> (forall i, i ∈ cs -> Producer.m_address (v_prod v (fst i)) = fst i) ->
  v_prod (erase_all a cs v) c = if decide (c ∈ map fst cs) then eraseVoter a (v_prod v c) else v_prod v c.
Proof.
  revert v. unfold erase_all. induction cs as [|i cs IH]; intros v Hn Hg; [by rewrite decide_False by (apply not_elem_of_nil)|].
  cbn [map] in *. apply NoDup_cons in Hn as [Hi Hn]. cbn [fold_left].
  assert (Producer.m_address (eraseVoter a (v_prod v i.1)) = i.1) as Hadr by (rewrite eraseVoter_address; apply Hg; left).
  rewrite IH; [|done|].
  - rewrite upd_prod_lookup, Hadr. destruct (decide (c = i.1)) as [->|Hne].
    + rewrite decide_False by done. rewrite decide_True by left. done.
    + destruct (decide (c ∈ map fst cs)) as [Hc|Hc].
      * rewrite decide_True by (by right). done.
      * rewrite decide_False; [done|]. intros [?|?]%elem_of_cons; done.
  - intros j Hj. rewrite upd_prod_lookup, Hadr. destruct (decide (j.1 = i.1)) as [Hd|Hd]; [|apply Hg; by right].
    exfalso. apply Hi. rewrite <- Hd. apply list_elem_of_fmap. by exists j.
Qed.

Section Votes.
Context {S : Type} `{LedgerLaws S}.

Lemma reps_good_prod s v c : reps s v -> is_empty_producer (v_prod v c) = false -> good_producer c (v_prod v c).
Proof. intros Hr He. destruct (reps_prod s v c Hr) as [Hg|Hg]; [done|by rewrite Hg in He]. Qed.

Lemma erase_loop_run a cs s v :
  reps s v -> (forall i, i ∈ cs -> is_empty_producer (v_prod v (fst i)) = false) ->
  exists s', st_foreach (fun i : h160 * Z =>
        producer ← getProducer (fst i);
        _ ← st_throw_if (is_empty_producer producer) RepositoryException;
        put_producer (eraseVoter a producer)) cs s = (Ok tt, s') /\ reps s' (erase_all a cs v).
Proof.
  revert s v. induction cs as [|i cs IH]; intros s v Hr Hp; [by exists s|]. cbn [st_foreach].
  destruct (getProducer_spec s v (fst i) Hr) as (s1 & H1 & Hr1).
  pose proof (Hp i ltac:(left)) as Hi. pose proof (reps_good_prod s v _ Hr Hi) as Hg.
  destruct (put_producer_spec s1 v (eraseVoter a (v_prod v (fst i))) Hr1 ltac:(by eapply good_eraseVoter)) as (s2 & H2 & Hr2).
  assert ((producer ← getProducer (fst i); _ ← st_throw_if (is_empty_producer producer) RepositoryException;
           put_producer (eraseVoter a producer)) s = (Ok tt, s2)) as Hbody.
  { st_run H1. rewrite Hi. exact H2. }
  st_run Hbody. apply (IH s2 (upd_prod (eraseVoter a (v_prod v (fst i))) v)); [done|]. intros j Hj. rewrite upd_prod_lookup.
  destruct (decide _); [by rewrite eraseVoter_empty|]. apply Hp. by right.
Qed.

Lemma clearVote_run a s v :
  reps s v -> is_empty_account (v_acct v a) = false ->
  (forall c, is_Some (m_candidates (v_acct v a) !! c) -> is_empty_producer (v_prod v c) = false) ->
  exists s', clearVote a s = (Ok tt, s') /\ reps s' (cleared a v).
Proof.
  intros Hr He Hp. destruct (getAccount_spec s v a Hr) as (s1 & H1 & Hr1). unfold clearVote. st_run H1. rewrite He, throw_if_false.
  destruct (erase_loop_run a (map_entries (m_candidates (v_acct v a))) s1 v Hr1) as (s2 & H2 & Hr2).
  { intros [c x] Hin%map_entries_lookup. apply Hp. by exists x. }
  st_run H2. destruct (put_account_spec s2 _ (Account.clearVote (v_acct v a)) Hr2) as (s3 & H3 & Hr3); [|by exists s3].
  by destruct (reps_good s v a Hr He) as (_ & ? & ?).
Qed.

Lemma map_entries_fst {N A} (m : gmap (vec byte N) A) c : c ∈ map fst (map_entries m) <-> is_Some (m !! c).
Proof.
  rewrite list_elem_of_fmap. split.
  - intros ([k x] & -> & Hin%map_entries_lookup). by exists x.
  - intros [x Hx]. exists (c, x). split; [done|]. by apply map_entries_lookup.
Qed.

Lemma map_entries_fst_nodup {N A} (m : gmap (vec byte N) A) : NoDup (map fst (map_entries m)).
Proof. rewrite map_entries_perm. apply NoDup_fst_map_to_list. Qed.

Lemma cleared_prod s a v c :
  reps s v -> (forall c, is_Some (m_candidates (v_acct v a) !! c) -> is_empty_producer (v_prod v c) = false) ->
  v_prod (cleared a v) c =
  if decide (is_Some (m_candidates (v_acct v a) !! c)) then eraseVoter a (v_prod v c) else v_prod v c.
Proof.
  intros Hr Hp. unfold cleared. cbn [v_prod upd_acct]. rewrite erase_all_prod.
  - destruct (decide (is_Some _)) as [Hs|Hs]; [by rewrite decide_True by (by apply map_entries_fst)|].
    rewrite decide_False; [done|]. by rewrite map_entries_fst.
  - apply map_entries_fst_nodup.
  - intros [c' x] Hin%map_entries_lookup. apply (reps_good_prod s v); [done|]. apply Hp. by exists x.
Qed.

Lemma cleared_votes_ok s base extra a v :
  reps s v -> is_empty_account (v_acct v a) = false ->
  (forall c, is_Some (m_candidates (v_acct v a) !! c) -> is_empty_producer (v_prod v c) = false) ->
  votes_ok base extra v -> votes_ok base (upd a 0 extra) (cleared a v).
Proof.
  intros Hr He Hp [H1 H2 H3]. pose proof (good_address s v a Hr He) as Had.
  assert (forall b, v_acct (cleared a v) b = if decide (b = a) then Account.clearVote (v_acct v a) else v_acct v b) as Hacct.
  { intros b. unfold cleared. rewrite upd_acct_lookup. cbn [Account.m_address Account.clearVote]. rewrite Had.
    by rewrite (proj1 (erase_all_acct _ _ _)). }
  split.
  - intros b. rewrite Hacct. unfold upd. case_decide; [done|apply H1].
  - intros b c. rewrite Hacct, (cleared_prod s) by done. destruct (decide (b = a)) as [->|Hne].
    + cbn [m_candidates Account.clearVote]. rewrite lookup_empty. case_decide as Hc; [by rewrite eraseVoter_lookup|].
      rewrite <- H2. symmetry. by apply eq_None_not_Some.
    + rewrite H2. case_decide; [|done]. unfold eraseVoter. case_match; [|done]. cbn. by rewrite lookup_delete_ne.
  - intros c. rewrite (cleared_prod s) by done. case_decide as Hc; [|apply H3]. unfold eraseVoter.
    destruct (m_voters (v_prod v c) !! a) as [x|] eqn:E; [|apply H3]. cbn. rewrite H3, (map_sum_delete _ _ _ E), u64_sub_u64. f_equal. lia.
Qed.

(** The view after [voteIncrease], and its test of the free balance. *)
Definition voted (voter candidate : h160) (value : Z) (v : View) : View :=
  upd_prod (Producer.addVoter voter value (v_prod v candidate))
    (upd_acct (Account.addVoter candidate value (v_acct v voter)) v).

Definition no_free_balance (a : Account) (value : Z) : bool :=
  u64 (m_balance a - u64 (Account.m_votes a * 1000000)) <? u64 (value * 1000000).

Lemma voteIncrease_run s v voter candidate value :
  reps s v ->
  outcome (voteIncrease voter candidate value) s v
    (is_empty_account (v_acct v voter) || is_empty_producer (v_prod v candidate) || no_free_balance (v_acct v voter) value)
    (voted voter candidate value v).
Proof.
  intros Hr. destruct (getAccount_spec s v voter Hr) as (s1 & H1 & Hr1).
  destruct (getProducer_spec s1 v candidate Hr1) as (s2 & H2 & Hr2). unfold outcome, voteIncrease. st_run H1.
  destruct (is_empty_account (v_acct v voter)) eqn:E1; cbn [orb]; [by exists s1|]. rewrite throw_if_false. st_run H2.
  destruct (is_empty_producer (v_prod v candidate)) eqn:E2; cbn [orb]; [by exists s2|]. rewrite throw_if_false.
  fold (no_free_balance (v_acct v voter) value). destruct (no_free_balance (v_acct v voter) value); [by exists s2|].
  rewrite throw_if_false. pose proof (reps_good _ _ _ Hr E1) as Hg. pose proof (reps_good_prod _ _ _ Hr E2) as [_ Hgp].
  destruct (put_account_spec s2 v (Account.addVoter candidate value (v_acct v voter)) Hr2) as (s3 & H3 & Hr3).
  { by destruct Hg as (_ & ? & ?). }
  st_run H3. destruct (put_producer_spec s3 _ (Producer.addVoter voter value (v_prod v candidate)) Hr3) as (s4 & H4 & Hr4); [done|].
  by exists s4.
Qed.

(** A vote for a candidate that has one replaces it in the maps, but is added
    to both sums. *)
Lemma voted_votes_ok s base extra voter candidate value v :
  reps s v -> is_empty_account (v_acct v voter) = false -> is_empty_producer (v_prod v candidate) = false ->
  votes_ok base extra v -> let old := default 0 (m_candidates (v_acct v voter) !! candidate) in
  votes_ok (upd candidate (base candidate + old) base) (upd voter (extra voter + old) extra) (voted voter candidate value v).
Proof.
  intros Hr E1 E2 [H1 H2 H3] old. pose proof (good_address s v voter Hr E1) as Had.
  pose proof (proj1 (reps_good_prod _ _ _ Hr E2)) as Hadp.
  assert (forall b, v_acct (voted voter candidate value v) b =
    if decide (b = voter) then Account.addVoter candidate value (v_acct v voter) else v_acct v b) as Ha.
  { intros b. change (v_acct (voted voter candidate value v) b) with
      (v_acct (upd_acct (Account.addVoter candidate value (v_acct v voter)) v) b). rewrite upd_acct_lookup. cbn. by rewrite Had. }
  assert (forall c, v_prod (voted voter candidate value v) c =
    if decide (c = candidate) then Producer.addVoter voter value (v_prod v candidate) else v_prod v c) as Hp.
  { intros c. unfold voted. rewrite upd_prod_lookup. cbn. by rewrite Hadp. }
  unfold upd. split.
  - intros b. rewrite Ha. case_decide as Hb; [|apply H1]. cbn. rewrite map_sum_insert. fold old. rewrite H1, u64_add_u64. f_equal. lia.
  - intros b c. rewrite Ha, Hp. destruct (decide (b = voter)) as [->|Hb], (decide (c = candidate)) as [->|Hc]; cbn.
    + by rewrite !lookup_insert_eq.
    + rewrite lookup_insert_ne by done. apply H2.
    + rewrite lookup_insert_ne by done. apply H2.
    + apply H2.
  - intros c. rewrite Hp. case_decide as Hc; [|apply H3]. cbn. rewrite map_sum_insert, <- H2. fold old. rewrite H3, u64_add_u64. f_equal. lia.
Qed.

(** The free balance is compared in wrapped 64-bit arithmetic: with as
    little as 448384 units, an account without votes may vote 18446744073710
    (over eighteen trillion), because that times one million is 448384 modulo
    [2^64]. *)
Theorem vote_weight_overflows (s : S) (v : View) (voter candidate : h160)
    (Hr : reps s v) (Hb : balances_ok v) (E1 : is_empty_account (v_acct v voter) = false)
    (E2 : is_empty_producer (v_prod v candidate) = false)
    (Hnone : Account.m_votes (v_acct v voter) = 0) (Hbal : 448384 <= balance v voter) :
  exists s' v', voteIncrease voter candidate 18446744073710 s = (Ok tt, s') /\ reps s' v' /\
    Account.m_votes (v_acct v' voter) = 18446744073710.
Proof.
  destruct (voteIncrease_run s v voter candidate 18446744073710 Hr) as (s' & Hs). rewrite E1, E2 in Hs. cbn [orb] in Hs.
  assert (no_free_balance (v_acct v voter) 18446744073710 = false) as Hf.
  { unfold no_free_balance. rewrite Hnone. fold (balance v voter). pose proof (Hb voter) as Hu. unfold is_u64 in Hu.
    change (u64 (0 * 1000000)) with 0. change (u64 (18446744073710 * 1000000)) with 448384. unfold u64.
    rewrite Z.mod_small by lia. apply Z.ltb_ge. lia. }
  rewrite Hf in Hs. destruct Hs as [Hs Hr']. exists s', (voted voter candidate 18446744073710 v).
  split; [done|]. split; [done|]. pose proof (good_address s v voter Hr E1) as Had.
  change (v_acct (voted voter candidate 18446744073710 v) voter) with
    (v_acct (upd_acct (Account.addVoter candidate 18446744073710 (v_acct v voter)) v) voter).
  rewrite upd_acct_lookup. cbn [Account.m_address Account.addVoter]. rewrite Had, decide_True by done.
  cbn [Account.m_votes Account.addVoter]. by rewrite Hnone.
Qed.
End Votes.
