(* ===== verification/Actions.v ===== *)
(** * Transactions: runtime/action/*.cpp, runtime/common/Runtime.cpp and
    runtime/correlator/Correlation.cpp

    The three action handlers, the factory that picks one, the runtime of one
    transaction and the loop over a block's transactions, over any ledger. *)

From S2P Require Import Prelude CommonData RLP RLPFacts FixedHash SHA3 Codec.
From S2P Require Import Account Producer Ballot Transaction BlockHeader Block Database Ledger LedgerFacts.
Import Spec.

(** config/Constant.h. *)
Definition TRANSACTION_FEE : Z := 500000.
Definition PRODUCER_COST : Z := 1024000000.

Section Actions.
Context {S : Type} `{Ledger S}.

(** [Transfer::execute()]. *)
Definition Transfer_execute (tx : Transaction) : ST S unit :=
  _ ← burn (m_sender tx) TRANSACTION_FEE;
  transfer (m_sender tx) (m_recipient tx) (Transaction.m_value tx).

(** [Vote::execute()]. *)
Definition Vote_execute (tx : Transaction) : ST S unit :=
  _ ← clearVote (m_sender tx);
  _ ← burn (m_sender tx) TRANSACTION_FEE;
  ballot ← st_lift (Ballot.decode (Transaction.m_data tx));
  st_foreach (fun item => voteIncrease (m_sender tx) (Ballot.m_address item) (Ballot.m_value item)) ballot.

(** [BeenProducer::execute()]. *)
Definition BeenProducer_execute (block : Block) (tx : Transaction) : ST S unit :=
  _ ← burn (m_sender tx) TRANSACTION_FEE;
  target ← getProducer (m_sender tx);
  if is_empty_producer target then
    _ ← burn (m_sender tx) PRODUCER_COST;
    put_producer (setVotes 0 (newProducer (m_sender tx) (BlockHeader.m_timestamp (m_blockHeader block))))
  else mret tt.

(** [ActionFactory]: the handler by type; [init] and [finalize] of every
    handler are empty. *)
Definition factory_execute (block : Block) (tx : Transaction) : ST S unit :=
  if Transaction.m_type tx =? VoteType then Vote_execute tx
  else if Transaction.m_type tx =? TransferType then Transfer_execute tx
  else if Transaction.m_type tx =? BeenProducerType then BeenProducer_execute block tx
  else mret tt.

(** [Runtime::excute()]. *)
Definition excute (block : Block) (tx : Transaction) : ST S unit :=
  _ ← factory_execute block tx;
  put_transaction tx.

(** [CorrelatorFilter::run()]. *)
Definition correlator_run (block : Block) : ST S unit :=
  st_foreach (excute block) (m_transactions block).
End Actions.

(** ** Running actions *)

Section Triples.
Context {S : Type} `{LedgerLaws S}.

(** From a state whose view satisfies [P], the action returns with a view
    that satisfies [Q], or throws a [GSException]; it never loses track of a
    view. *)
Definition triple (P : View -> Prop) (m : ST S unit) (Q : View -> Prop) : Prop :=
  forall s v, reps s v -> P v ->
    exists s' v', reps s' v' /\ (m s = (Ok tt, s') /\ Q v' \/ exists e, m s = (Throw e, s') /\ is_GSException e = true).

Lemma triple_bind P Q R m1 m2 : triple P m1 Q -> triple Q m2 R -> triple P (_ ← m1; m2) R.
Proof.
  intros H1 H2 s v Hr Hp. destruct (H1 s v Hr Hp) as (s1 & v1 & Hr1 & [[E1 Hq]|(e & E1 & He)]).
  - destruct (H2 s1 v1 Hr1 Hq) as (s2 & v2 & Hr2 & Hm). exists s2, v2. split; [done|]. by rewrite (st_bind_ok _ _ _ _ _ E1).
  - exists s1, v1. split; [done|]. right. exists e. by rewrite (st_bind_throw _ _ _ _ _ E1).
Qed.

Lemma triple_foreach {A} (f : A -> ST S unit) (xs : list A) (P : list A -> View -> Prop) :
  (forall x rest, triple (P (x :: rest)) (f x) (P rest)) -> triple (P xs) (st_foreach f xs) (P []).
Proof.
  intros Hf. induction xs as [|x xs IH]; intros s v Hr Hp; [exists s, v; split; [done|]; by left|].
  cbn [st_foreach]. by apply (triple_bind (P (x :: xs)) (P xs) (P []) _ _ (Hf x xs) IH s v).
Qed.

Lemma triple_outcome (P Q : View -> Prop) (m : ST S unit) (fails : View -> bool) (next : View -> View) :
  (forall s v, reps s v -> outcome m s v (fails v) (next v)) ->
  (forall s v, reps s v -> P v -> fails v = false -> Q (next v)) -> triple P m Q.
Proof.
  intros Ho Hq s v Hr Hp. destruct (Ho s v Hr) as (s' & Hs). destruct (fails v) eqn:E; destruct Hs as [Hs Hr'].
  - exists s', v. split; [done|]. right. by eexists.
  - exists s', (next v). split; [done|]. left. split; [done|]. by eapply Hq.
Qed.

Lemma triple_pure (P Q : View -> Prop) : (forall v, P v -> Q v) -> triple P (mret tt) Q.
Proof. intros Hpq s v Hr Hp. exists s, v. split; [done|]. left. split; [done|]. by apply Hpq. Qed.

Lemma triple_post (P Q R : View -> Prop) m : triple P m Q -> (forall v, Q v -> R v) -> triple P m R.
Proof.
  intros Ht Hqr s v Hr Hp. destruct (Ht s v Hr Hp) as (s' & v' & Hr' & [[E Hq]|He]); exists s', v'; (split; [done|]);
    [left; split; [done|by apply Hqr]|by right].
Qed.

Lemma triple_pre (P Q R : View -> Prop) m : triple Q m R -> (forall s v, reps s v -> P v -> Q v) -> triple P m R.
Proof. intros Ht Hpq s v Hr Hp. by apply (Ht s v Hr), (Hpq s). Qed.
End Triples.

(** ** The ledger invariant *)

Lemma total_same v v' L : (forall a, balance v' a = balance v a) -> total v' L = total v L.
Proof. intros Hb. induction L as [|a L IH]; [done|]. cbn [total foldr]. fold (total v' L). fold (total v L). by rewrite Hb, IH. Qed.

(** How many addresses of a list are producers, and what a list is worth: its
    balances, and what its producers paid to become one. *)
Definition producer_count (v : View) (L : list h160) : Z :=
  foldr (fun a z => (if is_empty_producer (v_prod v a) then 0 else 1) + z) 0 L.
Definition worth (v : View) (L : list h160) : Z := total v L + PRODUCER_COST * producer_count v L.

Lemma producers_same v v' L :
  (forall a, is_empty_producer (v_prod v' a) = is_empty_producer (v_prod v a)) -> producer_count v' L = producer_count v L.
Proof. intros Hp. induction L as [|a L IH]; [done|]. cbn [producer_count foldr]. fold (producer_count v' L). fold (producer_count v L). by rewrite Hp, IH. Qed.

Lemma producers_new v p L :
  NoDup L -> Producer.m_address p ∈ L -> is_empty_producer (v_prod v (Producer.m_address p)) = true -> is_empty_producer p = false ->
  producer_count (upd_prod p v) L = producer_count v L + 1.
Proof.
  intros Hn Ha He Hp. induction L as [|x L IH]; [by apply not_elem_of_nil in Ha|]. apply NoDup_cons in Hn as [Hx Hn].
  cbn [producer_count foldr]. fold (producer_count (upd_prod p v) L). fold (producer_count v L). rewrite upd_prod_lookup.
  destruct (decide (x = Producer.m_address p)) as [->|Hne].
  - rewrite Hp, He. assert (producer_count (upd_prod p v) L = producer_count v L) as ->; [|lia]. clear IH Ha Hn.
    induction L as [|y L IH]; [done|]. apply not_elem_of_cons in Hx as [Hy Hx]. cbn [producer_count foldr].
    fold (producer_count (upd_prod p v) L). fold (producer_count v L). rewrite upd_prod_lookup, decide_False by done. by rewrite IH.
  - apply elem_of_cons in Ha as [Ha|Ha]; [by destruct Hne|]. rewrite IH by done. lia.
Qed.

(** Votes add up, balances fit 64 bits, and the addresses of [L] are worth
    [W]. *)
Record ledger_ok (base extra : h160 -> Z) (L : list h160) (W : Z) (v : View) : Prop := {
  lk_votes : votes_ok base extra v;
  lk_balances : balances_ok v;
  lk_worth : worth v L = W
}.

(** The fee of a transaction the factory has a handler for. *)
Definition handled (tx : Transaction) : bool :=
  (Transaction.m_type tx =? VoteType) || (Transaction.m_type tx =? TransferType) || (Transaction.m_type tx =? BeenProducerType).
Definition fee (tx : Transaction) : Z := if handled tx then TRANSACTION_FEE else 0.

(** What a transaction mints: a transfer to oneself adds its value. *)
Definition minted (tx : Transaction) : Z :=
  if (Transaction.m_type tx =? TransferType) && bool_decide (m_sender tx = m_recipient tx) then Transaction.m_value tx else 0.

(** The entries of a ballot that a later entry for the same candidate replaces,
    for a voter whose candidates are [m]. *)
Fixpoint replaced (m : gmap h160 Z) (ballot : list Candidate) : list (h160 * Z) :=
  match ballot with
  | [] => []
  | c :: rest =>
      match m !! Ballot.m_address c with Some old => [(Ballot.m_address c, old)] | None => [] end
      ++ replaced (<[Ballot.m_address c := Ballot.m_value c]> m) rest
  end.
Definition sum_of (l : list (h160 * Z)) : Z := foldr (fun i z => snd i + z) 0 l.
Definition sum_for (c : h160) (l : list (h160 * Z)) : Z := foldr (fun i z => (if decide (c = fst i) then snd i else 0) + z) 0 l.

Lemma sum_of_cons i l : sum_of (i :: l) = snd i + sum_of l.
Proof. done. Qed.
Lemma sum_for_cons c i l : sum_for c (i :: l) = (if decide (c = fst i) then snd i else 0) + sum_for c l.
Proof. done. Qed.

Lemma replaced_nodup m ballot :
  NoDup (map Ballot.m_address ballot) -> (forall c, c ∈ map Ballot.m_address ballot -> m !! c = None) -> replaced m ballot = [].
Proof.
  revert m. induction ballot as [|c rest IH]; intros m Hn Hm; [done|]. cbn [replaced map] in *. apply NoDup_cons in Hn as [Hc Hn].
  rewrite (Hm (Ballot.m_address c)) by left. apply IH; [done|]. intros d Hd. rewrite lookup_insert_ne by (intros <-; done). apply Hm. by right.
Qed.

(** The votes of a transaction that count without being recorded, and what they
    do to the sums: a vote starts the voter's over. *)
Definition phantom (tx : Transaction) : list (h160 * Z) :=
  if Transaction.m_type tx =? VoteType then
    match Ballot.decode (Transaction.m_data tx) with Ok b => replaced ∅ b | Throw _ => [] end
  else [].
Definition base_after (tx : Transaction) (base : h160 -> Z) : h160 -> Z := fun c => base c + sum_for c (phantom tx).
Definition extra_after (tx : Transaction) (extra : h160 -> Z) : h160 -> Z :=
  if Transaction.m_type tx =? VoteType then upd (m_sender tx) (sum_of (phantom tx)) extra else extra.
Definition bases (txs : list Transaction) (base : h160 -> Z) : h160 -> Z := fold_left (fun f tx => base_after tx f) txs base.
Definition extras (txs : list Transaction) (extra : h160 -> Z) : h160 -> Z := fold_left (fun f tx => extra_after tx f) txs extra.

(** What the theorem on blocks asks of a transaction: its parties are in [L],
    its value fits its type, and its hash is not that of [EmptyTransaction]. *)
Record regular (L : list h160) (tx : Transaction) : Prop := {
  rg_sender : m_sender tx ∈ L;
  rg_recipient : m_recipient tx ∈ L;
  rg_value : is_u64 (Transaction.m_value tx);
  rg_hash : exists h, good_transaction h tx
}.

(** A ballot that names no candidate twice. *)
Definition plain_ballot (tx : Transaction) : Prop :=
  forall b, Transaction.m_type tx = VoteType -> Ballot.decode (Transaction.m_data tx) = Ok b -> NoDup (map Ballot.m_address b).

Lemma plain_phantom tx : plain_ballot tx -> phantom tx = [].
Proof.
  intros Hp. unfold phantom. destruct (Z.eqb_spec (Transaction.m_type tx) VoteType) as [Ht|]; [|done].
  destruct (Ballot.decode (Transaction.m_data tx)) as [b|] eqn:Hd; [|done]. apply replaced_nodup; [by apply Hp|].
  intros c _. apply lookup_empty.
Qed.
Lemma plain_bases txs base c : Forall plain_ballot txs -> bases txs base c = base c.
Proof.
  intros Hp. revert base. unfold bases. induction Hp as [|tx txs Ht Hp IH]; intros base; [done|]. cbn [fold_left]. rewrite IH.
  unfold base_after. rewrite (plain_phantom tx Ht). cbn. lia.
Qed.
Lemma plain_extras txs extra a : Forall plain_ballot txs -> extra a = 0 -> extras txs extra a = 0.
Proof.
  intros Hp. revert extra. unfold extras. induction Hp as [|tx txs Ht Hp IH]; intros extra He; [done|]. cbn [fold_left]. apply IH.
  unfold extra_after. rewrite (plain_phantom tx Ht). destruct (_ =? _); [|done]. unfold upd. by case_decide.
Qed.

Section Invariant.
Context {S : Type} `{LedgerLaws S} (L : list h160) (HL : NoDup L).
Implicit Types base extra : h160 -> Z.

Lemma setBalance_votes base extra x v v0 :
  votes_ok base extra v -> v_acct v (Account.m_address x) = v0 -> Account.m_votes x = Account.m_votes v0 ->
  m_candidates x = m_candidates v0 -> votes_ok base extra (upd_acct x v).
Proof.
  intros Hv He H1 H2. apply (votes_ok_same base extra v); [done|done|]. intros a. rewrite upd_acct_lookup.
  destruct (decide (a = _)) as [->|]; [|done]. by rewrite He, H1, H2.
Qed.

(** A change of one balance. *)
Lemma setBalance_worth a x v d :
  a ∈ L -> Account.m_address x = a -> m_balance x = balance v a + d -> worth (upd_acct x v) L = worth v L + d.
Proof.
  intros Ha Had Hx. unfold worth. rewrite (producers_same v (upd_acct x v)) by done. rewrite (total_change v _ a L d HL Ha); [lia|].
  intros b. rewrite balance_upd, Had. case_decide; subst; lia.
Qed.

(** A burn also keeps what does not depend on the balance of the account. *)
Lemma burn_triple base extra (R : View -> Prop) a x W :
  a ∈ L -> 0 <= x -> (forall v y, Account.m_address (v_acct v a) = a -> R v -> R (upd_acct (setBalance y (v_acct v a)) v)) ->
  triple (fun v => ledger_ok base extra L W v /\ R v) (burn a x) (fun v => ledger_ok base extra L (W - x) v /\ R v).
Proof.
  intros Ha Hx HR. eapply triple_outcome; [intros s v Hr; by apply burn_run|]. cbv beta.
  intros s v Hr [[Hv Hb Ht] HRv] [He Hf%Z.ltb_ge]%orb_false_iff. fold (balance v a) in *. pose proof (good_address s v a Hr He) as Had.
  split; [|by apply HR]. split.
  - eapply setBalance_votes; [done|cbn [Account.m_address setBalance]; rewrite Had; done|done|done].
  - intros b. pose proof (Hb b). pose proof (Hb a). unfold is_u64 in *. rewrite balance_upd. cbn [m_balance setBalance]. case_decide; lia.
  - rewrite (setBalance_worth a _ v (- x)); [lia|done|done|cbn [m_balance setBalance]; lia].
Qed.

Lemma moved_votes base extra s v from to x :
  reps s v -> is_empty_account (v_acct v from) = false -> votes_ok base extra v -> votes_ok base extra (moved from to x v).
Proof.
  intros Hr E1 Hv. pose proof (good_address s v from Hr E1) as Haf. pose proof (acct_or_new_good s v to Hr) as (Hat & _ & _).
  unfold moved. set (v1 := upd_acct (setBalance (balance v from - x) (v_acct v from)) v).
  assert (votes_ok base extra v1) as Hvo
    by (eapply setBalance_votes; [done|cbn [Account.m_address setBalance]; rewrite Haf; done|done|done]).
  assert (Account.m_votes (acct_or_new v to) = Account.m_votes (v_acct v1 to) /\ m_candidates (acct_or_new v to) = m_candidates (v_acct v1 to)) as [H1 H2].
  { unfold v1. rewrite upd_acct_lookup. cbn [Account.m_address setBalance]. rewrite Haf. unfold acct_or_new.
    destruct (decide (to = from)) as [->|]; [by rewrite E1|]. destruct (reps_acct s v to Hr) as [Hg|Hg]; [by rewrite (good_not_empty _ _ Hg)|by rewrite Hg]. }
  apply (setBalance_votes _ _ _ _ (v_acct v1 to)); [done| |exact H1|exact H2]. cbn [Account.m_address setBalance]. by rewrite Hat.
Qed.

Lemma transfer_triple base extra from to x W :
  from ∈ L -> to ∈ L -> is_u64 x ->
  triple (ledger_ok base extra L W) (transfer from to x) (ledger_ok base extra L (W + (if decide (from = to) then x else 0))).
Proof.
  intros Hf Ht Hx s v Hr [Hv Hb Htot]. destruct (transfer_moved s v from to x Hr Hb Hx) as (s' & Hs).
  destruct (_ || _) eqn:E; destruct Hs as [Hs Hr']; [exists s', v; split; [done|]; right; by eexists|].
  apply orb_false_iff in E as [[E1 E2]%orb_false_iff E3]. zify_bool. pose proof (Hb to) as Hbt. unfold is_u64 in Hx, Hbt.
  exists s', (moved from to x v). split; [done|]. left. split; [done|].
  assert (producer_count (moved from to x v) L = producer_count v L) as Hp by (by apply producers_same).
  destruct (decide (from = to)) as [->|Hne].
  - pose proof (fun b => moved_self_balance s v to x b Hr E1 ltac:(lia)) as Hm. split; [by eapply moved_votes| |].
    + intros b. pose proof (Hb b). unfold is_u64 in *. rewrite Hm. case_decide; subst; lia.
    + unfold worth in *. rewrite (total_change v _ to L x HL Ht Hm). lia.
  - pose proof (fun b => moved_balance s v from to x b Hr E1 Hne ltac:(lia)) as Hm. split; [by eapply moved_votes| |].
    + intros b. pose proof (Hb b). unfold is_u64 in *. rewrite Hm. repeat case_decide; subst; lia || congruence.
    + unfold worth in *. rewrite moved_total by done. lia.
Qed.

(** Under the invariant a candidate of an account is a producer. *)
Lemma candidates_exist base extra v a c :
  votes_ok base extra v -> is_Some (m_candidates (v_acct v a) !! c) ->
  (good_producer c (v_prod v c) \/ v_prod v c = EmptyProducer) -> is_empty_producer (v_prod v c) = false.
Proof.
  intros [_ Hl _] [x Hx] [[_ Hg]|He]; [done|]. rewrite Hl, He in Hx. cbn in Hx. by rewrite lookup_empty in Hx.
Qed.

Lemma cleared_balance s a v b : reps s v -> is_empty_account (v_acct v a) = false -> balance (cleared a v) b = balance v b.
Proof.
  intros Hr He. unfold cleared. rewrite balance_upd. cbn [Account.m_address Account.clearVote m_balance].
  rewrite (good_address s v a Hr He). unfold balance. rewrite (proj1 (erase_all_acct _ _ _)). case_decide; by subst.
Qed.

Lemma cleared_candidates s a v : reps s v -> is_empty_account (v_acct v a) = false -> m_candidates (v_acct (cleared a v) a) = ∅.
Proof.
  intros Hr He. unfold cleared. rewrite upd_acct_lookup. cbn [Account.m_address Account.clearVote].
  by rewrite (good_address s v a Hr He), decide_True.
Qed.

Lemma clearVote_triple base extra a W :
  triple (ledger_ok base extra L W) (clearVote a) (fun v => ledger_ok base (upd a 0 extra) L W v /\ m_candidates (v_acct v a) = ∅).
Proof.
  intros s v Hr [Hv Hb Ht]. destruct (is_empty_account (v_acct v a)) eqn:He.
  - destruct (getAccount_spec s v a Hr) as (s1 & H1 & Hr1). exists s1, v. split; [done|]. right. exists RepositoryException.
    unfold clearVote. rewrite (st_bind_ok _ _ _ _ _ H1), He. done.
  - assert (forall c, is_Some (m_candidates (v_acct v a) !! c) -> is_empty_producer (v_prod v c) = false) as Hc.
    { intros c Hc. eapply candidates_exist; [done|done|]. by apply (reps_prod s v c). }
    destruct (clearVote_run a s v Hr He Hc) as (s' & Hs & Hr'). exists s', (cleared a v). split; [done|]. left. split; [done|].
    split; [split|by eapply cleared_candidates].
    + by apply (cleared_votes_ok s).
    + intros b. rewrite (cleared_balance s) by done. apply Hb.
    + rewrite <- Ht. unfold worth. rewrite (total_same v) by (intros b; by apply (cleared_balance s)). do 2 f_equal.
      apply producers_same. intros b. rewrite (cleared_prod s) by done. case_decide; [apply eraseVoter_empty|done].
Qed.

Lemma voted_acct s v voter candidate value b :
  reps s v -> is_empty_account (v_acct v voter) = false ->
  v_acct (voted voter candidate value v) b =
  if decide (b = voter) then Account.addVoter candidate value (v_acct v voter) else v_acct v b.
Proof.
  intros Hr He. change (v_acct (voted voter candidate value v) b) with
    (v_acct (upd_acct (Account.addVoter candidate value (v_acct v voter)) v) b).
  rewrite upd_acct_lookup. cbn [Account.m_address Account.addVoter]. by rewrite (good_address s v voter Hr He).
Qed.

Lemma voted_worth s v voter candidate value :
  reps s v -> is_empty_account (v_acct v voter) = false -> is_empty_producer (v_prod v candidate) = false ->
  worth (voted voter candidate value v) L = worth v L /\ forall b, balance (voted voter candidate value v) b = balance v b.
Proof.
  intros Hr E1 E2. assert (forall b, balance (voted voter candidate value v) b = balance v b) as Hbal.
  { intros b. unfold balance. rewrite (voted_acct s) by done. case_decide; by subst. }
  split; [|done]. unfold worth. rewrite (total_same v) by done. do 2 f_equal. apply producers_same. intros b. unfold voted.
  rewrite upd_prod_lookup. cbn [Producer.m_address Producer.addVoter]. rewrite (proj1 (reps_good_prod _ _ _ Hr E2)).
  case_decide; [by subst|done].
Qed.

(** The invariant while [a] votes: with what the entries still to come replace,
    the sums are those of the end. *)
Definition voting base extra (W : Z) (a : h160) (rest : list Candidate) (v : View) : Prop :=
  exists base' extra', ledger_ok base' extra' L W v /\
    (forall c, base' c + sum_for c (replaced (m_candidates (v_acct v a)) rest) = base c) /\
    (forall b, extra' b + (if decide (b = a) then sum_of (replaced (m_candidates (v_acct v a)) rest) else 0) = extra b).

Lemma voteIncrease_triple base extra W a c rest :
  triple (voting base extra W a (c :: rest)) (voteIncrease a (Ballot.m_address c) (Ballot.m_value c)) (voting base extra W a rest).
Proof.
  eapply triple_outcome; [intros s v Hr; by apply voteIncrease_run|]. cbv beta.
  intros s v Hr (base' & extra' & [Hv Hb Ht] & Hbase & Hextra) [[E1 E2]%orb_false_iff _]%orb_false_iff.
  pose proof (fun b => voted_acct s v a (Ballot.m_address c) (Ballot.m_value c) b Hr E1) as Ha.
  destruct (voted_worth s v a _ (Ballot.m_value c) Hr E1 E2) as [Hw Hbal].
  pose proof (voted_votes_ok s base' extra' a _ (Ballot.m_value c) v Hr E1 E2 Hv) as Hv'. cbv zeta in Hv'.
  eexists _, _. split; [split; [exact Hv'|intros b; rewrite Hbal; apply Hb|by rewrite Hw]|].
  rewrite Ha, decide_True by done. cbn [m_candidates Account.addVoter]. unfold upd.
  cbn [replaced] in Hbase, Hextra. destruct (m_candidates (v_acct v a) !! Ballot.m_address c) as [old|]; cbn [default app] in *; unfold id.
  - split; [intros d|intros b]; [rewrite <- Hbase|rewrite <- Hextra]; rewrite ?sum_for_cons, ?sum_of_cons;
      repeat case_decide; subst; cbn [fst snd] in *; lia || congruence.
  - split; [intros d|intros b]; [rewrite <- Hbase|rewrite <- Hextra]; repeat case_decide; subst; lia.
Qed.

Lemma empty_producer_base base extra v c : votes_ok base extra v -> v_prod v c = EmptyProducer -> u64 (base c) = 0.
Proof.
  intros [_ _ Hp] He. specialize (Hp c). rewrite He in Hp. cbn [Producer.m_votes m_voters EmptyProducer] in Hp.
  change (map_sum ∅) with 0 in Hp. by rewrite Z.add_0_r in Hp.
Qed.

Lemma put_producer_triple base extra a t W :
  a ∈ L -> t <> 0 ->
  triple (fun v => ledger_ok base extra L W v /\ v_prod v a = EmptyProducer) (put_producer (setVotes 0 (newProducer a t)))
    (ledger_ok base extra L (W + PRODUCER_COST)).
Proof.
  intros Ha Hne s v Hr [[[H1 H2 H3] Hb Ht] He].
  assert (is_empty_producer (setVotes 0 (newProducer a t)) = false) as Hemp.
  { unfold is_empty_producer, producer_eqb. cbn. apply andb_false_iff. right. by apply Z.eqb_neq. }
  destruct (put_producer_spec s v (setVotes 0 (newProducer a t)) Hr) as (s' & Hs & Hr'); [done|].
  eexists s', _. split; [exact Hr'|]. left. split; [done|]. pose proof (empty_producer_base base extra v a ltac:(by split) He) as Hbase.
  split; [split; [done| |]|done|].
  - intros b c. rewrite upd_prod_lookup. cbn [Producer.m_address setVotes newProducer]. case_decide as Hc; [|apply H2].
    subst c. cbn [v_acct upd_prod]. by rewrite H2, He.
  - intros c. rewrite upd_prod_lookup. cbn [Producer.m_address setVotes newProducer]. case_decide as Hc; [|apply H3].
    subst c. cbn. change (map_sum ∅) with 0. by rewrite Z.add_0_r, Hbase.
  - unfold worth in *. rewrite producers_new; [|done|done|cbn; by rewrite He|done].
    change (total (upd_prod (setVotes 0 (newProducer a t)) v) L) with (total v L). lia.
Qed.

Lemma triple_lift {A} (P Q : View -> Prop) (r : result A) (f : A -> ST S unit) :
  throws is_GSException r -> (forall x, r = Ok x -> triple P (f x) Q) -> triple P (x ← st_lift r; f x) Q.
Proof.
  intros Ht Hf s v Hr Hp. destruct r as [x|e]; [by apply (Hf x eq_refl s v)|]. exists s, v. split; [done|]. right. exists e.
  split; [done|by apply Ht].
Qed.

Lemma triple_true (P Q : View -> Prop) m : triple (fun v => P v /\ True) m (fun v => Q v /\ True) -> triple P m Q.
Proof.
  intros Ht s v Hr Hp. destruct (Ht s v Hr (conj Hp I)) as (s' & v' & Hr' & [[E [Hq _]]|He]); exists s', v'; (split; [done|]);
    [by left|by right].
Qed.

Lemma Transfer_triple base extra W tx :
  regular L tx ->
  triple (ledger_ok base extra L W) (Transfer_execute tx)
    (ledger_ok base extra L (W - TRANSACTION_FEE + (if decide (m_sender tx = m_recipient tx) then Transaction.m_value tx else 0))).
Proof.
  intros []. unfold Transfer_execute. eapply triple_bind.
  - apply triple_true. by apply (burn_triple base extra (fun _ => True)).
  - by apply transfer_triple.
Qed.

Lemma Vote_triple base extra W tx :
  regular L tx -> Transaction.m_type tx = VoteType ->
  triple (ledger_ok base extra L W) (Vote_execute tx) (ledger_ok (base_after tx base) (extra_after tx extra) L (W - TRANSACTION_FEE)).
Proof.
  intros [] Ht. unfold Vote_execute. eapply triple_bind; [apply clearVote_triple|]. eapply triple_bind.
  - apply (burn_triple base _ (fun v => m_candidates (v_acct v (m_sender tx)) = ∅)); [done|done|].
    intros v y Had Hc. rewrite upd_acct_lookup. cbn [Account.m_address setBalance]. by rewrite Had, decide_True.
  - apply triple_lift; [apply ballot_decode_throws|]. intros b Hd.
    assert (phantom tx = replaced ∅ b) as Hph by (unfold phantom; rewrite (proj2 (Z.eqb_eq _ _) Ht); by rewrite Hd).
    eapply triple_post; [eapply triple_pre;
      [apply (triple_foreach _ b (voting (base_after tx base) (extra_after tx extra) (W - TRANSACTION_FEE) (m_sender tx)))|]|].
    + intros c rest. apply voteIncrease_triple.
    + intros s v _ [Hl Hc]. eexists _, _. split; [exact Hl|]. rewrite Hc, <- Hph. split; [done|]. intros a.
      unfold extra_after, upd. rewrite (proj2 (Z.eqb_eq _ _) Ht). case_decide; lia.
    + intros v (base' & extra' & [Hv Hb Hw] & H1 & H2). split; [|done|done].
      apply (votes_ok_ext base' extra'); [done| |]; [intros c; rewrite <- H1|intros a; rewrite <- H2; case_decide]; cbn; lia.
Qed.

Lemma BeenProducer_triple base extra W block tx :
  regular L tx -> BlockHeader.m_timestamp (m_blockHeader block) <> 0 ->
  triple (ledger_ok base extra L W) (BeenProducer_execute block tx) (ledger_ok base extra L (W - TRANSACTION_FEE)).
Proof.
  intros [] Ht. unfold BeenProducer_execute. eapply triple_bind.
  { apply triple_true. by apply (burn_triple base extra (fun _ => True)). }
  intros s v Hr Hl. destruct (getProducer_spec s v (m_sender tx) Hr) as (s1 & H1 & Hr1).
  destruct (is_empty_producer (v_prod v (m_sender tx))) eqn:E.
  - assert (v_prod v (m_sender tx) = EmptyProducer) as He.
    { destruct (reps_prod s v (m_sender tx) Hr) as [[_ Hg]|Hg]; [congruence|done]. }
    assert (triple (fun v => ledger_ok base extra L (W - TRANSACTION_FEE) v /\ v_prod v (m_sender tx) = EmptyProducer)
      (_ ← burn (m_sender tx) PRODUCER_COST;
       put_producer (setVotes 0 (newProducer (m_sender tx) (BlockHeader.m_timestamp (m_blockHeader block)))))
      (ledger_ok base extra L (W - TRANSACTION_FEE))) as Hrun.
    { eapply triple_bind; [by apply (burn_triple base extra (fun v => v_prod v (m_sender tx) = EmptyProducer))|].
      pose proof (put_producer_triple base extra _ _ (W - TRANSACTION_FEE - PRODUCER_COST) rg_sender0 Ht) as Hput.
      rewrite Z.sub_add in Hput. exact Hput. }
    destruct (Hrun s1 v Hr1 (conj Hl He)) as (s2 & v2 & Hr2 & Hm). exists s2, v2. split; [done|].
    by rewrite (st_bind_ok _ _ _ _ _ H1), E.
  - exists s1, v. split; [done|]. left. rewrite (st_bind_ok _ _ _ _ _ H1), E. done.
Qed.

Lemma put_transaction_triple base extra W tx :
  (exists h, good_transaction h tx) -> triple (ledger_ok base extra L W) (put_transaction tx) (ledger_ok base extra L W).
Proof.
  intros [h Hg] s v Hr [[H1 H2 H3] Hb Ht]. destruct (put_transaction_spec s v h tx Hr Hg) as (s' & Hs & Hr').
  eexists s', _. split; [exact Hr'|]. left. split; [done|]. by split.
Qed.

Lemma excute_triple base extra W block tx :
  regular L tx -> BlockHeader.m_timestamp (m_blockHeader block) <> 0 ->
  triple (ledger_ok base extra L W) (excute block tx) (ledger_ok (base_after tx base) (extra_after tx extra) L (W - fee tx + minted tx)).
Proof.
  intros Hg Ht. unfold excute. eapply triple_bind; [|apply put_transaction_triple; by destruct Hg].
  destruct (Z.eqb_spec (Transaction.m_type tx) VoteType) as [Ev|Ev].
  { unfold factory_execute, fee, handled, minted. rewrite !Ev. cbn [Z.eqb orb andb VoteType TransferType].
    eapply triple_post; [by apply Vote_triple|]. intros v [Hv Hb Hw]. split; [done|done|cbn; lia]. }
  assert (forall W', triple (ledger_ok base extra L W) (factory_execute block tx) (ledger_ok base extra L W') ->
    W' = W - fee tx + minted tx -> triple (ledger_ok base extra L W) (factory_execute block tx)
    (ledger_ok (base_after tx base) (extra_after tx extra) L (W - fee tx + minted tx))) as Hsame.
  { intros W' Htr ->. eapply triple_post; [exact Htr|]. intros v [Hv Hb Hw]. split; [|done|done].
    assert (phantom tx = []) as Hph by (unfold phantom; by rewrite (proj2 (Z.eqb_neq _ _) Ev)).
    eapply votes_ok_ext; [done| |]; [intros c; unfold base_after; rewrite Hph; cbn; lia|].
    intros a. unfold extra_after. by rewrite (proj2 (Z.eqb_neq _ _) Ev). }
  destruct (Z.eqb_spec (Transaction.m_type tx) TransferType) as [Et|Et].
  { eapply Hsame; unfold factory_execute, fee, handled, minted; rewrite !Et; [by apply Transfer_triple|].
    cbn. rewrite bool_decide_decide. by case_decide. }
  destruct (Z.eqb_spec (Transaction.m_type tx) BeenProducerType) as [Ep|Ep].
  { eapply Hsame; unfold factory_execute, fee, handled, minted; rewrite !Ep; [by apply BeenProducer_triple|]. cbn. lia. }
  eapply (Hsame W); unfold factory_execute, fee, handled, minted; rewrite !(proj2 (Z.eqb_neq _ _)) by done; [by apply triple_pure|cbn; lia].
Qed.

(** The fees of a list of transactions, and what they mint. *)
Definition fees (txs : list Transaction) : Z := foldr (fun tx z => fee tx + z) 0 txs.
Definition mints (txs : list Transaction) : Z := foldr (fun tx z => minted tx + z) 0 txs.

Lemma correlator_triple base extra W block :
  Forall (regular L) (m_transactions block) -> BlockHeader.m_timestamp (m_blockHeader block) <> 0 ->
  triple (ledger_ok base extra L W) (correlator_run block)
    (ledger_ok (bases (m_transactions block) base) (extras (m_transactions block) extra) L
       (W - fees (m_transactions block) + mints (m_transactions block))).
Proof.
  intros Hreg Ht. unfold correlator_run. revert base extra W.
  induction Hreg as [|tx txs Htx Hreg IH]; intros base extra W; cbn [st_foreach fees mints foldr bases extras fold_left].
  - apply triple_pure. intros v. by rewrite Z.sub_0_r, Z.add_0_r.
  - eapply triple_bind; [by apply excute_triple|]. fold (fees txs). fold (mints txs).
    replace (W - (fee tx + fees txs) + (minted tx + mints txs)) with (W - fee tx + minted tx - fees txs + mints txs) by lia. apply IH.
Qed.

(** The bonus wraps around at 2^64. *)
Lemma bonus_ledger_ok base extra W s v a x :
  reps s v -> a ∈ L -> is_u64 x -> is_empty_account (v_acct v a) = false -> ledger_ok base extra L W v ->
  let v' := upd_acct (setBalance (u64 (balance v a + x)) (v_acct v a)) v in
  ledger_ok base extra L (W + x - (if balance v' a <? x then 2 ^ 64 else 0)) v'.
Proof.
  intros Hr Ha Hx He [Hv Hb Ht] v'. pose proof (good_address s v a Hr He) as Had. pose proof (Hb a) as Hba. unfold is_u64 in Hba, Hx.
  assert (balance v' a = u64 (balance v a + x)) as Hv' 
    by (unfold v'; rewrite balance_upd; cbn [Account.m_address setBalance m_balance]; by rewrite Had, decide_True).
  assert (u64 (balance v a + x) = balance v a + x - (if balance v' a <? x then 2 ^ 64 else 0)) as Hw.
  { rewrite Hv', u64_overflow by done. destruct (Z.leb_spec (2 ^ 64) (balance v a + x)); [|rewrite u64_small by (unfold is_u64; lia); lia].
    unfold u64. rewrite <- (Z.mod_unique (balance v a + x) (2 ^ 64) 1 (balance v a + x - 2 ^ 64)); lia. }
  split.
  - eapply setBalance_votes; [done|cbn [Account.m_address setBalance]; rewrite Had; done|done|done].
  - intros b. unfold v'. rewrite balance_upd. case_decide; [apply u64_range|apply Hb].
  - transitivity (worth v L + (u64 (balance v a + x) - balance v a)); [|rewrite Hw; lia].
    apply (setBalance_worth a); [done|done|cbn [m_balance setBalance]; lia].
Qed.

(** C3. What executing a block does to the ledger, for any transfers, votes
    and registrations of producers. When [CorrelatorFilter::run] returns, every
    balance fits 64 bits, candidates and voters still mirror each other, and
    the supply is accounted for to the unit: the addresses involved are worth
    (their balances, and what the producers among them paid) what they were,
    minus the fees, plus the values of the transfers from an account to itself,
    which are minted. The votes of every account and producer are the sums of
    their maps over [extra] and [base], which change by exactly the entries of
    ballots that name a candidate again; without such ballots votes that add up
    still do. *)
Theorem block_keeps_ledger (base extra : h160 -> Z) (block : Block) (s s' : S) (v : View)
    (Hr : reps s v) (Hvo : votes_ok base extra v) (Hb : balances_ok v)
    (Hreg : Forall (regular L) (m_transactions block)) (Ht : BlockHeader.m_timestamp (m_blockHeader block) <> 0)
    (Hrun : correlator_run block s = (Ok tt, s')) :
  exists v', reps s' v' /\ balances_ok v' /\
    votes_ok (bases (m_transactions block) base) (extras (m_transactions block) extra) v' /\
    worth v' L = worth v L - fees (m_transactions block) + mints (m_transactions block) /\
    (Forall plain_ballot (m_transactions block) -> (forall a, extra a = 0) -> votes_ok base (fun _ => 0) v').
Proof.
  destruct (correlator_triple base extra (worth v L) block Hreg Ht s v Hr) as (s1 & v1 & Hr1 & [[E [Hv1 Hb1 Ht1]]|(e & E & _)]);
    [by split| |]; rewrite E in Hrun; [|done].
  injection Hrun as <-. exists v1. split; [done|]. split; [done|]. split; [done|]. split; [done|]. intros Hp He.
  apply (votes_ok_ext _ _ _ _ _ Hv1); [intros c; by rewrite plain_bases|intros a; by rewrite plain_extras].
Qed.

(** A transaction of a type without a handler costs nothing and moves
    nothing: executing it records it and leaves every account and producer as
    it was. *)
Theorem unhandled_types_are_free (block : Block) (tx : Transaction) (s : S) (v : View) (h : h256)
    (Hr : reps s v) (Hty : handled tx = false) (Hh : good_transaction h tx) :
  exists s', excute block tx s = (Ok tt, s') /\ reps s' (upd_txn h tx v).
Proof.
  unfold handled in Hty. apply orb_false_iff in Hty as [[E1 E2]%orb_false_iff E3].
  unfold excute, factory_execute. rewrite E1, E2, E3. destruct (put_transaction_spec s v h tx Hr Hh) as (s' & Hs & Hr').
  by exists s'.
Qed.
End Invariant.

Section Exact.
Context {S : Type} `{LedgerLaws S}.

(** The transfer action charges its fee before the transfer: it succeeds
    exactly when the sender exists and holds the value and the fee and the
    recipient does not overflow, and it then takes [value + TRANSACTION_FEE]
    from the sender and gives [value] to the recipient; otherwise it throws. *)
Theorem transfer_action_exact (tx : Transaction) (s : S) (v : View)
    (Hr : reps s v) (Hb : balances_ok v) (Hv : is_u64 (Transaction.m_value tx)) (Hne : m_sender tx <> m_recipient tx) :
  let from := m_sender tx in let to := m_recipient tx in let value := Transaction.m_value tx in
  if negb (is_empty_account (v_acct v from)) && (value + TRANSACTION_FEE <=? balance v from)
     && (balance v to + value <? 2 ^ 64)
  then exists s' v', Transfer_execute tx s = (Ok tt, s') /\ reps s' v' /\
         forall b, balance v' b = if decide (b = from) then balance v from - value - TRANSACTION_FEE
                                  else if decide (b = to) then balance v to + value else balance v b
  else exists s', Transfer_execute tx s = (Throw RepositoryException, s').
Proof.
  cbv zeta. unfold Transfer_execute. set (from := m_sender tx) in *. set (to := m_recipient tx) in *.
  set (value := Transaction.m_value tx) in *. destruct (burn_run s v from TRANSACTION_FEE Hr) as (s1 & H1).
  fold (balance v from) in H1. destruct (is_empty_account (v_acct v from)) eqn:E1; cbn [orb negb andb] in *.
  { exists s1. by rewrite (st_bind_throw _ _ _ _ _ (proj1 H1)). }
  unfold is_u64 in Hv. destruct (balance v from <? TRANSACTION_FEE) eqn:E2; destruct H1 as [H1 Hr1].
  { zify_bool. rewrite (proj2 (Z.leb_gt _ _)) by lia. cbn [andb]. exists s1. by rewrite (st_bind_throw _ _ _ _ _ H1). }
  zify_bool. rewrite (st_bind_ok _ _ _ _ _ H1). set (v1 := upd_acct _ v) in *. pose proof (good_address s v from Hr E1) as Had.
  assert (forall b, balance v1 b = if decide (b = from) then balance v from - TRANSACTION_FEE else balance v b) as Hv1.
  { intros b. unfold v1. rewrite balance_upd. cbn [Account.m_address setBalance m_balance]. by rewrite Had. }
  assert (balances_ok v1) as Hb1.
  { intros b. pose proof (Hb b). pose proof (Hb from). unfold is_u64, TRANSACTION_FEE in *. rewrite Hv1. case_decide; lia. }
  assert (is_empty_account (v_acct v1 from) = false) as E1'.
  { unfold v1. rewrite upd_acct_lookup. cbn [Account.m_address setBalance]. rewrite Had, decide_True by done.
    pose proof (reps_good s v from Hr E1) as Hg. eapply good_not_empty, good_setBalance, Hg. }
  destruct (transfer_moved s1 v1 from to value Hr1 Hb1 Hv) as (s2 & H2). rewrite E1', !Hv1 in H2. cbn [orb] in H2.
  rewrite decide_True, decide_False in H2 by congruence. pose proof (Hb to) as Hbt. unfold is_u64 in Hbt.
  destruct (Z.leb_spec (value + TRANSACTION_FEE) (balance v from)); cbn [andb].
  - rewrite (proj2 (Z.ltb_ge _ _)) in H2 by lia. cbn [orb] in H2. destruct (Z.ltb_spec (balance v to + value) (2 ^ 64)).
    + rewrite (proj2 (Z.leb_gt _ _)) in H2 by lia. destruct H2 as [H2 Hr2]. exists s2, (moved from to value v1).
      split; [done|]. split; [done|]. intros b.
      rewrite (moved_balance s1) by (done || rewrite Hv1, decide_False by congruence; lia). rewrite Hv1.
      repeat case_decide; subst; congruence || lia.
    + rewrite (proj2 (Z.leb_le _ _)) in H2 by lia. exists s2. apply H2.
  - rewrite (proj2 (Z.ltb_lt _ _)) in H2 by lia. exists s2. apply H2.
Qed.
End Exact.
