(* ===== verification/Repository.v ===== *)
(** * The state of a block under execution: runtime/storage/Repository.{h,cpp}

    A repository caches accounts, producers and transactions over its parent
    repositories and the database. Reads go through the layers and are cached on
    the way back; writes stay in the top layer until [commit]. *)

From S2P Require Import Prelude CommonData RLP RLPFacts FixedHash SHA3 Codec.
From S2P Require Import Account Producer Transaction BlockHeader Block Database Ledger.
Import Spec.

(** One repository object, without its parent pointer. *)
Record Layer : Type := mkLayer {
  m_cacheAccount : gmap h160 Account;
  m_cacheProducer : gmap h160 Producer;
  m_cacheTransaction : gmap h256 Transaction;
  m_block : Block
}.

Definition new_layer (block : Block) : Layer := mkLayer ∅ ∅ ∅ block.

(** A repository and the repositories reached through [m_parent], nearest
    first. *)
Record Repository (DB : Type) : Type := mkRepo {
  m_dbc : @DatabaseController DB;
  top : Layer;
  parents : list Layer
}.
Arguments mkRepo {DB} _ _ _.
Arguments m_dbc {DB} _.
Arguments top {DB} _.
Arguments parents {DB} _.

(** ** Read-through caches *)

(** What the macros GET_FROM_CURRENT_RETURN, GET_FROM_PARENT_RETURN,
    GET_FROM_DBC_RETURN and [put] are instantiated with: a member
    [m_cache##name], the key and [operator=] of its objects, the test
    [== Empty##name], the local variable [ret] and the value returned when
    nothing was found. *)
Record Cache (K V : Type) `{Countable K} : Type := mkCache {
  c_get : Layer -> gmap K V;
  c_set : gmap K V -> Layer -> Layer;
  c_key : V -> result K;
  c_assign : V -> V -> V;
  c_empty : V -> result bool;
  c_local : V;
  c_none : V -> V
}.
Arguments c_get {K V _ _} _ _.
Arguments c_set {K V _ _} _ _ _.
Arguments c_key {K V _ _} _ _.
Arguments c_assign {K V _ _} _ _ _.
Arguments c_empty {K V _ _} _ _.
Arguments c_local {K V _ _} _.
Arguments c_none {K V _ _} _ _.

Section ReadThrough.
Context {K V : Type} `{Countable K} (C : Cache K V) (db : K -> result V).

(** [put(v)]: update with [operator=] or insert a copy. *)
Definition put_layer (v : V) (l : Layer) : result Layer :=
  k ← c_key C v;
  Ok (c_set C (<[k := match c_get C l !! k with Some old => c_assign C old v | None => v end]> (c_get C l)) l).

(** [ret = ...; if (ret == Empty) {} else { put(ret); return ret; }], with the
    code that follows as [next]. *)
Definition keep (v : V) (l : Layer) (ps : list Layer) (next : V -> result V * (Layer * list Layer))
    : result V * (Layer * list Layer) :=
  let ret := c_assign C (c_local C) v in
  match c_empty C ret with
  | Throw e => (Throw e, (l, ps))
  | Ok true => next ret
  | Ok false => match put_layer ret l with
                | Throw e => (Throw e, (l, ps))
                | Ok l' => (Ok ret, (l', ps))
                end
  end.

Definition from_dbc (k : K) (l : Layer) (ps : list Layer) : result V * (Layer * list Layer) :=
  match db k with
  | Throw e => (Throw e, (l, ps))
  | Ok v => keep v l ps (fun ret => (Ok (c_none C ret), (l, ps)))
  end.

Fixpoint get_through (k : K) (l : Layer) (ps : list Layer) {struct ps} : result V * (Layer * list Layer) :=
  match c_get C l !! k with
  | Some v => (Ok v, (l, ps))
  | None =>
      match ps with
      | [] => from_dbc k l []
      | p :: ps' =>
          match get_through k p ps' with
          | (Throw e, (p', ps'')) => (Throw e, (l, p' :: ps''))
          | (Ok v, (p', ps'')) => keep v l (p' :: ps'') (fun _ => from_dbc k l (p' :: ps''))
          end
      end
  end.
End ReadThrough.

Section Access.
Context {DB K V : Type} `{KVStore DB} `{Countable K} (C : Cache K V) (db : K -> @DatabaseController DB -> result V).

(** [get##name(k)] and [put(v)] of a repository. *)
Definition read (k : K) : ST (Repository DB) V := fun r =>
  let '(x, (l, ps)) := get_through C (fun k => db k (m_dbc r)) k (top r) (parents r) in (x, mkRepo (m_dbc r) l ps).

Definition write (v : V) : ST (Repository DB) unit := fun r =>
  match put_layer C v (top r) with
  | Ok l => (Ok tt, mkRepo (m_dbc r) l (parents r))
  | Throw e => (Throw e, r)
  end.
End Access.

Definition accounts : Cache h160 Account :=
  mkCache _ _ _ _ m_cacheAccount
    (fun m l => mkLayer m (m_cacheProducer l) (m_cacheTransaction l) (m_block l))
    (fun a => Ok (Account.m_address a)) Account.assign (fun a => Ok (account_eqb a EmptyAccount)) EmptyAccount (fun ret => ret).

Definition producers : Cache h160 Producer :=
  mkCache _ _ _ _ m_cacheProducer
    (fun m l => mkLayer (m_cacheAccount l) m (m_cacheTransaction l) (m_block l))
    (fun p => Ok (Producer.m_address p)) (fun _ p => p) (fun p => Ok (producer_eqb p EmptyProducer)) EmptyProducer
    (fun _ => EmptyProducer).

Definition transactions : Cache h256 Transaction :=
  mkCache _ _ _ _ m_cacheTransaction
    (fun m l => mkLayer (m_cacheAccount l) (m_cacheProducer l) m (m_block l))
    Transaction.getHash (fun _ tx => tx) (fun tx => tx_eqb tx EmptyTransaction) EmptyTransaction
    (fun _ => EmptyTransaction).

(** ** The repository *)

Section Repository.
Context {DB : Type} `{KVStore DB}.

Definition repo_getAccount (address : h160) : ST (Repository DB) Account := read accounts Database.getAccount address.
Definition repo_put_account (account : Account) : ST (Repository DB) unit := write accounts account.
Definition repo_getProducer (address : h160) : ST (Repository DB) Producer := read producers Database.getProducer address.
Definition repo_put_producer (producer : Producer) : ST (Repository DB) unit := write producers producer.
Definition repo_getTransaction (id : h256) : ST (Repository DB) Transaction := read transactions Database.getTransaction id.
Definition repo_put_transaction (tx : Transaction) : ST (Repository DB) unit := write transactions tx.

#[export] Instance repository_ledger : Ledger (Repository DB) := {
  getAccount := repo_getAccount;
  put_account := repo_put_account;
  getProducer := repo_getProducer;
  put_producer := repo_put_producer;
  getTransaction := repo_getTransaction;
  put_transaction := repo_put_transaction;
  block_timestamp := fun r => (Ok (BlockHeader.m_timestamp (m_blockHeader (m_block (top r)))), r)
}.

Variable h0 : BlockHeader.

(** [getProducerList()]: the parent's list (or the database's), overlaid with
    this cache. *)
Fixpoint producer_list (dbc : @DatabaseController DB) (l : Layer) (ps : list Layer) : result (gmap h160 Producer) :=
  ret ← match ps with
        | [] => Database.getProducerList dbc
        | p :: ps' => producer_list dbc p ps'
        end;
  Ok (m_cacheProducer l ∪ ret).
Definition getProducerList (r : Repository DB) : result (gmap h160 Producer) :=
  producer_list (m_dbc r) (top r) (parents r).

(** [getBlock(blockID)]. *)
Fixpoint find_block (dbc : @DatabaseController DB) (blockID : h256) (l : Layer) (ps : list Layer) : result Block :=
  h ← Block.getHash (m_block l);
  if hash_eqb h blockID then Ok (m_block l)
  else match ps with
       | [] => Database.getBlock h0 blockID dbc
       | p :: ps' =>
           ret ← find_block dbc blockID p ps';
           e ← Block.block_eqb ret EmptyBlock;
           if (e : bool) then Database.getBlock h0 blockID dbc else Ok ret
       end.
Definition getBlock (blockID : h256) (r : Repository DB) : result Block :=
  find_block (m_dbc r) blockID (top r) (parents r).

(** ** Commit *)

Fixpoint put_values {K V} `{Countable K} (C : Cache K V) (vs : list V) (l : Layer) : result Layer :=
  match vs with
  | [] => Ok l
  | v :: vs' => l' ← put_layer C v l; put_values C vs' l'
  end.

Definition cached_values {A} {N} (m : gmap (vec byte N) A) : list A := map snd (map_entries m).

(** [commit()] into the parent, or into the database when there is none. *)
Definition commit (r : Repository DB) : result (Repository DB) :=
  let accs := cached_values (m_cacheAccount (top r)) in
  let prods := cached_values (m_cacheProducer (top r)) in
  let txs := cached_values (m_cacheTransaction (top r)) in
  match parents r with
  | p :: ps =>
      p ← put_values accounts accs p;
      p ← put_values producers prods p;
      p ← put_values transactions txs p;
      Ok (mkRepo (m_dbc r) (top r) (p :: ps))
  | [] =>
      c ← put_all Database.put_account accs (m_dbc r);
      c ← put_all Database.put_producer prods c;
      c ← put_all Database.put_transaction txs c;
      c ← put_block (m_block (top r)) c;
      Ok (mkRepo c (top r) [])
  end.
End Repository.
