(* ===== verification/RepositoryFacts.v ===== *)
(** * What the repository promises

    Reading is transparent: a lookup returns what the layers and the database
    hold, and caching it changes no later lookup. The balance and vote
    operations are stated against that view. *)

From S2P Require Import Prelude CommonData RLP RLPFacts FixedHash SHA3 Codec.
From S2P Require Import Account Producer Transaction BlockHeader Block Database Ledger Repository.
Import Spec.

(** ** Read-through caches *)

Section ReadThrough.
Context {K V : Type} `{Countable K} (C : Cache K V) (db : K -> result V) (good : K -> V -> Prop).

(** The laws a cache satisfies on good values, and what it needs of the
    database. *)
Class CacheLaws : Prop := {
  cl_get_set m l : c_get C (c_set C m l) = m;
  cl_set_get l : c_set C (c_get C l) l = l;
  cl_set_set m m' l : c_set C m (c_set C m' l) = c_set C m l;
  cl_key k v : good k v -> c_key C v = Ok k;
  cl_empty k v : good k v -> c_empty C v = Ok false;
  cl_assign k old v : good k old -> good k v -> c_assign C old v = v;
  cl_local k v : good k v -> c_assign C (c_local C) v = v;
  cl_none v : c_empty C v = Ok true -> c_empty C (c_assign C (c_local C) (c_none C v)) = Ok true
}.

Definition db_good : Prop :=
  forall k, exists v, db k = Ok v /\
    (c_empty C (c_assign C (c_local C) v) = Ok true \/ good k (c_assign C (c_local C) v)).

Definition layer_good (l : Layer) : Prop := map_Forall good (c_get C l).

(** What the database answers, and what the layers over it answer. *)
Definition db_view (k : K) : V :=
  match db k with
  | Throw _ => c_none C (c_local C)
  | Ok v => let ret := c_assign C (c_local C) v in
            match c_empty C ret with Ok false => ret | _ => c_none C ret end
  end.

Fixpoint view (ls : list Layer) (k : K) : V :=
  match ls with
  | [] => db_view k
  | l :: ls' => default (view ls' k) (c_get C l !! k)
  end.

(** The layers after a read: only this cache may have changed. *)
Definition recached (l l' : Layer) : Prop := exists m, l' = c_set C m l.

Context {HL : CacheLaws} (Hdb : db_good).

Lemma recached_refl l : recached l l.
Proof. exists (c_get C l). by rewrite cl_set_get. Qed.

Lemma recached_refls ls : Forall2 recached ls ls.
Proof. induction ls; constructor; auto using recached_refl. Qed.

Lemma recached_trans xs ys zs : Forall2 recached xs ys -> Forall2 recached ys zs -> Forall2 recached xs zs.
Proof.
  intros Hxy. revert zs. induction Hxy as [|x y xs ys [m1 ->] Hxy IH]; intros zs Hyz; [by inversion Hyz|].
  apply Forall2_cons_inv_l in Hyz as (z & zs' & [m2 ->] & Hyz & ->). constructor; [exists m2; by rewrite cl_set_set|by apply IH].
Qed.

Lemma db_view_cases k :
  (good k (db_view k) /\ exists v, db k = Ok v /\ c_assign C (c_local C) v = db_view k) \/
  (exists v ret, db k = Ok v /\ ret = c_assign C (c_local C) v /\ c_empty C ret = Ok true /\ db_view k = c_none C ret).
Proof.
  destruct (Hdb k) as (v & Hv & [He|Hg]); unfold db_view; rewrite Hv.
  - right. eexists v, _. split; [done|]. split; [done|]. by rewrite He.
  - left. cbv zeta. rewrite (cl_empty _ _ Hg). split; [done|]. by exists v.
Qed.

Lemma view_cases ls k :
  Forall layer_good ls -> good k (view ls k) \/ view ls k = db_view k.
Proof.
  induction 1 as [|l ls Hl Hls IH]; [by right|]. cbn. destruct (c_get C l !! k) as [v|] eqn:E; cbn; [|done].
  left. by apply Hl.
Qed.

Lemma put_layer_good k v l :
  good k v -> layer_good l ->
  put_layer C v l = Ok (c_set C (<[k := v]> (c_get C l)) l) /\ layer_good (c_set C (<[k := v]> (c_get C l)) l).
Proof.
  intros Hv Hl. unfold put_layer. rewrite (cl_key _ _ Hv). cbn [mbind result_bind]. split.
  - destruct (c_get C l !! k) as [old|] eqn:E; [|done]. by rewrite (cl_assign k) by (done || by apply Hl).
  - unfold layer_good. rewrite cl_get_set. by apply map_Forall_insert_2.
Qed.

(** Caching the value in view changes no view. *)
Lemma put_view l ls k :
  c_get C l !! k = None -> forall k', view (c_set C (<[k := view ls k]> (c_get C l)) l :: ls) k' = view (l :: ls) k'.
Proof.
  intros Hn k'. cbn. rewrite cl_get_set. destruct (decide (k = k')) as [->|Hne].
  - by rewrite lookup_insert_eq, Hn.
  - by rewrite lookup_insert_ne.
Qed.

Lemma view_cong l l' ls ls' :
  c_get C l = c_get C l' -> (forall k, view ls k = view ls' k) -> forall k, view (l :: ls) k = view (l' :: ls') k.
Proof. intros Hl Hls k. cbn. by rewrite Hl, Hls. Qed.

Lemma keep_good k v l ps next :
  good k v -> layer_good l -> keep C v l ps next = (Ok v, (c_set C (<[k := v]> (c_get C l)) l, ps)).
Proof.
  intros Hv Hl. unfold keep. rewrite (cl_local _ _ Hv), (cl_empty _ _ Hv), (proj1 (put_layer_good _ _ _ Hv Hl)). done.
Qed.

Lemma keep_missing v l ps next :
  c_empty C (c_assign C (c_local C) v) = Ok true -> keep C v l ps next = next (c_assign C (c_local C) v).
Proof. intros He. unfold keep. by rewrite He. Qed.

(** A read that ended with the value in view, recorded in the top layer. *)
Definition read_to (k : K) (l : Layer) (ps : list Layer) (out : result V * (Layer * list Layer)) : Prop :=
  exists l' ps', out = (Ok (view (l :: ps) k), (l', ps')) /\ Forall layer_good (l' :: ps') /\
    Forall2 recached (l :: ps) (l' :: ps') /\ forall k', view (l' :: ps') k' = view (l :: ps) k'.

Lemma read_to_kept k l ps :
  good k (view ps k) -> Forall layer_good (l :: ps) -> c_get C l !! k = None ->
  read_to k l ps (Ok (view ps k), (c_set C (<[k := view ps k]> (c_get C l)) l, ps)).
Proof.
  intros Hg [Hl Hps]%Forall_cons Hn. eexists _, ps. split; [cbn; by rewrite Hn|]. split; [|split].
  - constructor; [|done]. by apply put_layer_good.
  - constructor; [by eexists|apply recached_refls].
  - by apply put_view.
Qed.

Lemma read_to_same k l ps : Forall layer_good (l :: ps) -> c_get C l !! k = None -> read_to k l ps (Ok (view ps k), (l, ps)).
Proof.
  intros Hg Hn. exists l, ps. split; [cbn; by rewrite Hn|]. split; [done|]. split; [apply recached_refls|done].
Qed.

Lemma from_dbc_read k l ps :
  Forall layer_good (l :: ps) -> c_get C l !! k = None -> view ps k = db_view k -> read_to k l ps (from_dbc C db k l ps).
Proof.
  intros Hg Hn Hv. unfold from_dbc. destruct (db_view_cases k) as [(Hd & v & -> & Ha)|(v & ret & -> & -> & He & Hd)].
  - unfold keep. rewrite Ha, (cl_empty _ _ Hd). apply Forall_cons in Hg as Hg'.
    rewrite (proj1 (put_layer_good _ _ _ Hd (proj1 Hg'))), <- Hv. apply read_to_kept; [by rewrite Hv|done|done].
  - rewrite keep_missing by done. rewrite <- Hd, <- Hv. by apply read_to_same.
Qed.

Lemma get_through_read k l ps : Forall layer_good (l :: ps) -> read_to k l ps (get_through C db k l ps).
Proof.
  revert l. induction ps as [|p ps IH]; intros l Hg.
  all: cbn [get_through]; destruct (c_get C l !! k) as [v|] eqn:En.
  1,3: eexists l, _; split; [cbn; by rewrite En|]; split; [done|]; split; [apply recached_refls|done].
  - by apply from_dbc_read.
  - apply Forall_cons in Hg as [Hl Hps]. destruct (IH p Hps) as (p' & ps' & -> & Hg' & Hr & Hv).
    assert (forall out, read_to k l (p' :: ps') out -> read_to k l (p :: ps) out) as Hlift.
    { intros out (l'' & ps'' & -> & H1 & H2 & H3).
      assert (forall k', view (l :: p' :: ps') k' = view (l :: p :: ps) k') as Hv' by by apply view_cong.
      exists l'', ps''. rewrite Hv'. split; [done|]. split; [done|]. split; [|intros k'; by rewrite H3].
      apply Forall2_cons_1 in H2 as [H2a H2b]. constructor; [done|]. by eapply recached_trans. }
    apply Hlift. rewrite <- (Hv k). destruct (view_cases (p' :: ps') k Hg') as [Hgood|Hdbv].
    + rewrite (keep_good k) by done. by apply read_to_kept; [|constructor|].
    + destruct (db_view_cases k) as [(Hd & _)|(v & ret & Hdbk & -> & He & Hd)].
      * rewrite Hdbv. rewrite (keep_good k) by done. rewrite <- Hdbv. apply read_to_kept; [by rewrite Hdbv|by constructor|done].
      * rewrite keep_missing; [|rewrite Hdbv, Hd; by apply cl_none]. apply from_dbc_read; [by constructor|done|done].
Qed.
End ReadThrough.

(** ** The three caches *)

#[export] Instance accounts_laws : CacheLaws accounts good_account.
Proof.
  split; try done.
  - by intros [].
  - by intros k v (<- & _).
  - intros k v Hg. cbn. f_equal. by eapply good_not_empty.
  - intros k old v (_ & _ & Ho) (_ & _ & Hv). destruct v. cbn in *. unfold assign. cbn. by rewrite Ho, Hv.
  - intros k v (_ & _ & Hv). destruct v. cbn in *. by subst.
Qed.

#[export] Instance producers_laws : CacheLaws producers good_producer.
Proof.
  split; try done.
  - by intros [].
  - by intros k v (<- & _).
  - intros k v [_ Hg]. cbn. by f_equal.
Qed.

Lemma empty_tx_eqb : tx_eqb EmptyTransaction EmptyTransaction = Ok true.
Proof. vm_compute. reflexivity. Qed.

#[export] Instance transactions_laws : CacheLaws transactions good_transaction.
Proof.
  split; [done|by intros []|done|by intros k v (Hk & _)|by intros k v [_ Hg]|done|done|].
  intros v _. exact empty_tx_eqb.
Qed.

(** What the repository needs of the database: every lookup returns the empty
    object or an object filed under its own key. *)
Record db_ok {DB} `{KVStore DB} (c : @DatabaseController DB) : Prop := {
  do_accounts a : exists x, Database.getAccount a c = Ok x /\
                            (x = EmptyAccount \/ Account.m_address x = a /\ m_alive x = true);
  do_producers a : exists x, Database.getProducer a c = Ok x /\ (x = EmptyProducer \/ good_producer a x);
  do_transactions h : exists x, Database.getTransaction h c = Ok x /\ (x = EmptyTransaction \/ good_transaction h x)
}.

Section Repository.
Context {DB : Type} `{KVStore DB}.

Definition layers (r : Repository DB) : list Layer := top r :: parents r.

Record layers_ok (ls : list Layer) : Prop := {
  lo_accounts : Forall (layer_good accounts good_account) ls;
  lo_producers : Forall (layer_good producers good_producer) ls;
  lo_transactions : Forall (layer_good transactions good_transaction) ls
}.

Definition account_view (r : Repository DB) : h160 -> Account :=
  view accounts (fun k => Database.getAccount k (m_dbc r)) (layers r).
Definition producer_view (r : Repository DB) : h160 -> Producer :=
  view producers (fun k => Database.getProducer k (m_dbc r)) (layers r).
Definition transaction_view (r : Repository DB) : h256 -> Transaction :=
  view transactions (fun k => Database.getTransaction k (m_dbc r)) (layers r).

(** The repository [r] holds the view [v]. *)
Record holds (r : Repository DB) (v : View) : Prop := {
  h_db : db_ok (m_dbc r);
  h_layers : layers_ok (layers r);
  h_acct a : account_view r a = v_acct v a;
  h_prod a : producer_view r a = v_prod v a;
  h_txn h : transaction_view r h = v_txn v h;
  h_now : BlockHeader.m_timestamp (m_blockHeader (m_block (top r))) = v_now v
}.

Lemma db_ok_accounts c : db_ok c -> db_good accounts (fun k => Database.getAccount k c) good_account.
Proof.
  intros Hd k. destruct (do_accounts c Hd k) as (x & Hx & Hc). exists x. split; [done|].
  destruct Hc as [->|[Ha Hl]]; [by left|right]. by split.
Qed.
Lemma db_ok_producers c : db_ok c -> db_good producers (fun k => Database.getProducer k c) good_producer.
Proof.
  intros Hd k. destruct (do_producers c Hd k) as (x & Hx & Hc). exists x. split; [done|].
  destruct Hc as [->|Hg]; [by left|by right].
Qed.
Lemma db_ok_transactions c : db_ok c -> db_good transactions (fun k => Database.getTransaction k c) good_transaction.
Proof.
  intros Hd k. destruct (do_transactions c Hd k) as (x & Hx & Hc). exists x. split; [done|].
  destruct Hc as [->|Hg]; [left; exact empty_tx_eqb|by right].
Qed.

(** Layers that differ in one cache have the same view of the others. *)
Lemma view_frame {K V K' V'} `{Countable K} `{Countable K'} (C : Cache K V) (D : Cache K' V') db ls ls' :
  (forall m l, c_get D (c_set C m l) = c_get D l) -> Forall2 (recached C) ls ls' ->
  forall k, view D db ls' k = view D db ls k.
Proof. intros Hf Hr k. induction Hr as [|l l' ls ls' [m ->] Hr IH]; [done|]. cbn. by rewrite Hf, IH. Qed.

Lemma good_frame {K V K' V'} `{Countable K} `{Countable K'} (C : Cache K V) (D : Cache K' V') g ls ls' :
  (forall m l, c_get D (c_set C m l) = c_get D l) -> Forall2 (recached C) ls ls' ->
  Forall (layer_good D g) ls -> Forall (layer_good D g) ls'.
Proof.
  intros Hf Hr. induction Hr as [|l l' ls ls' [m ->] Hr IH]; intros Hg; [done|]. apply Forall_cons in Hg as [Hl Hls].
  constructor; [|by apply IH]. unfold layer_good in *. by rewrite Hf.
Qed.

Section Generic.
Context {K V : Type} `{Countable K} (C : Cache K V) (db : K -> @DatabaseController DB -> result V) (g : K -> V -> Prop).
Context {HL : CacheLaws C g}.

Definition cview (r : Repository DB) : K -> V := view C (fun k => db k (m_dbc r)) (layers r).

(** What a read and a write of this cache do to the whole repository. *)
Lemma read_repo r k :
  db_good C (fun k => db k (m_dbc r)) g -> Forall (layer_good C g) (layers r) ->
  exists r', read C db k r = (Ok (cview r k), r') /\ m_dbc r' = m_dbc r /\ Forall (layer_good C g) (layers r') /\
    Forall2 (recached C) (layers r) (layers r') /\ forall k', cview r' k' = cview r k'.
Proof.
  intros Hdb Hg. unfold read. destruct (get_through_read C _ g Hdb k (top r) (parents r) Hg) as (l & ps & -> & H1 & H2 & H3).
  by exists (mkRepo (m_dbc r) l ps).
Qed.

Lemma write_repo r k x :
  g k x -> Forall (layer_good C g) (layers r) ->
  exists r', write C x r = (Ok tt, r') /\ m_dbc r' = m_dbc r /\ Forall (layer_good C g) (layers r') /\
    Forall2 (recached C) (layers r) (layers r') /\ forall k', cview r' k' = if decide (k' = k) then x else cview r k'.
Proof.
  intros Hx Hg. unfold write. apply Forall_cons in Hg as [Hl Hls].
  destruct (put_layer_good C g k x (top r) Hx Hl) as [-> Hl']. eexists. split; [done|]. split; [done|]. split; [|split].
  - by constructor.
  - constructor; [by eexists|apply (recached_refls C g)].
  - intros k'. cbn. rewrite (cl_get_set C g). destruct (decide (k' = k)) as [->|Hne].
    + by rewrite lookup_insert_eq.
    + by rewrite lookup_insert_ne.
Qed.
End Generic.

Lemma recached_block {K V} `{Countable K} (C : Cache K V) r r' :
  (forall m l, m_block (c_set C m l) = m_block l) -> Forall2 (recached C) (layers r) (layers r') ->
  m_block (top r') = m_block (top r).
Proof. intros Hf [[m Hm] _]%Forall2_cons_1. by rewrite Hm, Hf. Qed.

(** The rest of the repository across an access to one cache. *)
Lemma holds_accounts r r' v f :
  holds r v -> m_dbc r' = m_dbc r -> Forall (layer_good accounts good_account) (layers r') ->
  Forall2 (recached accounts) (layers r) (layers r') -> (forall a, account_view r' a = f a) ->
  holds r' (mkView f (v_prod v) (v_txn v) (v_now v)).
Proof.
  intros [Hd [_ Hlp Hlt] _ Hp Ht Hn] Hdb Hg Hr Hf. split; [by rewrite Hdb| |done|..].
  - split; [done|by eapply (good_frame accounts)|by eapply (good_frame accounts)].
  - intros a. unfold producer_view. rewrite Hdb, (view_frame accounts producers _ _ _ (fun _ _ => eq_refl) Hr). apply Hp.
  - intros h. unfold transaction_view. rewrite Hdb, (view_frame accounts transactions _ _ _ (fun _ _ => eq_refl) Hr). apply Ht.
  - by rewrite (recached_block accounts _ _ (fun _ _ => eq_refl) Hr).
Qed.

Lemma holds_producers r r' v f :
  holds r v -> m_dbc r' = m_dbc r -> Forall (layer_good producers good_producer) (layers r') ->
  Forall2 (recached producers) (layers r) (layers r') -> (forall a, producer_view r' a = f a) ->
  holds r' (mkView (v_acct v) f (v_txn v) (v_now v)).
Proof.
  intros [Hd [Hla _ Hlt] Ha _ Ht Hn] Hdb Hg Hr Hf. split; [by rewrite Hdb| | |done|..].
  - split; [by eapply (good_frame producers)|done|by eapply (good_frame producers)].
  - intros a. unfold account_view. rewrite Hdb, (view_frame producers accounts _ _ _ (fun _ _ => eq_refl) Hr). apply Ha.
  - intros h. unfold transaction_view. rewrite Hdb, (view_frame producers transactions _ _ _ (fun _ _ => eq_refl) Hr). apply Ht.
  - by rewrite (recached_block producers _ _ (fun _ _ => eq_refl) Hr).
Qed.

Lemma holds_transactions r r' v f :
  holds r v -> m_dbc r' = m_dbc r -> Forall (layer_good transactions good_transaction) (layers r') ->
  Forall2 (recached transactions) (layers r) (layers r') -> (forall h, transaction_view r' h = f h) ->
  holds r' (mkView (v_acct v) (v_prod v) f (v_now v)).
Proof.
  intros [Hd [Hla Hlp _] Ha Hp _ Hn] Hdb Hg Hr Hf. split; [by rewrite Hdb| | | |done|].
  - split; [by eapply (good_frame transactions)|by eapply (good_frame transactions)|done].
  - intros a. unfold account_view. rewrite Hdb, (view_frame transactions accounts _ _ _ (fun _ _ => eq_refl) Hr). apply Ha.
  - intros a. unfold producer_view. rewrite Hdb, (view_frame transactions producers _ _ _ (fun _ _ => eq_refl) Hr). apply Hp.
  - by rewrite (recached_block transactions _ _ (fun _ _ => eq_refl) Hr).
Qed.

Lemma db_view_account r v a : holds r v -> good_account a (v_acct v a) \/ v_acct v a = EmptyAccount.
Proof.
  intros [Hd Hl Ha _ _ _]. rewrite <- Ha. unfold account_view.
  destruct (view_cases accounts (fun k => Database.getAccount k (m_dbc r)) good_account (layers r) a (lo_accounts _ Hl)) as [Hg| ->];
    [by left|]. unfold db_view. destruct (do_accounts _ Hd a) as (x & -> & [->|[Hx1 Hx2]]); [by right|left].
  cbv zeta. rewrite (cl_empty accounts good_account a); by split.
Qed.

Lemma db_view_producer r v a : holds r v -> good_producer a (v_prod v a) \/ v_prod v a = EmptyProducer.
Proof.
  intros [Hd Hl _ Hp _ _]. rewrite <- Hp. unfold producer_view.
  destruct (view_cases producers (fun k => Database.getProducer k (m_dbc r)) good_producer (layers r) a (lo_producers _ Hl)) as [Hg| ->];
    [by left|]. unfold db_view. destruct (do_producers _ Hd a) as (x & -> & [->|Hg]); [by right|left].
  cbv zeta. rewrite (cl_empty producers good_producer a); [done|exact Hg].
Qed.

Lemma eta_view v : mkView (v_acct v) (v_prod v) (v_txn v) (v_now v) = v.
Proof. by destruct v. Qed.

Lemma repo_getAccount_holds r v a : holds r v -> exists r', repo_getAccount a r = (Ok (v_acct v a), r') /\ holds r' v.
Proof.
  intros Hh. pose proof Hh as [Hd Hl Ha _ _ _].
  destruct (read_repo accounts Database.getAccount good_account r a (db_ok_accounts _ Hd) (lo_accounts _ Hl))
    as (r' & H1 & Hdb & Hg & Hr & Hv).
  exists r'. split; [by rewrite <- Ha|]. rewrite <- (eta_view v). eapply holds_accounts; [done..|].
  intros b. rewrite <- Ha. apply Hv.
Qed.

Lemma repo_put_account_holds r v x :
  holds r v -> good_account (Account.m_address x) x -> exists r', repo_put_account x r = (Ok tt, r') /\ holds r' (upd_acct x v).
Proof.
  intros Hh Hx. pose proof Hh as [Hd Hl Ha _ _ _].
  destruct (write_repo accounts Database.getAccount good_account r _ x Hx (lo_accounts _ Hl)) as (r' & H1 & Hdb & Hg & Hr & Hv).
  exists r'. split; [done|]. eapply holds_accounts; [done..|]. intros b. unfold upd. rewrite <- Ha. apply Hv.
Qed.

Lemma repo_getProducer_holds r v a : holds r v -> exists r', repo_getProducer a r = (Ok (v_prod v a), r') /\ holds r' v.
Proof.
  intros Hh. pose proof Hh as [Hd Hl _ Hp _ _].
  destruct (read_repo producers Database.getProducer good_producer r a (db_ok_producers _ Hd) (lo_producers _ Hl))
    as (r' & H1 & Hdb & Hg & Hr & Hv).
  exists r'. split; [by rewrite <- Hp|]. rewrite <- (eta_view v). eapply holds_producers; [done..|].
  intros b. rewrite <- Hp. apply Hv.
Qed.

Lemma repo_put_producer_holds r v x :
  holds r v -> good_producer (Producer.m_address x) x -> exists r', repo_put_producer x r = (Ok tt, r') /\ holds r' (upd_prod x v).
Proof.
  intros Hh Hx. pose proof Hh as [Hd Hl _ Hp _ _].
  destruct (write_repo producers Database.getProducer good_producer r _ x Hx (lo_producers _ Hl)) as (r' & H1 & Hdb & Hg & Hr & Hv).
  exists r'. split; [done|]. eapply holds_producers; [done..|]. intros b. unfold upd. rewrite <- Hp. apply Hv.
Qed.

Lemma repo_getTransaction_holds r v h : holds r v -> exists r', repo_getTransaction h r = (Ok (v_txn v h), r') /\ holds r' v.
Proof.
  intros Hh. pose proof Hh as [Hd Hl _ _ Ht _].
  destruct (read_repo transactions Database.getTransaction good_transaction r h (db_ok_transactions _ Hd) (lo_transactions _ Hl))
    as (r' & H1 & Hdb & Hg & Hr & Hv).
  exists r'. split; [by rewrite <- Ht|]. rewrite <- (eta_view v). eapply holds_transactions; [done..|].
  intros b. rewrite <- Ht. apply Hv.
Qed.

Lemma repo_put_transaction_holds r v h x :
  holds r v -> good_transaction h x -> exists r', repo_put_transaction x r = (Ok tt, r') /\ holds r' (upd_txn h x v).
Proof.
  intros Hh Hx. pose proof Hh as [Hd Hl _ _ Ht _].
  destruct (write_repo transactions Database.getTransaction good_transaction r h x Hx (lo_transactions _ Hl))
    as (r' & H1 & Hdb & Hg & Hr & Hv).
  exists r'. split; [done|]. eapply holds_transactions; [done..|]. intros b. unfold upd. rewrite <- Ht. apply Hv.
Qed.

(** The repository keeps the promises of a ledger. *)
#[export] Instance repository_laws : LedgerLaws (Repository DB) := {
  reps := holds;
  reps_acct := db_view_account;
  reps_prod := db_view_producer;
  getAccount_spec := repo_getAccount_holds;
  put_account_spec := repo_put_account_holds;
  getProducer_spec := repo_getProducer_holds;
  put_producer_spec := repo_put_producer_holds;
  getTransaction_spec := repo_getTransaction_holds;
  put_transaction_spec := repo_put_transaction_holds;
  block_timestamp_spec := fun r v Hh => f_equal (fun t => (Ok t, r)) (h_now r v Hh)
}.

(** C4. The repository is transparent: over any stack of parent layers and
    the database, a lookup of an account, a producer or a transaction returns
    what the nearest layer holds (else the database, else the empty object) and
    copying it into the layers it went through changes no lookup; a [put]
    changes the lookup of its own key and no other. *)
Theorem repository_transparent (r : Repository DB) (v : View) (Hr : holds r v) :
  (forall a, exists r', repo_getAccount a r = (Ok (v_acct v a), r') /\ holds r' v) /\
  (forall a, exists r', repo_getProducer a r = (Ok (v_prod v a), r') /\ holds r' v) /\
  (forall h, exists r', repo_getTransaction h r = (Ok (v_txn v h), r') /\ holds r' v) /\
  (forall x, good_account (Account.m_address x) x -> exists r', repo_put_account x r = (Ok tt, r') /\ holds r' (upd_acct x v)) /\
  (forall x, good_producer (Producer.m_address x) x -> exists r', repo_put_producer x r = (Ok tt, r') /\ holds r' (upd_prod x v)) /\
  (forall h x, good_transaction h x -> exists r', repo_put_transaction x r = (Ok tt, r') /\ holds r' (upd_txn h x v)).
Proof.
  split; [intros; by apply repo_getAccount_holds|]. split; [intros; by apply repo_getProducer_holds|].
  split; [intros; by apply repo_getTransaction_holds|]. split; [intros; by apply repo_put_account_holds|].
  split; [intros; by apply repo_put_producer_holds|intros; by apply repo_put_transaction_holds].
Qed.
End Repository.
