(* ===== verification/FrameFacts.v ===== *)
(** * Frames: what an execution leaves alone

    The repository of a block sits on the repositories of the blocks before it.
    Executing a block writes to its own layer only; the layers below may cache
    what is read through them, but answer every lookup as before. The frame is
    a second instance of the ledger laws, so every theorem on ledgers also says
    that the frame is kept. *)

From S2P Require Import Prelude CommonData RLP RLPFacts FixedHash SHA3 Codec.
From S2P Require Import Account Producer Transaction BlockHeader Block Database Ledger Repository RepositoryFacts.

Section Frame.
Context {DB : Type} `{KVStore DB}.

(** A stack of layers over a database answers as the view [v]. *)
Record stack_holds (c : @DatabaseController DB) (ls : list Layer) (v : View) : Prop := {
  sh_db : db_ok c;
  sh_layers : layers_ok ls;
  sh_acct a : view accounts (fun k => Database.getAccount k c) ls a = v_acct v a;
  sh_prod a : view producers (fun k => Database.getProducer k c) ls a = v_prod v a;
  sh_txn h : view transactions (fun k => Database.getTransaction k c) ls h = v_txn v h
}.

(** The view [v] at time [t]. *)
Definition at_time (t : Z) (v : View) : View := mkView (v_acct v) (v_prod v) (v_txn v) t.

Lemma holds_stack r v : holds r v -> stack_holds (m_dbc r) (layers r) v.
Proof. intros [Hd Hl Ha Hp Ht _]. by split. Qed.

Lemma stack_holds_repo c l ls v :
  stack_holds c (l :: ls) v -> holds (mkRepo c l ls) (at_time (BlockHeader.m_timestamp (m_blockHeader (m_block l))) v).
Proof. intros [Hd Hl Ha Hp Ht]. by split. Qed.

(** A new repository starts with the view of the stack it is put on. *)
Lemma stack_new_layer c b ls v : stack_holds c ls v -> stack_holds c (new_layer b :: ls) v.
Proof.
  intros [Hd [H1 H2 H3] Ha Hp Ht]. split; [done| |intros k; cbn; rewrite lookup_empty; apply Ha|
    intros k; cbn; rewrite lookup_empty; apply Hp|intros k; cbn; rewrite lookup_empty; apply Ht].
  split; (apply Forall_cons; split; [apply map_Forall_empty|done]).
Qed.

Lemma stack_drop_new c b ls v : stack_holds c (new_layer b :: ls) v -> stack_holds c ls v.
Proof.
  intros [Hd [H1 H2 H3] Ha Hp Ht]. split; [done|split; by eapply Forall_inv_tail|intros k; rewrite <- Ha|intros k; rewrite <- Hp|
    intros k; rewrite <- Ht]; cbn; by rewrite lookup_empty.
Qed.

(** Read-through caching in the layers of one cache. *)
Section Generic.
Context {K V : Type} `{Countable K} (C : Cache K V) (db : K -> @DatabaseController DB -> result V) (g : K -> V -> Prop).
Context {HL : CacheLaws C g}.

Lemma keep_parents v l ps next : (next (c_assign C (c_local C) v)).2.2 = ps -> (keep C v l ps next).2.2 = ps.
Proof. intros Hn. unfold keep. destruct (c_empty C _) as [[]|]; [done| |done]. by destruct (put_layer C _ l). Qed.

Lemma from_dbc_parents f k l ps : (from_dbc C f k l ps).2.2 = ps.
Proof. unfold from_dbc. destruct (f k); [|done]. by apply keep_parents. Qed.

Lemma read_parents (r : Repository DB) k :
  db_good C (fun k => db k (m_dbc r)) g -> Forall (layer_good C g) (layers r) ->
  let r' := (read C db k r).2 in
  m_dbc r' = m_dbc r /\ Forall2 (recached C) (parents r) (parents r') /\ Forall (layer_good C g) (parents r') /\
  forall k', view C (fun k => db k (m_dbc r)) (parents r') k' = view C (fun k => db k (m_dbc r)) (parents r) k'.
Proof.
  intros Hdb Hg. cbv zeta. unfold read. apply Forall_cons in Hg as [Hl Hps]. destruct r as [c l ps]. cbn [m_dbc top parents] in *.
  destruct (get_through C (fun k => db k c) k l ps) as [x [l' ps']] eqn:E. cbn [snd m_dbc parents]. split; [done|].
  assert (forall qs, qs = ps -> Forall2 (recached C) ps qs /\ Forall (layer_good C g) qs /\
            forall k', view C (fun k => db k c) qs k' = view C (fun k => db k c) ps k') as Hsame.
  { intros qs ->. split; [apply (recached_refls C g)|done]. }
  destruct ps as [|p ps]; cbn [get_through] in E.
  - destruct (c_get C l !! k); [apply Hsame; by simplify_eq|]. apply Hsame.
    pose proof (from_dbc_parents (fun k => db k c) k l []) as Hp. rewrite E in Hp. exact Hp.
  - destruct (c_get C l !! k); [apply Hsame; by simplify_eq|].
    destruct (get_through_read C _ g Hdb k p ps Hps) as (p' & qs & Hr & Hg' & Hrc & Hv). rewrite Hr in E.
    assert (ps' = p' :: qs) as ->; [|done].
    match type of E with ?t = _ => assert (t.2.2 = p' :: qs) as Ht by (apply keep_parents, from_dbc_parents) end.
    rewrite E in Ht. exact Ht.
Qed.

Lemma write_parents x (r : Repository DB) :
  m_dbc (write C x r).2 = m_dbc r /\ parents (write C x r).2 = parents r.
Proof. unfold write. by destruct (put_layer C x (top r)). Qed.

Lemma read_block k r : (forall m l, m_block (c_set C m l) = m_block l) ->
  db_good C (fun k => db k (m_dbc r)) g -> Forall (layer_good C g) (layers r) ->
  m_block (top (read C db k r).2) = m_block (top r).
Proof.
  intros Hb Hdb Hg. destruct (read_repo C db g r k Hdb Hg) as (r' & Hr & _ & _ & Hrc & _). rewrite Hr. cbn [snd].
  by eapply (recached_block C).
Qed.

Lemma write_block x (r : Repository DB) : (forall m l, m_block (c_set C m l) = m_block l) -> m_block (top (write C x r).2) = m_block (top r).
Proof.
  intros Hb. unfold write, put_layer. destruct (c_key C x); cbn; [by rewrite Hb|done].
Qed.
End Generic.

Lemma recached_blocks {K V} `{Countable K} (C : Cache K V) ls ls' :
  (forall m l, m_block (c_set C m l) = m_block l) -> Forall2 (recached C) ls ls' -> map m_block ls' = map m_block ls.
Proof. intros Hb Hr. induction Hr as [|l l' ls ls' [m ->] Hr IH]; [done|]. cbn. by rewrite Hb, IH. Qed.

(** The stack across a read of one cache. *)
Lemma stack_accounts c ls ls' v :
  stack_holds c ls v -> Forall2 (recached accounts) ls ls' -> Forall (layer_good accounts good_account) ls' ->
  (forall k, view accounts (fun k => Database.getAccount k c) ls' k = view accounts (fun k => Database.getAccount k c) ls k) ->
  stack_holds c ls' v.
Proof.
  intros [Hd [_ H2 H3] Ha Hp Ht] Hr Hg Hv. split; [done| |intros a; rewrite Hv; apply Ha|..].
  - split; [done|by eapply (good_frame accounts)|by eapply (good_frame accounts)].
  - intros a. rewrite (view_frame accounts producers _ _ _ (fun _ _ => eq_refl) Hr). apply Hp.
  - intros h. rewrite (view_frame accounts transactions _ _ _ (fun _ _ => eq_refl) Hr). apply Ht.
Qed.

Lemma stack_producers c ls ls' v :
  stack_holds c ls v -> Forall2 (recached producers) ls ls' -> Forall (layer_good producers good_producer) ls' ->
  (forall k, view producers (fun k => Database.getProducer k c) ls' k = view producers (fun k => Database.getProducer k c) ls k) ->
  stack_holds c ls' v.
Proof.
  intros [Hd [H1 _ H3] Ha Hp Ht] Hr Hg Hv. split; [done| | |intros a; rewrite Hv; apply Hp|].
  - split; [by eapply (good_frame producers)|done|by eapply (good_frame producers)].
  - intros a. rewrite (view_frame producers accounts _ _ _ (fun _ _ => eq_refl) Hr). apply Ha.
  - intros h. rewrite (view_frame producers transactions _ _ _ (fun _ _ => eq_refl) Hr). apply Ht.
Qed.

Lemma stack_transactions c ls ls' v :
  stack_holds c ls v -> Forall2 (recached transactions) ls ls' -> Forall (layer_good transactions good_transaction) ls' ->
  (forall k, view transactions (fun k => Database.getTransaction k c) ls' k =
             view transactions (fun k => Database.getTransaction k c) ls k) ->
  stack_holds c ls' v.
Proof.
  intros [Hd [H1 H2 _] Ha Hp Ht] Hr Hg Hv. split; [done| | | |intros h; rewrite Hv; apply Ht].
  - split; [by eapply (good_frame transactions)|by eapply (good_frame transactions)|done].
  - intros a. rewrite (view_frame transactions accounts _ _ _ (fun _ _ => eq_refl) Hr). apply Ha.
  - intros a. rewrite (view_frame transactions producers _ _ _ (fun _ _ => eq_refl) Hr). apply Hp.
Qed.

(** ** The frame *)

Context (c : @DatabaseController DB) (b : Block) (bs : list Block) (v0 : View).

(** The database, the blocks of the layers, and the view below the top. *)
Record framed (r : Repository DB) : Prop := {
  fr_dbc : m_dbc r = c;
  fr_block : m_block (top r) = b;
  fr_blocks : map m_block (parents r) = bs;
  fr_parents : stack_holds c (parents r) v0
}.

Lemma framed_getAccount r v a : holds r v -> framed r -> framed (repo_getAccount a r).2.
Proof.
  intros [Hd [Hl _ _] _ _ _ _] [Hc Hb Hbs Hp]. apply db_ok_accounts in Hd.
  unfold repo_getAccount. destruct (read_parents accounts Database.getAccount good_account r a Hd Hl) as (H1 & H2 & H3 & H4). rewrite <- Hc in Hp. split; [by rewrite H1| | |rewrite <- Hc].
  - rewrite <- Hb. by apply (read_block accounts Database.getAccount good_account).
  - rewrite <- Hbs. by eapply (recached_blocks accounts).
  - by eapply stack_accounts.
Qed.

Lemma framed_getProducer r v a : holds r v -> framed r -> framed (repo_getProducer a r).2.
Proof.
  intros [Hd [_ Hl _] _ _ _ _] [Hc Hb Hbs Hp]. apply db_ok_producers in Hd.
  unfold repo_getProducer. destruct (read_parents producers Database.getProducer good_producer r a Hd Hl) as (H1 & H2 & H3 & H4). rewrite <- Hc in Hp. split; [by rewrite H1| | |rewrite <- Hc].
  - rewrite <- Hb. by apply (read_block producers Database.getProducer good_producer).
  - rewrite <- Hbs. by eapply (recached_blocks producers).
  - by eapply stack_producers.
Qed.

Lemma framed_getTransaction r v h : holds r v -> framed r -> framed (repo_getTransaction h r).2.
Proof.
  intros [Hd [_ _ Hl] _ _ _ _] [Hc Hb Hbs Hp]. apply db_ok_transactions in Hd.
  unfold repo_getTransaction. destruct (read_parents transactions Database.getTransaction good_transaction r h Hd Hl) as (H1 & H2 & H3 & H4). rewrite <- Hc in Hp. split; [by rewrite H1| | |rewrite <- Hc].
  - rewrite <- Hb. by apply (read_block transactions Database.getTransaction good_transaction).
  - rewrite <- Hbs. by eapply (recached_blocks transactions).
  - by eapply stack_transactions.
Qed.

Lemma framed_write {K V} `{Countable K} (C : Cache K V) x r :
  (forall m l, m_block (c_set C m l) = m_block l) -> framed r -> framed (write C x r).2.
Proof.
  intros Hs [Hc Hb Hbs Hp]. destruct (write_parents C x r) as [H1 H2]. split; [by rewrite H1| |by rewrite H2|by rewrite H2].
  rewrite <- Hb. by apply write_block.
Qed.

(** The ledger laws with the frame. *)
Definition framed_laws : LedgerLaws (Repository DB).
Proof.
  refine {| reps := fun r v => holds r v /\ framed r |}.
  - intros r v a [Hh _]. by apply (db_view_account r).
  - intros r v a [Hh _]. by apply (db_view_producer r).
  - intros r v a [Hh Hf]. destruct (repo_getAccount_holds r v a Hh) as (r' & Hr & Hh'). exists r'. split; [done|]. split; [done|].
    change r' with (Ok (v_acct v a), r').2. rewrite <- Hr. by eapply framed_getAccount.
  - intros r v x [Hh Hf] Hx. destruct (repo_put_account_holds r v x Hh Hx) as (r' & Hr & Hh'). exists r'. split; [done|]. split; [done|].
    change r' with (Ok tt, r').2. rewrite <- Hr. by apply framed_write.
  - intros r v a [Hh Hf]. destruct (repo_getProducer_holds r v a Hh) as (r' & Hr & Hh'). exists r'. split; [done|]. split; [done|].
    change r' with (Ok (v_prod v a), r').2. rewrite <- Hr. by eapply framed_getProducer.
  - intros r v x [Hh Hf] Hx. destruct (repo_put_producer_holds r v x Hh Hx) as (r' & Hr & Hh'). exists r'. split; [done|]. split; [done|].
    change r' with (Ok tt, r').2. rewrite <- Hr. by apply framed_write.
  - intros r v h [Hh Hf]. destruct (repo_getTransaction_holds r v h Hh) as (r' & Hr & Hh'). exists r'. split; [done|]. split; [done|].
    change r' with (Ok (v_txn v h), r').2. rewrite <- Hr. by eapply framed_getTransaction.
  - intros r v h x [Hh Hf] Hx. destruct (repo_put_transaction_holds r v h x Hh Hx) as (r' & Hr & Hh'). exists r'. split; [done|].
    split; [done|]. change r' with (Ok tt, r').2. rewrite <- Hr. by apply framed_write.
  - intros r v [Hh _]. cbn. by rewrite (h_now r v Hh).
Defined.
End Frame.
