(* ===== verification/CommitFacts.v ===== *)
(** * Commit: the writes of a repository reach its parent or the database *)

From S2P Require Import Prelude CommonData RLP RLPFacts FixedHash SHA3 Codec.
From S2P Require Import Account Producer Transaction BlockHeader Block Database Ledger Repository RepositoryFacts.
Import Spec.

Section Commit.
Context {DB : Type} `{KVStoreLaws DB}.

(** Writing out a cache whose objects are filed under their own key. *)
Lemma put_records_lookup {N A} (m : gmap (vec byte N) A) (key : A -> vec byte N) (val : A -> bytes) (d : DB) k :
  map_Forall (fun k x => key x = k) m ->
  get (vec_to_list k) (put_records (fun x => vec_to_list (key x)) val (cached_values m) d) =
  match m !! k with Some x => val x | None => get (vec_to_list k) d end.
Proof.
  intros Hk. pose proof (map_entries_keys_nodup m key Hk) as Hn.
  destruct (get_put_records (fun x => vec_to_list (key x)) val (cached_values m) d (vec_to_list k) Hn) as [Hin Hout].
  destruct (m !! k) as [x|] eqn:E.
  - rewrite <- (Hk k x E). apply Hin. apply map_entries_values. by exists k.
  - apply Hout. intros (x & Hx & Hv)%list_elem_of_fmap. apply map_entries_values in Hv as [k' Hk'].
    apply vec_to_list_inj2 in Hx. rewrite Hx, (Hk k' x Hk') in E. congruence.
Qed.

(** The id of a transaction that is filed. *)
Definition tx_id (tx : Transaction) : h256 := match Transaction.getHash tx with Ok h => h | Throw _ => zero_hash 32 end.

Lemma tx_id_ok h tx : Transaction.getHash tx = Ok h -> tx_id tx = h /\ Transaction.getKey tx = Ok (vec_to_list h).
Proof. intros Hh. unfold tx_id, Transaction.getKey. by rewrite Hh. Qed.

Lemma put_transaction_enc h tx (c : @DatabaseController DB) :
  Transaction.valid tx -> Transaction.getHash tx = Ok h ->
  Database.put_transaction tx c =
  Ok (with_transaction (put (vec_to_list (tx_id tx)) (enc_list (Transaction.fields tx)) (m_transactionStore c)) c).
Proof.
  intros Hv Hh. destruct (tx_id_ok h tx Hh) as [Hid Hkey]. unfold Database.put_transaction.
  rewrite Hkey, Transaction.transaction_getRLPData_enc by done. by rewrite Hid.
Qed.

Lemma put_all_transactions l (c : @DatabaseController DB) :
  Forall (fun tx => Transaction.valid tx /\ exists h, Transaction.getHash tx = Ok h) l ->
  put_all Database.put_transaction l c =
  Ok (with_transaction (put_records (fun tx => vec_to_list (tx_id tx)) (fun tx => enc_list (Transaction.fields tx)) l
                          (m_transactionStore c)) c).
Proof.
  intros Hl. revert c. induction Hl as [|x l [Hx [h Hh]] Hl IH]; intros c; cbn [put_all]; [by destruct c|].
  rewrite (put_transaction_enc h) by done. cbn [mbind result_bind]. rewrite IH. done.
Qed.

(** The cached objects can be written to the database. *)
Record storable (l : Layer) : Prop := {
  st_accounts : map_Forall (fun _ a => Account.valid a) (m_cacheAccount l);
  st_producers : map_Forall (fun _ p => Producer.valid p) (m_cacheProducer l);
  st_transactions : map_Forall (fun _ tx => Transaction.valid tx) (m_cacheTransaction l);
  st_block : Block.valid (m_block l)
}.

(** The database after a commit without parent. *)
Definition written (l : Layer) (c : @DatabaseController DB) : @DatabaseController DB :=
  with_transaction (put_records (fun tx => vec_to_list (tx_id tx)) (fun tx => enc_list (Transaction.fields tx))
                      (cached_values (m_cacheTransaction l)) (m_transactionStore c))
    (with_producer (put_records Producer.getKey (fun p => enc_list (Producer.fields p))
                      (cached_values (m_cacheProducer l)) (m_producerStore c))
       (with_account (put_records Account.getKey (fun a => enc_list (Account.fields a))
                        (cached_values (m_cacheAccount l)) (m_accountStore c)) c)).

Lemma cached_forall {N A} (P : A -> Prop) (m : gmap (vec byte N) A) : map_Forall (fun _ x => P x) m -> Forall P (cached_values m).
Proof. intros Hp. apply Forall_forall. intros x [k Hk]%map_entries_values. by apply (Hp k x). Qed.

Lemma commit_root r v :
  holds r v -> parents r = [] -> storable (top r) ->
  exists c, put_block (m_block (top r)) (written (top r) (m_dbc r)) = Ok c /\ commit r = Ok (mkRepo c (top r) []).
Proof.
  intros [_ Hl _ _ _ _] Hp [Ha Hpr Ht Hb]. unfold commit. rewrite Hp.
  pose proof (lo_transactions _ Hl) as Hlt. apply Forall_cons in Hlt as [Hlt _].
  rewrite put_all_accounts by (apply cached_forall; intros k a Hk; apply (Ha k a Hk)). cbn [mbind result_bind].
  rewrite put_all_producers by (by apply cached_forall). cbn [mbind result_bind].
  rewrite put_all_transactions.
  2: { apply cached_forall. intros h tx Hh. split; [by apply (Ht h)|]. exists h. by apply (Hlt h tx Hh). }
  cbn [mbind result_bind]. unfold put_block.
  rewrite block_getKey, Block.block_getRLPData_enc by (done || by apply Block.valid_header). cbn [mbind result_bind].
  eexists. split; [done|]. done.
Qed.

(** An account after it was written to the database and read back: its code is
    the encoding of the code it had. *)
Definition resaved (x : Account) : Account := setCode (enc_str (m_code x)) x.

Lemma written_account l c a :
  layer_good accounts good_account l -> map_Forall (fun _ a => Account.valid a) (m_cacheAccount l) ->
  Database.getAccount a (written l c) =
  match m_cacheAccount l !! a with Some x => Ok (resaved x) | None => Database.getAccount a c end.
Proof.
  intros Hg Hv. unfold Database.getAccount. change (m_accountStore (written l c)) with
    (put_records (fun x => vec_to_list (Account.m_address x)) (fun a => enc_list (Account.fields a))
       (cached_values (m_cacheAccount l)) (m_accountStore c)).
  rewrite put_records_lookup by (intros k x Hk; by apply (Hg k x Hk)). destruct (m_cacheAccount l !! a) as [x|] eqn:E; [|done].
  rewrite database_read_enc. destruct (Hv a x E). by apply Account.account_decode_enc.
Qed.

Lemma written_producer l c a :
  layer_good producers good_producer l -> map_Forall (fun _ p => Producer.valid p) (m_cacheProducer l) ->
  Database.getProducer a (written l c) =
  match m_cacheProducer l !! a with Some x => Ok x | None => Database.getProducer a c end.
Proof.
  intros Hg Hv. unfold Database.getProducer. change (m_producerStore (written l c)) with
    (put_records (fun x => vec_to_list (Producer.m_address x)) (fun a => enc_list (Producer.fields a))
       (cached_values (m_cacheProducer l)) (m_producerStore c)).
  rewrite put_records_lookup by (intros k x Hk; by apply (Hg k x Hk)). destruct (m_cacheProducer l !! a) as [x|] eqn:E; [|done].
  rewrite database_read_enc. apply Producer.producer_decode_enc. by apply (Hv a).
Qed.

Lemma written_transaction l c h :
  layer_good transactions good_transaction l -> map_Forall (fun _ tx => Transaction.valid tx) (m_cacheTransaction l) ->
  Database.getTransaction h (written l c) =
  match m_cacheTransaction l !! h with Some x => Ok x | None => Database.getTransaction h c end.
Proof.
  intros Hg Hv. unfold Database.getTransaction. change (m_transactionStore (written l c)) with
    (put_records (fun x => vec_to_list (tx_id x)) (fun a => enc_list (Transaction.fields a))
       (cached_values (m_cacheTransaction l)) (m_transactionStore c)).
  rewrite put_records_lookup by (intros k x Hk; by apply tx_id_ok, (Hg k x Hk)).
  destruct (m_cacheTransaction l !! h) as [x|] eqn:E; [|done].
  rewrite database_read_enc. apply Transaction.transaction_decode_enc. by apply (Hv h).
Qed.

(** What a database lookup has to do with the view over no layer. *)
Lemma db_view_of_account c a :
  db_ok c -> exists x, Database.getAccount a c = Ok x /\
    db_view accounts (fun k => Database.getAccount k c) a = Account.assign EmptyAccount x.
Proof.
  intros Hd. destruct (do_accounts c Hd a) as (x & Hx & Hc). exists x. split; [done|]. unfold db_view. rewrite Hx. cbv zeta.
  destruct Hc as [->|[Ha Hl]]; [done|]. rewrite (cl_empty accounts good_account a) by (by split). done.
Qed.

(** What an account answers after a commit: the ones of the repository are
    resaved, the others read as before. *)
Definition saved_account (m : gmap h160 Account) (v : View) (c c' : @DatabaseController DB) (a : h160) : Prop :=
  exists x, Database.getAccount a c' = Ok x /\
    match m !! a with
    | Some y => v_acct v a = y /\ x = resaved y
    | None => Database.getAccount a c = Ok x /\ v_acct v a = Account.assign EmptyAccount x
    end.

Lemma db_view_of_producer c a :
  db_ok c -> Database.getProducer a c = Ok (db_view producers (fun k => Database.getProducer k c) a).
Proof.
  intros Hd. destruct (do_producers c Hd a) as (x & Hx & Hc). unfold db_view. rewrite Hx. cbv zeta.
  destruct Hc as [->|Hg]; [done|]. by rewrite (cl_empty producers good_producer a).
Qed.

Lemma db_view_of_transaction c h :
  db_ok c -> Database.getTransaction h c = Ok (db_view transactions (fun k => Database.getTransaction k c) h).
Proof.
  intros Hd. destruct (do_transactions c Hd h) as (x & Hx & Hc). unfold db_view. rewrite Hx. cbv zeta.
  destruct Hc as [->|Hg].
  - change (c_assign transactions (c_local transactions) EmptyTransaction) with EmptyTransaction.
    change (c_empty transactions EmptyTransaction) with (tx_eqb EmptyTransaction EmptyTransaction). by rewrite empty_tx_eqb.
  - change (c_assign transactions (c_local transactions) x) with x. by rewrite (cl_empty transactions good_transaction h x Hg).
Qed.

Lemma with_blocks_lookups (c c' : @DatabaseController DB) b :
  put_block b c = Ok c' ->
  (forall a, Database.getAccount a c' = Database.getAccount a c) /\
  (forall a, Database.getProducer a c' = Database.getProducer a c) /\
  (forall h, Database.getTransaction h c' = Database.getTransaction h c).
Proof.
  unfold put_block. by intros (k & _ & (d & _ & [= <-])%result_bind_inv)%result_bind_inv.
Qed.

Lemma written_db_ok l c : layers_ok [l] -> storable l -> db_ok c -> db_ok (written l c).
Proof.
  intros [[Ha _]%Forall_cons [Hp _]%Forall_cons [Ht _]%Forall_cons] [Hsa Hsp Hst _] Hd. split.
  - intros a. rewrite written_account by done. destruct (m_cacheAccount l !! a) as [x|] eqn:E; [|by apply do_accounts].
    eexists. split; [done|]. right. by destruct (Ha a x E) as (? & ? & _).
  - intros a. rewrite written_producer by done. destruct (m_cacheProducer l !! a) as [x|] eqn:E; [|by apply do_producers].
    eexists. split; [done|]. right. by apply (Hp a x E).
  - intros h. rewrite written_transaction by done. destruct (m_cacheTransaction l !! h) as [x|] eqn:E; [|by apply do_transactions].
    eexists. split; [done|]. right. by apply (Ht h x E).
Qed.

Lemma db_ok_same (c c' : @DatabaseController DB) :
  (forall a, Database.getAccount a c' = Database.getAccount a c) ->
  (forall a, Database.getProducer a c' = Database.getProducer a c) ->
  (forall h, Database.getTransaction h c' = Database.getTransaction h c) -> db_ok c -> db_ok c'.
Proof.
  intros E1 E2 E3 [H1 H2 H3]. split; intros k; [rewrite E1; apply H1|rewrite E2; apply H2|rewrite E3; apply H3].
Qed.

Lemma commit_root_spec (r : Repository DB) (v : View) (h0 : BlockHeader) :
  holds r v -> parents r = [] -> storable (top r) ->
  exists c, commit r = Ok (mkRepo c (top r) []) /\ db_ok c /\
    (forall a, saved_account (m_cacheAccount (top r)) v (m_dbc r) c a) /\
    (forall a, Database.getProducer a c = Ok (v_prod v a)) /\
    (forall h, Database.getTransaction h c = Ok (v_txn v h)) /\
    (forall n, is_u64 n -> getBlockByNumber h0 n c =
       if decide (n = m_number (m_blockHeader (m_block (top r)))) then Ok (m_block (top r)) else getBlockByNumber h0 n (m_dbc r)) /\
    m_attributesStore c = m_attributesStore (m_dbc r).
Proof.
  intros Hr Hroot Hs. destruct (commit_root r v Hr Hroot Hs) as (c & Hput & Hc). pose proof Hr as [Hd Hl Ha Hp Ht _].
  unfold layers in Hl. rewrite Hroot in Hl. pose proof Hl as [[Hga _]%Forall_cons [Hgp _]%Forall_cons [Hgt _]%Forall_cons].
  destruct (with_blocks_lookups _ _ _ Hput) as (E1 & E2 & E3). pose proof Hs as [Hsa Hsp Hst Hsb].
  exists c. split; [done|]. split; [|split; [|split; [|split]]].
  - eapply (db_ok_same (written (top r) (m_dbc r))); try done. by apply written_db_ok.
  - intros a. unfold saved_account. rewrite E1, written_account by done. rewrite <- Ha. unfold account_view, layers. rewrite Hroot. cbn [view].
    change (c_get accounts (top r)) with (m_cacheAccount (top r)).
    destruct (m_cacheAccount (top r) !! a) as [x|]; cbn [default]; [by eexists|].
    destruct (db_view_of_account (m_dbc r) a Hd) as (x & Hx & Hv). by exists x.
  - intros a. rewrite E2, written_producer by done. rewrite <- Hp. unfold producer_view, layers. rewrite Hroot. cbn [view].
    change (c_get producers (top r)) with (m_cacheProducer (top r)).
    destruct (m_cacheProducer (top r) !! a) as [x|]; cbn [default]; [done|by apply db_view_of_producer].
  - intros h. rewrite E3, written_transaction by done. rewrite <- Ht. unfold transaction_view, layers. rewrite Hroot. cbn [view].
    change (c_get transactions (top r)) with (m_cacheTransaction (top r)).
    destruct (m_cacheTransaction (top r) !! h) as [x|]; cbn [default]; [done|by apply db_view_of_transaction].
  - unfold put_block in Hput. rewrite block_getKey, Block.block_getRLPData_enc in Hput by (done || by apply Block.valid_header).
    injection Hput as <-. split; [|done]. intros n Hn. unfold getBlockByNumber. cbn [with_blocks m_blockIndexStore].
    pose proof (BlockHeader.valid_number _ (Block.valid_header _ Hsb)).
    rewrite get_put_number by (done || unfold is_u64; lia). case_decide; [|done]. rewrite database_read_enc. by apply Block.block_decode_enc.
Qed.


(** Committing into the parent's caches. *)
Lemma put_values_entries {N V} (C : Cache (vec byte N) V) g {HL : CacheLaws C g} (kvs : list (vec byte N * V)) p :
  Forall (fun kv => g kv.1 kv.2) kvs -> layer_good C g p ->
  put_values C (map snd kvs) p = Ok (c_set C (insert_entries (c_get C p) kvs) p) /\
  layer_good C g (c_set C (insert_entries (c_get C p) kvs) p).
Proof.
  intros Hg. revert p. induction Hg as [|[k x] kvs Hx Hg IH]; intros p Hp; cbn [map put_values].
  - cbn [insert_entries fold_left]. by rewrite (cl_set_get C g).
  - destruct (put_layer_good C g k x p Hx Hp) as [Hput Hp']. cbn [snd] in *. rewrite Hput. cbn [mbind result_bind].
    destruct (IH _ Hp') as [H1 H2]. rewrite (cl_get_set C g) in H1, H2. rewrite (cl_set_set C g) in H1, H2. done.
Qed.

Lemma put_cached {N V} (C : Cache (vec byte N) V) g {HL : CacheLaws C g} (m : gmap (vec byte N) V) p :
  map_Forall g m -> layer_good C g p ->
  exists p', put_values C (cached_values m) p = Ok p' /\ recached C p p' /\ layer_good C g p' /\
    forall db ps k, view C db (p' :: ps) k = default (view C db (p :: ps) k) (m !! k).
Proof.
  intros Hm Hp. destruct (put_values_entries C g (map_entries m) p) as [H1 H2]; [|done|].
  - apply Forall_forall. intros [k x] Hin%map_entries_lookup. by apply Hm.
  - eexists. split; [exact H1|]. split; [by eexists|]. split; [done|]. intros db ps k. cbn [view].
    rewrite (cl_get_set C g), insert_map_entries_over. by destruct (m !! k).
Qed.

(** C21. Committing a repository into its parent moves its view there: the
    parent answers every account, producer and transaction as the child did. *)
Theorem commit_to_parent (r : Repository DB) (v : View) (p : Layer) (ps : list Layer)
    (Hr : holds r v) (Hp : parents r = p :: ps) :
  exists p', commit r = Ok (mkRepo (m_dbc r) (top r) (p' :: ps)) /\ m_block p' = m_block p /\
    let r' := mkRepo (m_dbc r) p' ps in
    layers_ok (layers r') /\ (forall a, account_view r' a = v_acct v a) /\
    (forall a, producer_view r' a = v_prod v a) /\ (forall h, transaction_view r' h = v_txn v h).
Proof.
  destruct Hr as [Hd [Hla Hlp Hlt] Ha Hpr Ht _]. unfold layers in *. rewrite Hp in *.
  apply Forall_cons in Hla as [Hta [Hpa Hpsa]%Forall_cons]. apply Forall_cons in Hlp as [Htp [Hpp Hpsp]%Forall_cons].
  apply Forall_cons in Hlt as [Htt [Hpt Hpst]%Forall_cons].
  destruct (put_cached accounts good_account (m_cacheAccount (top r)) p Hta Hpa) as (p1 & E1 & [m1 ->] & G1 & V1).
  set (p1 := c_set accounts m1 p) in *.
  destruct (put_cached producers good_producer (m_cacheProducer (top r)) p1 Htp Hpp) as (p2 & E2 & [m2 ->] & G2 & V2).
  set (p2 := c_set producers m2 p1) in *.
  destruct (put_cached transactions good_transaction (m_cacheTransaction (top r)) p2 Htt Hpt) as (p3 & E3 & [m3 ->] & G3 & V3).
  set (p3 := c_set transactions m3 p2) in *.
  exists p3. split; [unfold commit; rewrite Hp; cbn [mbind result_bind]; by rewrite E1; cbn [mbind result_bind]; rewrite E2;
    cbn [mbind result_bind]; rewrite E3|]. split; [done|]. cbv zeta. split; [split; by constructor|].
  split; [|split]; intros k.
  - rewrite <- Ha. unfold account_view, layers. rewrite Hp. exact (V1 _ ps k).
  - rewrite <- Hpr. unfold producer_view, layers. rewrite Hp. exact (V2 _ ps k).
  - rewrite <- Ht. unfold transaction_view, layers. rewrite Hp. exact (V3 _ ps k).
Qed.
End Commit.
