(* ===== verification/LedgerExamples.v ===== *)
(** * A small ledger

    A repository with one parent over an empty database, on which the theorems
    about accounts, votes, transactions and commit are exercised. *)

From S2P Require Import Prelude CommonData RLP RLPFacts FixedHash SHA3 Codec.
From S2P Require Import Account Producer Ballot Transaction BlockHeader Block BlockState Database Ledger LedgerFacts Actions.
From S2P Require Import Repository RepositoryFacts CommitFacts.
Import Spec.

Definition genesis_ms : Z := 1538352000000.
Definition alice : h160 := addr 1.
Definition bob : h160 := addr 2.
Definition carol : h160 := addr 3.

(** Alice has 5000 tokens of a million units, Carol is a producer. *)
Definition alice_account : Account := newAccount alice 5000000000 genesis_ms.
Definition carol_producer : Producer := newProducer carol genesis_ms.

Definition base_layer : Layer := mkLayer {[alice := alice_account]} {[carol := carol_producer]} ∅ example_block.
Definition repo1 : Repository (gmap bytes bytes) := mkRepo empty_dbc (new_layer example_block) [base_layer].
Definition root1 : Repository (gmap bytes bytes) := mkRepo empty_dbc base_layer [].

Definition view_of (r : Repository (gmap bytes bytes)) : View :=
  mkView (account_view r) (producer_view r) (transaction_view r) (BlockHeader.m_timestamp (m_blockHeader (m_block (top r)))).

Lemma empty_db_ok : db_ok empty_dbc.
Proof.
  split; intros k; eexists; (split; [|by left]).
  - unfold Database.getAccount, get. cbn [empty_dbc m_accountStore kv_get gmap_store]. by rewrite lookup_empty.
  - unfold Database.getProducer, get. cbn [empty_dbc m_producerStore kv_get gmap_store]. by rewrite lookup_empty.
  - unfold Database.getTransaction, get. cbn [empty_dbc m_transactionStore kv_get gmap_store]. by rewrite lookup_empty.
Qed.

Lemma carol_good : good_producer carol carol_producer.
Proof. split; [done|]. vm_compute. reflexivity. Qed.

Lemma base_layer_ok : layers_ok [base_layer].
Proof.
  split; (apply Forall_cons; split; [|done]).
  - apply map_Forall_singleton. done.
  - apply map_Forall_singleton. apply carol_good.
  - apply map_Forall_empty.
Qed.

Lemma holds_view_of r : db_ok (m_dbc r) -> layers_ok (layers r) -> holds r (view_of r).
Proof. intros Hd Hl. by split. Qed.

Lemma root1_holds : holds root1 (view_of root1).
Proof. apply holds_view_of; [apply empty_db_ok|apply base_layer_ok]. Qed.

Lemma repo1_holds : holds repo1 (view_of repo1).
Proof.
  apply holds_view_of; [apply empty_db_ok|]. destruct base_layer_ok as [H1 H2 H3].
  split; (apply Forall_cons; split; [apply map_Forall_empty|done]).
Qed.

Lemma repo1_acct a : v_acct (view_of repo1) a = if decide (a = alice) then alice_account else EmptyAccount.
Proof.
  cbn [view_of v_acct]. unfold account_view, layers. cbn [repo1 top parents m_dbc view c_get accounts new_layer m_cacheAccount base_layer].
  rewrite lookup_empty. cbn [default]. destruct (decide (a = alice)) as [->|Hne]; [by rewrite lookup_singleton_eq|].
  rewrite lookup_singleton_ne by done. cbn [default]. unfold db_view, Database.getAccount, get.
  cbn [empty_dbc m_accountStore kv_get gmap_store]. by rewrite lookup_empty.
Qed.

Lemma repo1_prod a : v_prod (view_of repo1) a = if decide (a = carol) then carol_producer else EmptyProducer.
Proof.
  cbn [view_of v_prod]. unfold producer_view, layers. cbn [repo1 top parents m_dbc view c_get producers new_layer m_cacheProducer base_layer].
  rewrite lookup_empty. cbn [default]. destruct (decide (a = carol)) as [->|Hne]; [by rewrite lookup_singleton_eq|].
  rewrite lookup_singleton_ne by done. cbn [default]. unfold db_view, Database.getProducer, get.
  cbn [empty_dbc m_producerStore kv_get gmap_store]. by rewrite lookup_empty.
Qed.

Lemma repo1_balances : balances_ok (view_of repo1).
Proof. intros a. unfold balance. rewrite repo1_acct. case_decide; vm_compute; intuition congruence. Qed.

Lemma repo1_votes : votes_ok (fun _ => 0) (fun _ => 0) (view_of repo1).
Proof.
  split.
  - intros a. rewrite repo1_acct. by case_decide.
  - intros a c. rewrite repo1_acct, repo1_prod. repeat case_decide; done.
  - intros c. rewrite repo1_prod. by case_decide.
Qed.

Lemma alice_not_empty : is_empty_account (v_acct (view_of repo1) alice) = false.
Proof. rewrite repo1_acct, decide_True by done. vm_compute. reflexivity. Qed.
Lemma carol_not_empty : is_empty_producer (v_prod (view_of repo1) carol) = false.
Proof. rewrite repo1_prod, decide_True by done. vm_compute. reflexivity. Qed.
Lemma alice_balance : balance (view_of repo1) alice = 5000000000.
Proof. unfold balance. by rewrite repo1_acct, decide_True. Qed.

(** The repository's instance of [reps]. *)
Lemma repo1_reps : reps repo1 (view_of repo1).
Proof. exact repo1_holds. Qed.

(** ** The theorems at work *)

Definition pay_tx : Transaction := mkTransaction 16 TransferType alice bob genesis_ms [] 1000 (zero_hash 65).
Definition tx_hash_of (tx : Transaction) : h256 := match Transaction.getHash tx with Ok h => h | Throw _ => zero_hash 32 end.

Lemma pay_tx_good : good_transaction (tx_hash_of pay_tx) pay_tx.
Proof. split; vm_compute; reflexivity. Qed.

Lemma alice_ne_bob : alice <> bob.
Proof. intros H. apply (f_equal toArith) in H. vm_compute in H. discriminate. Qed.

Lemma parties_nodup : NoDup [alice; bob].
Proof. apply NoDup_cons. split; [|apply NoDup_singleton]. rewrite list_elem_of_singleton. apply alice_ne_bob. Qed.

Lemma repository_transparent_witness :
  exists r', repo_getAccount alice repo1 = (Ok alice_account, r') /\ holds r' (view_of repo1).
Proof.
  destruct (proj1 (repository_transparent repo1 (view_of repo1) repo1_holds) alice) as (r' & H1 & H2).
  exists r'. split; [|exact H2]. rewrite H1, repo1_acct, decide_True by reflexivity. reflexivity.
Defined.

Lemma transfer_conserves_witness :
  exists r' v', transfer alice bob 1000 repo1 = (Ok tt, r') /\ holds r' v' /\
    total v' [alice; bob] = total (view_of repo1) [alice; bob].
Proof.
  destruct (transfer_conserves repo1 (view_of repo1) alice bob 1000 [alice; bob] repo1_reps repo1_balances
    ltac:(vm_compute; intuition congruence) alice_ne_bob parties_nodup ltac:(left) ltac:(right; left)) as (r' & v' & H1 & H2).
  exists r', v'. rewrite alice_not_empty, alice_balance in H2. unfold balance in H2. rewrite repo1_acct, decide_False in H2
    by (intros H; by apply alice_ne_bob). destruct H2 as (H2 & _ & _ & _ & H3). exact (conj H2 (conj H1 H3)).
Defined.

Lemma self_transfer_mints_witness :
  exists r' v', transfer alice alice 5000000000 repo1 = (Ok tt, r') /\ holds r' v' /\ balance v' alice = 10000000000.
Proof.
  destruct (self_transfer_mints repo1 (view_of repo1) alice 5000000000 repo1_reps repo1_balances
    ltac:(vm_compute; intuition congruence) alice_not_empty) as (r' & v' & H1 & H2 & H3).
  - rewrite alice_balance. reflexivity || lia.
  - rewrite alice_balance. reflexivity.
  - exists r', v'. rewrite alice_balance in H3. exact (conj H1 (conj H2 H3)).
Defined.

Lemma vote_weight_overflows_witness :
  exists r' v', voteIncrease alice carol 18446744073710 repo1 = (Ok tt, r') /\ holds r' v' /\
    Account.m_votes (v_acct v' alice) = 18446744073710.
Proof.
  apply (vote_weight_overflows repo1 (view_of repo1) alice carol repo1_reps repo1_balances alice_not_empty carol_not_empty).
  - rewrite repo1_acct, decide_True by reflexivity. reflexivity.
  - rewrite alice_balance. lia.
Defined.

Definition twice_data : bytes :=
  match Ballot.getRLPData [mkCandidate carol 5; mkCandidate carol 5] with Ok d => d | Throw _ => [] end.
Definition twice_tx : Transaction := mkTransaction 16 VoteType alice bob genesis_ms twice_data 0 (zero_hash 65).

Definition self_tx : Transaction := mkTransaction 16 TransferType alice alice genesis_ms [] 700 (zero_hash 65).

(** A payment, a payment to oneself and a ballot with a candidate twice. *)
Definition pay_block : Block := mkBlock (m_blockHeader example_block) [pay_tx; self_tx; twice_tx] [] false.

Lemma pay_regular : Forall (regular [alice; bob]) (m_transactions pay_block).
Proof.
  repeat apply Forall_cons_2; try apply Forall_nil_2; (split; [left|(left || (right; left))|vm_compute; intuition congruence|]).
  - eexists. apply pay_tx_good.
  - exists (tx_hash_of self_tx). split; vm_compute; reflexivity.
  - exists (tx_hash_of twice_tx). split; vm_compute; reflexivity.
Qed.

Lemma pay_block_runs : correlator_run pay_block repo1 = (Ok tt, snd (correlator_run pay_block repo1)).
Proof.
  rewrite (surjective_pairing (correlator_run pay_block repo1)) at 1. f_equal; vm_compute; reflexivity.
Qed.

Lemma block_keeps_ledger_witness :
  exists v', holds (snd (correlator_run pay_block repo1)) v' /\ balances_ok v' /\
    worth v' [alice; bob] = worth (view_of repo1) [alice; bob] - 3 * TRANSACTION_FEE + 700 /\
    Producer.m_votes (v_prod v' carol) = u64 (5 + map_sum (m_voters (v_prod v' carol))).
Proof.
  destruct (block_keeps_ledger [alice; bob] parties_nodup (fun _ => 0) (fun _ => 0) pay_block repo1 _ (view_of repo1) repo1_reps repo1_votes
    repo1_balances pay_regular ltac:(vm_compute; discriminate) pay_block_runs) as (v' & H1 & H2 & H3 & H4 & _).
  exists v'. split; [exact H1|]. split; [exact H2|]. split; [exact H4|].
  assert (bases (m_transactions pay_block) (fun _ => 0) carol = 5) as Hc by (vm_compute; reflexivity).
  rewrite (vo_producer _ _ _ H3 carol), Hc. reflexivity.
Defined.

Definition odd_tx : Transaction := mkTransaction 16 CallType alice bob genesis_ms [] 1000 (zero_hash 65).

Lemma unhandled_types_are_free_witness :
  exists r', excute pay_block odd_tx repo1 = (Ok tt, r') /\ holds r' (upd_txn (tx_hash_of odd_tx) odd_tx (view_of repo1)).
Proof.
  apply (unhandled_types_are_free pay_block odd_tx repo1 (view_of repo1) (tx_hash_of odd_tx) repo1_reps).
  - reflexivity.
  - split; vm_compute; reflexivity.
Defined.

Lemma transfer_action_exact_witness :
  exists r' v', Transfer_execute pay_tx repo1 = (Ok tt, r') /\ holds r' v'.
Proof.
  pose proof (transfer_action_exact pay_tx repo1 (view_of repo1) repo1_reps repo1_balances
    ltac:(vm_compute; intuition congruence) alice_ne_bob) as H. cbv zeta in H. change (m_sender pay_tx) with alice in H.
  change (m_recipient pay_tx) with bob in H. rewrite alice_not_empty, alice_balance in H. unfold balance in H.
  rewrite repo1_acct, decide_False in H by (intros He; by apply alice_ne_bob).
  destruct H as (r' & v' & H1 & H2 & _). exists r', v'. exact (conj H1 H2).
Defined.

Lemma newAccount_valid a b t : 0 <= b < 2 ^ 63 -> 0 <= t < 2 ^ 63 -> Account.valid (newAccount a b t).
Proof.
  intros Hb Ht. split; [|cbn; lia]. split; cbn [newAccount m_code m_contractAddresses m_candidates Account.m_type
    Account.m_timestamp Account.m_votes m_balance].
  - done.
  - done.
  - done.
  - done.
  - done.
  - apply map_Forall_empty.
  - by rewrite map_size_empty.
  - unfold is_u64. lia.
Qed.

Lemma base_layer_storable : storable base_layer.
Proof.
  split; cbn [base_layer m_cacheAccount m_cacheProducer m_cacheTransaction m_block].
  - apply map_Forall_singleton. apply newAccount_valid; unfold genesis_ms; lia.
  - apply map_Forall_singleton. by apply newProducer_valid.
  - apply map_Forall_empty.
  - apply example_block_valid.
Qed.


Lemma commit_to_parent_witness : exists p', commit repo1 = Ok (mkRepo empty_dbc (new_layer example_block) [p']).
Proof.
  destruct (commit_to_parent repo1 (view_of repo1) base_layer [] repo1_holds eq_refl) as (p' & H1 & _).
  exists p'. exact H1.
Defined.

(** A ballot that names a candidate twice leaves phantom votes: both
    entries are added to the producer's votes but only one is remembered, so
    after the voter's next [clearVote] the producer keeps votes without any
    voter. *)
Theorem duplicate_candidate_inflates :
  fst ((_ ← Vote_execute twice_tx; _ ← clearVote alice; p ← getProducer carol;
        mret (Producer.m_votes p, size (m_voters p))) repo1) = Ok (5, 0%nat).
Proof. vm_compute. reflexivity. Qed.
