(* ===== verification/Schedule.v ===== *)
(** * Producer scheduling: producer/Schedule.{h,cpp} and producer/ProducerServer.{h,cpp}

    The sorted producer lists, the slots of a round, and the producer's work
    loop over the interface it is given ([ProcuderEventHandleFace]). *)

From S2P Require Import Prelude CommonData RLP RLPFacts FixedHash SHA3 Codec.
From S2P Require Import Producer Transaction BlockHeader Block Database.
Import Spec Decoder Stream.

(** config/Constant.h. *)
Definition GENESIS_TIMESTAMP : Z := 1538352000000.
Definition MAX_TRANSACTIONS_PER_BLOCK : nat := 400.
Definition NUM_DELEGATED_BLOCKS : Z := 7.
Definition PRODUCER_INTERVAL : Z := 2000.
Definition TIME_PER_ROUND : Z := PRODUCER_INTERVAL * NUM_DELEGATED_BLOCKS.

(** ** ProducerScheduleType *)

(** [m_producers]. *)
Definition ProducerScheduleType : Type := list h160.

(** [operator=] appends to the producers already there. *)
Definition pst_assign (this pst : ProducerScheduleType) : ProducerScheduleType := this ++ pst.

Definition pst_isExist (address : h160) (pst : ProducerScheduleType) : bool := existsb (fun a => hash_eqb a address) pst.

(** The loop of [populate]: what was pushed before a throw stays. *)
Fixpoint pst_loop (fuel : nat) (data : bytes) (i count : Z) : ProducerScheduleType :=
  match fuel with
  | O => []
  | S n =>
      if i <? count then
        match nth_item data i ≫= (fun it => toHash 20 it VeryStrict) with
        | Ok a => a :: pst_loop n data (i + 1) count
        | Throw _ => []
        end
      else []
  end.

Definition pst_populate (data : bytes) (pst : ProducerScheduleType) : ProducerScheduleType :=
  match make data VeryStrict with
  | Throw _ => pst
  | Ok _ =>
      if isList data then
        match itemCount data with
        | Ok n => if 0 <? n then pst ++ pst_loop (Z.to_nat n) data 0 n else pst
        | Throw _ => pst
        end
      else pst
  end.

Definition pst_streamRLP (pst : ProducerScheduleType) (st : RLPStream) : result RLPStream :=
  match pst with
  | [] => Ok st
  | _ => appendList (zlen pst) st ≫= chain (map appendHash pst)
  end.
Definition pst_getRLPData (pst : ProducerScheduleType) : result bytes := run (pst_streamRLP pst).

(** ** Schedule *)

Record Schedule : Type := mkSchedule {
  m_prevTimestamp : Z;
  m_prevProducerList : list Producer;
  m_currentTimestamp : Z;
  m_currentProducerList : list Producer
}.

(** [std::sort(..., ProducerCompareLess())]: descending by [operator>]. The
    order is total on producers with different addresses, so every sorting
    algorithm gives this list. *)
Definition producer_before (a b : Producer) : Prop := producer_gtb b a = false.
#[export] Instance producer_before_dec : RelDecision producer_before.
Proof. intros a b. unfold producer_before. apply _. Defined.

Definition sort_producers (l : list Producer) : list Producer := merge_sort producer_before l.

Definition producerSort (s : Schedule) : Schedule :=
  mkSchedule (m_prevTimestamp s) (sort_producers (m_prevProducerList s)) (m_currentTimestamp s)
    (sort_producers (m_currentProducerList s)).

(** [schedule(producerList, timestamp)]. *)
Definition schedule (producerList : list Producer) (timestamp : Z) (s : Schedule) : Schedule :=
  let s1 := match m_currentProducerList s with
            | [] => mkSchedule (m_prevTimestamp s) [] (m_currentTimestamp s) []
            | l => mkSchedule (m_currentTimestamp s) l (m_currentTimestamp s) []
            end in
  producerSort (mkSchedule (m_prevTimestamp s1) (m_prevProducerList s1)
                  (match producerList with [] => m_currentTimestamp s1 | _ => timestamp end) producerList).

Definition getCurrentProducerList (s : Schedule) : list Producer :=
  take (Z.to_nat NUM_DELEGATED_BLOCKS) (m_currentProducerList s).

Definition getProducerSnapshot (s : Schedule) : ProducerSnapshot :=
  fold_left (fun ps p => addProducer p ps) (take (Z.to_nat NUM_DELEGATED_BLOCKS) (m_currentProducerList s))
    (mkSnapshot (m_currentTimestamp s) []).

(** [getAddress(idx)]: [ZeroAddress] out of range. *)
Definition getAddress (idx : Z) (s : Schedule) : h160 :=
  if (zlen (m_currentProducerList s) <=? idx) || (NUM_DELEGATED_BLOCKS <=? idx) then zero_hash 20
  else match m_currentProducerList s !! Z.to_nat idx with
       | Some p => Producer.m_address p
       | None => zero_hash 20
       end.

(** [((timestamp - GENESIS_TIMESTAMP) % TIME_PER_ROUND) / PRODUCER_INTERVAL] as
    an [unsigned]: the operators truncate towards zero. *)
Definition producerPosition (timestamp : Z) : Z :=
  u32 (Z.quot (Z.rem (timestamp - GENESIS_TIMESTAMP) TIME_PER_ROUND) PRODUCER_INTERVAL).

(** The start of the slot of a time, after genesis. *)
Definition blockSlice (timestamp : Z) : Z := Z.quot (timestamp - GENESIS_TIMESTAMP) PRODUCER_INTERVAL * PRODUCER_INTERVAL.

(** ** ProducerServer *)

(** chain/BlockChain.h. *)
Inductive BlockChainStatus : Type := NormalStatus | SyncStatus | ProducerStatus | Killed.
#[export] Instance BlockChainStatus_eq_dec : EqDecision BlockChainStatus.
Proof. solve_decision. Defined.

(** The methods of [ProcuderEventHandleFace] the server calls, over the state
    [E] behind them. *)
Record EventHandle (E : Type) : Type := mkHandle {
  eh_getLastBlock : E -> Block;
  eh_getBlockChainStatus : E -> BlockChainStatus;
  eh_getTransactionFromCache : E -> option Transaction * E;
  eh_checkTransactionNotExisted : h256 -> E -> bool;
  eh_broadcast : Block -> E -> E
}.
Arguments eh_getLastBlock {E} _ _.
Arguments eh_getBlockChainStatus {E} _ _.
Arguments eh_getTransactionFromCache {E} _ _.
Arguments eh_checkTransactionNotExisted {E} _ _ _.
Arguments eh_broadcast {E} _ _ _.

Record ProducerServer : Type := mkServer {
  s_chainID : Z;
  s_address : h160;
  s_secret : h256;
  s_schedule : Schedule;
  s_prevTimestamp : Z
}.

Section Server.
Context {E : Type} (face : EventHandle E).
Variable crypto_sign : h256 -> h256 -> h520.
Variable sig_isValid : SignatureStruct -> bool.
(** The members of a block header its constructor leaves indeterminate. *)
Variable h0 : BlockHeader.

Definition checkTimestamp (s : ProducerServer) (timestamp : Z) (e : E) : bool :=
  let lastBlockTimestamp := BlockHeader.m_timestamp (m_blockHeader (eh_getLastBlock face e)) in
  if blockSlice timestamp <=? s_prevTimestamp s - GENESIS_TIMESTAMP then false
  else if blockSlice timestamp <=? lastBlockTimestamp - GENESIS_TIMESTAMP then false
  else true.

Definition checkProducer (s : ProducerServer) (timestamp : Z) (e : E) : bool :=
  if timestamp <? s_prevTimestamp s then false
  else hash_eqb (s_address s) (getAddress (producerPosition timestamp) (s_schedule s))
       && checkTimestamp s timestamp e
       && bool_decide (eh_getBlockChainStatus face e = ProducerStatus).

(** The loop that fills the block. *)
Fixpoint fill (n : nat) (b : Block) (e : E) : result Block * E :=
  match n with
  | O => (Ok b, e)
  | S n' =>
      let '(otx, e1) := eh_getTransactionFromCache face e in
      match otx with
      | None => fill n' b e1
      | Some tx =>
          match Transaction.getHash tx with
          | Throw ex => (Throw ex, e1)
          | Ok h => fill n' (if eh_checkTransactionNotExisted face h e1 then addTransaction tx b else b) e1
          end
      end
  end.

(** The header [doWork] starts from. *)
Definition next_header (s : ProducerServer) (timestamp : Z) (prev : Block) (parent : h256) : BlockHeader :=
  mkHeader (s_chainID s) (s_address s) parent (m_mklRoot h0) (m_transactionsRoot h0) (m_receiptRoot h0)
    (u64 (m_number (m_blockHeader prev) + 1)) timestamp (m_extra h0) (BlockHeader.m_signature h0).

(** [doWork()]; [timestamp] and [timestampEnd] are the two readings of the
    clock. The block is only broadcast when filling it took less than three
    tenths of the interval. *)
Definition doWork (timestamp timestampEnd : Z) (s : ProducerServer) (e : E) : result unit * (ProducerServer * E) :=
  if negb (checkProducer s timestamp e) then (Ok tt, (s, e))
  else
    let s := mkServer (s_chainID s) (s_address s) (s_secret s) (s_schedule s) timestamp in
    let prevBlock := eh_getLastBlock face e in
    match block_eqb prevBlock EmptyBlock with
    | Throw ex => (Throw ex, (s, e))
    | Ok true => (Ok tt, (s, e))
    | Ok false =>
        match Block.getHash prevBlock with
        | Throw ex => (Throw ex, (s, e))
        | Ok parent =>
            let '(rb, e1) := fill MAX_TRANSACTIONS_PER_BLOCK
                               (mkBlock (next_header s timestamp prevBlock parent) [] [] false) e in
            match (b ← rb; b ← Block.setRoots b; h ← BlockHeader.sign crypto_sign sig_isValid (s_secret s) (m_blockHeader b);
                   Ok (setBlockHeader h b)) with
            | Throw ex => (Throw ex, (s, e1))
            | Ok b => (Ok tt, (s, if u64 (timestampEnd - timestamp) <? PRODUCER_INTERVAL * 3 / 10 then eh_broadcast face b e1 else e1))
            end
        end
    end.
End Server.

(** ** The elected producers *)

Definition weight (p : Producer) : Z := toArith (Producer.m_address p).

Lemma producer_before_spec a b :
  producer_before a b <-> Producer.m_votes b < Producer.m_votes a \/
                          (Producer.m_votes a = Producer.m_votes b /\ weight b <= weight a).
Proof.
  unfold producer_before, producer_gtb, weight. rewrite hash_gtb_val, hash_ltb_val, <- !toArith_val.
  destruct (Z.ltb_spec (Producer.m_votes a) (Producer.m_votes b)); [split; [done|lia]|].
  destruct (Z.eqb_spec (Producer.m_votes b) (Producer.m_votes a)) as [He|He].
  - rewrite Z.ltb_ge. lia.
  - split; [lia|done].
Qed.

#[export] Instance producer_before_trans : Transitive producer_before.
Proof. intros a b c. rewrite !producer_before_spec. lia. Qed.
#[export] Instance producer_before_total : Total producer_before.
Proof. intros a b. rewrite !producer_before_spec. lia. Qed.

Lemma sort_producers_sorted l : StronglySorted producer_before (sort_producers l) /\ sort_producers l ≡ₚ l.
Proof. split; [apply StronglySorted_merge_sort; apply _|apply merge_sort_Permutation]. Qed.

Lemma StronglySorted_take_drop {A} (R : A -> A -> Prop) n l x y :
  StronglySorted R l -> x ∈ take n l -> y ∈ drop n l -> R x y.
Proof.
  revert n. induction l as [|z l IH]; intros n Hs Hx Hy; [rewrite take_nil in Hx; by apply not_elem_of_nil in Hx|].
  apply StronglySorted_inv in Hs as [Hs Hz]. destruct n as [|n]; cbn in *; [by apply not_elem_of_nil in Hx|].
  apply elem_of_cons in Hx as [->|Hx]; [|by apply (IH n)]. rewrite Forall_forall in Hz. apply Hz.
  by eapply elem_of_drop_1 || (apply list_elem_of_lookup in Hy as [i Hi]; rewrite lookup_drop in Hi; by eapply list_elem_of_lookup_2).
Qed.

(** Scheduling elects the producers with the most votes: the current list
    becomes a permutation of the list given, in descending order of votes; the
    old current list becomes the previous one; the elected are its first seven;
    nobody left out has more votes than an elected producer; and the address of
    slot [i] is that of the [i]-th elected, [ZeroAddress] for the slots beyond. *)
Theorem elected_have_most_votes (l : list Producer) (timestamp : Z) (s : Schedule) :
  let s' := schedule l timestamp s in
  m_currentProducerList s' ≡ₚ l /\ m_prevProducerList s' ≡ₚ m_currentProducerList s /\
  StronglySorted (fun a b => Producer.m_votes b <= Producer.m_votes a) (m_currentProducerList s') /\
  Datatypes.length (getCurrentProducerList s') = (Datatypes.length l `min` 7)%nat /\
  (forall e n, e ∈ getCurrentProducerList s' -> n ∈ drop 7 (m_currentProducerList s') ->
     Producer.m_votes n <= Producer.m_votes e) /\
  (forall i, 0 <= i -> getAddress i s' = match getCurrentProducerList s' !! Z.to_nat i with
                                       | Some p => Producer.m_address p | None => zero_hash 20 end).
Proof.
  cbv zeta. destruct (sort_producers_sorted l) as [Hs Hp].
  assert (m_currentProducerList (schedule l timestamp s) = sort_producers l) as Hc.
  { unfold schedule. by destruct (m_currentProducerList s). }
  unfold getCurrentProducerList, getAddress. rewrite Hc. change (Z.to_nat NUM_DELEGATED_BLOCKS) with 7%nat.
  split; [done|]. split; [|split; [|split; [|split]]].
  - unfold schedule. destruct (m_currentProducerList s) as [|p ps]; [done|]. cbn [producerSort m_prevProducerList].
    apply sort_producers_sorted.
  - clear Hp Hc. induction Hs as [|a k Hk IH Ha]; constructor; [done|]. eapply Forall_impl; [exact Ha|].
    intros b Hab%producer_before_spec. cbn. lia.
  - rewrite length_take, (Permutation_length Hp). lia.
  - intros e n He Hn. pose proof (StronglySorted_take_drop _ _ _ _ _ Hs He Hn) as Hen%producer_before_spec. lia.
  - intros i Hi. destruct (_ || _) eqn:E.
    + destruct (take 7 (sort_producers l) !! Z.to_nat i) as [p|] eqn:El; [|done]. exfalso.
      apply lookup_take_Some in El as [El1 El2]. apply lookup_lt_Some in El1. unfold zlen, NUM_DELEGATED_BLOCKS in E.
      apply orb_true_iff in E as [E|E]; apply Z.leb_le in E; lia.
    + apply orb_false_iff in E as [E1 E2]. unfold NUM_DELEGATED_BLOCKS in E2. zify_bool. rewrite lookup_take_lt by lia. done.
Qed.

(** ** Slots *)

(** The producer of a time after genesis is found round robin: its
    position is the number of its two-second interval modulo seven, so it is
    always a legal slot, constant over an interval, next in the next interval,
    and the same again after one round. *)
Theorem slots_round_robin (t : Z) (Ht : GENESIS_TIMESTAMP <= t) :
  producerPosition t = ((t - GENESIS_TIMESTAMP) / PRODUCER_INTERVAL) mod NUM_DELEGATED_BLOCKS /\
  0 <= producerPosition t < NUM_DELEGATED_BLOCKS /\
  producerPosition (t + PRODUCER_INTERVAL) = (producerPosition t + 1) mod NUM_DELEGATED_BLOCKS /\
  producerPosition (t + TIME_PER_ROUND) = producerPosition t.
Proof.
  assert (forall t, GENESIS_TIMESTAMP <= t ->
    producerPosition t = ((t - GENESIS_TIMESTAMP) / PRODUCER_INTERVAL) mod NUM_DELEGATED_BLOCKS) as Hpos.
  { clear t Ht. intros t Ht. unfold producerPosition. rewrite Z.rem_mod_nonneg by (unfold TIME_PER_ROUND, PRODUCER_INTERVAL, NUM_DELEGATED_BLOCKS; lia).
    rewrite Z.quot_div_nonneg by (unfold PRODUCER_INTERVAL; try apply Z.mod_pos_bound; reflexivity || lia).
    unfold TIME_PER_ROUND. set (x := t - GENESIS_TIMESTAMP). 
    assert (x mod (PRODUCER_INTERVAL * NUM_DELEGATED_BLOCKS) / PRODUCER_INTERVAL = x / PRODUCER_INTERVAL mod NUM_DELEGATED_BLOCKS) as ->.
    { rewrite Z.rem_mul_r by (unfold PRODUCER_INTERVAL, NUM_DELEGATED_BLOCKS; lia).
      rewrite Z.mul_comm, Z.div_add by (unfold PRODUCER_INTERVAL; lia). rewrite Z.mod_div by (unfold PRODUCER_INTERVAL; lia). lia. }
    unfold u32. apply Z.mod_small. pose proof (Z.mod_pos_bound (x / PRODUCER_INTERVAL) NUM_DELEGATED_BLOCKS ltac:(reflexivity)).
    unfold NUM_DELEGATED_BLOCKS in *. lia. }
  split; [by apply Hpos|]. split; [rewrite Hpos by done; by apply Z.mod_pos_bound|]. split.
  - rewrite !Hpos by (unfold PRODUCER_INTERVAL; lia).
    replace (t + PRODUCER_INTERVAL - GENESIS_TIMESTAMP) with (t - GENESIS_TIMESTAMP + 1 * PRODUCER_INTERVAL) by lia.
    rewrite Z.div_add by (unfold PRODUCER_INTERVAL; lia). by rewrite Z.add_mod_idemp_l by (unfold NUM_DELEGATED_BLOCKS; lia).
  - rewrite !Hpos by (unfold TIME_PER_ROUND, PRODUCER_INTERVAL, NUM_DELEGATED_BLOCKS; lia). unfold TIME_PER_ROUND.
    replace (t + PRODUCER_INTERVAL * NUM_DELEGATED_BLOCKS - GENESIS_TIMESTAMP)
      with (t - GENESIS_TIMESTAMP + NUM_DELEGATED_BLOCKS * PRODUCER_INTERVAL) by lia.
    rewrite Z.div_add by (unfold PRODUCER_INTERVAL; lia). replace NUM_DELEGATED_BLOCKS with (1 * NUM_DELEGATED_BLOCKS) at 1 by lia.
    by rewrite Z.mod_add by (unfold NUM_DELEGATED_BLOCKS; lia).
Qed.

Lemma slots_round_robin_witness :
  producerPosition (GENESIS_TIMESTAMP + 5000) = 2 /\
  producerPosition (GENESIS_TIMESTAMP + 5000 + TIME_PER_ROUND) = producerPosition (GENESIS_TIMESTAMP + 5000).
Proof.
  split; [reflexivity|]. apply (slots_round_robin (GENESIS_TIMESTAMP + 5000)). unfold GENESIS_TIMESTAMP. lia.
Defined.

(** A producer makes at most one block per slot: once it has worked at
    [t1] (and remembers that time), every later time at which it may work lies
    in a later interval than [t1] and than the last block, and it is the
    producer of that interval. *)
Theorem one_block_per_slot {E} (face : EventHandle E) (s : ProducerServer) (t2 : Z) (e : E)
    (Ht1 : GENESIS_TIMESTAMP <= s_prevTimestamp s)
    (Hlast : GENESIS_TIMESTAMP <= BlockHeader.m_timestamp (m_blockHeader (eh_getLastBlock face e)))
    (Hok : checkProducer face s t2 e = true) :
  let slot t := (t - GENESIS_TIMESTAMP) / PRODUCER_INTERVAL in
  slot (s_prevTimestamp s) < slot t2 /\
  slot (BlockHeader.m_timestamp (m_blockHeader (eh_getLastBlock face e))) < slot t2 /\
  s_address s = getAddress (producerPosition t2) (s_schedule s) /\
  eh_getBlockChainStatus face e = ProducerStatus.
Proof.
  cbv zeta. unfold checkProducer in Hok. destruct (t2 <? s_prevTimestamp s) eqn:E0; [done|]. apply Z.ltb_ge in E0.
  apply andb_true_iff in Hok as [[Ha Hts]%andb_true_iff Hst]. apply bool_decide_eq_true in Ha, Hst.
  unfold checkTimestamp in Hts. destruct (_ <=? s_prevTimestamp s - _) eqn:E1; [done|]. destruct (_ <=? _) eqn:E2 in Hts; [done|].
  apply Z.leb_gt in E1, E2. unfold blockSlice in *. rewrite Z.quot_div_nonneg in E1, E2 by (unfold PRODUCER_INTERVAL; lia).
  assert (forall x y, 0 <= x -> x < y / PRODUCER_INTERVAL * PRODUCER_INTERVAL -> x / PRODUCER_INTERVAL < y / PRODUCER_INTERVAL) as Hlt.
  { intros x y Hx Hxy. apply Z.div_lt_upper_bound; [unfold PRODUCER_INTERVAL|]; lia. }
  split; [apply Hlt; lia|]. split; [apply Hlt; lia|]. done.
Qed.

Definition idle_face : EventHandle unit :=
  mkHandle unit (fun _ => mkBlock (mkHeader 16 (addr 1) (zero_hash 32) (zero_hash 32) (zero_hash 32) (zero_hash 32) 1
                                     (GENESIS_TIMESTAMP + 1000) [] (BlockHeader.m_signature clear)) [] [] false)
    (fun _ => ProducerStatus) (fun e => (None, e)) (fun _ _ => true) (fun _ e => e).
Definition lone_server : ProducerServer :=
  mkServer 16 (addr 7) (zero_hash 32)
    (schedule [newProducer (addr 7) GENESIS_TIMESTAMP; newProducer (addr 5) GENESIS_TIMESTAMP] 0 (mkSchedule 0 [] 0 []))
    (GENESIS_TIMESTAMP + 100).

Lemma one_block_per_slot_witness :
  checkProducer idle_face lone_server (GENESIS_TIMESTAMP + 14010) tt = true /\
  addr 7 = getAddress (producerPosition (GENESIS_TIMESTAMP + 14010)) (s_schedule lone_server).
Proof.
  split; [vm_compute; reflexivity|].
  apply (one_block_per_slot idle_face lone_server (GENESIS_TIMESTAMP + 14010) tt).
  - cbn. lia.
  - cbn. lia.
  - vm_compute. reflexivity.
Defined.

(** ** The block a producer makes *)

(** One poll of the transaction cache. *)
Definition polled {E} (face : EventHandle E) (n : nat) (e : E) : E :=
  Nat.iter n (fun e => (eh_getTransactionFromCache face e).2) e.

Lemma fill_ok {E} (face : EventHandle E) n b e b' e' :
  fill face n b e = (Ok b', e') ->
  m_blockHeader b' = m_blockHeader b /\ e' = polled face n e /\
  exists txs, m_transactions b' = m_transactions b ++ txs /\ (Datatypes.length txs <= n)%nat.
Proof.
  revert b e. induction n as [|n IH]; intros b e Hf; cbn [fill] in Hf.
  { injection Hf as <- <-. split; [done|]. split; [done|]. exists []. by rewrite app_nil_r. }
  unfold polled. rewrite Nat.iter_succ_r. fold (polled face n (eh_getTransactionFromCache face e).2).
  destruct (eh_getTransactionFromCache face e) as [[tx|] e1]; cbn [snd].
  - destruct (Transaction.getHash tx) as [h|]; [|done]. apply IH in Hf as (Hh & He & txs & Ht & Hl).
    destruct (eh_checkTransactionNotExisted face h e1).
    + split; [done|]. split; [done|]. exists (tx :: txs). rewrite Ht. cbn. rewrite <- (assoc_L (++)). split; [done|lia].
    + split; [done|]. split; [done|]. exists txs. split; [done|lia].
  - apply IH in Hf as (Hh & He & txs & Ht & Hl). split; [done|]. split; [done|]. exists txs. split; [done|lia].
Qed.

Lemma setRoots_keeps b b' :
  Block.setRoots b = Ok b' ->
  m_transactions b' = m_transactions b /\
  exists m t r, m_blockHeader b' = BlockHeader.setRoots m t r (m_blockHeader b).
Proof.
  unfold Block.setRoots. generalize (Trie.trieHash256 ∅) as empty_root. intros empty_root.
  destruct (transactions_map _ _ _) as [txs|]; [cbn|discriminate].
  destruct (getTransactionMerkle b) as [m|]; [cbn|discriminate].
  destruct (Trie.trieHash256 txs) as [t|]; [cbn|discriminate].
  destruct empty_root as [r|]; [cbn|discriminate].
  intros [= <-]. split; [reflexivity|]. exact (ex_intro _ m (ex_intro _ t (ex_intro _ r eq_refl))).
Qed.

(** C39. Every block a producer broadcasts extends the last block: its number
    is one more, its parent is the last block, it carries the producer's own
    address and chain and the time at which the slot was checked, and at most
    four hundred transactions. It is broadcast, once and after exactly four
    hundred polls of the transaction cache, when these took less than three
    tenths of the interval. When it is not its turn the producer changes
    nothing, and after its turn it remembers the time. *)
Theorem produced_block_extends {E} (face : EventHandle E) crypto_sign sig_isValid h0 t tEnd s e s' e'
    (Hrun : doWork face crypto_sign sig_isValid h0 t tEnd s e = (Ok tt, (s', e'))) :
  (checkProducer face s t e = false /\ s' = s /\ e' = e) \/
  (checkProducer face s t e = true /\ s_prevTimestamp s' = t /\
   ((block_eqb (eh_getLastBlock face e) EmptyBlock = Ok true /\ e' = e) \/
    exists b, e' = (if u64 (tEnd - t) <? PRODUCER_INTERVAL * 3 / 10 then eh_broadcast face b (polled face 400 e)
                    else polled face 400 e) /\
      m_number (m_blockHeader b) = u64 (m_number (m_blockHeader (eh_getLastBlock face e)) + 1) /\
      Block.getHash (eh_getLastBlock face e) = Ok (m_parentHash (m_blockHeader b)) /\
      m_producer (m_blockHeader b) = s_address s /\ BlockHeader.m_chainID (m_blockHeader b) = s_chainID s /\
      BlockHeader.m_timestamp (m_blockHeader b) = t /\ (Datatypes.length (m_transactions b) <= 400)%nat)).
Proof.
  unfold doWork in Hrun. destruct (checkProducer face s t e) eqn:Ec; cbn [negb] in Hrun; [right|left; by injection Hrun as <- <-].
  split; [done|]. destruct (block_eqb _ EmptyBlock) as [[]|] eqn:Eb0; [|..|done].
  { injection Hrun as <- <-. split; [done|]. by left. }
  destruct (Block.getHash (eh_getLastBlock face e)) as [parent|] eqn:Eh; [|done].
  destruct (fill _ _ _ _) as [rb e1] eqn:Ef. destruct (rb ≫= _) as [b|] eqn:Eb; [|done]. injection Hrun as <- <-.
  split; [done|]. right. exists b. apply result_bind_inv in Eb as (b1 & -> & Eb).
  apply result_bind_inv in Eb as (b2 & Hr & Eb). apply result_bind_inv in Eb as (h & Hs & [= <-]).
  apply fill_ok in Ef as (Hh & -> & txs & Ht & Hl). apply setRoots_keeps in Hr as (Ht2 & m & tr & r & Hh2).
  unfold BlockHeader.sign in Hs. apply result_bind_inv in Hs as (hash & _ & [= <-]).
  split; [done|]. cbn [m_blockHeader m_transactions setBlockHeader].
  rewrite Ht2, Ht. rewrite Hh2, Hh. unfold MAX_TRANSACTIONS_PER_BLOCK in Hl. by case_match.
Qed.

(** A node that records what it is asked to broadcast. *)
Definition recording_face : EventHandle (list Block) :=
  mkHandle (list Block) (fun _ => eh_getLastBlock idle_face tt) (fun _ => ProducerStatus) (fun e => (None, e))
    (fun _ _ => true) (fun b e => e ++ [b]).
Abbreviation recorded_run :=
  (doWork recording_face (fun _ _ => zero_hash 65) (fun _ => true) clear
    (GENESIS_TIMESTAMP + 14010) (GENESIS_TIMESTAMP + 14020) lone_server []).

Lemma recorded_run_ok : recorded_run.1 = Ok tt.
Proof. vm_compute. reflexivity. Qed.

Lemma recorded_last_block : block_eqb (eh_getLastBlock recording_face []) EmptyBlock = Ok false.
Proof. vm_compute. reflexivity. Qed.

Lemma produced_block_extends_witness :
  exists b, recorded_run.2.2 = [b] /\ m_number (m_blockHeader b) = 2 /\ m_producer (m_blockHeader b) = addr 7.
Proof.
  pose proof recorded_run_ok as Hok. destruct recorded_run as [r [s' e']] eqn:Erun. cbn [fst snd] in *. subst r.
  destruct (produced_block_extends recording_face (fun _ _ => zero_hash 65) (fun _ => true) clear
    (GENESIS_TIMESTAMP + 14010) (GENESIS_TIMESTAMP + 14020) lone_server [] s' e' Erun)
    as [[Hc _]|(_ & _ & [[He _]|(b & He & Hn & _ & Hp & _)])].
  - exfalso. revert Hc. vm_compute. discriminate.
  - discriminate (eq_trans (eq_sym recorded_last_block) He).
  - exists b. split; [exact He|]. split; [exact Hn|exact Hp].
Defined.
