(* ===== verification/Caches.v ===== *)
(** * The queues and caches of the chain: core/Queue.h and the multi-index
    containers of chain/BlockChain.h

    [Queue] and [FixedQueue] keep their elements in a list, oldest first. The
    caches of transactions and blocks are containers with an [ordered_unique]
    index: the list of their elements in increasing order of the key. *)

From S2P Require Import Prelude.

Module Queue.

Definition push {T} (t : T) (q : list T) : list T := q ++ [t].
Definition pop_front {T} (q : list T) : list T := tail q.
Definition pop_back {T} (q : list T) : list T := removelast q.

(** [FixedQueue<T, N>::push]. *)
Definition fixed_push {T} (N : nat) (t : T) (q : list T) : list T :=
  push t (if (N <=? length q)%nat then pop_front q else q).

Definition fixed_isExist {T} `{EqDecision T} (t : T) (q : list T) : bool := bool_decide (t ∈ q).

(** Pushing a sequence into a fixed queue. *)
Definition fixed_pushes {T} (N : nat) (xs : list T) (q : list T) : list T := fold_left (fun q t => fixed_push N t q) xs q.

Lemma length_fixed_push {T} N (t : T) q : (0 < N)%nat -> (length q <= N)%nat -> (length (fixed_push N t q) <= N)%nat.
Proof.
  intros HN Hq. unfold fixed_push, push, pop_front. destruct (Nat.leb_spec N (length q)); rewrite length_app; cbn; [|lia].
  destruct q; cbn in *; lia.
Qed.

Lemma tail_drop {A} (l : list A) : tail l = drop 1 l.
Proof. by destruct l. Qed.

(** A fixed queue of capacity [N] is a window on the last [N] pushes: after
    any sequence of pushes it holds exactly the last [N] elements, in order, so
    [isExist] answers for the [N] most recent elements and for no older one. *)
Theorem fixed_queue_window {T} `{EqDecision T} (N : nat) (xs : list T) (HN : (0 < N)%nat) :
  fixed_pushes N xs [] = drop (length xs - N) xs /\ (length (fixed_pushes N xs []) <= N)%nat /\
  (forall t, fixed_isExist t (fixed_pushes N xs []) = true <->
             exists i, (length xs - N <= i)%nat /\ xs !! i = Some t).
Proof.
  assert (fixed_pushes N xs [] = drop (length xs - N) xs) as E.
  { induction xs as [|x xs IH] using rev_ind; [done|]. unfold fixed_pushes in *. rewrite fold_left_app, IH. cbn.
    unfold fixed_push, push, pop_front. rewrite length_drop, length_app. cbn. rewrite tail_drop, drop_drop.
    destruct (Nat.leb_spec N (length xs - (length xs - N))).
    - rewrite drop_app_le by lia. do 2 f_equal. lia.
    - rewrite drop_app_le by lia. do 2 f_equal. lia. }
  split; [done|]. rewrite E. split; [rewrite length_drop; lia|]. intros t. unfold fixed_isExist.
  rewrite bool_decide_eq_true, list_elem_of_lookup. setoid_rewrite lookup_drop. split.
  - intros [i Hi]. exists (length xs - N + i)%nat. split; [lia|done].
  - intros [i [Hi Hl]]. exists (i - (length xs - N))%nat. by rewrite Nat.add_comm, Nat.sub_add.
Qed.

Lemma fixed_queue_window_witness :
  fixed_pushes 2 [1; 2; 3] [] = [2; 3] /\
  (fixed_isExist 1 (fixed_pushes 2 [1; 2; 3] []) = true <-> exists i, (3 - 2 <= i)%nat /\ [1; 2; 3] !! i = Some 1).
Proof. split; [reflexivity|]. apply (fixed_queue_window 2 [1; 2; 3]). lia. Defined.

End Queue.

Module Ordered.
Section Ordered.
Context {A : Type} (key : A -> Z).

(** [insert(x)] of a container with an [ordered_unique] index on [key]: the
    container and whether [x] went in. *)
Fixpoint insert (x : A) (l : list A) : list A * bool :=
  match l with
  | [] => ([x], true)
  | y :: l' =>
      if key x <? key y then (x :: l, true)
      else if key x =? key y then (l, false)
      else let '(r, ok) := insert x l' in (y :: r, ok)
  end.

(** Erase the first element found. *)
Fixpoint erase (P : A -> bool) (l : list A) : list A :=
  match l with
  | [] => []
  | y :: l' => if P y then l' else y :: erase P l'
  end.

Definition ordered (l : list A) : Prop := StronglySorted (fun a b => key a < key b) l.

Lemma insert_spec x l : ordered l ->
  ordered (insert x l).1 /\
  (if (insert x l).2 then (forall y, y ∈ l -> key y <> key x) /\ (forall y, y ∈ (insert x l).1 <-> y = x \/ y ∈ l)
   else (insert x l).1 = l /\ exists y, y ∈ l /\ key y = key x).
Proof.
  induction l as [|y l IH]; intros Ho; cbn.
  - split; [repeat constructor|]. split; [by intros y ?%elem_of_nil|]. intros y. rewrite elem_of_cons. tauto.
  - apply StronglySorted_inv in Ho as [Ho Hy]. rewrite Forall_forall in Hy.
    destruct (Z.ltb_spec (key x) (key y)); [|destruct (Z.eqb_spec (key x) (key y))]; cbn.
    + split.
      * constructor; [constructor; [done|by rewrite Forall_forall]|]. constructor; [done|]. rewrite Forall_forall.
        intros z Hz. specialize (Hy z Hz). lia.
      * split; [|intros z; rewrite !elem_of_cons; tauto]. intros z [->|Hz]%elem_of_cons; [lia|]. specialize (Hy z Hz). lia.
    + split; [constructor; [done|by rewrite Forall_forall]|]. split; [done|]. exists y. split; [by left|done].
    + destruct (IH Ho) as [IH1 IH2]. destruct (insert x l) as [r ok]. cbn in *. destruct ok.
      * destruct IH2 as [H1 H2]. split.
        -- constructor; [done|]. rewrite Forall_forall. intros z [->|Hz]%H2; [lia|by apply Hy].
        -- split; [|intros z; rewrite !elem_of_cons, H2; tauto]. intros z [->|Hz]%elem_of_cons; [lia|by apply H1].
      * destruct IH2 as [-> [z [Hz Hk]]]. split; [constructor; [done|by rewrite Forall_forall]|]. split; [done|].
        exists z. split; [by right|done].
Qed.

Lemma erase_sublist P l : erase P l `sublist_of` l.
Proof. induction l as [|y l IH]; cbn; [done|]. destruct (P y); [by constructor|by constructor]. Qed.

Lemma ordered_sublist l k : l `sublist_of` k -> ordered k -> ordered l.
Proof.
  intros Hs. induction Hs as [|x l k Hs IH|x l k Hs IH]; intros Ho; [constructor|..]; apply StronglySorted_inv in Ho as [Ho Hx].
  - constructor; [by apply IH|]. rewrite Forall_forall in *. intros y Hy. apply Hx. by eapply elem_of_sublist.
  - by apply IH.
Qed.
End Ordered.
End Ordered.
