(* ===== verification/Crypto.v ===== *)
(** * Signatures: crypto/Common.cpp, crypto/GKey.cpp and crypto/Valid.cpp

    Keys, signatures in compact recoverable form with a low [s], and the
    signature checks of transactions, blocks and confirmations. The curve
    arithmetic is that of libsecp256k1: [Secp256k1] is its interface and
    [Secp256k1Laws] states what its documentation promises. *)

From S2P Require Import Prelude CommonData RLP RLPFacts FixedHash SHA3 Codec.
From S2P Require Import Transaction BlockHeader Block BlockState.

(** The order of the group, [c_secp256k1n] and [s_max]. *)
Definition c_secp256k1n : Z := 115792089237316195423570985008687907852837564279074904382605163141518161494337.

Class Secp256k1 : Type := {
  (** [secp256k1_ec_pubkey_create] and [_serialize] without the header byte. *)
  ec_pubkey_create : h256 -> option h512;
  (** [secp256k1_ecdsa_sign_recoverable(hash, key)] and
      [_serialize_compact]: [r], [s] and the recovery id. *)
  ecdsa_sign_recoverable : h256 -> h256 -> option (h256 * h256 * Z);
  (** [_parse_compact], [secp256k1_ecdsa_recover(sig, hash)] and
      [_serialize]. *)
  ecdsa_recover : h256 -> h256 -> Z -> h256 -> option h512
}.

Section Crypto.
Context `{Secp256k1}.

Definition toPublic (secret : h256) : h512 := default (zero_hash 64) (ec_pubkey_create secret).
Definition toAddress (pubKey : h512) : h160 := right160 (sha3 (vec_to_list pubKey)).

(** [recover(_sig, _message)]. *)
Definition recover (_sig : h520) (_message : h256) : h512 :=
  let s := sig_of_bytes _sig in
  if 3 <? sig_v s then zero_hash 64 else default (zero_hash 64) (ecdsa_recover (sig_r s) (sig_s s) (sig_v s) _message).

(** [sign(_k, _hash)]: the signature with the lower of the two [s]. *)
Definition low_s (r s : h256) (v : Z) : SignatureStruct :=
  if c_secp256k1n / 2 <? toArith s
  then mkSignature r (fromArith 32 ((c_secp256k1n - toArith s) mod 2 ^ 256)) (Z.lxor (u8 v) 1)
  else mkSignature r s (u8 v).
Definition sign (_k : h256) (_hash : h256) : h520 :=
  match ecdsa_sign_recoverable _hash _k with
  | None => zero_hash 65
  | Some (r, s, v) => sig_to_bytes (low_s r s v)
  end.

Definition verify (_p : h512) (_s : h520) (_hash : h256) : bool :=
  if negb (to_bool _p) then false else hash_eqb _p (recover _s _hash).

(** [SignatureStruct::isValid()]. *)
Definition isValid (sig : SignatureStruct) : bool :=
  (sig_v sig <=? 1) && hash_gtb (sig_r sig) (zero_hash 32) && hash_gtb (sig_s sig) (zero_hash 32)
  && hash_ltb (sig_r sig) (fromArith 32 c_secp256k1n) && hash_ltb (sig_s sig) (fromArith 32 c_secp256k1n).

(** [GKey(Secret const&)] and [setSecret]. *)
Record GKey : Type := mkGKey { k_secret : h256; k_public : h512; k_address : h160 }.
Definition newGKey (sec : h256) : GKey :=
  let pub := toPublic sec in
  mkGKey sec pub (if to_bool pub then toAddress pub else zero_hash 20).
Definition setSecret (sec : h256) : GKey := mkGKey sec (toPublic sec) (toAddress (toPublic sec)).

Definition sign_transaction (secret : h256) (tx : Transaction) : result Transaction :=
  Transaction.sign sign (fun sig => isValid (sig_of_bytes sig)) secret tx.
Definition sign_header (secret : h256) (h : BlockHeader) : result BlockHeader :=
  BlockHeader.sign sign isValid secret h.
(** [HeaderConfirmation::sign]. *)
Definition sign_confirmation (secret : h256) (c : HeaderConfirmation) : result HeaderConfirmation :=
  hash ← confirmation_getHash c;
  let sig := sign secret hash in
  Ok (if isValid (sig_of_bytes sig)
      then mkConfirmation (hc_chainID c) (hc_number c) (hc_blockID c) (hc_timestamp c) (hc_producer c) sig else c).

(** [validSignature] of a transaction, a block and a confirmation. *)
Definition validSignature_transaction (tx : Transaction) : result bool :=
  hash ← Transaction.getHash tx;
  Ok (hash_eqb (toAddress (recover (Transaction.m_signature tx) hash)) (Transaction.m_sender tx)).
Fixpoint valid_transactions (txs : list Transaction) : result bool :=
  match txs with
  | [] => Ok true
  | tx :: txs' => ok ← validSignature_transaction tx; if ok : bool then valid_transactions txs' else Ok false
  end.
Definition validSignature_block (b : Block) : result bool :=
  hash ← Block.getHash b;
  if negb (hash_eqb (toAddress (recover (sig_to_bytes (m_signature (m_blockHeader b))) hash)) (m_producer (m_blockHeader b)))
  then Ok false else valid_transactions (m_transactions b).
Definition validSignature_confirmation (c : HeaderConfirmation) : result bool :=
  hash ← confirmation_getHash c;
  Ok (hash_eqb (toAddress (recover (hc_signature c) hash)) (hc_producer c)).
End Crypto.

(** What libsecp256k1 documents: a signature has [r] and [s] between 1 and the
    order, a recovery id below 4, recovers to the public key of the signing
    key, and its mirror image ([n - s] and the other parity) does too. *)
Class Secp256k1Laws `{Secp256k1} : Prop := {
  sign_range : forall hash k r s v, ecdsa_sign_recoverable hash k = Some (r, s, v) ->
    0 < toArith r < c_secp256k1n /\ 0 < toArith s < c_secp256k1n /\ 0 <= v < 4;
  sign_recovers : forall hash k r s v, ecdsa_sign_recoverable hash k = Some (r, s, v) ->
    exists pub, ec_pubkey_create k = Some pub /\ ecdsa_recover r s v hash = Some pub;
  recover_mirror : forall hash r s v pub, 0 < toArith s < c_secp256k1n -> 0 <= v < 4 ->
    ecdsa_recover r s v hash = Some pub ->
    ecdsa_recover r (fromArith 32 (c_secp256k1n - toArith s)) (Z.lxor v 1) hash = Some pub
}.

Lemma sig_roundtrip s : 0 <= sig_v s < 256 -> sig_of_bytes (sig_to_bytes s) = s.
Proof.
  intros Hv. destruct s as [r s v]. unfold sig_of_bytes, sig_to_bytes. cbn [sig_r sig_s sig_v] in *.
  pose proof (length_vec_to_list r) as Lr. pose proof (length_vec_to_list s) as Ls.
  rewrite vec_to_list_of_bytes by (by rewrite !length_app, Lr, Ls).
  rewrite (take_app_length' (vec_to_list r)), (drop_app_length' (vec_to_list r)) by done.
  rewrite (take_app_length' (vec_to_list s)) by done. rewrite !vec_of_bytes_to_list. f_equal.
  rewrite app_nth2, Lr by (rewrite Lr; lia). rewrite app_nth2, Ls by (rewrite Ls; lia).
  cbn. rewrite bval_byte_of. unfold u8. by rewrite Z.mod_small.
Qed.

Lemma toArith_fromArith n : 0 <= n < 2 ^ 256 -> toArith (fromArith 32 n) = n.
Proof.
  intros Hn. rewrite toArith_val. unfold fromArith. rewrite vec_to_list_of_bytes by apply BigEndian.length_toBigEndian.
  rewrite BigEndian.be_val_toBigEndian by lia. by apply Z.mod_small.
Qed.

Lemma order_half : c_secp256k1n = 2 * (c_secp256k1n / 2) + 1 /\ 2 < c_secp256k1n < 2 ^ 256.
Proof. split; [reflexivity|]. unfold c_secp256k1n. lia. Qed.

Section Laws.
Context `{Secp256k1Laws}.

Lemma lxor_1_range v : 0 <= v < 4 -> 0 <= Z.lxor v 1 < 4.
Proof.
  intros Hv. assert (v = 0 \/ v = 1 \/ v = 2 \/ v = 3) as Hc by lia.
  destruct Hc as [-> |[-> |[-> | ->]]]; split; discriminate || reflexivity.
Qed.

(** The signature [sign] returns, with its range and the key it recovers to. *)
Lemma sign_spec hash k r s v :
  ecdsa_sign_recoverable hash k = Some (r, s, v) ->
  let sg := low_s r s v in
  sig_of_bytes (sign k hash) = sg /\ sig_r sg = r /\ 0 < toArith (sig_s sg) <= c_secp256k1n / 2 /\
  0 <= sig_v sg < 4 /\ recover (sign k hash) hash = toPublic k.
Proof.
  intros Hs. destruct (sign_range _ _ _ _ _ Hs) as (Hr & Hsr & Hv). destruct (sign_recovers _ _ _ _ _ Hs) as (pub & Hp & Hrec).
  assert (0 <= sig_v (low_s r s v) < 4 /\ sig_r (low_s r s v) = r /\ 0 < toArith (sig_s (low_s r s v)) <= c_secp256k1n / 2 /\
          ecdsa_recover r (sig_s (low_s r s v)) (sig_v (low_s r s v)) hash = Some pub) as (H1 & H2 & H3 & H4).
  { unfold low_s. rewrite u8_small by (unfold is_u8; lia). destruct order_half as [Hh Hn].
    destruct (_ <? toArith s) eqn:E; zify_bool; cbn [sig_v sig_r sig_s].
    - rewrite Z.mod_small by lia. rewrite toArith_fromArith by lia.
      split; [by apply lxor_1_range|]. split; [done|]. split; [lia|by apply recover_mirror].
    - split; [done|]. split; [done|]. split; [lia|done]. }
  cbv zeta. unfold sign. rewrite Hs. rewrite sig_roundtrip by lia. split; [done|]. split; [done|]. split; [done|]. split; [done|].
  unfold recover, toPublic. rewrite sig_roundtrip by lia. rewrite (proj2 (Z.ltb_ge 3 _)) by lia. by rewrite H2, H4, Hp.
Qed.

Lemma isValid_low r s v :
  0 < toArith r < c_secp256k1n -> 0 < toArith s < c_secp256k1n -> v <= 1 -> isValid (mkSignature r s v) = true.
Proof.
  intros Hr Hs Hv. unfold isValid. cbn [sig_r sig_s sig_v]. rewrite !hash_gtb_val, !hash_ltb_val, <- !toArith_val.
  assert (toArith (zero_hash 32) = 0) as -> by (vm_compute; reflexivity).
  rewrite toArith_fromArith by (destruct order_half; lia).
  rewrite (proj2 (Z.leb_le _ _) Hv), !(proj2 (Z.ltb_lt _ _)) by lia. done.
Qed.

Lemma sign_isValid hash k r s v :
  ecdsa_sign_recoverable hash k = Some (r, s, v) -> v <= 1 -> isValid (sig_of_bytes (sign k hash)) = true.
Proof.
  intros Hs Hv. destruct (sign_spec _ _ _ _ _ Hs) as (-> & Hr & Hlow & Hvr & _).
  destruct (sign_range _ _ _ _ _ Hs) as (Hrr & _ & Hv0).
  assert (sig_v (low_s r s v) <= 1) as Hv1.
  { unfold low_s. rewrite u8_small by (unfold is_u8; lia). assert (v = 0 \/ v = 1) as [-> | ->] by lia; case_match; discriminate. }
  destruct (low_s r s v) as [r' s' v']. cbn [sig_r sig_s sig_v] in *. subst r'. apply isValid_low; [done| |done].
  destruct order_half. lia.
Qed.

(** C31. A transaction signed with the key of its sender passes the signature
    check of every node, with a signature in low-[s] form that is accepted by
    [isValid]: signing changes nothing else, so the hash that is checked is the
    one that was signed. *)
Theorem signed_transaction_validates (tx : Transaction) (k h : h256) (r s : h256) (v : Z)
    (Hh : Transaction.getHash tx = Ok h) (Hsign : ecdsa_sign_recoverable h k = Some (r, s, v)) (Hv : v <= 1)
    (Hsender : Transaction.m_sender tx = toAddress (toPublic k)) :
  exists tx', sign_transaction k tx = Ok tx' /\ validSignature_transaction tx' = Ok true /\
    Transaction.getHash tx' = Ok h /\
    toArith (sig_s (sig_of_bytes (Transaction.m_signature tx'))) <= c_secp256k1n / 2.
Proof.
  unfold sign_transaction, Transaction.sign. unfold Transaction.getHash in Hh. 
  destruct (run (Transaction.streamRLPContent tx)) as [o|] eqn:Eo; [|discriminate]. cbn [mbind result_bind] in *.
  injection Hh as Ho. rewrite Ho. rewrite (sign_isValid _ _ _ _ _ Hsign Hv). eexists. split; [reflexivity|].
  destruct (sign_spec _ _ _ _ _ Hsign) as (Hsg & _ & Hlow & _ & Hrec).
  match goal with |- context [validSignature_transaction ?t] => set (tx' := t) end.
  assert (Transaction.getHash tx' = Ok h) as Hh'.
  { unfold Transaction.getHash. change (run (Transaction.streamRLPContent tx')) with (run (Transaction.streamRLPContent tx)).
    rewrite Eo. cbn [mbind result_bind]. by rewrite Ho. }
  unfold validSignature_transaction. rewrite Hh'. cbn [mbind result_bind]. change (Transaction.m_signature tx') with (sign k h).
  rewrite Hrec, Hsg. change (Transaction.m_sender tx') with (Transaction.m_sender tx). rewrite Hsender.
  split; [unfold hash_eqb; by rewrite bool_decide_eq_true_2|]. split; [done|]. apply Hlow.
Qed.

(** The same for confirmations. *)
Lemma signed_confirmation_validates c k h r s v :
  confirmation_getHash c = Ok h -> ecdsa_sign_recoverable h k = Some (r, s, v) -> v <= 1 ->
  hc_producer c = toAddress (toPublic k) ->
  exists c', sign_confirmation k c = Ok c' /\ validSignature_confirmation c' = Ok true.
Proof.
  intros Hh Hsign Hv Hp. unfold sign_confirmation. rewrite Hh. cbn [mbind result_bind].
  rewrite (sign_isValid _ _ _ _ _ Hsign Hv). eexists. split; [reflexivity|].
  destruct (sign_spec _ _ _ _ _ Hsign) as (_ & _ & _ & _ & Hrec). unfold validSignature_confirmation.
  match goal with |- context [confirmation_getHash ?t] => change (confirmation_getHash t) with (confirmation_getHash c) end.
  rewrite Hh. cbn [mbind result_bind hc_signature hc_producer]. rewrite Hrec, Hp. unfold hash_eqb. by rewrite bool_decide_eq_true_2.
Qed.
End Laws.

(** ** An instance

    A scheme in which the public key is the secret written twice satisfies the
    laws. *)

Definition toy_public (k : h256) : h512 := vec_of_bytes 64 (vec_to_list k ++ vec_to_list k).

Definition toy_secp : Secp256k1 := {|
  ec_pubkey_create := fun k => Some (toy_public k);
  ecdsa_sign_recoverable := fun _ k =>
    if (0 <? toArith k) && (toArith k <? c_secp256k1n) then Some (k, fromArith 32 (c_secp256k1n - 1), 0) else None;
  ecdsa_recover := fun r _ _ _ => Some (toy_public r)
|}.

Lemma toy_laws : @Secp256k1Laws toy_secp.
Proof.
  destruct order_half as [_ Hn]. split; cbn [toy_secp ec_pubkey_create ecdsa_sign_recoverable ecdsa_recover].
  - intros hash k r s v Hs. destruct (0 <? toArith k) eqn:E1; [|done]. destruct (toArith k <? c_secp256k1n) eqn:E2; [|done].
    cbn [andb] in Hs. injection Hs as <- <- <-. rewrite toArith_fromArith by lia. zify_bool. lia.
  - intros hash k r s v Hs. exists (toy_public k). destruct (_ && _); [|done]. by injection Hs as <- _ _.
  - intros. done.
Qed.

Definition toy_key : h256 := fromArith 32 5.
Definition toy_tx : Transaction :=
  mkTransaction 16 TransferType (toAddress (@toPublic toy_secp toy_key)) (zero_hash 20) 1538352001000 [] 7 (zero_hash 65).

Lemma signed_transaction_validates_witness :
  exists tx', @sign_transaction toy_secp toy_key toy_tx = Ok tx' /\ @validSignature_transaction toy_secp tx' = Ok true.
Proof.
  destruct (@signed_transaction_validates toy_secp toy_laws toy_tx toy_key
    (sha3 (Spec.enc_list (Transaction.content_fields toy_tx))) toy_key (fromArith 32 (c_secp256k1n - 1)) 0) as (tx' & H1 & H2 & _).
  - unfold Transaction.getHash. rewrite transaction_content_enc; [reflexivity|].
    split; first [reflexivity | split; [discriminate|reflexivity]].
  - vm_compute. reflexivity.
  - lia.
  - reflexivity.
  - exact (ex_intro _ tx' (conj H1 H2)).
Defined.
