(* ===== verification/BlockChain.v ===== *)
(** * The chain: chain/BlockChain.{h,cpp}

    The object that takes blocks and transactions from the network, the RPC
    service and the producer, executes blocks on a queue of repositories over
    the database, follows the fork database and stores what became final.

    Repositories are shared: the repository of a queued block has the one
    before it as its parent. The queue therefore holds the layers, oldest
    block first; [bc_detached] are the repositories that the first one still
    has as parents although their blocks left the queue (none, unless a commit
    was interrupted by an exception). *)

From S2P Require Import Prelude CommonData RLP RLPFacts FixedHash SHA3 Codec.
From S2P Require Import Account Producer Transaction TransactionReceipt BlockHeader Block Status BlockState RollbackState.
From S2P Require Import AttributeState Database Ledger Actions Repository Schedule Caches Crypto.
Import Decoder.

(** ** The objects around the chain *)

(** What the chain asks of its owner, [BlockChainMessageFace], and what it
    tells its observers. Endpoints are named by their rank in the order of
    their addresses. *)
Abbreviation endpoint := Z (only parsing).

Inductive Event : Type :=
  | HeightEvent (number : Z)
  | SolidifyHeightEvent (number : Z)
  | BlockEvent (b : Block)
  | TransactionEvent (tx : Transaction)
  | SnapshotEvent (ps : ProducerSnapshot)
  | ActiveEvent (ps : ProducerSnapshot).

Record MessageFace (E : Type) : Type := mkMessageFace {
  broadcast_block : endpoint -> Block -> ST E unit;
  broadcast_tx : endpoint -> Transaction -> ST E unit;
  send_confirmation : HeaderConfirmation -> ST E unit;
  send_status : endpoint -> Status -> ST E unit;
  send_blockState : endpoint -> BlockState -> ST E unit;
  face_schedule : list Producer -> Z -> ST E unit;
  getProducerAddress : Z -> E -> h160;
  getSortedProducerList : E -> list Producer;
  face_getProducerSnapshot : E -> ProducerSnapshot;
  notify : Event -> ST E unit
}.
Arguments broadcast_block {E} _ _ _.
Arguments broadcast_tx {E} _ _ _.
Arguments send_confirmation {E} _ _.
Arguments send_status {E} _ _ _.
Arguments send_blockState {E} _ _ _.
Arguments face_schedule {E} _ _ _.
Arguments getProducerAddress {E} _ _ _.
Arguments getSortedProducerList {E} _ _.
Arguments face_getProducerSnapshot {E} _ _.
Arguments notify {E} _ _.

(** chain/Sync.h: the heights the peers reported, in the order of their
    endpoints. *)
Inductive SyncRun := Ready | Running | Stop.
Record SyncState : Type := mkSync {
  sy_state : SyncRun;
  sy_prevTimestamp : Z;
  sy_heights : list (endpoint * Z)
}.

(** [m_heights[from] = height]. *)
Fixpoint heights_set (from : endpoint) (height : Z) (l : list (endpoint * Z)) : list (endpoint * Z) :=
  match l with
  | [] => [(from, height)]
  | (e, h) :: l' =>
      if from <? e then (from, height) :: l
      else if from =? e then (from, height) :: l'
      else (e, h) :: heights_set from height l'
  end.

(** [Sync::update(from, height)]. *)
Definition sync_update (from : endpoint) (height : Z) (s : SyncState) : SyncState :=
  mkSync (sy_state s) (sy_prevTimestamp s) (heights_set from height (sy_heights s)).

(** A block under execution, with its repository. *)
Record MemoryItem : Type := mkItem {
  mi_isDone : bool;
  mi_blockNumber : Z;
  mi_layer : Layer
}.
Definition set_layer (it : MemoryItem) (l : Layer) : MemoryItem := mkItem (mi_isDone it) (mi_blockNumber it) l.
Definition setDone (it : MemoryItem) : MemoryItem := mkItem true (mi_blockNumber it) (mi_layer it).

Definition SCHEDULE_UPDATE_ROUNDS : Z := 20.
Definition BLOCK_BONUS_BASE : Z := 512000000.
Definition MILLISECONDS_PER_YEAR : Z := 31536000000.

Section Chain.
Context {DB E : Type} `{KVStore DB} `{Secp256k1} (face : MessageFace E).
(** The indeterminate contents of default-constructed headers, block states,
    status messages and confirmation counters. *)
Variables (h0 : BlockHeader) (s0 : BlockState) (u0 : Status) (count0 : Z).

Record BlockChain : Type := mkChain {
  bc_dbc : @DatabaseController DB;
  bc_globals : Globals;
  bc_face : E;
  bc_key : GKey;
  bc_chainID : Z;
  bc_sync : option SyncState;
  bc_memoryQueue : list MemoryItem;
  bc_detached : list Layer;
  bc_rollbackState : RollbackState;
  bc_head : option ptr;
  bc_status : BlockChainStatus;
  bc_historyTxCache : list h256;
  bc_historyBlockCache : list h256;
  bc_txCache : list Transaction;
  bc_blockCache : list Block;
  bc_activeProducers : ProducerSnapshot;
  bc_prevPS : ProducerSnapshot;
  bc_currentPS : ProducerSnapshot;
  bc_latestNumber : Z;
  bc_latestBlock : Block;
  bc_producerRecord : gmap h160 Z;
  bc_scheduleUpdate : Z
}.

Definition with_dbc (v : @DatabaseController DB) (c : BlockChain) : BlockChain :=
  mkChain v (bc_globals c) (bc_face c) (bc_key c) (bc_chainID c) (bc_sync c) (bc_memoryQueue c) (bc_detached c)
    (bc_rollbackState c) (bc_head c) (bc_status c) (bc_historyTxCache c) (bc_historyBlockCache c) (bc_txCache c)
    (bc_blockCache c) (bc_activeProducers c) (bc_prevPS c) (bc_currentPS c) (bc_latestNumber c) (bc_latestBlock c)
    (bc_producerRecord c) (bc_scheduleUpdate c).
Definition with_globals (v : Globals) (c : BlockChain) : BlockChain :=
  mkChain (bc_dbc c) v (bc_face c) (bc_key c) (bc_chainID c) (bc_sync c) (bc_memoryQueue c) (bc_detached c)
    (bc_rollbackState c) (bc_head c) (bc_status c) (bc_historyTxCache c) (bc_historyBlockCache c) (bc_txCache c)
    (bc_blockCache c) (bc_activeProducers c) (bc_prevPS c) (bc_currentPS c) (bc_latestNumber c) (bc_latestBlock c)
    (bc_producerRecord c) (bc_scheduleUpdate c).
Definition with_face (v : E) (c : BlockChain) : BlockChain :=
  mkChain (bc_dbc c) (bc_globals c) v (bc_key c) (bc_chainID c) (bc_sync c) (bc_memoryQueue c) (bc_detached c)
    (bc_rollbackState c) (bc_head c) (bc_status c) (bc_historyTxCache c) (bc_historyBlockCache c) (bc_txCache c)
    (bc_blockCache c) (bc_activeProducers c) (bc_prevPS c) (bc_currentPS c) (bc_latestNumber c) (bc_latestBlock c)
    (bc_producerRecord c) (bc_scheduleUpdate c).
Definition with_key (v : GKey) (c : BlockChain) : BlockChain :=
  mkChain (bc_dbc c) (bc_globals c) (bc_face c) v (bc_chainID c) (bc_sync c) (bc_memoryQueue c) (bc_detached c)
    (bc_rollbackState c) (bc_head c) (bc_status c) (bc_historyTxCache c) (bc_historyBlockCache c) (bc_txCache c)
    (bc_blockCache c) (bc_activeProducers c) (bc_prevPS c) (bc_currentPS c) (bc_latestNumber c) (bc_latestBlock c)
    (bc_producerRecord c) (bc_scheduleUpdate c).
Definition with_chainID (v : Z) (c : BlockChain) : BlockChain :=
  mkChain (bc_dbc c) (bc_globals c) (bc_face c) (bc_key c) v (bc_sync c) (bc_memoryQueue c) (bc_detached c)
    (bc_rollbackState c) (bc_head c) (bc_status c) (bc_historyTxCache c) (bc_historyBlockCache c) (bc_txCache c)
    (bc_blockCache c) (bc_activeProducers c) (bc_prevPS c) (bc_currentPS c) (bc_latestNumber c) (bc_latestBlock c)
    (bc_producerRecord c) (bc_scheduleUpdate c).
Definition with_sync (v : option SyncState) (c : BlockChain) : BlockChain :=
  mkChain (bc_dbc c) (bc_globals c) (bc_face c) (bc_key c) (bc_chainID c) v (bc_memoryQueue c) (bc_detached c)
    (bc_rollbackState c) (bc_head c) (bc_status c) (bc_historyTxCache c) (bc_historyBlockCache c) (bc_txCache c)
    (bc_blockCache c) (bc_activeProducers c) (bc_prevPS c) (bc_currentPS c) (bc_latestNumber c) (bc_latestBlock c)
    (bc_producerRecord c) (bc_scheduleUpdate c).
Definition with_queue (v : list MemoryItem) (c : BlockChain) : BlockChain :=
  mkChain (bc_dbc c) (bc_globals c) (bc_face c) (bc_key c) (bc_chainID c) (bc_sync c) v (bc_detached c)
    (bc_rollbackState c) (bc_head c) (bc_status c) (bc_historyTxCache c) (bc_historyBlockCache c) (bc_txCache c)
    (bc_blockCache c) (bc_activeProducers c) (bc_prevPS c) (bc_currentPS c) (bc_latestNumber c) (bc_latestBlock c)
    (bc_producerRecord c) (bc_scheduleUpdate c).
Definition with_detached (v : list Layer) (c : BlockChain) : BlockChain :=
  mkChain (bc_dbc c) (bc_globals c) (bc_face c) (bc_key c) (bc_chainID c) (bc_sync c) (bc_memoryQueue c) v
    (bc_rollbackState c) (bc_head c) (bc_status c) (bc_historyTxCache c) (bc_historyBlockCache c) (bc_txCache c)
    (bc_blockCache c) (bc_activeProducers c) (bc_prevPS c) (bc_currentPS c) (bc_latestNumber c) (bc_latestBlock c)
    (bc_producerRecord c) (bc_scheduleUpdate c).
Definition with_rollback (v : RollbackState) (c : BlockChain) : BlockChain :=
  mkChain (bc_dbc c) (bc_globals c) (bc_face c) (bc_key c) (bc_chainID c) (bc_sync c) (bc_memoryQueue c)
    (bc_detached c) v (bc_head c) (bc_status c) (bc_historyTxCache c) (bc_historyBlockCache c) (bc_txCache c)
    (bc_blockCache c) (bc_activeProducers c) (bc_prevPS c) (bc_currentPS c) (bc_latestNumber c) (bc_latestBlock c)
    (bc_producerRecord c) (bc_scheduleUpdate c).
Definition with_head (v : option ptr) (c : BlockChain) : BlockChain :=
  mkChain (bc_dbc c) (bc_globals c) (bc_face c) (bc_key c) (bc_chainID c) (bc_sync c) (bc_memoryQueue c)
    (bc_detached c) (bc_rollbackState c) v (bc_status c) (bc_historyTxCache c) (bc_historyBlockCache c) (bc_txCache c)
    (bc_blockCache c) (bc_activeProducers c) (bc_prevPS c) (bc_currentPS c) (bc_latestNumber c) (bc_latestBlock c)
    (bc_producerRecord c) (bc_scheduleUpdate c).
Definition with_status (v : BlockChainStatus) (c : BlockChain) : BlockChain :=
  mkChain (bc_dbc c) (bc_globals c) (bc_face c) (bc_key c) (bc_chainID c) (bc_sync c) (bc_memoryQueue c)
    (bc_detached c) (bc_rollbackState c) (bc_head c) v (bc_historyTxCache c) (bc_historyBlockCache c) (bc_txCache c)
    (bc_blockCache c) (bc_activeProducers c) (bc_prevPS c) (bc_currentPS c) (bc_latestNumber c) (bc_latestBlock c)
    (bc_producerRecord c) (bc_scheduleUpdate c).
Definition with_historyTx (v : list h256) (c : BlockChain) : BlockChain :=
  mkChain (bc_dbc c) (bc_globals c) (bc_face c) (bc_key c) (bc_chainID c) (bc_sync c) (bc_memoryQueue c)
    (bc_detached c) (bc_rollbackState c) (bc_head c) (bc_status c) v (bc_historyBlockCache c) (bc_txCache c)
    (bc_blockCache c) (bc_activeProducers c) (bc_prevPS c) (bc_currentPS c) (bc_latestNumber c) (bc_latestBlock c)
    (bc_producerRecord c) (bc_scheduleUpdate c).
Definition with_historyBlocks (v : list h256) (c : BlockChain) : BlockChain :=
  mkChain (bc_dbc c) (bc_globals c) (bc_face c) (bc_key c) (bc_chainID c) (bc_sync c) (bc_memoryQueue c)
    (bc_detached c) (bc_rollbackState c) (bc_head c) (bc_status c) (bc_historyTxCache c) v (bc_txCache c)
    (bc_blockCache c) (bc_activeProducers c) (bc_prevPS c) (bc_currentPS c) (bc_latestNumber c) (bc_latestBlock c)
    (bc_producerRecord c) (bc_scheduleUpdate c).
Definition with_txCache (v : list Transaction) (c : BlockChain) : BlockChain :=
  mkChain (bc_dbc c) (bc_globals c) (bc_face c) (bc_key c) (bc_chainID c) (bc_sync c) (bc_memoryQueue c)
    (bc_detached c) (bc_rollbackState c) (bc_head c) (bc_status c) (bc_historyTxCache c) (bc_historyBlockCache c) v
    (bc_blockCache c) (bc_activeProducers c) (bc_prevPS c) (bc_currentPS c) (bc_latestNumber c) (bc_latestBlock c)
    (bc_producerRecord c) (bc_scheduleUpdate c).
Definition with_blockCache (v : list Block) (c : BlockChain) : BlockChain :=
  mkChain (bc_dbc c) (bc_globals c) (bc_face c) (bc_key c) (bc_chainID c) (bc_sync c) (bc_memoryQueue c)
    (bc_detached c) (bc_rollbackState c) (bc_head c) (bc_status c) (bc_historyTxCache c) (bc_historyBlockCache c)
    (bc_txCache c) v (bc_activeProducers c) (bc_prevPS c) (bc_currentPS c) (bc_latestNumber c) (bc_latestBlock c)
    (bc_producerRecord c) (bc_scheduleUpdate c).
Definition with_active (v : ProducerSnapshot) (c : BlockChain) : BlockChain :=
  mkChain (bc_dbc c) (bc_globals c) (bc_face c) (bc_key c) (bc_chainID c) (bc_sync c) (bc_memoryQueue c)
    (bc_detached c) (bc_rollbackState c) (bc_head c) (bc_status c) (bc_historyTxCache c) (bc_historyBlockCache c)
    (bc_txCache c) (bc_blockCache c) v (bc_prevPS c) (bc_currentPS c) (bc_latestNumber c) (bc_latestBlock c)
    (bc_producerRecord c) (bc_scheduleUpdate c).
Definition with_prevPS (v : ProducerSnapshot) (c : BlockChain) : BlockChain :=
  mkChain (bc_dbc c) (bc_globals c) (bc_face c) (bc_key c) (bc_chainID c) (bc_sync c) (bc_memoryQueue c)
    (bc_detached c) (bc_rollbackState c) (bc_head c) (bc_status c) (bc_historyTxCache c) (bc_historyBlockCache c)
    (bc_txCache c) (bc_blockCache c) (bc_activeProducers c) v (bc_currentPS c) (bc_latestNumber c) (bc_latestBlock c)
    (bc_producerRecord c) (bc_scheduleUpdate c).
Definition with_currentPS (v : ProducerSnapshot) (c : BlockChain) : BlockChain :=
  mkChain (bc_dbc c) (bc_globals c) (bc_face c) (bc_key c) (bc_chainID c) (bc_sync c) (bc_memoryQueue c)
    (bc_detached c) (bc_rollbackState c) (bc_head c) (bc_status c) (bc_historyTxCache c) (bc_historyBlockCache c)
    (bc_txCache c) (bc_blockCache c) (bc_activeProducers c) (bc_prevPS c) v (bc_latestNumber c) (bc_latestBlock c)
    (bc_producerRecord c) (bc_scheduleUpdate c).
Definition with_latestNumber (v : Z) (c : BlockChain) : BlockChain :=
  mkChain (bc_dbc c) (bc_globals c) (bc_face c) (bc_key c) (bc_chainID c) (bc_sync c) (bc_memoryQueue c)
    (bc_detached c) (bc_rollbackState c) (bc_head c) (bc_status c) (bc_historyTxCache c) (bc_historyBlockCache c)
    (bc_txCache c) (bc_blockCache c) (bc_activeProducers c) (bc_prevPS c) (bc_currentPS c) v (bc_latestBlock c)
    (bc_producerRecord c) (bc_scheduleUpdate c).
Definition with_latestBlock (v : Block) (c : BlockChain) : BlockChain :=
  mkChain (bc_dbc c) (bc_globals c) (bc_face c) (bc_key c) (bc_chainID c) (bc_sync c) (bc_memoryQueue c)
    (bc_detached c) (bc_rollbackState c) (bc_head c) (bc_status c) (bc_historyTxCache c) (bc_historyBlockCache c)
    (bc_txCache c) (bc_blockCache c) (bc_activeProducers c) (bc_prevPS c) (bc_currentPS c) (bc_latestNumber c) v
    (bc_producerRecord c) (bc_scheduleUpdate c).
Definition with_record (v : gmap h160 Z) (c : BlockChain) : BlockChain :=
  mkChain (bc_dbc c) (bc_globals c) (bc_face c) (bc_key c) (bc_chainID c) (bc_sync c) (bc_memoryQueue c)
    (bc_detached c) (bc_rollbackState c) (bc_head c) (bc_status c) (bc_historyTxCache c) (bc_historyBlockCache c)
    (bc_txCache c) (bc_blockCache c) (bc_activeProducers c) (bc_prevPS c) (bc_currentPS c) (bc_latestNumber c)
    (bc_latestBlock c) v (bc_scheduleUpdate c).
Definition with_scheduleUpdate (v : Z) (c : BlockChain) : BlockChain :=
  mkChain (bc_dbc c) (bc_globals c) (bc_face c) (bc_key c) (bc_chainID c) (bc_sync c) (bc_memoryQueue c)
    (bc_detached c) (bc_rollbackState c) (bc_head c) (bc_status c) (bc_historyTxCache c) (bc_historyBlockCache c)
    (bc_txCache c) (bc_blockCache c) (bc_activeProducers c) (bc_prevPS c) (bc_currentPS c) (bc_latestNumber c)
    (bc_latestBlock c) (bc_producerRecord c) v.

(** ** State access *)

Definition chain_modify (f : BlockChain -> BlockChain) : ST BlockChain unit := st_modify f.
Definition chain_read {A} (f : BlockChain -> A) : ST BlockChain A := fun c => (Ok (f c), c).

(** Run an action of the owner. *)
Definition on_face {A} (m : ST E A) : ST BlockChain A := fun c =>
  let '(x, e) := m (bc_face c) in (x, with_face e c).

(** The repositories reachable from the last queued block, nearest first. *)
Definition layers (c : BlockChain) : list Layer := rev (map mi_layer (bc_memoryQueue c)) ++ bc_detached c.

Definition store_layers (ls : list Layer) (c : BlockChain) : BlockChain :=
  let n := Datatypes.length (bc_memoryQueue c) in
  with_detached (drop n ls) (with_queue (rev (zip_with set_layer (rev (bc_memoryQueue c)) (take n ls))) c).

(** Run an action of the repository of the last queued block. *)
Definition on_back {A} (m : ST (Repository DB) A) : ST BlockChain A := fun c =>
  match bc_memoryQueue c, layers c with
  | _ :: _, l :: ls => let '(x, r) := m (mkRepo (bc_dbc c) l ls) in (x, store_layers (top r :: parents r) c)
  | _, _ => (Throw Undefined, c)
  end.

(** Run an action of a new repository of [EmptyBlock] on top of the queue. *)
Definition on_temp {A} (m : ST (Repository DB) A) : ST BlockChain A := fun c =>
  let ls := match bc_memoryQueue c with [] => [] | _ :: _ => layers c end in
  let '(x, r) := m (mkRepo (bc_dbc c) (new_layer EmptyBlock) ls) in
  (x, match bc_memoryQueue c with [] => c | _ :: _ => store_layers (parents r) c end).

(** Change the global attributes, and the database, by an operation that may
    throw; what it had written before it threw is not followed. *)
Definition on_dbc (f : @DatabaseController DB -> result (@DatabaseController DB)) : ST BlockChain unit := fun c =>
  match f (bc_dbc c) with
  | Ok d => (Ok tt, with_dbc d c)
  | Throw e => (Throw e, c)
  end.

Definition getSolidifyHeight (c : BlockChain) : Z := m_value (ATTRIBUTE_CURRENT_BLOCK_HEIGHT (bc_globals c)).
Definition getLastBlockNumber (c : BlockChain) : Z := bc_latestNumber c.
Definition getLastBlock (c : BlockChain) : Block := bc_latestBlock c.

(** ** The queue of blocks under execution *)

Definition addMemoryItem (block : Block) (c : BlockChain) : BlockChain :=
  let it := mkItem false (m_number (m_blockHeader block)) (new_layer block) in
  with_detached (match bc_memoryQueue c with [] => [] | _ :: _ => bc_detached c end)
    (with_queue (Queue.push it (bc_memoryQueue c)) c).

Definition cancelMemoryItem (c : BlockChain) : BlockChain := with_queue (Queue.pop_back (bc_memoryQueue c)) c.

Definition deref (p : option ptr) (c : BlockChain) : option BlockState :=
  p ≫= fun p => heap (bc_rollbackState c) !! p.

(** [popBlockState()]. *)
Definition popBlockState : ST BlockChain unit := fun c =>
  match deref (bc_head c) c with
  | None => (Throw Undefined, c)
  | Some h =>
      match RollbackState.getBlock (getPrev h) (bc_rollbackState c) with
      | None => (Throw BlockChainException, c)
      | Some prev => (Ok tt, cancelMemoryItem (with_head (Some prev) c))
      end
  end.

(** [getBlockByNumber(number)]. *)
Definition getBlockByNumber (number : Z) (c : BlockChain) : result Block :=
  if bc_latestNumber c <? number then Ok EmptyBlock
  else
    let queued :=
      if number <=? m_solidifyNumber (bc_rollbackState c) then None
      else match bc_memoryQueue c, last (bc_memoryQueue c) with
           | itemS :: _, Some itemE =>
               if (mi_blockNumber itemS <=? number) && (number <=? mi_blockNumber itemE)
               then List.find (fun it => mi_blockNumber it =? number) (bc_memoryQueue c)
               else None
           | _, _ => None
           end in
    match queued with
    | Some it => Ok (Repository.m_block (mi_layer it))
    | None => Database.getBlockByNumber h0 number (bc_dbc c)
    end.

(** [getBlockStateByNumber(number)]. *)
Definition getBlockStateByNumber (number : Z) (c : BlockChain) : BlockState :=
  match (if m_solidifyNumber (bc_rollbackState c) <=? number
         then deref (RollbackState.getBlockByNumber number (bc_rollbackState c)) c else None) with
  | Some s => s
  | None => Database.getBlockStateByNumber s0 number (bc_dbc c)
  end.

(** ** The caches *)

Definition tx_is (id : h256) (tx : Transaction) : bool :=
  match Transaction.getHash tx with Ok h => hash_eqb h id | Throw _ => false end.
Definition block_is (id : h256) (b : Block) : bool :=
  match Block.getHash b with Ok h => hash_eqb h id | Throw _ => false end.

Definition insert_tx (tx : Transaction) (c : BlockChain) : BlockChain :=
  with_txCache (Ordered.insert Transaction.m_timestamp tx (bc_txCache c)).1 c.
Definition insert_block (b : Block) (c : BlockChain) : BlockChain :=
  with_blockCache (Ordered.insert (fun b => m_number (m_blockHeader b)) b (bc_blockCache c)).1 c.

Definition getTransactionFromCache (c : BlockChain) : option Transaction * BlockChain :=
  match bc_txCache c with
  | [] => (None, c)
  | tx :: rest => (Some tx, with_txCache rest c)
  end.
Definition getBlockFromCache (c : BlockChain) : option Block * BlockChain :=
  match bc_blockCache c with
  | [] => (None, c)
  | b :: rest => (Some b, with_blockCache rest c)
  end.

(** [eraseSolicitedTx(block)]. *)
Definition eraseSolicitedTx (block : Block) : ST BlockChain unit :=
  st_foreach (fun tx => h ← st_lift (Transaction.getHash tx);
                        chain_modify (fun c => with_txCache (Ordered.erase (tx_is h) (bc_txCache c)) c)) (m_transactions block).

(** [processProducerBlock(block)]. *)
Definition processProducerBlock (block : Block) (c : BlockChain) : bool * BlockChain :=
  if m_number (m_blockHeader block) <=? getSolidifyHeight c then (false, c) else (true, insert_block block c).

(** ** Producers *)

(** [getProducerListFromRepo()]: the producers in the order of their
    addresses. *)
Definition getProducerListFromRepo (c : BlockChain) : result (list Producer) :=
  m ← match bc_memoryQueue c, layers c with
      | _ :: _, l :: ls => Repository.getProducerList (mkRepo (bc_dbc c) l ls)
      | _, _ => Database.getProducerList (bc_dbc c)
      end;
  Ok (map snd (map_entries m)).

(** [schedule(timestamp)]. *)
Definition schedule (timestamp : Z) : ST BlockChain unit :=
  updated ← (fun c => (getProducerListFromRepo c, c));
  _ ← chain_modify (fun c => with_prevPS (bc_currentPS c) c);
  _ ← chain_modify (fun c =>
        let ps := fold_left (fun ps p => addProducer p ps) updated (mkSnapshot (s_timestamp (bc_currentPS c)) []) in
        with_currentPS (mkSnapshot timestamp (s_producers ps)) c);
  current ← chain_read bc_currentPS;
  _ ← on_face (face_schedule face (s_producers current) timestamp);
  ps ← chain_read (fun c => face_getProducerSnapshot face (bc_face c));
  _ ← on_face (notify face (SnapshotEvent ps));
  prev ← chain_read bc_prevPS;
  prevData ← st_lift (snapshot_getRLPData prev);
  _ ← chain_modify (fun c => with_globals (set_prev (setData prevData (ATTRIBUTE_PREV_PRODUCER_LIST (bc_globals c))) (bc_globals c)) c);
  t ← chain_read (fun c => ATTRIBUTE_PREV_PRODUCER_LIST (bc_globals c));
  _ ← on_dbc (putAttribute t);
  currentData ← st_lift (snapshot_getRLPData current);
  _ ← chain_modify (fun c =>
        with_globals (set_current (setData currentData (ATTRIBUTE_CURRENT_PRODUCER_LIST (bc_globals c))) (bc_globals c)) c);
  t ← chain_read (fun c => ATTRIBUTE_CURRENT_PRODUCER_LIST (bc_globals c));
  on_dbc (putAttribute t).

(** [pushSchedule()]. *)
Definition pushSchedule : ST BlockChain unit :=
  prev ← chain_read bc_prevPS;
  _ ← on_face (face_schedule face (s_producers prev) (s_timestamp prev));
  current ← chain_read bc_currentPS;
  on_face (face_schedule face (s_producers current) (s_timestamp current)).

Definition getExpectedProducer (timestamp : Z) (c : BlockChain) : h160 :=
  getProducerAddress face (producerPosition timestamp) (bc_face c).

(** [checkProducer(block)]. *)
Definition checkProducer (block : Block) (c : BlockChain) : bool :=
  let timestamp := BlockHeader.m_timestamp (m_blockHeader block) in
  let slice := blockSlice timestamp in
  let producer := m_producer (m_blockHeader block) in
  if negb (hash_eqb producer (getExpectedProducer timestamp c)) then false
  else if match bc_producerRecord c !! producer with
          | Some t => slice <=? t - GENESIS_TIMESTAMP
          | None => false
          end then false
  else if slice <=? bc_scheduleUpdate c - GENESIS_TIMESTAMP then false
  else true.

(** [updateProducerRecord()]; [m_producerRecord[address]] makes a zero entry
    for a producer without one. *)
Definition updateProducerRecord (c : BlockChain) : BlockChain :=
  with_record (fold_left (fun m p => <[Producer.m_address p := default 0 (bc_producerRecord c !! Producer.m_address p)]> m)
                 (getSortedProducerList face (bc_face c)) ∅) c.

(** [for (int i = from; i < to; ++i) m_currentActiveProducers.deleteProducer(producerList[i]);]. *)
Definition delete_range (list : list Producer) (from to : Z) (ps : ProducerSnapshot) : result ProducerSnapshot :=
  if to <=? from then Ok ps
  else if zlen list <? to then Throw Undefined
  else Ok (fold_left (fun ps p => deleteProducer p ps) (take (Z.to_nat (to - from)) (drop (Z.to_nat from) list)) ps).

(** The producers whose slots passed between two blocks are removed. *)
Definition delete_passed (list : list Producer) (prev current : Z) (ps : ProducerSnapshot) : result ProducerSnapshot :=
  if prev <? current then delete_range list (prev + 1) current ps
  else if prev =? current then
    ps ← delete_range list 0 (Z.min current (zlen list)) ps;
    delete_range list (u32 (current + 1)) (zlen list) ps
  else
    ps ← delete_range list 0 current ps;
    delete_range list (u32 (prev + 1)) (zlen list) ps.

(** [updateActiveProducers(block)]. *)
Definition updateActiveProducers (block : Block) : ST BlockChain unit :=
  let header := m_blockHeader block in
  let currentTimestamp := BlockHeader.m_timestamp header in
  prevBlock ← (fun c => (getBlockByNumber (u64 (m_number header - 1)) c, c));
  let prevIndex := producerPosition (BlockHeader.m_timestamp (m_blockHeader prevBlock)) in
  _ ← chain_modify (fun c => with_active (mkSnapshot currentTimestamp (s_producers (bc_activeProducers c))) c);
  p ← (fun c => (Database.getProducer (m_producer header) (bc_dbc c), c));
  _ ← chain_modify (fun c => with_active (addProducer p (bc_activeProducers c)) c);
  ps ← (fun c => (delete_passed (getSortedProducerList face (bc_face c)) prevIndex (producerPosition currentTimestamp)
                    (bc_activeProducers c), c));
  _ ← chain_modify (with_active ps);
  on_face (notify face (ActiveEvent ps)).

(** ** Existence checks *)

(** [isExistInRepo(tx)]. *)
Definition isExistInRepo (tx : Transaction) : ST BlockChain bool :=
  h ← st_lift (Transaction.getHash tx);
  q ← chain_read bc_memoryQueue;
  item ← match q with
         | [] => fun c => (Database.getTransaction h (bc_dbc c), c)
         | _ :: _ => on_back (repo_getTransaction h)
         end;
  e ← st_lift (tx_eqb item EmptyTransaction);
  mret (negb e).

(** [isExist(tx)] and [isExist(block)]: in the cache, or found by a repository
    on top of the queue. *)
Definition isExist_tx (tx : Transaction) : ST BlockChain bool :=
  h ← st_lift (Transaction.getHash tx);
  cached ← chain_read (fun c => existsb (tx_is h) (bc_txCache c));
  if cached : bool then mret true
  else item ← on_temp (repo_getTransaction h);
       e ← st_lift (tx_eqb item EmptyTransaction);
       mret (negb e).

Definition isExist_block (block : Block) : ST BlockChain bool :=
  h ← st_lift (Block.getHash block);
  cached ← chain_read (fun c => existsb (block_is h) (bc_blockCache c));
  if cached : bool then mret true
  else item ← on_temp (fun r => (Repository.getBlock h0 h r, r));
       e ← st_lift (block_eqb item EmptyBlock);
       mret (negb e).

(** [checkDuplicateTx(block)]. *)
Definition checkDuplicateTx (block : Block) : result bool :=
  hs ← result_map Transaction.getHash (m_transactions block);
  Ok (bool_decide (size (list_to_set hs : gset h256) = Datatypes.length (m_transactions block))).

(** ** Solidified blocks *)

Definition set_globals (f : Globals -> Globals) : ST BlockChain unit :=
  chain_modify (fun c => with_globals (f (bc_globals c)) c).

(** [ATTRIBUTE_X...; m_dbc->putAttribute(ATTRIBUTE_X)]. *)
Definition store_global (read : Globals -> AttributeState) (write : AttributeState -> Globals -> Globals)
    (f : AttributeState -> AttributeState) : ST BlockChain unit :=
  _ ← set_globals (fun g => write (f (read g)) g);
  t ← chain_read (fun c => read (bc_globals c));
  on_dbc (putAttribute t).

Definition set_db_dirty (value : Z) : ST BlockChain unit :=
  store_global ATTRIBUTE_DB_DIRTY set_dirty (setValue value).

(** [m_memoryQueue.pop_front(); item->commit();]: the repository of the item
    stays the parent of the next one. When the commit throws, what it had
    written before is not followed. *)
Definition pop_commit (item : MemoryItem) : ST BlockChain unit := fun c =>
  let c1 := with_detached (mi_layer item :: bc_detached c) (with_queue (Queue.pop_front (bc_memoryQueue c)) c) in
  match commit (mkRepo (bc_dbc c) (mi_layer item) (bc_detached c)) with
  | Ok r => (Ok tt, with_detached (top r :: parents r) (with_dbc (m_dbc r) c1))
  | Throw e => (Throw e, c1)
  end.

(** The body of the loop of [onSolidifiable]. *)
Definition solidify_item (item : MemoryItem) : ST BlockChain unit :=
  _ ← set_db_dirty 1;
  _ ← pop_commit item;
  found ← chain_read (fun c => deref (RollbackState.getBlockByNumber (mi_blockNumber item) (bc_rollbackState c)) c);
  match found with
  | None => st_throw BlockChainException
  | Some solidifyBS =>
      _ ← store_global ATTRIBUTE_CURRENT_BLOCK_HEIGHT set_height (setValue (m_blockNumber solidifyBS));
      data ← st_lift (snapshot_getRLPData (m_activeProucers solidifyBS));
      _ ← store_global ATTRIBUTE_SOLIDIFY_ACTIVE_PRODUCER_LIST set_active (setData data);
      _ ← on_dbc (put_blockState solidifyBS);
      _ ← set_db_dirty 0;
      _ ← chain_modify (fun c =>
            with_rollback (setSolidifyNumber (mi_blockNumber item) (RollbackState.remove (m_blockID solidifyBS) (bc_rollbackState c))) c);
      chain_modify (with_detached [])
  end.

(** The loop, over the items of the queue; the queue is left by its front.
    [front()] of an empty list is undefined, before the first round and after
    the round that empties the queue; the loop's test for a null pointer does
    not see it. *)
Fixpoint solidify_items (number : Z) (q : list MemoryItem) : ST BlockChain unit :=
  match q with
  | [] => st_throw Undefined
  | item :: q' =>
      if mi_blockNumber item <=? number then
        status ← chain_read bc_status;
        if bool_decide (status = Killed) then mret tt
        else _ ← solidify_item item; solidify_items number q'
      else mret tt
  end.

(** [onSolidifiable(bsp)]. *)
Definition onSolidifiable (bsp : BlockState) : ST BlockChain unit :=
  _ ← on_face (notify face (SolidifyHeightEvent (m_blockNumber bsp)));
  q ← chain_read bc_memoryQueue;
  solidify_items (m_blockNumber bsp) q.

(** ** Block processing *)

(** [m_rollbackState.add( *block, ps)] with the slot connected to
    [m_solidifiable]. *)
Definition rollback_add (block : Block) : ST BlockChain unit := fun c =>
  match RollbackState.add count0 block (face_getProducerSnapshot face (bc_face c)) (bc_rollbackState c) with
  | Throw e => (Throw e, c)
  | Ok (_, sig, rs) =>
      let c1 := with_rollback rs c in
      match deref sig c1 with
      | Some bsp => onSolidifiable bsp c1
      | None => (Ok tt, c1)
      end
  end.

(** The bonus of a block: it halves every year; a shift by the width of the
    type or more is undefined. *)
Definition block_bonus (timestamp : Z) : result Z :=
  let bonusFactor := u32 (Z.quot (timestamp - GENESIS_TIMESTAMP) MILLISECONDS_PER_YEAR) in
  if 64 <=? bonusFactor then Throw Undefined else Ok (Z.shiftr BLOCK_BONUS_BASE bonusFactor).

(** The confirmation the node sends for a block it executed. *)
Definition confirm_block (block : Block) : ST BlockChain unit :=
  let timestamp := BlockHeader.m_timestamp (m_blockHeader block) in
  if m_syncBlock block then mret tt
  else
    id ← st_lift (Block.getHash block);
    hc ← (fun c => (sign_confirmation (k_secret (bc_key c))
                      (mkConfirmation (bc_chainID c) (m_number (m_blockHeader block)) id timestamp (k_address (bc_key c)) (zero_hash 65)), c));
    _ ← chain_modify (fun c => with_rollback (add_confirmation hc (bc_rollbackState c)) c);
    on_face (send_confirmation face hc).

(** The block's last item of the queue. *)
Definition set_back_done (c : BlockChain) : BlockChain :=
  match last (bc_memoryQueue c) with
  | Some it => with_queue (Queue.pop_back (bc_memoryQueue c) ++ [setDone it]) c
  | None => c
  end.

(** [doProcessBlock] from [needCancel = true] on. *)
Definition process_item (block : Block) : ST BlockChain unit :=
  let header := m_blockHeader block in
  let timestamp := BlockHeader.m_timestamp header in
  _ ← on_back (correlator_run block);
  _ ← confirm_block block;
  _ ← (if m_number header mod (NUM_DELEGATED_BLOCKS * SCHEDULE_UPDATE_ROUNDS) =? 0 then
         _ ← schedule timestamp;
         _ ← chain_modify (fun c => with_active (mkSnapshot (s_timestamp (bc_activeProducers c)) []) c);
         _ ← chain_modify updateProducerRecord;
         chain_modify (with_scheduleUpdate timestamp)
       else mret tt);
  value ← st_lift (block_bonus timestamp);
  _ ← on_back (bonus (m_producer header) value);
  _ ← chain_modify set_back_done;
  _ ← eraseSolicitedTx block;
  _ ← chain_modify (fun c => with_latestBlock block (with_latestNumber (m_number header) c));
  _ ← on_face (notify face (HeightEvent (m_number header)));
  _ ← on_face (notify face (BlockEvent block));
  st_foreach (fun tx => on_face (notify face (TransactionEvent tx))) (m_transactions block).

(** [doProcessBlock(block)]. *)
Definition doProcessBlock (block : Block) : ST BlockChain unit :=
  let header := m_blockHeader block in
  st_catch
    (_ ← st_foreach (fun tx => e ← isExistInRepo tx; st_throw_if e BlockChainException) (m_transactions block);
     _ ← updateActiveProducers block;
     _ ← chain_modify (fun c => with_record (<[m_producer header := BlockHeader.m_timestamp header]> (bc_producerRecord c)) c);
     _ ← chain_modify (addMemoryItem block);
     st_catch (process_item block) (fun e => if is_GSException e then Some (chain_modify cancelMemoryItem) else None))
    (fun e => if is_GSException e then Some (mret tt) else None).

(** One step back on the current branch. *)
Definition drop_block (p : ptr) : ST BlockChain unit :=
  s ← chain_read (deref (Some p));
  match s with
  | None => st_throw Undefined
  | Some s =>
      _ ← chain_modify (with_latestNumber (u64 (m_blockNumber s - 1)));
      _ ← chain_modify (fun c => with_rollback (remove_number (m_blockNumber s) (bc_rollbackState c)) c);
      popBlockState
  end.

(** [!branch.empty() && m_head->m_blockID != branch.back()->getPrev()]. *)
Definition off_branch (branch : list ptr) (c : BlockChain) : bool :=
  match deref (last branch) c, deref (bc_head c) c with
  | Some b, Some h => negb (hash_eqb (m_blockID h) (getPrev b))
  | _, _ => false
  end.

(** The branch switch of [checkBifurcation]. A climb that exceeds the entries
    of the index and the two heads has entered a cycle and never ends. *)
Definition switch_branch (newItem head : ptr) : ST BlockChain unit :=
  found ← chain_read (fun c => rollbackTo (Datatypes.length (m_index (bc_rollbackState c)) + 2) newItem head (bc_rollbackState c));
  match found with
  | None => st_throw Undefined
  | Some (false, _) => mret tt
  | Some (true, branch) =>
      _ ← chain_modify (with_status SyncStatus);
      _ ← st_foreach drop_block branch;
      off ← chain_read (off_branch branch);
      st_throw_if off BlockChainException
  end.

(** [checkBifurcation(block)]; a serious data error ends the process. *)
Definition checkBifurcation (block : Block) : ST BlockChain bool :=
  new ← chain_read (fun c => RollbackState.m_head (bc_rollbackState c));
  old ← chain_read bc_head;
  states ← chain_read (fun c => (deref new c, deref old c));
  _ ← match new, old, states with
      | Some p, Some q, (Some newItem, Some head) =>
          if hash_eqb (getPrev newItem) (m_blockID head) then doProcessBlock block
          else st_catch (switch_branch p q) (fun e =>
                 if bool_decide (e = BlockChainException) then Some (st_throw Exit)
                 else if is_std_exception e then Some (mret tt) else None)
      | _, _, _ => st_throw Undefined
      end;
  mret true.

(** The exceptions [processBlock] turns into [false]. *)
Definition rejects_block (e : exn) : bool :=
  match e with
  | InvalidTransactionException | InvalidProducerException | RollbackStateException => true
  | e => is_Exception e
  end.

(** [processBlock(block)]. *)
Definition processBlock (block : Block) : ST BlockChain bool :=
  st_catch
    (valid ← chain_read (checkProducer block);
     _ ← st_throw_if (negb valid) InvalidProducerException;
     _ ← rollback_add block;
     _ ← checkBifurcation block;
     _ ← chain_modify (fun c => with_head (RollbackState.m_head (bc_rollbackState c)) c);
     mret true)
    (fun e => if rejects_block e then Some (mret false) else None).

(** The block [doWork] takes from the cache, if any. *)
Definition take_block (c : BlockChain) : option Block * BlockChain :=
  match bc_blockCache c with
  | [] => (None, c)
  | b :: rest =>
      let number := m_number (m_blockHeader b) in
      if number =? u64 (getLastBlockNumber c + 1) then (Some b, with_blockCache rest c)
      else if number <=? getLastBlockNumber c then
        if number <=? getSolidifyHeight c then (None, with_blockCache rest c) else (Some b, with_blockCache rest c)
      else (None, c)
  end.

(** [doWork()], without the pause of an idle thread. *)
Definition doWork : ST BlockChain unit := fun c =>
  match take_block c with
  | (Some b, c1) => (_ ← processBlock b; mret tt) c1
  | (None, c1) => (Ok tt, c1)
  end.

(** ** Queries *)

(** Read from the repository of the last queued block, or from the database
    when the queue is empty. *)
Definition query {A} (m : ST (Repository DB) A) (f : @DatabaseController DB -> result A) : ST BlockChain A := fun c =>
  match bc_memoryQueue c with
  | [] => (f (bc_dbc c), c)
  | _ :: _ => on_back m c
  end.
Definition getTx (txID : h256) : ST BlockChain Transaction :=
  query (repo_getTransaction txID) (Database.getTransaction txID).
Definition getAccount (address : h160) : ST BlockChain Account :=
  query (repo_getAccount address) (Database.getAccount address).
Definition getBalance (address : h160) : ST BlockChain Z :=
  account ← getAccount address; mret (m_balance account).
Definition getHeight (c : BlockChain) : Z := getLastBlockNumber c.

(** ** Messages *)

(** [catch] clauses of the message handlers: [BlockChainException],
    [RepositoryException] and [core::Exception] are logged. *)
Definition logged (e : exn) : bool :=
  match e with
  | BlockChainException | RepositoryException => true
  | e => is_Exception e
  end.
Definition log_errors (m : ST BlockChain unit) : ST BlockChain unit :=
  st_catch m (fun e => if logged e then Some (mret tt) else None).

(** A transaction executed before its block is known runs with a
    default-constructed block. *)
Definition pre_execute (tx : Transaction) : ST (Repository DB) unit := excute (mkBlock h0 [] [] false) tx.

(** [preProcessTx(tx)]. *)
Definition preProcessTx (tx : Transaction) : ST BlockChain unit :=
  chainID ← chain_read bc_chainID;
  _ ← st_throw_if (negb (Transaction.m_chainID tx =? chainID)) BlockChainException;
  ok ← st_lift (validSignature_transaction tx);
  _ ← st_throw_if (negb ok) BlockChainException;
  exist ← isExist_tx tx;
  _ ← st_throw_if exist BlockChainException;
  on_temp (pre_execute tx).

(** Whether a hash is new to a history; it is remembered. *)
Definition HISTORY_TX : nat := 4096.
Definition HISTORY_BLOCKS : nat := 8.
Definition first_seen_tx (tx : Transaction) : ST BlockChain bool :=
  id ← st_lift (Transaction.getHash tx);
  history ← chain_read bc_historyTxCache;
  if Queue.fixed_isExist id history then mret false
  else _ ← chain_modify (with_historyTx (Queue.fixed_push HISTORY_TX id history)); mret true.
Definition first_seen_block (block : Block) : ST BlockChain bool :=
  id ← st_lift (Block.getHash block);
  history ← chain_read bc_historyBlockCache;
  if Queue.fixed_isExist id history then mret false
  else _ ← chain_modify (with_historyBlocks (Queue.fixed_push HISTORY_BLOCKS id history)); mret true.

(** [addRPCTx(tx)]: every standard exception is caught. *)
Definition addRPCTx (tx : Transaction) : ST BlockChain bool :=
  st_catch
    (first ← first_seen_tx tx;
     if first : bool then _ ← preProcessTx tx; _ ← chain_modify (insert_tx tx); mret true
     else mret false)
    (fun e => if is_std_exception e then Some (mret false) else None).

(** [processTxMessage(from, tx)]. *)
Definition processTxMessage (from : endpoint) (tx : Transaction) : ST BlockChain unit :=
  log_errors
    (first ← first_seen_tx tx;
     if first : bool then
       _ ← preProcessTx tx; _ ← chain_modify (insert_tx tx); on_face (broadcast_tx face from tx)
     else mret tt).

(** [preProcessBlock(from, block)]. *)
Definition preProcessBlock (block : Block) : ST BlockChain unit :=
  chainID ← chain_read bc_chainID;
  _ ← st_throw_if (negb (BlockHeader.m_chainID (m_blockHeader block) =? chainID)) BlockChainException;
  ok ← st_lift (validSignature_block block);
  _ ← st_throw_if (negb ok) BlockChainException;
  exist ← isExist_block block;
  _ ← st_throw_if exist BlockChainException;
  distinct ← st_lift (checkDuplicateTx block);
  _ ← st_throw_if (negb distinct) BlockChainException;
  on_temp (st_foreach pre_execute (m_transactions block)).

(** [processBlockMessage(from, block)]. *)
Definition processBlockMessage (from : endpoint) (block : Block) : ST BlockChain unit :=
  let number := m_number (m_blockHeader block) in
  out ← chain_read (fun c => (u64 (getLastBlockNumber c + 1000) <? number) || (number <=? m_solidifyNumber (bc_rollbackState c)));
  if out : bool then mret tt
  else log_errors
    (first ← first_seen_block block;
     if first : bool then
       _ ← preProcessBlock block; _ ← chain_modify (insert_block block); on_face (broadcast_block face from block)
     else mret tt).

(** [processSyncBlockMessage(from, block)]. *)
Definition processSyncBlockMessage (block : Block) : ST BlockChain unit :=
  log_errors (_ ← preProcessBlock block; chain_modify (insert_block block)).

(** [processConfirmationMessage(from, confirmation)]. *)
Definition processConfirmationMessage (confirmation : HeaderConfirmation) (c : BlockChain) : BlockChain :=
  with_rollback (add_confirmation confirmation (bc_rollbackState c)) c.

(** [processBlockStateMessage(from, bs)]. *)
Definition processBlockStateMessage (bs : BlockState) (c : BlockChain) : BlockChain :=
  with_rollback (addSyncBlockState bs (bc_rollbackState c)) c.

Definition maxPacketSize : Z := 55000.

(** The loop that collects the blocks of a reply, from block [i] on; there are
    [end_ - i + 1] rounds at most. *)
Fixpoint collect_blocks (fuel : nat) (i end_ size : Z) (st : Status) (bs0 : BlockState) (c : BlockChain)
    : result (Status * BlockState) :=
  match fuel with
  | O => Ok (st, bs0)
  | S n =>
      if end_ <? i then Ok (st, bs0)
      else
        block ← getBlockByNumber i c;
        empty ← Block.block_eqb block EmptyBlock;
        if empty : bool then Ok (st, bs0)
        else
          data ← Block.getRLPData block;
          let size := u64 (size + zlen data) in
          if maxPacketSize <=? size then Ok (st, bs0)
          else
            let bs := getBlockStateByNumber (if i <? 11 then i else i - 10) c in
            let bs0 := if negb (blockstate_eqb bs EmptyBlockState) && isSolidified bs then BlockState.assign bs0 bs else bs0 in
            collect_blocks n (u64 (i + 1)) end_ size (addBlock block st) bs0 c
  end.

(** [m_sync->update(from, height)]; [m_sync] is null on a node started without
    synchronisation. *)
Definition update_heights (from : endpoint) (height : Z) : ST BlockChain unit := fun c =>
  match bc_sync c with
  | Some s => (Ok tt, with_sync (Some (sync_update from height s)) c)
  | None => (Throw Undefined, c)
  end.

(** [processStatusMessage(from, status)]. *)
Definition processStatusMessage (from : endpoint) (status : Status) : ST BlockChain unit :=
  if st_type status =? GetHeight then
    number ← chain_read getLastBlockNumber;
    on_face (send_status face from (newHeight ReplyHeight number u0))
  else if st_type status =? ReplyHeight then
    number ← chain_read getLastBlockNumber;
    if number <? st_height status then update_heights from (st_height status) else mret tt
  else if st_type status =? SyncBlocks then
    number ← chain_read getLastBlockNumber;
    if (st_start status <? st_end status) && (st_end status <=? number) then
      '(st, bs) ← (fun c => (collect_blocks (Z.to_nat (st_end status - st_start status + 1)) (st_start status) (st_end status) 0
                               (newStatus ReplyBlocks u0) EmptyBlockState c, c));
      _ ← on_face (send_status face from st);
      if negb (blockstate_eqb bs EmptyBlockState) then on_face (send_blockState face from bs) else mret tt
    else mret tt
  else if st_type status =? ReplyBlocks then
    st_foreach (fun b => processSyncBlockMessage (setSyncBlock b)) (st_blocks status)
  else mret tt.

(** [enum ProtocolPacketType]. *)
Definition StatusPacket : Z := 0x20.
Definition TransactionPacket : Z := 0x21.
Definition BlockPacket : Z := 0x22.
Definition ConfirmationPacket : Z := 0x23.
Definition TransactionsPacket : Z := 0x24.
Definition BlockStatePacket : Z := 0x25.

Definition dispatch (from : endpoint) (type : Z) (data : bytes) : ST BlockChain bool :=
  if type =? StatusPacket then _ ← processStatusMessage from (Status.decode h0 data u0); mret true
  else if type =? TransactionPacket then
    tx ← st_lift (Transaction.decode data); _ ← processTxMessage from tx; mret true
  else if type =? BlockPacket then
    block ← st_lift (Block.decode h0 data); _ ← processBlockMessage from block; mret true
  else if type =? ConfirmationPacket then
    hc ← st_lift (decodeConfirmation data); _ ← chain_modify (processConfirmationMessage hc); mret true
  else if type =? TransactionsPacket then mret true
  else if type =? BlockStatePacket then
    _ ← chain_modify (processBlockStateMessage (BlockState.decode data s0)); mret true
  else mret false.

(** [Dispatch::processMsg(from, type, rlp)]. *)
Definition processMsg (from : endpoint) (type : Z) (rlp : bytes) : ST BlockChain bool :=
  n ← st_lift (if isList rlp then itemCount rlp else Ok (-1));
  if isList rlp && (n =? 1) then
    st_catch (data ← st_lift (nth_item rlp 0); dispatch from type data)
      (fun e => if is_GSException e || is_Exception e then Some (mret false) else None)
  else mret false.

(** ** Start-up *)

(** [m_head = s; m_rollbackState.set(m_head);]. *)
Definition set_root (s : BlockState) : ST BlockChain unit := fun c =>
  let '(p, rs) := alloc s (bc_rollbackState c) in
  let c1 := with_head (Some p) (with_rollback rs c) in
  match RollbackState.set p rs with
  | Ok rs => (Ok tt, with_rollback rs c1)
  | Throw e => (Throw e, c1)
  end.

(** [initializeRollbackState()]. *)
Definition initializeRollbackState : ST BlockChain unit :=
  block ← (fun c => (Database.getBlockByNumber h0 (getSolidifyHeight c) (bc_dbc c), c));
  s ← st_lift (newBlockState count0 (s_timestamp (m_activeProucers s0)) block);
  set_root (setBft (m_number (m_blockHeader block)) s).

(** The producer lists and the last block, from the attributes. *)
Definition load_snapshots : ST BlockChain unit :=
  g ← chain_read bc_globals;
  _ ← chain_modify (fun c => with_active (Producer.populate (AttributeState.m_data (ATTRIBUTE_SOLIDIFY_ACTIVE_PRODUCER_LIST g)) (bc_activeProducers c)) c);
  solidifyBlock ← (fun c => (Database.getBlockByNumber h0 (getSolidifyHeight c) (bc_dbc c), c));
  _ ← chain_modify (fun c => with_prevPS (Producer.populate (AttributeState.m_data (ATTRIBUTE_PREV_PRODUCER_LIST g)) (bc_prevPS c)) c);
  _ ← chain_modify (fun c => with_currentPS (Producer.populate (AttributeState.m_data (ATTRIBUTE_CURRENT_PRODUCER_LIST g)) (bc_currentPS c)) c);
  _ ← chain_modify (fun c =>
        if BlockHeader.m_timestamp (m_blockHeader solidifyBlock) <? s_timestamp (bc_currentPS c)
        then with_currentPS (Producer.populate (AttributeState.m_data (ATTRIBUTE_PREV_PRODUCER_LIST g)) (bc_currentPS c)) c else c);
  chain_modify (fun c => with_latestBlock solidifyBlock (with_latestNumber (m_number (m_blockHeader solidifyBlock)) c)).

(** [init()]; [syncFlag] is [ARGs.m_syncFlag], and the synchronisation task
    runs from here on. *)
Definition init (syncFlag : bool) : ST BlockChain unit :=
  head ← chain_read bc_head;
  _ ← match head with None => initializeRollbackState | Some _ => mret tt end;
  t ← (fun c => (getAttribute (AttributeState.m_key (ATTRIBUTE_DB_DIRTY (bc_globals c))) (bc_dbc c), c));
  _ ← set_globals (fun g => set_dirty (AttributeState.assign (ATTRIBUTE_DB_DIRTY g) t) g);
  dirty ← chain_read (fun c => m_value (ATTRIBUTE_DB_DIRTY (bc_globals c)));
  _ ← st_throw_if (dirty =? 1) BlockChainException;
  _ ← load_snapshots;
  chain_modify (fun c =>
    if syncFlag then with_sync (Some (mkSync Running 0 [])) (with_status SyncStatus c)
    else with_status ProducerStatus c).

(** ** Synchronisation: chain/Sync.cpp *)

Definition SYNC_INTERVAL : Z := 2000.
Definition COUNT_PER_ROUND : Z := 15.

(** [std::sort(..., heightCompare)]; the order of peers at the same height is
    not specified, the stable order is taken. *)
Definition height_le (a b : endpoint * Z) : Prop := a.2 <= b.2.
#[export] Instance height_le_dec a b : Decision (height_le a b) := Z_le_dec a.2 b.2.

(** The requests of one round: peers in pairs, both asked for the same range.
    [idx] counts the requests sent, [requestEnd] is the end of the pair's
    range. *)
Fixpoint requests (idx requestStart requestEnd : Z) (heights : list (endpoint * Z)) : list (endpoint * (Z * Z)) :=
  match heights with
  | [] => []
  | (peer, height) :: rest =>
      if (idx mod 2 =? 0) && negb (requestStart <=? height) then requests idx requestStart requestEnd rest
      else
        let requestEnd :=
          if idx mod 2 =? 0 then
            if COUNT_PER_ROUND <=? height - requestStart then u64 (requestStart + COUNT_PER_ROUND - 1) else height
          else requestEnd in
        (peer, (requestStart, requestEnd))
        :: requests (u32 (idx + 1)) (if idx mod 2 =? 1 then u64 (requestStart + COUNT_PER_ROUND) else requestStart) requestEnd rest
  end.

(** The requests [Sync::doWork] sends at height [current]. *)
Definition sync_requests (current : Z) (heights : list (endpoint * Z)) : list (endpoint * (Z * Z)) :=
  requests 0 (u64 (current + 1)) 0 (merge_sort height_le heights).

(** [Sync::doWork()] at time [ct], without the pauses. *)
Definition sync_doWork (ct : Z) : ST BlockChain unit :=
  s ← chain_read bc_sync;
  status ← chain_read bc_status;
  match s with
  | Some (mkSync Running prev heights) =>
      if bool_decide (status = SyncStatus) || (SYNC_INTERVAL <=? ct - prev) then
        _ ← chain_modify (with_sync (Some (mkSync Running ct heights)));
        match heights with
        | [] => chain_modify (with_status SyncStatus)
        | _ :: _ =>
            current ← chain_read getLastBlockNumber;
            let rs := sync_requests current heights in
            _ ← st_foreach (fun '(peer, (first, last)) =>
                  _ ← chain_modify (with_status SyncStatus);
                  on_face (send_status face peer (newRequest SyncBlocks first last u0))) rs;
            chain_modify (fun c =>
              if bool_decide (rs = []) && bool_decide (bc_status c = SyncStatus) then with_status ProducerStatus c else c)
        end
      else mret tt
  | _ => mret tt
  end.
End Chain.
