(* ===== verification/BlockChainFacts.v ===== *)
(** * Executing a block

    What [BlockChain::doProcessBlock] does to the queue of repositories, the
    ledger they answer for and the last block: a block is executed completely,
    or not at all. *)

From S2P Require Import Prelude CommonData RLP RLPFacts FixedHash SHA3 Codec.
From S2P Require Import Account Producer Transaction BlockHeader Block BlockState RollbackState.
From S2P Require Import AttributeState Database Ledger LedgerFacts Actions Repository RepositoryFacts FrameFacts CommitFacts Schedule Caches Crypto.
From S2P Require Import BlockChain.

(** What the chain relies on in its owner: its actions return. *)
Class FaceLaws {E} (face : MessageFace E) : Prop := {
  fl_broadcast_block from b e : exists e', broadcast_block face from b e = (Ok tt, e');
  fl_broadcast_tx from tx e : exists e', broadcast_tx face from tx e = (Ok tt, e');
  fl_confirmation hc e : exists e', send_confirmation face hc e = (Ok tt, e');
  fl_status to s e : exists e', send_status face to s e = (Ok tt, e');
  fl_blockState to s e : exists e', send_blockState face to s e = (Ok tt, e');
  fl_schedule l t e : exists e', face_schedule face l t e = (Ok tt, e');
  fl_notify ev e : exists e', notify face ev e = (Ok tt, e')
}.

(** The year of a block after genesis, counted from zero. *)
Definition bonus_year (timestamp : Z) : Z := (timestamp - GENESIS_TIMESTAMP) / MILLISECONDS_PER_YEAR.

Lemma block_bonus_ok t :
  GENESIS_TIMESTAMP <= t < GENESIS_TIMESTAMP + 64 * MILLISECONDS_PER_YEAR ->
  block_bonus t = Ok (BLOCK_BONUS_BASE / 2 ^ bonus_year t) /\ 0 <= bonus_year t < 64.
Proof.
  intros Ht. unfold block_bonus, bonus_year. rewrite Z.quot_div_nonneg by (unfold MILLISECONDS_PER_YEAR; lia).
  assert (0 <= (t - GENESIS_TIMESTAMP) / MILLISECONDS_PER_YEAR < 64) as Hy.
  { split; [apply Z.div_pos; unfold MILLISECONDS_PER_YEAR; lia|]. apply Z.div_lt_upper_bound; unfold MILLISECONDS_PER_YEAR in *; lia. }
  split; [|done]. rewrite u32_small by (unfold is_u32; lia). cbv zeta. rewrite (proj2 (Z.leb_gt _ _)) by lia.
  by rewrite Z.shiftr_div_pow2 by lia.
Qed.

Section Facts.
Context {DB E : Type} `{KVStore DB} `{Secp256k1} (face : MessageFace E) {HF : FaceLaws face}.
Variable h0 : BlockHeader.
Implicit Types c : @BlockChain DB E.

(** ** Steps of the monad *)

Lemma bind_read {A B} (f : BlockChain -> A) (k : A -> ST BlockChain B) c : (chain_read f ≫= k) c = k (f c) c.
Proof. done. Qed.
Lemma bind_modify {B} (f : BlockChain -> BlockChain) (k : unit -> ST BlockChain B) c : (chain_modify f ≫= k) c = k tt (f c).
Proof. done. Qed.
Lemma bind_lift {A B} (r : result A) (a : A) (k : A -> ST BlockChain B) c : r = Ok a -> (st_lift r ≫= k) c = k a c.
Proof. by intros ->. Qed.
Lemma bind_pure {A B} (r : BlockChain -> result A) (a : A) (k : A -> ST BlockChain B) c :
  r c = Ok a -> ((fun c => (r c, c)) ≫= k) c = k a c.
Proof. intros Hr. unfold mbind, ST_bind. by rewrite Hr. Qed.

Lemma catch_ok {A} (m : ST (@BlockChain DB E) A) h c a c' : m c = (Ok a, c') -> st_catch m h c = (Ok a, c').
Proof. unfold st_catch. by intros ->. Qed.
Lemma catch_throw {A} (m : ST (@BlockChain DB E) A) h k c e c' :
  m c = (Throw e, c') -> h e = Some k -> st_catch m h c = k c'.
Proof. unfold st_catch. by intros -> ->. Qed.
Lemma catch_escape {A} (m : ST (@BlockChain DB E) A) h c e c' :
  m c = (Throw e, c') -> h e = None -> st_catch m h c = (Throw e, c').
Proof. unfold st_catch. by intros -> ->. Qed.

(** ** The queue as a stack of repositories *)

(** What of an item does not change while its repository is used. *)
Definition item_key (it : MemoryItem) : bool * Z * Block := (mi_isDone it, mi_blockNumber it, Repository.m_block (mi_layer it)).
Definition numbers c : list Z := map mi_blockNumber (bc_memoryQueue c).

(** The chain answers for the ledger [v]. *)
Record chain_holds c (v : View) : Prop := {
  ch_detached : bc_detached c = [];
  ch_stack : stack_holds (bc_dbc c) (layers c) v
}.

(** Only the caches of the queued repositories differ. *)
Definition requeued c c' : Prop :=
  exists q, c' = with_queue q c /\ map item_key q = map item_key (bc_memoryQueue c).

Lemma requeued_refl c : requeued c c.
Proof. exists (bc_memoryQueue c). split; [by destruct c|done]. Qed.
Lemma requeued_trans c1 c2 c3 : requeued c1 c2 -> requeued c2 c3 -> requeued c1 c3.
Proof. intros (q1 & -> & H1) (q2 & -> & H2). exists q2. split; [done|]. by rewrite H2. Qed.

Lemma requeued_numbers c c' : requeued c c' -> numbers c' = numbers c.
Proof.
  intros (q & -> & Hk). unfold numbers. cbn. apply (f_equal (map (fun k => k.1.2))) in Hk. rewrite !map_map in Hk. exact Hk.
Qed.

(** Reading a block by number does not depend on the caches. *)
Lemma find_key n (q q' : list MemoryItem) :
  map item_key q' = map item_key q ->
  (fun it => Repository.m_block (mi_layer it)) <$> List.find (fun it => mi_blockNumber it =? n) q' =
  (fun it => Repository.m_block (mi_layer it)) <$> List.find (fun it => mi_blockNumber it =? n) q.
Proof.
  revert q. induction q' as [|it q' IH]; intros [|jt q] Hk; cbn in *; [done..|]. injection Hk as _ Hn Hb Hk. rewrite Hn.
  destruct (mi_blockNumber jt =? n); [cbn; by rewrite Hb|by apply IH].
Qed.

Lemma getBlockByNumber_requeued n c c' : requeued c c' -> getBlockByNumber h0 n c' = getBlockByNumber h0 n c.
Proof.
  intros (q & -> & Hk). unfold getBlockByNumber. cbn. destruct (bc_latestNumber c <? n); [done|].
  destruct (n <=? m_solidifyNumber (bc_rollbackState c)); [done|]. pose proof (find_key n _ _ Hk) as Hf.
  pose proof (f_equal (map (fun k => k.1.2)) Hk) as Hn. rewrite !map_map in Hn.
  assert (forall q : list MemoryItem, match q, last q with itemS :: _, Some itemE => (mi_blockNumber itemS <=? n) && (n <=? mi_blockNumber itemE)
            | _, _ => false end = match map mi_blockNumber q, last (map mi_blockNumber q) with s :: _, Some e => (s <=? n) && (n <=? e) | _, _ => false end) as Hr.
  { intros q0. destruct q0 as [|it q0]; [done|]. rewrite fmap_last. cbn [map]. by destruct (last (it :: q0)). }
  pose proof (Hr q) as Hr1. pose proof (Hr (bc_memoryQueue c)) as Hr2. change (map mi_blockNumber q = map mi_blockNumber (bc_memoryQueue c)) in Hn.
  rewrite Hn, <- Hr2 in Hr1. clear Hr Hr2 Hn.
  destruct q as [|it q], (bc_memoryQueue c) as [|jt q2]; try done.
  destruct (last (it :: q)) as [x|] eqn:Ex; [|by apply last_None in Ex]. destruct (last (jt :: q2)) as [y|] eqn:Ey; [|by apply last_None in Ey].
  cbv iota in Hr1. rewrite Hr1. clear Hr1 Hk. destruct (_ && _); [|reflexivity].
  destruct (List.find _ (it :: q)) as [f|], (List.find _ (jt :: q2)) as [g|]; cbn in Hf; try done. by injection Hf as ->.
Qed.

Lemma layers_nodetached c : bc_detached c = [] -> layers c = rev (map mi_layer (bc_memoryQueue c)).
Proof. intros Hd. unfold layers. by rewrite Hd, app_nil_r. Qed.

Lemma rezip (q : list MemoryItem) (ls : list Layer) :
  map Repository.m_block ls = map (fun it => Repository.m_block (mi_layer it)) q ->
  map mi_layer (zip_with set_layer q ls) = ls /\ map item_key (zip_with set_layer q ls) = map item_key q.
Proof.
  revert ls. induction q as [|it q IH]; intros [|l ls] Hl; cbn in *; [done..|]. injection Hl as Hl1 Hl2.
  destruct (IH ls Hl2) as [H1 H2]. split; [by rewrite H1|]. rewrite H2. f_equal. unfold item_key. cbn. by rewrite Hl1.
Qed.

Lemma store_layers_spec c ls :
  bc_detached c = [] -> map Repository.m_block ls = map Repository.m_block (layers c) ->
  requeued c (store_layers ls c) /\ layers (store_layers ls c) = ls /\ bc_detached (store_layers ls c) = [].
Proof.
  intros Hd Hb. rewrite layers_nodetached in Hb by done. pose proof (f_equal Datatypes.length Hb) as Hlen.
  rewrite !length_map, length_rev, length_map in Hlen. rewrite map_rev, map_map in Hb.
  assert (store_layers ls c = with_queue (rev (zip_with set_layer (rev (bc_memoryQueue c)) ls)) c) as Hs.
  { unfold store_layers. rewrite <- Hlen, drop_all, take_ge by done. destruct c. cbn in *. by rewrite Hd. }
  rewrite <- map_rev in Hb. destruct (rezip (rev (bc_memoryQueue c)) ls) as [H1 H2]; [done|]. rewrite Hs. split; [|split; [|done]].
  - eexists. split; [done|]. by rewrite map_rev, H2, <- map_rev, rev_involutive.
  - rewrite layers_nodetached by done. cbn. by rewrite map_rev, H1, rev_involutive.
Qed.

Lemma on_back_run {A} (m : ST (Repository DB) A) c l ls x r :
  bc_detached c = [] -> layers c = l :: ls -> m (mkRepo (bc_dbc c) l ls) = (x, r) ->
  map Repository.m_block (top r :: parents r) = map Repository.m_block (l :: ls) ->
  exists c', on_back m c = (x, c') /\ requeued c c' /\ layers c' = top r :: parents r /\ bc_detached c' = [].
Proof.
  intros Hd Hl Hm Hb. unfold on_back. rewrite <- Hl in Hb. destruct (store_layers_spec c (top r :: parents r) Hd Hb) as (H1 & H2 & H3).
  destruct (bc_memoryQueue c) as [|it q] eqn:Eq; [rewrite layers_nodetached, Eq in Hl by done; done|]. rewrite Hl, Hm. by eexists.
Qed.

Lemma stack_txn_cases (d : @DatabaseController DB) ls v h :
  stack_holds d ls v -> good_transaction h (v_txn v h) \/ v_txn v h = EmptyTransaction.
Proof.
  intros [Hd [_ _ Hl] _ _ Ht]. rewrite <- Ht.
  destruct (view_cases transactions (fun k => Database.getTransaction k d) good_transaction ls h Hl) as [Hg| ->]; [by left|].
  destruct (db_view_cases transactions _ good_transaction (db_ok_transactions _ Hd) h) as [[Hg _]|(x & ret & _ & _ & _ & ->)];
    [by left|by right].
Qed.

(** Whether the ledger records a transaction. *)
Definition recorded (v : View) (h : h256) : bool := negb (bool_decide (v_txn v h = EmptyTransaction)).

Lemma recorded_eqb (d : @DatabaseController DB) ls v h :
  stack_holds d ls v -> tx_eqb (v_txn v h) EmptyTransaction = Ok (negb (recorded v h)).
Proof.
  intros Hs. unfold recorded. rewrite negb_involutive. destruct (stack_txn_cases d ls v h Hs) as [[_ Hg]| ->].
  - rewrite bool_decide_eq_false_2; [done|]. intros He. by rewrite He, empty_tx_eqb in Hg.
  - by rewrite bool_decide_eq_true_2, empty_tx_eqb.
Qed.

(** Looking up a transaction changes caches only. *)
Lemma isExistInRepo_run c v tx h :
  chain_holds c v -> Transaction.getHash tx = Ok h ->
  exists c', isExistInRepo tx c = (Ok (recorded v h), c') /\ requeued c c' /\ chain_holds c' v.
Proof.
  intros [Hd Hs] Hh. unfold isExistInRepo. rewrite (bind_lift _ _ _ _ Hh), bind_read.
  pose proof (recorded_eqb _ _ _ h Hs) as Heq. destruct (bc_memoryQueue c) as [|it q] eqn:Eq.
  - assert (layers c = []) as Hl by (rewrite layers_nodetached, Eq by done; done). rewrite Hl in Hs.
    pose proof (sh_txn _ _ _ Hs h) as Hv. cbn [view] in Hv. pose proof (db_view_of_transaction _ h (sh_db _ _ _ Hs)) as Hdb.
    rewrite Hv in Hdb. exists c. rewrite (bind_pure _ _ _ _ Hdb), (bind_lift _ _ _ _ Heq), negb_involutive. split; [done|]. split; [apply requeued_refl|]. split; [done|by rewrite Hl].
  - destruct (layers c) as [|l ls] eqn:Hl; [rewrite layers_nodetached, Eq in Hl by done; cbn in Hl; by apply app_nil in Hl as [_ Hl]|].
    pose proof (stack_holds_repo _ _ _ _ Hs) as Hh2. set (r := mkRepo (bc_dbc c) l ls) in *.
    destruct (read_repo transactions Database.getTransaction good_transaction r h (db_ok_transactions _ (sh_db _ _ _ Hs)) (lo_transactions _ (sh_layers _ _ _ Hs)))
      as (r' & Hr & Hdb & Hg & Hrc & Hv).
    destruct (on_back_run (repo_getTransaction h) c l ls _ r' Hd Hl Hr) as (c' & Hc' & Hq & Hl' & Hd').
    { by apply (recached_blocks transactions). }
    change (cview transactions Database.getTransaction r h) with (view transactions (fun k => Database.getTransaction k (bc_dbc c)) (l :: ls) h) in Hc'.
    rewrite (sh_txn _ _ _ Hs h) in Hc'. rewrite (st_bind_ok _ _ _ _ _ Hc'), (bind_lift _ _ _ _ Heq), negb_involutive. exists c'. split; [done|]. split; [done|].
    split; [done|]. rewrite Hl'. destruct Hq as (q' & -> & _). cbn. eapply (stack_transactions _ (l :: ls)); [exact Hs|exact Hrc|exact Hg|].
    unfold cview in Hv. rewrite Hdb in Hv. exact Hv.
Qed.

(** The loop over the transactions of a block finds the first one recorded. *)
Definition fresh_txs (v : View) (txs : list Transaction) : bool :=
  forallb (fun tx => match Transaction.getHash tx with Ok h => negb (recorded v h) | Throw _ => false end) txs.

Lemma check_existing_run c v txs :
  chain_holds c v -> Forall (fun tx => exists h, Transaction.getHash tx = Ok h) txs ->
  exists c', st_foreach (fun tx => e ← isExistInRepo tx; st_throw_if e BlockChainException) txs c =
             ((if fresh_txs v txs then Ok tt else Throw BlockChainException), c') /\ requeued c c' /\ chain_holds c' v.
Proof.
  intros Hc Htx. revert c Hc. induction Htx as [|tx txs [h Hh] Htx IH]; intros c Hc.
  - exists c. split; [done|]. split; [apply requeued_refl|done].
  - destruct (isExistInRepo_run c v tx h Hc Hh) as (c1 & H1 & Hq1 & Hc1). cbn [st_foreach fresh_txs forallb]. rewrite Hh.
    assert ((e ← isExistInRepo tx; st_throw_if e BlockChainException) c = (throw_if (recorded v h) BlockChainException, c1)) as Hstep
      by (rewrite (st_bind_ok _ _ _ _ _ H1); reflexivity).
    destruct (recorded v h) eqn:Er; cbn [negb andb throw_if] in *.
    + exists c1. rewrite (st_bind_throw _ _ _ _ _ Hstep). split; [reflexivity|]. by split.
    + destruct (IH c1 Hc1) as (c2 & H2 & Hq2 & Hc2). exists c2. rewrite (st_bind_ok _ _ _ _ _ Hstep).
      split; [exact H2|]. split; [by eapply requeued_trans|done].
Qed.

(** ** Steps that leave the ledger alone *)

(** The queue, the database, the last block and the producer record are the
    same. *)
Definition same_ledger c c' : Prop :=
  bc_dbc c' = bc_dbc c /\ bc_memoryQueue c' = bc_memoryQueue c /\ bc_detached c' = bc_detached c /\
  bc_latestNumber c' = bc_latestNumber c /\ bc_latestBlock c' = bc_latestBlock c /\ bc_chainID c' = bc_chainID c /\
  bc_producerRecord c' = bc_producerRecord c.

Lemma same_ledger_refl c : same_ledger c c.
Proof. by repeat split. Qed.
Lemma same_ledger_trans c1 c2 c3 : same_ledger c1 c2 -> same_ledger c2 c3 -> same_ledger c1 c3.
Proof. unfold same_ledger. intros (? & ? & ? & ? & ? & ? & ?) (? & ? & ? & ? & ? & ? & ?). repeat split; congruence. Qed.

Lemma same_ledger_layers c c' : same_ledger c c' -> layers c' = layers c /\ numbers c' = numbers c.
Proof. intros (_ & Hq & Hd & _). unfold layers, numbers. by rewrite Hq, Hd. Qed.

Lemma on_face_run {A} (m : ST E A) c a :
  (exists e', m (bc_face c) = (Ok a, e')) -> exists c', on_face m c = (Ok a, c') /\ same_ledger c c'.
Proof. intros [e' He]. unfold on_face. rewrite He. eexists. split; [done|]. by repeat split. Qed.

Lemma delete_range_ok l from to ps : to <= zlen l -> exists ps', delete_range l from to ps = Ok ps'.
Proof.
  intros Hl. unfold delete_range. destruct (to <=? from); [by eexists|]. rewrite (proj2 (Z.ltb_ge _ _)) by done. by eexists.
Qed.

Lemma delete_passed_ok l prev current ps :
  current <= zlen l -> exists ps', delete_passed l prev current ps = Ok ps'.
Proof.
  intros Hl. unfold delete_passed. destruct (prev <? current); [by apply delete_range_ok|].
  destruct (prev =? current).
  - destruct (delete_range_ok l 0 (Z.min current (zlen l)) ps) as [ps1 ->]; [lia|]. by apply delete_range_ok.
  - destruct (delete_range_ok l 0 current ps Hl) as [ps1 ->]. by apply delete_range_ok.
Qed.

Lemma updateActiveProducers_run c v block prev :
  chain_holds c v -> getBlockByNumber h0 (u64 (m_number (m_blockHeader block) - 1)) c = Ok prev ->
  producerPosition (BlockHeader.m_timestamp (m_blockHeader block)) <= zlen (getSortedProducerList face (bc_face c)) ->
  exists c', updateActiveProducers face h0 block c = (Ok tt, c') /\ same_ledger c c'.
Proof.
  intros [_ Hs] Hp Hl. unfold updateActiveProducers. rewrite (bind_pure _ _ _ _ Hp), bind_modify.
  destruct (do_producers _ (sh_db _ _ _ Hs) (m_producer (m_blockHeader block))) as (p & Hgp & _).
  erewrite bind_pure by exact Hgp. rewrite bind_modify.
  match goal with |- exists c', mbind _ _ ?s = _ /\ _ => set (c2 := s) end.
  destruct (delete_passed_ok (getSortedProducerList face (bc_face c2)) (producerPosition (BlockHeader.m_timestamp (m_blockHeader prev)))
    (producerPosition (BlockHeader.m_timestamp (m_blockHeader block))) (bc_activeProducers c2) Hl) as [ps' Hps].
  erewrite bind_pure by exact Hps. rewrite bind_modify.
  match goal with |- context [on_face ?m ?c0] => destruct (on_face_run m c0 tt) as (c' & -> & Hsame) end; [apply fl_notify|].
  exists c'. split; [done|]. exact Hsame.
Qed.

(** ** Steps that may write attributes *)

(** Like [same_ledger], but the store of attributes may have changed, and with
    it the producer record. *)
Definition kept c c' : Prop :=
  (exists a, bc_dbc c' = with_attributes a (bc_dbc c)) /\ bc_memoryQueue c' = bc_memoryQueue c /\ bc_detached c' = bc_detached c /\
  bc_latestNumber c' = bc_latestNumber c /\ bc_latestBlock c' = bc_latestBlock c /\ bc_chainID c' = bc_chainID c.

Lemma with_attributes_self (d : @DatabaseController DB) : with_attributes (m_attributesStore d) d = d.
Proof. by destruct d. Qed.
Lemma kept_refl c : kept c c.
Proof. split; [exists (m_attributesStore (bc_dbc c)); by rewrite with_attributes_self|done]. Qed.
Lemma kept_trans c1 c2 c3 : kept c1 c2 -> kept c2 c3 -> kept c1 c3.
Proof.
  intros ([a Ha] & ? & ? & ? & ? & ?) ([b Hb] & ? & ? & ? & ? & ?). split; [exists b; by rewrite Hb, Ha|]. repeat split; congruence.
Qed.

Definition all_kept {A} (m : ST (@BlockChain DB E) A) : Prop := forall c, kept c (m c).2.

Lemma kept_bind {A B} (m : ST BlockChain A) (f : A -> ST BlockChain B) : all_kept m -> (forall a, all_kept (f a)) -> all_kept (m ≫= f).
Proof.
  intros Hm Hf c. specialize (Hm c). unfold mbind, ST_bind. destruct (m c) as [[a|e] c1]; [|done]. eapply kept_trans; [exact Hm|apply Hf].
Qed.
Lemma kept_pure {A} (r : BlockChain -> result A) : all_kept (fun c => (r c, c)).
Proof. intros c. apply kept_refl. Qed.
Lemma kept_read {A} (f : BlockChain -> A) : all_kept (chain_read f).
Proof. intros c. apply kept_refl. Qed.
Lemma kept_lift {A} (r : result A) : all_kept (st_lift r).
Proof. intros c. apply kept_refl. Qed.
Lemma kept_modify f : (forall c, kept c (f c)) -> all_kept (chain_modify f).
Proof. intros Hf c. apply Hf. Qed.
Lemma kept_face {A} (m : ST E A) : all_kept (on_face m).
Proof. intros c. unfold on_face. destruct (m (bc_face c)). split; [exists (m_attributesStore (bc_dbc c)); cbn; by rewrite with_attributes_self|done]. Qed.
Lemma kept_putAttribute t : all_kept (on_dbc (putAttribute t)).
Proof.
  intros c. unfold on_dbc, putAttribute. destruct (AttributeState.getRLPData t); cbn; [|apply kept_refl]. split; [by eexists|done].
Qed.
Create HintDb kept.
Hint Resolve kept_bind kept_pure kept_read kept_lift kept_modify kept_face kept_putAttribute : kept.
Hint Extern 1 (kept ?c _) => split; [exists (m_attributesStore (bc_dbc c)); symmetry; apply with_attributes_self|done] : kept.

Lemma kept_schedule t : all_kept (schedule face t).
Proof. unfold schedule. auto 30 with kept. Qed.

(** What a scheduling block does before the bonus. *)
Definition scheduling (block : Block) : bool := m_number (m_blockHeader block) mod (NUM_DELEGATED_BLOCKS * SCHEDULE_UPDATE_ROUNDS) =? 0.
Definition reschedule (block : Block) : ST (@BlockChain DB E) unit :=
  let timestamp := BlockHeader.m_timestamp (m_blockHeader block) in
  if scheduling block then
    _ ← schedule face timestamp;
    _ ← chain_modify (fun c => with_active (mkSnapshot (s_timestamp (bc_activeProducers c)) []) c);
    _ ← chain_modify (updateProducerRecord face);
    chain_modify (with_scheduleUpdate timestamp)
  else mret tt.

Lemma kept_reschedule block : all_kept (reschedule block).
Proof.
  unfold reschedule. destruct (scheduling block); [|intros c; apply kept_refl]. apply kept_bind; [apply kept_schedule|]. auto 30 with kept.
Qed.

Lemma stack_with_attributes a (d : @DatabaseController DB) ls v : stack_holds d ls v -> stack_holds (with_attributes a d) ls v.
Proof. intros [[D1 D2 D3] Hl Ha Hp Ht]. split; [split; [exact D1|exact D2|exact D3]|done|exact Ha|exact Hp|exact Ht]. Qed.

(** ** A block under execution *)

Section Working.
Context (d : @DatabaseController DB) (block : Block) (bs : list Block) (v0 : View) (ns : list Z).

#[local] Abbreviation laws := (framed_laws d block bs v0).

(** The last item of the queue executes [block] over a stack with the ledger
    [v0]; it has reached [v]. *)
Record working (v : View) c : Prop := {
  wk_dbc : bc_dbc c = d;
  wk_detached : bc_detached c = [];
  wk_numbers : numbers c = ns ++ [m_number (m_blockHeader block)];
  wk_repo : exists l ls, layers c = l :: ls /\ @reps _ _ laws (mkRepo d l ls) v
}.

Lemma working_same v c c' : same_ledger c c' -> working v c -> working v c'.
Proof.
  intros Hs [H1 H2 H3 H4]. destruct (same_ledger_layers _ _ Hs) as [Hl Hn]. destruct Hs as (Hd & _ & Hdet & _).
  split; [congruence|congruence|congruence|by rewrite Hl].
Qed.

Lemma on_back_reps {A} (m : ST (Repository DB) A) v c l ls x r' v' :
  working v c -> layers c = l :: ls -> m (mkRepo d l ls) = (x, r') -> @reps _ _ laws r' v' ->
  exists c', on_back m c = (x, c') /\ requeued c c' /\ working v' c'.
Proof.
  intros [H1 H2 H3 (l' & ls' & Hl & Hr)] Hl' Hx Hr'. rewrite Hl' in Hl. injection Hl as <- <-.
  pose proof (proj2 Hr) as [_ Hb Hbs _]. pose proof (proj2 Hr') as [Hdb Hb' Hbs' _]. cbn [top parents m_dbc] in *.
  rewrite <- H1 in Hx. destruct (on_back_run m c l ls x r' H2 Hl' Hx) as (c' & Hc' & Hq & Hlc & Hdc).
  { cbn [map]. by rewrite Hb', Hbs', Hb, Hbs. }
  exists c'. split; [done|]. split; [done|]. split; [by destruct Hq as (q & -> & _)|done| |].
  - by rewrite (requeued_numbers _ _ Hq).
  - exists (top r'), (parents r'). split; [done|]. rewrite <- Hdb at 2. by destruct r'.
Qed.

Lemma on_back_triple (P Q : View -> Prop) m v c :
  @triple _ _ laws P m Q -> working v c -> P v ->
  exists x c' v', on_back m c = (x, c') /\ requeued c c' /\ working v' c' /\
    (x = Ok tt /\ Q v' \/ exists e, x = Throw e /\ is_GSException e = true).
Proof.
  intros Ht Hw Hp. pose proof Hw as [_ _ _ (l & ls & Hl & Hr)]. destruct (Ht _ v Hr Hp) as (r' & v' & Hr' & [[Hm Hq]|(e & Hm & He)]);
    destruct (on_back_reps m v c l ls _ r' v' Hw Hl Hm Hr') as (c' & H1 & H2 & H3); eexists _, c', v'; (split; [exact H1|]);
    (split; [done|]); (split; [done|]); [by left|right; by eexists].
Qed.

Lemma on_back_outcome m v c fails v' :
  (forall r, @reps _ _ laws r v -> @outcome _ _ laws m r v fails v') -> working v c ->
  exists c', on_back m c = (if fails then Throw RepositoryException else Ok tt, c') /\ requeued c c' /\
    working (if fails then v else v') c'.
Proof.
  intros Ho Hw. pose proof Hw as [_ _ _ (l & ls & Hl & Hr)]. destruct (Ho _ Hr) as (r' & Hout). destruct fails; destruct Hout as [Hm Hr'].
  - by apply (on_back_reps m v c l ls _ r' v).
  - by apply (on_back_reps m v c l ls _ r' v').
Qed.

(** Cancelling the item gives the stack below back. *)
Lemma cancel_working v c :
  working v c -> let c' := cancelMemoryItem c in
  chain_holds c' v0 /\ numbers c' = ns /\ bc_dbc c' = d /\ bc_latestNumber c' = bc_latestNumber c /\
  bc_latestBlock c' = bc_latestBlock c.
Proof.
  intros [H1 H2 H3 (l & ls & Hl & _ & Hf)]. cbv zeta. unfold cancelMemoryItem, Queue.pop_back.
  rewrite layers_nodetached in Hl by done. destruct (bc_memoryQueue c) as [|it q _] eqn:Eq using rev_ind; [done|].
  rewrite map_app, rev_app_distr in Hl. cbn in Hl. injection Hl as _ Hl.
  unfold numbers in *. rewrite Eq, map_app in H3. cbn in H3. apply app_inj_tail in H3 as [H3 _]. cbn.
  rewrite removelast_last. split; [|done]. split; [done|]. cbn. unfold layers. cbn. rewrite H2, app_nil_r, Hl, H1.
  apply (fr_parents _ _ _ _ _ Hf).
Qed.

Lemma working_holds v c : working v c -> chain_holds c v.
Proof.
  intros [H1 H2 _ (l & ls & Hl & Hh & _)]. split; [done|]. rewrite H1, Hl. by apply (holds_stack (mkRepo d l ls)).
Qed.

Lemma set_back_done_working v c :
  working v c -> working v (set_back_done c) /\ bc_latestNumber (set_back_done c) = bc_latestNumber c /\
  bc_latestBlock (set_back_done c) = bc_latestBlock c /\
  exists it, last (bc_memoryQueue (set_back_done c)) = Some it /\ mi_isDone it = true.
Proof.
  intros [H1 H2 H3 H4]. unfold set_back_done. destruct (bc_memoryQueue c) as [|it q _] eqn:Eq using rev_ind.
  { destruct H4 as (l & ls & Hl & _). rewrite layers_nodetached, Eq in Hl by done. done. }
  rewrite last_snoc. cbn. unfold Queue.pop_back. rewrite removelast_last. split; [|split; [done|split; [done|]]].
  - split; [done|done| |].
    + unfold numbers in *. cbn. rewrite Eq, map_app in H3. by rewrite map_app.
    + destruct H4 as (l & ls & Hl & Hr). exists l, ls. split; [|done]. unfold layers in *. cbn. rewrite Eq, map_app in Hl. by rewrite map_app.
  - rewrite last_snoc. by eexists.
Qed.

Lemma confirm_block_run c :
  BlockHeader.valid (m_blockHeader block) -> is_u64 (bc_chainID c) ->
  exists c', confirm_block face block c = (Ok tt, c') /\ same_ledger c c'.
Proof.
  intros Hv Hid. unfold confirm_block. destruct (m_syncBlock block); [exists c; split; [done|apply same_ledger_refl]|].
  rewrite (bind_lift _ _ _ _ (block_getHash block Hv)).
  pose proof (BlockHeader.valid_number _ Hv) as Hn. pose proof (BlockHeader.valid_timestamp _ Hv) as Ht.
  set (hc := fun c : @BlockChain DB E => mkConfirmation (bc_chainID c) (m_number (m_blockHeader block)) (header_hash (m_blockHeader block))
              (BlockHeader.m_timestamp (m_blockHeader block)) (k_address (bc_key c)) (zero_hash 65)).
  assert (exists hc', sign_confirmation (k_secret (bc_key c)) (hc c) = Ok hc') as [hc' Hhc].
  { unfold sign_confirmation. rewrite confirmation_hash_ok by (split; cbn; [done|unfold is_u64; lia|lia]). by eexists. }
  rewrite (bind_pure (fun c => sign_confirmation (k_secret (bc_key c)) (hc c)) _ _ _ Hhc), bind_modify.
  match goal with |- context [on_face ?m ?c0] => destruct (on_face_run m c0 tt) as (c' & -> & Hsame) end; [apply fl_confirmation|].
  exists c'. by split.
Qed.

Lemma erase_run c txs :
  Forall (fun tx => exists h, Transaction.getHash tx = Ok h) txs ->
  exists c', st_foreach (fun tx => h ← st_lift (Transaction.getHash tx);
               chain_modify (fun c => with_txCache (Ordered.erase (tx_is h) (bc_txCache c)) c)) txs c = (Ok tt, c') /\ same_ledger c c'.
Proof.
  intros Htx. revert c. induction Htx as [|tx txs [h Hh] Htx IH]; intros c; [exists c; split; [done|apply same_ledger_refl]|].
  destruct (IH (with_txCache (Ordered.erase (tx_is h) (bc_txCache c)) c)) as (c' & Hc' & Hs). exists c'. split; [|exact Hs].
  cbn [st_foreach]. rewrite Hh. exact Hc'.
Qed.

Lemma notify_run c txs :
  exists c', st_foreach (fun tx => on_face (notify face (TransactionEvent tx))) txs c = (Ok tt, c') /\ same_ledger c c'.
Proof.
  revert c. induction txs as [|tx txs IH]; intros c; [exists c; split; [done|apply same_ledger_refl]|]. cbn [st_foreach].
  destruct (on_face_run (notify face (TransactionEvent tx)) c tt) as (c1 & H1 & Hs1); [apply fl_notify|].
  destruct (IH c1) as (c2 & H2 & Hs2). exists c2. rewrite (st_bind_ok _ _ _ _ _ H1). split; [done|by eapply same_ledger_trans].
Qed.

(** From the bonus on, nothing fails. *)
Lemma finish_run v c :
  working v c -> Forall (fun tx => exists h, Transaction.getHash tx = Ok h) (m_transactions block) ->
  exists c', (_ ← chain_modify set_back_done;
              _ ← eraseSolicitedTx block;
              _ ← chain_modify (fun c => with_latestBlock block (with_latestNumber (m_number (m_blockHeader block)) c));
              _ ← on_face (notify face (HeightEvent (m_number (m_blockHeader block))));
              _ ← on_face (notify face (BlockEvent block));
              st_foreach (fun tx => on_face (notify face (TransactionEvent tx))) (m_transactions block)) c = (Ok tt, c') /\
    working v c' /\ bc_latestNumber c' = m_number (m_blockHeader block) /\ bc_latestBlock c' = block /\
    bc_producerRecord c' = bc_producerRecord c /\
    exists it, last (bc_memoryQueue c') = Some it /\ mi_isDone it = true.
Proof.
  intros Hw Htx. destruct (set_back_done_working v c Hw) as (Hw1 & _ & _ & it & Hit & Hdone). rewrite bind_modify.
  destruct (erase_run (set_back_done c) _ Htx) as (c2 & H2 & Hs2). unfold eraseSolicitedTx. rewrite (st_bind_ok _ _ _ _ _ H2), bind_modify.
  match goal with |- context [mbind _ (on_face ?m) ?s] => destruct (on_face_run m s tt) as (c3 & H3 & Hs3); [apply fl_notify|] end.
  rewrite (st_bind_ok _ _ _ _ _ H3).
  destruct (on_face_run (notify face (BlockEvent block)) c3 tt) as (c4 & H4 & Hs4); [apply fl_notify|].
  rewrite (st_bind_ok _ _ _ _ _ H4). destruct (notify_run c4 (m_transactions block)) as (c5 & H5 & Hs5).
  exists c5. split; [done|]. pose proof (same_ledger_trans _ _ _ Hs3 (same_ledger_trans _ _ _ Hs4 Hs5)) as Hs.
  pose proof (working_same v _ _ Hs2 Hw1) as Hw2. split; [|split; [|split; [|split]]].
  - apply (working_same v _ _ Hs). destruct Hw2 as [? ? ? ?]. by split.
  - by destruct Hs as (_ & _ & _ & -> & _).
  - by destruct Hs as (_ & _ & _ & _ & -> & _).
  - destruct Hs as (_ & _ & _ & _ & _ & _ & ->). cbn. destruct Hs2 as (_ & _ & _ & _ & _ & _ & ->).
    unfold set_back_done. by destruct (last (bc_memoryQueue c)).
  - exists it. destruct Hs as (_ & -> & _). cbn. destruct Hs2 as (_ & -> & _). done.
Qed.

End Working.

Lemma working_kept d block bs v0 ns v c c' :
  kept c c' -> working d block bs v0 ns v c -> exists a, working (with_attributes a d) block bs v0 ns v c'.
Proof.
  intros ([a Ha] & Hq & Hdet & _) [H1 H2 H3 (l & ls & Hl & [[[D1 D2 D3] Hla Hacc Hpr Htx Hnow] [F1 F2 F3 F4]])]. exists a.
  split; [by rewrite Ha, H1|congruence|unfold numbers; by rewrite Hq|]. exists l, ls. unfold BlockChain.layers in *. rewrite Hq, Hdet.
  split; [done|]. split.
  - split; [split; [exact D1|exact D2|exact D3]|exact Hla|exact Hacc|exact Hpr|exact Htx|exact Hnow].
  - split; [done|exact F2|exact F3|by apply stack_with_attributes].
Qed.

(** ** The execution *)

(** What is asked of a block: a well-formed header in the years the bonus is
    defined for, a known producer and regular transactions. *)
Record executable (block : Block) (L : list h160) c : Prop := {
  ex_header : BlockHeader.valid (m_blockHeader block);
  ex_chainID : is_u64 (bc_chainID c);
  ex_timestamp : GENESIS_TIMESTAMP <= BlockHeader.m_timestamp (m_blockHeader block) < GENESIS_TIMESTAMP + 64 * MILLISECONDS_PER_YEAR;
  ex_producer : m_producer (m_blockHeader block) ∈ L;
  ex_regular : Forall (regular L) (m_transactions block)
}.

Lemma regular_hashes block L c : executable block L c -> Forall (fun tx => exists h, Transaction.getHash tx = Ok h) (m_transactions block).
Proof. intros [_ _ _ _ Hr]. eapply Forall_impl; [exact Hr|]. intros tx [? ? ? [h [Hh _]]]. by exists h. Qed.

Definition reward (block : Block) : Z := BLOCK_BONUS_BASE / 2 ^ bonus_year (BlockHeader.m_timestamp (m_blockHeader block)).

Lemma reward_u64 block : 0 <= bonus_year (BlockHeader.m_timestamp (m_blockHeader block)) -> is_u64 (reward block).
Proof.
  intros Hy. unfold reward. assert (0 < 2 ^ bonus_year (BlockHeader.m_timestamp (m_blockHeader block))) by lia.
  split; [by apply Z.div_pos|]. apply Z.div_lt_upper_bound; [done|]. unfold BLOCK_BONUS_BASE. nia.
Qed.

(** The ledger after the transactions of a block, and after its bonus. *)
Definition txs_ok (base extra : h160 -> Z) (L : list h160) (W : Z) (block : Block) (v : View) : Prop :=
  ledger_ok (bases (m_transactions block) base) (extras (m_transactions block) extra) L
    (W - fees (m_transactions block) + mints (m_transactions block)) v.
Definition block_ok (base extra : h160 -> Z) (L : list h160) (W : Z) (block : Block) (v : View) : Prop :=
  ledger_ok (bases (m_transactions block) base) (extras (m_transactions block) extra) L
    (W - fees (m_transactions block) + mints (m_transactions block) + reward block -
     (if balance v (m_producer (m_blockHeader block)) <? reward block then 2 ^ 64 else 0)) v.

Section Execution.
Context (block : Block) (bs : list Block) (v0 : View) (ns : list Z) (base extra : h160 -> Z) (L : list h160) (HL : NoDup L).

Lemma correlator_step d W v c :
  working d block bs v0 ns v c -> executable block L c -> ledger_ok base extra L W v ->
  exists x c' v', on_back (correlator_run block) c = (x, c') /\ requeued c c' /\ working d block bs v0 ns v' c' /\
    (x = Ok tt /\ txs_ok base extra L W block v' \/ exists e, x = Throw e /\ is_GSException e = true) /\
    (m_transactions block = [] -> x = Ok tt /\ v' = v).
Proof.
  intros Hw [Hv Hid Hts Hp Hreg] Hl. destruct (m_transactions block) as [|tx txs] eqn:Et.
  - pose proof Hw as [_ _ _ (l & ls & Hls & Hr)].
    destruct (on_back_reps d block bs v0 ns (correlator_run block) v c l ls (Ok tt) (mkRepo d l ls) v Hw Hls) as (c' & H1 & H2 & H3);
      [unfold correlator_run; by rewrite Et|done|].
    eexists _, c', v. split; [exact H1|]. split; [done|]. split; [done|]. split; [|done]. left. split; [done|].
    unfold txs_ok. rewrite Et. cbn. by rewrite Z.sub_0_r, Z.add_0_r.
  - rewrite <- Et in *.
    pose proof (@correlator_triple _ _ (framed_laws d block bs v0) L HL base extra W block Hreg ltac:(unfold GENESIS_TIMESTAMP in Hts; lia)) as Hct.
    destruct (on_back_triple _ _ _ _ _ _ _ _ v c Hct Hw Hl) as (x1 & c1 & v1 & H1 & H2 & H3 & H4). exists x1, c1, v1.
    split; [done|]. split; [done|]. split; [done|]. split; [done|]. by rewrite Et.
Qed.

(** From the bonus on. *)
Lemma bonus_step d W v c :
  working d block bs v0 ns v c -> executable block L c -> txs_ok base extra L W block v ->
  exists x c' v', (value ← st_lift (block_bonus (BlockHeader.m_timestamp (m_blockHeader block)));
                   _ ← on_back (bonus (m_producer (m_blockHeader block)) value);
                   _ ← chain_modify set_back_done;
                   _ ← eraseSolicitedTx block;
                   _ ← chain_modify (fun c => with_latestBlock block (with_latestNumber (m_number (m_blockHeader block)) c));
                   _ ← on_face (notify face (HeightEvent (m_number (m_blockHeader block))));
                   _ ← on_face (notify face (BlockEvent block));
                   st_foreach (fun tx => on_face (notify face (TransactionEvent tx))) (m_transactions block)) c = (x, c') /\
    working d block bs v0 ns v' c' /\ bc_producerRecord c' = bc_producerRecord c /\
    (x = Ok tt /\ block_ok base extra L W block v' /\ bc_latestNumber c' = m_number (m_blockHeader block) /\ bc_latestBlock c' = block \/
     (exists e, x = Throw e /\ is_GSException e = true) /\ bc_latestNumber c' = bc_latestNumber c /\ bc_latestBlock c' = bc_latestBlock c) /\
    (is_empty_account (v_acct v (m_producer (m_blockHeader block))) = false -> x = Ok tt).
Proof.
  intros Hw Hex Hl. pose proof (regular_hashes _ _ c Hex) as Hh. destruct Hex as [Hv Hid Hts Hp Hreg].
  destruct (block_bonus_ok _ Hts) as [Hbonus Hyear]. rewrite (bind_lift _ _ _ _ Hbonus). fold (reward block).
  pose proof (reward_u64 block (proj1 Hyear)) as Hrw.
  destruct (on_back_outcome _ _ _ _ _ (bonus (m_producer (m_blockHeader block)) (reward block)) v c _ _
    (fun r Hr => @bonus_run _ _ (framed_laws d block bs v0) r v (m_producer (m_blockHeader block)) (reward block) Hr) Hw)
    as (c3 & H3 & (q3 & -> & Hk3) & Hw3).
  destruct (is_empty_account (v_acct v (m_producer (m_blockHeader block)))) eqn:Ee.
  { eexists _, _, v. rewrite (st_bind_throw _ _ _ _ _ H3). split; [reflexivity|]. split; [done|]. split; [done|]. split; [right; split; [by eexists|done]|done]. }
  rewrite (st_bind_ok _ _ _ _ _ H3). destruct (finish_run _ _ _ _ _ _ _ Hw3 Hh) as (c4 & H4 & Hw4 & Hn4 & Hb4 & Hrec4 & _).
  eexists _, c4, _. split; [exact H4|]. split; [exact Hw4|]. split; [done|]. split; [|done]. left. split; [done|]. split; [|done].
  pose proof Hw as [_ _ _ (l & ls & _ & Hr)].
  exact (@bonus_ledger_ok _ _ (framed_laws d block bs v0) L HL _ _ _ _ v _ _ Hr Hp Hrw Ee Hl).
Qed.

Lemma process_item_run d W v c :
  working d block bs v0 ns v c -> executable block L c -> ledger_ok base extra L W v ->
  exists x c' v' a, process_item face block c = (x, c') /\ working (with_attributes a d) block bs v0 ns v' c' /\
    (x = Ok tt /\ block_ok base extra L W block v' /\ bc_latestNumber c' = m_number (m_blockHeader block) /\ bc_latestBlock c' = block \/
     (exists e, x = Throw e /\ (is_GSException e = false -> scheduling block = true)) /\
       bc_latestNumber c' = bc_latestNumber c /\ bc_latestBlock c' = bc_latestBlock c) /\
    (scheduling block = false -> with_attributes a d = d /\ bc_producerRecord c' = bc_producerRecord c /\
       (m_transactions block = [] -> is_empty_account (v_acct v (m_producer (m_blockHeader block))) = false -> x = Ok tt)).
Proof.
  intros Hw Hex Hl. pose proof (with_attributes_self d) as Hself.
  destruct (correlator_step d W v c Hw Hex Hl) as (x1 & c1 & v1 & H1 & (q1 & -> & Hk1) & Hw1 & Hout1 & Hnil). unfold process_item.
  destruct Hout1 as [[-> Hl1]|(e & -> & He)].
  2: { eexists _, _, v1, (m_attributesStore d). rewrite (st_bind_throw _ _ _ _ _ H1), Hself. split; [reflexivity|]. split; [done|].
       split; [right; split; [exists e; by rewrite He|done]|]. intros _. split; [done|]. split; [done|]. by intros [? _]%Hnil. }
  rewrite (st_bind_ok _ _ _ _ _ H1).
  destruct (confirm_block_run block (with_queue q1 c) (ex_header _ _ _ Hex) (ex_chainID _ _ _ Hex)) as (c2 & H2 & Hs2).
  rewrite (st_bind_ok _ _ _ _ _ H2). pose proof (working_same _ _ _ _ _ v1 _ _ Hs2 Hw1) as Hw2.
  destruct Hs2 as (_ & _ & _ & Hn2 & Hb2 & Hid2 & Hrec2). cbn in Hn2, Hb2, Hid2, Hrec2.
  assert (executable block L c2) as Hex2 by (destruct Hex; split; [done|by rewrite Hid2|done..]).
  match goal with |- context [(mbind _ ?m) c2] => change m with (reschedule block) end.
  destruct (reschedule block c2) as [x3 c3] eqn:E3. destruct (scheduling block) eqn:Es.
  - pose proof (kept_reschedule block c2) as Hk. rewrite E3 in Hk. cbn [snd] in Hk.
    destruct (working_kept _ _ _ _ _ _ _ _ Hk Hw2) as [a Hw3]. pose proof Hk as (_ & _ & _ & Hn3 & Hb3 & Hid3).
    destruct x3 as [[]|e].
    + rewrite (st_bind_ok _ _ _ _ _ E3).
      assert (executable block L c3) as Hex3 by (destruct Hex2; split; [done|by rewrite Hid3|done..]).
      destruct (bonus_step _ W v1 c3 Hw3 Hex3 Hl1) as (x4 & c4 & v4 & H4 & Hw4 & _ & Hout & _). exists x4, c4, v4, a.
      split; [exact H4|]. split; [done|]. split; [|done].
      destruct Hout as [Hout|[(e & -> & He) [Hn4 Hb4]]]; [by left|right]. split; [exists e; by rewrite He|]. split; congruence.
    + rewrite (st_bind_throw _ _ _ _ _ E3). exists (Throw e), c3, v1, a. split; [done|]. split; [done|]. split; [|done].
      right. split; [by exists e|]. split; congruence.
  - unfold reschedule in E3. rewrite Es in E3. injection E3 as <- <-. unfold reschedule. rewrite Es.
    destruct (bonus_step _ W v1 c2 Hw2 Hex2 Hl1) as (x4 & c4 & v4 & H4 & Hw4 & Hrec & Hout & Hne). exists x4, c4, v4, (m_attributesStore d).
    rewrite Hself. split; [exact H4|]. split; [done|]. split; [|].
    + destruct Hout as [Hout|[(e & -> & He) [Hn4 Hb4]]]; [by left|right]. split; [exists e; by rewrite He|]. split; congruence.
    + intros _. split; [done|]. split; [congruence|]. intros Ht Ha. apply Hne. by destruct (Hnil Ht) as [_ ->].
Qed.
End Execution.

Lemma addMemoryItem_working c v block :
  chain_holds c v ->
  working (bc_dbc c) block (map Repository.m_block (layers c)) v (numbers c)
    (at_time (BlockHeader.m_timestamp (m_blockHeader block)) v) (addMemoryItem block c).
Proof.
  intros [Hd Hs].
  assert (bc_detached (addMemoryItem block c) = []) as Hd' by (unfold addMemoryItem; cbn; by destruct (bc_memoryQueue c)).
  assert (layers (addMemoryItem block c) = new_layer block :: layers c) as Hl.
  { rewrite !layers_nodetached by done. unfold addMemoryItem, Queue.push. cbn. by rewrite map_app, rev_app_distr. }
  split; [done|done| |].
  - unfold numbers, addMemoryItem, Queue.push. cbn. by rewrite map_app.
  - eexists _, _. split; [exact Hl|]. split; [apply stack_holds_repo; by apply stack_new_layer|by split].
Qed.

Lemma ledger_ok_at_time base extra L W t v : ledger_ok base extra L W v -> ledger_ok base extra L W (at_time t v).
Proof. intros [[H1 H2 H3] Hb Ht]. split; [by split|done|done]. Qed.

(** The ends of [doProcessBlock]: the block was executed; nothing is left of
    it in the queue; or an exception that the handlers do not know has left
    its item in the queue. *)
Definition executed (block : Block) c c' : Prop :=
  numbers c' = numbers c ++ [m_number (m_blockHeader block)] /\
  bc_latestNumber c' = m_number (m_blockHeader block) /\ bc_latestBlock c' = block.
Definition rejected c c' : Prop :=
  numbers c' = numbers c /\ bc_latestNumber c' = bc_latestNumber c /\ bc_latestBlock c' = bc_latestBlock c.
Definition escaped (block : Block) c c' : Prop :=
  numbers c' = numbers c ++ [m_number (m_blockHeader block)] /\ bc_latestNumber c' = bc_latestNumber c /\ bc_latestBlock c' = bc_latestBlock c.

(** The result [x], the chain and the ledger are one of the three ends. *)
Definition block_end (base extra : h160 -> Z) (L : list h160) (block : Block) (v : View) (x : result unit) c c' (v' : View) : Prop :=
  (x = Ok tt /\ executed block c c' /\ block_ok base extra L (worth v L) block v') \/
  (x = Ok tt /\ rejected c c' /\ v' = v) \/
  (scheduling block = true /\ escaped block c c' /\ exists e, x = Throw e /\ is_GSException e = false).

Lemma doProcessBlock_tail base extra L block c v :
  NoDup L -> chain_holds c v -> executable block L c -> votes_ok base extra v -> balances_ok v ->
  exists x c' v', (_ ← chain_modify (addMemoryItem block);
                 st_catch (process_item face block) (fun e => if is_GSException e then Some (chain_modify cancelMemoryItem) else None)) c = (x, c') /\
    chain_holds c' v' /\ (exists a, bc_dbc c' = with_attributes a (bc_dbc c)) /\ block_end base extra L block v x c c' v' /\
    (scheduling block = false -> bc_dbc c' = bc_dbc c /\ bc_producerRecord c' = bc_producerRecord c /\
       (m_transactions block = [] -> is_empty_account (v_acct v (m_producer (m_blockHeader block))) = false -> executed block c c')).
Proof.
  intros HL Hc Hex Hv Hb. pose proof (addMemoryItem_working c v block Hc) as Hw. rewrite bind_modify.
  assert (executable block L (addMemoryItem block c)) as Hex' by (destruct Hex; by split).
  assert (ledger_ok base extra L (worth v L) v) as Hl by by split.
  destruct (process_item_run _ _ _ _ base extra L HL _ _ _ _ Hw Hex' (ledger_ok_at_time _ _ _ _ _ _ Hl)) as (x & c' & v' & a & Hrun & Hw' & Hout & Hns).
  unfold st_catch. rewrite Hrun. destruct Hout as [(-> & Hl' & Hn & Hlb)|((e & -> & He) & Hn & Hlb)].
  - pose proof Hw' as [Hdb _ Hnum _]. exists (Ok tt), c', v'. split; [done|]. split; [by eapply working_holds|]. split; [by exists a|].
    assert (executed block c c') as Hx by done. split; [left; split; [done|]; by split|]. intros Hs. destruct (Hns Hs) as (H1 & H2 & _). split; [congruence|]. by split.
  - destruct (is_GSException e) eqn:Eg.
    + destruct (cancel_working _ _ _ _ _ _ _ Hw') as (H1 & H2 & H3 & H4 & H5). exists (Ok tt), (cancelMemoryItem c'), v.
      split; [done|]. split; [done|]. split; [by exists a|]. split; [right; left; split; [done|]; split; [|done]; split; [done|]; by rewrite H4, H5, Hn, Hlb|].
      intros Hs. destruct (Hns Hs) as (Ha & Hrec & Hne). split; [congruence|]. split; [exact Hrec|]. intros Ht Hacc. by specialize (Hne Ht Hacc).
    + pose proof Hw' as [Hdb _ Hnum _]. exists (Throw e), c', v'. split; [done|]. split; [by eapply working_holds|]. split; [by exists a|].
      specialize (He eq_refl). split; [right; right; split; [done|]; split; [by repeat split|by exists e]|]. intros Hs. congruence.
Qed.

Lemma executable_same block L c c' : bc_chainID c' = bc_chainID c -> executable block L c -> executable block L c'.
Proof. intros Hid [? ? ? ? ?]. split; [done|by rewrite Hid|done..]. Qed.

(** C1. [doProcessBlock] executes a block completely or not at all, as far as
    the queue, the latest block and the ledger go. On a chain that shows the
    ledger [v] it ends in one of three ways. The block is queued and is the new
    latest block, balances fit 64 bits, votes are as [block_keeps_ledger] says
    of its transactions, and the addresses involved are worth what they were
    minus the fees, plus what transfers to oneself mint, plus the bonus (2^64
    less if it wrapped). Or the queue, the latest block and the whole ledger are
    what they were. Or, for a scheduling block only, writing the producer lists
    has thrown something that is no [GSException], which leaves the item in the
    queue. What the database holds of the ledger is untouched; a scheduling
    block may write attributes, and a rejected one does not take them back.
    Nor is the producer record taken back: for other blocks it has the block's
    slot as soon as no transaction was recorded before, executed or not. Such a
    block without transactions whose producer has an account is executed. *)
Theorem block_execution_atomic (base extra : h160 -> Z) (L : list h160) (block prev : Block) (c : @BlockChain DB E) (v : View)
    (HL : NoDup L) (Hc : chain_holds c v) (Hex : executable block L c) (Hv : votes_ok base extra v) (Hb : balances_ok v)
    (Hprev : getBlockByNumber h0 (u64 (m_number (m_blockHeader block) - 1)) c = Ok prev)
    (Hslot : producerPosition (BlockHeader.m_timestamp (m_blockHeader block)) <= zlen (getSortedProducerList face (bc_face c))) :
  exists x c' v', doProcessBlock face h0 block c = (x, c') /\ chain_holds c' v' /\ (exists a, bc_dbc c' = with_attributes a (bc_dbc c)) /\
    block_end base extra L block v x c c' v' /\
    (scheduling block = false ->
       bc_dbc c' = bc_dbc c /\
       bc_producerRecord c' = (if fresh_txs v (m_transactions block)
         then <[m_producer (m_blockHeader block) := BlockHeader.m_timestamp (m_blockHeader block)]> (bc_producerRecord c)
         else bc_producerRecord c) /\
       (m_transactions block = [] -> is_empty_account (v_acct v (m_producer (m_blockHeader block))) = false -> executed block c c')).
Proof.
  destruct (check_existing_run c v _ Hc (regular_hashes block L c Hex)) as (c1 & H1 & Hq & Hc1). unfold doProcessBlock.
  pose proof (requeued_numbers _ _ Hq) as Hnum1. destruct Hq as (q & -> & Hk). destruct (fresh_txs v (m_transactions block)) eqn:Ef.
  2: { exists (Ok tt), (with_queue q c), v. erewrite catch_throw; [|rewrite (st_bind_throw _ _ _ _ _ H1); reflexivity|reflexivity].
       split; [reflexivity|]. split; [done|]. split; [exists (m_attributesStore (bc_dbc c)); by rewrite with_attributes_self|].
       split; [right; left; by repeat split|]. intros _. split; [done|]. split; [done|]. intros Ht. by rewrite Ht in Ef. }
  assert (getBlockByNumber h0 (u64 (m_number (m_blockHeader block) - 1)) (with_queue q c) = Ok prev) as Hprev1.
  { rewrite <- Hprev. apply getBlockByNumber_requeued. by exists q. }
  destruct (updateActiveProducers_run (with_queue q c) v block prev Hc1 Hprev1 Hslot) as (c2 & H2 & Hs2).
  pose proof (same_ledger_layers _ _ Hs2) as [Hl2 Hnum2]. destruct Hs2 as (Hdb2 & Hq2 & Hd2 & Hn2 & Hb2 & Hid2 & Hrec2).
  set (c3 := with_record (<[m_producer (m_blockHeader block) := BlockHeader.m_timestamp (m_blockHeader block)]> (bc_producerRecord c2)) c2).
  assert (chain_holds c3 v) as Hc3.
  { destruct Hc1 as [Hd1 Hs1]. split; [cbn; congruence|].
    change (stack_holds (bc_dbc c2) (layers c2) v). by rewrite Hdb2, Hl2. }
  destruct (doProcessBlock_tail base extra L block c3 v HL Hc3 (executable_same block L c c3 Hid2 Hex) Hv Hb)
    as (x & c' & v' & Hrun & Hc' & [a Hdb'] & Hout & Hns).
  assert (numbers c3 = numbers c) as Hnum3 by (change (numbers c3) with (numbers c2); by rewrite Hnum2, Hnum1).
  change (bc_dbc c3) with (bc_dbc c2) in *. rewrite Hdb2 in Hdb', Hns. cbn in Hdb', Hn2, Hb2, Hrec2.
  assert (executed block c3 c' <-> executed block c c') as Hexe by (unfold executed; by rewrite Hnum3).
  exists x, c', v'. split.
  { unfold st_catch at 1. rewrite (st_bind_ok _ _ _ _ _ H1), (st_bind_ok _ _ _ _ _ H2), bind_modify.
    match goal with |- match ?m with _ => _ end = _ => replace m with (x, c') by (symmetry; exact Hrun) end.
    destruct x as [[]|e]; [done|]. destruct Hout as [[? _]|[[? _]|(_ & _ & e' & [= ->] & ->)]]; done. }
  split; [done|]. split; [by exists a|]. split.
  - destruct Hout as [(-> & He & Hok)|[(-> & Hr & ->)|(Hs & Hesc & Hx)]]; [left|right; left|right; right].
    + split; [done|]. split; [by apply Hexe|done].
    + split; [done|]. split; [|done]. unfold rejected in *. rewrite Hnum3 in Hr. cbn in Hr. by rewrite Hn2, Hb2 in Hr.
    + split; [done|]. split; [|done]. unfold escaped in *. rewrite Hnum3 in Hesc. cbn in Hesc. by rewrite Hn2, Hb2 in Hesc.
  - intros Hs. destruct (Hns Hs) as (Hd & Hrec & Hne). split; [done|]. split; [rewrite Hrec; cbn; by rewrite Hrec2|].
    intros Ht Ha. by apply Hexe, Hne.
Qed.
End Facts.
