(* ===== verification/SolidifyFacts.v ===== *)
(** * Solidified blocks reach the database

    [BlockChain::onSolidifiable] pops the queued blocks up to the solidified
    number and commits each of them. *)

From S2P Require Import Prelude CommonData RLP RLPFacts FixedHash SHA3 Codec.
From S2P Require Import Account Producer Transaction BlockHeader Block BlockState RollbackState.
From S2P Require Import AttributeState Database Ledger LedgerFacts Actions Repository RepositoryFacts FrameFacts CommitFacts Schedule Caches Crypto.
From S2P Require Import BlockChain BlockChainFacts.
Import Spec.

(** ** Removing a block from the fork database keeps the higher ones *)

Lemma reaches_first rs id q : reaches rs id q -> exists p s, entry rs p s /\ m_blockID s = id.
Proof. intros [p s He|p s q' He _]; by exists p, s. Qed.

Lemma reaches_number rs p s q t :
  index_wf rs -> linked rs -> entry rs p s -> reaches rs (m_blockID s) q -> entry rs q t -> m_blockNumber t <= m_blockNumber s.
Proof.
  intros Hw Hl He Hr Hq. remember (m_blockID s) as id eqn:Hid. revert p s He Hid.
  induction Hr as [p' s' He'|p' s' q He' Hr IH]; intros p s He Hid.
  - pose proof (entry_inj rs _ _ _ _ Hw He' He Hid) as ->. destruct He as [_ H1], Hq as [_ H2]. simplify_eq. lia.
  - pose proof (entry_inj rs _ _ _ _ Hw He' He Hid) as ->. assert (s' = s) as -> by (destruct He as [_ H1], He' as [_ H2]; congruence).
    destruct (reaches_first _ _ _ Hr) as (p2 & s2 & He2 & Hid2). specialize (IH Hq p2 s2 He2 (eq_sym Hid2)).
    pose proof (Hl _ _ _ _ He He2 (eq_sym Hid2)). lia.
Qed.

Lemma find_filter {A} (P Q : A -> bool) l :
  (forall x, In x l -> P x = true -> Q x = true) -> List.find P (List.filter Q l) = List.find P l.
Proof.
  induction l as [|x l IH]; intros Hpq; [done|]. cbn. assert (forall y, In y l -> P y = true -> Q y = true) as Hl
    by (intros y Hy; apply Hpq; by right). specialize (Hpq x (or_introl eq_refl)).
  destruct (Q x); cbn; destruct (P x); auto. by specialize (Hpq eq_refl).
Qed.

Lemma remove_keeps_number rs p s n :
  index_wf rs -> linked rs -> entry rs p s -> m_blockNumber s < n ->
  RollbackState.getBlockByNumber n (remove (m_blockID s) rs) = RollbackState.getBlockByNumber n rs.
Proof.
  intros Hw Hl He Hn. unfold remove. rewrite remove_loop_erased. unfold RollbackState.getBlockByNumber, find_index.
  cbn [m_index set_index]. change (points ?P (set_index ?ix rs)) with (points P rs). apply find_filter. intros q Hq Hp.
  unfold points in Hp. destruct (heap rs !! q) as [t|] eqn:Et; [|done]. apply Z.eqb_eq in Hp. apply negb_true_iff, not_true_iff_false.
  intros Hex. apply existsb_exists in Hex as (r & Hr & Hrq%Nat.eqb_eq). subst r. apply list_elem_of_In in Hr, Hq.
  pose proof (reaches_number rs p s q t Hw Hl He (erased_reaches _ _ _ _ Hr) (conj Hq Et)). lia.
Qed.

Lemma remove_entry rs id p s : entry (remove id rs) p s -> entry rs p s.
Proof.
  unfold remove. rewrite remove_loop_erased. intros [Hp Hs]. cbn [m_index heap set_index] in *. split; [|done].
  apply list_elem_of_In in Hp. apply filter_In in Hp as [Hp _]. by apply list_elem_of_In.
Qed.

Lemma remove_linked rs id : linked rs -> linked (remove id rs).
Proof. intros Hl p s q t Hp%remove_entry Hq%remove_entry. by apply (Hl p s q t). Qed.

Lemma remove_wf rs id : index_wf rs -> index_wf (remove id rs) /\ heap (remove id rs) = heap rs.
Proof. intros Hw. unfold remove. rewrite remove_loop_erased. split; [by apply index_wf_filter|done]. Qed.

(** ** Commit below a stack *)

(** Whether one of the layers holds an account. *)
Definition cached_in (a : h160) (ls : list Layer) : bool := existsb (fun l => bool_decide (is_Some (m_cacheAccount l !! a))) ls.

(** The ledger after the layers [popped] were committed below the layers
    [rest]: an account that now comes from the database because a popped layer
    held it and no other does is resaved; nothing else changes. *)
Record committed (popped rest : list Layer) (v v' : View) : Prop := {
  cm_acct a : v_acct v' a = if cached_in a popped && negb (cached_in a rest) then resaved (v_acct v a) else v_acct v a;
  cm_prod a : v_prod v' a = v_prod v a;
  cm_txn h : v_txn v' h = v_txn v h
}.

Lemma committed_nil rest v : committed [] rest v v.
Proof. by split. Qed.

Lemma cached_in_app a ls1 ls2 : cached_in a (ls1 ++ ls2) = cached_in a ls1 || cached_in a ls2.
Proof. apply existsb_app. Qed.

Lemma cached_in_rev a ls : cached_in a (rev ls) = cached_in a ls.
Proof. induction ls as [|l ls IH]; [done|]. cbn [rev]. rewrite cached_in_app, IH. cbn. by rewrite orb_false_r, orb_comm. Qed.
Lemma committed_rev popped rest v v' : committed popped (rev rest) v v' -> committed popped rest v v'.
Proof. intros [A P T]. split; [|done|done]. intros a. by rewrite A, cached_in_rev. Qed.

Lemma committed_cons l popped rest v v1 v2 :
  committed [l] (popped ++ rest) v v1 -> committed popped rest v1 v2 -> committed (l :: popped) rest v v2.
Proof.
  intros [A1 P1 T1] [A2 P2 T2]. split; [|intros a; by rewrite P2|intros h; by rewrite T2]. intros a. rewrite A2, A1, cached_in_app.
  change (cached_in a (l :: popped)) with (cached_in a ([l] ++ popped)). rewrite cached_in_app.
  by destruct (cached_in a [l]), (cached_in a popped), (cached_in a rest).
Qed.

Lemma view_bottom {K V} `{Countable K} (C : Cache K V) (R : V -> V -> Prop) `{!Reflexive R} db db' ls l :
  (forall k, R (view C db [l] k) (view C db' [] k)) -> forall k, R (view C db (ls ++ [l]) k) (view C db' ls k).
Proof.
  intros Hl k. induction ls as [|m ls IH]; [apply Hl|]. cbn [app view]. by destruct (c_get C m !! k).
Qed.

Lemma view_resaved db db' ls l a :
  view accounts db' [] a = (if cached_in a [l] then resaved (view accounts db [l] a) else view accounts db [l] a) ->
  view accounts db' ls a =
  if cached_in a [l] && negb (cached_in a ls) then resaved (view accounts db (ls ++ [l]) a) else view accounts db (ls ++ [l]) a.
Proof.
  intros Hl. induction ls as [|m ls IH]; [by rewrite Hl, andb_true_r|]. cbn [app view].
  change (cached_in a (m :: ls)) with (bool_decide (is_Some (m_cacheAccount m !! a)) || cached_in a ls). change (c_get accounts m) with (m_cacheAccount m).
  destruct (m_cacheAccount m !! a) as [x|]; cbn [default].
  - rewrite bool_decide_eq_true_2 by by eexists. by rewrite andb_false_r.
  - rewrite bool_decide_eq_false_2 by by intros []. exact IH.
Qed.

Section Commit.
Context {DB : Type} `{KVStoreLaws DB}.

Lemma commit_bottom (h0 : BlockHeader) (c : @DatabaseController DB) ls l v :
  stack_holds c (ls ++ [l]) v -> storable l ->
  exists c' v', commit (mkRepo c l []) = Ok (mkRepo c' l []) /\ stack_holds c' ls v' /\ committed [l] ls v v' /\
    (forall n, is_u64 n -> Database.getBlockByNumber h0 n c' =
       if decide (n = m_number (m_blockHeader (m_block l))) then Ok (m_block l) else Database.getBlockByNumber h0 n c) /\
    m_attributesStore c' = m_attributesStore c.
Proof.
  intros [Hd [Hla Hlp Hlt] Ha Hp Ht] Hs. set (r := mkRepo c l []).
  apply Forall_app in Hla as [Hla Hla'], Hlp as [Hlp Hlp'], Hlt as [Hlt Hlt'].
  assert (holds r (mkView (account_view r) (producer_view r) (transaction_view r) (BlockHeader.m_timestamp (m_blockHeader (m_block l))))) as Hr
    by (by split).
  destruct (commit_root_spec r _ h0 Hr eq_refl Hs) as (c' & H1 & H2 & H3 & H4 & H5 & H6 & H7). cbn [v_acct v_prod v_txn] in *.
  exists c', (mkView (view accounts (fun k => Database.getAccount k c') ls) (v_prod v) (v_txn v) (v_now v)).
  split; [exact H1|]. split; [|split; [|by split]].
  - split; [done|by split|done|..].
    + intros a. cbn [v_prod]. rewrite <- Hp. symmetry. apply (view_bottom producers eq). intros k.
      pose proof (db_view_of_producer c' k H2) as E. rewrite H4 in E. injection E as E. exact E.
    + intros h. cbn [v_txn]. rewrite <- Ht. symmetry. apply (view_bottom transactions eq). intros k.
      pose proof (db_view_of_transaction c' k H2) as E. rewrite H5 in E. injection E as E. exact E.
  - split; [|done|done]. intros a. cbn [v_acct]. rewrite <- Ha. apply view_resaved.
    destruct (H3 a) as (x & Hx & Hsx). destruct (db_view_of_account c' a H2) as (y & Hy & Hsy). rewrite Hx in Hy. injection Hy as <-.
    pose proof Hla' as [Hgl _]%Forall_cons. cbn [view cached_in existsb]. rewrite Hsy. change (c_get accounts l) with (m_cacheAccount l). cbn [top r] in Hsx.
    destruct (m_cacheAccount l !! a) as [z|] eqn:Ez; cbn [default].
    + rewrite bool_decide_eq_true_2 by by eexists. destruct Hsx as [_ ->]. destruct (Hgl a z Ez) as (_ & _ & Hz). by destruct z; cbn in Hz; subst.
    + rewrite bool_decide_eq_false_2 by by intros []. destruct Hsx as [_ <-]. unfold account_view, RepositoryFacts.layers, r.
      cbn [v_acct view top parents m_dbc orb]. change (c_get accounts l) with (m_cacheAccount l). by rewrite Ez.
Qed.

(** Only the ledger stores of the database matter to a stack. *)
Lemma stack_with_blockStates d i (c : @DatabaseController DB) ls v : stack_holds c ls v -> stack_holds (with_blockStates d i c) ls v.
Proof. intros [[D1 D2 D3] Hl Ha Hp Ht]. split; [split; [exact D1|exact D2|exact D3]|done|exact Ha|exact Hp|exact Ht]. Qed.
End Commit.

(** ** One round of the loop *)

Definition key_dirty : bytes := AttributeState.m_key (ATTRIBUTE_DB_DIRTY initial_globals).
Definition key_height : bytes := AttributeState.m_key (ATTRIBUTE_CURRENT_BLOCK_HEIGHT initial_globals).
Definition key_active : bytes := AttributeState.m_key (ATTRIBUTE_SOLIDIFY_ACTIVE_PRODUCER_LIST initial_globals).

(** The global attributes keep their keys and types. *)
Record globals_ok (g : Globals) : Prop := {
  go_dirty : AttributeState.m_key (ATTRIBUTE_DB_DIRTY g) = key_dirty /\
             AttributeState.m_type (ATTRIBUTE_DB_DIRTY g) = Uint64Type /\ AttributeState.m_data (ATTRIBUTE_DB_DIRTY g) = [];
  go_height : AttributeState.m_key (ATTRIBUTE_CURRENT_BLOCK_HEIGHT g) = key_height /\
              AttributeState.m_type (ATTRIBUTE_CURRENT_BLOCK_HEIGHT g) = Uint64Type /\ AttributeState.m_data (ATTRIBUTE_CURRENT_BLOCK_HEIGHT g) = [];
  go_active : AttributeState.m_key (ATTRIBUTE_SOLIDIFY_ACTIVE_PRODUCER_LIST g) = key_active /\
              AttributeState.m_type (ATTRIBUTE_SOLIDIFY_ACTIVE_PRODUCER_LIST g) = BytesType /\
              AttributeState.m_value (ATTRIBUTE_SOLIDIFY_ACTIVE_PRODUCER_LIST g) = 0
}.

Lemma initial_globals_ok : globals_ok initial_globals.
Proof. by split. Qed.

Lemma uint_stored t n : AttributeState.m_type t = Uint64Type -> AttributeState.m_data t = [] -> is_u64 n -> stored (setValue n t).
Proof. intros Ht Hd Hn. left. by rewrite <- Hd. Qed.

Lemma data_stored t ps :
  AttributeState.m_type t = BytesType -> AttributeState.m_value t = 0 -> snapshot_valid ps ->
  stored (setData (enc_list (snapshot_fields ps)) t).
Proof. intros Ht Hv Hps. pose proof (snapshot_data_stored [] ps Hps) as [(Hf & _)|(_ & _ & H1 & H2)]; [done|]. right. split; [exact Ht|]. split; [exact Hv|]. by split. Qed.

(** What can be put in the database of a block state. *)
Definition state_storable (s : BlockState) : Prop := BlockState.valid s /\ BlockHeader.valid (m_blockHeader (BlockState.m_block s)).

(** Reduce the projections of an updated chain. *)
Ltac chain_cbn :=
  cbn [with_dbc with_globals with_queue with_detached with_rollback bc_dbc bc_globals bc_memoryQueue bc_detached bc_rollbackState].

Section Solidify.
Context {DB E : Type} `{KVStoreLaws DB} `{Secp256k1} (face : MessageFace E) {HF : FaceLaws face}.
Variable h0 : BlockHeader.
Implicit Types c : @BlockChain DB E.

Lemma store_global_run rd wr f c :
  (forall t g, rd (wr t g) = t) -> stored (f (rd (bc_globals c))) ->
  let t := f (rd (bc_globals c)) in
  store_global rd wr f c = (Ok tt, with_dbc (put_attr t (bc_dbc c)) (with_globals (wr t (bc_globals c)) c)).
Proof.
  intros Hw Hs. cbv zeta. unfold store_global, set_globals. rewrite bind_modify, bind_read. unfold on_dbc. cbn [with_globals bc_globals bc_dbc].
  by rewrite Hw, putAttribute_enc.
Qed.

Lemma put_blockState_ok s (d : @DatabaseController DB) :
  BlockState.valid s -> BlockHeader.valid (m_blockHeader (BlockState.m_block s)) ->
  exists ds ix, put_blockState s d = Ok (with_blockStates ds ix d).
Proof.
  intros Hv Hh. unfold put_blockState. rewrite block_getKey by done. cbn [mbind result_bind].
  rewrite BlockState.blockState_getRLPData_enc by done. by eexists _, _.
Qed.

(** The chain after one block was solidified. *)
Record solidified_block (item : MemoryItem) (s : BlockState) c c' : Prop := {
  sb_queue : bc_memoryQueue c = item :: bc_memoryQueue c';
  sb_detached : bc_detached c' = [];
  sb_globals : globals_ok (bc_globals c');
  sb_height : m_value (ATTRIBUTE_CURRENT_BLOCK_HEIGHT (bc_globals c')) = mi_blockNumber item;
  sb_db_height : getAttribute key_height (bc_dbc c') = Ok (ATTRIBUTE_CURRENT_BLOCK_HEIGHT (bc_globals c'));
  sb_db_dirty : exists t, getAttribute key_dirty (bc_dbc c') = Ok t /\ m_type t = Uint64Type /\ m_value t = 0;
  sb_blocks n : is_u64 n -> Database.getBlockByNumber h0 n (bc_dbc c') =
    if decide (n = mi_blockNumber item) then Ok (Repository.m_block (mi_layer item)) else Database.getBlockByNumber h0 n (bc_dbc c);
  sb_rollback : bc_rollbackState c' = setSolidifyNumber (mi_blockNumber item) (RollbackState.remove (m_blockID s) (bc_rollbackState c));
  sb_status : bc_status c' = bc_status c;
  sb_latest : bc_latestNumber c' = bc_latestNumber c /\ bc_latestBlock c' = bc_latestBlock c /\ bc_head c' = bc_head c
}.

Lemma solidify_item_run c v item q p s :
  chain_holds c v -> bc_memoryQueue c = item :: q -> globals_ok (bc_globals c) -> storable (mi_layer item) ->
  m_number (m_blockHeader (Repository.m_block (mi_layer item))) = mi_blockNumber item ->
  RollbackState.getBlockByNumber (mi_blockNumber item) (bc_rollbackState c) = Some p -> heap (bc_rollbackState c) !! p = Some s ->
  state_storable s ->
  exists c' v', solidify_item item c = (Ok tt, c') /\ chain_holds c' v' /\ committed [mi_layer item] (map mi_layer q) v v' /\ solidified_block item s c c'.
Proof.
  intros [Hd Hs] Hq Hg Hst Hnum Hp Hps [Hsv Hsh]. pose proof Hg as [(Kd & Td & Dd) (Kh & Th & Dh) (Ka & Ta & Va)].
  assert (mi_blockNumber item = m_blockNumber s) as Hn.
  { pose proof (find_index_entry _ _ _ Hp) as (s' & [_ Hs'] & Hn%Z.eqb_eq). congruence. }
  pose proof (bs_number s Hsv) as Hu. rewrite layers_nodetached, Hq in Hs by done. cbn [map rev] in Hs.
  unfold solidify_item, set_db_dirty. rewrite (st_bind_ok _ _ _ _ _ (store_global_run _ set_dirty (setValue 1) c (fun _ _ => eq_refl) (uint_stored _ 1 Td Dd ltac:(done)))).
  match goal with |- context [mbind _ (pop_commit item) ?x] => set (c1 := x) end.
  destruct (commit_bottom h0 (bc_dbc c1) (rev (map mi_layer q)) (mi_layer item) v (stack_with_attributes _ _ _ _ Hs) Hst)
    as (d & v' & Hcom & Hsd & Hsv' & Hblocks & Hattr).
  assert (pop_commit item c1 = (Ok tt, with_detached [mi_layer item] (with_dbc d (with_detached [mi_layer item] (with_queue q c1))))) as Hpop.
  { unfold pop_commit. change (bc_detached c1) with (bc_detached c). change (bc_memoryQueue c1) with (bc_memoryQueue c).
    rewrite Hd, Hq, Hcom. done. }
  rewrite (st_bind_ok _ _ _ _ _ Hpop), bind_read.
  match goal with |- context [deref (RollbackState.getBlockByNumber ?n ?rs) ?x] =>
    assert (deref (RollbackState.getBlockByNumber n rs) x = Some s) as -> by (cbn; rewrite Hp; exact Hps) end.
  match goal with |- context [store_global ATTRIBUTE_CURRENT_BLOCK_HEIGHT set_height ?f] =>
    match goal with |- context [mbind _ (store_global ATTRIBUTE_CURRENT_BLOCK_HEIGHT set_height f) ?x] =>
      rewrite (st_bind_ok _ _ _ _ _ (store_global_run ATTRIBUTE_CURRENT_BLOCK_HEIGHT set_height f x (fun _ _ => eq_refl) (uint_stored _ _ Th Dh Hu))) end end.
  rewrite (bind_lift _ _ _ _ (snapshot_enc _ (bs_producers s Hsv))).
  match goal with |- context [mbind _ (store_global ATTRIBUTE_SOLIDIFY_ACTIVE_PRODUCER_LIST set_active ?f) ?x] =>
    rewrite (st_bind_ok _ _ _ _ _ (store_global_run ATTRIBUTE_SOLIDIFY_ACTIVE_PRODUCER_LIST set_active f x (fun _ _ => eq_refl)
      (data_stored _ _ Ta Va (bs_producers s Hsv)))) end.
  match goal with |- context [mbind _ (on_dbc (put_blockState s)) ?x] => set (c3 := x) end.
  destruct (put_blockState_ok s (bc_dbc c3) Hsv Hsh) as (ds & ix & Hput).
  assert (on_dbc (put_blockState s) c3 = (Ok tt, with_dbc (with_blockStates ds ix (bc_dbc c3)) c3)) as Hon by (unfold on_dbc; by rewrite Hput).
  rewrite (st_bind_ok _ _ _ _ _ Hon).
  match goal with |- context [mbind _ (store_global ATTRIBUTE_DB_DIRTY set_dirty ?f) ?x] =>
    rewrite (st_bind_ok _ _ _ _ _ (store_global_run ATTRIBUTE_DB_DIRTY set_dirty f x (fun _ _ => eq_refl) (uint_stored _ 0 Td Dd ltac:(done)))) end.
  rewrite bind_modify. eexists _, v'. split; [reflexivity|]. split; [|split; [by apply committed_rev|]].
  - split; [done|]. rewrite layers_nodetached by done. cbn.
    by apply stack_with_attributes, stack_with_blockStates, stack_with_attributes, stack_with_attributes.
  - split.
    + done.
    + done.
    + split; done.
    + by rewrite Hn.
    + chain_cbn. rewrite getAttribute_put_attr by (apply uint_stored; [exact Td|exact Dd|done]). rewrite decide_False by (cbn; rewrite Kd; discriminate).
      change (getAttribute ?k (with_blockStates ?a ?b ?e)) with (getAttribute k e). unfold c3. chain_cbn.
      rewrite getAttribute_put_attr by (apply data_stored; [exact Ta|exact Va|exact (bs_producers s Hsv)]). rewrite decide_False by (cbn; rewrite Ka; discriminate).
      rewrite getAttribute_put_attr by (apply uint_stored; [exact Th|exact Dh|exact Hu]). by rewrite decide_True.
    + chain_cbn. eexists. rewrite getAttribute_put_attr by (apply uint_stored; [exact Td|exact Dd|done]). by rewrite decide_True.
    + intros n Hnn. rewrite <- Hnum. exact (Hblocks n Hnn).
    + done.
    + done.
    + done.
Qed.

(** ** The loop *)

(** An item that can be committed: its objects can be stored, it is filed under
    the number of its block, and the fork database has its state. *)
Record item_ready (rs : RollbackState) (it : MemoryItem) : Prop := {
  ir_storable : storable (mi_layer it);
  ir_number : m_number (m_blockHeader (Repository.m_block (mi_layer it))) = mi_blockNumber it;
  ir_state : exists p s, RollbackState.getBlockByNumber (mi_blockNumber it) rs = Some p /\ heap rs !! p = Some s /\ state_storable s
}.

Lemma item_ready_u64 rs it : item_ready rs it -> is_u64 (mi_blockNumber it).
Proof.
  intros [Hs Hn _]. pose proof (BlockHeader.valid_number _ (Block.valid_header _ (st_block _ Hs))). unfold is_u64. lia.
Qed.

(** Later items are still ready after a block was solidified. *)
Lemma item_ready_kept rs p s n it :
  index_wf rs -> linked rs -> entry rs p s -> m_blockNumber s < mi_blockNumber it -> item_ready rs it ->
  item_ready (setSolidifyNumber n (RollbackState.remove (m_blockID s) rs)) it.
Proof.
  intros Hw Hl He Hlt [Hs Hn (q & t & Hq & Ht & Hst)]. split; [done|done|]. exists q, t.
  change (RollbackState.getBlockByNumber ?m (setSolidifyNumber n ?r)) with (RollbackState.getBlockByNumber m r).
  change (heap (setSolidifyNumber n ?r)) with (heap r).
  rewrite (remove_keeps_number rs p s) by done. by rewrite (proj2 (remove_wf rs (m_blockID s) Hw)).
Qed.

(** The chain after the blocks [popped] were solidified. *)
Record solidified_blocks (popped : list MemoryItem) c c' : Prop := {
  ss_queue : bc_memoryQueue c = popped ++ bc_memoryQueue c';
  ss_last it : last popped = Some it ->
    m_value (ATTRIBUTE_CURRENT_BLOCK_HEIGHT (bc_globals c')) = mi_blockNumber it /\
    getAttribute key_height (bc_dbc c') = Ok (ATTRIBUTE_CURRENT_BLOCK_HEIGHT (bc_globals c')) /\
    (exists t, getAttribute key_dirty (bc_dbc c') = Ok t /\ m_type t = Uint64Type /\ m_value t = 0) /\
    m_solidifyNumber (bc_rollbackState c') = mi_blockNumber it;
  ss_blocks it : it ∈ popped ->
    Database.getBlockByNumber h0 (mi_blockNumber it) (bc_dbc c') = Ok (Repository.m_block (mi_layer it));
  ss_others n : is_u64 n -> Forall (fun it => n <> mi_blockNumber it) popped ->
    Database.getBlockByNumber h0 n (bc_dbc c') = Database.getBlockByNumber h0 n (bc_dbc c);
  ss_latest : bc_latestNumber c' = bc_latestNumber c /\ bc_latestBlock c' = bc_latestBlock c /\ bc_head c' = bc_head c
}.

Lemma solidified_nil c : solidified_blocks [] c c.
Proof. split; [done|done|by intros it ?%elem_of_nil|done|done]. Qed.

Lemma solidified_cons item s popped c c1 c2 :
  solidified_block item s c c1 -> solidified_blocks popped c1 c2 -> (popped = [] -> c2 = c1) -> is_u64 (mi_blockNumber item) ->
  Forall (fun it => mi_blockNumber item < mi_blockNumber it) popped -> solidified_blocks (item :: popped) c c2.
Proof.
  intros [Q1 D1 G1 E1 A1 F1 B1 R1 S1 X1] [Q2 L2 B2 O2 X2] N2 Hu Hlt. split.
  - by rewrite Q1, Q2.
  - intros it Hit. destruct popped as [|it2 popped]; [|by apply L2]. injection Hit as <-. rewrite (N2 eq_refl).
    split; [done|]. split; [done|]. split; [done|]. by rewrite R1.
  - intros it [->|Hin]%elem_of_cons; [|by apply B2].
    rewrite O2; [rewrite B1 by done; by rewrite decide_True|done|]. eapply Forall_impl; [exact Hlt|]. cbn. lia.
  - intros n Hn [Hne Hf]%Forall_cons. rewrite O2, B1 by done. by rewrite decide_False.
  - destruct X2 as (Y1 & Y2 & Y3), X1 as (Z1 & Z2 & Z3). repeat split; congruence.
Qed.

(** What the loop needs: the attributes, a living node, a sane fork database,
    and queued blocks in ascending order, of which those to be solidified are
    ready and one at least lies above them. *)
Record ready_to_solidify (number : Z) (q : list MemoryItem) c : Prop := {
  rd_globals : globals_ok (bc_globals c);
  rd_status : bc_status c <> Killed;
  rd_index : index_wf (bc_rollbackState c);
  rd_linked : linked (bc_rollbackState c);
  rd_sorted : StronglySorted Z.lt (map mi_blockNumber q);
  rd_above : Exists (fun it => number < mi_blockNumber it) q;
  rd_items : Forall (fun it => number < mi_blockNumber it \/ item_ready (bc_rollbackState c) it) q
}.

Lemma ready_next number item q c c' p s :
  ready_to_solidify number (item :: q) c -> solidified_block item s c c' -> mi_blockNumber item <= number -> entry (bc_rollbackState c) p s ->
  m_blockNumber s = mi_blockNumber item -> ready_to_solidify number q c'.
Proof.
  intros [Hg Hst Hw Hl Hso Hab Hit] [_ _ G _ _ _ _ R S _] Hle He Hn. cbn [map] in Hso. apply StronglySorted_inv in Hso as [Hso Hlt].
  apply Forall_cons in Hit as [_ Hit]. split; [done|by rewrite S|rewrite R|rewrite R|done|apply Exists_cons in Hab as [?|?]; [lia|done]|].
  - destruct (proj1 (remove_wf _ (m_blockID s) Hw)) as [I1 I2]. by split.
  - exact (remove_linked _ (m_blockID s) Hl).
  - rewrite R. rewrite Forall_forall in Hit. rewrite Forall_forall in Hlt. apply Forall_forall. intros it Hin. destruct (Hit it Hin) as [Hgt|Hr]; [by left|right].
    apply (item_ready_kept _ p); [done..| |done]. rewrite Hn. apply Hlt. apply list_elem_of_fmap. by exists it.
Qed.

Lemma solidify_items_run number q c v :
  chain_holds c v -> bc_memoryQueue c = q -> ready_to_solidify number q c ->
  exists popped c' v', solidify_items number q c = (Ok tt, c') /\ chain_holds c' v' /\
    committed (map mi_layer popped) (map mi_layer (bc_memoryQueue c')) v v' /\
    solidified_blocks popped c c' /\ Forall (fun it => mi_blockNumber it <= number) popped /\
    Forall (fun it => number < mi_blockNumber it) (bc_memoryQueue c') /\ globals_ok (bc_globals c') /\ (popped = [] -> c' = c).
Proof.
  revert c v. induction q as [|item q IH]; intros c v Hc Hq Hr; cbn [solidify_items].
  - by pose proof (rd_above _ _ _ Hr) as []%Exists_nil.
  - pose proof Hr as [Hg Hst Hw Hl Hso _ Hit]. cbn [map] in Hso. apply StronglySorted_inv in Hso as [Hso Hlt].
    apply Forall_cons in Hit as [Hit1 Hit]. destruct (Z.leb_spec (mi_blockNumber item) number) as [Hle|Hgt].
    2: { exists [], c, v. split; [done|]. split; [done|]. split; [apply committed_nil|]. split; [apply solidified_nil|]. split; [done|].
         split; [|done]. rewrite Hq. constructor; [done|]. rewrite Forall_forall in Hlt. apply Forall_forall. intros it Hin.
         specialize (Hlt (mi_blockNumber it)). rewrite list_elem_of_fmap in Hlt. specialize (Hlt (ex_intro _ it (conj eq_refl Hin))). lia. }
    destruct Hit1 as [Hgt|Hrdy]; [lia|]. pose proof Hrdy as [Hs Hn (p & s & Hp & Hps & Hst')].
    destruct (solidify_item_run c v item q p s Hc Hq Hg Hs Hn Hp Hps Hst') as (c1 & v1 & Hrun & Hc1 & Hv1 & Hsb).
    assert (entry (bc_rollbackState c) p s /\ m_blockNumber s = mi_blockNumber item) as [He Hnum].
    { pose proof (find_index_entry _ _ _ Hp) as (s' & He & Hn'%Z.eqb_eq). destruct He as [Hin Hs']. rewrite Hps in Hs'. by simplify_eq. }
    pose proof (ready_next _ _ _ _ _ _ _ Hr Hsb Hle He Hnum) as Hr1.
    assert (bc_memoryQueue c1 = q) as Hq1 by (pose proof (sb_queue _ _ _ _ Hsb) as Hq'; rewrite Hq in Hq'; by injection Hq').
    destruct (IH c1 v1 Hc1 Hq1 Hr1) as (popped & c2 & v2 & Hrun2 & Hc2 & Hv2 & Hss & Hpop & Hrest & Hg2 & Hnil).
    exists (item :: popped), c2, v2. rewrite bind_read, bool_decide_eq_false_2 by done. rewrite (st_bind_ok _ _ _ _ _ Hrun).
    split; [done|]. split; [done|].
    split; [cbn [map]; eapply committed_cons; [|exact Hv2]; rewrite <- map_app, <- (ss_queue _ _ _ Hss), Hq1; exact Hv1|]. split; [|split; [by constructor|by split]].
    eapply solidified_cons; [done|done|done|by eapply item_ready_u64|]. pose proof (ss_queue _ _ _ Hss) as Hq2. rewrite Hq1 in Hq2.
    rewrite Hq2, map_app in Hlt. apply Forall_app in Hlt as [Hlt _]. apply (Forall_fmap mi_blockNumber) in Hlt. exact Hlt.
Qed.


(** ** Restart *)

(** A chain object before [init()]. *)
Record unstarted c : Prop := {
  us_head : bc_head c = None;
  us_rollback : bc_rollbackState c = empty_rollback
}.

Lemma initializeRollbackState_run (s0 : BlockState) (count0 : Z) c b :
  unstarted c -> Database.getBlockByNumber h0 (getSolidifyHeight c) (bc_dbc c) = Ok b -> BlockHeader.valid (m_blockHeader b) ->
  exists s, initializeRollbackState h0 s0 count0 c =
    (Ok tt, with_rollback (mkRollback [s] [0%nat] (Some 0%nat) 0) (with_head (Some 0%nat) (with_rollback (mkRollback [s] [] None 0) c))) /\
    BlockState.m_block s = b /\ m_blockNumber s = m_number (m_blockHeader b) /\ m_bftSolidifyBlockNumber s = m_number (m_blockHeader b) /\
    Block.getHash b = Ok (m_blockID s).
Proof.
  intros [Hh Hrs] Hb Hv. unfold initializeRollbackState. erewrite bind_pure by exact Hb. unfold newBlockState.
  pose proof (block_getHash b Hv) as Hid. generalize dependent (header_hash (m_blockHeader b)). intros id Hid. rewrite Hid.
  cbn [mbind result_bind]. rewrite (bind_lift _ _ _ _ eq_refl). unfold set_root. rewrite Hrs. cbn.
  eexists. split; [reflexivity|]. by split.
Qed.

Lemma load_snapshots_run c b :
  Database.getBlockByNumber h0 (getSolidifyHeight c) (bc_dbc c) = Ok b ->
  exists c', load_snapshots h0 c = (Ok tt, c') /\ bc_latestNumber c' = m_number (m_blockHeader b) /\ bc_latestBlock c' = b /\
    bc_dbc c' = bc_dbc c /\ bc_memoryQueue c' = bc_memoryQueue c /\ bc_head c' = bc_head c /\ bc_rollbackState c' = bc_rollbackState c.
Proof.
  intros Hb. unfold load_snapshots. rewrite bind_read, bind_modify. erewrite bind_pure by exact Hb. rewrite !bind_modify.
  eexists. split; [reflexivity|]. case_match; done.
Qed.

(** C18. [init()] of a new chain object on the database that a solidification
    left resumes at the last block it stored: the latest block and number are
    those of that block, the fork database holds one state, for that block, as
    its head and as solidified, and the database is not changed. *)
Theorem restart_resumes (s0 : BlockState) (count0 : Z) (syncFlag : bool) (popped : list MemoryItem) (it : MemoryItem) (c c' c0 : @BlockChain DB E)
    (Hs : solidified_blocks popped c c') (Hlast : last popped = Some it)
    (Hnum : m_number (m_blockHeader (Repository.m_block (mi_layer it))) = mi_blockNumber it)
    (Hv : BlockHeader.valid (m_blockHeader (Repository.m_block (mi_layer it))))
    (Hu : unstarted c0) (Hdb : bc_dbc c0 = bc_dbc c')
    (Hheight : getAttribute key_height (bc_dbc c0) = Ok (ATTRIBUTE_CURRENT_BLOCK_HEIGHT (bc_globals c0)))
    (Hkey : AttributeState.m_key (ATTRIBUTE_DB_DIRTY (bc_globals c0)) = key_dirty) :
  exists c1 p s, init h0 s0 count0 syncFlag c0 = (Ok tt, c1) /\ bc_dbc c1 = bc_dbc c0 /\ bc_memoryQueue c1 = bc_memoryQueue c0 /\
    bc_latestNumber c1 = mi_blockNumber it /\ bc_latestBlock c1 = Repository.m_block (mi_layer it) /\
    bc_head c1 = Some p /\ RollbackState.m_head (bc_rollbackState c1) = Some p /\ entry (bc_rollbackState c1) p s /\
    BlockState.m_block s = Repository.m_block (mi_layer it) /\ m_bftSolidifyBlockNumber s = mi_blockNumber it /\
    bc_status c1 = (if syncFlag then SyncStatus else ProducerStatus).
Proof.
  destruct (ss_last _ _ _ Hs it Hlast) as (Hval & Hdbh & (t & Ht & Htt & Htv) & _).
  pose proof (ss_blocks _ _ _ Hs it (last_Some_elem_of _ _ Hlast)) as Hblk. rewrite <- Hdb in Hdbh, Ht, Hblk.
  rewrite Hheight in Hdbh. injection Hdbh as Hsame.
  assert (getSolidifyHeight c0 = mi_blockNumber it) as Hgh by (unfold getSolidifyHeight; by rewrite Hsame).
  rewrite <- Hgh in Hblk.
  destruct (initializeRollbackState_run s0 count0 c0 _ Hu Hblk Hv) as (s & Hini & H1s & H2s & H3s & H4s).
  unfold init. rewrite bind_read, (us_head _ Hu). rewrite (st_bind_ok _ _ _ _ _ Hini).
  rewrite <- Hkey in Ht. erewrite bind_pure by exact Ht. unfold set_globals. rewrite bind_modify, bind_read.
  match goal with |- context [mbind _ (st_throw_if (?a =? 1) _) _] => assert (a = 0) as -> by (cbn; by rewrite Htt, Htv) end.
  erewrite (st_bind_ok (st_throw_if _ _)) by reflexivity.
  match goal with |- context [mbind _ (load_snapshots h0) ?x] => destruct (load_snapshots_run x _ Hblk) as (c2 & Hl & L1 & L2 & L3 & L4 & L5 & L6) end.
  rewrite (st_bind_ok _ _ _ _ _ Hl). eexists _, 0%nat, s. split; [reflexivity|].
  assert (forall A (f : @BlockChain DB E -> A) (a b : @BlockChain DB E), f (if syncFlag then a else b) = if syncFlag then f a else f b) as Hif
    by (by destruct syncFlag).
  split; [rewrite Hif; destruct syncFlag; exact L3|]. split; [rewrite Hif; destruct syncFlag; exact L4|].
  split; [rewrite Hif; destruct syncFlag; by rewrite <- Hnum|]. split; [rewrite Hif; destruct syncFlag; exact L2|].
  split; [rewrite Hif; destruct syncFlag; exact L5|]. rewrite Hif. 
  split; [destruct syncFlag; cbn; by rewrite L6|]. split; [destruct syncFlag; cbn; rewrite L6; by (split; [left|])|].
  split; [done|]. split; [congruence|]. rewrite Hif. by destruct syncFlag.
Qed.
End Solidify.
