(* ===== verification/NodeFacts.v ===== *)
(** * Forks, messages and synchronisation

    What the chain does with blocks that do not extend it, with transactions
    and blocks from the network, and with the heights of its peers. *)

From S2P Require Import Prelude CommonData RLP RLPFacts FixedHash SHA3 Codec.
From S2P Require Import Account Producer Transaction TransactionReceipt BlockHeader Block Status BlockState RollbackState.
From S2P Require Import AttributeState Database Ledger LedgerFacts Actions Repository RepositoryFacts FrameFacts CommitFacts Schedule Caches Crypto.
From S2P Require Import BlockChain BlockChainFacts.
Import Spec.

(** ** The bonus *)

(** The bonus of a block is the base in the first year after genesis and
    halves with each further year; for 64 years the shift count stays below
    the width of the word. *)
Theorem bonus_halves_yearly (t : Z)
    (Ht : GENESIS_TIMESTAMP <= t < GENESIS_TIMESTAMP + 63 * MILLISECONDS_PER_YEAR) :
  exists b, block_bonus t = Ok b /\ block_bonus (t + MILLISECONDS_PER_YEAR) = Ok (b / 2) /\
    0 <= b <= BLOCK_BONUS_BASE /\ (t < GENESIS_TIMESTAMP + MILLISECONDS_PER_YEAR -> b = BLOCK_BONUS_BASE).
Proof.
  destruct (block_bonus_ok t) as [H1 Hy]; [unfold MILLISECONDS_PER_YEAR in *; lia|].
  destruct (block_bonus_ok (t + MILLISECONDS_PER_YEAR)) as [H2 _]; [unfold MILLISECONDS_PER_YEAR in *; lia|].
  assert (bonus_year (t + MILLISECONDS_PER_YEAR) = bonus_year t + 1) as Hs.
  { unfold bonus_year. replace (t + MILLISECONDS_PER_YEAR - GENESIS_TIMESTAMP) with (t - GENESIS_TIMESTAMP + 1 * MILLISECONDS_PER_YEAR) by lia.
    by rewrite Z.div_add by done. }
  assert (0 < 2 ^ bonus_year t) by (apply Z.pow_pos_nonneg; lia).
  eexists. split; [exact H1|]. split; [|split].
  - rewrite H2, Hs, Z.pow_add_r by lia. rewrite <- Z.div_div; [done|lia|lia].
  - split; [apply Z.div_pos; [done|lia]|]. apply Z.div_le_upper_bound; [lia|]. unfold BLOCK_BONUS_BASE. nia.
  - intros Hlt. assert (bonus_year t = 0) as -> by (apply Z.div_small; lia). by rewrite Z.pow_0_r, Z.div_1_r.
Qed.

Lemma bonus_halves_yearly_witness :
  exists b, block_bonus (GENESIS_TIMESTAMP + 5) = Ok b /\ block_bonus (GENESIS_TIMESTAMP + 5 + MILLISECONDS_PER_YEAR) = Ok (b / 2).
Proof.
  destruct (bonus_halves_yearly (GENESIS_TIMESTAMP + 5)) as (b & H1 & H2 & _); [unfold GENESIS_TIMESTAMP, MILLISECONDS_PER_YEAR; lia|].
  by exists b.
Defined.

(** ** Duplicate transactions in a block *)

Lemma result_map_length {A B} (f : A -> result B) l hs : result_map f l = Ok hs -> Datatypes.length hs = Datatypes.length l.
Proof.
  revert hs. induction l as [|x l IH]; intros hs Hm; cbn in Hm; [by inv_ok|].
  destruct (f x); [|done]. cbn in Hm. destruct (result_map f l) as [ys|]; [|done]. cbn in Hm. inv_ok. cbn. by rewrite (IH ys).
Qed.

Lemma size_le_length (hs : list h256) : (size (list_to_set hs : gset h256) <= Datatypes.length hs)%nat.
Proof.
  induction hs as [|h hs IH]; [done|]. cbn. destruct (decide (h ∈ hs)) as [Hin|Hin].
  - rewrite subseteq_union_1_L by set_solver. lia.
  - rewrite size_union, size_singleton by set_solver. lia.
Qed.

Lemma size_nodup (hs : list h256) : size (list_to_set hs : gset h256) = Datatypes.length hs <-> NoDup hs.
Proof.
  split; [|apply size_list_to_set]. induction hs as [|h hs IH]; [by constructor|]. cbn. intros Hs. destruct (decide (h ∈ hs)) as [Hin|Hin].
  - rewrite subseteq_union_1_L in Hs by set_solver. pose proof (size_le_length hs). lia.
  - rewrite size_union, size_singleton in Hs by set_solver. constructor; [done|]. apply IH. lia.
Qed.

(** [checkDuplicateTx] accepts a block exactly when the hashes of its
    transactions are distinct. *)
Lemma checkDuplicateTx_spec (block : Block) (hs : list h256) :
  result_map Transaction.getHash (m_transactions block) = Ok hs -> checkDuplicateTx block = Ok (bool_decide (NoDup hs)).
Proof.
  intros Hh. unfold checkDuplicateTx. rewrite Hh. cbn [mbind result_bind]. f_equal. apply bool_decide_ext.
  rewrite <- size_nodup. by rewrite (result_map_length _ _ _ Hh).
Qed.

(** ** Members that an action leaves alone *)

Section Members.
Context {DB E : Type} `{KVStore DB}.
Implicit Types c : @BlockChain DB E.

(** [m] leaves a member alone, whatever its outcome. *)
Definition keeps {A B} (f : @BlockChain DB E -> B) (m : ST BlockChain A) : Prop := forall c, f (m c).2 = f c.

Lemma keeps_bind {A B T} (f : BlockChain -> T) (m : ST BlockChain A) (k : A -> ST BlockChain B) :
  keeps f m -> (forall a, keeps f (k a)) -> keeps f (m ≫= k).
Proof.
  intros Hm Hk c. specialize (Hm c). unfold mbind, ST_bind. destruct (m c) as [[a|e] c1]; cbn in *; [|done]. by rewrite Hk.
Qed.
Lemma keeps_read {A T} (f : BlockChain -> T) (g : BlockChain -> A) : keeps f (chain_read g).
Proof. by intros c. Qed.
Lemma keeps_lift {A T} (f : BlockChain -> T) (r : result A) : keeps f (st_lift r).
Proof. by intros c. Qed.
Lemma keeps_throw {A T} (f : BlockChain -> T) e : keeps f (st_throw e : ST _ A).
Proof. by intros c. Qed.
Lemma keeps_throw_if {T} (f : BlockChain -> T) b e : keeps f (st_throw_if b e).
Proof. by intros c. Qed.
Lemma keeps_ret {A T} (f : BlockChain -> T) (a : A) : keeps f (mret a).
Proof. by intros c. Qed.
Lemma keeps_pure {A T} (f : BlockChain -> T) (r : BlockChain -> result A) : keeps f (fun c => (r c, c)).
Proof. by intros c. Qed.
Lemma keeps_if {A T} (f : BlockChain -> T) (b : bool) (m n : ST BlockChain A) : keeps f m -> keeps f n -> keeps f (if b then m else n).
Proof. by destruct b. Qed.
Lemma keeps_catch {A T} (f : BlockChain -> T) (m : ST BlockChain A) h :
  keeps f m -> (forall e k, h e = Some k -> keeps f k) -> keeps f (st_catch m h).
Proof.
  intros Hm Hh c. specialize (Hm c). unfold st_catch. destruct (m c) as [[a|e] c1]; cbn in *; [done|].
  destruct (h e) as [k|] eqn:Ek; [|done]. by rewrite (Hh e k Ek).
Qed.
Lemma keeps_foreach {A T} (f : BlockChain -> T) (g : A -> ST BlockChain unit) l : (forall x, keeps f (g x)) -> keeps f (st_foreach g l).
Proof. intros Hg. induction l as [|x l IH]; [apply keeps_ret|]. cbn [st_foreach]. by apply keeps_bind. Qed.
End Members.
Create HintDb keeps.

(** ** The slots of a producer *)

Lemma earlier_slot x y : 0 <= x -> x < y / PRODUCER_INTERVAL * PRODUCER_INTERVAL -> x / PRODUCER_INTERVAL < y / PRODUCER_INTERVAL.
Proof. intros Hx Hxy. apply Z.div_lt_upper_bound; [unfold PRODUCER_INTERVAL|]; lia. Qed.

Section Slots.
Context {DB E : Type} `{KVStore DB} `{Secp256k1} (face : MessageFace E).
Variables (h0 : BlockHeader) (count0 : Z).
Implicit Types c : @BlockChain DB E.

Definition slot (t : Z) : Z := (t - GENESIS_TIMESTAMP) / PRODUCER_INTERVAL.
Abbreviation time block := (BlockHeader.m_timestamp (m_blockHeader block)).
Abbreviation producer block := (m_producer (m_blockHeader block)).

Lemma checkProducer_slots c block :
  GENESIS_TIMESTAMP <= time block -> BlockChain.checkProducer face block c = true ->
  producer block = getProducerAddress face (producerPosition (time block)) (bc_face c) /\
  (forall t, bc_producerRecord c !! producer block = Some t -> GENESIS_TIMESTAMP <= t -> slot t < slot (time block)) /\
  (GENESIS_TIMESTAMP <= bc_scheduleUpdate c -> slot (bc_scheduleUpdate c) < slot (time block)).
Proof.
  intros Hb Hok. unfold slot. unfold BlockChain.checkProducer, getExpectedProducer in Hok.
  destruct (negb _) eqn:E1 in Hok; [done|]. apply negb_false_iff, bool_decide_eq_true in E1. split; [done|].
  destruct (match _ with Some _ => _ | None => _ end) eqn:E2 in Hok; [done|].
  destruct (_ <=? bc_scheduleUpdate c - _) eqn:E3 in Hok; [done|]. clear Hok.
  unfold blockSlice in *. rewrite Z.quot_div_nonneg in E2, E3 by (unfold PRODUCER_INTERVAL; lia). split.
  - intros t Ht Htg. rewrite Ht in E2. zify_bool. apply earlier_slot; lia.
  - intros Hu. zify_bool. apply earlier_slot; lia.
Qed.

(** The producer record and the latest block, and the record alone. *)
Definition tracked c : gmap h160 Z * Block := (bc_producerRecord c, bc_latestBlock c).

Lemma tracked_face {A} (m : ST E A) : keeps tracked (on_face m).
Proof. intros c. unfold on_face. by destruct (m (bc_face c)). Qed.
Lemma tracked_back {A} (m : ST (Repository DB) A) : keeps tracked (on_back m).
Proof. intros c. unfold on_back. destruct (bc_memoryQueue c); [done|]. destruct (layers c); [done|]. by destruct (m _). Qed.
Lemma tracked_dbc f : keeps tracked (on_dbc (DB := DB) (E := E) f).
Proof. intros c. unfold on_dbc. by destruct (f (bc_dbc c)). Qed.
Lemma tracked_pop item : keeps tracked (pop_commit (DB := DB) (E := E) item).
Proof. intros c. unfold pop_commit. by destruct (commit _). Qed.
Lemma tracked_popBlockState : keeps tracked (popBlockState (DB := DB) (E := E)).
Proof. intros c. unfold popBlockState. destruct (deref _ c); [|done]. by destruct (RollbackState.getBlock _ _). Qed.
Lemma tracked_record {A} (m : ST (@BlockChain DB E) A) : keeps tracked m -> keeps bc_producerRecord m.
Proof. intros Hm c. specialize (Hm c). by injection Hm. Qed.
Hint Resolve keeps_bind keeps_read keeps_lift keeps_throw_if keeps_ret keeps_throw keeps_pure keeps_catch keeps_foreach keeps_if
  tracked_face tracked_back tracked_dbc tracked_pop tracked_popBlockState : keeps.
Hint Extern 1 (keeps _ (chain_modify _)) => intros ?; reflexivity : keeps.
Hint Extern 1 (keeps _ (set_globals _)) => intros ?; reflexivity : keeps.
Hint Extern 1 (keeps _ (store_global _ _ _)) => unfold store_global : keeps.
Hint Extern 1 (keeps _ (set_db_dirty _)) => unfold set_db_dirty : keeps.
Hint Extern 1 (keeps _ (match ?x with _ => _ end)) => destruct x : keeps.

Lemma tracked_exists tx : keeps tracked (isExistInRepo (DB := DB) (E := E) tx).
Proof. unfold isExistInRepo. auto 20 with keeps. Qed.
Lemma tracked_active block : keeps tracked (updateActiveProducers face h0 block : ST (@BlockChain DB E) unit).
Proof. unfold updateActiveProducers. auto 30 with keeps. Qed.

Lemma record_process_item block : scheduling block = false -> keeps bc_producerRecord (process_item face block : ST (@BlockChain DB E) unit).
Proof.
  intros Hs. unfold process_item, scheduling in *. rewrite Hs.
  repeat (apply keeps_bind; [|intros ?]);
    try (apply tracked_record; unfold confirm_block, eraseSolicitedTx; auto 20 with keeps; fail); try (intros ?; reflexivity).
  intros c. cbn. unfold set_back_done. by destruct (last (bc_memoryQueue c)).
Qed.

(** [doProcessBlock] records the producer before it executes anything. *)
Lemma doProcessBlock_record block c :
  scheduling block = false -> let c' := (doProcessBlock face h0 block c).2 in
  tracked c' = tracked c \/ bc_producerRecord c' = <[producer block := time block]> (bc_producerRecord c).
Proof.
  intros Hs. cbv zeta. generalize (eq_refl (doProcessBlock face h0 block c)). generalize (doProcessBlock face h0 block c) at 2 3 4 as x. intros x.
  unfold doProcessBlock.
  assert (keeps tracked (st_foreach (fun tx => e ← isExistInRepo tx; st_throw_if e BlockChainException) (m_transactions block) : ST (@BlockChain DB E) unit)) as H1.
  { apply keeps_foreach. intros tx. apply keeps_bind; [apply tracked_exists|]. auto with keeps. }
  specialize (H1 c). unfold st_catch at 1. unfold mbind at 1, ST_bind at 1.
  destruct (st_foreach _ _ c) as [[[]|e] c1]; cbn [snd] in H1; [|intros <-; left; by destruct (is_GSException e)].
  pose proof (tracked_active block c1) as H2. unfold mbind at 1, ST_bind at 1.
  destruct (updateActiveProducers face h0 block c1) as [[[]|e] c2]; cbn [snd] in H2; [|intros <-; left; destruct (is_GSException e); exact (eq_trans H2 H1)].
  rewrite !bind_modify.
  assert (bc_producerRecord c2 = bc_producerRecord c) as Hr by (rewrite H1 in H2; by injection H2).
  match goal with |- context [st_catch (process_item _ _) _ ?c] => set (c3 := c) end. assert (bc_producerRecord c3 = <[producer block := time block]> (bc_producerRecord c)) as Hr3 by (cbn; by rewrite Hr).
  assert (keeps bc_producerRecord (st_catch (process_item face block) (fun e => if is_GSException e then Some (chain_modify cancelMemoryItem) else None)
    : ST (@BlockChain DB E) unit)) as H3.
  { apply keeps_catch; [by apply record_process_item|]. intros e k. destruct (is_GSException e); [|done]. intros [= <-]. by intros c0. }
  specialize (H3 c3). destruct (st_catch _ _ c3) as [[[]|e] c4]; cbn [snd] in *; intros <-; right; [exact (eq_trans H3 Hr3)|]. destruct (is_GSException e); exact (eq_trans H3 Hr3).
Qed.

Lemma tracked_solidify number q : keeps tracked (solidify_items number q : ST (@BlockChain DB E) unit).
Proof.
  induction q as [|item q IH]; cbn [solidify_items]; [auto with keeps|]. apply keeps_if; [|auto with keeps]. apply keeps_bind; [auto with keeps|].
  intros st. apply keeps_if; [auto with keeps|]. apply keeps_bind; [|auto]. unfold solidify_item. auto 40 with keeps.
Qed.

Lemma tracked_rollback_add block : keeps tracked (rollback_add face count0 block : ST (@BlockChain DB E) unit).
Proof.
  intros c. unfold rollback_add. destruct (RollbackState.add _ _ _ _) as [[[p sig] rs]|]; [|done]. destruct (deref _ _) as [bsp|]; [|done].
  assert (keeps tracked (onSolidifiable face bsp : ST (@BlockChain DB E) unit)) as Hk; [|by rewrite Hk].
  unfold onSolidifiable. apply keeps_bind; [auto with keeps|]. intros _. apply keeps_bind; [auto with keeps|]. intros q. apply tracked_solidify.
Qed.

Lemma tracked_switch p q : keeps tracked (switch_branch p q : ST (@BlockChain DB E) unit).
Proof. unfold switch_branch, drop_block. auto 40 with keeps. Qed.

(** [processBlock] leaves the record alone, or enters the block it accepted. *)
Lemma processBlock_record block c :
  scheduling block = false -> let c' := (processBlock face h0 count0 block c).2 in
  bc_producerRecord c' = bc_producerRecord c \/
  BlockChain.checkProducer face block c = true /\ bc_producerRecord c' = <[producer block := time block]> (bc_producerRecord c).
Proof.
  intros Hs. cbv zeta. generalize (eq_refl (processBlock face h0 count0 block c)). generalize (processBlock face h0 count0 block c) at 2 3 4 as x. intros x.
  unfold processBlock, st_catch. rewrite bind_read.
  destruct (BlockChain.checkProducer face block c); cbn [negb]; [|intros <-; by left]. erewrite (st_bind_ok (st_throw_if _ _)) by reflexivity.
  pose proof (tracked_rollback_add block c) as H1. unfold mbind at 1, ST_bind at 1.
  destruct (rollback_add face count0 block c) as [[[]|e] c1]; cbn [snd] in H1; [|intros <-; left; destruct (rejects_block e); exact (f_equal fst H1)].
  assert (bc_producerRecord (checkBifurcation face h0 block c1).2 = bc_producerRecord c1 \/
          bc_producerRecord (checkBifurcation face h0 block c1).2 = <[producer block := time block]> (bc_producerRecord c1)) as H2.
  { unfold checkBifurcation. rewrite !bind_read.
    set (m := match RollbackState.m_head _ with Some _ => _ | None => _ end).
    assert (bc_producerRecord (m c1).2 = bc_producerRecord c1 \/ bc_producerRecord (m c1).2 = <[producer block := time block]> (bc_producerRecord c1)) as Hm.
    { unfold m. destruct (RollbackState.m_head _) as [p|]; [|by left]. destruct (bc_head c1) as [q|]; [|by left].
      destruct (deref (Some p) c1), (deref (Some q) c1); try by left. destruct (hash_eqb _ _).
      - destruct (doProcessBlock_record block c1 Hs) as [Ht|Ht]; [left; by injection Ht|by right].
      - left. apply tracked_record. apply keeps_catch; [apply tracked_switch|]. intros e k. repeat case_match; intros [= <-]; by intros c0. }
    clearbody m. unfold mbind, ST_bind. destruct (m c1) as [[[]|e] c2]; exact Hm. }
  assert (bc_producerRecord c1 = bc_producerRecord c) as Hr by exact (f_equal fst H1). rewrite Hr in H2. unfold mbind at 1, ST_bind at 1.
  destruct (checkBifurcation face h0 block c1) as [[b|e] c2]; cbn [snd] in H2.
  - rewrite bind_modify. intros <-. destruct H2 as [H2|H2]; [by left|by right].
  - intros <-. destruct (rejects_block e); (destruct H2 as [H2|H2]; [by left|by right]).
Qed.

(** The record has a block of [p] in the slot of [t], or a later one. *)
Definition recorded_at (p : h160) (t : Z) c : Prop :=
  exists t', bc_producerRecord c !! p = Some t' /\ GENESIS_TIMESTAMP <= t' /\ slot t <= slot t'.

(** Any number of calls of [processBlock]. *)
Definition process_blocks (bs : list Block) c : BlockChain := fold_left (fun c b => (processBlock face h0 count0 b c).2) bs c.

Lemma process_blocks_recorded p t bs c :
  Forall (fun b => scheduling b = false /\ GENESIS_TIMESTAMP <= time b) bs -> recorded_at p t c -> recorded_at p t (process_blocks bs c).
Proof.
  intros Hbs. revert c. unfold process_blocks. induction Hbs as [|b bs [Hs Hb] Hbs IH]; intros c Hc; [done|]. cbn [fold_left]. apply IH.
  destruct Hc as (t' & Ht' & Hg & Hle). unfold recorded_at. destruct (processBlock_record b c Hs) as [->|[Hok ->]]; [by exists t'|].
  destruct (decide (producer b = p)) as [<-|Hne].
  - exists (time b). rewrite lookup_insert_eq. split; [done|]. split; [done|]. destruct (checkProducer_slots c b Hb Hok) as (_ & Hlt & _).
    specialize (Hlt t' Ht' Hg). lia.
  - exists t'. rewrite lookup_insert_ne by done. by split.
Qed.

(** C35. One block per producer and slot. When [doProcessBlock] has executed a
    block that is no scheduling block, then after any number of further calls
    of [processBlock] that make no schedule, [checkProducer] accepts a block
    only from the producer of its slot and in a slot later than the last
    schedule, and one of the same producer only in a later slot than the block
    executed; any other block [processBlock] turns down, and changes nothing.
    (A scheduling block drops from the record the producers that are no longer
    elected, and with them what this rests on.) *)
Theorem chain_one_block_per_slot (block block2 : Block) (bs : list Block) (c c1 : @BlockChain DB E)
    (Hns : scheduling block = false) (Hb : GENESIS_TIMESTAMP <= time block) (Hb2 : GENESIS_TIMESTAMP <= time block2)
    (Hrun : doProcessBlock face h0 block c = (Ok tt, c1)) (Hnew : bc_latestBlock c <> block) (Hexec : bc_latestBlock c1 = block)
    (Hbs : Forall (fun b => scheduling b = false /\ GENESIS_TIMESTAMP <= time b) bs) :
  let c2 := process_blocks bs c1 in
  (BlockChain.checkProducer face block2 c2 = true ->
     producer block2 = getProducerAddress face (producerPosition (time block2)) (bc_face c2) /\
     (producer block2 = producer block -> slot (time block) < slot (time block2)) /\
     (GENESIS_TIMESTAMP <= bc_scheduleUpdate c2 -> slot (bc_scheduleUpdate c2) < slot (time block2))) /\
  (BlockChain.checkProducer face block2 c2 = false -> processBlock face h0 count0 block2 c2 = (Ok false, c2)).
Proof.
  intros c2. assert (recorded_at (producer block) (time block) c2) as (t & Ht & Hg & Hle).
  { apply process_blocks_recorded; [done|]. pose proof (doProcessBlock_record block c Hns) as Hr. rewrite Hrun in Hr. cbn [snd] in Hr.
    destruct Hr as [Hr|Hr]; [injection Hr; congruence|]. exists (time block). rewrite Hr, lookup_insert_eq. done. }
  split.
  - intros Hok. destruct (checkProducer_slots c2 block2 Hb2 Hok) as (H1 & H2 & H3). split; [done|]. split; [|done].
    intros Hp. rewrite Hp in H2. specialize (H2 t Ht Hg). lia.
  - intros Hno. unfold processBlock, st_catch. rewrite bind_read, Hno. done.
Qed.
End Slots.

(** ** Blocks that do not extend the head *)

Section Forks.
Context {DB E : Type} `{KVStore DB} `{Secp256k1} (face : MessageFace E).
Variables (h0 : BlockHeader) (count0 : Z).
Implicit Types c : @BlockChain DB E.

(** A head that is not above the new block leaves no branch to undo. *)
Lemma rollbackTo_no_branch rs first second s t fuel :
  heap rs !! first = Some s -> heap rs !! second = Some t -> m_blockNumber t <= m_blockNumber s ->
  rollbackTo (S fuel) first second rs =
  Some ((m_blockNumber s =? m_blockNumber t) && hash_eqb (getPrev s) (getPrev t), []).
Proof.
  intros Hs Ht Hle. unfold rollbackTo. rewrite Hs. cbn [climb]. rewrite Ht, (proj2 (Z.ltb_ge _ _)) by done. cbn [mbind option_bind].
  rewrite Ht. destruct (_ =? _); [|done]. cbn [negb andb]. by destruct (hash_eqb _ _).
Qed.

Lemma switch_branch_run c p q s t :
  heap (bc_rollbackState c) !! p = Some s -> heap (bc_rollbackState c) !! q = Some t -> m_blockNumber t <= m_blockNumber s ->
  switch_branch p q c =
  (Ok tt, if (m_blockNumber s =? m_blockNumber t) && hash_eqb (getPrev s) (getPrev t) then with_status SyncStatus c else c).
Proof.
  intros Hs Ht Hle. unfold switch_branch. rewrite bind_read, Nat.add_succ_r, (rollbackTo_no_branch _ _ _ s t) by done.
  by destruct (_ && _).
Qed.

Lemma checkBifurcation_fork c block p q s t c' :
  RollbackState.m_head (bc_rollbackState c) = Some p -> bc_head c = Some q ->
  heap (bc_rollbackState c) !! p = Some s -> heap (bc_rollbackState c) !! q = Some t ->
  getPrev s <> m_blockID t -> m_blockNumber t <= m_blockNumber s ->
  c' = (if (m_blockNumber s =? m_blockNumber t) && hash_eqb (getPrev s) (getPrev t) then with_status SyncStatus c else c) ->
  checkBifurcation face h0 block c = (Ok true, c').
Proof.
  intros Hp Hq Hs Ht Hne Hle ->. unfold checkBifurcation. rewrite !bind_read, Hp, Hq.
  assert (deref (Some p) c = Some s) as -> by exact Hs. assert (deref (Some q) c = Some t) as -> by exact Ht.
  unfold hash_eqb at 1. rewrite bool_decide_eq_false_2 by done.
  erewrite st_bind_ok; [|apply catch_ok; by apply switch_branch_run]. done.
Qed.

(** C32. A block that links up, makes no block final and does not extend the
    current head is not executed. It enters the fork database; if it is higher
    than the head, its state becomes the new head, otherwise the head stays and
    the node goes into synchronisation. Either way the ledger, the queue and the
    latest block stay as they were. *)
Theorem competing_block_not_executed (block : Block) (c : @BlockChain DB E) (p old : ptr) (rs : RollbackState) (t : BlockState)
    (Hprod : BlockChain.checkProducer face block c = true) (Hw : index_wf (bc_rollbackState c))
    (Hold : bc_head c = Some old) (Hfirst : first_by higher (bc_rollbackState c) = Some old)
    (Ht : heap (bc_rollbackState c) !! old = Some t) (Hself : getPrev t <> m_blockID t)
    (Hadd : RollbackState.add count0 block (face_getProducerSnapshot face (bc_face c)) (bc_rollbackState c) = Ok (p, None, rs))
    (Hfork : m_parentHash (m_blockHeader block) <> m_blockID t) :
  let above := m_blockNumber t <? m_number (m_blockHeader block) in
  exists c', processBlock face h0 count0 block c = (Ok true, c') /\ same_ledger c c' /\ bc_rollbackState c' = rs /\
    (exists id, getHash block = Ok id /\ entry rs p (fresh_for count0 (face_getProducerSnapshot face (bc_face c)) block id)) /\
    bc_head c' = Some (if above then p else old) /\ bc_status c' = (if above then bc_status c else SyncStatus).
Proof.
  intros above. destruct (add_head _ _ _ _ _ _ _ _ _ Hw Hfirst Ht Hadd) as ((id & Hid & Hin & Hp) & Ht' & Hhead). fold above in Hhead.
  set (c1 := with_rollback rs c). set (c2 := if above then c1 else with_status SyncStatus c1).
  assert (rollback_add face count0 block c = (Ok tt, c1)) as Ha by (unfold rollback_add; by rewrite Hadd).
  assert (checkBifurcation face h0 block c1 = (Ok true, c2)) as Hb.
  { apply (checkBifurcation_fork c1 block (if above then p else old) old (if above then fresh_for count0 (face_getProducerSnapshot face (bc_face c)) block id else t) t);
      [exact Hhead|done|by destruct above|exact Ht'|by destruct above| |].
    - unfold above. destruct (Z.ltb_spec (m_blockNumber t) (m_number (m_blockHeader block))); cbn; lia.
    - unfold c2, above. destruct (Z.ltb_spec (m_blockNumber t) (m_number (m_blockHeader block))); cbn [m_blockNumber fresh_for].
      + by rewrite (proj2 (Z.eqb_neq _ _)) by lia.
      + unfold hash_eqb. by rewrite Z.eqb_refl, bool_decide_eq_true_2. }
  exists (with_head (RollbackState.m_head (bc_rollbackState c2)) c2).
  assert (bc_rollbackState c2 = rs) as Hr by (unfold c2; by destruct above). rewrite Hr, Hhead. split.
  - unfold processBlock. apply catch_ok. rewrite bind_read, Hprod. cbn [negb]. erewrite (st_bind_ok (st_throw_if _ _)) by reflexivity.
    rewrite (st_bind_ok _ _ _ _ _ Ha), (st_bind_ok _ _ _ _ _ Hb), bind_modify, Hr, Hhead. done.
  - split; [unfold c2; destruct above; by repeat split|]. split; [exact Hr|]. split; [by exists id|]. split; [done|].
    unfold c2. by destruct above.
Qed.
End Forks.

(** ** Synchronisation *)

Section Requests.
Context (current : Z).

(** What a round may ask of a peer known at the given height. *)
Definition sound_request (heights : list (Z * Z)) (r : Z * (Z * Z)) : Prop :=
  let '(peer, (first, last)) := r in
  current < first <= last /\ last - first < COUNT_PER_ROUND /\ exists h, (peer, h) ∈ heights /\ last <= h.

Lemma sound_request_cons x l r : sound_request l r -> sound_request (x :: l) r.
Proof. destruct r as [peer [first last]]. intros (H1 & H2 & h & Hin & Hl). split; [done|]. split; [done|]. exists h. split; [by right|done]. Qed.

Lemma parity_next idx : u32 (idx + 1) mod 2 = (idx + 1) mod 2.
Proof. apply Z.mod_mod_divide. by exists (2 ^ 31). Qed.

Lemma requests_sound l idx start end_ :
  StronglySorted height_le l -> Forall (fun p => p.2 < 2 ^ 63) l -> 0 <= idx -> 0 <= current < start -> start < 2 ^ 63 + 16 ->
  (idx mod 2 = 1 -> start <= end_ /\ end_ - start < COUNT_PER_ROUND /\ Forall (fun p => end_ <= p.2) l /\ end_ < 2 ^ 63) ->
  Forall (sound_request l) (requests idx start end_ l).
Proof.
  revert idx start end_. induction l as [|[peer h] l IH]; intros idx start end_ Hs Hb Hi Hc Hst Hodd; cbn [requests]; [done|].
  apply StronglySorted_inv in Hs as [Hs Hle]. apply Forall_cons in Hb as [Hh Hb]. cbn [snd] in Hh.
  pose proof (Z.mod_pos_bound idx 2 ltac:(lia)) as Hm. assert (0 <= u32 (idx + 1)) as Hi' by (unfold u32; apply Z.mod_pos_bound; lia).
  pose proof (parity_next idx) as Hpar.
  destruct (Z.eqb_spec (idx mod 2) 0) as [He|He]; cbn [andb].
  - destruct (Z.leb_spec start h); cbn [negb].
    2: { eapply Forall_impl; [apply IH; try done; lia|]. intros r. apply sound_request_cons. }
    rewrite (proj2 (Z.eqb_neq _ _)) by lia.
    set (e := if COUNT_PER_ROUND <=? h - start then u64 (start + COUNT_PER_ROUND - 1) else h).
    assert (start <= e <= h /\ e - start < COUNT_PER_ROUND) as [Hse Hse2].
    { unfold e, COUNT_PER_ROUND. destruct (Z.leb_spec 15 (h - start)); [rewrite u64_small by (unfold is_u64; lia)|]; lia. }
    constructor; [split; [lia|split; [lia|exists h; split; [by left|lia]]]|].
    eapply Forall_impl; [apply IH; try done|intros r; apply sound_request_cons]. intros _. split; [lia|]. split; [lia|]. split; [|lia].
    eapply Forall_impl; [exact Hle|]. intros [q k]. unfold height_le. cbn. lia.
  - assert (idx mod 2 = 1) as Ho by lia. destruct (Hodd Ho) as (H1 & H2 & [H3 H3']%Forall_cons & H4). rewrite (proj2 (Z.eqb_eq _ _) Ho).
    cbn [snd] in H3. constructor; [split; [lia|split; [lia|exists h; split; [by left|lia]]]|].
    unfold COUNT_PER_ROUND in *. rewrite u64_small by (unfold is_u64; lia).
    eapply Forall_impl; [apply IH; try done; try lia|intros r; apply sound_request_cons].
    rewrite Hpar. rewrite Z.add_mod, Ho by lia. done.
Qed.

Lemma requests_nil l start end_ : requests 0 start end_ l = [] <-> Forall (fun p => p.2 < start) l.
Proof.
  induction l as [|[peer h] l IH]; cbn [requests]; [done|]. change (0 mod 2 =? 0) with true. cbn [andb].
  rewrite Forall_cons. cbn [snd]. destruct (Z.leb_spec start h); cbn [negb].
  - split; [done|]. intros [? _]. lia.
  - rewrite IH. tauto.
Qed.
End Requests.

#[export] Instance height_le_trans : Transitive height_le.
Proof. intros a b c. unfold height_le. lia. Qed.
#[export] Instance height_le_total : Total height_le.
Proof. intros a b. unfold height_le. lia. Qed.

(** C37. Every request of a synchronisation round is for at most 15 blocks,
    all above the current height, and goes to a peer that reported at least
    the last of them; a round sends no request exactly when no peer is
    ahead. *)
Theorem sync_requests_sound (current : Z) (heights : list (Z * Z))
    (Hc : 0 <= current < 2 ^ 63) (Hh : Forall (fun p => p.2 < 2 ^ 63) heights) :
  Forall (sound_request current heights) (sync_requests current heights) /\
  (sync_requests current heights = [] <-> Forall (fun p => p.2 <= current) heights).
Proof.
  unfold sync_requests. rewrite u64_small by (unfold is_u64; lia). pose proof (merge_sort_Permutation height_le heights) as Hp. split.
  - eapply Forall_impl; [apply (requests_sound current)|].
    + apply StronglySorted_merge_sort; apply _.
    + by rewrite Hp.
    + done.
    + lia.
    + lia.
    + done.
    + intros [peer [first last]] (H1 & H2 & h & Hin & Hl). split; [done|]. split; [done|]. exists h. split; [by rewrite <- Hp|done].
  - rewrite requests_nil, Hp. apply Forall_iff. intros [p h]. cbn. lia.
Qed.

Lemma sync_requests_sound_witness :
  sync_requests 10 [(1, 40); (2, 12); (3, 9)] = [(2, (11, 12)); (1, (11, 12))] /\
  Forall (sound_request 10 [(1, 40); (2, 12); (3, 9)]) (sync_requests 10 [(1, 40); (2, 12); (3, 9)]).
Proof.
  split; [reflexivity|]. apply (sync_requests_sound 10 [(1, 40); (2, 12); (3, 9)]); [lia|]. repeat constructor; cbn; lia.
Defined.

(** ** The blocks of a reply *)

Section Reply.
Context {DB E : Type} `{KVStore DB} (h0 : BlockHeader) (s0 : BlockState).
Implicit Types c : @BlockChain DB E.

(** The bytes a list of blocks takes. *)
Definition total_size (ds : list bytes) : Z := foldr (fun d z => zlen d + z) 0 ds.

(** Enough rounds: a loop that has not used up its rounds does not depend on
    their number. *)
Lemma collect_more fuel k i end_ size st bs c :
  0 <= i -> end_ < 2 ^ 64 - 1 -> end_ + 1 - i <= Z.of_nat fuel ->
  collect_blocks h0 s0 (fuel + k) i end_ size st bs c = collect_blocks h0 s0 fuel i end_ size st bs c.
Proof.
  revert i size st bs. induction fuel as [|fuel IH]; intros i size st bs Hi He Hf.
  - cbn [Nat.add]. destruct k; [done|]. cbn [collect_blocks]. by rewrite (proj2 (Z.ltb_lt _ _)) by lia.
  - cbn [Nat.add collect_blocks]. destruct (Z.ltb_spec end_ i); [done|].
    destruct (getBlockByNumber h0 i c) as [b|]; [|done]. cbn [mbind result_bind]. destruct (Block.block_eqb b EmptyBlock) as [[]|]; [done| |done].
    cbn [mbind result_bind]. destruct (Block.getRLPData b) as [d|]; [|done]. cbn [mbind result_bind]. destruct (maxPacketSize <=? _); [done|].
    rewrite (u64_small (i + 1)) by (unfold is_u64; lia). apply IH; lia.
Qed.

(** What was collected from block [i] on. *)
Lemma collect_spec fuel i end_ size st bs st' bs' c :
  (forall n b d, getBlockByNumber h0 n c = Ok b -> Block.getRLPData b = Ok d -> zlen d < 2 ^ 63) ->
  0 <= i -> end_ < 2 ^ 64 - 1 -> 0 <= size < maxPacketSize ->
  collect_blocks h0 s0 fuel i end_ size st bs c = Ok (st', bs') ->
  exists l ds, st_type st' = st_type st /\ st_blocks st' = st_blocks st ++ l /\ (Datatypes.length l <= fuel)%nat /\
    (forall k b, l !! k = Some b -> getBlockByNumber h0 (i + Z.of_nat k) c = Ok b) /\
    result_map Block.getRLPData l = Ok ds /\ size + total_size ds < maxPacketSize.
Proof.
  intros Hbig. revert i size st bs. induction fuel as [|fuel IH]; intros i size st bs Hi He Hsz Hc; cbn [collect_blocks] in Hc.
  { inv_ok. exists [], []. rewrite app_nil_r. cbn. by repeat split; try lia. }
  assert (Ok (st, bs) = Ok (st', bs') -> exists l ds, st_type st' = st_type st /\ st_blocks st' = st_blocks st ++ l /\ (Datatypes.length l <= S fuel)%nat /\
    (forall k b, l !! k = Some b -> getBlockByNumber h0 (i + Z.of_nat k) c = Ok b) /\
    result_map Block.getRLPData l = Ok ds /\ size + total_size ds < maxPacketSize) as Hstop.
  { intros Heq. injection Heq as <- <-. exists [], []. rewrite app_nil_r. cbn. repeat split; try done; lia. }
  destruct (Z.ltb_spec end_ i); [by apply Hstop|]. destruct (getBlockByNumber h0 i c) as [b|] eqn:Eb; [|done]. cbn [mbind result_bind] in Hc.
  destruct (Block.block_eqb b EmptyBlock) as [[]|]; [by apply Hstop| |done]. cbn [mbind result_bind] in Hc.
  destruct (Block.getRLPData b) as [d|] eqn:Ed; [|done]. cbn [mbind result_bind] in Hc. pose proof (Hbig i b d Eb Ed) as Hd. pose proof (zlen_nonneg d).
  assert (u64 (size + zlen d) = size + zlen d) as Hsum by (apply u64_small; unfold is_u64, maxPacketSize in *; lia). rewrite Hsum in Hc.
  destruct (Z.leb_spec maxPacketSize (size + zlen d)); [by apply Hstop|]. rewrite (u64_small (i + 1)) in Hc by (unfold is_u64; lia).
  apply IH in Hc as (l & ds & R1 & R2 & R3 & R4 & R5 & R6); [|lia|lia|lia].
  exists (b :: l), (d :: ds). split; [done|]. split; [rewrite R2; cbn; by rewrite <- app_assoc|]. split; [cbn; lia|]. split; [|split].
  - intros [|k] b' Hk; [injection Hk as <-; by rewrite Z.add_0_r|]. rewrite <- (R4 k b' Hk). f_equal. lia.
  - cbn [result_map]. rewrite Ed. cbn [mbind result_bind]. by rewrite R5.
  - cbn [total_size foldr]. fold (total_size ds). lia.
Qed.

(** C36. The reply to a request for the blocks from [first] to [last] holds
    consecutive blocks of the chain starting with [first], at most as many as
    were asked for and of less than 55000 bytes together; the loop ends within
    one round per number, more rounds change nothing. *)
Theorem reply_blocks_consecutive (u : Status) (first last : Z) (c : @BlockChain DB E) (st : Status) (bs : BlockState)
    (Hfirst : 0 <= first) (Hlast : first < last < 2 ^ 64 - 1)
    (Hbig : forall n b d, getBlockByNumber h0 n c = Ok b -> Block.getRLPData b = Ok d -> zlen d < 2 ^ 63)
    (Hrun : collect_blocks h0 s0 (Z.to_nat (last - first + 1)) first last 0 (newStatus ReplyBlocks u) EmptyBlockState c = Ok (st, bs)) :
  st_type st = ReplyBlocks /\ zlen (st_blocks st) <= last - first + 1 /\
  (forall k b, st_blocks st !! k = Some b -> getBlockByNumber h0 (first + Z.of_nat k) c = Ok b) /\
  (exists ds, result_map Block.getRLPData (st_blocks st) = Ok ds /\ total_size ds < maxPacketSize) /\
  (forall more, collect_blocks h0 s0 (Z.to_nat (last - first + 1) + more) first last 0 (newStatus ReplyBlocks u) EmptyBlockState c = Ok (st, bs)).
Proof.
  destruct (collect_spec _ first last 0 _ _ _ _ _ Hbig Hfirst (proj2 Hlast) ltac:(unfold maxPacketSize; lia) Hrun) as (l & ds & R1 & R2 & R3 & R4 & R5 & R6).
  cbn [newStatus st_blocks st_type app] in R1, R2. rewrite R2. split; [done|]. split; [unfold zlen; lia|]. split; [done|]. split.
  - exists ds. split; [done|lia].
  - intros more. rewrite collect_more; [done|lia|lia|lia].
Qed.
End Reply.

(** ** Transactions from clients *)

Section Transactions.
Context {DB E : Type} `{KVStore DB} `{Secp256k1} (h0 : BlockHeader).
Implicit Types c : @BlockChain DB E.

Lemma keeps_on_temp {A} (m : ST (Repository DB) A) : keeps (@bc_txCache DB E) (on_temp m).
Proof. intros c. unfold on_temp. destruct (m _) as [x r]. by destruct (bc_memoryQueue c). Qed.

Lemma preProcessTx_keeps tx : keeps (@bc_txCache DB E) (preProcessTx h0 tx).
Proof.
  unfold preProcessTx, isExist_tx.
  repeat (apply keeps_bind || apply keeps_read || apply keeps_lift || apply keeps_throw_if || apply keeps_on_temp || apply keeps_ret
          || match goal with |- keeps _ (if ?b then _ else _) => destruct b | |- forall _, keeps _ _ => intros ? end).
Qed.

(** [addRPCTx] of a transaction that is new and passes the checks returns
    true and keeps the cache ordered by timestamp. The transaction is in the
    cache afterwards when no cached transaction has its timestamp; otherwise
    the cache is unchanged, and the transaction is lost. *)
Theorem rpc_transaction_cached (tx : Transaction) (id : h256) (c c2 : @BlockChain DB E)
    (Hid : Transaction.getHash tx = Ok id) (Hnew : Queue.fixed_isExist id (bc_historyTxCache c) = false)
    (Hord : Ordered.ordered Transaction.m_timestamp (bc_txCache c))
    (Hpre : preProcessTx h0 tx (with_historyTx (Queue.fixed_push HISTORY_TX id (bc_historyTxCache c)) c) = (Ok tt, c2)) :
  exists c', addRPCTx h0 tx c = (Ok true, c') /\ Ordered.ordered Transaction.m_timestamp (bc_txCache c') /\
    ((exists y, y ∈ bc_txCache c /\ Transaction.m_timestamp y = Transaction.m_timestamp tx) -> bc_txCache c' = bc_txCache c) /\
    ((forall y, y ∈ bc_txCache c -> Transaction.m_timestamp y <> Transaction.m_timestamp tx) ->
       forall y, y ∈ bc_txCache c' <-> y = tx \/ y ∈ bc_txCache c).
Proof.
  pose proof (preProcessTx_keeps tx (with_historyTx (Queue.fixed_push HISTORY_TX id (bc_historyTxCache c)) c)) as Hk. rewrite Hpre in Hk. cbn [snd with_historyTx bc_txCache] in Hk.
  assert (first_seen_tx tx c = (Ok true, with_historyTx (Queue.fixed_push HISTORY_TX id (bc_historyTxCache c)) c)) as Hf.
  { unfold first_seen_tx. rewrite (bind_lift _ _ _ _ Hid), bind_read, Hnew. reflexivity. }
  exists (insert_tx tx c2). split.
  { unfold addRPCTx. apply catch_ok. rewrite (st_bind_ok _ _ _ _ _ Hf), (st_bind_ok _ _ _ _ _ Hpre). reflexivity. }
  unfold insert_tx. cbn [with_txCache bc_txCache bc_historyTxCache]. rewrite Hk.
  destruct (Ordered.insert_spec Transaction.m_timestamp tx (bc_txCache c) Hord) as [Ho Hi]. split; [done|].
  destruct (Ordered.insert Transaction.m_timestamp tx (bc_txCache c)).2 eqn:E2.
  - destruct Hi as [Hfree Hin]. split; [|done]. intros (y & Hy & He). by destruct (Hfree y Hy).
  - destruct Hi as [-> (y & Hy & He)]. split; [done|]. intros Hfree. by destruct (Hfree y Hy).
Qed.
End Transactions.
