(* ===== verification/ChainExamples.v ===== *)
(** * A small chain

    A chain with one executed block over an empty database, with an owner that
    records the events it is told, on which the theorems about the chain are
    exercised. *)

From S2P Require Import Prelude CommonData RLP RLPFacts FixedHash SHA3 Codec.
From S2P Require Import Account Producer Transaction TransactionReceipt BlockHeader Block Status BlockState RollbackState.
From S2P Require Import AttributeState Database Ledger LedgerFacts Actions Repository RepositoryFacts FrameFacts CommitFacts LedgerExamples.
From S2P Require Import Schedule Caches Crypto BlockChain BlockChainFacts SolidifyFacts NodeFacts.
Import Spec.

(** An owner that keeps the events and schedules alice in every slot. *)
Definition log_face : MessageFace (list Event) := {|
  broadcast_block := fun _ _ e => (Ok tt, e);
  broadcast_tx := fun _ _ e => (Ok tt, e);
  send_confirmation := fun _ e => (Ok tt, e);
  send_status := fun _ _ e => (Ok tt, e);
  send_blockState := fun _ _ e => (Ok tt, e);
  face_schedule := fun _ _ e => (Ok tt, e);
  getProducerAddress := fun _ _ => alice;
  getSortedProducerList := fun _ => s_producers seven_producers;
  face_getProducerSnapshot := fun _ => seven_producers;
  notify := fun ev e => (Ok tt, e ++ [ev])
|}.

#[export] Instance log_face_laws : FaceLaws log_face.
Proof. split; intros; by eexists. Qed.

Definition state7 : BlockState := mkBlockState example_block 7 (fromArith 32 9) 7 false false seven_producers 0 [].
Definition rollback7 : RollbackState := mkRollback [state7] [0%nat] (Some 0%nat) 0.
Definition item7 : MemoryItem := mkItem true 7 base_layer.
Definition no_snapshot : ProducerSnapshot := mkSnapshot 0 [].
Definition toy_gkey : GKey := mkGKey toy_key (zero_hash 64) alice.

(** A chain on the given fork database, database and queue. *)
Definition chain_on (d : @DatabaseController (gmap bytes bytes)) (g : Globals) (q : list MemoryItem) (rs : RollbackState) (head : option nat)
    : @BlockChain (gmap bytes bytes) (list Event) :=
  mkChain d g [] toy_gkey 16 None q [] rs head ProducerStatus [] [] [] [] no_snapshot no_snapshot no_snapshot 7 example_block ∅ 0.
Definition chain7 := chain_on empty_dbc initial_globals [item7] rollback7 (Some 0%nat).

Lemma base_stack : stack_holds empty_dbc [base_layer] (view_of repo1).
Proof. eapply stack_drop_new. exact (holds_stack repo1 _ repo1_holds). Qed.

Lemma chain7_holds : chain_holds chain7 (view_of repo1).
Proof. split; [done|exact base_stack]. Qed.

(** ** Execution *)

Definition block8 : Block :=
  mkBlock (mkHeader 16 alice (fromArith 32 9) (zero_hash 32) (zero_hash 32) (zero_hash 32) 8 (GENESIS_TIMESTAMP + 4000) []
             (mkSignature (fromArith 32 5) (fromArith 32 6) 1)) [] [] false.

Lemma block8_executable : executable block8 [alice; bob] chain7.
Proof.
  split; [|done| |by left|by constructor].
  - split; vm_compute; intuition congruence.
  - vm_compute. intuition congruence.
Qed.

Lemma block_execution_atomic_witness :
  exists c' v', @doProcessBlock _ _ _ toy_secp log_face clear block8 chain7 = (Ok tt, c') /\ chain_holds c' v' /\ numbers c' = [7; 8] /\
    bc_latestBlock c' = block8 /\ worth v' [alice; bob] = worth (view_of repo1) [alice; bob] + BLOCK_BONUS_BASE -
      (if balance v' alice <? BLOCK_BONUS_BASE then 2 ^ 64 else 0).
Proof.
  destruct (@block_execution_atomic _ _ _ toy_secp log_face _ clear (fun _ => 0) (fun _ => 0) [alice; bob] block8 example_block chain7 (view_of repo1)
    parties_nodup chain7_holds block8_executable repo1_votes repo1_balances) as (x & c' & v' & Hrun & Hc & _ & Hend & Hns).
  - reflexivity.
  - vm_compute. congruence.
  - destruct (Hns eq_refl) as (_ & _ & Hex). destruct (Hex eq_refl alice_not_empty) as (H1 & H2 & H3). exists c', v'.
    destruct Hend as [(-> & _ & Hok)|[(_ & (Hr & _) & _)|(Hs & _)]]; [|rewrite Hr in H1; discriminate H1|discriminate Hs].
    split; [exact Hrun|]. split; [exact Hc|]. split; [exact H1|]. split; [exact H3|].
    rewrite (lk_worth _ _ _ _ _ Hok). change (reward block8) with (BLOCK_BONUS_BASE / 2 ^ 0). rewrite Z.div_1_r.
    change (m_producer (m_blockHeader block8)) with alice. change (fees (m_transactions block8)) with 0.
    change (mints (m_transactions block8)) with 0. lia.
Defined.

(** ** Solidification and restart *)

Lemma state7_storable : state_storable state7.
Proof.
  split; [|exact (Block.valid_header _ example_block_valid)]. split; cbn.
  - done.
  - apply seven_producers_valid.
  - done.
  - constructor.
  - done.
Qed.

(** Block 8 is queued above block 7. *)
Definition item8 : MemoryItem := mkItem true 8 (new_layer block8).
Definition chain8 := chain_on empty_dbc initial_globals [item7; item8] rollback7 (Some 0%nat).

Lemma chain8_holds : chain_holds chain8 (view_of repo1).
Proof. split; [done|]. exact (stack_new_layer _ block8 _ _ base_stack). Qed.

Lemma chain8_ready : ready_to_solidify 7 [item7; item8] chain8.
Proof.
  split; [apply initial_globals_ok|done| | | | |].
  - split; [repeat constructor; by eexists|apply NoDup_singleton].
  - apply linkedb_sound. vm_compute. reflexivity.
  - repeat constructor.
  - right. left. done.
  - constructor; [|constructor; [by left|constructor]]. right. split; [apply base_layer_storable|done|]. exists 0%nat, state7.
    split; [done|]. split; [done|apply state7_storable].
Qed.

(** Exactly the first item leaves the queue. *)
Lemma chain8_popped popped c' : solidified_blocks clear popped chain8 c' -> Forall (fun it => mi_blockNumber it <= 7) popped ->
  Forall (fun it => 7 < mi_blockNumber it) (bc_memoryQueue c') -> popped = [item7] /\ bc_memoryQueue c' = [item8].
Proof.
  intros Hs Hle Hgt. pose proof (ss_queue _ _ _ _ Hs) as Hq. change (bc_memoryQueue chain8) with [item7; item8] in Hq.
  destruct popped as [|it popped]; cbn [app] in Hq; [rewrite <- Hq in Hgt; apply Forall_cons in Hgt as [Hlt _]; cbn in Hlt; lia|].
  injection Hq as <- Hq. destruct popped as [|it popped]; cbn [app] in Hq; [done|]. injection Hq as <- _.
  apply Forall_cons in Hle as [_ [Hlt _]%Forall_cons]. cbn in Hlt. lia.
Qed.


Lemma chain8_solidified : exists c', solidified_blocks clear [item7] chain8 c'.
Proof.
  destruct (solidify_items_run clear 7 [item7; item8] chain8 (view_of repo1) chain8_holds eq_refl chain8_ready)
    as (popped & c' & v' & _ & _ & _ & Hs & Hle & Hgt & _).
  destruct (chain8_popped popped c' Hs Hle Hgt) as [-> _]. by exists c'.
Qed.

Lemma restart_resumes_witness :
  exists c0 c1, bc_head c0 = None /\ init (DB := gmap bytes bytes) (E := list Event) clear state7 0 false c0 = (Ok tt, c1) /\
    bc_latestNumber c1 = 7 /\ bc_latestBlock c1 = example_block.
Proof.
  destruct chain8_solidified as (c' & Hs). destruct (ss_last _ _ _ _ Hs item7 eq_refl) as (_ & Hdb & _).
  destruct (restart_resumes clear state7 0 false [item7] item7 chain8 c'
    (chain_on (bc_dbc c') (set_height (ATTRIBUTE_CURRENT_BLOCK_HEIGHT (bc_globals c')) initial_globals) [] empty_rollback None) Hs eq_refl)
    as (c1 & p & s & H1 & _ & _ & H2 & H3 & _).
  - reflexivity.
  - exact (Block.valid_header _ example_block_valid).
  - split; reflexivity.
  - reflexivity.
  - exact Hdb.
  - reflexivity.
  - exists (chain_on (bc_dbc c') (set_height (ATTRIBUTE_CURRENT_BLOCK_HEIGHT (bc_globals c')) initial_globals) [] empty_rollback None), c1.
    exact (conj eq_refl (conj H1 (conj H2 H3))).
Defined.

(** ** Forks *)

Definition sibling : BlockState := fresh_for 0 (mkSnapshot 0 []) block1 (fromArith 32 77).
Definition forked_heads : RollbackState := mkRollback [root_state; sibling] [1; 0]%nat (Some 1%nat) 0.
Definition block2_state : BlockState := fresh_for 0 seven_producers block2 id2.
Definition forked_heads2 : RollbackState := mkRollback [root_state; sibling; block2_state] [1; 0; 2]%nat (Some 2%nat) 0.
Definition chain_forked := chain_on empty_dbc initial_globals [item7] forked_heads (Some 1%nat).

Lemma add_to_fork :
  RollbackState.add 0 block2 seven_producers forked_heads =
  Ok (2%nat, None, forked_heads2).
Proof.
  etransitivity; [apply (add_hash 0 block2 seven_producers forked_heads id2 block2_hash)|].
  - by eexists.
  - vm_compute. reflexivity.
  - exists 0%nat. vm_compute. reflexivity.
  - vm_compute. reflexivity.
Qed.

Lemma competing_block_not_executed_witness :
  exists c', @processBlock _ _ _ toy_secp log_face clear 0 block2 chain_forked = (Ok true, c') /\
    same_ledger chain_forked c' /\ bc_head c' = Some 2%nat /\ bc_status c' = ProducerStatus.
Proof.
  destruct (@competing_block_not_executed _ _ _ toy_secp log_face clear 0 block2 chain_forked 2%nat 1%nat forked_heads2 sibling)
    as (c' & H1 & H2 & _ & _ & H3 & H4).
  - vm_compute. reflexivity.
  - apply index_wfb_sound. vm_compute. reflexivity.
  - reflexivity.
  - vm_compute. reflexivity.
  - reflexivity.
  - intros He. apply (f_equal toArith) in He. vm_compute in He. discriminate He.
  - exact add_to_fork.
  - intros He. apply (f_equal toArith) in He. vm_compute in He. discriminate He.
  - exists c'. split; [exact H1|]. split; [exact H2|]. split; [exact H3|exact H4].
Defined.

(** Block 8, and the same block one slot later. *)
Definition chain8_run := @doProcessBlock _ _ _ toy_secp log_face clear block8 chain7.
Definition late8 : Block :=
  mkBlock (mkHeader 16 alice (fromArith 32 9) (zero_hash 32) (zero_hash 32) (zero_hash 32) 9 (GENESIS_TIMESTAMP + 4000 + PRODUCER_INTERVAL) []
             (mkSignature (fromArith 32 5) (fromArith 32 6) 1)) [] [] false.
Definition chain8_again := @process_blocks _ _ _ toy_secp log_face clear 0 [block8] chain8_run.2.

Lemma block8_time : GENESIS_TIMESTAMP <= BlockHeader.m_timestamp (m_blockHeader block8).
Proof. vm_compute. congruence. Qed.
Lemma late8_time : GENESIS_TIMESTAMP <= BlockHeader.m_timestamp (m_blockHeader late8).
Proof. vm_compute. congruence. Qed.
Lemma block8_plain : Forall (fun b => scheduling b = false /\ GENESIS_TIMESTAMP <= BlockHeader.m_timestamp (m_blockHeader b)) [block8].
Proof. constructor; [exact (conj eq_refl block8_time)|constructor]. Qed.
Lemma chain8_ran : @doProcessBlock _ _ _ toy_secp log_face clear block8 chain7 = (Ok tt, chain8_run.2).
Proof. assert (chain8_run.1 = Ok tt) as <- by (vm_compute; reflexivity). unfold chain8_run. by destruct (@doProcessBlock _ _ _ _ _ _ _ _). Qed.
Lemma chain8_latest : bc_latestBlock chain8_run.2 = block8.
Proof. vm_compute. reflexivity. Qed.
Lemma chain7_other : bc_latestBlock chain7 <> block8.
Proof. intros He. apply (f_equal (fun b => m_number (m_blockHeader b))) in He. vm_compute in He. discriminate He. Qed.
Lemma chain8_full : BlockChain.checkProducer log_face block8 chain8_again = false.
Proof. vm_compute. reflexivity. Qed.
Lemma chain8_free : BlockChain.checkProducer log_face late8 chain8_again = true.
Proof. vm_compute. reflexivity. Qed.

Lemma chain_one_block_per_slot_witness :
  @processBlock _ _ _ toy_secp log_face clear 0 block8 chain8_again = (Ok false, chain8_again) /\
  BlockChain.checkProducer log_face late8 chain8_again = true /\
  slot (BlockHeader.m_timestamp (m_blockHeader block8)) < slot (BlockHeader.m_timestamp (m_blockHeader late8)).
Proof.
  destruct (@chain_one_block_per_slot _ _ _ toy_secp log_face clear 0 block8 block8 [block8] chain7 chain8_run.2
    eq_refl block8_time block8_time chain8_ran chain7_other chain8_latest block8_plain) as [_ H1].
  destruct (@chain_one_block_per_slot _ _ _ toy_secp log_face clear 0 block8 late8 [block8] chain7 chain8_run.2
    eq_refl block8_time late8_time chain8_ran chain7_other chain8_latest block8_plain) as [H2 _].
  split; [exact (H1 chain8_full)|]. split; [exact chain8_free|]. exact (proj1 (proj2 (H2 chain8_free)) eq_refl).
Defined.

(** ** Messages *)

Definition unset : Status := mkStatus UnknownSPT 0 0 0 [].

Lemma empty_block_by_number n : Database.getBlockByNumber clear n empty_dbc = Ok EmptyBlock.
Proof.
  unfold Database.getBlockByNumber, get_number, get. cbn [m_blockIndexStore empty_dbc kv_get gmap_store].
  rewrite lookup_empty. reflexivity.
Qed.

Lemma Ok_inj {A} (x y : A) : Ok x = Ok y -> y = x.
Proof. by intros [= ->]. Qed.

Lemma chain7_blocks n b : BlockChain.getBlockByNumber clear n chain7 = Ok b -> b = EmptyBlock \/ b = example_block.
Proof.
  unfold BlockChain.getBlockByNumber. destruct (_ <? n); [intros E; injection E as <-; by left|]. case_match eqn:Eq; intros E.
  - injection E as <-. right. case_match; [done|]. cbn in Eq. case_match; [|done]. case_match; [|done]. by injection Eq as <-.
  - change (bc_dbc chain7) with empty_dbc in E. rewrite empty_block_by_number in E. left. by apply Ok_inj in E.
Qed.

Lemma chain7_reply :
  match collect_blocks clear state7 2 7 8 0 (newStatus ReplyBlocks unset) EmptyBlockState chain7 with
  | Ok (st, _) => st_blocks st = [example_block]
  | Throw _ => False
  end.
Proof. vm_compute. reflexivity. Qed.

Lemma reply_blocks_consecutive_witness :
  exists st bs, collect_blocks clear state7 2 7 8 0 (newStatus ReplyBlocks unset) EmptyBlockState chain7 = Ok (st, bs) /\
    st_blocks st = [example_block] /\ BlockChain.getBlockByNumber clear 7 chain7 = Ok example_block.
Proof.
  pose proof chain7_reply as Hl.
  destruct (collect_blocks clear state7 2 7 8 0 (newStatus ReplyBlocks unset) EmptyBlockState chain7) as [[st bs]|] eqn:Hrun; [|destruct Hl].
  destruct (reply_blocks_consecutive clear state7 unset 7 8 chain7 st bs) as (_ & _ & Hget & _).
  - lia.
  - lia.
  - intros n b d Hb Hd. destruct (chain7_blocks n b Hb) as [-> | ->]; vm_compute in Hd; injection Hd as <-; vm_compute; reflexivity.
  - exact Hrun.
  - exists st, bs. split; [reflexivity|]. split; [exact Hl|]. apply (Hget 0%nat). rewrite Hl. reflexivity.
Defined.

Definition call_tx : Transaction :=
  mkTransaction 16 CallType (toAddress (@toPublic toy_secp toy_key)) bob 1538352001000 [] 7 (zero_hash 65).
Definition signed_tx : Transaction := match @sign_transaction toy_secp toy_key call_tx with Ok tx => tx | Throw _ => call_tx end.
Definition signed_id : h256 := tx_hash_of signed_tx.
Definition chain7_seen := with_historyTx (Queue.fixed_push HISTORY_TX signed_id (bc_historyTxCache chain7)) chain7.

Lemma signed_tx_hash : Transaction.getHash signed_tx = Ok signed_id.
Proof. vm_compute. reflexivity. Qed.

Lemma signed_tx_passes : (@preProcessTx _ _ _ toy_secp clear signed_tx chain7_seen).1 = Ok tt.
Proof. vm_compute. reflexivity. Qed.

Lemma rpc_transaction_cached_witness : exists c', @addRPCTx _ _ _ toy_secp clear signed_tx chain7 = (Ok true, c') /\ signed_tx ∈ bc_txCache c'.
Proof.
  destruct (@rpc_transaction_cached _ _ _ toy_secp clear signed_tx signed_id chain7 (@preProcessTx _ _ _ toy_secp clear signed_tx chain7_seen).2)
    as (c' & H1 & _ & _ & H2).
  - exact signed_tx_hash.
  - reflexivity.
  - constructor.
  - rewrite <- signed_tx_passes. apply surjective_pairing.
  - exists c'. split; [exact H1|]. apply H2; [|left; reflexivity]. intros y Hy. destruct (not_elem_of_nil _ Hy).
Defined.
