(* ===== verification/Instruction.v ===== *)
(** * Instructions of the contract machine: vm/Instruction.{h,cpp}

    The instruction codes and the numbers of stack items each instruction takes
    and leaves. *)

From S2P Require Import Prelude.

(** [enum class Instruction]. *)
Inductive Instruction : Type :=
  | STOP | ADD | MUL | SUB | DIV | SDIV | MOD | SMOD | ADDMOD | MULMOD | EXP | SIGNEXTEND | LT | GT | SLT
  | SGT | EQ | ISZERO | AND | OR | XOR | NOT | BYTE | SHL | SHR | SAR | SHA3 | ADDRESS | BALANCE | ORIGIN
  | CALLER | CALLVALUE | CALLDATALOAD | CALLDATASIZE | CALLDATACOPY | CODESIZE | CODECOPY | GASPRICE
  | EXTCODESIZE | EXTCODECOPY | RETURNDATASIZE | RETURNDATACOPY | EXTCODEHASH | BLOCKHASH | COINBASE
  | TIMESTAMP | NUMBER | DIFFICULTY | GASLIMIT | POP | MLOAD | MSTORE | MSTORE8 | SLOAD | SSTORE | JUMP
  | JUMPI | PC | MSIZE | GAS | JUMPDEST | PUSH1 | PUSH2 | PUSH3 | PUSH4 | PUSH5 | PUSH6 | PUSH7 | PUSH8
  | PUSH9 | PUSH10 | PUSH11 | PUSH12 | PUSH13 | PUSH14 | PUSH15 | PUSH16 | PUSH17 | PUSH18 | PUSH19 | PUSH20
  | PUSH21 | PUSH22 | PUSH23 | PUSH24 | PUSH25 | PUSH26 | PUSH27 | PUSH28 | PUSH29 | PUSH30 | PUSH31 | PUSH32
  | DUP1 | DUP2 | DUP3 | DUP4 | DUP5 | DUP6 | DUP7 | DUP8 | DUP9 | DUP10 | DUP11 | DUP12 | DUP13 | DUP14
  | DUP15 | DUP16 | SWAP1 | SWAP2 | SWAP3 | SWAP4 | SWAP5 | SWAP6 | SWAP7 | SWAP8 | SWAP9 | SWAP10 | SWAP11
  | SWAP12 | SWAP13 | SWAP14 | SWAP15 | SWAP16 | LOG0 | LOG1 | LOG2 | LOG3 | LOG4 | PUSHC | JUMPC | JUMPCI
  | JUMPTO | JUMPIF | JUMPSUB | JUMPV | JUMPSUBV | BEGINSUB | BEGINDATA | RETURNSUB | PUTLOCAL | GETLOCAL
  | XADD | XMUL | XSUB | XDIV | XSDIV | XMOD | XSMOD | XLT | XGT | XSLT | XSGT | XEQ | XISZERO | XAND | XOOR
  | XXOR | XNOT | XSHL | XSHR | XSAR | XROL | XROR | XPUSH | XMLOAD | XMSTORE | XSLOAD | XSSTORE | XVTOWIDE
  | XWIDETOV | XGET | XPUT | XSWIZZLE | XSHUFFLE | CREATE | CALL | CALLCODE | RETURN | DELEGATECALL | CREATE2
  | STATICCALL | REVERT | INVALID | SUICIDE.

(** The value of an enumerator. *)
Definition code_of (op : Instruction) : Z :=
  match op with
  | STOP => 0x00 | ADD => 0x01 | MUL => 0x02 | SUB => 0x03 | DIV => 0x04 | SDIV => 0x05 | MOD => 0x06
  | SMOD => 0x07 | ADDMOD => 0x08 | MULMOD => 0x09 | EXP => 0x0a | SIGNEXTEND => 0x0b | LT => 0x10
  | GT => 0x11 | SLT => 0x12 | SGT => 0x13 | EQ => 0x14 | ISZERO => 0x15 | AND => 0x16 | OR => 0x17
  | XOR => 0x18 | NOT => 0x19 | BYTE => 0x1a | SHL => 0x1b | SHR => 0x1c | SAR => 0x1d | SHA3 => 0x20
  | ADDRESS => 0x30 | BALANCE => 0x31 | ORIGIN => 0x32 | CALLER => 0x33 | CALLVALUE => 0x34
  | CALLDATALOAD => 0x35 | CALLDATASIZE => 0x36 | CALLDATACOPY => 0x37 | CODESIZE => 0x38 | CODECOPY => 0x39
  | GASPRICE => 0x3a | EXTCODESIZE => 0x3b | EXTCODECOPY => 0x3c | RETURNDATASIZE => 0x3d
  | RETURNDATACOPY => 0x3e | EXTCODEHASH => 0x3f | BLOCKHASH => 0x40 | COINBASE => 0x41 | TIMESTAMP => 0x42
  | NUMBER => 0x43 | DIFFICULTY => 0x44 | GASLIMIT => 0x45 | POP => 0x50 | MLOAD => 0x51 | MSTORE => 0x52
  | MSTORE8 => 0x53 | SLOAD => 0x54 | SSTORE => 0x55 | JUMP => 0x56 | JUMPI => 0x57 | PC => 0x58
  | MSIZE => 0x59 | GAS => 0x5a | JUMPDEST => 0x5b | PUSH1 => 0x60 | PUSH2 => 0x61 | PUSH3 => 0x62
  | PUSH4 => 0x63 | PUSH5 => 0x64 | PUSH6 => 0x65 | PUSH7 => 0x66 | PUSH8 => 0x67 | PUSH9 => 0x68
  | PUSH10 => 0x69 | PUSH11 => 0x6a | PUSH12 => 0x6b | PUSH13 => 0x6c | PUSH14 => 0x6d | PUSH15 => 0x6e
  | PUSH16 => 0x6f | PUSH17 => 0x70 | PUSH18 => 0x71 | PUSH19 => 0x72 | PUSH20 => 0x73 | PUSH21 => 0x74
  | PUSH22 => 0x75 | PUSH23 => 0x76 | PUSH24 => 0x77 | PUSH25 => 0x78 | PUSH26 => 0x79 | PUSH27 => 0x7a
  | PUSH28 => 0x7b | PUSH29 => 0x7c | PUSH30 => 0x7d | PUSH31 => 0x7e | PUSH32 => 0x7f | DUP1 => 0x80
  | DUP2 => 0x81 | DUP3 => 0x82 | DUP4 => 0x83 | DUP5 => 0x84 | DUP6 => 0x85 | DUP7 => 0x86 | DUP8 => 0x87
  | DUP9 => 0x88 | DUP10 => 0x89 | DUP11 => 0x8a | DUP12 => 0x8b | DUP13 => 0x8c | DUP14 => 0x8d
  | DUP15 => 0x8e | DUP16 => 0x8f | SWAP1 => 0x90 | SWAP2 => 0x91 | SWAP3 => 0x92 | SWAP4 => 0x93
  | SWAP5 => 0x94 | SWAP6 => 0x95 | SWAP7 => 0x96 | SWAP8 => 0x97 | SWAP9 => 0x98 | SWAP10 => 0x99
  | SWAP11 => 0x9a | SWAP12 => 0x9b | SWAP13 => 0x9c | SWAP14 => 0x9d | SWAP15 => 0x9e | SWAP16 => 0x9f
  | LOG0 => 0xa0 | LOG1 => 0xa1 | LOG2 => 0xa2 | LOG3 => 0xa3 | LOG4 => 0xa4 | PUSHC => 0xac | JUMPC => 0xad
  | JUMPCI => 0xae | JUMPTO => 0xb0 | JUMPIF => 0xb1 | JUMPSUB => 0xb2 | JUMPV => 0xb3 | JUMPSUBV => 0xb4
  | BEGINSUB => 0xb5 | BEGINDATA => 0xb6 | RETURNSUB => 0xb7 | PUTLOCAL => 0xb8 | GETLOCAL => 0xb9
  | XADD => 0xc1 | XMUL => 0xc2 | XSUB => 0xc3 | XDIV => 0xc4 | XSDIV => 0xc5 | XMOD => 0xc6 | XSMOD => 0xc7
  | XLT => 0xd0 | XGT => 0xd1 | XSLT => 0xd2 | XSGT => 0xd3 | XEQ => 0xd4 | XISZERO => 0xd5 | XAND => 0xd6
  | XOOR => 0xd7 | XXOR => 0xd8 | XNOT => 0xd9 | XSHL => 0xdb | XSHR => 0xdc | XSAR => 0xdd | XROL => 0xde
  | XROR => 0xdf | XPUSH => 0xe0 | XMLOAD => 0xe1 | XMSTORE => 0xe2 | XSLOAD => 0xe4 | XSSTORE => 0xe5
  | XVTOWIDE => 0xe6 | XWIDETOV => 0xe7 | XGET => 0xe8 | XPUT => 0xe9 | XSWIZZLE => 0xea | XSHUFFLE => 0xeb
  | CREATE => 0xf0 | CALL => 0xf1 | CALLCODE => 0xf2 | RETURN => 0xf3 | DELEGATECALL => 0xf4
  | CREATE2 => 0xf5 | STATICCALL => 0xfa | REVERT => 0xfd | INVALID => 0xfe | SUICIDE => 0xff
  end.

(** The enumerators, in the order of their values. *)
Definition instructions : list Instruction := [
  STOP; ADD; MUL; SUB; DIV; SDIV; MOD; SMOD; ADDMOD; MULMOD; EXP; SIGNEXTEND; LT; GT; SLT; SGT; EQ; ISZERO;
  AND; OR; XOR; NOT; BYTE; SHL; SHR; SAR; SHA3; ADDRESS; BALANCE; ORIGIN; CALLER; CALLVALUE; CALLDATALOAD;
  CALLDATASIZE; CALLDATACOPY; CODESIZE; CODECOPY; GASPRICE; EXTCODESIZE; EXTCODECOPY; RETURNDATASIZE;
  RETURNDATACOPY; EXTCODEHASH; BLOCKHASH; COINBASE; TIMESTAMP; NUMBER; DIFFICULTY; GASLIMIT; POP; MLOAD;
  MSTORE; MSTORE8; SLOAD; SSTORE; JUMP; JUMPI; PC; MSIZE; GAS; JUMPDEST; PUSH1; PUSH2; PUSH3; PUSH4; PUSH5;
  PUSH6; PUSH7; PUSH8; PUSH9; PUSH10; PUSH11; PUSH12; PUSH13; PUSH14; PUSH15; PUSH16; PUSH17; PUSH18; PUSH19;
  PUSH20; PUSH21; PUSH22; PUSH23; PUSH24; PUSH25; PUSH26; PUSH27; PUSH28; PUSH29; PUSH30; PUSH31; PUSH32;
  DUP1; DUP2; DUP3; DUP4; DUP5; DUP6; DUP7; DUP8; DUP9; DUP10; DUP11; DUP12; DUP13; DUP14; DUP15; DUP16;
  SWAP1; SWAP2; SWAP3; SWAP4; SWAP5; SWAP6; SWAP7; SWAP8; SWAP9; SWAP10; SWAP11; SWAP12; SWAP13; SWAP14;
  SWAP15; SWAP16; LOG0; LOG1; LOG2; LOG3; LOG4; PUSHC; JUMPC; JUMPCI; JUMPTO; JUMPIF; JUMPSUB; JUMPV;
  JUMPSUBV; BEGINSUB; BEGINDATA; RETURNSUB; PUTLOCAL; GETLOCAL; XADD; XMUL; XSUB; XDIV; XSDIV; XMOD; XSMOD;
  XLT; XGT; XSLT; XSGT; XEQ; XISZERO; XAND; XOOR; XXOR; XNOT; XSHL; XSHR; XSAR; XROL; XROR; XPUSH; XMLOAD;
  XMSTORE; XSLOAD; XSSTORE; XVTOWIDE; XWIDETOV; XGET; XPUT; XSWIZZLE; XSHUFFLE; CREATE; CALL; CALLCODE;
  RETURN; DELEGATECALL; CREATE2; STATICCALL; REVERT; INVALID; SUICIDE].

(** [Instruction(b)]: a value without an enumerator is [None]. *)
Definition decode (b : Z) : option Instruction := List.find (fun op => code_of op =? b) instructions.

(** [enum class Tier] and [struct InstructionInfo]; the name is not kept. *)
Inductive Tier : Type := ZeroTier | BaseTier | VeryLowTier | LowTier | MidTier | HighTier | ExtTier | SpecialTier | InvalidTier.
Record InstructionInfo : Type := mkInfo { i_args : Z; i_ret : Z; i_tier : Tier }.

(** [instructionInfos]. *)
Definition instructionInfos (op : Instruction) : InstructionInfo :=
  match op with
  | STOP => mkInfo 0 0 ZeroTier | ADD => mkInfo 2 1 VeryLowTier | SUB => mkInfo 2 1 VeryLowTier
  | MUL => mkInfo 2 1 LowTier | DIV => mkInfo 2 1 LowTier | SDIV => mkInfo 2 1 LowTier
  | MOD => mkInfo 2 1 LowTier | SMOD => mkInfo 2 1 LowTier | EXP => mkInfo 2 1 SpecialTier
  | NOT => mkInfo 1 1 VeryLowTier | LT => mkInfo 2 1 VeryLowTier | GT => mkInfo 2 1 VeryLowTier
  | SLT => mkInfo 2 1 VeryLowTier | SGT => mkInfo 2 1 VeryLowTier | EQ => mkInfo 2 1 VeryLowTier
  | ISZERO => mkInfo 1 1 VeryLowTier | AND => mkInfo 2 1 VeryLowTier | OR => mkInfo 2 1 VeryLowTier
  | XOR => mkInfo 2 1 VeryLowTier | BYTE => mkInfo 2 1 VeryLowTier | SHL => mkInfo 2 1 VeryLowTier
  | SHR => mkInfo 2 1 VeryLowTier | SAR => mkInfo 2 1 VeryLowTier | ADDMOD => mkInfo 3 1 MidTier
  | MULMOD => mkInfo 3 1 MidTier | SIGNEXTEND => mkInfo 2 1 LowTier | SHA3 => mkInfo 2 1 SpecialTier
  | ADDRESS => mkInfo 0 1 BaseTier | BALANCE => mkInfo 1 1 SpecialTier | ORIGIN => mkInfo 0 1 BaseTier
  | CALLER => mkInfo 0 1 BaseTier | CALLVALUE => mkInfo 0 1 BaseTier | CALLDATALOAD => mkInfo 1 1 VeryLowTier
  | CALLDATASIZE => mkInfo 0 1 BaseTier | CALLDATACOPY => mkInfo 3 0 VeryLowTier
  | CODESIZE => mkInfo 0 1 BaseTier | CODECOPY => mkInfo 3 0 VeryLowTier | GASPRICE => mkInfo 0 1 BaseTier
  | EXTCODESIZE => mkInfo 1 1 SpecialTier | EXTCODECOPY => mkInfo 4 0 SpecialTier
  | RETURNDATASIZE => mkInfo 0 1 BaseTier | RETURNDATACOPY => mkInfo 3 0 VeryLowTier
  | EXTCODEHASH => mkInfo 1 1 SpecialTier | BLOCKHASH => mkInfo 1 1 SpecialTier
  | COINBASE => mkInfo 0 1 BaseTier | TIMESTAMP => mkInfo 0 1 BaseTier | NUMBER => mkInfo 0 1 BaseTier
  | DIFFICULTY => mkInfo 0 1 BaseTier | GASLIMIT => mkInfo 0 1 BaseTier | POP => mkInfo 1 0 BaseTier
  | MLOAD => mkInfo 1 1 VeryLowTier | MSTORE => mkInfo 2 0 VeryLowTier | MSTORE8 => mkInfo 2 0 VeryLowTier
  | SLOAD => mkInfo 1 1 SpecialTier | SSTORE => mkInfo 2 0 SpecialTier | JUMP => mkInfo 1 0 MidTier
  | JUMPI => mkInfo 2 0 HighTier | PC => mkInfo 0 1 BaseTier | MSIZE => mkInfo 0 1 BaseTier
  | GAS => mkInfo 0 1 BaseTier | JUMPDEST => mkInfo 0 0 SpecialTier | PUSH1 => mkInfo 0 1 VeryLowTier
  | PUSH2 => mkInfo 0 1 VeryLowTier | PUSH3 => mkInfo 0 1 VeryLowTier | PUSH4 => mkInfo 0 1 VeryLowTier
  | PUSH5 => mkInfo 0 1 VeryLowTier | PUSH6 => mkInfo 0 1 VeryLowTier | PUSH7 => mkInfo 0 1 VeryLowTier
  | PUSH8 => mkInfo 0 1 VeryLowTier | PUSH9 => mkInfo 0 1 VeryLowTier | PUSH10 => mkInfo 0 1 VeryLowTier
  | PUSH11 => mkInfo 0 1 VeryLowTier | PUSH12 => mkInfo 0 1 VeryLowTier | PUSH13 => mkInfo 0 1 VeryLowTier
  | PUSH14 => mkInfo 0 1 VeryLowTier | PUSH15 => mkInfo 0 1 VeryLowTier | PUSH16 => mkInfo 0 1 VeryLowTier
  | PUSH17 => mkInfo 0 1 VeryLowTier | PUSH18 => mkInfo 0 1 VeryLowTier | PUSH19 => mkInfo 0 1 VeryLowTier
  | PUSH20 => mkInfo 0 1 VeryLowTier | PUSH21 => mkInfo 0 1 VeryLowTier | PUSH22 => mkInfo 0 1 VeryLowTier
  | PUSH23 => mkInfo 0 1 VeryLowTier | PUSH24 => mkInfo 0 1 VeryLowTier | PUSH25 => mkInfo 0 1 VeryLowTier
  | PUSH26 => mkInfo 0 1 VeryLowTier | PUSH27 => mkInfo 0 1 VeryLowTier | PUSH28 => mkInfo 0 1 VeryLowTier
  | PUSH29 => mkInfo 0 1 VeryLowTier | PUSH30 => mkInfo 0 1 VeryLowTier | PUSH31 => mkInfo 0 1 VeryLowTier
  | PUSH32 => mkInfo 0 1 VeryLowTier | DUP1 => mkInfo 1 2 VeryLowTier | DUP2 => mkInfo 2 3 VeryLowTier
  | DUP3 => mkInfo 3 4 VeryLowTier | DUP4 => mkInfo 4 5 VeryLowTier | DUP5 => mkInfo 5 6 VeryLowTier
  | DUP6 => mkInfo 6 7 VeryLowTier | DUP7 => mkInfo 7 8 VeryLowTier | DUP8 => mkInfo 8 9 VeryLowTier
  | DUP9 => mkInfo 9 10 VeryLowTier | DUP10 => mkInfo 10 11 VeryLowTier | DUP11 => mkInfo 11 12 VeryLowTier
  | DUP12 => mkInfo 12 13 VeryLowTier | DUP13 => mkInfo 13 14 VeryLowTier | DUP14 => mkInfo 14 15 VeryLowTier
  | DUP15 => mkInfo 15 16 VeryLowTier | DUP16 => mkInfo 16 17 VeryLowTier | SWAP1 => mkInfo 2 2 VeryLowTier
  | SWAP2 => mkInfo 3 3 VeryLowTier | SWAP3 => mkInfo 4 4 VeryLowTier | SWAP4 => mkInfo 5 5 VeryLowTier
  | SWAP5 => mkInfo 6 6 VeryLowTier | SWAP6 => mkInfo 7 7 VeryLowTier | SWAP7 => mkInfo 8 8 VeryLowTier
  | SWAP8 => mkInfo 9 9 VeryLowTier | SWAP9 => mkInfo 10 10 VeryLowTier | SWAP10 => mkInfo 11 11 VeryLowTier
  | SWAP11 => mkInfo 12 12 VeryLowTier | SWAP12 => mkInfo 13 13 VeryLowTier
  | SWAP13 => mkInfo 14 14 VeryLowTier | SWAP14 => mkInfo 15 15 VeryLowTier
  | SWAP15 => mkInfo 16 16 VeryLowTier | SWAP16 => mkInfo 17 17 VeryLowTier | LOG0 => mkInfo 2 0 SpecialTier
  | LOG1 => mkInfo 3 0 SpecialTier | LOG2 => mkInfo 4 0 SpecialTier | LOG3 => mkInfo 5 0 SpecialTier
  | LOG4 => mkInfo 6 0 SpecialTier | JUMPTO => mkInfo 1 0 VeryLowTier | JUMPIF => mkInfo 2 0 LowTier
  | JUMPV => mkInfo 1 0 MidTier | JUMPSUB => mkInfo 1 0 LowTier | JUMPSUBV => mkInfo 1 0 MidTier
  | BEGINSUB => mkInfo 0 0 SpecialTier | BEGINDATA => mkInfo 0 0 SpecialTier
  | RETURNSUB => mkInfo 1 0 MidTier | PUTLOCAL => mkInfo 1 0 VeryLowTier | GETLOCAL => mkInfo 0 1 VeryLowTier
  | XADD => mkInfo 0 0 SpecialTier | XMUL => mkInfo 2 1 SpecialTier | XSUB => mkInfo 2 1 SpecialTier
  | XDIV => mkInfo 2 1 SpecialTier | XSDIV => mkInfo 2 1 SpecialTier | XMOD => mkInfo 2 1 SpecialTier
  | XSMOD => mkInfo 2 1 SpecialTier | XLT => mkInfo 2 1 SpecialTier | XGT => mkInfo 2 1 SpecialTier
  | XSLT => mkInfo 2 1 SpecialTier | XSGT => mkInfo 2 1 SpecialTier | XEQ => mkInfo 2 1 SpecialTier
  | XISZERO => mkInfo 2 1 SpecialTier | XAND => mkInfo 1 1 SpecialTier | XOOR => mkInfo 2 1 SpecialTier
  | XXOR => mkInfo 2 1 SpecialTier | XNOT => mkInfo 2 1 SpecialTier | XSHL => mkInfo 2 1 SpecialTier
  | XSHR => mkInfo 2 1 SpecialTier | XSAR => mkInfo 2 1 SpecialTier | XROL => mkInfo 2 1 SpecialTier
  | XROR => mkInfo 2 1 SpecialTier | XPUSH => mkInfo 1 1 VeryLowTier | XMLOAD => mkInfo 1 1 VeryLowTier
  | XMSTORE => mkInfo 2 0 VeryLowTier | XSLOAD => mkInfo 1 1 SpecialTier | XSSTORE => mkInfo 2 0 SpecialTier
  | XVTOWIDE => mkInfo 1 1 VeryLowTier | XWIDETOV => mkInfo 1 1 VeryLowTier | XPUT => mkInfo 3 1 SpecialTier
  | XGET => mkInfo 2 1 SpecialTier | XSWIZZLE => mkInfo 2 1 SpecialTier | XSHUFFLE => mkInfo 3 1 SpecialTier
  | CREATE => mkInfo 3 1 SpecialTier | CREATE2 => mkInfo 4 1 SpecialTier | CALL => mkInfo 7 1 SpecialTier
  | CALLCODE => mkInfo 7 1 SpecialTier | RETURN => mkInfo 2 0 ZeroTier | STATICCALL => mkInfo 6 1 SpecialTier
  | DELEGATECALL => mkInfo 6 1 SpecialTier | REVERT => mkInfo 2 0 SpecialTier
  | INVALID => mkInfo 0 0 ZeroTier | SUICIDE => mkInfo 1 0 SpecialTier | PUSHC => mkInfo 0 1 VeryLowTier
  | JUMPC => mkInfo 1 0 MidTier | JUMPCI => mkInfo 2 0 HighTier
  end.

(** [instructionInfo((Instruction)b)], the metric of a code byte. *)
Definition instructionInfo (b : Z) : InstructionInfo :=
  match decode b with
  | Some op => instructionInfos op
  | None => mkInfo 0 0 InvalidTier
  end.

(** ** The codes are distinct *)

Lemma decode_code_of op : decode (code_of op) = Some op.
Proof. by destruct op. Qed.

#[export] Instance code_of_inj : Inj (=) (=) code_of.
Proof. intros a b H. pose proof (decode_code_of a). pose proof (decode_code_of b). congruence. Qed.
#[export] Instance Instruction_eq_dec : EqDecision Instruction.
Proof. refine (fun a b => cast_if (decide (code_of a = code_of b))); [by apply (inj code_of)|congruence]. Defined.

Lemma decode_inv b op : decode b = Some op -> b = code_of op.
Proof. intros H. apply find_some in H as [_ H]. lia. Qed.

Lemma code_of_range op : 0 <= code_of op < 256.
Proof. by destruct op. Qed.

(** What an instruction leaves is at most one item more than it takes. *)
Lemma instruction_stack_effect b :
  0 <= i_args (instructionInfo b) <= 17 /\ 0 <= i_ret (instructionInfo b) <= i_args (instructionInfo b) + 1.
Proof. unfold instructionInfo. destruct (decode b) as [op|]; [destruct op; cbn; lia|cbn; lia]. Qed.
