(* ===== verification/Word256.v ===== *)
(** * The words of the contract machine: u256 and s256 of core/Common.h and the
    arithmetic of vm/VM.cpp

    A [u256] is a [Z] from 0 to 2^256 - 1, an [s256] a sign and a magnitude of
    256 bits. The functions are the right-hand sides of the assignments in
    [VM::interpret]; the second half compares them with the two's complement
    meaning of the instructions. *)

From S2P Require Import Prelude CommonData.
Import BigEndian.

Definition u256 (z : Z) : Z := z mod 2 ^ 256.
Definition s256 (z : Z) : Z := Z.sgn z * (Z.abs z mod 2 ^ 256).
Definition is_u256 (z : Z) : Prop := 0 <= z < 2 ^ 256.

(** [u2s] and [s2u]. *)
Definition u2s (_u : Z) : Z := if Z.testbit _u 255 then s256 (- (Z.shiftl 1 256 - _u)) else s256 _u.
Definition s2u (_u : Z) : Z := if 0 <=? _u then u256 _u else u256 (Z.shiftl 1 256 + _u).

(** [divWorkaround<S>] and [modWorkaround<S>], with [S] the conversion to the
    result type; a quotient of 512-bit numbers rounds to zero. *)
Definition divWorkaround (S : Z -> Z) (_a _b : Z) : Z := S (Z.quot _a _b).
Definition modWorkaround (S : Z -> Z) (_a _b : Z) : Z := S (Z.rem _a _b).

(** [VM::exp256]; the exponent has 256 bits, so 256 rounds end the loop. *)
Fixpoint exp_loop (fuel : nat) (result _base _exponent : Z) : Z :=
  match fuel with
  | O => result
  | S n =>
      if _exponent =? 0 then result
      else exp_loop n (if Z.land (u64 _exponent) 1 =? 1 then u256 (result * _base) else result)
             (u256 (_base * _base)) (Z.shiftr _exponent 1)
  end.
Definition exp256 (_base _exponent : Z) : Z := exp_loop 256 1 _base _exponent.

(** The instructions on words: what they store, from what they read. *)
Definition bool_word (b : bool) : Z := if b then 1 else 0.
Definition op_div (a b : Z) : Z := if b =? 0 then 0 else divWorkaround u256 a b.
Definition op_sdiv (a b : Z) : Z := if b =? 0 then 0 else s2u (divWorkaround s256 (u2s a) (u2s b)).
Definition op_mod (a b : Z) : Z := if b =? 0 then 0 else modWorkaround u256 a b.
Definition op_smod (a b : Z) : Z := if b =? 0 then 0 else s2u (modWorkaround s256 (u2s a) (u2s b)).
Definition op_not (a : Z) : Z := u256 (Z.lnot a).
Definition op_byte (a b : Z) : Z := if a <? 32 then Z.land (Z.shiftr b (8 * (31 - a))) 0xff else 0.
Definition op_shl (a b : Z) : Z := if 256 <=? a then 0 else u256 (Z.shiftl b a).
Definition op_shr (a b : Z) : Z := if 256 <=? a then 0 else Z.shiftr b a.
Definition hibit : Z := Z.shiftl 1 255.
Definition allbits : Z := 0xffffffffffffffffffffffffffffffffffffffffffffffffffffffffffffffff.
Definition op_sar (a shiftee : Z) : Z :=
  if 256 <=? a then if negb (Z.land shiftee hibit =? 0) then allbits else 0
  else
    let r := Z.shiftr shiftee a in
    if negb (Z.land shiftee hibit =? 0) then Z.lor r (u256 (Z.shiftl allbits (256 - a))) else r.
Definition op_addmod (a b c : Z) : Z := if c =? 0 then 0 else u256 ((a + b) mod 2 ^ 512 mod c).
Definition op_mulmod (a b c : Z) : Z := if c =? 0 then 0 else u256 ((a * b) mod 2 ^ 512 mod c).
Definition op_signextend (a number : Z) : Z :=
  if a <? 31 then
    let testBit := a * 8 + 7 in
    let mask := u256 (Z.shiftl 1 testBit - 1) in
    if Z.testbit number testBit then Z.lor number (u256 (Z.lnot mask)) else Z.land number mask
  else number.

(** ** Ranges *)

Lemma u256_range z : is_u256 (u256 z).
Proof. apply Z.mod_pos_bound. lia. Qed.
Lemma u256_small z : is_u256 z -> u256 z = z.
Proof. intros H. by apply Z.mod_small. Qed.

Lemma testbit_top x n : 0 <= n -> 0 <= x < 2 ^ (n + 1) -> Z.testbit x n = (2 ^ n <=? x).
Proof.
  intros Hn Hx. rewrite Z.testbit_eqb by lia. pose proof (Z.pow_pos_nonneg 2 n ltac:(lia) Hn) as Hp. rewrite Z.pow_add_r, Z.pow_1_r in Hx by lia.
  destruct (Z.leb_spec (2 ^ n) x) as [Hle|Hlt].
  - replace (x / 2 ^ n) with 1 by (apply (Z.div_unique x (2 ^ n) 1 (x - 2 ^ n)); lia). done.
  - by rewrite Z.div_small by lia.
Qed.

(** ** Signed numbers *)

(** The number that a word represents in two's complement. *)
Definition signed (x : Z) : Z := if 2 ^ 255 <=? x then x - 2 ^ 256 else x.

Lemma signed_range x : is_u256 x -> - 2 ^ 255 <= signed x < 2 ^ 255.
Proof. unfold is_u256, signed. case_zbool; lia. Qed.

Lemma u256_signed x : is_u256 x -> u256 (signed x) = x.
Proof.
  intros Hx. unfold signed. case_zbool; [|by apply u256_small]. unfold u256.
  replace (x - 2 ^ 256) with (x + (-1) * 2 ^ 256) by lia. rewrite Z.mod_add by lia. by apply Z.mod_small.
Qed.

Lemma signed_u256 z : - 2 ^ 255 <= z < 2 ^ 255 -> signed (u256 z) = z.
Proof.
  intros Hz. unfold u256, signed. destruct (Z.le_gt_cases 0 z).
  - rewrite Z.mod_small by lia. case_zbool; lia.
  - replace (z mod 2 ^ 256) with (z + 2 ^ 256) by (apply (Z.mod_unique z (2 ^ 256) (-1)); lia). case_zbool; lia.
Qed.

Lemma u2s_signed x : is_u256 x -> u2s x = signed x.
Proof.
  intros Hx. unfold u2s, signed. rewrite (testbit_top x 255) by (unfold is_u256 in *; lia).
  change (Z.shiftl 1 256) with (2 ^ 256). unfold s256, is_u256 in *. case_zbool.
  - rewrite Z.sgn_neg by lia. rewrite Z.abs_neq, Z.mod_small by lia. lia.
  - destruct (Z.eq_dec x 0) as [-> |]; [done|]. rewrite Z.sgn_pos, Z.abs_eq, Z.mod_small by lia. lia.
Qed.

Lemma s2u_u256 z : - 2 ^ 256 < z -> s2u z = u256 z.
Proof.
  intros Hz. unfold s2u. case_zbool; [done|]. change (Z.shiftl 1 256) with (2 ^ 256). unfold u256.
  rewrite Z.add_comm, <- (Z.mul_1_l (2 ^ 256)) at 1. by rewrite Z.mod_add.
Qed.

Lemma s256_small z : - 2 ^ 256 < z < 2 ^ 256 -> s256 z = z.
Proof. intros Hz. unfold s256. rewrite Z.mod_small by lia. by rewrite Z.mul_comm, Z.abs_sgn. Qed.

Lemma quot_bound a b : b <> 0 -> Z.abs (Z.quot a b) <= Z.abs a.
Proof. intros Hb. rewrite <- Z.quot_abs by done. rewrite Z.quot_div_nonneg by lia. apply Z.div_le_upper_bound; nia. Qed.

Lemma rem_bound a b : b <> 0 -> Z.abs (Z.rem a b) <= Z.abs b.
Proof. intros Hb. pose proof (Z.rem_bound_abs a b Hb). lia. Qed.

(** Signed division rounds to zero; the smallest number divided by -1 is
    itself. *)
Lemma op_sdiv_spec a b : is_u256 a -> is_u256 b -> b <> 0 -> op_sdiv a b = u256 (Z.quot (signed a) (signed b)).
Proof.
  intros Ha Hb Hn. unfold op_sdiv. rewrite (proj2 (Z.eqb_neq _ _)) by done. rewrite !u2s_signed by done. unfold divWorkaround.
  pose proof (signed_range a Ha). assert (signed b <> 0) as Hs by (unfold signed, is_u256 in *; case_zbool; lia).
  pose proof (quot_bound (signed a) (signed b) Hs). rewrite s256_small by lia. apply s2u_u256. lia.
Qed.

Lemma op_smod_spec a b : is_u256 a -> is_u256 b -> b <> 0 -> op_smod a b = u256 (Z.rem (signed a) (signed b)).
Proof.
  intros Ha Hb Hn. unfold op_smod. rewrite (proj2 (Z.eqb_neq _ _)) by done. rewrite !u2s_signed by done. unfold modWorkaround.
  pose proof (signed_range b Hb). assert (signed b <> 0) as Hs by (unfold signed, is_u256 in *; case_zbool; lia).
  pose proof (rem_bound (signed a) (signed b) Hs). rewrite s256_small by lia. apply s2u_u256. lia.
Qed.

(** ** Powers *)

Lemma u256_mul_r a b : u256 (a * u256 b) = u256 (a * b).
Proof. unfold u256. by rewrite Z.mul_mod_idemp_r. Qed.
Lemma u256_mul_l a b : u256 (u256 a * b) = u256 (a * b).
Proof. unfold u256. by rewrite Z.mul_mod_idemp_l. Qed.

Lemma u256_pow_l a n : 0 <= n -> u256 (u256 a ^ n) = u256 (a ^ n).
Proof.
  intros Hn. pattern n. apply natlike_ind; [done| |done]. clear n Hn. intros n Hn IH.
  rewrite !Z.pow_succ_r by done. by rewrite u256_mul_l, <- u256_mul_r, IH, u256_mul_r.
Qed.

Lemma odd_land e : (Z.land (u64 e) 1 =? 1) = Z.odd e.
Proof.
  unfold u64. rewrite <- Z.land_ones, <- Z.land_assoc by lia. change (Z.land (Z.ones 64) 1) with 1.
  change 1 with (Z.ones 1) at 1. rewrite Z.land_ones by lia. change (2 ^ 1) with 2. rewrite Zmod_odd. by destruct (Z.odd e).
Qed.

Lemma exp_loop_spec fuel r b e :
  is_u256 r -> 0 <= e < 2 ^ Z.of_nat fuel -> exp_loop fuel r b e = u256 (r * b ^ e).
Proof.
  revert r b e. induction fuel as [|n IH]; intros r b e Hr He.
  - assert (e = 0) as -> by (cbn in He; lia). cbn [exp_loop]. by rewrite Z.pow_0_r, Z.mul_1_r, u256_small.
  - cbn [exp_loop]. destruct (Z.eqb_spec e 0) as [-> |Hne]; [by rewrite Z.pow_0_r, Z.mul_1_r, u256_small|].
    rewrite odd_land, Z.shiftr_div_pow2 by lia. change (2 ^ 1) with 2. rewrite Nat2Z.inj_succ, Z.pow_succ_r in He by lia.
    pose proof (Z.div_mod e 2 ltac:(lia)) as Hdm. rewrite Zmod_odd in Hdm.
    rewrite IH; [|destruct (Z.odd e); [apply u256_range|done]|split; [apply Z.div_pos; lia|apply Z.div_lt_upper_bound; lia]].
    rewrite <- u256_mul_r, u256_pow_l, u256_mul_r by (apply Z.div_pos; lia). rewrite <- Z.pow_2_r, <- Z.pow_mul_r by (try apply Z.div_pos; lia).
    replace (b ^ e) with (b ^ (2 * (e / 2) + (if Z.odd e then 1 else 0))) by (by rewrite <- Hdm).
    destruct (Z.odd e); [|by rewrite Z.add_0_r].
    rewrite u256_mul_l, Z.pow_add_r, Z.pow_1_r by (try apply Z.mul_nonneg_nonneg; try apply Z.div_pos; lia). f_equal. ring.
Qed.

Lemma exp256_spec b e : is_u256 e -> exp256 b e = u256 (b ^ e).
Proof. intros He. unfold exp256. rewrite exp_loop_spec; [by rewrite Z.mul_1_l|unfold is_u256; lia|exact He]. Qed.

(** ** Shifts, sign extension and bytes *)

Lemma hibit_spec x : is_u256 x -> negb (Z.land x hibit =? 0) = (2 ^ 255 <=? x).
Proof.
  intros Hx. rewrite <- (testbit_top x 255) by (unfold is_u256 in *; lia). unfold hibit. destruct (Z.testbit x 255) eqn:E.
  - apply negb_true_iff, Z.eqb_neq. intros H. assert (Z.testbit (Z.land x (Z.shiftl 1 255)) 255 = true) as Ht.
    { rewrite Z.land_spec, E, Z.shiftl_spec by lia. done. }
    by rewrite H, Z.bits_0 in Ht.
  - apply negb_false_iff, Z.eqb_eq, Z.bits_inj'. intros n Hn. rewrite Z.land_spec, Z.bits_0, Z.shiftl_spec by lia.
    destruct (Z.eq_dec n 255) as [-> |Hne]; [by rewrite E|]. change 1 with (2 ^ 0). rewrite Z.pow2_bits_eqb by lia.
    rewrite (proj2 (Z.eqb_neq _ _)) by lia. apply andb_false_r.
Qed.

Lemma shiftr_small x n : 0 <= x < 2 ^ n -> 0 <= n -> Z.shiftr x n = 0.
Proof. intros Hx Hn. rewrite Z.shiftr_div_pow2 by done. by apply Z.div_small. Qed.

(** The low 256 bits of a number, bit by bit. *)
Lemma u256_testbit z n : 0 <= n -> Z.testbit (u256 z) n = Z.testbit z n && (n <? 256).
Proof.
  intros Hn. unfold u256. destruct (Z.ltb_spec n 256).
  - rewrite Z.mod_pow2_bits_low by lia. by rewrite andb_true_r.
  - rewrite Z.mod_pow2_bits_high by lia. by rewrite andb_false_r.
Qed.
Lemma word_high_bit x n : is_u256 x -> 256 <= n -> Z.testbit x n = false.
Proof. intros Hx Hn. rewrite <- (u256_small x Hx), u256_testbit by lia. rewrite (proj2 (Z.ltb_ge _ _)) by lia. apply andb_false_r. Qed.

(** The number that the low [w] bits of a word represent. *)
Definition signed_of (w m : Z) : Z := if 2 ^ (w - 1) <=? m then m - 2 ^ w else m.

Lemma signed_of_testbit w m n : 0 < w -> 0 <= m < 2 ^ w -> 0 <= n ->
  Z.testbit (signed_of w m) n = if n <? w then Z.testbit m n else (2 ^ (w - 1) <=? m).
Proof.
  intros Hw Hm Hn. assert (forall k, w <= k -> Z.testbit m k = false) as Hhigh.
  { intros k Hk. rewrite <- (Z.mod_small m (2 ^ w)) by lia. by rewrite Z.mod_pow2_bits_high by lia. }
  unfold signed_of. destruct (Z.leb_spec (2 ^ (w - 1)) m).
  - destruct (Z.ltb_spec n w) as [Hlt|Hge].
    + rewrite <- (Z.mod_pow2_bits_low (m - 2 ^ w) w n) by lia. replace (m - 2 ^ w) with (m + (-1) * 2 ^ w) by lia.
      rewrite Z.mod_add, Z.mod_small by lia. done.
    + rewrite Z.testbit_eqb by lia. replace ((m - 2 ^ w) / 2 ^ n) with (-1); [done|].
      apply (Z.div_unique (m - 2 ^ w) (2 ^ n) (-1) (m - 2 ^ w + 2 ^ n)); [|lia].
      pose proof (Z.pow_le_mono_r 2 w n ltac:(lia) ltac:(lia)). lia.
  - destruct (Z.ltb_spec n w); [done|]. by apply Hhigh.
Qed.

Lemma signed_testbit x n : is_u256 x -> 0 <= n ->
  Z.testbit (signed x) n = if n <? 256 then Z.testbit x n else (2 ^ 255 <=? x).
Proof. intros Hx Hn. apply (signed_of_testbit 256); [lia|exact Hx|done]. Qed.

(** [SAR] shifts the signed number, rounding down; every amount is allowed. *)
Lemma op_sar_spec a x : 0 <= a -> is_u256 x -> op_sar a x = u256 (Z.shiftr (signed x) a).
Proof.
  intros Ha Hx. apply Z.bits_inj'. intros n Hn. rewrite u256_testbit, Z.shiftr_spec, signed_testbit by (lia || done).
  unfold op_sar. rewrite hibit_spec by done. assert (Z.testbit allbits n = (n <? 256)) as Hall.
  { change allbits with (Z.ones 256). rewrite Z.testbit_ones by lia. by rewrite (proj2 (Z.leb_le 0 n)) by lia. }
  destruct (Z.leb_spec 256 a).
  - rewrite (proj2 (Z.ltb_ge (n + a) 256)) by lia. destruct (2 ^ 255 <=? x); [done|]. by rewrite Z.bits_0.
  - destruct (Z.ltb_spec (n + a) 256); destruct (2 ^ 255 <=? x) eqn:E.
    + rewrite Z.lor_spec, Z.shiftr_spec, u256_testbit, Z.shiftl_spec by lia. rewrite (Z.testbit_neg_r allbits) by lia. cbn [andb].
      rewrite orb_false_r, (proj2 (Z.ltb_lt n 256)) by lia. by rewrite andb_true_r.
    + rewrite Z.shiftr_spec, (proj2 (Z.ltb_lt n 256)) by lia. by rewrite andb_true_r.
    + rewrite Z.lor_spec, Z.shiftr_spec, u256_testbit, Z.shiftl_spec by lia. rewrite (word_high_bit x) by (done || lia). cbn [orb andb].
      change allbits with (Z.ones 256). rewrite Z.testbit_ones by lia. rewrite (proj2 (Z.leb_le _ _)) by lia.
      destruct (Z.ltb_spec n 256); [|by rewrite !andb_false_r]. rewrite (proj2 (Z.ltb_lt _ _)) by lia. done.
    + rewrite Z.shiftr_spec by lia. by rewrite (word_high_bit x) by (done || lia).
Qed.

(** [SIGNEXTEND] widens the signed number in the low [a + 1] bytes. *)
Lemma op_signextend_spec a x : 0 <= a < 31 -> is_u256 x ->
  op_signextend a x = u256 (signed_of (8 * a + 8) (x mod 2 ^ (8 * a + 8))).
Proof.
  intros Ha Hx. unfold op_signextend. rewrite (proj2 (Z.ltb_lt a 31)) by lia. set (w := 8 * a + 8). assert (a * 8 + 7 = w - 1) as -> by lia.
  assert (0 < w <= 248) as Hw by lia. pose proof (Z.mod_pos_bound x (2 ^ w) ltac:(apply Z.pow_pos_nonneg; lia)) as Hm.
  assert (Z.testbit x (w - 1) = (2 ^ (w - 1) <=? x mod 2 ^ w)) as Ht.
  { rewrite <- (testbit_top _ (w - 1)); [|lia|by rewrite Z.sub_add]. by rewrite Z.mod_pow2_bits_low by lia. }
  rewrite Z.shiftl_1_l. replace (2 ^ (w - 1) - 1) with (Z.ones (w - 1)) by (rewrite Z.ones_equiv; lia).
  rewrite (u256_small (Z.ones _)).
  2: { unfold is_u256. rewrite Z.ones_equiv. pose proof (Z.pow_pos_nonneg 2 (w - 1) ltac:(lia) ltac:(lia)).
       pose proof (Z.pow_le_mono_r 2 (w - 1) 256 ltac:(lia) ltac:(lia)). lia. }
  apply Z.bits_inj'. intros n Hn. rewrite u256_testbit, signed_of_testbit, <- Ht by lia.
  assert (Z.testbit (Z.ones (w - 1)) n = (n <? w - 1)) as Hones.
  { rewrite Z.testbit_ones by lia. by rewrite (proj2 (Z.leb_le 0 n)) by lia. }
  assert (n < w -> Z.testbit (x mod 2 ^ w) n = Z.testbit x n) as Hlow by (intros; by rewrite Z.mod_pow2_bits_low by lia).
  destruct (Z.testbit x (w - 1)) eqn:E.
  - rewrite Z.lor_spec, u256_testbit, Z.lnot_spec, Hones by lia. destruct (Z.ltb_spec n w).
    + rewrite Hlow, (proj2 (Z.ltb_lt n 256)) by lia. rewrite !andb_true_r. destruct (Z.ltb_spec n (w - 1)); [by rewrite orb_false_r|].
      assert (n = w - 1) as -> by lia. by rewrite E.
    + rewrite (proj2 (Z.ltb_ge n (w - 1))) by lia. cbn [negb andb]. destruct (Z.ltb_spec n 256); [by rewrite orb_true_r|].
      by rewrite (word_high_bit x n) by (done || lia).
  - rewrite Z.land_spec, Hones. destruct (Z.ltb_spec n w).
    + rewrite Hlow, (proj2 (Z.ltb_lt n 256)) by lia. destruct (Z.ltb_spec n (w - 1)); [done|]. assert (n = w - 1) as -> by lia. by rewrite E.
    + rewrite (proj2 (Z.ltb_ge n (w - 1))) by lia. cbn [andb]. apply andb_false_r.
Qed.

Lemma nth_toBigEndian n i v : 0 <= v -> (i < n)%nat ->
  bval (nth i (toBigEndian n v) Byte.x00) = Z.land (Z.shiftr v (8 * (Z.of_nat n - 1 - Z.of_nat i))) 255.
Proof.
  revert v. induction n as [|n IH]; intros v Hv Hi; [lia|]. cbn [toBigEndian]. pose proof (length_toBigEndian n (Z.shiftr v 8)) as Hl.
  destruct (Nat.eq_dec i n) as [-> |Hne].
  - rewrite app_nth2, Hl, Nat.sub_diag by lia. cbn [nth]. rewrite bval_byte_of. replace (8 * _) with 0 by lia. rewrite Z.shiftr_0_r.
    unfold u8. apply Z.mod_small. change 255 with (Z.ones 8). rewrite Z.land_ones by lia. apply Z.mod_pos_bound. lia.
  - rewrite app_nth1 by lia. rewrite IH by (try apply Z.shiftr_nonneg; lia). rewrite Z.shiftr_shiftr by lia. do 2 f_equal. lia.
Qed.

(** [BYTE] counts bytes from the most significant one. *)
Lemma op_byte_spec a x : 0 <= a -> is_u256 x -> op_byte a x = if a <? 32 then bval (nth (Z.to_nat a) (toBigEndian 32 x) Byte.x00) else 0.
Proof.
  intros Ha Hx. unfold op_byte. destruct (Z.ltb_spec a 32); [|done].
  rewrite nth_toBigEndian by (unfold is_u256 in *; lia). do 2 f_equal. lia.
Qed.

(** ** Every instruction leaves a word *)

Lemma is_u256_bits x : 0 <= x -> (forall n, 256 <= n -> Z.testbit x n = false) -> is_u256 x.
Proof.
  intros H0 Hb. assert (u256 x = x) as <-; [|apply u256_range]. apply Z.bits_inj'. intros n Hn. rewrite u256_testbit by done.
  destruct (Z.ltb_spec n 256); [by rewrite andb_true_r|by rewrite Hb by lia].
Qed.

Lemma is_u256_le a b : is_u256 b -> 0 <= a <= b -> is_u256 a.
Proof. unfold is_u256. lia. Qed.
Lemma is_u256_zero : is_u256 0.
Proof. unfold is_u256. lia. Qed.
Lemma is_u256_bool b : is_u256 (bool_word b).
Proof. destruct b; unfold is_u256, bool_word; lia. Qed.
Lemma is_u256_land a b : is_u256 a -> 0 <= b -> is_u256 (Z.land a b).
Proof.
  intros Ha Hb. apply is_u256_bits; [apply Z.land_nonneg; by right|]. intros n Hn. by rewrite Z.land_spec, word_high_bit.
Qed.
Lemma is_u256_lor a b : is_u256 a -> is_u256 b -> is_u256 (Z.lor a b).
Proof.
  intros Ha Hb. apply is_u256_bits; [apply Z.lor_nonneg; unfold is_u256 in *; lia|]. intros n Hn. by rewrite Z.lor_spec, !word_high_bit.
Qed.
Lemma is_u256_lxor a b : is_u256 a -> is_u256 b -> is_u256 (Z.lxor a b).
Proof.
  intros Ha Hb. apply is_u256_bits; [apply Z.lxor_nonneg; unfold is_u256 in *; lia|]. intros n Hn. by rewrite Z.lxor_spec, !word_high_bit.
Qed.
Lemma is_u256_shiftr a n : is_u256 a -> 0 <= n -> is_u256 (Z.shiftr a n).
Proof.
  intros Ha Hn. apply is_u256_bits; [apply Z.shiftr_nonneg; unfold is_u256 in *; lia|]. intros k Hk.
  rewrite Z.shiftr_spec by lia. apply word_high_bit; [done|lia].
Qed.
Lemma is_u256_s2u z : is_u256 (s2u z).
Proof. unfold s2u. destruct (0 <=? z); apply u256_range. Qed.
Lemma is_u256_exp b e : is_u256 e -> is_u256 (exp256 b e).
Proof. intros He. rewrite exp256_spec by done. apply u256_range. Qed.

Create HintDb words.
#[export] Hint Resolve u256_range is_u256_zero is_u256_bool is_u256_lor is_u256_lxor is_u256_s2u is_u256_exp : words.

Lemma is_u256_div a b : is_u256 (op_div a b).
Proof. unfold op_div, divWorkaround. destruct (b =? 0); auto with words. Qed.
Lemma is_u256_mod a b : is_u256 (op_mod a b).
Proof. unfold op_mod, modWorkaround. destruct (b =? 0); auto with words. Qed.
Lemma is_u256_sdiv a b : is_u256 (op_sdiv a b).
Proof. unfold op_sdiv. destruct (b =? 0); auto with words. Qed.
Lemma is_u256_smod a b : is_u256 (op_smod a b).
Proof. unfold op_smod. destruct (b =? 0); auto with words. Qed.
Lemma is_u256_not a : is_u256 (op_not a).
Proof. apply u256_range. Qed.
Lemma is_u256_and a b : is_u256 a -> is_u256 b -> is_u256 (Z.land a b).
Proof. intros Ha [Hb _]. by apply is_u256_land. Qed.
Lemma is_u256_byte a b : is_u256 a -> is_u256 b -> is_u256 (op_byte a b).
Proof.
  intros Ha Hb. unfold op_byte. destruct (Z.ltb_spec a 32); [|auto with words]. apply is_u256_land; [apply is_u256_shiftr; [done|lia]|lia].
Qed.
Lemma is_u256_shl a b : is_u256 (op_shl a b).
Proof. unfold op_shl. destruct (256 <=? a); auto with words. Qed.
Lemma is_u256_shr a b : is_u256 a -> is_u256 b -> is_u256 (op_shr a b).
Proof. intros [Ha _] Hb. unfold op_shr. destruct (256 <=? a); [auto with words|by apply is_u256_shiftr]. Qed.
Lemma is_u256_sar a b : is_u256 a -> is_u256 b -> is_u256 (op_sar a b).
Proof. intros [Ha _] Hb. rewrite op_sar_spec by done. apply u256_range. Qed.
Lemma is_u256_addmod a b c : is_u256 (op_addmod a b c).
Proof. unfold op_addmod. destruct (c =? 0); auto with words. Qed.
Lemma is_u256_mulmod a b c : is_u256 (op_mulmod a b c).
Proof. unfold op_mulmod. destruct (c =? 0); auto with words. Qed.
Lemma is_u256_signextend a b : is_u256 b -> is_u256 (op_signextend a b).
Proof.
  intros Hb. unfold op_signextend. destruct (a <? 31); [|done]. destruct (Z.testbit b _); [auto with words|]. apply is_u256_land; [done|apply u256_range].
Qed.
#[export] Hint Resolve is_u256_div is_u256_mod is_u256_sdiv is_u256_smod is_u256_not is_u256_and is_u256_byte is_u256_shl is_u256_shr
  is_u256_sar is_u256_addmod is_u256_mulmod is_u256_signextend : words.
