(* ===== verification/VM.v ===== *)
(** * The contract machine: vm/VM.{h,cpp}

    The stack machine that runs contract code. Its stack is an array of 1024
    words that grows downwards; [m_SPP] is the index of the top, [m_SP] that of
    the arguments of the current instruction. [VMInterface] is the interface
    through which it reaches accounts and other contracts (vm/VMInterface.h). *)

From S2P Require Import Prelude CommonData FixedHash SHA3 BlockHeader Instruction Word256.
Import BigEndian.

(** ** The surroundings of the machine *)

(** The flags of [VMSchedule] that the machine reads. *)
Record VMSchedule : Type := mkSchedule {
  haveDelegateCall : bool;
  haveBitwiseShifting : bool;
  haveRevert : bool;
  haveReturnData : bool;
  haveStaticCall : bool;
  haveCreate2 : bool;
  haveExtcodehash : bool;
  eip150Mode : bool;
  eip158Mode : bool
}.
Definition suicideChargesNewAccountGas (s : VMSchedule) : bool := eip150Mode s.
Definition zeroValueTransferChargesNewAccountGas (s : VMSchedule) : bool := negb (eip158Mode s).

Record CallResult : Type := mkCallResult { cr_status : Z; cr_output : bytes }.
Record CreateResult : Type := mkCreateResult { xr_status : Z; xr_output : bytes; xr_address : h160 }.
Definition VM_SUCCESS : Z := 0.

Record Arguments : Type := mkArguments {
  senderAddress : h160;
  codeAddress : h160;
  receiveAddress : h160;
  valueTransfer : Z;
  apparentValue : Z;
  a_gas : Z;
  a_data : bytes;
  a_staticCall : bool
}.

(** The virtual functions of [VMInterface]. *)
Record VMInterface (E : Type) : Type := mkInterface {
  ext_store : Z -> ST E Z;
  ext_setStore : Z -> Z -> ST E unit;
  ext_balance : h160 -> ST E Z;
  ext_codeAt : h160 -> ST E bytes;
  ext_codeSizeAt : h160 -> ST E Z;
  ext_codeHashAt : h160 -> ST E h256;
  ext_exists : h160 -> ST E bool;
  ext_suicide : h160 -> ST E unit;
  ext_create : Z -> Z -> bytes -> Z -> Z -> ST E CreateResult;
  ext_call : Arguments -> ST E CallResult;
  ext_blockHash : Z -> ST E h256
}.
Arguments ext_store {E} _ _.
Arguments ext_setStore {E} _ _ _.
Arguments ext_balance {E} _ _.
Arguments ext_codeAt {E} _ _.
Arguments ext_codeSizeAt {E} _ _.
Arguments ext_codeHashAt {E} _ _.
Arguments ext_exists {E} _ _.
Arguments ext_suicide {E} _ _.
Arguments ext_create {E} _ _ _ _ _ _.
Arguments ext_call {E} _ _.
Arguments ext_blockHash {E} _ _.

(** Its data members. *)
Record ExtData : Type := mkExtData {
  x_contract : h160;
  x_caller : h160;
  x_origin : h160;
  x_value : Z;
  x_data : bytes;
  x_code : bytes;
  x_depth : Z;
  x_staticCall : bool;
  x_header : BlockHeader
}.

Definition asAddress (_item : Z) : h160 := right160 (fromArith 32 _item).
Definition fromAddress (_a : h160) : Z := toArith _a.

(** The functions that [m_next] can point to, and what ends the body of the
    loop of [interpret]: [break] leaves the [switch], [continue] starts the next
    round, [return] would leave the function. *)
Inductive Next := InitEntry | Interpret | Create | Call.
Inductive Control := Break | Continue | Return.

(** [throwException(type)]. *)
Inductive ExceptionType :=
  | BadInstruction | BadJump | BadStack | RevertInstruction | BufferOverrun | BadOverflow | OutOfGas | DisallowedStateChange.
Definition exception_of (type : ExceptionType) : exn :=
  match type with
  | BadInstruction => BadInstructionException
  | BadJump => BadJumpException
  | BadStack => BadStackException
  | RevertInstruction => BadInstructionException
  | BufferOverrun => BufferOverrunException
  | BadOverflow => BadOverflowException
  | OutOfGas => OutOfGasException
  | DisallowedStateChange => DisallowedStateChangeException
  end.

(** [decodeJumpDest(code, pc)] and [decodeJumpvDest(code, pcA, voff)] give the
    destination and the new value of the reference. *)
Definition decodeJumpDest (code : bytes) (pc : Z) : Z * Z :=
  let b i := bval (nth (Z.to_nat i) code Byte.x00) in
  (Z.lor (Z.shiftl (b pc) 8) (b (pc + 1)), pc + 2).
Definition decodeJumpvDest (code : bytes) (pcA voff : Z) : Z * Z :=
  let n := bval (nth (Z.to_nat (pcA + 1)) code Byte.x00) in
  let voff := if n <=? voff then u8 (n - 1) else voff in
  ((decodeJumpDest code (pcA + 1 + voff * 2)).1, pcA + 1 + n * 2).

(** [std::binary_search] on a vector: [std::lower_bound] halves the range, then
    the element found is compared. *)
Fixpoint lower_bound (fuel : nat) (v : list Z) (value : Z) (first len : nat) : nat :=
  match fuel with
  | O => first
  | S n =>
      if (len =? 0)%nat then first
      else
        let half := (len / 2)%nat in
        let mid := (first + half)%nat in
        if nth mid v 0 <? value then lower_bound n v value (S mid) (len - half - 1)%nat
        else lower_bound n v value first half
  end.
Definition binary_search (v : list Z) (value : Z) : bool :=
  let i := lower_bound (S (length v)) v value 0 (length v) in
  negb (i =? length v)%nat && negb (value <? nth i v 0).

(** The loop of [optimize]: the code with the synthetic instructions made
    invalid, and the jump destinations. *)
Fixpoint optimize_loop (fuel : nat) (pc nBytes : Z) (code : bytes) (dests : list Z) : bytes * list Z :=
  match fuel with
  | O => (code, dests)
  | S n =>
      if pc <? nBytes then
        let op := bval (nth (Z.to_nat pc) code Byte.x00) in
        let code :=
          if (op =? code_of PUSHC) || (op =? code_of JUMPC) || (op =? code_of JUMPCI)
          then <[Z.to_nat pc := byte_of (code_of INVALID)]> code else code in
        if op =? code_of JUMPDEST then optimize_loop n (pc + 1) nBytes code (dests ++ [pc])
        else if (code_of PUSH1 <=? op) && (op <=? code_of PUSH32)
        then optimize_loop n (pc + (op - code_of PUSH1 + 1) + 1) nBytes code dests
        else optimize_loop n (pc + 1) nBytes code dests
      else (code, dests)
  end.

Section Machine.
Context {E : Type} (ext : VMInterface E) (x : ExtData).
(** [m_onOp], the callback given to [exec], and [m_schedule], which the
    constructor leaves null. *)
Variables (onOp : option (Z -> Z -> Z -> Z -> ST E unit)) (schedule : option VMSchedule).

Record VM : Type := mkVM {
  m_code : bytes;
  m_memory : bytes;
  m_stack : list Z;
  m_SP : Z;
  m_SPP : Z;
  m_returnResult : bytes;
  m_OP : Z;
  m_PC : Z;
  m_newMemSize : Z;
  m_copyMemSize : Z;
  m_jumpDests : list Z;
  m_output : bytes;
  m_next : option Next;
  m_steps : Z;
  m_ext : E
}.

Definition with_code (v : bytes) (s : VM) : VM :=
  mkVM v (m_memory s) (m_stack s) (m_SP s) (m_SPP s) (m_returnResult s) (m_OP s) (m_PC s) (m_newMemSize s)
    (m_copyMemSize s) (m_jumpDests s) (m_output s) (m_next s) (m_steps s) (m_ext s).
Definition with_memory (v : bytes) (s : VM) : VM :=
  mkVM (m_code s) v (m_stack s) (m_SP s) (m_SPP s) (m_returnResult s) (m_OP s) (m_PC s) (m_newMemSize s)
    (m_copyMemSize s) (m_jumpDests s) (m_output s) (m_next s) (m_steps s) (m_ext s).
Definition with_stack (v : list Z) (s : VM) : VM :=
  mkVM (m_code s) (m_memory s) v (m_SP s) (m_SPP s) (m_returnResult s) (m_OP s) (m_PC s) (m_newMemSize s)
    (m_copyMemSize s) (m_jumpDests s) (m_output s) (m_next s) (m_steps s) (m_ext s).
Definition with_SP (v : Z) (s : VM) : VM :=
  mkVM (m_code s) (m_memory s) (m_stack s) v (m_SPP s) (m_returnResult s) (m_OP s) (m_PC s) (m_newMemSize s)
    (m_copyMemSize s) (m_jumpDests s) (m_output s) (m_next s) (m_steps s) (m_ext s).
Definition with_SPP (v : Z) (s : VM) : VM :=
  mkVM (m_code s) (m_memory s) (m_stack s) (m_SP s) v (m_returnResult s) (m_OP s) (m_PC s) (m_newMemSize s)
    (m_copyMemSize s) (m_jumpDests s) (m_output s) (m_next s) (m_steps s) (m_ext s).
Definition with_returnResult (v : bytes) (s : VM) : VM :=
  mkVM (m_code s) (m_memory s) (m_stack s) (m_SP s) (m_SPP s) v (m_OP s) (m_PC s) (m_newMemSize s)
    (m_copyMemSize s) (m_jumpDests s) (m_output s) (m_next s) (m_steps s) (m_ext s).
Definition with_OP (v : Z) (s : VM) : VM :=
  mkVM (m_code s) (m_memory s) (m_stack s) (m_SP s) (m_SPP s) (m_returnResult s) v (m_PC s) (m_newMemSize s)
    (m_copyMemSize s) (m_jumpDests s) (m_output s) (m_next s) (m_steps s) (m_ext s).
Definition with_PC (v : Z) (s : VM) : VM :=
  mkVM (m_code s) (m_memory s) (m_stack s) (m_SP s) (m_SPP s) (m_returnResult s) (m_OP s) v (m_newMemSize s)
    (m_copyMemSize s) (m_jumpDests s) (m_output s) (m_next s) (m_steps s) (m_ext s).
Definition with_newMemSize (v : Z) (s : VM) : VM :=
  mkVM (m_code s) (m_memory s) (m_stack s) (m_SP s) (m_SPP s) (m_returnResult s) (m_OP s) (m_PC s) v
    (m_copyMemSize s) (m_jumpDests s) (m_output s) (m_next s) (m_steps s) (m_ext s).
Definition with_copyMemSize (v : Z) (s : VM) : VM :=
  mkVM (m_code s) (m_memory s) (m_stack s) (m_SP s) (m_SPP s) (m_returnResult s) (m_OP s) (m_PC s)
    (m_newMemSize s) v (m_jumpDests s) (m_output s) (m_next s) (m_steps s) (m_ext s).
Definition with_jumpDests (v : list Z) (s : VM) : VM :=
  mkVM (m_code s) (m_memory s) (m_stack s) (m_SP s) (m_SPP s) (m_returnResult s) (m_OP s) (m_PC s)
    (m_newMemSize s) (m_copyMemSize s) v (m_output s) (m_next s) (m_steps s) (m_ext s).
Definition with_output (v : bytes) (s : VM) : VM :=
  mkVM (m_code s) (m_memory s) (m_stack s) (m_SP s) (m_SPP s) (m_returnResult s) (m_OP s) (m_PC s)
    (m_newMemSize s) (m_copyMemSize s) (m_jumpDests s) v (m_next s) (m_steps s) (m_ext s).
Definition with_next (v : option Next) (s : VM) : VM :=
  mkVM (m_code s) (m_memory s) (m_stack s) (m_SP s) (m_SPP s) (m_returnResult s) (m_OP s) (m_PC s)
    (m_newMemSize s) (m_copyMemSize s) (m_jumpDests s) (m_output s) v (m_steps s) (m_ext s).
Definition with_steps (v : Z) (s : VM) : VM :=
  mkVM (m_code s) (m_memory s) (m_stack s) (m_SP s) (m_SPP s) (m_returnResult s) (m_OP s) (m_PC s)
    (m_newMemSize s) (m_copyMemSize s) (m_jumpDests s) (m_output s) (m_next s) v (m_ext s).
Definition with_ext (v : E) (s : VM) : VM :=
  mkVM (m_code s) (m_memory s) (m_stack s) (m_SP s) (m_SPP s) (m_returnResult s) (m_OP s) (m_PC s)
    (m_newMemSize s) (m_copyMemSize s) (m_jumpDests s) (m_output s) (m_next s) (m_steps s) v.

(** [VM(extVM)]. *)
Definition newVM (e : E) : VM := mkVM [] [] (replicate 1024 0) 1024 1024 [] 0 0 0 0 [] [] None 0 e.

(** ** State access *)

Definition vm_read {A} (f : VM -> A) : ST VM A := fun s => (Ok (f s), s).
Definition vm_set (f : VM -> VM) : ST VM unit := st_modify f.
Definition throwException {A} (type : ExceptionType) : ST VM A := st_throw (exception_of type).
Definition throw_when (c : bool) (type : ExceptionType) : ST VM unit := st_throw_if c (exception_of type).

Definition on_ext {A} (m : ST E A) : ST VM A := fun s => let '(r, e) := m (m_ext s) in (r, with_ext e s).

(** [m_schedule->flag]; in the code the pointer is null. *)
Definition flag (f : VMSchedule -> bool) : ST VM bool :=
  match schedule with Some s => mret (f s) | None => st_throw NullSchedule end.

(** [m_SP[i]], and assignments to it and to [m_SPP[0]]. *)
Definition SP (i : Z) : ST VM Z := fun s =>
  if m_SP s + i <? 0 then (Throw Undefined, s)
  else match m_stack s !! Z.to_nat (m_SP s + i) with Some v => (Ok v, s) | None => (Throw Undefined, s) end.
Definition set_stack (i : Z) (v : Z) : ST VM unit := fun s =>
  if (i <? 0) || (zlen (m_stack s) <=? i) then (Throw Undefined, s)
  else (Ok tt, with_stack (<[Z.to_nat i := v]> (m_stack s)) s).
Definition set_SP (i v : Z) : ST VM unit := fun s => set_stack (m_SP s + i) v s.
Definition set_SPP (v : Z) : ST VM unit := fun s => set_stack (m_SPP s) v s.

(** Reads and writes of [size] bytes of the memory at an offset. *)
Definition mem_read (off size : Z) : ST VM bytes := fun s =>
  if size =? 0 then (Ok [], s)
  else if zlen (m_memory s) <? off + size then (Throw Undefined, s)
  else (Ok (take (Z.to_nat size) (drop (Z.to_nat off) (m_memory s))), s).
Definition mem_write (off : Z) (data : bytes) : ST VM unit := fun s =>
  if zlen data =? 0 then (Ok tt, s)
  else if zlen (m_memory s) <? off + zlen data then (Throw Undefined, s)
  else (Ok tt, with_memory (take (Z.to_nat off) (m_memory s) ++ data ++ drop (Z.to_nat (off + zlen data)) (m_memory s)) s).

(** ** Helpers of the machine *)

(** [toInt63(t)] and [memNeed(offset, size)]. *)
Definition toInt63 (t : Z) : ST VM Z := _ ← throw_when (0x7FFFFFFFFFFFFFFF <? t) OutOfGas; mret t.
Definition memNeed (offset size : Z) : ST VM Z := toInt63 (if size =? 0 then 0 else offset + size).

(** [m_memory.resize(n)]: a vector of bytes holds at most [2^63 - 1]. *)
Definition resize (n : Z) : ST VM unit := fun s =>
  if 2 ^ 63 - 1 <? n then (Throw LengthError, s)
  else (Ok tt, with_memory (take (Z.to_nat n) (m_memory s) ++ replicate (Z.to_nat (n - zlen (m_memory s))) Byte.x00) s).

Definition updateMem (newMem : Z) : ST VM unit :=
  let size := u64 (newMem + 31) / 32 * 32 in
  _ ← vm_set (with_newMemSize size);
  now ← vm_read (fun s => zlen (m_memory s));
  if now <? size then resize size else mret tt.

Definition onOperation : ST VM unit :=
  match onOp with
  | None => mret tt
  | Some f =>
      _ ← vm_set (fun s => with_steps (u64 (m_steps s + 1)) s);
      s ← st_get;
      let grow := if zlen (m_memory s) <? m_newMemSize s then (m_newMemSize s - zlen (m_memory s)) / 32 else 0 in
      on_ext (f (m_steps s) (m_PC s) (m_OP s) grow)
  end.

Definition adjustStack (removed added : Z) : ST VM unit :=
  _ ← vm_set (fun s => with_SP (m_SPP s) s);
  _ ← vm_set (fun s => with_SPP (m_SPP s + removed) s);
  spp ← vm_read m_SPP;
  _ ← throw_when (1024 <? spp) BadStack;
  _ ← vm_set (fun s => with_SPP (m_SPP s - added) s);
  spp ← vm_read m_SPP;
  throw_when (spp <? 0) BadStack.

(** [m_code[i]]. *)
Definition code_at (i : Z) : ST VM Z := fun s =>
  match m_code s !! Z.to_nat i with Some b => (Ok (bval b), s) | None => (Throw Undefined, s) end.

Definition fetchInstruction : ST VM unit :=
  pc ← vm_read m_PC;
  op ← code_at pc;
  _ ← vm_set (with_OP op);
  _ ← adjustStack (i_args (instructionInfo op)) (i_ret (instructionInfo op));
  _ ← vm_set (fun s => with_newMemSize (zlen (m_memory s)) s);
  vm_set (with_copyMemSize 0).

(** [verifyJumpDest(dest)]. *)
Definition verifyJumpDest (dest : Z) : ST VM Z :=
  dests ← vm_read m_jumpDests;
  if (dest <=? 0x7FFFFFFFFFFFFFFF) && binary_search dests dest then mret dest else throwException BadJump.

(** [copyToMemory(data, m_SP + k)]. *)
Definition copyToMemory (data : bytes) (k : Z) : ST VM unit :=
  sp0 ← SP k; bigIndex ← SP (k + 1); sp2 ← SP (k + 2);
  let offset := u64 sp0 in
  let index := u64 bigIndex in
  let size := u64 sp2 in
  let sizeToBeCopied := if zlen data <? bigIndex + size then if zlen data <? bigIndex then 0 else u64 (zlen data - index) else size in
  _ ← (if 0 <? sizeToBeCopied then mem_write offset (take (Z.to_nat sizeToBeCopied) (drop (Z.to_nat index) data)) else mret tt);
  if sizeToBeCopied <? size then mem_write (u64 (offset + sizeToBeCopied)) (replicate (Z.to_nat (size - sizeToBeCopied)) Byte.x00) else mret tt.

(** [initEntry()], with [copyCode(33)] and [optimize()]. *)
Definition copyCode (extra : Z) : ST VM unit :=
  vm_set (with_code (x_code x ++ replicate (Z.to_nat extra) Byte.x00)).
Definition optimize : ST VM unit :=
  _ ← copyCode 33;
  vm_set (fun s =>
    let '(code, dests) := optimize_loop (length (x_code x)) 0 (zlen (x_code x)) (m_code s) (m_jumpDests s) in
    with_jumpDests dests (with_code code s)).
Definition initEntry : ST VM unit :=
  _ ← vm_set (with_next (Some Interpret)); optimize.

(** [++m_PC; break;] *)
Definition NEXT : ST VM Control := _ ← vm_set (fun s => with_PC (u64 (m_PC s + 1)) s); mret Break.

(** ** Creation and calls *)

Definition create : ST VM unit :=
  _ ← vm_set (with_next (Some Interpret));
  endowment ← SP 0; initOff ← SP 1; initSize ← SP 2;
  op ← vm_read m_OP;
  salt ← (if op =? code_of CREATE2 then SP 3 else mret 0);
  need ← memNeed initOff initSize;
  _ ← updateMem need;
  _ ← vm_set (with_returnResult []);
  bal ← on_ext (ext_balance ext (x_contract x));
  _ ← (if (endowment <=? bal) && (x_depth x <? 1024) then
         initCode ← mem_read (u64 initOff) (u64 initSize);
         result ← on_ext (ext_create ext endowment 0 initCode op salt);
         _ ← set_SPP (fromAddress (xr_address result));
         vm_set (with_returnResult (xr_output result))
       else set_SPP 0);
  vm_set (fun s => with_PC (u64 (m_PC s + 1)) s).

(** [callSetup(params, output)]: the arguments of the call and the place of the
    output in memory, when the call is to be made. *)
Definition callSetup : ST VM (option (Arguments * (Z * Z))) :=
  op ← vm_read m_OP;
  let ix i := op =? code_of i in
  let staticCall := ix STATICCALL || x_staticCall x in
  let haveValueArg := ix CALL || ix CALLCODE in
  dest ← SP 1;
  let destinationAddr := asAddress dest in
  _ ← (if ix CALL then
         exists_ ← on_ext (ext_exists ext destinationAddr);
         if exists_ : bool then mret tt
         else v ← SP 2; if 0 <? v then mret tt else _ ← flag zeroValueTransferChargesNewAccountGas; mret tt
       else mret tt);
  value ← (if haveValueArg then SP 2 else mret 0);
  let sizesOffset := if haveValueArg then 3 else 2 in
  inputOffset ← SP sizesOffset; inputSize ← SP (sizesOffset + 1);
  outputOffset ← SP (sizesOffset + 2); outputSize ← SP (sizesOffset + 3);
  inputMemNeed ← memNeed inputOffset inputSize;
  outputMemNeed ← memNeed outputOffset outputSize;
  _ ← vm_set (with_newMemSize (Z.max inputMemNeed outputMemNeed));
  _ ← updateMem (Z.max inputMemNeed outputMemNeed);
  let apparent := if haveValueArg then value else if ix DELEGATECALL then x_value x else 0 in
  bal ← on_ext (ext_balance ext (x_contract x));
  if (value <=? bal) && (x_depth x <? 1024) then
    data ← mem_read (u64 inputOffset) (u64 inputSize);
    mret (Some (mkArguments (if ix DELEGATECALL then x_caller x else x_contract x) destinationAddr
                  (if ix CALL || ix STATICCALL then destinationAddr else x_contract x) value apparent 0 data staticCall,
                (u64 outputOffset, u64 outputSize)))
  else mret None.

Definition call : ST VM unit :=
  _ ← vm_set (with_next (Some Interpret));
  _ ← vm_set (with_returnResult []);
  setup ← callSetup;
  _ ← match setup with
      | Some (params, (off, size)) =>
          result ← on_ext (ext_call ext params);
          output ← mem_read off size;
          _ ← vm_set (with_returnResult output);
          set_SPP (if cr_status result =? VM_SUCCESS then 1 else 0)
      | None => set_SPP 0
      end;
  vm_set (fun s => with_PC (u64 (m_PC s + 1)) s).

(** ** The instructions

    One definition per group of cases of the [switch] in [interpret]. *)

(** CREATE2, CREATE, DELEGATECALL, STATICCALL, CALL, CALLCODE. *)
Definition do_call (op : Instruction) : ST VM Control :=
  match op with
  | CREATE2 =>
      _ ← onOperation;
      have ← flag haveCreate2;
      _ ← throw_when (negb have) BadInstruction;
      _ ← throw_when (x_staticCall x) DisallowedStateChange;
      _ ← vm_set (with_next (Some Create));
      mret Break
  | CREATE =>
      _ ← onOperation;
      _ ← throw_when (x_staticCall x) DisallowedStateChange;
      _ ← vm_set (with_next (Some Create));
      mret Break
  | _ =>
      _ ← onOperation;
      _ ← (if decide (op = DELEGATECALL) then have ← flag haveDelegateCall; throw_when (negb have) BadInstruction else mret tt);
      _ ← (if decide (op = STATICCALL) then have ← flag haveStaticCall; throw_when (negb have) BadInstruction else mret tt);
      _ ← (if decide (op = CALL) then
             if x_staticCall x then v ← SP 2; throw_when (negb (v =? 0)) DisallowedStateChange else mret tt
           else mret tt);
      _ ← vm_set (with_next (Some Call));
      mret Break
  end.

(** RETURN, REVERT, SUICIDE, STOP. *)
Definition do_halt (op : Instruction) : ST VM Control :=
  let take_output : ST VM bytes :=
    _ ← vm_set (with_copyMemSize 0);
    sp0 ← SP 0; sp1 ← SP 1;
    need ← memNeed sp0 sp1;
    _ ← updateMem need;
    output ← mem_read (u64 sp0) (u64 sp1);
    _ ← vm_set (with_memory []);
    mret output in
  match op with
  | RETURN =>
      _ ← onOperation;
      output ← take_output;
      _ ← vm_set (with_output output);
      _ ← vm_set (with_next None);
      mret Break
  | REVERT =>
      have ← flag haveRevert;
      _ ← throw_when (negb have) BadInstruction;
      _ ← onOperation;
      _ ← take_output;
      throwException RevertInstruction
  | SUICIDE =>
      _ ← onOperation;
      _ ← throw_when (x_staticCall x) DisallowedStateChange;
      sp0 ← SP 0;
      bal ← on_ext (ext_balance ext (x_contract x));
      charge ← (if 0 <? bal then mret true else flag zeroValueTransferChargesNewAccountGas);
      _ ← (if charge : bool then
             new ← flag suicideChargesNewAccountGas;
             if new : bool then _ ← on_ext (ext_exists ext (asAddress sp0)); mret tt else mret tt
           else mret tt);
      _ ← on_ext (ext_suicide ext (asAddress sp0));
      _ ← vm_set (with_next None);
      mret Break
  | _ =>
      _ ← onOperation;
      _ ← vm_set (with_next None);
      mret Break
  end.

(** MLOAD, MSTORE, MSTORE8, SHA3. *)
Definition do_memory (op : Instruction) : ST VM Control :=
  _ ← onOperation;
  sp0 ← SP 0;
  match op with
  | MLOAD =>
      off ← toInt63 sp0;
      _ ← updateMem (off + 32);
      word ← mem_read (u32 sp0) 32;
      _ ← set_SPP (be_val word);
      NEXT
  | MSTORE =>
      off ← toInt63 sp0;
      _ ← updateMem (off + 32);
      sp1 ← SP 1;
      _ ← mem_write (u32 sp0) (toBigEndian 32 sp1);
      NEXT
  | MSTORE8 =>
      off ← toInt63 sp0;
      _ ← updateMem (off + 1);
      sp1 ← SP 1;
      _ ← mem_write (u32 sp0) [byte_of (Z.land sp1 0xff)];
      NEXT
  | _ =>
      sp1 ← SP 1;
      need ← memNeed sp0 sp1;
      _ ← updateMem need;
      data ← mem_read (u64 sp0) (u64 sp1);
      _ ← set_SPP (toArith (sha3 data));
      NEXT
  end.

(** LOG0 to LOG4. *)
Definition do_log : ST VM Control :=
  _ ← onOperation;
  _ ← throw_when (x_staticCall x) DisallowedStateChange;
  NEXT.

(** [m_SPP[0] = f(m_SP[0], ...)]. *)
Definition unary (f : Z -> Z) : ST VM Control := _ ← onOperation; a ← SP 0; _ ← set_SPP (f a); NEXT.
Definition binary (f : Z -> Z -> Z) : ST VM Control := _ ← onOperation; a ← SP 0; b ← SP 1; _ ← set_SPP (f a b); NEXT.
Definition ternary (f : Z -> Z -> Z -> Z) : ST VM Control :=
  _ ← onOperation; a ← SP 0; b ← SP 1; c ← SP 2; _ ← set_SPP (f a b c); NEXT.

(** EXP, ADD to SMOD, NOT. *)
Definition do_arithmetic (op : Instruction) : ST VM Control :=
  match op with
  | EXP => binary exp256
  | ADD => binary (fun a b => u256 (a + b))
  | MUL => binary (fun a b => u256 (a * b))
  | SUB => binary (fun a b => u256 (a - b))
  | DIV => binary op_div
  | SDIV =>
      _ ← onOperation; a ← SP 0; b ← SP 1;
      _ ← set_SPP (op_sdiv a b);
      _ ← vm_set (fun s => with_SP (m_SP s - 1) s);
      NEXT
  | MOD => binary op_mod
  | SMOD => binary op_smod
  | _ => unary op_not
  end.

(** LT to XOR, BYTE. *)
Definition do_logic (op : Instruction) : ST VM Control :=
  match op with
  | LT => binary (fun a b => bool_word (a <? b))
  | GT => binary (fun a b => bool_word (b <? a))
  | SLT => binary (fun a b => bool_word (u2s a <? u2s b))
  | SGT => binary (fun a b => bool_word (u2s b <? u2s a))
  | EQ => binary (fun a b => bool_word (a =? b))
  | ISZERO => unary (fun a => bool_word (a =? 0))
  | AND => binary Z.land
  | OR => binary Z.lor
  | XOR => binary Z.lxor
  | _ => binary op_byte
  end.

(** SHL, SHR, SAR. *)
Definition do_shift (op : Instruction) : ST VM Control :=
  have ← flag haveBitwiseShifting;
  _ ← throw_when (negb have) BadInstruction;
  match op with
  | SHL => binary op_shl
  | SHR => binary op_shr
  | _ => binary op_sar
  end.

(** ADDMOD, MULMOD, SIGNEXTEND; the last one changes [m_SP[1]] in place. *)
Definition do_modular (op : Instruction) : ST VM Control :=
  match op with
  | ADDMOD => ternary op_addmod
  | MULMOD => ternary op_mulmod
  | _ => _ ← onOperation; a ← SP 0; number ← SP 1; _ ← set_SP 1 (op_signextend a number); NEXT
  end.

(** [m_SPP[0] = v] for a value of the surroundings. *)
Definition push_value (m : ST VM Z) : ST VM Control := _ ← onOperation; v ← m; _ ← set_SPP v; NEXT.

(** The bytes of CALLDATALOAD: those of the data at an offset, and zeros. *)
Definition data_word (off : Z) : Z :=
  let data := x_data x in
  if off + 31 <? zlen data then be_val (take 32 (drop (Z.to_nat off) data))
  else if zlen data <=? off then 0
  else be_val (map (fun j => nth (Z.to_nat off + j)%nat data Byte.x00) (seq 0 32)).

(** ADDRESS to EXTCODESIZE. *)
Definition do_environment (op : Instruction) : ST VM Control :=
  match op with
  | ADDRESS => push_value (mret (fromAddress (x_contract x)))
  | ORIGIN => push_value (mret (fromAddress (x_origin x)))
  | BALANCE => push_value (a ← SP 0; v ← on_ext (ext_balance ext (asAddress a)); mret (u256 v))
  | CALLER => push_value (mret (fromAddress (x_caller x)))
  | CALLVALUE => push_value (mret (u256 (x_value x)))
  | CALLDATALOAD => _ ← onOperation; off ← SP 0; _ ← set_SP 0 (data_word off); NEXT
  | CALLDATASIZE => push_value (mret (u256 (zlen (x_data x))))
  | RETURNDATASIZE =>
      have ← flag haveReturnData;
      _ ← throw_when (negb have) BadInstruction;
      push_value (vm_read (fun s => u256 (zlen (m_returnResult s))))
  | CODESIZE => push_value (mret (u256 (zlen (x_code x))))
  | _ => push_value (a ← SP 0; v ← on_ext (ext_codeSizeAt ext (asAddress a)); mret (u256 v))
  end.

(** Grow the memory for a copy to [m_SP[k]] of [m_SP[k + 2]] bytes. *)
Definition copy_room (k : Z) : ST VM unit :=
  sp2 ← SP (k + 2);
  size ← toInt63 sp2;
  _ ← vm_set (with_copyMemSize size);
  sp0 ← SP k;
  need ← memNeed sp0 sp2;
  updateMem need.

(** CALLDATACOPY, RETURNDATACOPY, EXTCODEHASH, CODECOPY, EXTCODECOPY. *)
Definition do_copy (op : Instruction) : ST VM Control :=
  match op with
  | CALLDATACOPY => _ ← onOperation; _ ← copy_room 0; _ ← copyToMemory (x_data x) 0; NEXT
  | RETURNDATACOPY =>
      _ ← onOperation;
      have ← flag haveReturnData;
      _ ← throw_when (negb have) BadInstruction;
      sp1 ← SP 1; sp2 ← SP 2;
      result ← vm_read m_returnResult;
      _ ← throw_when (zlen result <? sp1 + sp2) BufferOverrun;
      _ ← copy_room 0;
      _ ← copyToMemory result 0;
      NEXT
  | EXTCODEHASH =>
      _ ← onOperation;
      have ← flag haveExtcodehash;
      _ ← throw_when (negb have) BadInstruction;
      a ← SP 0;
      h ← on_ext (ext_codeHashAt ext (asAddress a));
      _ ← set_SPP (toArith h);
      NEXT
  | CODECOPY => _ ← onOperation; _ ← copy_room 0; _ ← copyToMemory (x_code x) 0; NEXT
  | _ =>
      _ ← onOperation;
      _ ← copy_room 1;
      a ← SP 0;
      code ← on_ext (ext_codeAt ext (asAddress a));
      _ ← copyToMemory code 1;
      NEXT
  end.

(** GASPRICE, BLOCKHASH to GASLIMIT. *)
Definition do_block (op : Instruction) : ST VM Control :=
  match op with
  | BLOCKHASH => push_value (n ← SP 0; h ← on_ext (ext_blockHash ext n); mret (toArith h))
  | COINBASE => push_value (mret (toArith (m_producer (x_header x))))
  | TIMESTAMP => push_value (mret (u256 (m_timestamp (x_header x))))
  | NUMBER => push_value (mret (u256 (m_number (x_header x))))
  | _ => push_value (mret 0)
  end.

(** PUSH2 to PUSH32: the loop over the bytes of the constant. *)
Fixpoint push_loop (numBytes : nat) : ST VM unit :=
  match numBytes with
  | O => mret tt
  | S n =>
      s ← st_get;
      b ← code_at (m_PC s);
      top ← (match m_stack s !! Z.to_nat (m_SPP s) with Some v => mret v | None => st_throw Undefined end);
      _ ← set_SPP (Z.lor (u256 (Z.shiftl top 8)) b);
      _ ← vm_set (fun s => with_PC (u64 (m_PC s + 1)) s);
      push_loop n
  end.

(** POP, PUSH1, PUSH2 to PUSH32. *)
Definition do_push (op : Instruction) : ST VM Control :=
  match op with
  | POP => _ ← onOperation; _ ← vm_set (fun s => with_SP (m_SP s - 1) s); NEXT
  | PUSH1 =>
      _ ← onOperation;
      _ ← vm_set (fun s => with_PC (u64 (m_PC s + 1)) s);
      pc ← vm_read m_PC;
      b ← code_at pc;
      _ ← set_SPP b;
      _ ← vm_set (fun s => with_PC (u64 (m_PC s + 1)) s);
      mret Continue
  | _ =>
      _ ← onOperation;
      let numBytes := code_of op - code_of PUSH1 + 1 in
      _ ← set_SPP 0;
      _ ← vm_set (fun s => with_PC (u64 (m_PC s + 1)) s);
      _ ← push_loop (Z.to_nat numBytes);
      mret Continue
  end.

(** JUMP and JUMPI. *)
Definition do_jump (op : Instruction) : ST VM Control :=
  _ ← onOperation;
  let jump : ST VM Control := sp0 ← SP 0; pc ← verifyJumpDest sp0; _ ← vm_set (with_PC pc); mret Continue in
  match op with
  | JUMP => jump
  | _ => sp1 ← SP 1; if negb (sp1 =? 0) then jump else _ ← vm_set (fun s => with_PC (u64 (m_PC s + 1)) s); mret Continue
  end.

(** DUP1 to DUP16 and SWAP1 to SWAP16. *)
Definition do_dup (op : Instruction) : ST VM Control :=
  _ ← onOperation; v ← SP (code_of op - code_of DUP1); _ ← set_SPP v; NEXT.
Definition do_swap (op : Instruction) : ST VM Control :=
  _ ← onOperation;
  let n := code_of op - code_of SWAP1 + 1 in
  a ← SP 0; b ← SP n; _ ← set_SP 0 b; _ ← set_SP n a;
  NEXT.

(** SLOAD, SSTORE, PC, MSIZE, GAS, JUMPDEST. *)
Definition do_state (op : Instruction) : ST VM Control :=
  match op with
  | SLOAD => push_value (n ← SP 0; v ← on_ext (ext_store ext n); mret (u256 v))
  | SSTORE =>
      _ ← onOperation;
      _ ← throw_when (x_staticCall x) DisallowedStateChange;
      sp0 ← SP 0; sp1 ← SP 1;
      _ ← on_ext (ext_setStore ext sp0 sp1);
      NEXT
  | PC => push_value (vm_read m_PC)
  | MSIZE => push_value (vm_read (fun s => zlen (m_memory s)))
  | GAS => push_value (mret 0)
  | _ => _ ← onOperation; NEXT
  end.

(** The [switch]. *)
Definition dispatch (op : option Instruction) : ST VM Control :=
  match op with
  | Some ((CREATE2 | CREATE | DELEGATECALL | STATICCALL | CALL | CALLCODE) as i) => do_call i
  | Some ((RETURN | REVERT | SUICIDE | STOP) as i) => do_halt i
  | Some ((MLOAD | MSTORE | MSTORE8 | SHA3) as i) => do_memory i
  | Some (LOG0 | LOG1 | LOG2 | LOG3 | LOG4) => do_log
  | Some ((EXP | ADD | MUL | SUB | DIV | SDIV | MOD | SMOD | NOT) as i) => do_arithmetic i
  | Some ((LT | GT | SLT | SGT | EQ | ISZERO | AND | OR | XOR | BYTE) as i) => do_logic i
  | Some ((SHL | SHR | SAR) as i) => do_shift i
  | Some ((ADDMOD | MULMOD | SIGNEXTEND) as i) => do_modular i
  | Some ((ADDRESS | ORIGIN | BALANCE | CALLER | CALLVALUE | CALLDATALOAD | CALLDATASIZE | RETURNDATASIZE | CODESIZE
          | EXTCODESIZE) as i) => do_environment i
  | Some ((CALLDATACOPY | RETURNDATACOPY | EXTCODEHASH | CODECOPY | EXTCODECOPY) as i) => do_copy i
  | Some ((GASPRICE | BLOCKHASH | COINBASE | TIMESTAMP | NUMBER | DIFFICULTY | GASLIMIT) as i) => do_block i
  | Some ((POP | PUSH1 | PUSH2 | PUSH3 | PUSH4 | PUSH5 | PUSH6 | PUSH7 | PUSH8 | PUSH9 | PUSH10 | PUSH11 | PUSH12
          | PUSH13 | PUSH14 | PUSH15 | PUSH16 | PUSH17 | PUSH18 | PUSH19 | PUSH20 | PUSH21 | PUSH22 | PUSH23 | PUSH24
          | PUSH25 | PUSH26 | PUSH27 | PUSH28 | PUSH29 | PUSH30 | PUSH31 | PUSH32) as i) => do_push i
  | Some ((JUMP | JUMPI) as i) => do_jump i
  | Some ((DUP1 | DUP2 | DUP3 | DUP4 | DUP5 | DUP6 | DUP7 | DUP8 | DUP9 | DUP10 | DUP11 | DUP12 | DUP13 | DUP14 | DUP15
          | DUP16) as i) => do_dup i
  | Some ((SWAP1 | SWAP2 | SWAP3 | SWAP4 | SWAP5 | SWAP6 | SWAP7 | SWAP8 | SWAP9 | SWAP10 | SWAP11 | SWAP12 | SWAP13
          | SWAP14 | SWAP15 | SWAP16) as i) => do_swap i
  | Some ((SLOAD | SSTORE | PC | MSIZE | GAS | JUMPDEST) as i) => do_state i
  | _ => throwException BadInstruction
  end.

(** The body of the loop of [interpret]. *)
Definition step : ST VM Control :=
  _ ← fetchInstruction;
  op ← vm_read m_OP;
  dispatch (decode op).

(** [interpret()] within a number of rounds; [None] when they do not end it. *)
Fixpoint interpret (fuel : nat) (s : VM) : option (result unit * VM) :=
  match fuel with
  | O => None
  | S n =>
      match step s with
      | (Throw e, s') => Some (Throw e, s')
      | (Ok Return, s') => Some (Ok tt, s')
      | (Ok _, s') => interpret n s'
      end
  end.

(** The loop of [exec(onOp)]; [fuel] bounds its rounds and those of each call
    of [interpret]. *)
Definition run_next (fuel : nat) (f : Next) (s : VM) : option (result unit * VM) :=
  match f with
  | InitEntry => Some (initEntry s)
  | Interpret => interpret fuel s
  | Create => Some (create s)
  | Call => Some (call s)
  end.
Fixpoint exec_loop (rounds fuel : nat) (f : Next) (s : VM) : option (result unit * VM) :=
  match rounds with
  | O => None
  | S n =>
      match run_next fuel f s with
      | Some (Ok _, s') => match m_next s' with Some g => exec_loop n fuel g s' | None => Some (Ok tt, s') end
      | r => r
      end
  end.
Definition exec (rounds fuel : nat) (s : VM) : option (result unit * VM) :=
  exec_loop rounds fuel InitEntry (with_next (Some InitEntry) (with_PC 0 s)).
End Machine.
