(* ===== verification/VMFacts.v ===== *)
(** * The jump table of the contract machine

    [optimize] of vm/VM.cpp walks over the code once before it runs; the jumps
    of the machine look their targets up in the table it leaves. *)

From S2P Require Import Prelude CommonData FixedHash SHA3 BlockHeader Instruction Word256 VM.
Import BigEndian.

(** ** Binary search *)

Lemma nth_sorted (v : list Z) i j : StronglySorted Z.lt v -> (i < j)%nat -> (j < length v)%nat -> nth i v 0 < nth j v 0.
Proof.
  intros Hs. revert i j. induction Hs as [|a v Hs IH Ha]; intros i j Hij Hj; cbn in Hj; [lia|].
  destruct j as [|j]; [lia|]. destruct i as [|i]; cbn [nth].
  - rewrite Forall_forall in Ha. apply Ha. apply list_elem_of_In, nth_In. lia.
  - apply IH; lia.
Qed.

(** [lower_bound] finds the first element that is not below the value. *)
Lemma lower_bound_spec fuel v value first len :
  StronglySorted Z.lt v -> (len < fuel)%nat -> (first + len <= length v)%nat ->
  (forall i, (i < first)%nat -> nth i v 0 < value) ->
  (forall i, (first + len <= i < length v)%nat -> value <= nth i v 0) ->
  let r := lower_bound fuel v value first len in
  (r <= length v)%nat /\ (forall i, (i < r)%nat -> nth i v 0 < value) /\ (forall i, (r <= i < length v)%nat -> value <= nth i v 0).
Proof.
  intros Hs. revert first len. induction fuel as [|n IH]; intros first len Hf Hl Hlow Hhigh; [lia|]. cbn [lower_bound]. cbv zeta.
  destruct (Nat.eqb_spec len 0) as [-> |Hne]; [rewrite Nat.add_0_r in *; split; [lia|split; done]|].
  pose proof (Nat.div_lt len 2 ltac:(lia) ltac:(lia)). set (half := (len / 2)%nat) in *.
  destruct (Z.ltb_spec (nth (first + half) v 0) value).
  - apply IH; [lia|lia| |intros i Hi; apply Hhigh; lia]. intros i Hi. destruct (decide (i = (first + half)%nat)) as [-> |]; [done|].
    pose proof (nth_sorted v i (first + half) Hs ltac:(lia) ltac:(lia)). lia.
  - apply IH; [lia|lia|done|]. intros i Hi. destruct (decide (i = (first + half)%nat)) as [-> |]; [done|].
    pose proof (nth_sorted v (first + half) i Hs ltac:(lia) ltac:(lia)). lia.
Qed.

(** [std::binary_search] on an increasing vector decides membership. *)
Lemma binary_search_spec v value : StronglySorted Z.lt v -> binary_search v value = true <-> value ∈ v.
Proof.
  intros Hs. unfold binary_search. pose proof (lower_bound_spec (S (length v)) v value 0 (length v) Hs ltac:(lia) ltac:(lia)
    ltac:(intros; lia) ltac:(intros; lia)) as Hr. cbv zeta in Hr. set (r := lower_bound _ _ _ _ _) in *. clearbody r. destruct Hr as (Hr & Hlow & Hhigh).
  rewrite andb_true_iff, !negb_true_iff, Nat.eqb_neq, Z.ltb_ge. split.
  - intros [Hne Hle]. specialize (Hhigh r ltac:(lia)). assert (value = nth r v 0) as -> by lia. apply list_elem_of_In, nth_In. lia.
  - intros Hin. apply list_elem_of_In, (In_nth _ _ 0) in Hin as (i & Hi & He).
    assert (r <= i)%nat by (destruct (le_lt_dec r i) as [|Hlt]; [done|]; specialize (Hlow i Hlt); lia).
    split; [lia|]. specialize (Hhigh r ltac:(lia)). destruct (Nat.eq_dec r i) as [Heq|]; [rewrite Heq; lia|].
    pose proof (nth_sorted v r i Hs ltac:(lia) ltac:(lia)). lia.
Qed.

Lemma sorted_filter (P : Z -> Prop) `{forall z, Decision (P z)} (v : list Z) :
  StronglySorted Z.lt v -> StronglySorted Z.lt (filter P v).
Proof.
  induction 1 as [|a v Hs IH Ha]; [constructor|]. rewrite filter_cons. destruct (decide (P a)); [|done]. constructor; [done|].
  rewrite Forall_forall in *. intros z Hz. apply Ha. by apply list_elem_of_filter in Hz as [_ Hz].
Qed.

(** ** Jump destinations *)

Section Jumps.
Variable code : bytes.
Abbreviation n := (zlen code).
Definition op_at (p : Z) : Z := bval (nth (Z.to_nat p) code Byte.x00).

(** How many bytes an instruction takes. *)
Definition op_size (op : Z) : Z :=
  if (code_of PUSH1 <=? op) && (op <=? code_of PUSH32) then op - code_of PUSH1 + 2 else 1.

(** The positions at which instructions start. *)
Inductive instruction_start : Z -> Prop :=
  | start_first : instruction_start 0
  | start_next p : instruction_start p -> p < n -> instruction_start (p + op_size (op_at p)).

Definition synthetic (op : Z) : bool := (op =? code_of PUSHC) || (op =? code_of JUMPC) || (op =? code_of JUMPCI).

Lemma op_size_pos op : 1 <= op_size op <= 33.
Proof. unfold op_size. cbn. destruct (Z.leb_spec 96 op); destruct (Z.leb_spec op 127); cbn; lia. Qed.

(** The instructions that the loop of [optimize] visits. *)
Fixpoint visited (fuel : nat) (pc : Z) : list Z :=
  match fuel with
  | O => []
  | S k => if pc <? n then pc :: visited k (pc + op_size (op_at pc)) else []
  end.

Lemma visited_ge fuel pc : Forall (fun p => pc <= p < n) (visited fuel pc).
Proof.
  revert pc. induction fuel as [|k IH]; intros pc; cbn; [constructor|]. destruct (Z.ltb_spec pc n); [|constructor].
  constructor; [lia|]. eapply Forall_impl; [apply IH|]. intros q Hq. cbn in Hq. pose proof (op_size_pos (op_at pc)). lia.
Qed.

Lemma visited_sorted fuel pc : StronglySorted Z.lt (visited fuel pc).
Proof.
  revert pc. induction fuel as [|k IH]; intros pc; cbn; [constructor|]. destruct (Z.ltb_spec pc n); constructor; [apply IH|].
  eapply Forall_impl; [apply visited_ge|]. intros q Hq. cbn in Hq. pose proof (op_size_pos (op_at pc)). lia.
Qed.

Lemma visited_next fuel pc p : n - pc <= Z.of_nat fuel -> p ∈ visited fuel pc -> p + op_size (op_at p) < n ->
  p + op_size (op_at p) ∈ visited fuel pc.
Proof.
  revert pc. induction fuel as [|k IH]; intros pc Hf Hp Hn; cbn in Hp; [by apply not_elem_of_nil in Hp|].
  pose proof (op_size_pos (op_at pc)). cbn [visited]. destruct (Z.ltb_spec pc n); [|by apply not_elem_of_nil in Hp].
  right. apply elem_of_cons in Hp as [-> |Hp].
  - destruct k as [|k]; [lia|]. cbn [visited]. rewrite (proj2 (Z.ltb_lt _ _)) by lia. left.
  - apply IH; [lia|done|done].
Qed.

Lemma visited_start fuel pc : instruction_start pc -> Forall instruction_start (visited fuel pc).
Proof.
  revert pc. induction fuel as [|k IH]; intros pc Hpc; cbn; [constructor|]. destruct (Z.ltb_spec pc n); [|constructor].
  constructor; [done|]. apply IH. by constructor.
Qed.

Lemma elem_of_visited p : p ∈ visited (length code) 0 <-> instruction_start p /\ p < n.
Proof.
  split.
  - intros Hp. split; [by apply (proj1 (Forall_forall _ _) (visited_start (length code) 0 start_first))|].
    apply (proj1 (Forall_forall _ _) (visited_ge (length code) 0) p Hp).
  - intros [Hs Hn]. induction Hs as [|p Hs IH Hpn].
    + unfold zlen in Hn. destruct (length code) eqn:E; [lia|]. cbn [visited]. unfold zlen. rewrite E, (proj2 (Z.ltb_lt _ _)) by lia. left.
    + apply visited_next; [unfold zlen; lia|by apply IH|done].
Qed.

Definition fix_code (pc : Z) (c : bytes) : bytes :=
  if synthetic (bval (nth (Z.to_nat pc) c Byte.x00)) then <[Z.to_nat pc := byte_of (code_of INVALID)]> c else c.

Lemma optimize_loop_step k pc nBytes c dests : pc < nBytes ->
  let op := bval (nth (Z.to_nat pc) c Byte.x00) in
  optimize_loop (S k) pc nBytes c dests =
  optimize_loop k (pc + op_size op) nBytes (fix_code pc c) (if op =? code_of JUMPDEST then dests ++ [pc] else dests).
Proof.
  intros Hlt. cbv zeta. cbn [optimize_loop]. rewrite (proj2 (Z.ltb_lt _ _)) by done. unfold fix_code, op_size. fold (synthetic (bval (nth (Z.to_nat pc) c Byte.x00))).
  destruct (Z.eqb_spec (bval (nth (Z.to_nat pc) c Byte.x00)) (code_of JUMPDEST)) as [He|He]; [rewrite He; done|].
  destruct (_ && _); [|done]. f_equal. lia.
Qed.

Lemma nth_fix_code pc c i : 0 <= pc < zlen c ->
  nth i (fix_code pc c) Byte.x00 =
  if decide (Z.of_nat i = pc /\ synthetic (bval (nth i c Byte.x00)) = true) then byte_of (code_of INVALID) else nth i c Byte.x00.
Proof.
  intros Hpc. unfold fix_code. destruct (decide (Z.of_nat i = pc)) as [<- |Hne].
  - rewrite Nat2Z.id. destruct (synthetic _).
    + rewrite decide_True by done. rewrite nth_lookup, list_lookup_insert_eq by (unfold zlen in *; lia). done.
    + rewrite decide_False; [done|]. by intros [_ H].
  - rewrite decide_False by tauto. destruct (synthetic _); [|done]. rewrite !nth_lookup, list_lookup_insert_ne by lia. done.
Qed.

(** The loop keeps the bytes it has not reached. *)
Lemma optimize_loop_run fuel pc c dests :
  (forall p, pc <= p < n -> nth (Z.to_nat p) c Byte.x00 = nth (Z.to_nat p) code Byte.x00) -> 0 <= pc -> n <= zlen c ->
  (optimize_loop fuel pc n c dests).2 = dests ++ filter (fun p => op_at p = code_of JUMPDEST) (visited fuel pc) /\
  length (optimize_loop fuel pc n c dests).1 = length c /\
  forall i, nth i (optimize_loop fuel pc n c dests).1 Byte.x00 =
    if decide (Z.of_nat i ∈ visited fuel pc /\ synthetic (bval (nth i c Byte.x00)) = true) then byte_of (code_of INVALID) else nth i c Byte.x00.
Proof.
  revert pc c dests. induction fuel as [|k IH]; intros pc c dests Hc Hpc Hlen.
  { cbn. rewrite app_nil_r. split; [done|]. split; [done|]. intros i. rewrite decide_False; [done|]. intros [H _]. by apply not_elem_of_nil in H. }
  cbn [visited]. destruct (Z.ltb_spec pc n) as [Hlt|Hge].
  2: { cbn [optimize_loop]. rewrite (proj2 (Z.ltb_ge _ _)) by done. rewrite app_nil_r. split; [done|]. split; [done|]. intros i.
       rewrite decide_False; [done|]. intros [H _]. by apply not_elem_of_nil in H. }
  rewrite optimize_loop_step by done. rewrite (Hc pc) by lia. fold (op_at pc). pose proof (op_size_pos (op_at pc)) as Hsz.
  assert (length (fix_code pc c) = length c) as Hl by (unfold fix_code; destruct (synthetic _); [apply length_insert|done]).
  destruct (IH (pc + op_size (op_at pc)) (fix_code pc c) (if op_at pc =? code_of JUMPDEST then dests ++ [pc] else dests)) as (R1 & R2 & R3).
  - intros p Hp. rewrite nth_fix_code, decide_False by (unfold zlen in *; lia). apply Hc. lia.
  - lia.
  - unfold zlen in *. rewrite Hl. lia.
  - split; [|split; [congruence|]].
    + rewrite R1, filter_cons. destruct (Z.eqb_spec (op_at pc) (code_of JUMPDEST)); [rewrite decide_True by done; by rewrite <- app_assoc|].
      by rewrite decide_False by done.
    + intros i. rewrite R3, !nth_fix_code by lia. destruct (decide (Z.of_nat i = pc)) as [<- |Hne].
      * rewrite (decide_False (P := Z.of_nat i ∈ _ /\ _)).
        2: { intros [H _]. pose proof (proj1 (Forall_forall _ _) (visited_ge k _) _ H). cbn in *. lia. }
        apply decide_ext. rewrite elem_of_cons. tauto.
      * rewrite !(decide_False (P := Z.of_nat i = pc /\ _)) by tauto. apply decide_ext. rewrite elem_of_cons. tauto.
Qed.

#[export] Instance start_dec p : Decision (instruction_start p /\ p < n).
Proof. destruct (decide (p ∈ visited (length code) 0)) as [H|H]; rewrite elem_of_visited in H; [by left|by right]. Defined.

(** The code and the jump table that [optimize] leaves. *)
Lemma optimize_loop_dests :
  (optimize_loop (length code) 0 n (code ++ replicate 33 Byte.x00) []).2 =
  filter (fun p => op_at p = code_of JUMPDEST) (visited (length code) 0).
Proof.
  destruct (optimize_loop_run (length code) 0 (code ++ replicate 33 Byte.x00) []) as [H _]; [|lia|rewrite zlen_app; pose proof (zlen_nonneg (replicate 33 Byte.x00)); lia|exact H].
  intros p Hp. rewrite app_nth1; [done|]. unfold zlen in Hp. lia.
Qed.

Lemma optimize_loop_code :
  let c := (optimize_loop (length code) 0 n (code ++ replicate 33 Byte.x00) []).1 in
  zlen c = n + 33 /\
  forall p, 0 <= p < n + 33 -> c !! Z.to_nat p = Some (if decide ((instruction_start p /\ p < n) /\ synthetic (op_at p) = true) then byte_of (code_of INVALID)
                                                 else nth (Z.to_nat p) code Byte.x00).
Proof.
  destruct (optimize_loop_run (length code) 0 (code ++ replicate 33 Byte.x00) []) as (_ & Hl & Hi);
    [intros p Hp; rewrite app_nth1; [done|]; unfold zlen in Hp; lia|lia|rewrite zlen_app; pose proof (zlen_nonneg (replicate 33 Byte.x00)); lia|].
  cbv zeta. set (c := (optimize_loop _ _ _ _ _).1) in *. clearbody c. rewrite length_app, length_replicate in Hl. split; [unfold zlen; lia|]. intros p Hp.
  destruct (lookup_lt_is_Some_2 c (Z.to_nat p)) as [b Hb]; [unfold zlen in Hp; lia|]. rewrite Hb. f_equal.
  assert (forall k, nth k (code ++ replicate 33 Byte.x00) Byte.x00 = nth k code Byte.x00) as Hz.
  { intros k. destruct (le_lt_dec (length code) k); [rewrite app_nth2, (nth_overflow code) by lia; rewrite nth_lookup; destruct (replicate 33 _ !! _) eqn:Ek; [apply lookup_replicate in Ek as [-> _]|]|rewrite app_nth1 by lia]; done. }
  specialize (Hi (Z.to_nat p)). rewrite Hz in Hi. rewrite nth_lookup, Hb in Hi. cbn in Hi. rewrite Hi. apply decide_ext.
  rewrite Z2Nat.id, elem_of_visited by lia. unfold op_at. tauto.
Qed.

(** A position is a jump destination when an instruction starts there and it
    is JUMPDEST. *)
Definition jump_dest (p : Z) : Prop := instruction_start p /\ p < n /\ op_at p = code_of JUMPDEST.

Lemma start_nonneg p : instruction_start p -> 0 <= p.
Proof. induction 1 as [|p _ IH _]; [done|]. pose proof (op_size_pos (op_at p)). lia. Qed.

(** Instructions do not overlap. *)
Lemma starts_apart p q : instruction_start p -> instruction_start q -> q < p -> q + op_size (op_at q) <= p.
Proof.
  intros Hp. revert q. assert (0 <= p) as H0 by by apply start_nonneg. revert Hp. pattern p. apply Zlt_0_ind; [|done]. clear p H0.
  intros p IH _ Hp q Hq Hlt. destruct Hp as [|p Hp Hn]; [pose proof (start_nonneg q Hq); lia|]. pose proof (op_size_pos (op_at p)) as Hsz. pose proof (start_nonneg p Hp).
  destruct (Z.lt_trichotomy q p) as [Hqp|[-> |Hqp]]; [|lia|].
  - specialize (IH p ltac:(lia) Hp q Hq Hqp). lia.
  - specialize (IH q ltac:(lia) Hq p Hp Hqp). lia.
Qed.

Lemma jump_dest_range p : jump_dest p -> 0 <= p < n.
Proof. intros (Hs & Hp & _). split; [by apply start_nonneg|done]. Qed.

Lemma binary_search_dests p :
  binary_search (optimize_loop (length code) 0 n (code ++ replicate 33 Byte.x00) []).2 p = true <-> jump_dest p.
Proof.
  rewrite optimize_loop_dests, binary_search_spec by apply sorted_filter, visited_sorted.
  rewrite list_elem_of_filter, elem_of_visited. unfold jump_dest. tauto.
Qed.
End Jumps.

Section Prepared.
Context {E : Type} (x : ExtData).

Lemma initEntry_state (e : E) :
  initEntry x (newVM e) =
  (Ok tt, let r := optimize_loop (length (x_code x)) 0 (zlen (x_code x)) (x_code x ++ replicate 33 Byte.x00) [] in
          with_jumpDests r.2 (with_code r.1 (with_next (Some Interpret) (newVM e)))).
Proof.
  unfold initEntry, optimize, copyCode, mbind, ST_bind, vm_set, st_modify. change (Z.to_nat 33) with 33%nat.
  cbn [m_code with_code m_jumpDests with_next newVM]. by destruct (optimize_loop _ _ _ _ _).
Qed.

Lemma initEntry_total (e : E) : exists s, initEntry x (newVM e) = (Ok tt, s).
Proof. rewrite initEntry_state. by eexists. Qed.

(** C33. Preparing a program finds exactly its jump targets. After [initEntry]
    on a new machine, the code in memory is the program followed by 33 zero
    bytes, with the synthetic opcodes PUSHC, JUMPC and JUMPCI replaced by
    INVALID wherever an instruction starts and every other byte kept; and
    [verifyJumpDest], a binary search of the table built on the way, accepts
    [dest] exactly when an instruction starts there and it is JUMPDEST. A
    JUMPDEST byte inside the constant of a PUSH is refused with BadJump. *)
Theorem jump_table_exact (e : E) (dest : Z) :
  zlen (x_code x) < 2 ^ 63 ->
  exists s, initEntry x (newVM e) = (Ok tt, s) /\
    (jump_dest (x_code x) dest -> verifyJumpDest dest s = (Ok dest, s)) /\
    (~ jump_dest (x_code x) dest -> verifyJumpDest dest s = (Throw BadJumpException, s)) /\
    zlen (m_code s) = zlen (x_code x) + 33 /\
    forall p, 0 <= p < zlen (x_code x) + 33 ->
      m_code s !! Z.to_nat p =
      Some (if decide ((instruction_start (x_code x) p /\ p < zlen (x_code x)) /\ synthetic (op_at (x_code x) p) = true)
            then byte_of (code_of INVALID) else nth (Z.to_nat p) (x_code x) Byte.x00).
Proof.
  intros Hlen. rewrite initEntry_state. eexists. split; [reflexivity|]. unfold verifyJumpDest, mbind, ST_bind, vm_read. cbn [m_jumpDests m_code with_jumpDests with_code].
  pose proof (binary_search_dests (x_code x) dest) as Hb. split_and!; [| |apply optimize_loop_code..].
  - intros Hd. rewrite (proj2 Hb Hd). destruct Hd as (_ & Hd & _). rewrite (proj2 (Z.leb_le _ _)) by lia. done.
  - intros Hd. destruct (binary_search _ dest); [by destruct Hd; apply Hb|]. by rewrite andb_false_r.
Qed.
End Prepared.
