(* ===== verification/VMSafety.v ===== *)
(** * The contract machine stays within its arrays

    Each round of the loop of [VM::interpret] keeps the stack, the memory and
    the program counter inside their arrays. *)

From S2P Require Import Prelude CommonData FixedHash SHA3 BlockHeader Instruction Word256 VM VMFacts.
Import BigEndian.

Section Safety.
Context {E : Type} (ext : VMInterface E) (x : ExtData).
Variables (onOp : option (Z -> Z -> Z -> Z -> ST E unit)) (schedule : option VMSchedule).
Abbreviation VM := (@VM E).
Abbreviation size := (zlen (x_code x)).

(** [m], started where [P] holds, does not read or write outside an array and
    leaves [Q] when it returns. *)
Definition hoare {A} (P : VM -> Prop) (m : ST VM A) (Q : A -> VM -> Prop) : Prop :=
  forall s, P s -> match m s with (Ok a, s') => Q a s' | (Throw e, _) => e <> Undefined end.

(** An operation of the surroundings that is defined everywhere. *)
Definition defined {S A} (m : ST S A) : Prop := forall s, (m s).1 <> Throw Undefined /\ (m s).1 <> Throw NullSchedule.

Class ExtLaws : Prop := {
  xl_store n : defined (ext_store ext n);
  xl_setStore n v : defined (ext_setStore ext n v);
  xl_balance a : defined (ext_balance ext a);
  xl_codeAt a : defined (ext_codeAt ext a);
  xl_codeSizeAt a : defined (ext_codeSizeAt ext a);
  xl_codeHashAt a : defined (ext_codeHashAt ext a);
  xl_exists a : defined (ext_exists ext a);
  xl_suicide a : defined (ext_suicide ext a);
  xl_blockHash n : defined (ext_blockHash ext n);
  xl_onOp f a b c d : onOp = Some f -> defined (f a b c d)
}.

(** The code, followed by 33 zero bytes, and the table that [optimize] makes
    of a program. *)
Definition prepared : bytes * list Z := optimize_loop (length (x_code x)) 0 size (x_code x ++ replicate 33 Byte.x00) [].

(** The machine between two instructions: a stack of 1024 words with the top
    inside it, the prepared code and jump table, and a program counter that
    has not left the code. *)
Record vm_ok (s : VM) : Prop := {
  ok_stack : length (m_stack s) = 1024%nat;
  ok_words : Forall is_u256 (m_stack s);
  ok_spp : 0 <= m_SPP s <= 1024;
  ok_code : m_code s = prepared.1;
  ok_pc : 0 <= m_PC s <= size + 32;
  ok_dests : m_jumpDests s = prepared.2;
  ok_memory : zlen (m_memory s) < 2 ^ 63
}.

Lemma ok_length s : vm_ok s -> zlen (m_code s) = size + 33.
Proof. intros Hs. rewrite (ok_code s Hs). apply optimize_loop_code. Qed.
Lemma ok_tail s i : vm_ok s -> size <= i < size + 33 -> m_code s !! Z.to_nat i = Some Byte.x00.
Proof.
  intros Hs Hi. pose proof (zlen_nonneg (x_code x)). destruct (optimize_loop_code (x_code x)) as [_ Hc]. rewrite (ok_code s Hs). unfold prepared. rewrite Hc by lia.
  rewrite decide_False by lia. rewrite nth_overflow by (unfold zlen in *; lia). done.
Qed.

(** The machine inside an instruction that takes [args] items and leaves
    [ret], with at least [k] bytes of memory. *)
Record in_op (args ret k : Z) (s : VM) : Prop := {
  io_ok : vm_ok s;
  io_sp : 0 <= m_SP s /\ m_SP s + args <= 1024;
  io_spp : m_SPP s = m_SP s + args - ret;
  io_pc : m_PC s < size;
  io_memory : k <= zlen (m_memory s)
}.

Lemma h_ret {A} P (a : A) (Q : A -> VM -> Prop) : (forall s, P s -> Q a s) -> hoare P (mret a) Q.
Proof. intros H s Hs. by apply H. Qed.

Lemma h_bind {A B} P (m : ST VM A) (f : A -> ST VM B) (R : A -> VM -> Prop) Q :
  hoare P m R -> (forall a, hoare (R a) (f a) Q) -> hoare P (m ≫= f) Q.
Proof.
  intros Hm Hf s Hs. specialize (Hm s Hs). unfold mbind, ST_bind. destruct (m s) as [[a|e] s']; [|done]. by apply Hf.
Qed.

(** A bind whose first part keeps [P] and gives a fact about its result. *)
Lemma h_keep {A B} (phi : A -> Prop) P (m : ST VM A) (f : A -> ST VM B) Q :
  hoare P m (fun a s => phi a /\ P s) -> (forall a, phi a -> hoare P (f a) Q) -> hoare P (m ≫= f) Q.
Proof. intros Hm Hf. eapply h_bind; [exact Hm|]. intros a s [Ha Hs]. by apply Hf. Qed.

Lemma h_weaken {A} (P P' : VM -> Prop) (m : ST VM A) (Q Q' : A -> VM -> Prop) :
  hoare P m Q -> (forall s, P' s -> P s) -> (forall a s, Q a s -> Q' a s) -> hoare P' m Q'.
Proof. intros H HP HQ s Hs. specialize (H s (HP s Hs)). destruct (m s) as [[a|e] s']; [by apply HQ|done]. Qed.

Lemma h_throw {A} P e (Q : A -> VM -> Prop) : e <> Undefined -> hoare P (st_throw e) Q.
Proof. intros He s _. done. Qed.
Lemma h_throwException {A} P t (Q : A -> VM -> Prop) : hoare P (throwException t) Q.
Proof. apply h_throw. by destruct t. Qed.
Lemma h_throw_when P c t : hoare P (throw_when c t) (fun _ s => True /\ P s).
Proof. intros s Hs. destruct c; cbn; [by destruct t|done]. Qed.
Lemma h_read {A} P (f : VM -> A) : hoare P (vm_read f) (fun _ s => True /\ P s).
Proof. intros s Hs. done. Qed.
Lemma h_flag P f : hoare P (flag schedule f) (fun _ s => True /\ P s).
Proof. intros s Hs. unfold flag. by destruct schedule. Qed.
Lemma h_ext {A} P (m : ST E A) : defined m -> (forall s e, P s -> P (with_ext e s)) -> hoare P (on_ext m) (fun _ s => True /\ P s).
Proof.
  intros Hm HP s Hs. unfold on_ext. destruct (Hm (m_ext s)) as [Hm' _]. destruct (m (m_ext s)) as [[a|e] e']; cbn in *; [split; [done|by apply HP]|congruence].
Qed.
Lemma h_set P f : (forall s, P s -> P (f s)) -> hoare P (vm_set f) (fun _ s => True /\ P s).
Proof. intros H s Hs. cbn. split; [done|by apply H]. Qed.

(** Changes that the invariant does not see. *)
Lemma in_op_ext a r k s e : in_op a r k s -> in_op a r k (with_ext e s).
Proof. intros [[] ? ? ? ?]. by split; [split|..]. Qed.
Lemma in_op_copyMemSize a r k s v : in_op a r k s -> in_op a r k (with_copyMemSize v s).
Proof. intros [[] ? ? ? ?]. by split; [split|..]. Qed.

Context {HX : ExtLaws}.
Hypothesis Hsize : size < 2 ^ 62.

Lemma h_onOperation a r k : hoare (in_op a r k) (onOperation onOp) (fun _ s => True /\ in_op a r k s).
Proof.
  unfold onOperation. destruct onOp as [f|] eqn:Ef; [|intros s Hs; done]. intros s Hs. unfold mbind, ST_bind, vm_set, st_modify, st_get.
  set (s1 := with_steps _ s). assert (in_op a r k s1) as Hs1 by (destruct Hs as [[] ? ? ? ?]; by split; [split|..]).
  by apply (h_ext (in_op a r k)); [by eapply xl_onOp|intros; by apply in_op_ext|].
Qed.

(** [m_SP[i]] of a state. *)
Definition arg (s : VM) (i : Z) : Z := nth (Z.to_nat (m_SP s + i)) (m_stack s) 0.

Lemma h_arg P a r k i : (forall s, P s -> in_op a r k s) -> 0 <= i < a ->
  hoare P (SP i) (fun v s => v = arg s i /\ is_u256 v /\ P s).
Proof.
  intros HP Hi s Hs. destruct (HP s Hs) as [Hok [H0 H1] _ _ _]. unfold SP, arg. rewrite (proj2 (Z.ltb_ge _ _)) by lia.
  destruct (lookup_lt_is_Some_2 (m_stack s) (Z.to_nat (m_SP s + i))) as [v Hv]; [rewrite (ok_stack s Hok); lia|].
  rewrite Hv, nth_lookup, Hv. split; [done|split; [|done]]. by apply (proj1 (Forall_lookup _ _) (ok_words s Hok) _ _ Hv).
Qed.
Lemma h_SP a r k i : 0 <= i < a -> hoare (in_op a r k) (SP i) (fun v s => is_u256 v /\ in_op a r k s).
Proof. intros Hi. eapply h_weaken; [by eapply (h_arg (in_op a r k) a r k)|done|]. intros v s (_ & Hv & Hs). done. Qed.

Lemma h_set_stack a r k i v : is_u256 v ->
  forall s, in_op a r k s -> 0 <= i s < 1024 -> exists s', set_stack (i s) v s = (Ok tt, s') /\ in_op a r k s'.
Proof.
  intros Hv s Hs Hi. destruct (Hs) as [Hok ? ? ? ?]. unfold set_stack. pose proof (ok_stack s Hok) as Hl.
  rewrite (proj2 (Z.ltb_ge _ _)) by lia. unfold zlen. rewrite Hl, (proj2 (Z.leb_gt _ _)) by lia. cbn [orb]. eexists. split; [reflexivity|].
  destruct Hok. split; [split|..]; try done; cbn.
  - by rewrite length_insert.
  - by apply Forall_insert.
Qed.
Lemma h_set_SPP a r k v : 1 <= r -> is_u256 v -> hoare (in_op a r k) (set_SPP v) (fun _ s => True /\ in_op a r k s).
Proof.
  intros Hr Hv s Hs. unfold set_SPP. pose proof (io_sp _ _ _ _ Hs). pose proof (io_spp _ _ _ _ Hs). pose proof (ok_spp _ (io_ok _ _ _ _ Hs)).
  destruct (h_set_stack a r k (fun s => m_SPP s) v Hv s Hs ltac:(lia)) as (s' & -> & Hs'). done.
Qed.
Lemma h_set_SP a r k i v : 0 <= i < a -> is_u256 v -> hoare (in_op a r k) (set_SP i v) (fun _ s => True /\ in_op a r k s).
Proof.
  intros Hi Hv s Hs. unfold set_SP. pose proof (io_sp _ _ _ _ Hs).
  destruct (h_set_stack a r k (fun s => m_SP s + i) v Hv s Hs ltac:(lia)) as (s' & -> & Hs'). done.
Qed.

Lemma h_toInt63 P t : hoare P (toInt63 t) (fun v s => (v = t /\ t < 2 ^ 63) /\ P s).
Proof. intros s Hs. unfold toInt63, throw_when, st_throw_if, throw_if. destruct (Z.ltb_spec 0x7FFFFFFFFFFFFFFF t); cbn; [done|]. split; [lia|done]. Qed.
Lemma h_memNeed P off sz : 0 <= off -> 0 <= sz ->
  hoare P (memNeed off sz) (fun v s => (0 <= v < 2 ^ 63 /\ (sz <> 0 -> v = off + sz)) /\ P s).
Proof.
  intros Ho Hz. unfold memNeed. eapply h_weaken; [apply h_toInt63|done|]. intros v s [[-> H] Hs]. destruct (Z.eqb_spec sz 0); split; done || lia.
Qed.

Lemma h_updateMem a r k newMem : 0 <= newMem <= 2 ^ 63 + 32 ->
  hoare (in_op a r k) (updateMem newMem) (fun _ s => in_op a r (Z.max k newMem) s).
Proof.
  intros Hn s Hs. unfold updateMem, mbind, ST_bind, vm_set, st_modify, vm_read. set (sz := u64 (newMem + 31) / 32 * 32).
  assert (newMem <= sz <= newMem + 31) as Hsz.
  { unfold sz. rewrite u64_small by (unfold is_u64; lia). pose proof (Z.div_mod (newMem + 31) 32 ltac:(lia)).
    pose proof (Z.mod_pos_bound (newMem + 31) 32 ltac:(lia)). lia. }
  cbn. destruct (Z.ltb_spec (zlen (m_memory s)) sz).
  - unfold resize. cbn. destruct (Z.ltb_spec (2 ^ 63 - 1) sz); [done|]. destruct Hs as [[] Hsp Hspp Hpc Hmem]. pose proof (zlen_nonneg (m_memory s)).
    assert (zlen (take (Z.to_nat sz) (m_memory s) ++ replicate (Z.to_nat (sz - zlen (m_memory s))) Byte.x00) = sz) as Hl.
    { rewrite zlen_app. unfold zlen in *. rewrite length_take, length_replicate. lia. }
    split; [split|..]; try done; cbn; rewrite ?Hl; lia.
  - cbn. destruct Hs as [[] Hsp Hspp Hpc Hmem]. split; [split|..]; try done; cbn. lia.
Qed.

(** ** Memory, jumps and the end of an instruction *)

Lemma h_mem_read a r k off sz : 0 <= off -> 0 <= sz -> (sz <> 0 -> off + sz <= k) ->
  hoare (in_op a r k) (mem_read off sz) (fun d s => zlen d = sz /\ in_op a r k s).
Proof.
  intros Ho Hz Hk s Hs. unfold mem_read. destruct (Z.eqb_spec sz 0) as [-> |]; [done|]. pose proof (io_memory _ _ _ _ Hs) as Hm. specialize (Hk ltac:(done)).
  rewrite (proj2 (Z.ltb_ge _ _)) by lia. split; [|done]. unfold zlen in *. rewrite length_take, length_drop. lia.
Qed.

Lemma h_mem_write P a r k off data : (forall s, P s -> in_op a r k s /\ (data <> [] -> off + zlen data <= zlen (m_memory s))) -> 0 <= off ->
  hoare P (mem_write off data) (fun _ s => in_op a r k s).
Proof.
  intros HP Ho s Hs. destruct (HP s Hs) as [Hi Hm]. unfold mem_write. destruct (Z.eqb_spec (zlen data) 0) as [Hz|Hz]; [done|].
  pose proof (zlen_nonneg data). specialize (Hm ltac:(intros ->; done)). rewrite (proj2 (Z.ltb_ge _ _)) by lia.
  assert (zlen (take (Z.to_nat off) (m_memory s) ++ data ++ drop (Z.to_nat (off + zlen data)) (m_memory s)) = zlen (m_memory s)) as Hl.
  { rewrite !zlen_app. unfold zlen in *. rewrite length_take, length_drop. lia. }
  destruct Hi as [[] ? ? ? ?]. split; [split|..]; try done; cbn; lia.
Qed.

(** Between two instructions, before the program counter moves on. *)
Definition before_next (s : VM) : Prop := vm_ok s /\ m_PC s < size.
Definition step_post (c : Control) (s : VM) : Prop := vm_ok s /\ c <> Return.

Lemma in_op_before_next a r k s : in_op a r k s -> before_next s.
Proof. intros []. done. Qed.

Lemma vm_ok_PC s pc : vm_ok s -> 0 <= pc <= size + 32 -> vm_ok (with_PC pc s).
Proof. intros [] Hpc. by split. Qed.

Lemma h_incPC : hoare before_next (vm_set (fun s => with_PC (u64 (m_PC s + 1)) s)) (fun _ s => vm_ok s /\ m_PC s <= size).
Proof.
  intros s [Hok Hpc]. pose proof (ok_pc s Hok). cbn. rewrite u64_small by (unfold is_u64; lia). split; [apply vm_ok_PC; [done|lia]|lia].
Qed.
Lemma h_NEXT : hoare before_next NEXT step_post.
Proof. eapply h_bind; [apply h_incPC|]. intros []. apply h_ret. intros s [Hs _]. done. Qed.
Lemma h_NEXT' a r k : hoare (in_op a r k) NEXT step_post.
Proof. eapply h_weaken; [apply h_NEXT|apply in_op_before_next|done]. Qed.

Lemma h_verifyJumpDest a r k dest : hoare (in_op a r k) (verifyJumpDest dest) (fun d s => 0 <= d < size /\ in_op a r k s).
Proof.
  intros s Hs. unfold verifyJumpDest, mbind, ST_bind, vm_read. rewrite (ok_dests s (io_ok _ _ _ _ Hs)).
  destruct (_ <=? _); cbn [andb]; [|done]. destruct (binary_search _ dest) eqn:Hb; [|done]. apply binary_search_dests in Hb.
  split; [|done]. pose proof (jump_dest_range (x_code x) dest Hb). lia.
Qed.

Lemma h_code_at P i : (forall s, P s -> vm_ok s) -> 0 <= i < size + 33 -> hoare P (code_at i) (fun b s => 0 <= b < 256 /\ P s).
Proof.
  intros HP Hi s Hs. unfold code_at. pose proof (ok_length s (HP s Hs)) as Hl. unfold zlen in Hl, Hi.
  destruct (lookup_lt_is_Some_2 (m_code s) (Z.to_nat i)) as [b Hb]; [unfold zlen in Hi; lia|]. rewrite Hb. split; [apply bval_range|done].
Qed.

(** ** The instructions *)

Ltac keep_with lem := eapply (h_keep (fun _ => True)); [apply lem; (done || lia || eauto with words)|intros ? _].
Ltac hstep :=
  match goal with
  | |- hoare _ (mret _ ≫= _) _ => eapply (h_keep (fun _ => True)); [intros ? ?; done|intros ? _]
  | |- hoare _ (onOperation _ ≫= _) _ => keep_with h_onOperation
  | |- hoare _ (SP _ ≫= _) _ => eapply (h_keep is_u256); [apply h_SP; lia|intros ? ?]
  | |- hoare _ (throw_when _ _ ≫= _) _ => keep_with h_throw_when
  | |- hoare _ (flag _ _ ≫= _) _ => keep_with h_flag
  | |- hoare _ (vm_read _ ≫= _) _ => keep_with h_read
  | |- hoare _ (on_ext _ ≫= _) _ => eapply (h_keep (fun _ => True)); [apply h_ext; [apply HX|intros; by apply in_op_ext]|intros ? _]
  | |- hoare _ (set_SPP _ ≫= _) _ => keep_with h_set_SPP
  | |- hoare _ (set_SP _ _ ≫= _) _ => keep_with h_set_SP
  | |- hoare _ (NEXT) _ => apply h_NEXT'
  | |- hoare _ (throwException _) _ => apply h_throwException
  end.

Lemma unary_safe a r f : 1 <= a -> 1 <= r -> (forall v, is_u256 v -> is_u256 (f v)) -> hoare (in_op a r 0) (unary onOp f) step_post.
Proof. intros Ha Hr Hf. unfold unary. repeat hstep. Qed.
Lemma binary_safe a r f : 2 <= a -> 1 <= r -> (forall v w, is_u256 v -> is_u256 w -> is_u256 (f v w)) ->
  hoare (in_op a r 0) (binary onOp f) step_post.
Proof. intros Ha Hr Hf. unfold binary. repeat hstep. Qed.
Lemma ternary_safe a r f : 3 <= a -> 1 <= r -> (forall v w z, is_u256 v -> is_u256 w -> is_u256 z -> is_u256 (f v w z)) ->
  hoare (in_op a r 0) (ternary onOp f) step_post.
Proof. intros Ha Hr Hf. unfold ternary. repeat hstep. Qed.
Lemma push_value_safe a r m : 1 <= r -> hoare (in_op a r 0) m (fun v s => is_u256 v /\ in_op a r 0 s) ->
  hoare (in_op a r 0) (push_value onOp m) step_post.
Proof. intros Hr Hm. unfold push_value. hstep. eapply (h_keep is_u256); [exact Hm|]. intros v Hv. repeat hstep. Qed.

Lemma u32_le z : 0 <= z -> 0 <= u32 z <= z.
Proof. intros Hz. unfold u32. split; [apply Z.mod_pos_bound; lia|apply Z.mod_le; lia]. Qed.

Lemma be_val_word d : zlen d <= 32 -> is_u256 (be_val d).
Proof.
  intros Hd. pose proof (be_val_range d) as H. pose proof (zlen_nonneg d). split; [lia|]. change (2 ^ 256) with (256 ^ 32).
  eapply Z.lt_le_trans; [apply H|]. apply Z.pow_le_mono_r; lia.
Qed.
Lemma toArith_word (h : h256) : is_u256 (toArith h).
Proof. apply toArith_range. Qed.
Lemma fromAddress_word a : is_u256 (fromAddress a).
Proof. unfold fromAddress. rewrite toArith_val. apply be_val_word. rewrite zlen_vec. done. Qed.
Lemma byte_word b : 0 <= b < 256 -> is_u256 b.
Proof. unfold is_u256. lia. Qed.
Hint Resolve toArith_word fromAddress_word byte_word : words.

(** The memory for [off + 32] or [off + 1] bytes, when the offset has 63 bits. *)
Lemma h_room {A} a r sp0 more (f : ST VM A) Q : is_u256 sp0 -> 0 <= more <= 32 ->
  hoare (in_op a r (sp0 + more)) f Q ->
  hoare (in_op a r 0) (off ← toInt63 sp0; _ ← updateMem (off + more); f) Q.
Proof.
  intros [H0 _] Hm Hf. eapply h_keep; [apply h_toInt63|]. intros off [-> Hlt]. eapply h_bind; [apply h_updateMem; lia|]. intros [].
  rewrite Z.max_r by lia. exact Hf.
Qed.

(** The memory for a range. *)
Lemma h_range {A} a r off sz (f : ST VM A) Q : is_u256 off -> is_u256 sz ->
  (forall k, 0 <= k -> (sz <> 0 -> off + sz <= k /\ k < 2 ^ 63) -> hoare (in_op a r k) f Q) ->
  hoare (in_op a r 0) (need ← memNeed off sz; _ ← updateMem need; f) Q.
Proof.
  intros [H0 _] [H1 _] Hf. eapply h_keep; [by apply h_memNeed|]. intros v [Hv Hv']. eapply h_bind; [apply h_updateMem; lia|]. intros [].
  rewrite Z.max_r by lia. apply Hf; lia.
Qed.

Lemma in_op_mem a r k k' s : in_op a r k s -> k' <= k -> in_op a r k' s.
Proof. intros [] Hk. split; try done. lia. Qed.

Lemma h_mem_write' a r k off data : 0 <= off -> off + zlen data <= k ->
  hoare (in_op a r k) (mem_write off data) (fun _ s => True /\ in_op a r k s).
Proof.
  intros Ho Hk. eapply h_weaken; [apply (h_mem_write (in_op a r k) a r k)| |].
  - intros s Hs. split; [done|]. intros _. pose proof (io_memory _ _ _ _ Hs). lia.
  - done.
  - done.
  - done.
Qed.

Lemma h_mem_range a r k off sz : is_u256 off -> is_u256 sz -> (sz <> 0 -> off + sz <= k /\ k < 2 ^ 63) ->
  hoare (in_op a r k) (mem_read (u64 off) (u64 sz)) (fun _ s => True /\ in_op a r k s).
Proof.
  intros [Ho _] [Hz _] Hk. pose proof (u64_range off) as [Ho' _]. pose proof (u64_range sz) as [Hz' _].
  eapply h_weaken; [apply (h_mem_read a r k _ _ Ho' Hz')|done|by intros ? ? [_ ?]]. intros Hne.
  destruct (Z.eq_dec sz 0) as [-> |Hn]; [done|]. specialize (Hk Hn). rewrite !u64_small by (unfold is_u64; lia). lia.
Qed.

Lemma do_memory_safe op : op ∈ [MLOAD; MSTORE; MSTORE8; SHA3] ->
  hoare (in_op (i_args (instructionInfos op)) (i_ret (instructionInfos op)) 0) (do_memory onOp op) step_post.
Proof.
  intros Hop. repeat (apply elem_of_cons in Hop as [-> |Hop]); [..|by apply not_elem_of_nil in Hop];
    unfold do_memory; cbn [instructionInfos i_args i_ret]; do 2 hstep; pose proof (u32_le a0 ltac:(unfold is_u256 in *; lia)).
  - apply h_room; [done|lia|]. eapply (h_keep (fun d => zlen d = 32)); [apply h_mem_read; lia|]. intros d Hd.
    keep_with h_set_SPP; [apply be_val_word; lia|]. hstep.
  - apply h_room; [done|lia|]. hstep. keep_with h_mem_write'; [unfold zlen; rewrite length_toBigEndian; lia|]. hstep.
  - apply h_room; [done|lia|]. hstep. keep_with h_mem_write'; [unfold zlen; cbn [length]; lia|]. hstep.
  - hstep. apply h_range; [done|done|]. intros k Hk Hr. eapply (h_keep (fun _ => True)).
    + by apply h_mem_range.
    + intros d _. repeat hstep.
Qed.

(** The machine at the instruction [op]; behind the code, it is STOP. *)
Definition at_op (op : Instruction) (s : VM) : Prop :=
  vm_ok s /\ (0 <= m_SP s /\ m_SP s + i_args (instructionInfos op) <= 1024) /\
  m_SPP s = m_SP s + i_args (instructionInfos op) - i_ret (instructionInfos op) /\ (size <= m_PC s -> op = STOP).
Abbreviation op_pre op := (in_op (i_args (instructionInfos op)) (i_ret (instructionInfos op)) 0).

Lemma at_op_in_op op s : at_op op s -> op <> STOP -> op_pre op s.
Proof. intros (Hok & Hsp & Hspp & Hpc) Hne. split; try done; [|apply zlen_nonneg]. destruct (Z.lt_ge_cases (m_PC s) size); [done|by destruct Hne; auto]. Qed.

Lemma h_next {P : VM -> Prop} nx : (forall s, P s -> vm_ok s) -> hoare P (_ ← vm_set (with_next nx); mret Break) step_post.
Proof. intros HP s Hs. cbn. destruct (HP s Hs). split; [by split|done]. Qed.

Lemma do_stop_safe : hoare (at_op STOP) (do_halt ext x onOp schedule STOP) step_post.
Proof.
  unfold do_halt. eapply (h_keep (fun _ => True)); [|intros ? _; apply h_next; by intros s [Hs _]]. unfold onOperation.
  destruct onOp as [f|] eqn:Ef; [|intros s Hs; done]. intros s Hs. unfold mbind, ST_bind, vm_set, st_modify, st_get.
  apply (h_ext (at_op STOP)); [by eapply xl_onOp|intros s' e [[] ?]; split; [by split|done]|]. destruct Hs as [[] ?]; split; [by split|done].
Qed.

Lemma take_output_safe a r {A} (f : bytes -> ST VM A) Q : 2 <= a ->
  (forall d, hoare vm_ok (f d) Q) ->
  hoare (in_op a r 0) (output ← (_ ← vm_set (with_copyMemSize 0); sp0 ← SP 0; sp1 ← SP 1; need ← memNeed sp0 sp1; _ ← updateMem need;
                              output ← mem_read (u64 sp0) (u64 sp1); _ ← vm_set (with_memory []); mret output); f output) Q.
Proof.
  intros Ha Hf. eapply (h_bind _ _ _ (fun _ => vm_ok)); [|exact Hf]. keep_with h_set; [intros ? ?; by apply in_op_copyMemSize|]. do 2 hstep.
  apply h_range; [done|done|]. intros k Hk Hr. eapply (h_keep (fun _ => True)); [by apply h_mem_range|]. intros d _ s Hs. cbn.
  destruct Hs as [[] ? ? ? ?]. by split.
Qed.

Lemma do_halt_safe op : op ∈ [RETURN; REVERT; SUICIDE] -> hoare (op_pre op) (do_halt ext x onOp schedule op) step_post.
Proof.
  intros Hop. repeat (apply elem_of_cons in Hop as [-> |Hop]); [..|by apply not_elem_of_nil in Hop]; unfold do_halt; cbn [instructionInfos i_args i_ret].
  - hstep. apply take_output_safe; [lia|]. intros d s []. by split; [split|].
  - do 3 hstep. apply take_output_safe; [lia|]. intros d. hstep.
  - do 4 hstep. eapply (h_keep (fun _ => True)); [destruct (0 <? _); [intros s Hs; done|by apply h_flag]|]. intros charge _.
    eapply (h_keep (fun _ => True)).
    { destruct charge; [|intros s Hs; done]. hstep. destruct a3; [|intros s Hs; done]. hstep. intros s Hs; done. }
    intros _ _. hstep. apply h_next. by intros s [].
Qed.

Lemma do_call_safe op : op ∈ [CREATE2; CREATE; DELEGATECALL; STATICCALL; CALL; CALLCODE] -> hoare (op_pre op) (do_call x onOp schedule op) step_post.
Proof.
  intros Hop. repeat (apply elem_of_cons in Hop as [-> |Hop]); [..|by apply not_elem_of_nil in Hop]; unfold do_call; cbn [instructionInfos i_args i_ret];
    try (repeat hstep; apply h_next; by intros s []).
  all: hstep; eapply (h_keep (fun _ => True));
    [|intros ? _; eapply (h_keep (fun _ => True)); [|intros ? _; eapply (h_keep (fun _ => True)); [|intros ? _; apply h_next; by intros s []]]].
  all: destruct (decide _); try (intros s Hs; done); try (hstep; apply h_throw_when).
  destruct (x_staticCall x); [|intros s Hs; done]. hstep. apply h_throw_when.
Qed.

Lemma h_decSP a r k : hoare (in_op a r k) (_ ← vm_set (fun s => with_SP (m_SP s - 1) s); NEXT) step_post.
Proof.
  eapply (h_bind _ _ _ (fun _ => before_next)); [|intros ?; apply h_NEXT]. intros s [[] ? ? ? ?]. cbn. by split; [split|].
Qed.

Ltac in_group H := repeat (apply elem_of_cons in H as [-> |H]); [..|by apply not_elem_of_nil in H]; cbn [instructionInfos i_args i_ret].

Lemma do_arithmetic_safe op : op ∈ [EXP; ADD; MUL; SUB; DIV; SDIV; MOD; SMOD; NOT] -> hoare (op_pre op) (do_arithmetic onOp op) step_post.
Proof.
  intros Hop. in_group Hop; unfold do_arithmetic;
    try (first [apply binary_safe|apply unary_safe]; [lia|lia|intros; eauto with words]).
  repeat hstep. apply h_decSP.
Qed.

Lemma do_logic_safe op : op ∈ [LT; GT; SLT; SGT; EQ; ISZERO; AND; OR; XOR; BYTE] -> hoare (op_pre op) (do_logic onOp op) step_post.
Proof. intros Hop. in_group Hop; unfold do_logic; (first [apply binary_safe|apply unary_safe]; [lia|lia|intros; eauto with words]). Qed.

Lemma do_shift_safe op : op ∈ [SHL; SHR; SAR] -> hoare (op_pre op) (do_shift onOp schedule op) step_post.
Proof. intros Hop. in_group Hop; unfold do_shift; do 2 hstep; (apply binary_safe; [lia|lia|intros; eauto with words]). Qed.

Lemma do_modular_safe op : op ∈ [ADDMOD; MULMOD; SIGNEXTEND] -> hoare (op_pre op) (do_modular onOp op) step_post.
Proof.
  intros Hop. in_group Hop; unfold do_modular; try (apply ternary_safe; [lia|lia|intros; eauto with words]). repeat hstep.
Qed.

Lemma data_word_word off : is_u256 (data_word x off).
Proof.
  unfold data_word. destruct (_ <? _); [apply be_val_word; unfold zlen; rewrite length_take; lia|].
  destruct (_ <=? _); [auto with words|]. apply be_val_word. unfold zlen. rewrite length_map, length_seq. lia.
Qed.
Hint Resolve data_word_word : words.

Lemma h_value a r v : is_u256 v -> hoare (in_op a r 0) (mret v) (fun v s => is_u256 v /\ in_op a r 0 s).
Proof. intros Hv s Hs. done. Qed.

Lemma do_environment_safe op :
  op ∈ [ADDRESS; ORIGIN; BALANCE; CALLER; CALLVALUE; CALLDATALOAD; CALLDATASIZE; RETURNDATASIZE; CODESIZE; EXTCODESIZE] ->
  hoare (op_pre op) (do_environment ext x onOp schedule op) step_post.
Proof.
  intros Hop. in_group Hop; unfold do_environment;
    try (apply push_value_safe; [lia|]; repeat hstep; apply h_value; by auto with words); repeat hstep.
  apply push_value_safe; [lia|]. intros s Hs. cbn. split; [apply u256_range|done].
Qed.

Lemma do_block_safe op : op ∈ [GASPRICE; BLOCKHASH; COINBASE; TIMESTAMP; NUMBER; DIFFICULTY; GASLIMIT] ->
  hoare (op_pre op) (do_block ext x onOp op) step_post.
Proof.
  intros Hop. in_group Hop; unfold do_block; (apply push_value_safe; [lia|]; repeat hstep; apply h_value; by auto with words).
Qed.

Lemma do_state_safe op : op ∈ [SLOAD; SSTORE; PC; MSIZE; GAS; JUMPDEST] -> hoare (op_pre op) (do_state ext x onOp op) step_post.
Proof.
  intros Hop. in_group Hop; unfold do_state; try (repeat hstep; fail).
  all: apply push_value_safe; [lia|]; repeat hstep; try (apply h_value; by auto with words).
  - intros s Hs. pose proof (ok_pc s (io_ok _ _ _ _ Hs)). cbn. split; [unfold is_u256; lia|done].
  - intros s Hs. pose proof (ok_memory s (io_ok _ _ _ _ Hs)). pose proof (zlen_nonneg (m_memory s)). cbn. split; [unfold is_u256; lia|done].
Qed.

Lemma do_log_safe a r : hoare (in_op a r 0) (do_log x onOp) step_post.
Proof. unfold do_log. repeat hstep. Qed.

Lemma do_dup_safe op : 0 <= code_of op - code_of DUP1 < i_args (instructionInfos op) -> 1 <= i_ret (instructionInfos op) ->
  hoare (op_pre op) (do_dup onOp op) step_post.
Proof. intros H1 H2. unfold do_dup. repeat hstep. Qed.

Lemma do_swap_safe op : 0 <= code_of op - code_of SWAP1 + 1 < i_args (instructionInfos op) ->
  hoare (op_pre op) (do_swap onOp op) step_post.
Proof. intros H1. unfold do_swap. cbv zeta. repeat hstep. Qed.

Lemma do_jump_safe op : op ∈ [JUMP; JUMPI] -> hoare (op_pre op) (do_jump onOp op) step_post.
Proof.
  intros Hop. assert (forall a, 1 <= a -> hoare (in_op a 0 0) (sp0 ← SP 0; pc ← verifyJumpDest sp0; _ ← vm_set (with_PC pc); mret Continue) step_post) as Hj.
  { intros a Ha. hstep. eapply (h_keep (fun d => 0 <= d < size)); [apply h_verifyJumpDest|]. intros d Hd s Hs. cbn. split; [|done]. apply vm_ok_PC; [apply Hs|]. pose proof (zlen_nonneg (x_code x)). cbn in Hd. lia. }
  in_group Hop; unfold do_jump; hstep; cbv zeta; [apply Hj; lia|]. hstep. destruct (negb _); [apply Hj; lia|].
  eapply h_bind; [eapply h_weaken; [apply h_incPC|apply in_op_before_next|done]|]. intros ? s [Hs _]. done.
Qed.

(** Inside PUSH, with [j] bytes of the constant left: they lie in the code and
    the zeros behind it. *)
Definition in_push (j : Z) (s : VM) : Prop := vm_ok s /\ m_SPP s < 1024 /\ m_PC s + j <= size + 32.

Lemma in_push_set_SPP j v : is_u256 v -> hoare (in_push j) (set_SPP v) (fun _ s => True /\ in_push j s).
Proof.
  intros Hv s ([] & Hspp & Hpc). unfold set_SPP, set_stack. rewrite (proj2 (Z.ltb_ge _ _)) by lia. unfold zlen. rewrite ok_stack0, (proj2 (Z.leb_gt _ _)) by lia.
  cbn [orb]. split; [done|]. split; [|done]. split; try done; cbn; [by rewrite length_insert|by apply Forall_insert].
Qed.

Lemma in_push_incPC j : 1 <= j -> hoare (in_push j) (vm_set (fun s => with_PC (u64 (m_PC s + 1)) s)) (fun _ s => in_push (j - 1) s).
Proof.
  intros Hj s (Hok & Hspp & Hpc). pose proof (ok_pc s Hok). cbn. rewrite u64_small by (unfold is_u64; lia).
  split; [apply vm_ok_PC; [done|lia]|]. cbn. split; [done|lia].
Qed.

Lemma h_get {A} P (k : VM -> ST VM A) Q : (forall s, P s -> hoare P (k s) Q) -> hoare P (st_get ≫= k) Q.
Proof. intros H s Hs. by apply (H s). Qed.

Lemma push_loop_safe j : hoare (in_push (Z.of_nat j)) (push_loop j) (fun _ s => vm_ok s).
Proof.
  induction j as [|j IH]; [by intros s [Hs _]|]. cbn [push_loop]. apply h_get. intros s (Hok & Hspp & Hpc). pose proof (ok_spp s Hok). pose proof (ok_pc s Hok).
  destruct (lookup_lt_is_Some_2 (m_stack s) (Z.to_nat (m_SPP s))) as [top Ht]; [rewrite (ok_stack s Hok); lia|]. rewrite Ht.
  eapply (h_keep (fun b => 0 <= b < 256)); [apply h_code_at; [by intros s' []|lia]|]. intros b Hb. hstep.
  keep_with in_push_set_SPP. eapply h_bind; [apply in_push_incPC; lia|]. intros ?. replace (Z.of_nat (S j) - 1) with (Z.of_nat j) by lia. exact IH.
Qed.

Lemma in_op_push s : in_op 0 1 0 s -> in_push 33 s.
Proof. intros [Hok Hsp Hspp Hpc _]. split; [done|lia]. Qed.

Lemma do_pop_safe : hoare (op_pre POP) (do_push onOp POP) step_post.
Proof. unfold do_push. hstep. apply h_decSP. Qed.

Lemma do_push1_safe : hoare (op_pre PUSH1) (do_push onOp PUSH1) step_post.
Proof.
  unfold do_push. cbn [instructionInfos i_args i_ret]. hstep. eapply (h_weaken (in_push 33)); [|apply in_op_push|done].
  eapply h_bind; [apply in_push_incPC; lia|]. intros ?. change (33 - 1) with 32.
  assert (forall pc, 0 <= pc < size + 33 -> hoare (in_push 32) (b ← code_at pc; _ ← set_SPP b; _ ← vm_set (fun s => with_PC (u64 (m_PC s + 1)) s); mret Continue) step_post) as H.
  { intros pc Hpc. eapply (h_keep (fun b => 0 <= b < 256)); [apply h_code_at; [by intros s' []|lia]|]. intros b Hb.
    keep_with in_push_set_SPP. eapply h_bind; [apply in_push_incPC; lia|]. intros ? s [Hs _]. done. }
  intros s Hs. apply (H (m_PC s)); [|done]. destruct Hs as (Hok & _ & Hpc). pose proof (ok_pc s Hok). lia.
Qed.

Lemma do_push_safe op : 1 <= code_of op - code_of PUSH1 <= 31 -> hoare (in_op 0 1 0) (do_push onOp op) step_post.
Proof.
  intros Hop.
  assert (hoare (in_op 0 1 0) (_ ← onOperation onOp; _ ← set_SPP 0; _ ← vm_set (fun s => with_PC (u64 (m_PC s + 1)) s);
     _ ← push_loop (Z.to_nat (code_of op - code_of PUSH1 + 1)); mret Continue) step_post) as H.
  { hstep. eapply (h_weaken (in_push 33)); [|apply in_op_push|done]. keep_with in_push_set_SPP.
    eapply h_bind; [apply in_push_incPC; lia|]. intros ?. eapply (h_bind _ _ _ (fun _ => vm_ok)); [|intros ? s Hs; done].
    eapply h_weaken; [apply push_loop_safe| |done]. intros s (? & ? & ?). split; [done|]. split; [done|]. lia. }
  unfold do_push. destruct op; try exact H; cbn in Hop; lia.
Qed.

(** ** Copies *)

Lemma SP_arg a r k i s : in_op a r k s -> 0 <= i < a -> SP i s = (Ok (arg s i), s) /\ is_u256 (arg s i).
Proof.
  intros Hs Hi. pose proof (h_arg (in_op a r k) a r k i (fun _ H => H) Hi s Hs) as H. unfold SP, arg in *.
  destruct (_ <? _); [done|]. destruct (m_stack s !! _); [|done]. destruct H as (-> & Hv & _). done.
Qed.

Lemma updateMem_frame n (s s' : VM) : updateMem n s = (Ok tt, s') -> m_SP s' = m_SP s /\ m_stack s' = m_stack s.
Proof.
  unfold updateMem, mbind, ST_bind, vm_set, st_modify, vm_read, resize. cbn. destruct (_ <? _); [|by intros [= <-]]. destruct (_ <? _); [done|by intros [= <-]].
Qed.

Lemma toInt63_frame t z (s s' : VM) : toInt63 t s = (Ok z, s') -> s' = s.
Proof. unfold toInt63, mbind, ST_bind, throw_when, st_throw_if, throw_if. destruct (_ <? _); [done|by intros [= _ <-]]. Qed.

(** The memory has the bytes that [copyToMemory] writes for [m_SP + k]. *)
Definition room (k : Z) (s : VM) : Prop :=
  arg s (k + 2) < 2 ^ 63 /\ (arg s (k + 2) <> 0 -> arg s k + arg s (k + 2) <= zlen (m_memory s)).

Lemma copy_room_safe a r k : 0 <= k -> k + 2 < a -> hoare (in_op a r 0) (copy_room k) (fun _ s => in_op a r 0 s /\ room k s).
Proof.
  intros Hk Ha s Hs. unfold copy_room. unfold mbind, ST_bind. destruct (SP_arg a r 0 (k + 2) s Hs ltac:(lia)) as [-> Hw2].
  pose proof (h_toInt63 (in_op a r 0) (arg s (k + 2)) s Hs) as H63. destruct (toInt63 (arg s (k + 2)) s) as [[z|] s1] eqn:E1; [|done].
  destruct H63 as [[-> Hlt] Hs1]. assert (s1 = s) as -> by by apply toInt63_frame in E1.
  cbn. set (s2 := with_copyMemSize _ s). assert (in_op a r 0 s2) as Hs2 by by apply in_op_copyMemSize. destruct (SP_arg a r 0 k s2 Hs2 ltac:(lia)) as [-> Hw0].
  change (arg s2 k) with (arg s k) in *. unfold is_u256 in Hw0, Hw2. pose proof (h_memNeed (fun t => t = s2) (arg s k) (arg s (k + 2)) ltac:(lia) ltac:(lia) s2 eq_refl) as Hn.
  destruct (memNeed _ _ s2) as [[need|] s3]; [|done]. destruct Hn as [[Hn Hn'] ->].
  pose proof (h_updateMem a r 0 need ltac:(lia) s2 Hs2) as Hu. destruct (updateMem need s2) as [[[]|] s4] eqn:E4; [|done].
  destruct (updateMem_frame _ _ _ E4) as [Hsp Hst]. split; [by eapply in_op_mem; [exact Hu|lia]|].
  unfold room, arg. rewrite Hsp, Hst. split; [exact Hlt|]. intros Hne. specialize (Hn' Hne). pose proof (io_memory _ _ _ _ Hu).
  unfold arg in *. cbn in *. lia.
Qed.

(** The writes of [copyToMemory]. *)
Lemma copy_writes_safe a r K data v0 v1 v2 : is_u256 v0 -> is_u256 v1 -> 0 <= v2 < 2 ^ 63 -> 0 <= K -> (v2 <> 0 -> v0 + v2 <= K /\ K < 2 ^ 63) ->
  let offset := u64 v0 in let index := u64 v1 in let sz := u64 v2 in
  let n := if zlen data <? v1 + sz then if zlen data <? v1 then 0 else u64 (zlen data - index) else sz in
  hoare (in_op a r K) (_ ← (if 0 <? n then mem_write offset (take (Z.to_nat n) (drop (Z.to_nat index) data)) else mret tt);
    if n <? sz then mem_write (u64 (offset + n)) (replicate (Z.to_nat (sz - n)) Byte.x00) else mret tt) (fun _ s => True /\ in_op a r K s).
Proof.
  intros [H0 _] [H1 _] H2 HK Hr. cbv zeta. rewrite (u64_small v2) by (unfold is_u64; lia).
  set (n := if zlen data <? v1 + v2 then _ else _). assert (0 <= n <= v2) as Hn.
  { unfold n. destruct (Z.ltb_spec (zlen data) (v1 + v2)); [|lia]. destruct (Z.ltb_spec (zlen data) v1); [lia|].
    assert (u64 (zlen data - u64 v1) = zlen data - v1) as ->; [|lia]. rewrite <- (Z.mod_small (zlen data - v1) (2 ^ 64)) by lia.
    unfold u64. apply Zminus_mod_idemp_r. }
  clearbody n. eapply (h_keep (fun _ => True)).
  - destruct (Z.ltb_spec 0 n); [|intros s Hs; done]. destruct (Hr ltac:(lia)) as [Hr1 Hr2]. rewrite (u64_small v0) by (unfold is_u64; lia).
    apply h_mem_write'; [lia|]. unfold zlen. rewrite length_take. lia.
  - intros _ _. destruct (Z.ltb_spec n v2); [|intros s Hs; done]. destruct (Hr ltac:(lia)) as [Hr1 Hr2]. rewrite (u64_small v0), u64_small by (unfold is_u64; lia).
    apply h_mem_write'; [lia|]. unfold zlen. rewrite length_replicate. lia.
Qed.

Lemma copyToMemory_safe a r k data : 0 <= k -> k + 2 < a ->
  hoare (fun s => in_op a r 0 s /\ room k s) (copyToMemory data k) (fun _ s => True /\ in_op a r 0 s).
Proof.
  intros Hk Ha s [Hs [Hr1 Hr2]]. unfold copyToMemory. unfold mbind at 1 2 3, ST_bind at 1 2 3.
  destruct (SP_arg a r 0 k s Hs ltac:(lia)) as [-> W0]. destruct (SP_arg a r 0 (k + 1) s Hs ltac:(lia)) as [-> W1].
  destruct (SP_arg a r 0 (k + 2) s Hs ltac:(lia)) as [-> W2]. pose proof (ok_memory s (io_ok _ _ _ _ Hs)).
  eapply (h_weaken (in_op a r (zlen (m_memory s)))); [apply copy_writes_safe; try done|done| |].
  - unfold is_u256 in W2. lia.
  - apply zlen_nonneg.
  - auto.
  - intros _ s' [_ Hs']. split; [done|]. eapply in_op_mem; [exact Hs'|apply zlen_nonneg].
  - destruct Hs. by split.
Qed.

Lemma do_copy_safe op : op ∈ [CALLDATACOPY; RETURNDATACOPY; EXTCODEHASH; CODECOPY; EXTCODECOPY] ->
  hoare (op_pre op) (do_copy ext x onOp schedule op) step_post.
Proof.
  assert (forall a r k data, 0 <= k -> k + 2 < a -> hoare (fun s => in_op a r 0 s /\ room k s) (_ ← copyToMemory data k; NEXT) step_post) as Hc.
  { intros a r k data Hk Ha. eapply h_bind; [by apply copyToMemory_safe|]. intros ?. eapply h_weaken; [apply h_NEXT'|by intros s [_ Hs]|done]. }
  intros Hop. in_group Hop; unfold do_copy; repeat hstep; (eapply h_bind; [apply copy_room_safe; lia|intros ?]); try (apply Hc; lia).
  eapply (h_bind _ _ _ (fun _ s => in_op 4 0 0 s /\ room 1 s)).
  - eapply h_weaken; [apply (h_arg (fun s => in_op 4 0 0 s /\ room 1 s) 4 0 0); [by intros s [Hs _]|lia]|done|by intros v s (_ & _ & Hs)].
  - intros v. eapply (h_keep (fun _ => True)); [|intros code _; apply Hc; lia].
    apply h_ext; [apply HX|]. intros s e [Hs Hr]. split; [by apply in_op_ext|exact Hr].
Qed.

(** ** A round of the loop *)

Lemma dispatch_safe op : hoare (at_op op) (dispatch ext x onOp schedule (Some op)) step_post.
Proof.
  destruct (decide (op = STOP)) as [-> |Hne]; [apply do_stop_safe|].
  eapply (h_weaken (op_pre op)); [|intros s Hs; by apply at_op_in_op|done].
  destruct op; cbn [dispatch]; try apply h_throwException; try done;
    first [ apply do_call_safe; set_solver | apply do_memory_safe; set_solver | apply do_log_safe
          | apply do_arithmetic_safe; set_solver | apply do_logic_safe; set_solver | apply do_shift_safe; set_solver
          | apply do_modular_safe; set_solver | apply do_environment_safe; set_solver | apply do_copy_safe; set_solver
          | apply do_block_safe; set_solver | apply do_state_safe; set_solver | apply do_jump_safe; set_solver
          | apply do_pop_safe | apply do_push1_safe | apply do_push_safe; cbn; lia | apply do_dup_safe; cbn; lia
          | apply do_swap_safe; cbn; lia | apply do_halt_safe; set_solver ].
Qed.

Lemma adjustStack_safe removed added : 0 <= removed -> 0 <= added ->
  hoare vm_ok (adjustStack removed added)
    (fun _ s => vm_ok s /\ (0 <= m_SP s /\ m_SP s + removed <= 1024) /\ m_SPP s = m_SP s + removed - added).
Proof.
  intros Hr Ha s Hs. pose proof (ok_spp s Hs). unfold adjustStack, mbind, ST_bind, vm_set, st_modify, vm_read, throw_when, st_throw_if, throw_if. cbn.
  destruct (Z.ltb_spec 1024 (m_SPP s + removed)); cbn; [done|]. destruct (Z.ltb_spec (m_SPP s + removed - added) 0); cbn; [done|].
  split; [|lia]. destruct Hs. split; try done; cbn; lia.
Qed.

Lemma adjustStack_frame removed added (s : VM) :
  let s' := (adjustStack removed added s).2 in m_OP s' = m_OP s /\ m_PC s' = m_PC s.
Proof.
  unfold adjustStack, mbind, ST_bind, vm_set, st_modify, vm_read, throw_when, st_throw_if, throw_if. cbn.
  by repeat (destruct (_ <? _); cbn).
Qed.

Lemma fetch_safe : hoare vm_ok fetchInstruction (fun _ s => forall op, decode (m_OP s) = Some op -> at_op op s).
Proof.
  intros s Hs. unfold fetchInstruction. unfold mbind at 1, ST_bind at 1. cbn [vm_read]. pose proof (ok_pc s Hs) as Hpc. pose proof (ok_length s Hs) as Hl.
  destruct (lookup_lt_is_Some_2 (m_code s) (Z.to_nat (m_PC s))) as [b Hb]; [unfold zlen in *; lia|].
  unfold mbind at 1, ST_bind at 1. unfold code_at at 1. rewrite Hb. unfold mbind at 1, ST_bind at 1. cbn [vm_set st_modify].
  assert (vm_ok (with_OP (bval b) s)) as Hok by (destruct Hs; by split). pose proof (instruction_stack_effect (bval b)) as Heff.
  pose proof (adjustStack_frame (i_args (instructionInfo (bval b))) (i_ret (instructionInfo (bval b))) (with_OP (bval b) s)) as Hf.
  pose proof (adjustStack_safe (i_args (instructionInfo (bval b))) (i_ret (instructionInfo (bval b))) ltac:(apply Heff) ltac:(apply Heff) _ Hok) as Ha. unfold mbind at 1, ST_bind at 1.
  destruct (adjustStack _ _ _) as [[[]|] s1]; [|exact Ha]. cbn. destruct Ha as (Hok1 & Hsp & Hspp), Hf as [Hop Hpc1]. cbn in Hop, Hpc1.
  intros op Hd. change (decode (m_OP s1) = Some op) in Hd. rewrite Hop in Hd. unfold instructionInfo in Hsp, Hspp. rewrite Hd in Hsp, Hspp. split; [by destruct Hok1; split|]. split; [done|]. split; [done|].
  cbn. rewrite Hpc1. cbn. intros Hge. rewrite (ok_tail s _ Hs) in Hb by lia. injection Hb as <-. change (Some STOP = Some op) in Hd. congruence.
Qed.

Lemma step_safe : hoare vm_ok (step ext x onOp schedule) step_post.
Proof.
  unfold step. eapply h_bind; [apply fetch_safe|]. intros ? s Hs. unfold mbind, ST_bind, vm_read. destruct (decode (m_OP s)) as [op|] eqn:Hd.
  - by apply (dispatch_safe op), Hs.
  - done.
Qed.

(** Rounds of the loop of [interpret] that do not throw. *)
Definition round (s s' : VM) : Prop := exists c, step ext x onOp schedule s = (Ok c, s').

Lemma initEntry_ok e s : initEntry x (newVM e) = (Ok tt, s) -> vm_ok s.
Proof.
  rewrite initEntry_state. intros [= <-]. pose proof (zlen_nonneg (x_code x)).
  split; cbn [m_stack m_SPP m_code m_PC m_jumpDests m_memory with_jumpDests with_code with_next newVM]; try done; try lia.
  apply Forall_replicate. auto with words.
Qed.

Lemma rounds_ok s s' : vm_ok s -> rtc round s s' -> vm_ok s'.
Proof.
  intros Hs Hr. revert Hs. induction Hr as [|a b c [ct Hab] _ IH]; [done|]. intros Ha. apply IH. pose proof (step_safe a Ha) as H. rewrite Hab in H. apply H.
Qed.

(** ** Where the schedule is read *)

Definition no_null {A} (m : ST VM A) : Prop := forall s, (m s).1 <> Throw NullSchedule.

Lemma n_bind {A B} (m : ST VM A) (f : A -> ST VM B) : no_null m -> (forall a, no_null (f a)) -> no_null (m ≫= f).
Proof.
  intros Hm Hf s. specialize (Hm s). unfold mbind, ST_bind. destruct (m s) as [[a|ex] s1]; [apply Hf|]. cbn in *. congruence.
Qed.
Lemma n_ret {A} (a : A) : no_null (mret a : ST VM A).
Proof. done. Qed.
Lemma n_read {A} (f : VM -> A) : no_null (vm_read f).
Proof. done. Qed.
Lemma n_get : no_null st_get.
Proof. done. Qed.
Lemma n_set (f : VM -> VM) : no_null (vm_set f).
Proof. done. Qed.
Lemma n_throw {A} t : no_null (throwException t : ST VM A).
Proof. intros s. by destruct t. Qed.
Lemma n_undefined {A} : no_null (st_throw Undefined : ST VM A).
Proof. done. Qed.
Lemma n_throw_when c t : no_null (throw_when c t : ST VM unit).
Proof. intros s. by destruct c, t. Qed.
Lemma n_if {A} (b : bool) (m n : ST VM A) : no_null m -> no_null n -> no_null (if b then m else n).
Proof. by destruct b. Qed.
Lemma n_ext {A} (m : ST E A) : defined m -> no_null (on_ext m).
Proof. intros Hm s. unfold on_ext. destruct (Hm (m_ext s)) as [_ Hn]. destruct (m (m_ext s)) as [[a|ex] e']; cbn in *; congruence. Qed.
Lemma n_flag f : schedule <> None -> no_null (flag schedule f).
Proof. intros Hs s. unfold flag. by destruct schedule. Qed.
Lemma n_onOperation : no_null (onOperation onOp).
Proof.
  unfold onOperation. destruct onOp as [f|] eqn:Ef; [|done]. apply n_bind; [done|]. intros ?. apply n_bind; [done|]. intros s.
  apply n_ext. by eapply xl_onOp.
Qed.
Lemma n_SP i : no_null (SP i).
Proof. intros s. unfold SP. destruct (_ <? _); [done|]. by destruct (m_stack s !! _). Qed.
Lemma n_set_stack i v : no_null (set_stack i v).
Proof. intros s. unfold set_stack. by destruct (_ || _). Qed.
Lemma n_set_SPP v : no_null (set_SPP v).
Proof. intros s. apply (n_set_stack (m_SPP s) v s). Qed.
Lemma n_set_SP i v : no_null (set_SP i v).
Proof. intros s. apply (n_set_stack (m_SP s + i) v s). Qed.
Lemma n_resize n : no_null (resize n).
Proof. intros s. unfold resize. by destruct (_ <? _). Qed.
Lemma n_mem_read o n : no_null (mem_read o n).
Proof. intros s. unfold mem_read. destruct (_ =? _); [done|]. by destruct (_ <? _). Qed.
Lemma n_mem_write o d : no_null (mem_write o d).
Proof. intros s. unfold mem_write. destruct (_ =? _); [done|]. by destruct (_ <? _). Qed.
Lemma n_code_at i : no_null (code_at i).
Proof. intros s. unfold code_at. by destruct (m_code s !! _). Qed.
Create HintDb no_null.
Hint Resolve n_bind n_ret n_read n_get n_set n_throw n_undefined n_throw_when n_if n_onOperation n_SP n_set_SPP n_set_SP n_resize n_mem_read n_mem_write
  n_code_at n_flag : no_null.
Hint Extern 1 (no_null (on_ext _)) => apply n_ext; apply HX : no_null.
Hint Extern 1 (no_null NEXT) => unfold NEXT : no_null.
Hint Extern 1 (no_null (unary _ _)) => unfold unary : no_null.
Hint Extern 1 (no_null (binary _ _)) => unfold binary : no_null.
Hint Extern 1 (no_null (ternary _ _)) => unfold ternary : no_null.
Hint Extern 1 (no_null (push_value _ _)) => unfold push_value : no_null.
Hint Extern 1 (no_null (toInt63 _)) => unfold toInt63 : no_null.
Hint Extern 1 (no_null (memNeed _ _)) => unfold memNeed : no_null.
Hint Extern 1 (no_null (updateMem _)) => unfold updateMem : no_null.
Hint Extern 1 (no_null (copy_room _)) => unfold copy_room : no_null.
Hint Extern 1 (no_null (copyToMemory _ _)) => unfold copyToMemory; cbv zeta : no_null.
Hint Extern 1 (no_null (verifyJumpDest _)) => unfold verifyJumpDest : no_null.
Hint Extern 1 (no_null (adjustStack _ _)) => unfold adjustStack : no_null.
Hint Extern 1 (no_null (if decide _ then _ else _)) => destruct (decide _) : no_null.

Lemma n_push_loop j : no_null (push_loop j).
Proof.
  induction j as [|j IH]; [done|]. cbn [push_loop]. apply n_bind; [done|]. intros s. destruct (m_stack s !! _); auto 10 with no_null.
Qed.
Hint Resolve n_push_loop : no_null.

(** The instructions whose case reads a field of the schedule. *)
Definition schedule_ops : list Instruction :=
  [CREATE2; DELEGATECALL; STATICCALL; REVERT; SUICIDE; SHL; SHR; SAR; RETURNDATASIZE; RETURNDATACOPY; EXTCODEHASH].

Lemma dispatch_no_null op : schedule <> None \/ op ∉ schedule_ops -> no_null (dispatch ext x onOp schedule (Some op)).
Proof.
  intros Hop.
  destruct op; try (destruct Hop as [Hop|Hop]; [|by destruct Hop; set_solver]);
    cbn [dispatch do_call do_halt do_arithmetic do_logic do_modular do_environment do_copy do_block do_push do_state];
    unfold do_memory, do_log, do_shift, do_jump, do_dup, do_swap; cbv zeta; auto 30 with no_null.
Qed.

Lemma n_fetch : no_null fetchInstruction.
Proof. unfold fetchInstruction. auto 20 with no_null. Qed.

Lemma fetch_op (s s' : VM) : fetchInstruction s = (Ok tt, s') -> exists b, m_code s !! Z.to_nat (m_PC s) = Some b /\ m_OP s' = bval b.
Proof.
  unfold fetchInstruction, mbind, ST_bind, vm_read, vm_set, st_modify, code_at. destruct (m_code s !! Z.to_nat (m_PC s)) as [b|]; [|done].
  pose proof (adjustStack_frame (i_args (instructionInfo (bval b))) (i_ret (instructionInfo (bval b))) (with_OP (bval b) s)) as [Ho _].
  destruct (adjustStack _ _ _) as [[[]|] s1]; [|done]. intros [= <-]. by exists b.
Qed.

Lemma step_null s : (step ext x onOp schedule s).1 = Throw NullSchedule ->
  schedule = None /\ exists b op, m_code s !! Z.to_nat (m_PC s) = Some b /\ decode (bval b) = Some op /\ op ∈ schedule_ops.
Proof.
  unfold step, mbind, ST_bind. pose proof (n_fetch s) as Hf. destruct (fetchInstruction s) as [[[]|ex] s1] eqn:Ef; [|by intros [= ->]].
  destruct (fetch_op _ _ Ef) as (b & Hb & Ho). unfold vm_read. rewrite Ho. destruct (decode (bval b)) as [op|] eqn:Hd; [|done]. intros Ht.
  assert (schedule = None \/ schedule <> None) as [Hs|Hs] by (destruct schedule; [by right|by left]).
  - split; [done|]. exists b, op. split; [done|]. split; [done|]. destruct (decide (op ∈ schedule_ops)); [done|].
    by destruct (dispatch_no_null op (or_intror n) s1).
  - by destruct (dispatch_no_null op (or_introl Hs) s1).
Qed.

(** C22. The machine stays inside its arrays, whatever program it runs. Take the
    state that [initEntry] leaves for any code and any input, and any number of
    rounds of the loop of [interpret] from there that did not throw. Then the
    stack still has its 1024 words, all of them below 2^256, with the top in
    range; the code is still followed by its zeros, the program counter has
    not left it and every jump target lies in it; the memory is addressable;
    and the next round does not read or write outside an array: it throws one
    of the exceptions of the machine or goes on, unless the schedule is null
    and the instruction at the program counter is one of the eleven of
    [schedule_ops], whose cases read it. (The code never sets [m_schedule]:
    null is the case that occurs.) The operations of the surroundings and the
    callback are only assumed to be defined themselves. *)
Theorem vm_stays_in_bounds (e : E) (s0 s : VM) :
  initEntry x (newVM e) = (Ok tt, s0) -> rtc round s0 s ->
  vm_ok s /\ (step ext x onOp schedule s).1 <> Throw Undefined /\
  ((step ext x onOp schedule s).1 = Throw NullSchedule ->
   schedule = None /\ exists b op, m_code s !! Z.to_nat (m_PC s) = Some b /\ decode (bval b) = Some op /\ op ∈ schedule_ops).
Proof.
  intros H0 Hr. pose proof (rounds_ok _ _ (initEntry_ok e s0 H0) Hr) as Hok. split; [done|]. split; [|apply step_null].
  pose proof (step_safe s Hok) as H. destruct (step ext x onOp schedule s) as [[c|ex] s']; cbn; [done|congruence].
Qed.
End Safety.

(** ** The loop is not left *)

Section Endless.
Context {E : Type} (ext : VMInterface E) (x : ExtData).
Variables (onOp : option (Z -> Z -> Z -> Z -> ST E unit)) (schedule : option VMSchedule).
Abbreviation VM := (@VM E).

Definition stays (m : ST VM Control) : Prop := forall s c s', m s = (Ok c, s') -> c <> Return.

Lemma stays_bind {A} (m : ST VM A) f : (forall a, stays (f a)) -> stays (m ≫= f).
Proof. intros Hf s c s'. unfold mbind, ST_bind. destruct (m s) as [[a|] s1]; [apply Hf|done]. Qed.
Lemma stays_ret c : c <> Return -> stays (mret c).
Proof. by intros Hc s c' s' [= <- _]. Qed.
Lemma stays_throw t : stays (throwException t).
Proof. by intros s c s'. Qed.
Lemma stays_if (b : bool) m n : stays m -> stays n -> stays (if b then m else n).
Proof. by destruct b. Qed.
Create HintDb stays.
Hint Resolve stays_bind stays_ret stays_throw stays_if : stays.
Hint Extern 1 (_ <> Return) => discriminate : stays.
Hint Extern 1 (stays NEXT) => unfold NEXT : stays.
Hint Extern 1 (stays (unary _ _)) => unfold unary : stays.
Hint Extern 1 (stays (binary _ _)) => unfold binary : stays.
Hint Extern 1 (stays (ternary _ _)) => unfold ternary : stays.
Hint Extern 1 (stays (push_value _ _)) => unfold push_value : stays.

Lemma dispatch_stays op : stays (dispatch ext x onOp schedule op).
Proof.
  destruct op as [op|]; [|apply stays_throw].
  destruct op; cbn [dispatch do_call do_halt do_arithmetic do_logic do_modular do_environment do_copy do_block do_push do_state];
    unfold do_memory, do_log, do_shift, do_jump, do_dup, do_swap; cbv zeta; auto 20 with stays.
Qed.

Lemma step_stays : stays (step ext x onOp schedule).
Proof. unfold step. apply stays_bind. intros _. apply stays_bind. intros op. apply dispatch_stays. Qed.

Lemma interpret_stays fuel s s' : interpret ext x onOp schedule fuel s <> Some (Ok tt, s').
Proof.
  revert s. induction fuel as [|n IH]; intros s; cbn [interpret]; [done|]. pose proof (step_stays s) as Hs.
  destruct (step ext x onOp schedule s) as [[c|] s1]; [|done]. specialize (Hs c s1 eq_refl). by destruct c.
Qed.

Lemma initEntry_next (s s' : VM) : initEntry x s = (Ok tt, s') -> m_next s' = Some Interpret.
Proof.
  unfold initEntry, optimize, copyCode, mbind, ST_bind, vm_set, st_modify. destruct (optimize_loop _ _ _ _ _). by intros [= <-].
Qed.

(** At STOP without a callback, a round leaves the machine at STOP. *)
Definition at_stop (s : VM) : Prop := m_code s !! Z.to_nat (m_PC s) = Some Byte.x00 /\ 0 <= m_SPP s <= 1024.

Lemma adjustStack_none (s : VM) : 0 <= m_SPP s <= 1024 -> adjustStack 0 0 s = (Ok tt, with_SPP (m_SPP s) (with_SP (m_SPP s) s)).
Proof.
  intros Hs. unfold adjustStack, mbind, ST_bind, vm_set, st_modify, vm_read, throw_when, st_throw_if, throw_if. cbn. rewrite Z.add_0_r.
  rewrite (proj2 (Z.ltb_ge 1024 _)) by lia. cbn. rewrite Z.sub_0_r, (proj2 (Z.ltb_ge _ 0)) by lia. done.
Qed.

Lemma step_at_stop s : at_stop s -> exists s', step ext x None schedule s = (Ok Break, s') /\ at_stop s'.
Proof.
  intros [Hc Hs]. unfold step, fetchInstruction, code_at, vm_read. unfold mbind, ST_bind. rewrite Hc. change (bval Byte.x00) with 0.
  change (instructionInfo 0) with (mkInfo 0 0 ZeroTier). cbn [i_args i_ret vm_set st_modify]. rewrite adjustStack_none by done.
  eexists. split; [reflexivity|]. by split.
Qed.

Lemma interpret_at_stop fuel s : at_stop s -> interpret ext x None schedule fuel s = None.
Proof.
  revert s. induction fuel as [|n IH]; intros s Hs; [done|]. cbn [interpret]. destruct (step_at_stop s Hs) as (s' & -> & Hs'). by apply IH.
Qed.

(** C25. A contract never runs to its end. [BREAK] is [break], which leaves the
    [switch] and not the loop around it, so STOP, RETURN and SUICIDE, which
    set [m_next] to null, and CREATE and CALL, which set it to [create] and
    [call], start another round at the same place. Hence [exec] does not return
    normally on any program, from any state and with any surroundings: it
    throws, or has not ended after any number of rounds; and once the loop
    reaches a STOP it goes on for ever. *)
Theorem exec_never_returns :
  (forall rounds fuel s s', exec ext x onOp schedule rounds fuel s <> Some (Ok tt, s')) /\
  (forall fuel s, m_code s !! Z.to_nat (m_PC s) = Some Byte.x00 -> 0 <= m_SPP s <= 1024 ->
     interpret ext x None schedule fuel s = None).
Proof.
  split; [|intros fuel s Hc Hs; by apply interpret_at_stop].
  intros rounds fuel s s'. unfold exec. set (s0 := with_next _ _). clearbody s0. destruct rounds as [|n]; [done|]. cbn [exec_loop run_next].
  destruct (initEntry x s0) as [[[]|] s1] eqn:E1; [|done]. rewrite (initEntry_next _ _ E1). destruct n as [|n]; [done|]. cbn [exec_loop run_next].
  pose proof (interpret_stays fuel s1) as Hi. destruct (interpret ext x onOp schedule fuel s1) as [[[[]|] s2]|]; [by destruct (Hi s2)|done|done].
Qed.
End Endless.
