(* ===== verification/VMRefine.v ===== *)
(** * The contract machine runs the program that it is given

    The program counter only visits the instructions of the program, and the
    machine with its array, its two stack pointers and its words refines a
    machine on a list of numbers. *)

From S2P Require Import Prelude CommonData FixedHash SHA3 BlockHeader Instruction Word256 VM VMFacts VMSafety.
Import BigEndian.

(** ** The program counter *)

Section Counter.
Context {E : Type} (ext : VMInterface E) (x : ExtData).
Variables (onOp : option (Z -> Z -> Z -> Z -> ST E unit)) (schedule : option VMSchedule).
Abbreviation VM := (@VM E).
Abbreviation size := (zlen (x_code x)).

(** [m] does not move the program counter; [m] ends an instruction at the same
    place or one byte further. *)
Definition pc_keeps {A} (m : ST VM A) : Prop := forall s a s', m s = (Ok a, s') -> m_PC s' = m_PC s.
Definition nexts (m : ST VM Control) : Prop :=
  forall s c s', m s = (Ok c, s') -> m_PC s' = m_PC s \/ m_PC s' = u64 (m_PC s + 1).

Lemma pc_keeps_ret {A} (a : A) : pc_keeps (mret a).
Proof. by intros s b s' [= _ <-]. Qed.
Lemma pc_keeps_bind {A B} (m : ST VM A) (f : A -> ST VM B) : pc_keeps m -> (forall a, pc_keeps (f a)) -> pc_keeps (m ≫= f).
Proof.
  intros Hm Hf s b s'. unfold mbind, ST_bind. destruct (m s) as [[a|] s1] eqn:E1; [|done]. intros H. by rewrite (Hf _ _ _ _ H), (Hm _ _ _ E1).
Qed.
Lemma pc_keeps_throw {A} t : pc_keeps (A := A) (throwException t).
Proof. by intros s a s'. Qed.
Lemma pc_keeps_throw_when c t : pc_keeps (throw_when c t).
Proof. intros s a s'. unfold throw_when, st_throw_if, throw_if. destruct c; [done|by intros [= _ <-]]. Qed.
Lemma pc_keeps_read {A} (f : VM -> A) : pc_keeps (vm_read f).
Proof. by intros s a s' [= _ <-]. Qed.
Lemma pc_keeps_flag f : pc_keeps (flag schedule f).
Proof. unfold flag. destruct schedule; [apply pc_keeps_ret|done]. Qed.
Lemma pc_keeps_ext {A} (m : ST E A) : pc_keeps (on_ext m).
Proof. intros s a s'. unfold on_ext. destruct (m (m_ext s)). by intros [= _ <-]. Qed.
Lemma pc_keeps_set f : (forall s, m_PC (f s) = m_PC s) -> pc_keeps (vm_set f).
Proof. by intros Hf s a s' [= _ <-]. Qed.
Lemma pc_keeps_if {A} (b : bool) (m k : ST VM A) : pc_keeps m -> pc_keeps k -> pc_keeps (if b then m else k).
Proof. by destruct b. Qed.
Lemma pc_keeps_decide {A} P `{Decision P} (m k : ST VM A) : pc_keeps m -> pc_keeps k -> pc_keeps (if decide P then m else k).
Proof. by destruct (decide P). Qed.
Lemma pc_keeps_SP i : pc_keeps (SP i).
Proof. intros s a s'. unfold SP. destruct (_ <? _); [done|]. destruct (_ !! _); [by intros [= _ <-]|done]. Qed.
Lemma pc_keeps_set_stack i v : pc_keeps (set_stack i v).
Proof. intros s a s'. unfold set_stack. destruct (_ || _); [done|by intros [= _ <-]]. Qed.
Lemma pc_keeps_set_SP i v : pc_keeps (set_SP i v).
Proof. intros s a s' H. by apply pc_keeps_set_stack in H. Qed.
Lemma pc_keeps_set_SPP v : pc_keeps (set_SPP v).
Proof. intros s a s' H. by apply pc_keeps_set_stack in H. Qed.
Lemma pc_keeps_mem_read o k : pc_keeps (mem_read o k).
Proof. intros s a s'. unfold mem_read. repeat (destruct (_ : bool); [by intros [= _ <-] || done|]). by intros [= _ <-]. Qed.
Lemma pc_keeps_mem_write o d : pc_keeps (mem_write o d).
Proof. intros s a s'. unfold mem_write. repeat (destruct (_ : bool); [by intros [= _ <-] || done|]). by intros [= _ <-]. Qed.
Lemma pc_keeps_resize n : pc_keeps (resize n).
Proof. intros s a s'. unfold resize. destruct (_ <? _); [done|by intros [= _ <-]]. Qed.
Lemma pc_keeps_code_at i : pc_keeps (code_at i).
Proof. intros s a s'. unfold code_at. destruct (_ !! _); [by intros [= _ <-]|done]. Qed.

Create HintDb pc_keeps.
Hint Resolve pc_keeps_ret pc_keeps_bind pc_keeps_throw pc_keeps_throw_when pc_keeps_read pc_keeps_flag pc_keeps_ext pc_keeps_set pc_keeps_if pc_keeps_decide pc_keeps_SP pc_keeps_set_SP
  pc_keeps_set_SPP pc_keeps_mem_read pc_keeps_mem_write pc_keeps_resize pc_keeps_code_at : pc_keeps.

Lemma pc_keeps_toInt63 t : pc_keeps (toInt63 t).
Proof. unfold toInt63. auto with pc_keeps. Qed.
Lemma pc_keeps_memNeed o k : pc_keeps (memNeed o k).
Proof. apply pc_keeps_toInt63. Qed.
Lemma pc_keeps_updateMem n : pc_keeps (updateMem n).
Proof. unfold updateMem. auto 10 with pc_keeps. Qed.
Lemma pc_keeps_onOperation : pc_keeps (onOperation onOp).
Proof.
  unfold onOperation. destruct onOp as [f|]; [|auto with pc_keeps]. apply pc_keeps_bind; [by apply pc_keeps_set|]. intros _. apply pc_keeps_bind; [by intros s a s' [= _ <-]|]. auto with pc_keeps.
Qed.
Hint Resolve pc_keeps_toInt63 pc_keeps_memNeed pc_keeps_updateMem pc_keeps_onOperation : pc_keeps.
Lemma pc_keeps_copy_room k : pc_keeps (copy_room k).
Proof. unfold copy_room. auto 12 with pc_keeps. Qed.
Lemma pc_keeps_copyToMemory d k : pc_keeps (copyToMemory d k).
Proof. unfold copyToMemory. auto 12 with pc_keeps. Qed.
Hint Resolve pc_keeps_copy_room pc_keeps_copyToMemory : pc_keeps.

Lemma nexts_keeps m : pc_keeps m -> nexts m.
Proof. intros Hm s c s' H. left. by apply (Hm s c). Qed.
Lemma nexts_bind {A} (m : ST VM A) f : pc_keeps m -> (forall a, nexts (f a)) -> nexts (m ≫= f).
Proof.
  intros Hm Hf s b s'. unfold mbind, ST_bind. destruct (m s) as [[a|] s1] eqn:E1; [|done]. intros H. rewrite <- (Hm _ _ _ E1). by apply (Hf a _ b).
Qed.
Lemma nexts_NEXT : nexts NEXT.
Proof. intros s c s' [= _ <-]. by right. Qed.
Lemma nexts_throw t : nexts (throwException t).
Proof. by intros s c s'. Qed.
Hint Resolve nexts_bind nexts_NEXT nexts_throw : pc_keeps.
Hint Extern 3 (nexts _) => apply nexts_keeps : pc_keeps.
Hint Extern 1 (nexts (unary _ _)) => unfold unary : pc_keeps.
Hint Extern 1 (nexts (binary _ _)) => unfold binary : pc_keeps.
Hint Extern 1 (nexts (ternary _ _)) => unfold ternary : pc_keeps.
Hint Extern 1 (nexts (push_value _ _)) => unfold push_value : pc_keeps.

(** Every instruction except PUSH and the jumps. *)
Definition moves_by_one (op : Instruction) : bool :=
  negb ((code_of PUSH1 <=? code_of op) && (code_of op <=? code_of PUSH32)) && negb (code_of op =? code_of JUMP) && negb (code_of op =? code_of JUMPI).

Lemma dispatch_nexts op : moves_by_one op = true -> nexts (dispatch ext x onOp schedule (Some op)).
Proof.
  destruct op; try (intros H; vm_compute in H; discriminate H); intros _;
    cbn [dispatch do_call do_halt do_arithmetic do_logic do_modular do_environment do_copy do_block do_push do_state];
    unfold do_memory, do_log, do_shift, do_dup, do_swap; cbv zeta; auto 20 with pc_keeps.
Qed.

Lemma bind_ok {A B} (m : ST VM A) (f : A -> ST VM B) s b s' :
  (m ≫= f) s = (Ok b, s') -> exists a s1, m s = (Ok a, s1) /\ f a s1 = (Ok b, s').
Proof. unfold mbind, ST_bind. destruct (m s) as [[a|] s1]; [|done]. by exists a, s1. Qed.

Lemma push_loop_pc j (s s' : VM) : push_loop j s = (Ok tt, s') -> 0 <= m_PC s -> m_PC s + Z.of_nat j < 2 ^ 64 -> m_PC s' = m_PC s + Z.of_nat j.
Proof.
  revert s. induction j as [|j IH]; intros s; [intros [= <-]; lia|]. cbn [push_loop]. intros H H0 Hj.
  apply bind_ok in H as (? & s1 & [= <- <-] & H). apply bind_ok in H as (b & s1 & Hb & H). apply pc_keeps_code_at in Hb.
  apply bind_ok in H as (top & s2 & Ht & H). assert (s2 = s1) as -> by (revert Ht; destruct (_ !! _); [by intros [= _ <-]|done]).
  apply bind_ok in H as (? & s3 & Hs & H). apply pc_keeps_set_SPP in Hs. apply bind_ok in H as (? & s4 & [= _ <-] & H).
  assert (u64 (m_PC s3 + 1) = m_PC s + 1) as He by (rewrite u64_small; [lia|unfold is_u64; lia]).
  apply IH in H; cbn [m_PC with_PC] in *; lia.
Qed.

Lemma do_push_pc op s c s' : code_of PUSH1 <= code_of op <= code_of PUSH32 -> dispatch ext x onOp schedule (Some op) s = (Ok c, s') ->
  0 <= m_PC s < 2 ^ 62 -> m_PC s' = m_PC s + op_size (code_of op).
Proof.
  intros Hop H Hpc. assert (dispatch ext x onOp schedule (Some op) = do_push onOp op) as Hd by (destruct op; cbn in Hop; reflexivity || lia). rewrite Hd in H.
  assert (op_size (code_of op) = code_of op - code_of PUSH1 + 2) as Hsz.
  { unfold op_size. by rewrite (proj2 (Z.leb_le _ _)), (proj2 (Z.leb_le _ _)) by lia. }
  destruct (decide (op = PUSH1)) as [-> |Hne].
  - unfold do_push in H. apply bind_ok in H as (? & s1 & Ho & H). apply pc_keeps_onOperation in Ho. apply bind_ok in H as (? & s2 & [= _ <-] & H).
    apply bind_ok in H as (pc & s2 & [= _ <-] & H). apply bind_ok in H as (b & s3 & Hb & H). apply pc_keeps_code_at in Hb.
    apply bind_ok in H as (? & s4 & Hs & H). apply pc_keeps_set_SPP in Hs. apply bind_ok in H as (? & s5 & [= _ <-] & [= _ <-]).
    cbn [m_PC with_PC] in *. rewrite Hsz, Hs, Hb, Ho, !u64_small; [lia|unfold is_u64; lia|rewrite u64_small; unfold is_u64; lia].
  - assert (do_push onOp op = (_ ← onOperation onOp; _ ← set_SPP 0; _ ← vm_set (fun s => with_PC (u64 (m_PC s + 1)) s);
      _ ← push_loop (Z.to_nat (code_of op - code_of PUSH1 + 1)); mret Continue)) as Hp by (destruct op; try reflexivity; [cbn in Hop; lia|done]).
    rewrite Hp in H. apply bind_ok in H as (? & s1 & Ho & H). apply pc_keeps_onOperation in Ho. apply bind_ok in H as (? & s2 & Hs & H). apply pc_keeps_set_SPP in Hs.
    apply bind_ok in H as (? & s3 & [= _ <-] & H). apply bind_ok in H as ([] & s4 & Hl & [= _ <-]). 
    change (code_of PUSH1) with 96 in *. change (code_of PUSH32) with 127 in *. assert (u64 (m_PC s2 + 1) = m_PC s + 1) as He by (rewrite u64_small; unfold is_u64; lia).
    apply push_loop_pc in Hl; cbn [m_PC with_PC] in *; lia.
Qed.

Lemma verifyJumpDest_ok d (s : VM) p s' : vm_ok x s -> verifyJumpDest d s = (Ok p, s') -> jump_dest (x_code x) p /\ s' = s.
Proof.
  intros Hs. unfold verifyJumpDest, mbind, ST_bind, vm_read. rewrite (ok_dests x s Hs). destruct (_ <=? _); cbn [andb]; [|done].
  destruct (binary_search _ d) eqn:Hb; [|done]. intros [= <- <-]. split; [by apply binary_search_dests|done].
Qed.

(** ** Fetching *)

(** The opcode that the machine runs at a position: that of the program, or
    INVALID for the synthetic ones. *)
Definition program_op (p : Z) : Z := if synthetic (op_at (x_code x) p) then code_of INVALID else op_at (x_code x) p.

(** The state after [fetchInstruction] of the opcode [op]. *)
Definition fetched (op : Z) (s : VM) : VM :=
  with_copyMemSize 0 (with_newMemSize (zlen (m_memory s))
    (with_SPP (m_SPP s + i_args (instructionInfo op) - i_ret (instructionInfo op)) (with_SP (m_SPP s) (with_OP op s)))).

Lemma prepared_byte (s : VM) p : vm_ok x s -> 0 <= p < size + 33 ->
  m_code s !! Z.to_nat p = Some (if decide ((instruction_start (x_code x) p /\ p < size) /\ synthetic (op_at (x_code x) p) = true)
                                then byte_of (code_of INVALID) else nth (Z.to_nat p) (x_code x) Byte.x00).
Proof. intros Hs Hp. rewrite (ok_code x s Hs). by apply optimize_loop_code. Qed.

Lemma prepared_op (s : VM) : vm_ok x s -> instruction_start (x_code x) (m_PC s) ->
  exists b, m_code s !! Z.to_nat (m_PC s) = Some b /\ bval b = program_op (m_PC s).
Proof.
  intros Hs Hst. pose proof (ok_pc x s Hs) as Hpc. eexists. split; [apply prepared_byte; [done|lia]|]. unfold program_op.
  destruct (decide _) as [[_ ->]|Hn]; [done|]. destruct (synthetic _) eqn:Hsy; [|done]. exfalso. apply Hn. split; [|done]. split; [done|].
  destruct (Z.lt_ge_cases (m_PC s) size) as [|Hge]; [done|]. unfold op_at in Hsy. rewrite nth_overflow in Hsy by (unfold zlen in *; lia). done.
Qed.

Lemma adjustStack_spec removed added (s : VM) :
  if (1024 <? m_SPP s + removed) || (m_SPP s + removed - added <? 0) then exists s', adjustStack removed added s = (Throw BadStackException, s')
  else adjustStack removed added s = (Ok tt, with_SPP (m_SPP s + removed - added) (with_SP (m_SPP s) s)).
Proof.
  unfold adjustStack, mbind, ST_bind, vm_set, st_modify, vm_read, throw_when, st_throw_if, throw_if. cbn.
  destruct (_ <? _); cbn; [by eexists|]. destruct (_ <? _); cbn; [by eexists|done].
Qed.

Lemma fetch_spec (s : VM) : vm_ok x s -> instruction_start (x_code x) (m_PC s) ->
  let op := program_op (m_PC s) in
  let top := m_SPP s + i_args (instructionInfo op) in
  if (1024 <? top) || (top - i_ret (instructionInfo op) <? 0)
  then exists s', fetchInstruction s = (Throw BadStackException, s')
  else fetchInstruction s = (Ok tt, fetched op s).
Proof.
  intros Hs Hst. cbv zeta. destruct (prepared_op s Hs Hst) as (b & Hb & <-). unfold fetchInstruction, code_at, vm_read, mbind, ST_bind. rewrite Hb.
  pose proof (adjustStack_spec (i_args (instructionInfo (bval b))) (i_ret (instructionInfo (bval b))) (with_OP (bval b) s)) as Ha. cbn [m_SPP with_OP] in Ha.
  cbn [vm_set st_modify]. destruct (_ || _); [destruct Ha as [s' ->]; by eexists|]. by rewrite Ha.
Qed.

Lemma fetched_ok (s : VM) : vm_ok x s -> instruction_start (x_code x) (m_PC s) -> fetchInstruction s = (Ok tt, fetched (program_op (m_PC s)) s) ->
  vm_ok x (fetched (program_op (m_PC s)) s).
Proof.
  intros Hs Hst Hf. pose proof (fetch_spec s Hs Hst) as H. cbv zeta in H. destruct (_ || _) eqn:Hc; [destruct H as (s' & H); congruence|].
  pose proof (instruction_stack_effect (program_op (m_PC s))). destruct Hs. split; try done. cbn [m_SPP fetched with_copyMemSize with_newMemSize with_SPP]. apply orb_false_iff in Hc as [Hc1 Hc2]. zify_bool. lia.
Qed.

Lemma program_op_end p : size <= p -> program_op p = 0.
Proof. intros Hp. unfold program_op, op_at. rewrite nth_overflow by (unfold zlen in *; lia). done. Qed.

(** What runs is what the program says, INVALID apart. *)
Lemma program_op_inv p i : program_op p = code_of i -> i <> INVALID -> op_at (x_code x) p = code_of i.
Proof. unfold program_op. destruct (synthetic _); [|done]. intros H Hi. by apply (inj code_of) in H as <-. Qed.

Lemma SP_state i v (s s' : VM) : SP i s = (Ok v, s') -> s' = s.
Proof. unfold SP. destruct (_ <? _); [done|]. destruct (_ !! _); [by intros [= _ <-]|done]. Qed.

Lemma do_jump_pc op s c s' : op ∈ [JUMP; JUMPI] -> vm_ok x s -> dispatch ext x onOp schedule (Some op) s = (Ok c, s') ->
  jump_dest (x_code x) (m_PC s') \/ m_PC s' = u64 (m_PC s + 1).
Proof.
  intros Hop Hok H.
  assert (forall s1, m_jumpDests s1 = m_jumpDests s -> (sp0 ← SP 0; pc ← verifyJumpDest sp0; _ ← vm_set (with_PC pc); mret Continue) s1 = (Ok c, s') ->
    jump_dest (x_code x) (m_PC s')) as Hj.
  { intros s1 Hd Hs1. apply bind_ok in Hs1 as (sp0 & s2 & H2 & Hs1). apply SP_state in H2 as ->.
    apply bind_ok in Hs1 as (pc & s2 & H2 & Hs1). apply bind_ok in Hs1 as (? & s3 & [= _ <-] & [= _ <-]). cbn.
    revert H2. unfold verifyJumpDest, mbind, ST_bind, vm_read. rewrite Hd, (ok_dests x s Hok). destruct (_ <=? _); cbn [andb]; [|done].
    destruct (binary_search _ sp0) eqn:Hb; [|done]. intros [= <- _]. by apply binary_search_dests. }
  assert (forall s1 u, onOperation onOp s = (Ok u, s1) -> m_jumpDests s1 = m_jumpDests s) as Ho.
  { intros s1 u. unfold onOperation. destruct onOp as [f|]; [|by intros [= _ <-]]. unfold mbind, ST_bind, vm_set, st_modify, st_get, on_ext.
    destruct (f _ _ _ _ _). by intros [= _ <-]. }
  repeat (apply elem_of_cons in Hop as [-> |Hop]); [..|by apply not_elem_of_nil in Hop]; cbn [dispatch] in H; unfold do_jump in H;
    apply bind_ok in H as (? & s1 & H1 & H); cbv zeta in H.
  - left. apply (Hj s1); [by eapply Ho|done].
  - apply bind_ok in H as (sp1 & s2 & H2 & H). apply SP_state in H2 as ->.
    destruct (negb _); [left; apply (Hj s1); [by eapply Ho|done]|]. right. apply bind_ok in H as (? & s2 & [= _ <-] & [= _ <-]). cbn.
    apply pc_keeps_onOperation in H1. by rewrite H1.
Qed.

Lemma stop_pc s c s' : dispatch ext x onOp schedule (Some STOP) s = (Ok c, s') -> m_PC s' = m_PC s.
Proof. revert s c s'. change (pc_keeps (do_halt ext x onOp schedule STOP)). cbn [do_halt]. auto with pc_keeps. Qed.

Lemma step_pc s c s' : size < 2 ^ 62 -> vm_ok x s -> instruction_start (x_code x) (m_PC s) -> step ext x onOp schedule s = (Ok c, s') ->
  instruction_start (x_code x) (m_PC s').
Proof.
  intros Hsz Hok Hst H. unfold step in H. apply bind_ok in H as ([] & s1 & Hf & H). pose proof (fetch_spec s Hok Hst) as Hfs. cbv zeta in Hfs.
  destruct (_ || _); [destruct Hfs; congruence|]. rewrite Hfs in Hf. injection Hf as <-. apply bind_ok in H as (op & s2 & [= <- <-] & H).
  pose proof (fetched_ok s Hok Hst Hfs) as Hok1. change (m_OP (fetched _ s)) with (program_op (m_PC s)) in H.
  change (m_PC s) with (m_PC (fetched (program_op (m_PC s)) s)) in Hst. pose proof (ok_pc x _ Hok1) as Hpc.
  destruct (decode (program_op (m_PC s))) as [i|] eqn:Hd; [|done]. apply decode_inv in Hd.
  change (m_PC s) with (m_PC (fetched (program_op (m_PC s)) s)) in Hd. set (s1 := fetched _ s) in *. clearbody s1. clear s Hok Hfs.
  destruct (Z.lt_ge_cases (m_PC s1) size) as [Hlt|Hge].
  2: { rewrite program_op_end in Hd by done. assert (i = STOP) as -> by (apply (inj code_of); by rewrite <- Hd). apply stop_pc in H. by rewrite H. }
  assert (i <> INVALID) as Hi by (intros ->; done). pose proof (program_op_inv _ _ Hd Hi) as Hop. pose proof (start_next _ _ Hst Hlt) as Hn. rewrite Hop in Hn.
  assert (u64 (m_PC s1 + 1) = m_PC s1 + 1) as Hu by (apply u64_small; unfold is_u64; lia).
  destruct (moves_by_one i) eqn:Hm.
  - destruct (dispatch_nexts i Hm _ _ _ H) as [-> | ->]; [done|]. rewrite Hu. replace 1 with (op_size (code_of i)); [done|].
    unfold op_size. unfold moves_by_one in Hm. by destruct (_ && (code_of i <=? _)).
  - destruct ((code_of PUSH1 <=? code_of i) && (code_of i <=? code_of PUSH32)) eqn:Hp.
    + zify_bool. rewrite (do_push_pc i s1 c s' ltac:(lia) H) by lia. done.
    + assert (i = JUMP \/ i = JUMPI) as Hj.
      { unfold moves_by_one in Hm. rewrite Hp in Hm. cbn [negb andb] in Hm. destruct (Z.eqb_spec (code_of i) (code_of JUMP)); [left; by apply (inj code_of)|].
        destruct (Z.eqb_spec (code_of i) (code_of JUMPI)); [right; by apply (inj code_of)|done]. }
      assert (i ∈ [JUMP; JUMPI]) as Hin by (destruct Hj as [-> | ->]; [left|right; left]). destruct (do_jump_pc i s1 c s' Hin Hok1 H) as [[? _]| ->]; [done|]. rewrite Hu. destruct Hj as [-> | ->]; exact Hn.
Qed.

Lemma rounds_pc s s' : size < 2 ^ 62 -> ExtLaws ext onOp -> vm_ok x s -> instruction_start (x_code x) (m_PC s) ->
  rtc (round ext x onOp schedule) s s' -> instruction_start (x_code x) (m_PC s').
Proof.
  intros Hsz HX Hs Hst Hr. revert Hs Hst. induction Hr as [|a b c [ct Hab] _ IH]; [done|]. intros Ha Hst. apply IH; [|by eapply step_pc].
  pose proof (step_safe ext x onOp schedule Hsz a Ha) as H. rewrite Hab in H. apply H.
Qed.

(** C34. The machine runs the instructions of its program and nothing else. In
    every state that rounds of the loop reach from the start, the program
    counter is at a position where an instruction of the program starts, or
    behind its end, and the opcode fetched there is the one in the program,
    INVALID in place of the synthetic PUSHC, JUMPC and JUMPCI, and STOP behind
    the end: no jump and no PUSH lead into the constant of a PUSH. The schedule
    may be null, as it is in the code. *)
Theorem pc_on_instructions (e : E) (s0 s : VM) :
  ExtLaws ext onOp -> size < 2 ^ 62 ->
  initEntry x (newVM e) = (Ok tt, s0) -> rtc (round ext x onOp schedule) s0 s ->
  instruction_start (x_code x) (m_PC s) /\
  (exists b, m_code s !! Z.to_nat (m_PC s) = Some b /\ bval b = program_op (m_PC s)) /\
  (size <= m_PC s -> program_op (m_PC s) = code_of STOP).
Proof.
  intros HX Hsz H0 Hr. pose proof (initEntry_ok x e s0 H0) as Hok0. assert (m_PC s0 = 0) as Hp0 by (rewrite initEntry_state in H0; injection H0 as <-; done).
  pose proof (rounds_ok ext x onOp schedule Hsz s0 s Hok0 Hr) as Hok.
  assert (instruction_start (x_code x) (m_PC s)) as Hst by (apply (rounds_pc s0 s); try done; rewrite Hp0; constructor).
  split; [done|]. split; [by apply prepared_op|]. intros Hge. by rewrite program_op_end.
Qed.
End Counter.
