(* ===== verification/VMSpec.v ===== *)
(** * A machine on a list of numbers

    What the instructions of the contract machine mean, on a list of numbers
    with the top first; the machine of vm/VM.cpp, with its array, its two
    stack pointers and its words, refines it. *)

From S2P Require Import Prelude CommonData FixedHash SHA3 BlockHeader Instruction Word256 VM VMFacts VMSafety VMRefine.
Import BigEndian.

(** ** Meaning *)

Inductive Alu : Type :=
  | Fun1 (f : Z -> Z)
  | Fun2 (f : Z -> Z -> Z)
  | Fun3 (f : Z -> Z -> Z -> Z).

(** The instructions that replace the topmost items by a number; [signed] is
    the two's complement reading of a word. *)
Definition meaning (op : Instruction) : option Alu :=
  match op with
  | ADD => Some (Fun2 (fun a b => (a + b) mod 2 ^ 256))
  | MUL => Some (Fun2 (fun a b => (a * b) mod 2 ^ 256))
  | SUB => Some (Fun2 (fun a b => (a - b) mod 2 ^ 256))
  | DIV => Some (Fun2 (fun a b => if b =? 0 then 0 else a / b))
  | MOD => Some (Fun2 (fun a b => if b =? 0 then 0 else a mod b))
  | SDIV => Some (Fun2 (fun a b => if b =? 0 then 0 else Z.quot (signed a) (signed b) mod 2 ^ 256))
  | SMOD => Some (Fun2 (fun a b => if b =? 0 then 0 else Z.rem (signed a) (signed b) mod 2 ^ 256))
  | EXP => Some (Fun2 (fun a b => a ^ b mod 2 ^ 256))
  | NOT => Some (Fun1 (fun a => 2 ^ 256 - 1 - a))
  | LT => Some (Fun2 (fun a b => if a <? b then 1 else 0))
  | GT => Some (Fun2 (fun a b => if b <? a then 1 else 0))
  | SLT => Some (Fun2 (fun a b => if signed a <? signed b then 1 else 0))
  | SGT => Some (Fun2 (fun a b => if signed b <? signed a then 1 else 0))
  | EQ => Some (Fun2 (fun a b => if a =? b then 1 else 0))
  | ISZERO => Some (Fun1 (fun a => if a =? 0 then 1 else 0))
  | AND => Some (Fun2 Z.land)
  | OR => Some (Fun2 Z.lor)
  | XOR => Some (Fun2 Z.lxor)
  | BYTE => Some (Fun2 (fun a b => if a <? 32 then bval (nth (Z.to_nat a) (toBigEndian 32 b) Byte.x00) else 0))
  | ADDMOD => Some (Fun3 (fun a b c => if c =? 0 then 0 else (a + b) mod c))
  | MULMOD => Some (Fun3 (fun a b c => if c =? 0 then 0 else (a * b) mod c))
  | SIGNEXTEND =>
      Some (Fun2 (fun a b => if a <? 31 then signed_of (8 * a + 8) (b mod 2 ^ (8 * a + 8)) mod 2 ^ 256 else b))
  | SHL => Some (Fun2 (fun a b => (b * 2 ^ a) mod 2 ^ 256))
  | SHR => Some (Fun2 (fun a b => b / 2 ^ a))
  | SAR => Some (Fun2 (fun a b => (signed b / 2 ^ a) mod 2 ^ 256))
  | _ => None
  end.

Definition alu_run (f : Alu) (items : list Z) : option (list Z) :=
  match f, items with
  | Fun1 f, a :: r => Some (f a :: r)
  | Fun2 f, a :: b :: r => Some (f a b :: r)
  | Fun3 f, a :: b :: c :: r => Some (f a b c :: r)
  | _, _ => None
  end.

Record Machine : Type := mkMachine { pc : Z; items : list Z; memory : bytes }.

(** The memory with room for [n] bytes, in whole words. *)
Definition grow (n : Z) (mem : bytes) : bytes := mem ++ replicate (Z.to_nat ((n + 31) / 32 * 32 - zlen mem)) Byte.x00.
Definition store (off : Z) (data mem : bytes) : bytes :=
  take (Z.to_nat off) mem ++ data ++ drop (Z.to_nat (off + zlen data)) mem.

(** ** Steps *)

(** Whether the schedule allows shifts, nothing when there is no schedule, and
    how a shift fails otherwise. *)
Definition allowed (shifts : option bool) : bool := default false shifts.
Definition shift_error (shifts : option bool) : exn :=
  match shifts with Some _ => BadInstructionException | None => NullSchedule end.

Section Steps.
Variable x : ExtData.
Abbreviation prog := (x_code x).
Variable shifts : option bool.

(** The constant of a PUSH at [p]; behind the code it goes on with zeros. *)
Definition constant (p n : Z) : Z := be_val (map (fun j => nth (Z.to_nat (p + 1) + j) prog Byte.x00) (seq 0 (Z.to_nat n))).

#[export] Instance jump_dest_dec p : Decision (jump_dest prog p).
Proof.
  unfold jump_dest. destruct (decide ((instruction_start prog p /\ p < zlen prog) /\ op_at prog p = code_of JUMPDEST)) as [H|H]; [left|right]; tauto.
Defined.

Definition jump (m : Machine) (d : Z) (r : list Z) : result Machine :=
  if decide (jump_dest prog d) then Ok (mkMachine d r (memory m)) else Throw BadJumpException.

(** A step on a machine with enough items; [None] for the instructions that
    this machine leaves out: those that reach the surroundings, end the program
    or hash, and memory above 2^32. *)
Definition spec_op (op : Instruction) (m : Machine) : option (result Machine) :=
  let next it := Some (Ok (mkMachine (pc m + 1) it (memory m))) in
  match meaning op with
  | Some f =>
      if negb (allowed shifts) && bool_decide (op ∈ [SHL; SHR; SAR]) then Some (Throw (shift_error shifts))
      else match alu_run f (items m) with Some it => next it | None => None end
  | None =>
      if (code_of PUSH1 <=? code_of op) && (code_of op <=? code_of PUSH32) then
        let n := code_of op - code_of PUSH1 + 1 in
        Some (Ok (mkMachine (pc m + 1 + n) (constant (pc m) n :: items m) (memory m)))
      else if (code_of DUP1 <=? code_of op) && (code_of op <=? code_of DUP16) then
        next (nth (Z.to_nat (code_of op - code_of DUP1)) (items m) 0 :: items m)
      else if (code_of SWAP1 <=? code_of op) && (code_of op <=? code_of SWAP16) then
        let n := Z.to_nat (code_of op - code_of SWAP1 + 1) in
        next (<[n := nth 0 (items m) 0]> (<[0%nat := nth n (items m) 0]> (items m)))
      else
        match op, items m with
        | POP, _ :: r => next r
        | JUMP, d :: r => Some (jump m d r)
        | JUMPI, d :: c :: r => if c =? 0 then next r else Some (jump m d r)
        | JUMPDEST, it => next it
        | PC, it => next (pc m :: it)
        | MSIZE, it => next (zlen (memory m) :: it)
        | MLOAD, a :: r =>
            if a <? 2 ^ 32 then
              let mem := grow (a + 32) (memory m) in
              Some (Ok (mkMachine (pc m + 1) (be_val (take 32 (drop (Z.to_nat a) mem)) :: r) mem))
            else None
        | MSTORE, a :: v :: r =>
            if a <? 2 ^ 32 then Some (Ok (mkMachine (pc m + 1) r (store a (toBigEndian 32 v) (grow (a + 32) (memory m))))) else None
        | MSTORE8, a :: v :: r =>
            if a <? 2 ^ 32 then Some (Ok (mkMachine (pc m + 1) r (store a [byte_of v] (grow (a + 1) (memory m))))) else None
        | INVALID, _ => Some (Throw BadInstructionException)
        | _, _ => None
        end
  end.

Definition spec_step (m : Machine) : option (result Machine) :=
  match decode (program_op x (pc m)) with
  | None => Some (Throw BadInstructionException)
  | Some op =>
      let n := zlen (items m) in
      if (n <? i_args (instructionInfos op)) || (1024 <? n - i_args (instructionInfos op) + i_ret (instructionInfos op))
      then Some (Throw BadStackException) else spec_op op m
  end.
End Steps.

(** ** The words of the machine compute the meaning *)

(** The functions of [VM::interpret], as in [Word256]. *)
Definition computed (op : Instruction) : option Alu :=
  match op with
  | ADD => Some (Fun2 (fun a b => u256 (a + b)))
  | MUL => Some (Fun2 (fun a b => u256 (a * b)))
  | SUB => Some (Fun2 (fun a b => u256 (a - b)))
  | DIV => Some (Fun2 op_div)
  | MOD => Some (Fun2 op_mod)
  | SDIV => Some (Fun2 op_sdiv)
  | SMOD => Some (Fun2 op_smod)
  | EXP => Some (Fun2 exp256)
  | NOT => Some (Fun1 op_not)
  | LT => Some (Fun2 (fun a b => bool_word (a <? b)))
  | GT => Some (Fun2 (fun a b => bool_word (b <? a)))
  | SLT => Some (Fun2 (fun a b => bool_word (u2s a <? u2s b)))
  | SGT => Some (Fun2 (fun a b => bool_word (u2s b <? u2s a)))
  | EQ => Some (Fun2 (fun a b => bool_word (a =? b)))
  | ISZERO => Some (Fun1 (fun a => bool_word (a =? 0)))
  | AND => Some (Fun2 Z.land)
  | OR => Some (Fun2 Z.lor)
  | XOR => Some (Fun2 Z.lxor)
  | BYTE => Some (Fun2 op_byte)
  | ADDMOD => Some (Fun3 op_addmod)
  | MULMOD => Some (Fun3 op_mulmod)
  | SIGNEXTEND => Some (Fun2 op_signextend)
  | SHL => Some (Fun2 op_shl)
  | SHR => Some (Fun2 op_shr)
  | SAR => Some (Fun2 op_sar)
  | _ => None
  end.

Lemma op_div_meaning a b : is_u256 a -> is_u256 b -> op_div a b = if b =? 0 then 0 else a / b.
Proof.
  intros Ha Hb. unfold op_div, divWorkaround. destruct (Z.eqb_spec b 0); [done|]. unfold is_u256 in *. rewrite Z.quot_div_nonneg by lia.
  apply u256_small. unfold is_u256. split; [apply Z.div_pos; lia|]. apply Z.div_lt_upper_bound; nia.
Qed.
Lemma op_mod_meaning a b : is_u256 a -> is_u256 b -> op_mod a b = if b =? 0 then 0 else a mod b.
Proof.
  intros Ha Hb. unfold op_mod, modWorkaround. destruct (Z.eqb_spec b 0); [done|]. unfold is_u256 in *. rewrite Z.rem_mod_nonneg by lia.
  apply u256_small. unfold is_u256. pose proof (Z.mod_pos_bound a b ltac:(lia)). lia.
Qed.
Lemma op_not_meaning a : is_u256 a -> op_not a = 2 ^ 256 - 1 - a.
Proof.
  intros Ha. unfold op_not, u256, is_u256 in *. replace (Z.lnot a) with (2 ^ 256 - 1 - a + (-1) * 2 ^ 256) by (unfold Z.lnot; lia).
  rewrite Z.mod_add by lia. apply Z.mod_small. lia.
Qed.
Lemma wide_mod v c : 0 <= v < 2 ^ 512 -> is_u256 c -> c <> 0 -> u256 (v mod 2 ^ 512 mod c) = v mod c.
Proof.
  intros Hv Hc Hn. rewrite (Z.mod_small v) by done. apply u256_small. unfold is_u256 in *. pose proof (Z.mod_pos_bound v c ltac:(lia)). lia.
Qed.
Lemma op_addmod_meaning a b c : is_u256 a -> is_u256 b -> is_u256 c -> op_addmod a b c = if c =? 0 then 0 else (a + b) mod c.
Proof.
  intros Ha Hb Hc. unfold op_addmod. destruct (Z.eqb_spec c 0); [done|]. apply wide_mod; [|done|done]. unfold is_u256 in *. lia.
Qed.
Lemma op_mulmod_meaning a b c : is_u256 a -> is_u256 b -> is_u256 c -> op_mulmod a b c = if c =? 0 then 0 else (a * b) mod c.
Proof.
  intros Ha Hb Hc. unfold op_mulmod. destruct (Z.eqb_spec c 0); [done|]. apply wide_mod; [|done|done]. unfold is_u256 in *.
  change (2 ^ 512) with (2 ^ 256 * 2 ^ 256). nia.
Qed.
Lemma op_shl_meaning a b : is_u256 a -> op_shl a b = (b * 2 ^ a) mod 2 ^ 256.
Proof.
  intros [Ha _]. unfold op_shl. destruct (Z.leb_spec 256 a); [|by rewrite Z.shiftl_mul_pow2].
  replace a with (a - 256 + 256) by lia. rewrite Z.pow_add_r, Z.mul_assoc by lia. by rewrite Z.mod_mul by lia.
Qed.
Lemma op_shr_meaning a b : is_u256 a -> is_u256 b -> op_shr a b = b / 2 ^ a.
Proof.
  intros [Ha _] Hb. unfold op_shr. destruct (Z.leb_spec 256 a); [|by rewrite Z.shiftr_div_pow2]. rewrite Z.div_small; [done|].
  pose proof (Z.pow_le_mono_r 2 256 a ltac:(lia) ltac:(lia)). unfold is_u256 in *. lia.
Qed.

(** On words, what is computed is what is meant. *)
Lemma computed_meaning op f it it' : meaning op = Some f -> Forall is_u256 it -> alu_run f it = Some it' ->
  exists g, computed op = Some g /\ alu_run g it = Some it'.
Proof.
  intros Hm Hw Hr. destruct op; cbn [meaning] in Hm; try discriminate Hm; apply (inj Some) in Hm as <-; cbn [computed]; eexists; (split; [reflexivity|]);
    (destruct it as [|a [|b [|c r]]]; cbn [alu_run] in Hr |- *; try discriminate Hr; apply (inj Some) in Hr as <-);
    (assert (is_u256 a) by (by inversion Hw)); try (assert (is_u256 b) by (by do 2 (apply Forall_cons in Hw as [? Hw])));
    try (assert (is_u256 c) by (by do 3 (apply Forall_cons in Hw as [? Hw]))); do 2 f_equal; try reflexivity.
  all: try first [by apply op_div_meaning | by apply op_mod_meaning | by apply op_not_meaning | by apply op_addmod_meaning
    | by apply op_mulmod_meaning | by apply op_shl_meaning | by apply op_shr_meaning | by apply exp256_spec | by rewrite !u2s_signed].
  all: unfold is_u256 in *; try (destruct (Z.eqb_spec b 0) as [-> |]; [done|]; first [by apply op_sdiv_spec|by apply op_smod_spec]).
  all: try (rewrite op_sar_spec by (done || lia); by rewrite Z.shiftr_div_pow2 by lia).
  all: try (apply op_byte_spec; done || lia).
  all: destruct (Z.ltb_spec a 31); [apply op_signextend_spec; done || lia|unfold op_signextend; by rewrite (proj2 (Z.ltb_ge _ _)) by lia].
Qed.

(** ** The machine refines its meaning *)

Section Refinement.
Context {E : Type} (ext : VMInterface E) (x : ExtData) (schedule : option VMSchedule).
Abbreviation VM := (@VM E).
Abbreviation size := (zlen (x_code x)).
Abbreviation run op := (dispatch ext x None schedule (Some op)).
Abbreviation shifting := (haveBitwiseShifting <$> schedule).
Hypothesis Hsize : size < 2 ^ 62.

(** The items are the part of the array from the top on. *)
Definition abs (s : VM) : Machine := mkMachine (m_PC s) (drop (Z.to_nat (m_SPP s)) (m_stack s)) (m_memory s).

(** The items that the current instruction found. *)
Definition found (s : VM) : list Z := drop (Z.to_nat (m_SP s)) (m_stack s).

Definition reaches (m : ST VM Control) (s : VM) (M : Machine) : Prop := exists c s', m s = (Ok c, s') /\ abs s' = M.
Definition fails (m : ST VM Control) (s : VM) (e : exn) : Prop := exists s', m s = (Throw e, s').

Lemma reaches_bind {A} (m : ST VM A) f s a s1 M : m s = (Ok a, s1) -> reaches (f a) s1 M -> reaches (m ≫= f) s M.
Proof. intros Hm (c & s' & Hf & Ha). exists c, s'. split; [|done]. unfold mbind, ST_bind. by rewrite Hm. Qed.

Lemma SP_found a r k i s : in_op x a r k s -> 0 <= i < a -> SP i s = (Ok (nth (Z.to_nat i) (found s) 0), s).
Proof.
  intros Hs Hi. destruct (SP_arg x a r k i s Hs Hi) as [-> _]. pose proof (io_sp _ _ _ _ _ Hs). unfold arg, found. rewrite !nth_lookup, lookup_drop.
  do 4 f_equal. lia.
Qed.

Lemma found_words a r k s : in_op x a r k s -> Forall is_u256 (found s).
Proof. intros Hs. apply Forall_drop, (ok_words _ _ (io_ok _ _ _ _ _ Hs)). Qed.

Lemma drop_insert_top (l : list Z) k v : (k < length l)%nat -> drop k (<[k := v]> l) = v :: drop (S k) l.
Proof. revert l. induction k as [|k IH]; intros [|b l] Hk; cbn in *; try lia; [done|]. apply IH. lia. Qed.

(** The end of an instruction that leaves [v]. *)
Lemma put_next a r k s v : in_op x a r k s -> 1 <= r <= a + 1 ->
  reaches (_ ← set_SPP v; NEXT) s (mkMachine (m_PC s + 1) (v :: drop (Z.to_nat (a - r + 1)) (found s)) (m_memory s)).
Proof.
  intros [Hok Hsp Hspp Hpc _] Hr. pose proof (ok_stack x s Hok) as Hl. pose proof (ok_spp x s Hok) as Hs. pose proof (ok_pc x s Hok).
  eapply reaches_bind.
  { unfold set_SPP, set_stack. unfold zlen. rewrite Hl, (proj2 (Z.ltb_ge _ _)), (proj2 (Z.leb_gt _ _)) by lia. reflexivity. }
  eexists _, _. split; [reflexivity|]. unfold abs. cbn [m_PC with_PC m_SPP m_stack m_memory with_stack]. rewrite u64_small by (unfold is_u64; lia).
  rewrite drop_insert_top by lia. unfold found. rewrite drop_drop. do 3 f_equal. lia.
Qed.

Lemma next_drop a k s : 0 <= a -> in_op x a 0 k s -> reaches NEXT s (mkMachine (m_PC s + 1) (drop (Z.to_nat a) (found s)) (m_memory s)).
Proof.
  intros Ha [Hok Hsp Hspp Hpc _]. pose proof (ok_pc x s Hok). pose proof (ok_spp x s Hok). eexists _, _. split; [reflexivity|]. unfold abs.
  cbn [m_PC with_PC m_SPP m_stack m_memory]. rewrite u64_small by (unfold is_u64; lia). unfold found. rewrite drop_drop. do 2 f_equal. lia.
Qed.

Lemma unary_reaches s f a r : in_op x 1 1 0 s -> found s = a :: r ->
  reaches (unary None f) s (mkMachine (m_PC s + 1) (f a :: r) (m_memory s)).
Proof.
  intros Hs Hf. unfold unary. eapply reaches_bind; [reflexivity|]. eapply reaches_bind; [by apply (SP_found 1 1 0 0)|].
  pose proof (put_next 1 1 0 s (f a) Hs ltac:(lia)) as H. rewrite Hf in *. exact H.
Qed.
Lemma binary_reaches s f a b r : in_op x 2 1 0 s -> found s = a :: b :: r ->
  reaches (binary None f) s (mkMachine (m_PC s + 1) (f a b :: r) (m_memory s)).
Proof.
  intros Hs Hf. unfold binary. eapply reaches_bind; [reflexivity|]. eapply reaches_bind; [by apply (SP_found 2 1 0 0)|].
  eapply reaches_bind; [by apply (SP_found 2 1 0 1)|]. pose proof (put_next 2 1 0 s (f a b) Hs ltac:(lia)) as H. rewrite Hf in *. exact H.
Qed.
Lemma ternary_reaches s f a b c r : in_op x 3 1 0 s -> found s = a :: b :: c :: r ->
  reaches (ternary None f) s (mkMachine (m_PC s + 1) (f a b c :: r) (m_memory s)).
Proof.
  intros Hs Hf. unfold ternary. eapply reaches_bind; [reflexivity|]. eapply reaches_bind; [by apply (SP_found 3 1 0 0)|].
  eapply reaches_bind; [by apply (SP_found 3 1 0 1)|]. eapply reaches_bind; [by apply (SP_found 3 1 0 2)|].
  pose proof (put_next 3 1 0 s (f a b c) Hs ltac:(lia)) as H. rewrite Hf in *. exact H.
Qed.
Lemma push_value_reaches s v l : in_op x 0 1 0 s -> found s = l ->
  reaches (push_value None (vm_read v)) s (mkMachine (m_PC s + 1) (v s :: l) (m_memory s)).
Proof.
  intros Hs <-. unfold push_value. eapply reaches_bind; [reflexivity|]. eapply reaches_bind; [reflexivity|].
  apply (put_next 0 1 0 s (v s) Hs). lia.
Qed.

Lemma sdiv_reaches s a b r : in_op x 2 1 0 s -> found s = a :: b :: r ->
  reaches (run SDIV) s (mkMachine (m_PC s + 1) (op_sdiv a b :: r) (m_memory s)).
Proof.
  intros Hs Hf. destruct (binary_reaches s op_sdiv a b r Hs Hf) as (c & s' & H & <-). cbn [dispatch do_arithmetic].
  apply bind_ok in H as (u & s1 & H1 & H). apply bind_ok in H as (v & s2 & H2 & H). apply bind_ok in H as (w & s3 & H3 & H).
  apply bind_ok in H as (q & s4 & H4 & [= _ <-]).
  do 4 (eapply reaches_bind; [eassumption|]). eapply reaches_bind; [reflexivity|]. eexists _, _. split; reflexivity.
Qed.

Lemma signextend_reaches s a b r : in_op x 2 1 0 s -> found s = a :: b :: r ->
  reaches (run SIGNEXTEND) s (mkMachine (m_PC s + 1) (op_signextend a b :: r) (m_memory s)).
Proof.
  intros Hs Hf. destruct (binary_reaches s op_signextend a b r Hs Hf) as (c & s' & H & <-). cbn [dispatch do_modular].
  apply bind_ok in H as (u & s1 & H1 & H). injection H1 as _ <-. apply bind_ok in H as (v & s2 & H2 & H). apply bind_ok in H as (w & s3 & H3 & H).
  eapply reaches_bind; [reflexivity|]. eapply reaches_bind; [eassumption|]. eapply reaches_bind; [eassumption|].
  apply SP_state in H2 as ->. apply SP_state in H3 as ->. exists c, s'. split; [|done]. rewrite <- H. unfold mbind, ST_bind, set_SP, set_SPP.
  pose proof (io_spp _ _ _ _ _ Hs). do 2 f_equal. by replace (m_SP s + 1) with (m_SPP s) by lia.
Qed.

Abbreviation op_pre op := (in_op x (i_args (instructionInfos op)) (i_ret (instructionInfos op)) 0).

Lemma flag_allowed (s : VM) : allowed shifting = true -> flag schedule haveBitwiseShifting s = (Ok true, s).
Proof. unfold flag. destruct schedule as [sc|]; cbn; [by intros ->|done]. Qed.

Lemma computed_reaches op g s it : computed op = Some g -> op_pre op s -> (op ∈ [SHL; SHR; SAR] -> allowed shifting = true) ->
  alu_run g (found s) = Some it -> reaches (run op) s (mkMachine (m_PC s + 1) it (m_memory s)).
Proof.
  intros Hc Hs Hsh Hr. destruct op; cbn [computed] in Hc; try discriminate Hc; apply (inj Some) in Hc as <-; cbn [instructionInfos i_args i_ret] in Hs;
    (destruct (found s) as [|a [|b [|c r]]] eqn:Hf; cbn [alu_run] in Hr; try discriminate Hr; apply (inj Some) in Hr as <-).
  all: try match goal with |- reaches (run SDIV) _ _ => by apply sdiv_reaches | |- reaches (run SIGNEXTEND) _ _ => by apply signextend_reaches end.
  all: try first [exact (unary_reaches s _ a _ Hs Hf) | exact (binary_reaches s _ a b _ Hs Hf) | exact (ternary_reaches s _ a b c _ Hs Hf)].
  all: cbn [dispatch]; unfold do_shift; (eapply (reaches_bind _ _ s true s); [by apply flag_allowed, Hsh; set_solver|]);
    (eapply reaches_bind; [reflexivity|]); by apply binary_reaches.
Qed.

Lemma shift_fails op s : op ∈ [SHL; SHR; SAR] -> allowed shifting = false -> fails (run op) s (shift_error shifting).
Proof.
  intros Hop Hsh. eexists. repeat (apply elem_of_cons in Hop as [-> |Hop]); [..|by apply not_elem_of_nil in Hop];
    cbn [dispatch]; unfold do_shift, flag, mbind, ST_bind; destruct schedule as [sc|]; cbn in *; rewrite ?Hsh; reflexivity.
Qed.

(** The bytes behind a PUSH are those of the program. *)
Lemma push_bytes (s : VM) op j : vm_ok x s -> instruction_start (x_code x) (m_PC s) -> m_PC s < size -> op_at (x_code x) (m_PC s) = code_of op ->
  code_of PUSH1 <= code_of op <= code_of PUSH32 -> 0 <= j < code_of op - code_of PUSH1 + 1 ->
  m_code s !! Z.to_nat (m_PC s + 1 + j) = Some (nth (Z.to_nat (m_PC s + 1) + Z.to_nat j) (x_code x) Byte.x00).
Proof.
  intros Hok Hst Hlt Ho Hop Hj. pose proof (ok_pc x s Hok). assert (op_size (code_of op) = code_of op - code_of PUSH1 + 2) as Hsz.
  { unfold op_size. by rewrite (proj2 (Z.leb_le _ _)), (proj2 (Z.leb_le _ _)) by lia. }
  change (code_of PUSH1) with 96 in *. change (code_of PUSH32) with 127 in *. rewrite (prepared_byte x s) by (done || lia). rewrite decide_False.
  - do 2 f_equal. lia.
  - intros [[Hp _] _]. pose proof (starts_apart _ _ _ Hp Hst ltac:(lia)) as Ha. rewrite Ho in Ha. lia.
Qed.

Lemma shift_in v b : 0 <= v -> v * 256 < 2 ^ 256 -> 0 <= b < 256 -> Z.lor (u256 (Z.shiftl v 8)) b = v * 256 + b.
Proof.
  intros Hv Hlt Hb. rewrite u256_small; [by apply lor_shift_byte|]. rewrite Z.shiftl_mul_pow2 by lia. unfold is_u256. lia.
Qed.

(** The loop of PUSH, from a top of [v], with the bytes [bs] ahead. *)
Lemma push_loop_reaches bs (s : VM) v : length (m_stack s) = 1024%nat -> 0 <= m_SPP s < 1024 -> 0 <= m_PC s -> m_PC s + zlen bs < 2 ^ 64 ->
  m_stack s !! Z.to_nat (m_SPP s) = Some v -> 0 <= v -> v * 256 ^ zlen bs + be_val bs < 2 ^ 256 ->
  (forall j b, bs !! j = Some b -> m_code s !! Z.to_nat (m_PC s + Z.of_nat j) = Some b) ->
  push_loop (length bs) s =
  (Ok tt, with_PC (m_PC s + zlen bs) (with_stack (<[Z.to_nat (m_SPP s) := v * 256 ^ zlen bs + be_val bs]> (m_stack s)) s)).
Proof.
  revert s v. induction bs as [|b bs IH]; intros s v Hl Hspp Hpc Hend Htop Hv Hmax Hb.
  { cbn. rewrite Z.mul_1_r, !Z.add_0_r, list_insert_id by done. by destruct s. }
  cbn [length push_loop]. unfold st_get. unfold mbind at 1, ST_bind at 1. pose proof (Hb 0%nat b eq_refl) as H0. rewrite Z.add_0_r in H0.
  unfold code_at. unfold mbind at 1, ST_bind at 1. rewrite H0, Htop. unfold mbind at 1, ST_bind at 1. cbn [mret ST_ret].
  rewrite zlen_cons in *. cbn [be_val] in *. pose proof (zlen_nonneg bs). pose proof (be_val_range bs). pose proof (bval_range b).
  rewrite (Z.pow_add_r 256 1) in * by lia. change (256 ^ 1) with 256 in *. pose proof (Z.pow_pos_nonneg 256 (zlen bs) ltac:(lia) ltac:(lia)).
  rewrite shift_in by nia. set (t := with_PC (m_PC s + 1) (with_stack (<[Z.to_nat (m_SPP s) := v * 256 + bval b]> (m_stack s)) s)).
  unfold mbind at 1, ST_bind at 1. unfold set_SPP, set_stack. unfold zlen at 1. rewrite Hl, (proj2 (Z.ltb_ge _ _)), (proj2 (Z.leb_gt _ _)) by lia. cbn [orb].
  unfold mbind at 1, ST_bind at 1, vm_set, st_modify. cbn [m_PC with_stack]. rewrite u64_small by (unfold is_u64; lia). fold t.
  rewrite (IH t (v * 256 + bval b)).
  - unfold t. cbn [m_PC with_PC m_SPP with_stack m_stack]. rewrite list_insert_insert_eq. f_equal.
    replace ((v * 256 + bval b) * 256 ^ zlen bs + be_val bs) with (v * (256 * 256 ^ zlen bs) + (bval b * 256 ^ zlen bs + be_val bs)) by lia.
    by replace (m_PC s + 1 + zlen bs) with (m_PC s + (1 + zlen bs)) by lia.
  - cbn. by rewrite length_insert.
  - done.
  - cbn. lia.
  - cbn. lia.
  - cbn. rewrite list_lookup_insert_eq by (rewrite Hl; lia). done.
  - nia.
  - nia.
  - intros j b' Hj. cbn. specialize (Hb (S j) b' Hj). rewrite <- Hb. do 2 f_equal. lia.
Qed.

(** The bytes of the constant of a PUSH. *)
Definition constant_bytes (p n : Z) : bytes := map (fun j => nth (Z.to_nat (p + 1) + j) (x_code x) Byte.x00) (seq 0 (Z.to_nat n)).

Lemma zlen_constant_bytes p n : 0 <= n -> zlen (constant_bytes p n) = n.
Proof. intros Hn. unfold zlen, constant_bytes. rewrite length_map, length_seq. lia. Qed.

Lemma constant_bytes_lookup p n j b : constant_bytes p n !! j = Some b ->
  (j < Z.to_nat n)%nat /\ b = nth (Z.to_nat (p + 1) + j) (x_code x) Byte.x00.
Proof.
  unfold constant_bytes. intros H. change (map ?f ?l) with (f <$> l) in H. apply list_lookup_fmap_Some in H as (k & -> & Hk).
  apply lookup_seq in Hk as [-> Hk]. done.
Qed.

(** The state in which the loop of PUSH starts: a zero on top. *)
Lemma push_ready (s : VM) op : in_op x 0 1 0 s -> instruction_start (x_code x) (m_PC s) -> op_at (x_code x) (m_PC s) = code_of op ->
  code_of PUSH1 <= code_of op <= code_of PUSH32 ->
  let n := code_of op - code_of PUSH1 + 1 in
  let t := with_PC (m_PC s + 1) (with_stack (<[Z.to_nat (m_SPP s) := 0]> (m_stack s)) s) in
  (_ ← set_SPP 0; vm_set (fun s => with_PC (u64 (m_PC s + 1)) s)) s = (Ok tt, t) /\
  push_loop (Z.to_nat n) t =
  (Ok tt, with_PC (m_PC s + 1 + n) (with_stack (<[Z.to_nat (m_SPP s) := constant x (m_PC s) n]> (m_stack s)) s)).
Proof.
  intros [Hok Hsp Hspp Hpc _] Hst Ho Hop. cbv zeta. set (n := code_of op - code_of PUSH1 + 1). pose proof (ok_stack x s Hok) as Hl. pose proof (ok_spp x s Hok). pose proof (ok_pc x s Hok).
  assert (1 <= n <= 32) as Hn by (unfold n; change (code_of PUSH1) with 96 in *; change (code_of PUSH32) with 127 in *; lia). split.
  - unfold mbind, ST_bind, set_SPP, set_stack, vm_set, st_modify. unfold zlen. rewrite Hl, (proj2 (Z.ltb_ge _ _)), (proj2 (Z.leb_gt _ _)) by lia.
    cbn [orb m_PC with_stack]. by rewrite u64_small by (unfold is_u64; lia).
  - pose proof (zlen_constant_bytes (m_PC s) n ltac:(lia)) as Hz. pose proof (be_val_range (constant_bytes (m_PC s) n)) as Hr. rewrite Hz in Hr.
    replace (Z.to_nat n) with (length (constant_bytes (m_PC s) n)) by (unfold zlen in Hz; lia).
    pose proof (Z.pow_le_mono_r 256 n 32 ltac:(lia) ltac:(lia)) as Hp. change (256 ^ 32) with (2 ^ 256) in Hp. rewrite (push_loop_reaches _ _ 0).
    + cbn [m_PC with_PC m_SPP m_stack with_stack]. rewrite Hz, list_insert_insert_eq. done.
    + cbn. by rewrite length_insert.
    + cbn. lia.
    + cbn. lia.
    + cbn. lia.
    + cbn. rewrite list_lookup_insert_eq by lia. done.
    + lia.
    + lia.
    + intros j b Hj. apply constant_bytes_lookup in Hj as [Hj ->]. cbn [m_code m_PC with_PC with_stack].
      rewrite (push_bytes s op (Z.of_nat j)) by (done || lia). by rewrite Nat2Z.id.
Qed.

Lemma push_reaches (s : VM) op : in_op x 0 1 0 s -> instruction_start (x_code x) (m_PC s) -> op_at (x_code x) (m_PC s) = code_of op ->
  code_of PUSH1 <= code_of op <= code_of PUSH32 ->
  let n := code_of op - code_of PUSH1 + 1 in
  reaches (run op) s (mkMachine (m_PC s + 1 + n) (constant x (m_PC s) n :: found s) (m_memory s)).
Proof.
  intros Hs Hst Ho Hop. cbv zeta. destruct (push_ready s op Hs Hst Ho Hop) as [H1 H2]. cbv zeta in H1, H2. set (n := code_of op - code_of PUSH1 + 1) in *.
  destruct Hs as [Hok Hsp Hspp Hpc _]. pose proof (ok_stack x s Hok) as Hl. pose proof (ok_spp x s Hok). pose proof (ok_pc x s Hok).
  assert (abs (with_PC (m_PC s + 1 + n) (with_stack (<[Z.to_nat (m_SPP s) := constant x (m_PC s) n]> (m_stack s)) s)) =
    mkMachine (m_PC s + 1 + n) (constant x (m_PC s) n :: found s) (m_memory s)) as <-.
  { unfold abs. cbn [m_PC with_PC m_SPP m_stack with_stack m_memory]. rewrite drop_insert_top by lia. unfold found. do 3 f_equal. lia. }
  apply bind_ok in H1 as ([] & s1 & H1 & H1').
  assert (run op = do_push None op) as -> by (destruct op; cbn in Hop; reflexivity || lia).
  destruct (decide (op = PUSH1)) as [-> |Hne].
  - pose proof (push_bytes s PUSH1 0 Hok Hst Hpc Ho ltac:(lia) ltac:(cbn; lia)) as Hb. rewrite Z.add_0_r in Hb.
    assert (constant x (m_PC s) n = bval (nth (Z.to_nat (m_PC s + 1)) (x_code x) Byte.x00)) as ->.
    { unfold constant, n. change (Z.to_nat (code_of PUSH1 - code_of PUSH1 + 1)) with 1%nat. cbn [seq map be_val]. rewrite Nat.add_0_r, zlen_nil. cbn. lia. }
    assert (u64 (m_PC s + 1) = m_PC s + 1) as Hu by (apply u64_small; unfold is_u64; lia). change (Z.to_nat 0) with 0%nat in Hb. rewrite Nat.add_0_r in Hb.
    unfold do_push. do 3 (eapply reaches_bind; [reflexivity|]).
    eapply reaches_bind; [unfold code_at; cbn [m_code m_PC with_PC]; rewrite Hu, Hb; reflexivity|].
    eapply reaches_bind.
    { unfold set_SPP, set_stack. cbn [m_stack m_SPP with_PC]. unfold zlen. rewrite Hl, (proj2 (Z.ltb_ge _ _)), (proj2 (Z.leb_gt _ _)) by lia. reflexivity. }
    eexists _, _. split; [reflexivity|]. unfold abs. cbn [m_PC with_PC m_SPP m_stack with_stack m_memory].
    rewrite u64_small by (unfold is_u64; lia). done.
  - assert (do_push (E := E) None op = (_ ← onOperation None; _ ← set_SPP 0; _ ← vm_set (fun s => with_PC (u64 (m_PC s + 1)) s);
      _ ← push_loop (Z.to_nat n); mret Continue)) as -> by (destruct op; try reflexivity; [cbn in Hop; lia|done]).
    eapply reaches_bind; [reflexivity|]. eapply reaches_bind; [exact H1|]. eapply reaches_bind; [exact H1'|]. eapply reaches_bind; [exact H2|].
    by eexists _, _.
Qed.

Lemma dup_reaches s op : op_pre op s -> 0 <= code_of op - code_of DUP1 < i_args (instructionInfos op) -> i_ret (instructionInfos op) = i_args (instructionInfos op) + 1 ->
  reaches (do_dup None op) s (mkMachine (m_PC s + 1) (nth (Z.to_nat (code_of op - code_of DUP1)) (found s) 0 :: found s) (m_memory s)).
Proof.
  intros Hs Hn Hr. unfold do_dup. eapply reaches_bind; [reflexivity|]. eapply reaches_bind; [by eapply SP_found|].
  epose proof (put_next _ _ 0 s _ Hs ltac:(lia)) as H. rewrite Hr in H at 1. match type of H with context [Z.to_nat ?z] => replace z with 0 in H by lia end. exact H.
Qed.

Lemma swap_reaches s op : op_pre op s -> 1 <= code_of op - code_of SWAP1 + 1 < i_args (instructionInfos op) ->
  i_ret (instructionInfos op) = i_args (instructionInfos op) ->
  let n := Z.to_nat (code_of op - code_of SWAP1 + 1) in
  reaches (do_swap None op) s
    (mkMachine (m_PC s + 1) (<[n := nth 0 (found s) 0]> (<[0%nat := nth n (found s) 0]> (found s))) (m_memory s)).
Proof.
  intros Hs Hn Hr n. unfold do_swap. cbv zeta. eapply reaches_bind; [reflexivity|]. eapply reaches_bind; [eapply SP_found; [exact Hs|lia]|].
  eapply reaches_bind; [eapply SP_found; [exact Hs|lia]|]. destruct Hs as [Hok Hsp Hspp Hpc _]. pose proof (ok_stack x s Hok) as Hl. pose proof (ok_pc x s Hok).
  eapply reaches_bind.
  { unfold set_SP, set_stack. unfold zlen. rewrite Hl, (proj2 (Z.ltb_ge _ _)), (proj2 (Z.leb_gt _ _)) by lia. reflexivity. }
  eapply reaches_bind.
  { unfold set_SP, set_stack. cbn [m_SP with_stack m_stack]. unfold zlen. rewrite length_insert, Hl, (proj2 (Z.ltb_ge _ _)), (proj2 (Z.leb_gt _ _)) by lia. reflexivity. }
  eexists _, _. split; [reflexivity|]. unfold abs. cbn [m_PC with_PC m_SPP m_stack with_stack m_memory]. rewrite u64_small by (unfold is_u64; lia). f_equal.
  replace (m_SPP s) with (m_SP s) by lia. rewrite !drop_insert_ge by lia. unfold found, n. do 2 f_equal; [lia|f_equal; lia].
Qed.

Lemma pop_reaches s : in_op x 1 0 0 s -> reaches (run POP) s (mkMachine (m_PC s + 1) (drop 1 (found s)) (m_memory s)).
Proof. intros Hs. destruct (next_drop 1 0 s ltac:(lia) Hs) as (c & s' & [= _ <-] & H). eexists _, _. split; [reflexivity|exact H]. Qed.

(** A jump from an instruction that takes [a] items. *)
Lemma jump_reaches s a d : in_op x a 0 0 s -> 1 <= a -> nth 0 (found s) 0 = d ->
  let m : ST VM Control := sp0 ← SP 0; p ← verifyJumpDest sp0; _ ← vm_set (with_PC p); mret Continue in
  if decide (jump_dest (x_code x) d) then reaches m s (mkMachine d (drop (Z.to_nat a) (found s)) (m_memory s)) else fails m s BadJumpException.
Proof.
  intros Hs Ha Hd. cbv zeta. pose proof (SP_found a 0 0 0 s Hs ltac:(lia)) as H0. change (Z.to_nat 0) with 0%nat in H0. rewrite Hd in H0.
  destruct Hs as [Hok Hsp Hspp Hpc _]. pose proof (ok_spp x s Hok). pose proof (binary_search_dests (x_code x) d) as Hb.
  destruct (decide _) as [Hj|Hj].
  - eapply reaches_bind; [exact H0|]. eapply reaches_bind.
    { unfold verifyJumpDest, mbind, ST_bind, vm_read. rewrite (ok_dests x s Hok). unfold prepared. rewrite (proj2 Hb Hj).
      pose proof (jump_dest_range _ _ Hj). rewrite (proj2 (Z.leb_le _ _)) by lia. reflexivity. }
    eexists _, _. split; [reflexivity|]. unfold abs. cbn [m_PC with_PC m_SPP m_stack with_stack m_memory]. unfold found. rewrite drop_drop. do 2 f_equal. lia.
  - exists s. unfold mbind at 1, ST_bind at 1. rewrite H0. unfold mbind at 1, ST_bind at 1, verifyJumpDest, mbind at 1, ST_bind at 1, vm_read.
    rewrite (ok_dests x s Hok). unfold prepared. destruct (binary_search _ d); [by destruct Hj; apply Hb|]. by rewrite andb_false_r.
Qed.

(** ** Memory *)

Lemma zlen_grow n mem : 0 <= n -> n <= zlen (grow n mem) /\ zlen mem <= zlen (grow n mem).
Proof.
  intros Hn. unfold grow. rewrite zlen_app. unfold zlen. rewrite length_replicate. pose proof (Z.div_mod (n + 31) 32 ltac:(lia)).
  pose proof (Z.mod_pos_bound (n + 31) 32 ltac:(lia)). lia.
Qed.

Lemma updateMem_grow n (s : VM) : 0 <= n < 2 ^ 33 ->
  exists s', updateMem n s = (Ok tt, s') /\ s' = with_memory (grow n (m_memory s)) (with_newMemSize (m_newMemSize s') s).
Proof.
  intros Hn. unfold updateMem, mbind, ST_bind, vm_set, st_modify, vm_read. rewrite u64_small by (unfold is_u64; lia). set (sz := (n + 31) / 32 * 32).
  assert (0 <= sz < 2 ^ 34) as Hsz. { unfold sz. pose proof (Z.div_mod (n + 31) 32 ltac:(lia)). pose proof (Z.mod_pos_bound (n + 31) 32 ltac:(lia)). lia. }
  cbn [m_memory with_newMemSize]. destruct (Z.ltb_spec (zlen (m_memory s)) sz).
  - unfold resize. rewrite (proj2 (Z.ltb_ge _ _)) by lia. cbn [m_memory with_newMemSize]. eexists. split; [reflexivity|].
    cbn [m_newMemSize with_memory with_newMemSize]. f_equal. unfold grow. fold sz. rewrite take_ge; [done|]. unfold zlen in *. lia.
  - eexists. split; [reflexivity|]. cbn [m_newMemSize with_newMemSize]. unfold grow. fold sz. replace (Z.to_nat (sz - zlen (m_memory s))) with 0%nat by lia.
    rewrite app_nil_r. by destruct s.
Qed.

(** The offset of a memory instruction, when it has 32 bits: the memory grows
    and the rest runs on a state that differs in the memory only. *)
Lemma room_reaches s a r off more (f : ST VM Control) M : in_op x a r 0 s -> 0 <= off < 2 ^ 32 -> 0 <= more <= 32 ->
  (forall t, in_op x a r (off + more) t -> found t = found s -> m_PC t = m_PC s -> m_memory t = grow (off + more) (m_memory s) -> reaches f t M) ->
  reaches (o ← toInt63 off; _ ← updateMem (o + more); f) s M.
Proof.
  intros Hs Ho Hm Hf. eapply reaches_bind.
  { unfold toInt63, mbind, ST_bind, throw_when, st_throw_if, throw_if. rewrite (proj2 (Z.ltb_ge _ _)) by lia. reflexivity. }
  destruct (updateMem_grow (off + more) s ltac:(lia)) as (s' & Hu & He). eapply reaches_bind; [exact Hu|].
  pose proof (h_updateMem x a r 0 (off + more) ltac:(lia) s Hs) as Hi. rewrite Hu in Hi. rewrite Z.max_r in Hi by lia.
  apply Hf; [exact Hi|by rewrite He..].
Qed.

Lemma mload_reaches s a r : in_op x 1 1 0 s -> found s = a :: r -> a < 2 ^ 32 ->
  reaches (run MLOAD) s (mkMachine (m_PC s + 1) (be_val (take 32 (drop (Z.to_nat a) (grow (a + 32) (m_memory s)))) :: r) (grow (a + 32) (m_memory s))).
Proof.
  intros Hs Hf Ha. pose proof (found_words 1 1 0 s Hs) as Hw. rewrite Hf in Hw. apply Forall_cons in Hw as [[Ha0 _] _]. cbn [dispatch]. unfold do_memory.
  eapply reaches_bind; [reflexivity|]. eapply reaches_bind; [by apply (SP_found 1 1 0 0)|]. rewrite Hf. change (nth (Z.to_nat 0) (a :: r) 0) with a.
  apply (room_reaches s 1 1 a 32); [done|lia|lia|]. intros t Ht Hft Hpt Hmt. pose proof (zlen_grow (a + 32) (m_memory s) ltac:(lia)).
  eapply reaches_bind.
  { unfold mem_read. rewrite u32_small by (unfold is_u32; lia). cbn [Z.eqb]. rewrite Hmt, (proj2 (Z.ltb_ge _ _)) by lia. reflexivity. }
  change (Z.to_nat 32) with 32%nat. epose proof (put_next 1 1 _ t _ Ht ltac:(lia)) as Hp. rewrite Hft, Hf, Hpt, Hmt in Hp. exact Hp.
Qed.

Lemma mem_write_reaches t a off data : in_op x a 0 (off + zlen data) t -> 0 <= a -> 0 <= off < 2 ^ 32 -> data <> [] ->
  reaches (_ ← mem_write (u32 off) data; NEXT) t (mkMachine (m_PC t + 1) (drop (Z.to_nat a) (found t)) (store off data (m_memory t))).
Proof.
  intros Ht Ha Ho Hd. pose proof (io_memory _ _ _ _ _ Ht). rewrite u32_small by (unfold is_u32; lia). eapply reaches_bind.
  { unfold mem_write. assert (zlen data <> 0) by (intros ?%zlen_0_inv; done). rewrite (proj2 (Z.eqb_neq _ _)), (proj2 (Z.ltb_ge _ _)) by (lia || done). reflexivity. }
  destruct (next_drop a _ t Ha Ht) as (c & s' & [= _ <-] & Habs). eexists _, _. split; [reflexivity|].
  unfold abs in *. cbn in *. injection Habs as H1 H2. by rewrite H1, H2.
Qed.

Lemma byte_of_low v : byte_of (Z.land v 255) = byte_of v.
Proof. apply bval_inj. rewrite !bval_byte_of. change 255 with (Z.ones 8). rewrite Z.land_ones by lia. change (2 ^ 8) with 256. by rewrite Z.mod_mod. Qed.

Lemma mstore_reaches s a v r : in_op x 2 0 0 s -> found s = a :: v :: r -> a < 2 ^ 32 ->
  reaches (run MSTORE) s (mkMachine (m_PC s + 1) r (store a (toBigEndian 32 v) (grow (a + 32) (m_memory s)))) /\
  reaches (do_memory None MSTORE8) s (mkMachine (m_PC s + 1) r (store a [byte_of v] (grow (a + 1) (m_memory s)))).
Proof.
  intros Hs Hf Ha. pose proof (found_words 2 0 0 s Hs) as Hw. rewrite Hf in Hw. apply Forall_cons in Hw as [[Ha0 _] _]. cbn [dispatch]. unfold do_memory.
  pose proof (SP_found 2 0 0 0 s Hs ltac:(lia)) as H0. rewrite Hf in H0. change (nth (Z.to_nat 0) (a :: v :: r) 0) with a in H0.
  assert (zlen (toBigEndian 32 v) = 32) as Hz by (unfold zlen; by rewrite length_toBigEndian).
  split; (eapply reaches_bind; [reflexivity|]; eapply reaches_bind; [exact H0|]).
  - apply (room_reaches s 2 0 a 32); [done|lia|lia|]. intros t Ht Hft Hpt Hmt. eapply reaches_bind; [eapply SP_found; [exact Ht|lia]|].
    rewrite Hft, Hf. change (nth (Z.to_nat 1) (a :: v :: r) 0) with v. pose proof (mem_write_reaches t 2 a (toBigEndian 32 v)) as H. rewrite Hz, Hft, Hf, Hpt, Hmt in H.
    apply H; [done|lia|lia|]. intros Hn. by rewrite Hn in Hz.
  - apply (room_reaches s 2 0 a 1); [done|lia|lia|]. intros t Ht Hft Hpt Hmt. eapply reaches_bind; [eapply SP_found; [exact Ht|lia]|].
    rewrite Hft, Hf. change (nth (Z.to_nat 1) (a :: v :: r) 0) with v. rewrite byte_of_low.
    pose proof (mem_write_reaches t 2 a [byte_of v] Ht ltac:(lia) ltac:(lia) ltac:(done)) as H. rewrite Hft, Hf, Hpt, Hmt in H. exact H.
Qed.

(** ** Every instruction of the list machine *)

Definition agrees (m : ST VM Control) (s : VM) (r : result Machine) : Prop :=
  match r with Ok M => reaches m s M | Throw e => fails m s e end.
Abbreviation here s := (mkMachine (m_PC s) (found s) (m_memory s)).

Lemma alu_agrees op f s r : meaning op = Some f -> op_pre op s ->
  spec_op x shifting op (here s) = Some r -> agrees (run op) s r.
Proof.
  intros Hm Hs. unfold spec_op. rewrite Hm. destruct (negb _ && _) eqn:Hn.
  - intros [= <-]. apply andb_true_iff in Hn as [Hn Hop]. apply bool_decide_eq_true in Hop. apply negb_true_iff in Hn. by apply shift_fails.
  - cbn [items pc memory]. destruct (alu_run f (found s)) as [it|] eqn:Hr; [|done]. intros [= <-].
    destruct (computed_meaning op f (found s) it Hm (found_words _ _ _ s Hs) Hr) as (g & Hg & Hr'). apply (computed_reaches op g); [done|done| |done].
    intros Hop. apply andb_false_iff in Hn as [Hn|Hn]; [by apply negb_false_iff in Hn|by apply bool_decide_eq_false in Hn].
Qed.

Lemma jumpi_agrees s d c r : in_op x 2 0 0 s -> found s = d :: c :: r ->
  agrees (run JUMPI) s (if c =? 0 then Ok (mkMachine (m_PC s + 1) r (m_memory s)) else jump x (here s) d r).
Proof.
  intros Hs Hf. pose proof (SP_found 2 0 0 1 s Hs ltac:(lia)) as H1. rewrite Hf in H1. change (nth (Z.to_nat 1) (d :: c :: r) 0) with c in H1.
  pose proof (jump_reaches s 2 d Hs ltac:(lia) ltac:(by rewrite Hf)) as Hj. cbv zeta in Hj. rewrite Hf in Hj. change (drop (Z.to_nat 2) (d :: c :: r)) with r in Hj.
  cbn [dispatch]. unfold do_jump. destruct (Z.eqb_spec c 0) as [-> |Hc].
  - eapply reaches_bind; [reflexivity|]. eapply reaches_bind; [exact H1|]. cbn [Z.eqb negb].
    destruct (next_drop 2 0 s ltac:(lia) Hs) as (u & s' & [= _ <-] & H). rewrite Hf in H. eexists _, _. split; [reflexivity|exact H].
  - unfold jump. destruct (decide _).
    + eapply reaches_bind; [reflexivity|]. eapply reaches_bind; [exact H1|]. rewrite (proj2 (Z.eqb_neq _ _)) by done. exact Hj.
    + destruct Hj as [s' Hj]. exists s'. unfold mbind at 1, ST_bind at 1. cbn [onOperation mret ST_ret]. unfold mbind at 1, ST_bind at 1. rewrite H1.
      rewrite (proj2 (Z.eqb_neq _ _)) by done. exact Hj.
Qed.

Lemma jump_agrees s d r M : in_op x 1 0 0 s -> found s = d :: r -> memory M = m_memory s -> agrees (run JUMP) s (jump x M d r).
Proof.
  intros Hs Hf HM. pose proof (jump_reaches s 1 d Hs ltac:(lia) ltac:(by rewrite Hf)) as Hj. cbv zeta in Hj. rewrite Hf in Hj.
  unfold jump. rewrite HM. destruct (decide _); [|destruct Hj as [s' Hj]; by exists s']. eapply reaches_bind; [reflexivity|]. exact Hj.
Qed.
Lemma still_agrees s l : in_op x 0 0 0 s -> found s = l -> reaches (run JUMPDEST) s (mkMachine (m_PC s + 1) l (m_memory s)).
Proof. intros Hs <-. eapply reaches_bind; [reflexivity|]. apply (next_drop 0 0 s ltac:(lia) Hs). Qed.
Lemma pop_agrees s a l : in_op x 1 0 0 s -> found s = a :: l -> reaches (run POP) s (mkMachine (m_PC s + 1) l (m_memory s)).
Proof. intros Hs Hf. pose proof (pop_reaches s Hs) as H. by rewrite Hf in H. Qed.

Lemma dup_agrees op s : code_of DUP1 <= code_of op <= code_of DUP16 -> op_pre op s ->
  reaches (run op) s (mkMachine (m_PC s + 1) (nth (Z.to_nat (code_of op - code_of DUP1)) (found s) 0 :: found s) (m_memory s)).
Proof.
  intros Hop Hs. assert (run op = do_dup None op) as -> by (destruct op; cbn in Hop; reflexivity || lia).
  apply dup_reaches; [done|destruct op; cbn in *; lia..].
Qed.
Lemma swap_agrees op s : code_of SWAP1 <= code_of op <= code_of SWAP16 -> op_pre op s ->
  let n := Z.to_nat (code_of op - code_of SWAP1 + 1) in
  reaches (run op) s (mkMachine (m_PC s + 1) (<[n := nth 0 (found s) 0]> (<[0%nat := nth n (found s) 0]> (found s))) (m_memory s)).
Proof.
  intros Hop Hs. assert (run op = do_swap None op) as -> by (destruct op; cbn in Hop; reflexivity || lia).
  apply swap_reaches; [done|destruct op; cbn in *; lia..].
Qed.

Lemma spec_op_agrees op s r : op_pre op s -> instruction_start (x_code x) (m_PC s) -> (op <> INVALID -> op_at (x_code x) (m_PC s) = code_of op) ->
  spec_op x shifting op (here s) = Some r -> agrees (run op) s r.
Proof.
  intros Hs Hst Hop. destruct (meaning op) as [f|] eqn:Hm; [by eapply alu_agrees|]. unfold spec_op. rewrite Hm. cbn [items pc memory].
  destruct (_ && (code_of op <=? code_of PUSH32)) eqn:E1; [intros [= <-]; zify_bool; apply push_reaches; [|done|apply Hop; by intros ->|lia]|].
  { replace 0 with (i_args (instructionInfos op)) at 1 by (destruct op; cbn in *; lia). replace 1 with (i_ret (instructionInfos op)) at 1 by (destruct op; cbn in *; lia). done. }
  destruct (_ && (code_of op <=? code_of DUP16)) eqn:E2; [intros [= <-]; zify_bool; by apply dup_agrees|].
  destruct (_ && (code_of op <=? code_of SWAP16)) eqn:E3; [intros [= <-]; zify_bool; by apply swap_agrees|].
  clear Hm Hst Hop E1 E2 E3. destruct op; try discriminate; cbn [instructionInfos i_args i_ret] in Hs; destruct (found s) as [|a [|b l]] eqn:Hf; try discriminate.
  all: try (destruct (Z.ltb_spec a (2 ^ 32)); [|discriminate]).
  all: try match goal with |- (if ?c then Some ?y else Some ?z) = Some _ -> _ => replace (if c then Some y else Some z) with (Some (if c then y else z)) by (by destruct c) end.
  all: intros Hr; apply (inj Some) in Hr as <-.
  all: match goal with
       | |- agrees (run MLOAD) _ _ => by apply mload_reaches
       | |- agrees (run JUMP) _ _ => by apply jump_agrees
       | |- agrees (run JUMPI) _ _ => by apply jumpi_agrees
       | |- agrees (run JUMPDEST) _ _ => by apply still_agrees
       | |- agrees (run POP) _ _ => exact (pop_agrees s _ _ Hs Hf)
       | |- agrees (run INVALID) _ _ => by eexists
       | |- agrees (run PC) _ _ => exact (push_value_reaches s _ _ Hs Hf)
       | |- agrees (run MSIZE) _ _ => exact (push_value_reaches s _ _ Hs Hf)
       | |- _ => by apply mstore_reaches
       end.
Qed.

(** ** Runs *)

Abbreviation vm_step := (VM.step ext x None schedule).
Abbreviation list_step := (spec_step x shifting).

Lemma zlen_items (s : VM) : vm_ok x s -> zlen (drop (Z.to_nat (m_SPP s)) (m_stack s)) = 1024 - m_SPP s.
Proof. intros Hs. pose proof (ok_spp x s Hs). unfold zlen. rewrite length_drop, (ok_stack x s Hs). lia. Qed.

Lemma step_agrees s r : vm_ok x s -> instruction_start (x_code x) (m_PC s) -> list_step (abs s) = Some r -> agrees vm_step s r.
Proof.
  intros Hok Hst. unfold spec_step. cbn [pc items abs]. rewrite zlen_items by done. pose proof (fetch_spec x s Hok Hst) as Hf. cbv zeta in Hf.
  pose proof (ok_spp x s Hok). destruct (decode (program_op x (m_PC s))) as [op|] eqn:Hd.
  2: { intros [= <-]. assert (instructionInfo (program_op x (m_PC s)) = mkInfo 0 0 InvalidTier) as Hi by (unfold instructionInfo; by rewrite Hd).
       rewrite Hi in Hf. cbn [i_args i_ret] in Hf. rewrite (proj2 (Z.ltb_ge _ _)), (proj2 (Z.ltb_ge _ _)) in Hf by lia. cbn [orb] in Hf.
       eexists. unfold VM.step, mbind, ST_bind. rewrite Hf. unfold vm_read. change (m_OP (fetched _ s)) with (program_op x (m_PC s)). by rewrite Hd. }
  assert (instructionInfo (program_op x (m_PC s)) = instructionInfos op) as Hi by (unfold instructionInfo; by rewrite Hd). rewrite Hi in Hf.
  set (a := i_args (instructionInfos op)) in *. set (b := i_ret (instructionInfos op)) in *.
  replace ((1024 - m_SPP s <? a) || (1024 <? 1024 - m_SPP s - a + b)) with ((1024 <? m_SPP s + a) || (m_SPP s + a - b <? 0)).
  2: { f_equal; apply eq_true_iff_eq; rewrite !Z.ltb_lt; lia. }
  destruct (_ || _) eqn:Hc; [intros [= <-]; destruct Hf as [s' Hf]; exists s'; unfold VM.step, mbind, ST_bind; by rewrite Hf|].
  intros Hr. apply decode_inv in Hd as Hco. set (t := fetched (program_op x (m_PC s)) s) in *.
  assert (agrees (run op) t r) as Ha.
  { apply spec_op_agrees; [|done| |exact Hr].
    - pose proof (fetched_ok x s Hok Hst Hf) as Hok1. apply orb_false_iff in Hc as [Hc1 Hc2]. zify_bool.
      split; [exact Hok1|cbn; lia|unfold t, fetched; cbn [m_SPP m_SP with_copyMemSize with_newMemSize with_SPP with_SP]; rewrite Hi; lia| |apply zlen_nonneg].
      cbn. destruct (Z.lt_ge_cases (m_PC s) size) as [|Hge]; [done|]. rewrite program_op_end in Hco by done.
      assert (op = STOP) as -> by (apply (inj code_of); by rewrite <- Hco). discriminate Hr.
    - intros Hne. by apply program_op_inv. }
  assert (vm_step s = run op t) as He.
  { unfold VM.step. unfold mbind, ST_bind. rewrite Hf. unfold vm_read. fold t. change (m_OP t) with (program_op x (m_PC s)). by rewrite Hd. }
  destruct r as [M|ex]; cbn [agrees] in *; unfold reaches, fails in *; by rewrite He.
Qed.

Fixpoint spec_run (n : nat) (m : Machine) : option (result Machine) :=
  match n with
  | O => Some (Ok m)
  | S k => match list_step m with Some (Ok m') => spec_run k m' | r => r end
  end.

Lemma run_agrees (HX : ExtLaws ext None) n s : vm_ok x s -> instruction_start (x_code x) (m_PC s) ->
  match spec_run n (abs s) with
  | Some (Ok m) => exists s', nsteps (round ext x None schedule) n s s' /\ abs s' = m
  | Some (Throw ex) => exists s', interpret ext x None schedule n s = Some (Throw ex, s')
  | None => True
  end.
Proof.
  revert s. induction n as [|n IH]; intros s Hok Hst; cbn [spec_run]; [by exists s; split; [constructor|]|].
  destruct (list_step (abs s)) as [[m|ex]|] eqn:Hs; [| |done].
  - destruct (step_agrees s _ Hok Hst Hs) as (c & s1 & H1 & <-). pose proof (step_safe ext x None schedule Hsize s Hok) as Hsafe.
    rewrite H1 in Hsafe. destruct Hsafe as [Hok1 Hc]. pose proof (step_pc _ _ _ _ _ _ _ Hsize Hok Hst H1) as Hst1. specialize (IH s1 Hok1 Hst1).
    destruct (spec_run n (abs s1)) as [[m|ex]|]; [| |done].
    + destruct IH as (s' & Hn & Ha). exists s'. split; [|done]. econstructor; [by exists c|done].
    + destruct IH as (s' & Hn). exists s'. cbn [interpret]. rewrite H1. by destruct c.
  - destruct (step_agrees s _ Hok Hst Hs) as (s1 & H1). exists s1. cbn [interpret]. by rewrite H1.
Qed.

Lemma start_state (e : E) (s0 : VM) : initEntry x (newVM e) = (Ok tt, s0) ->
  abs s0 = mkMachine 0 [] [] /\ instruction_start (x_code x) (m_PC s0).
Proof. rewrite initEntry_state. intros [= <-]. split; [done|apply start_first]. Qed.

(** C5. The machine computes what its instructions mean. Run any program on the
    list machine of this file, whose stack is a list of numbers and whose
    arithmetic is that of the integers (signed division and comparison by the
    two's complement reading, powers, shifts as products and quotients with
    powers of two, constants read from the program, jumps to its JUMPDESTs,
    memory as bytes): as long as it gives a state, as many rounds of
    [VM::interpret] from the start give a machine with that program counter,
    those items and that memory; and where it fails, for too few or too many
    items, a bad jump or an unknown opcode, [interpret] throws that
    exception. The schedule may be null, as it is in the code: then both stop
    at the first shift. *)
Theorem vm_refines_list_machine (e : E) (s0 : VM) (n : nat) :
  ExtLaws ext None -> initEntry x (newVM e) = (Ok tt, s0) ->
  match spec_run n (mkMachine 0 [] []) with
  | Some (Ok m) => exists s, nsteps (round ext x None schedule) n s0 s /\ abs s = m
  | Some (Throw ex) => exists s, interpret ext x None schedule n s0 = Some (Throw ex, s)
  | None => True
  end.
Proof.
  intros HX H0. destruct (start_state e s0 H0) as [<- Hst]. apply (run_agrees HX); [by eapply initEntry_ok|done].
Qed.
End Refinement.
