(* ===== verification/VMExamples.v ===== *)
(** * Programs on the contract machine

    A program with a loop, and what the theorems about the machine say of it. *)

From S2P Require Import Prelude CommonData FixedHash SHA3 BlockHeader Instruction Word256 VM VMFacts VMSafety VMRefine VMSpec.

(** Surroundings in which every account is empty. *)
Definition quiet : VMInterface unit :=
  mkInterface unit (fun _ => mret 0) (fun _ _ => mret tt) (fun _ => mret 0) (fun _ => mret []) (fun _ => mret 0)
    (fun _ => mret (zero_hash 32)) (fun _ => mret false) (fun _ => mret tt)
    (fun _ _ _ _ _ => mret (mkCreateResult 0 [] (zero_hash 20))) (fun _ => mret (mkCallResult 0 [])) (fun _ => mret (zero_hash 32)).

#[export] Instance quiet_laws : ExtLaws quiet None.
Proof. by split. Qed.

(** [PUSH1 3; JUMPDEST; PUSH1 1; SWAP1; SUB; DUP1; PUSH1 2; JUMPI; STOP]: count
    down from 3. The last byte is a JUMPDEST inside a constant. *)
Definition countdown : bytes :=
  map byte_of [0x60; 0x03; 0x5b; 0x60; 0x01; 0x90; 0x03; 0x80; 0x60; 0x02; 0x57; 0x00; 0x60; 0x5b].
Definition example_data : ExtData :=
  mkExtData (zero_hash 20) (zero_hash 20) (zero_hash 20) 0 [] countdown 0 false BlockHeader.clear.

Lemma countdown_size : zlen (x_code example_data) < 2 ^ 62.
Proof. done. Qed.

Lemma jump_table_exact_witness : exists s, initEntry example_data (newVM tt) = (Ok tt, s) /\
  verifyJumpDest 2 s = (Ok 2, s) /\ verifyJumpDest 13 s = (Throw BadJumpException, s).
Proof.
  destruct (jump_table_exact example_data tt 2 ltac:(done)) as (s & Hs & Hj & _).
  destruct (jump_table_exact example_data tt 13 ltac:(done)) as (s' & Hs' & _ & Hn & _).
  exists s. split; [exact Hs|]. assert (s' = s) as -> by congruence. split.
  - apply Hj. apply (bool_decide_unpack (jump_dest (x_code example_data) 2)). by vm_compute.
  - apply Hn. assert (bool_decide (jump_dest (x_code example_data) 13) = false) as H by by vm_compute. by apply bool_decide_eq_false in H.
Defined.

(** The loop leaves zero after three rounds. *)
Lemma countdown_meaning : spec_run example_data None 22 (mkMachine 0 [] []) = Some (Ok (mkMachine 11 [0] [])).
Proof. by vm_compute. Qed.
Lemma countdown_start (s0 : @VM unit) : initEntry example_data (newVM tt) = (Ok tt, s0) ->
  abs s0 = mkMachine 0 [] [] /\ instruction_start (x_code example_data) (m_PC s0).
Proof. apply start_state. Qed.
Lemma countdown_run (s0 : @VM unit) : initEntry example_data (newVM tt) = (Ok tt, s0) ->
  exists s, rtc (round quiet example_data None None) s0 s.
Proof.
  intros H0. destruct (countdown_start s0 H0) as [Ha Hs]. pose proof (run_agrees quiet example_data None countdown_size _ 22 s0 (initEntry_ok _ _ _ H0) Hs) as H.
  rewrite Ha, countdown_meaning in H. destruct H as (s & Hn & _). exists s. by eapply rtc_nsteps_2.
Qed.

Lemma vm_stays_in_bounds_witness : exists s0 s, initEntry example_data (newVM tt) = (Ok tt, s0) /\
  rtc (round quiet example_data None None) s0 s /\ vm_ok example_data s /\
  (step quiet example_data None None s).1 <> Throw Undefined /\
  ((step quiet example_data None None s).1 = Throw NullSchedule -> @None VMSchedule = None /\
   exists b op, m_code s !! Z.to_nat (m_PC s) = Some b /\ decode (bval b) = Some op /\ op ∈ schedule_ops).
Proof.
  destruct (initEntry_total example_data tt) as [s0 H0]. destruct (countdown_run s0 H0) as [s Hr].
  exists s0, s. split; [done|]. split; [done|].
  apply (vm_stays_in_bounds quiet example_data None None countdown_size tt s0 s H0 Hr).
Defined.

Lemma vm_refines_list_machine_witness : exists s0 s, initEntry example_data (newVM tt) = (Ok tt, s0) /\
  nsteps (round quiet example_data None None) 22 s0 s /\ abs s = mkMachine 11 [0] [].
Proof.
  destruct (initEntry_total example_data tt) as [s0 H0].
  pose proof (vm_refines_list_machine quiet example_data None countdown_size tt s0 22 _ H0) as H.
  rewrite countdown_meaning in H. destruct H as (s & Hn & Ha). exists s0, s. split; [exact H0|]. split; [exact Hn|exact Ha].
Defined.

Lemma pc_on_instructions_witness : exists s0 s, initEntry example_data (newVM tt) = (Ok tt, s0) /\
  rtc (round quiet example_data None None) s0 s /\ instruction_start countdown (m_PC s).
Proof.
  destruct (initEntry_total example_data tt) as [s0 H0]. destruct (countdown_run s0 H0) as [s Hr]. exists s0, s. split; [exact H0|]. split; [exact Hr|].
  apply (pc_on_instructions quiet example_data None None tt s0 s _ countdown_size H0 Hr).
Defined.

(** A program that starts with STOP is not left. *)
Lemma exec_never_returns_witness :
  (forall rounds fuel s s', exec quiet example_data None None rounds fuel s <> Some (Ok tt, s')) /\
  forall fuel, interpret quiet example_data None None fuel (with_code [Byte.x00] (newVM tt)) = None.
Proof.
  destruct (exec_never_returns quiet example_data None None) as [H1 H2]. split; [exact H1|]. intros fuel. apply H2; [reflexivity|cbn; lia].
Defined.
