(* ===== verification/Coding.v ===== *)
(** * Integer encodings of LevelDB: util/coding.{h,cc}

    A [Slice] is the list of its bytes; a function that moves a pointer over
    [p..limit) takes that range and gives back what is left of it. *)

From S2P Require Import Prelude CommonData.
Import BigEndian.

(** ** Fixed width, little endian *)

(** [memcpy] of an integer of [n] bytes on a little-endian machine, the
    branch of [port::kLittleEndian]. *)
Fixpoint le_bytes (n : nat) (value : Z) : bytes :=
  match n with
  | O => []
  | S k => byte_of (Z.land value 0xff) :: le_bytes k (Z.shiftr value 8)
  end.
Fixpoint le_val (l : bytes) : Z :=
  match l with
  | [] => 0
  | b :: r => Z.lor (bval b) (Z.shiftl (le_val r) 8)
  end.

Definition EncodeFixed32 (value : Z) : bytes := le_bytes 4 value.
Definition EncodeFixed64 (value : Z) : bytes := le_bytes 8 value.
Definition PutFixed32 (dst : bytes) (value : Z) : bytes := dst ++ EncodeFixed32 value.
Definition PutFixed64 (dst : bytes) (value : Z) : bytes := dst ++ EncodeFixed64 value.
(** The first bytes at [ptr]; the callers have checked that they are there. *)
Definition DecodeFixed32 (ptr : bytes) : Z := le_val (take 4 ptr).
Definition DecodeFixed64 (ptr : bytes) : Z := le_val (take 8 ptr).

(** ** Variable width *)

Definition EncodeVarint32 (v : Z) : bytes :=
  let B := 128 in
  if v <? Z.shiftl 1 7 then [byte_of v]
  else if v <? Z.shiftl 1 14 then [byte_of (Z.lor v B); byte_of (Z.shiftr v 7)]
  else if v <? Z.shiftl 1 21 then [byte_of (Z.lor v B); byte_of (Z.lor (Z.shiftr v 7) B); byte_of (Z.shiftr v 14)]
  else if v <? Z.shiftl 1 28 then
    [byte_of (Z.lor v B); byte_of (Z.lor (Z.shiftr v 7) B); byte_of (Z.lor (Z.shiftr v 14) B); byte_of (Z.shiftr v 21)]
  else
    [byte_of (Z.lor v B); byte_of (Z.lor (Z.shiftr v 7) B); byte_of (Z.lor (Z.shiftr v 14) B);
     byte_of (Z.lor (Z.shiftr v 21) B); byte_of (Z.shiftr v 28)].
Definition PutVarint32 (dst : bytes) (v : Z) : bytes := dst ++ EncodeVarint32 v.

(** The loops on [v] end within ten rounds, as each one drops seven bits. *)
Fixpoint varint64_loop (fuel : nat) (v : Z) : bytes :=
  match fuel with
  | O => []
  | S n => if 128 <=? v then byte_of (Z.lor (Z.land v 127) 128) :: varint64_loop n (Z.shiftr v 7) else [byte_of v]
  end.
Definition EncodeVarint64 (v : Z) : bytes := varint64_loop 10 v.
Definition PutVarint64 (dst : bytes) (v : Z) : bytes := dst ++ EncodeVarint64 v.

Definition PutLengthPrefixedSlice (dst value : bytes) : bytes := PutVarint32 dst (u32 (zlen value)) ++ value.

Fixpoint length_loop (fuel : nat) (v len : Z) : Z :=
  match fuel with
  | O => len
  | S n => if 128 <=? v then length_loop n (Z.shiftr v 7) (len + 1) else len
  end.
Definition VarintLength (v : Z) : Z := length_loop 10 v 1.

(** [result |= x << shift] on an unsigned integer of [w] bits. *)
Definition or_shift (w result x shift : Z) : Z := Z.lor result (Z.shiftl x shift mod 2 ^ w).

(** The loop of [GetVarint32PtrFallback] and [GetVarint64Ptr]: [fuel] is the
    number of groups that fit below the bound on [shift]. *)
Fixpoint get_loop (w : Z) (fuel : nat) (shift result : Z) (p : bytes) : option (Z * bytes) :=
  match fuel, p with
  | S n, byte :: p' =>
      if negb (Z.land (bval byte) 128 =? 0) then get_loop w n (shift + 7) (or_shift w result (Z.land (bval byte) 127) shift) p'
      else Some (or_shift w result (bval byte) shift, p')
  | _, _ => None
  end.
Definition GetVarint32PtrFallback (p : bytes) : option (Z * bytes) := get_loop 32 5 0 0 p.
Definition GetVarint32Ptr (p : bytes) : option (Z * bytes) :=
  match p with
  | result :: p' => if Z.land (bval result) 128 =? 0 then Some (bval result, p') else GetVarint32PtrFallback p
  | [] => GetVarint32PtrFallback p
  end.
Definition GetVarint32 (input : bytes) : option (Z * bytes) := GetVarint32Ptr input.
Definition GetVarint64Ptr (p : bytes) : option (Z * bytes) := get_loop 64 10 0 0 p.
Definition GetVarint64 (input : bytes) : option (Z * bytes) := GetVarint64Ptr input.

Definition GetLengthPrefixedSlice (input : bytes) : option (bytes * bytes) :=
  match GetVarint32 input with
  | Some (len, input) => if len <=? zlen input then Some (take (Z.to_nat len) input, drop (Z.to_nat len) input) else None
  | None => None
  end.

(** ** Fixed width round trips *)

Lemma lor_byte_shift b x : 0 <= b < 256 -> Z.lor b (Z.shiftl x 8) = b + 256 * x.
Proof. intros Hb. rewrite Z.lor_comm, lor_shift_byte by done. lia. Qed.

Lemma length_le_list n v : length (le_bytes n v) = n.
Proof. revert v. induction n as [|n IH]; intros v; cbn; [done|]. by rewrite IH. Qed.
Lemma zlen_le_bytes n v : zlen (le_bytes n v) = Z.of_nat n.
Proof. unfold zlen. by rewrite length_le_list. Qed.

Lemma le_val_range l : 0 <= le_val l < 256 ^ zlen l.
Proof.
  induction l as [|b l IH]; [by unfold zlen|]. cbn [le_val]. pose proof (bval_range b). rewrite lor_byte_shift by done.
  rewrite zlen_cons, Z.pow_add_r by (pose proof (zlen_nonneg l); lia). lia.
Qed.

Lemma le_val_le_bytes n v : le_val (le_bytes n v) = v mod 256 ^ Z.of_nat n.
Proof.
  revert v. induction n as [|n IH]; intros v; [cbn; by rewrite Z.mod_1_r|]. cbn [le_bytes le_val]. pose proof (bval_range (byte_of (Z.land v 255))).
  rewrite lor_byte_shift, IH, bval_byte_of by done. change 255 with (Z.ones 8). rewrite Z.land_ones by lia. change (2 ^ 8) with 256. rewrite Z.mod_mod by lia.
  rewrite Nat2Z.inj_succ, Z.pow_succ_r by lia. rewrite Z.shiftr_div_pow2 by lia. change (2 ^ 8) with 256.
  by rewrite Z.rem_mul_r by (try apply Z.pow_pos_nonneg; lia).
Qed.

Lemma le_bytes_le_val l : le_bytes (length l) (le_val l) = l.
Proof.
  induction l as [|b l IH]; [done|]. cbn [length le_bytes le_val]. pose proof (bval_range b). rewrite lor_byte_shift by done. f_equal.
  - apply bval_inj. rewrite bval_byte_of. change 255 with (Z.ones 8). rewrite Z.land_ones by lia. change (2 ^ 8) with 256. rewrite Z.mod_mod by lia.
    rewrite Z.mul_comm, Z.mod_add by lia. by apply Z.mod_small.
  - rewrite Z.shiftr_div_pow2 by lia. change (2 ^ 8) with 256. rewrite Z.mul_comm, Z.div_add by lia. rewrite Z.div_small by done. exact IH.
Qed.

Lemma fixed32_roundtrip v rest : is_u32 v -> DecodeFixed32 (EncodeFixed32 v ++ rest) = v.
Proof.
  intros Hv. unfold DecodeFixed32, EncodeFixed32. rewrite take_app_length' by (by rewrite length_le_list). rewrite le_val_le_bytes. by apply Z.mod_small.
Qed.

(** ** Arrays of 32-bit words *)

Definition words (ws : list Z) : bytes := concat (map EncodeFixed32 ws).
Lemma words_app a b : words (a ++ b) = words a ++ words b.
Proof. unfold words. by rewrite map_app, concat_app. Qed.
Lemma zlen_words ws : zlen (words ws) = 4 * zlen ws.
Proof. unfold words. induction ws as [|w ws IH]; [done|]. cbn [map concat]. rewrite zlen_app, IH, zlen_cons. change (zlen (EncodeFixed32 w)) with 4. lia. Qed.
Lemma put_words ws a : foldl (fun r w => PutFixed32 r w) a ws = a ++ words ws.
Proof. revert a. induction ws as [|w ws IH]; intros a; cbn [foldl]; [by rewrite app_nil_r|]. rewrite IH. unfold PutFixed32, words. cbn [map concat]. by rewrite app_assoc. Qed.
Lemma word_at pre ws rest i w : ws !! i = Some w -> is_u32 w -> DecodeFixed32 (drop (Z.to_nat (zlen pre + Z.of_nat i * 4)) (pre ++ words ws ++ rest)) = w.
Proof.
  intros Hi Hw. rewrite <- (take_drop_middle ws i w Hi) at 1. rewrite words_app. unfold words at 2. cbn [map concat]. fold (words (drop (S i) ws)). rewrite <- !app_assoc, app_assoc.
  rewrite drop_app_length'; [by apply fixed32_roundtrip|]. rewrite length_app. pose proof (zlen_words (take i ws)) as E. unfold zlen in *. rewrite length_take in E. apply lookup_lt_Some in Hi. lia.
Qed.
Lemma fixed64_roundtrip v rest : is_u64 v -> DecodeFixed64 (EncodeFixed64 v ++ rest) = v.
Proof.
  intros Hv. unfold DecodeFixed64, EncodeFixed64. rewrite take_app_length' by (by rewrite length_le_list). rewrite le_val_le_bytes. by apply Z.mod_small.
Qed.

(** ** Variable width round trips *)

Lemma byte_group v : 0 <= v -> byte_of (Z.lor v 128) = byte_of (Z.lor (Z.land v 127) 128).
Proof.
  intros Hv. apply bval_inj. rewrite !bval_byte_of. change 256 with (2 ^ 8). rewrite <- !Z.land_ones by lia. apply Z.bits_inj'. intros n Hn.
  rewrite !Z.land_spec, !Z.lor_spec, Z.land_spec. change 127 with (Z.ones 7). destruct (Z.ltb_spec n 7).
  - rewrite (Z.ones_spec_low 7) by lia. by rewrite andb_true_r.
  - rewrite (Z.ones_spec_high 7) by lia. destruct (Z.eq_dec n 7) as [-> |]; [by rewrite !orb_true_r|]. rewrite (Z.ones_spec_high 8) by lia. by rewrite !andb_false_r.
Qed.

Lemma bval_group v : 0 <= v -> bval (byte_of (Z.lor (Z.land v 127) 128)) = v mod 128 + 128.
Proof.
  intros Hv. rewrite bval_byte_of. change 127 with (Z.ones 7). rewrite Z.land_ones by lia. change (2 ^ 7) with 128. pose proof (Z.mod_pos_bound v 128 ltac:(lia)) as Hm.
  assert (Z.lor (v mod 128) 128 = v mod 128 + 128) as ->; [|apply Z.mod_small; lia].
  rewrite <- Z.lxor_lor, <- Z.add_nocarry_lxor; [done| |]; (apply Z.bits_inj'; intros n Hn; rewrite Z.land_spec, Z.bits_0; change 128 with (2 ^ 7) at 2;
    rewrite Z.pow2_bits_eqb by lia; destruct (Z.eqb_spec 7 n) as [<- |]; [|by rewrite andb_false_r];
    change 128 with (2 ^ 7); by rewrite Z.mod_pow2_bits_high by lia).
Qed.

(** A round of the loop on what is left of [v] after [n] bits. *)
Lemma varint64_loop_group k v w n : 0 <= v -> 0 <= n -> w = Z.shiftr v n ->
  varint64_loop (S k) w =
  if 2 ^ (n + 7) <=? v then byte_of (Z.lor (Z.land w 127) 128) :: varint64_loop k (Z.shiftr v (n + 7)) else [byte_of w].
Proof.
  intros Hv Hn ->. cbn [varint64_loop]. rewrite Z.shiftr_shiftr by lia. replace (128 <=? Z.shiftr v n) with (2 ^ (n + 7) <=? v); [done|].
  apply eq_true_iff_eq. rewrite !Z.leb_le, Z.shiftr_div_pow2 by lia. rewrite Z.pow_add_r by lia. change (2 ^ 7) with 128.
  pose proof (Z.pow_pos_nonneg 2 n ltac:(lia) ltac:(lia)) as Hp. split; intros H.
  - apply Z.div_le_lower_bound; nia.
  - pose proof (Z.mul_div_le v (2 ^ n) Hp). nia.
Qed.

(** The unrolled encoder of 32-bit numbers writes what the loop writes. *)
Lemma EncodeVarint32_loop v : is_u32 v -> EncodeVarint32 v = EncodeVarint64 v.
Proof.
  intros [Hv Hmax]. unfold EncodeVarint32, EncodeVarint64.
  change (Z.shiftl 1 7) with (2 ^ 7). change (Z.shiftl 1 14) with (2 ^ 14). change (Z.shiftl 1 21) with (2 ^ 21). change (Z.shiftl 1 28) with (2 ^ 28).
  assert (forall n, 0 <= n -> 0 <= Z.shiftr v n) as H0 by (intros n Hn; by apply Z.shiftr_nonneg).
  rewrite (byte_group v), !(byte_group (Z.shiftr v _)) by (done || (apply H0; lia)).
  rewrite (varint64_loop_group 9 v v 0) by (done || lia). destruct (Z.ltb_spec v (2 ^ 7)); [by rewrite (proj2 (Z.leb_gt _ _)) by lia|].
  rewrite (proj2 (Z.leb_le _ _)) by lia. f_equal. rewrite (varint64_loop_group 8 v _ 7) by (done || lia). change (7 + 7) with 14.
  destruct (Z.ltb_spec v (2 ^ 14)); [by rewrite (proj2 (Z.leb_gt _ _)) by lia|].
  rewrite (proj2 (Z.leb_le _ _)) by lia. f_equal. rewrite (varint64_loop_group 7 v _ 14) by (done || lia). change (14 + 7) with 21.
  destruct (Z.ltb_spec v (2 ^ 21)); [by rewrite (proj2 (Z.leb_gt _ _)) by lia|].
  rewrite (proj2 (Z.leb_le _ _)) by lia. f_equal. rewrite (varint64_loop_group 6 v _ 21) by (done || lia). change (21 + 7) with 28.
  destruct (Z.ltb_spec v (2 ^ 28)); [by rewrite (proj2 (Z.leb_gt _ _)) by lia|].
  rewrite (proj2 (Z.leb_le _ _)) by lia. f_equal. rewrite (varint64_loop_group 5 v _ 28) by (done || lia).
  by rewrite (proj2 (Z.leb_gt _ _)) by lia.
Qed.

Lemma lor_disjoint a b n : 0 <= n -> 0 <= a < 2 ^ n -> Z.lor a (b * 2 ^ n) = a + b * 2 ^ n.
Proof.
  intros Hn Ha. rewrite <- Z.lxor_lor, <- Z.add_nocarry_lxor; [done| |]; (apply Z.bits_inj'; intros k Hk; rewrite Z.land_spec, Z.bits_0;
    destruct (Z.ltb_spec k n); [by rewrite Z.mul_pow2_bits_low, andb_false_r by lia|];
    rewrite <- (Z.mod_small a (2 ^ n)) by done; by rewrite Z.mod_pow2_bits_high by lia).
Qed.

Lemma or_shift_add w result x shift : 0 <= shift -> 0 <= result < 2 ^ shift -> 0 <= x -> x * 2 ^ shift < 2 ^ w ->
  or_shift w result x shift = result + x * 2 ^ shift.
Proof.
  intros Hs Hr Hx Hw. unfold or_shift. rewrite Z.shiftl_mul_pow2 by done. rewrite Z.mod_small by nia. by apply lor_disjoint.
Qed.

Lemma high_bit b : Z.land (bval b) 128 = 0 <-> bval b < 128.
Proof.
  pose proof (bval_range b). change 128 with (2 ^ 7) at 1. split; intros Hb.
  - destruct (Z.lt_ge_cases (bval b) 128) as [|Hge]; [done|]. exfalso. assert (Z.testbit (Z.land (bval b) (2 ^ 7)) 7 = false) as Ht by (by rewrite Hb, Z.bits_0).
    rewrite Z.land_spec, Z.pow2_bits_true, andb_true_r in Ht by lia. rewrite Z.testbit_eqb in Ht by lia. change (2 ^ 7) with 128 in Ht.
    assert (bval b / 128 = 1) as Hd by (symmetry; apply (Z.div_unique _ _ _ (bval b - 128)); lia). by rewrite Hd in Ht.
  - apply Z.bits_inj'. intros n Hn. rewrite Z.land_spec, Z.bits_0, Z.pow2_bits_eqb by lia. destruct (Z.eqb_spec 7 n) as [<- |]; [|by rewrite andb_false_r].
    rewrite andb_true_r, Z.testbit_eqb by lia. change (2 ^ 7) with 128. by rewrite Z.div_small by lia.
Qed.

(** Reading back what the loop of [EncodeVarint64] wrote. *)
Lemma get_loop_varint w k fuel v shift result rest :
  (k <= fuel)%nat -> 0 <= v < 2 ^ (7 * Z.of_nat k) -> 0 <= shift -> 0 <= result < 2 ^ shift -> v * 2 ^ shift < 2 ^ w ->
  (0 < k)%nat -> get_loop w fuel shift result (varint64_loop k v ++ rest) = Some (result + v * 2 ^ shift, rest).
Proof.
  revert fuel v shift result. induction k as [|k IH]; intros fuel v shift result Hf Hv Hs Hr Hw Hk; [lia|].
  destruct fuel as [|fuel]; [lia|]. cbn [varint64_loop]. destruct (Z.leb_spec 128 v) as [Hge|Hlt].
  - cbn [app get_loop]. pose proof (bval_group v ltac:(lia)) as Hb. pose proof (Z.mod_pos_bound v 128 ltac:(lia)) as Hm.
    assert (Z.land (bval (byte_of (Z.lor (Z.land v 127) 128))) 128 <> 0) as Hn by (intros H; apply high_bit in H; lia).
    rewrite (proj2 (Z.eqb_neq _ _)) by done. cbn [negb]. rewrite Hb. change 127 with (Z.ones 7) at 1. rewrite Z.land_ones by lia. change (2 ^ 7) with 128.
    rewrite <- (Z.mul_1_l 128) at 2. rewrite Z.mod_add, Z.mod_mod by lia. pose proof (Z.div_mod v 128 ltac:(lia)) as Hd.
    pose proof (Z.pow_pos_nonneg 2 shift ltac:(lia) Hs) as Hp. rewrite or_shift_add by (done || nia).
    destruct k as [|k]; [cbn in Hv; lia|]. rewrite IH; [|lia| | | | |lia].
    + rewrite Z.shiftr_div_pow2, Z.pow_add_r by lia. change (2 ^ 7) with 128. do 2 f_equal. nia.
    + rewrite Z.shiftr_div_pow2 by lia. change (2 ^ 7) with 128. split; [apply Z.div_pos; lia|]. apply Z.div_lt_upper_bound; [lia|].
      replace (7 * Z.of_nat (S (S k))) with (7 + 7 * Z.of_nat (S k)) in Hv by lia. rewrite Z.pow_add_r in Hv by lia. lia.
    + lia.
    + rewrite Z.pow_add_r by lia. change (2 ^ 7) with 128. nia.
    + rewrite Z.shiftr_div_pow2, Z.pow_add_r by lia. change (2 ^ 7) with 128. nia.
  - cbn [app get_loop]. assert (bval (byte_of v) = v) as Hb by (apply bval_byte_of_small; lia).
    rewrite (proj2 (Z.eqb_eq _ _)) by (apply high_bit; lia). cbn [negb]. rewrite Hb, or_shift_add by (done || lia). done.
Qed.

Lemma varint64_roundtrip v rest : is_u64 v -> GetVarint64 (EncodeVarint64 v ++ rest) = Some (v, rest).
Proof.
  intros Hv. unfold is_u64 in Hv. unfold GetVarint64, GetVarint64Ptr, EncodeVarint64. rewrite get_loop_varint; [do 2 f_equal; lia|lia|cbn; lia|lia|cbn; lia|lia|lia].
Qed.

Lemma varint64_loop_fuel k n v : 0 <= v < 2 ^ (7 * Z.of_nat k) -> (0 < k <= n)%nat -> varint64_loop n v = varint64_loop k v.
Proof.
  revert n v. induction k as [|k IH]; intros n v Hv Hk; [lia|]. destruct n as [|n]; [lia|]. cbn [varint64_loop].
  destruct (Z.leb_spec 128 v) as [Hge|Hlt]; [|done]. f_equal. destruct k as [|k]; [cbn in Hv; lia|]. apply IH; [|lia].
  rewrite Z.shiftr_div_pow2 by lia. change (2 ^ 7) with 128. split; [apply Z.div_pos; lia|]. apply Z.div_lt_upper_bound; [lia|].
  replace (7 * Z.of_nat (S (S k))) with (7 + 7 * Z.of_nat (S k)) in Hv by lia. rewrite Z.pow_add_r in Hv by lia. lia.
Qed.

Lemma GetVarint32Ptr_fallback p : GetVarint32Ptr p = GetVarint32PtrFallback p.
Proof.
  unfold GetVarint32Ptr, GetVarint32PtrFallback. destruct p as [|b p]; [done|]. cbn [get_loop]. destruct (Z.eqb_spec (Z.land (bval b) 128) 0) as [Hb|]; [|done].
  cbn [negb]. apply high_bit in Hb. pose proof (bval_range b). rewrite or_shift_add by (cbn; lia). do 2 f_equal. cbn. lia.
Qed.

Lemma length_loop_spec fuel v len : (0 < fuel)%nat -> 0 <= v < 2 ^ (7 * Z.of_nat fuel) ->
  length_loop fuel v len = len - 1 + zlen (varint64_loop fuel v).
Proof.
  revert v len. induction fuel as [|n IH]; intros v len Hf Hv; [lia|]. cbn [length_loop varint64_loop]. destruct (Z.leb_spec 128 v); [|unfold zlen; cbn; lia].
  destruct n as [|n]; [cbn in Hv; lia|]. rewrite IH, zlen_cons; [lia|lia|]. rewrite Z.shiftr_div_pow2 by lia. change (2 ^ 7) with 128.
  split; [apply Z.div_pos; lia|]. apply Z.div_lt_upper_bound; [lia|].
  replace (7 * Z.of_nat (S (S n))) with (7 + 7 * Z.of_nat (S n)) in Hv by lia. rewrite Z.pow_add_r in Hv by lia. lia.
Qed.
Lemma length_varint64_loop k v : (0 < k)%nat -> 1 <= zlen (varint64_loop k v) <= Z.of_nat k.
Proof.
  revert v. induction k as [|k IH]; intros v Hk; [lia|]. cbn [varint64_loop]. destruct (128 <=? v); [|unfold zlen; cbn; lia].
  rewrite zlen_cons. destruct k as [|k]; [unfold zlen; cbn; lia|]. specialize (IH (Z.shiftr v 7) ltac:(lia)). lia.
Qed.

Lemma varint64_length v : is_u64 v -> zlen (EncodeVarint64 v) = VarintLength v.
Proof. intros Hv. unfold is_u64 in Hv. unfold VarintLength, EncodeVarint64. rewrite length_loop_spec by (cbn; lia). lia. Qed.

Lemma get_varint32 v rest : is_u32 v -> GetVarint32 (EncodeVarint32 v ++ rest) = Some (v, rest).
Proof.
  intros Hv. unfold is_u32 in Hv. rewrite EncodeVarint32_loop by done. unfold GetVarint32, EncodeVarint64. rewrite GetVarint32Ptr_fallback. unfold GetVarint32PtrFallback.
  rewrite (varint64_loop_fuel 5) by (cbn; lia). rewrite get_loop_varint; [do 2 f_equal; lia|lia|cbn; lia|lia|cbn; lia|lia|lia].
Qed.
Lemma zlen_varint32 v : is_u32 v -> 1 <= zlen (EncodeVarint32 v) <= 5.
Proof.
  intros Hv. rewrite EncodeVarint32_loop by done. unfold is_u32 in Hv. unfold EncodeVarint64. rewrite (varint64_loop_fuel 5) by (cbn; lia).
  apply (length_varint64_loop 5). lia.
Qed.

(** The variable-width encoding of a 32-bit number, written by the unrolled
    [EncodeVarint32], is read back by [GetVarint32] with its fast path and its
    fallback, whatever bytes follow, and takes [VarintLength] bytes, at most
    five. *)
Theorem varint32_roundtrip v rest : is_u32 v ->
  GetVarint32 (EncodeVarint32 v ++ rest) = Some (v, rest) /\ zlen (EncodeVarint32 v) = VarintLength v /\ VarintLength v <= 5.
Proof.
  intros Hv. split; [by apply get_varint32|]. assert (is_u64 v) as Hv' by (unfold is_u32, is_u64 in *; lia).
  pose proof (zlen_varint32 v Hv) as Hl. rewrite EncodeVarint32_loop, varint64_length in * by done. split; [done|lia].
Qed.

Lemma varint32_roundtrip_witness : GetVarint32 (EncodeVarint32 300 ++ [Byte.x07]) = Some (300, [Byte.x07]).
Proof. apply varint32_roundtrip. unfold is_u32. lia. Defined.

(** ** Slices *)

Lemma slice_roundtrip value rest : zlen value < 2 ^ 32 ->
  GetLengthPrefixedSlice (PutLengthPrefixedSlice [] value ++ rest) = Some (value, rest).
Proof.
  intros Hv. pose proof (zlen_nonneg value). unfold GetLengthPrefixedSlice, PutLengthPrefixedSlice, PutVarint32. rewrite u32_small by (unfold is_u32; lia).
  cbn [app]. rewrite <- app_assoc, get_varint32 by (unfold is_u32; lia). rewrite zlen_app, (proj2 (Z.leb_le _ _)) by (pose proof (zlen_nonneg rest); lia).
  unfold zlen. rewrite Nat2Z.id, take_app_length, drop_app_length. done.
Qed.

Lemma PutLengthPrefixedSlice_app dst value : PutLengthPrefixedSlice dst value = dst ++ PutLengthPrefixedSlice [] value.
Proof. unfold PutLengthPrefixedSlice, PutVarint32. by rewrite <- app_assoc. Qed.

(** What a reader leaves is a shorter end of its input. *)
Lemma get_loop_suffix w fuel shift result p v rest : get_loop w fuel shift result p = Some (v, rest) -> exists q, p = q ++ rest /\ q <> [].
Proof.
  revert shift result p. induction fuel as [|n IH]; intros shift result p; [done|]. cbn [get_loop]. destruct p as [|b p]; [done|].
  destruct (negb _).
  - intros H. destruct (IH _ _ _ H) as (q & -> & _). by exists (b :: q).
  - intros [= _ <-]. by exists [b].
Qed.
Lemma get_varint32_suffix p v rest : GetVarint32 p = Some (v, rest) -> exists q, p = q ++ rest /\ q <> [].
Proof. unfold GetVarint32. rewrite GetVarint32Ptr_fallback. apply get_loop_suffix. Qed.
Lemma get_slice_suffix p v rest : GetLengthPrefixedSlice p = Some (v, rest) -> exists q, p = q ++ v ++ rest /\ q <> [].
Proof.
  unfold GetLengthPrefixedSlice. destruct (GetVarint32 p) as [[len r]|] eqn:Hv; [|done]. destruct (_ <=? _); [|done]. intros [= <- <-].
  apply get_varint32_suffix in Hv as (q & -> & Hq). exists q. by rewrite take_drop.
Qed.

(** A slice that is cut short is not read. *)
Lemma get_loop_truncated w k v q r fuel shift result : 0 <= v -> varint64_loop k v = q ++ r -> r <> [] -> get_loop w fuel shift result q = None.
Proof.
  revert v q fuel shift result. induction k as [|k IH]; intros v q fuel shift result Hv Hq Hr; cbn [varint64_loop] in Hq.
  - symmetry in Hq. by apply app_eq_nil in Hq as [_ ?].
  - destruct fuel as [|n]; [done|]. destruct q as [|b q]; [done|]. destruct (Z.leb_spec 128 v).
    + injection Hq as <- Hq. cbn [get_loop]. destruct (Z.eqb_spec (Z.land (bval (byte_of (Z.lor (Z.land v 127) 128))) 128) 0) as [Hz|]; cbn [negb].
      * apply high_bit in Hz. rewrite bval_group in Hz by done. pose proof (Z.mod_pos_bound v 128). lia.
      * eapply IH; [|exact Hq|done]. rewrite Z.shiftr_div_pow2 by lia. apply Z.div_pos; lia.
    + injection Hq as <- Hq. symmetry in Hq. by apply app_eq_nil in Hq as [_ ?].
Qed.
Lemma varint32_truncated v q r : is_u32 v -> EncodeVarint32 v = q ++ r -> r <> [] -> GetVarint32 q = None.
Proof.
  intros Hv Hq Hr. unfold GetVarint32. rewrite GetVarint32Ptr_fallback. rewrite EncodeVarint32_loop in Hq by done. destruct Hv as [Hv _]. by eapply get_loop_truncated.
Qed.
Lemma slice_truncated value q r : zlen value < 2 ^ 32 -> PutLengthPrefixedSlice [] value = q ++ r -> r <> [] -> GetLengthPrefixedSlice q = None.
Proof.
  intros Hv Hq Hr. pose proof (zlen_nonneg value). assert (is_u32 (zlen value)) as Hu by (unfold is_u32; lia). unfold PutLengthPrefixedSlice, PutVarint32 in Hq. rewrite u32_small in Hq by done. cbn [app] in Hq.
  unfold GetLengthPrefixedSlice. apply app_eq_inv in Hq as [(k & Hk & ->)|(k & -> & ->)].
  - destruct k as [|b k].
    + rewrite app_nil_r in Hk. rewrite <- Hk. pose proof (get_varint32 (zlen value) [] Hu) as Hg. rewrite app_nil_r in Hg. rewrite Hg. cbn [app] in Hr.
      destruct (Z.leb_spec (zlen value) (@zlen byte [])); [|done]. change (@zlen byte []) with 0 in *. destruct value; [done|]. rewrite zlen_cons in *. pose proof (zlen_nonneg value). lia.
    + by rewrite (varint32_truncated (zlen value) q (b :: k)).
  - rewrite get_varint32 by done. rewrite zlen_app in *. destruct (Z.leb_spec (zlen k + zlen r) (zlen k)); [|done]. destruct r as [|b r]; [done|]. rewrite zlen_cons in *. pose proof (zlen_nonneg r). lia.
Qed.
