(* ===== verification/Bloom.v ===== *)
(** * Hashes and filters of LevelDB: util/hash.cc, util/bloom.cc *)

From S2P Require Import Prelude CommonData Coding.

(** ** [Hash] *)

Definition hash_m : Z := 0xc6a4a793.

Fixpoint hash_words (fuel : nat) (data : bytes) (h : Z) : bytes * Z :=
  match fuel with
  | O => (data, h)
  | S n =>
      if 4 <=? zlen data then
        let w := DecodeFixed32 data in
        let h := u32 (h + w) in
        let h := u32 (h * hash_m) in
        hash_words n (drop 4 data) (Z.lxor h (Z.shiftr h 16))
      else (data, h)
  end.

(** [switch (limit - data)] with its fall through. *)
Definition hash_rest (data : bytes) (h : Z) : Z :=
  let at_ i := bval (nth i data Byte.x00) in
  let h := if zlen data =? 3 then u32 (h + Z.shiftl (at_ 2%nat) 16) else h in
  let h := if (zlen data =? 3) || (zlen data =? 2) then u32 (h + Z.shiftl (at_ 1%nat) 8) else h in
  if (zlen data =? 3) || (zlen data =? 2) || (zlen data =? 1) then
    let h := u32 (h + at_ 0%nat) in
    let h := u32 (h * hash_m) in
    Z.lxor h (Z.shiftr h 24)
  else h.

Definition Hash (data : bytes) (seed : Z) : Z :=
  let h := u32 (Z.lxor seed (u64 (zlen data * hash_m))) in
  let '(data, h) := hash_words (length data) data h in
  hash_rest data h.

(** ** [BloomFilterPolicy] *)

Definition BloomHash (key : bytes) : Z := Hash key 0xbc9f1d34.

Record BloomFilterPolicy : Type := mkBloom { bits_per_key_ : Z; k_ : Z }.

(** The constructor; [product] is [static_cast<size_t>(bits_per_key * 0.69)],
    computed in floating point. *)
Definition newBloomFilterPolicy (bits_per_key product : Z) : BloomFilterPolicy :=
  let k := product in
  let k := if k <? 1 then 1 else k in
  let k := if 30 <? k then 30 else k in
  mkBloom bits_per_key k.

Definition delta_of (h : Z) : Z := Z.lor (Z.shiftr h 17) (u32 (Z.shiftl h 15)).

(** [array[bitpos/8] |= (1 << (bitpos % 8))] and the test of that bit. *)
Definition set_bit (array : bytes) (bitpos : Z) : bytes :=
  let i := Z.to_nat (bitpos / 8) in
  <[i := byte_of (Z.lor (bval (nth i array Byte.x00)) (Z.shiftl 1 (bitpos mod 8)))]> array.
Definition has_bit (array : bytes) (bitpos : Z) : bool :=
  negb (Z.land (bval (nth (Z.to_nat (bitpos / 8)) array Byte.x00)) (Z.shiftl 1 (bitpos mod 8)) =? 0).

Fixpoint set_loop (k : nat) (h delta bits : Z) (array : bytes) : bytes :=
  match k with
  | O => array
  | S j => set_loop j (u32 (h + delta)) delta bits (set_bit array (h mod bits))
  end.
Fixpoint match_loop (k : nat) (h delta bits : Z) (array : bytes) : bool :=
  match k with
  | O => true
  | S j => if has_bit array (h mod bits) then match_loop j (u32 (h + delta)) delta bits array else false
  end.

Definition add_key (p : BloomFilterPolicy) (bits : Z) (array key : bytes) : bytes :=
  let h := BloomHash key in set_loop (Z.to_nat (k_ p)) h (delta_of h) bits array.

(** [CreateFilter(keys, n, dst)]. *)
Definition CreateFilter (p : BloomFilterPolicy) (keys : list bytes) (dst : bytes) : bytes :=
  let bits := u64 (zlen keys * bits_per_key_ p) in
  let bits := if bits <? 64 then 64 else bits in
  let nbytes := u64 (bits + 7) / 8 in
  let bits := u64 (nbytes * 8) in
  let array := replicate (Z.to_nat nbytes) Byte.x00 ++ [byte_of (k_ p)] in
  dst ++ fold_left (add_key p bits) keys array.

(** A [char] converted to [size_t]. *)
Definition char_size (b : byte) : Z := if bval b <? 128 then bval b else u64 (bval b - 256).

Definition KeyMayMatch (key bloom_filter : bytes) : bool :=
  let len := zlen bloom_filter in
  if len <? 2 then false
  else
    let array := bloom_filter in
    let bits := u64 ((len - 1) * 8) in
    let k := char_size (nth (Z.to_nat (len - 1)) array Byte.x00) in
    if 30 <? k then true
    else let h := BloomHash key in match_loop (Z.to_nat k) h (delta_of h) bits array.

(** ** No false negatives *)

Lemma has_set_bit array p q : 0 <= p -> p / 8 < zlen array -> 0 <= q -> has_bit (set_bit array p) q = (p =? q) || has_bit array q.
Proof.
  intros Hp Hl Hq. unfold has_bit, set_bit. pose proof (Z.mod_pos_bound p 8 ltac:(lia)) as Hpm. pose proof (Z.mod_pos_bound q 8 ltac:(lia)) as Hqm.
  pose proof (Z.div_mod p 8 ltac:(lia)). pose proof (Z.div_mod q 8 ltac:(lia)). assert (0 <= p / 8) by (apply Z.div_pos; lia). assert (0 <= q / 8) by (apply Z.div_pos; lia).
  assert (forall b n, 0 <= n < 8 -> negb (Z.land (bval b) (Z.shiftl 1 n) =? 0) = Z.testbit (bval b) n) as Hbit.
  { intros b n Hn. rewrite Z.shiftl_mul_pow2, Z.mul_1_l by lia. destruct (Z.testbit (bval b) n) eqn:Ht.
    - apply negb_true_iff, Z.eqb_neq. intros Hz. assert (Z.testbit (Z.land (bval b) (2 ^ n)) n = false) as Hc by (by rewrite Hz, Z.bits_0).
      by rewrite Z.land_spec, Ht, Z.pow2_bits_true in Hc by lia.
    - apply negb_false_iff, Z.eqb_eq. apply Z.bits_inj'. intros k Hk. rewrite Z.land_spec, Z.bits_0, Z.pow2_bits_eqb by lia.
      destruct (Z.eqb_spec n k) as [<- |]; [by rewrite Ht|apply andb_false_r]. }
  rewrite !Hbit by done. destruct (Z.eq_dec (p / 8) (q / 8)) as [He|Hne].
  - rewrite <- He. rewrite (nth_lookup (<[_ := _]> array)), list_lookup_insert_eq by (unfold zlen in Hl; lia). cbn.
    rewrite bval_byte_of. change 256 with (2 ^ 8). rewrite Z.mod_pow2_bits_low, Z.lor_spec by lia. rewrite Z.shiftl_mul_pow2, Z.mul_1_l, Z.pow2_bits_eqb by lia.
    rewrite orb_comm. f_equal. apply eq_true_iff_eq. rewrite !Z.eqb_eq. lia.
  - rewrite !nth_lookup, list_lookup_insert_ne by lia. rewrite (proj2 (Z.eqb_neq p q)); [done|]. intros ->. done.
Qed.

Lemma length_set_bit array p : length (set_bit array p) = length array.
Proof. apply length_insert. Qed.

(** The array stays as long as it is, keeps its bits and its last byte. *)
Record extends (nbytes : Z) (a b : bytes) : Prop := {
  ex_len : length b = length a;
  ex_bits q : 0 <= q -> has_bit a q = true -> has_bit b q = true;
  ex_last : nth (Z.to_nat nbytes) b Byte.x00 = nth (Z.to_nat nbytes) a Byte.x00
}.
Lemma extends_refl n a : extends n a a.
Proof. by split. Qed.
Lemma extends_trans n a b c : extends n a b -> extends n b c -> extends n a c.
Proof. intros [] []. split; [congruence|auto|congruence]. Qed.

Section Filter.
Variables (nbytes : Z).
Abbreviation bits := (nbytes * 8).
Hypothesis Hn : 8 <= nbytes.

Lemma extends_set_bit a p : zlen a = nbytes + 1 -> 0 <= p < bits -> extends nbytes a (set_bit a p).
Proof.
  intros Hl Hp. assert (p / 8 < nbytes) by (apply Z.div_lt_upper_bound; lia). assert (0 <= p / 8) by (apply Z.div_pos; lia). split.
  - apply length_set_bit.
  - intros q Hq Hb. rewrite has_set_bit by lia. by rewrite Hb, orb_true_r.
  - unfold set_bit. rewrite !nth_lookup, list_lookup_insert_ne by lia. done.
Qed.

Lemma probe_range h : 0 <= h mod bits < bits.
Proof. apply Z.mod_pos_bound. lia. Qed.

Lemma set_loop_extends k h delta a : zlen a = nbytes + 1 -> extends nbytes a (set_loop k h delta bits a).
Proof.
  revert h a. induction k as [|k IH]; intros h a Hl; cbn [set_loop]; [apply extends_refl|]. pose proof (probe_range h) as Hp.
  eapply extends_trans; [by apply extends_set_bit|]. apply IH. unfold zlen. rewrite length_set_bit. exact Hl.
Qed.

(** A key whose bits are set matches, and they stay set. *)
Lemma match_set_loop k h delta a : zlen a = nbytes + 1 -> match_loop k h delta bits (set_loop k h delta bits a) = true.
Proof.
  revert h a. induction k as [|k IH]; intros h a Hl; cbn [set_loop match_loop]; [done|]. pose proof (probe_range h) as Hp.
  assert (zlen (set_bit a (h mod bits)) = nbytes + 1) as Hl' by (unfold zlen; rewrite length_set_bit; exact Hl).
  rewrite (ex_bits _ _ _ (set_loop_extends k (u32 (h + delta)) delta _ Hl')); [by apply IH|lia|].
  rewrite has_set_bit; [by rewrite Z.eqb_refl|lia|rewrite Hl; apply Z.div_lt_upper_bound; lia|lia].
Qed.
Lemma match_extends k h delta a b : extends nbytes a b -> match_loop k h delta bits a = true -> match_loop k h delta bits b = true.
Proof.
  intros Hab. revert h. induction k as [|k IH]; intros h; cbn [match_loop]; [done|]. destruct (has_bit a _) eqn:Hb; [|done].
  rewrite (ex_bits _ _ _ Hab) by (done || apply probe_range). apply IH.
Qed.

Lemma add_keys p keys a : zlen a = nbytes + 1 ->
  extends nbytes a (fold_left (add_key p bits) keys a) /\
  forall key, key ∈ keys -> match_loop (Z.to_nat (k_ p)) (BloomHash key) (delta_of (BloomHash key)) bits (fold_left (add_key p bits) keys a) = true.
Proof.
  revert a. induction keys as [|k keys IH]; intros a Hl; cbn [fold_left]; [split; [apply extends_refl|intros key Hk; by apply not_elem_of_nil in Hk]|].
  pose proof (set_loop_extends (Z.to_nat (k_ p)) (BloomHash k) (delta_of (BloomHash k)) a Hl) as He.
  assert (zlen (add_key p bits a k) = nbytes + 1) as Hl' by (unfold zlen, add_key; rewrite (ex_len _ _ _ He); exact Hl).
  destruct (IH (add_key p bits a k) Hl') as [He' Hm]. split; [by eapply extends_trans|]. intros key [-> |Hk]%elem_of_cons; [|by apply Hm].
  eapply match_extends; [exact He'|]. by apply match_set_loop.
Qed.
End Filter.

(** A Bloom filter has no false negatives. For any number of keys (as long
    as the filter fits the address space), the filter that [CreateFilter]
    appends for them, with any number of bits per key and from 1 to 30 probes,
    is matched by each of the keys. *)
Theorem bloom_no_false_negatives (p : BloomFilterPolicy) (keys : list bytes) (dst key : bytes) :
  1 <= k_ p <= 30 -> 0 <= bits_per_key_ p -> zlen keys * bits_per_key_ p < 2 ^ 60 -> key ∈ keys ->
  KeyMayMatch key (drop (length dst) (CreateFilter p keys dst)) = true.
Proof.
  intros Hk Hb Hs Hin. unfold CreateFilter. rewrite drop_app_length. pose proof (zlen_nonneg keys). rewrite (u64_small (zlen keys * _)) by (unfold is_u64; nia).
  set (b0 := if _ <? 64 then 64 else _). assert (64 <= b0 < 2 ^ 60) as Hb0 by (unfold b0; destruct (Z.ltb_spec (zlen keys * bits_per_key_ p) 64); lia). clearbody b0.
  rewrite (u64_small (b0 + 7)) by (unfold is_u64; lia). set (n := (b0 + 7) / 8). assert (8 <= n < 2 ^ 58) as Hn.
  { unfold n. pose proof (Z.div_mod (b0 + 7) 8 ltac:(lia)). pose proof (Z.mod_pos_bound (b0 + 7) 8 ltac:(lia)). lia. } clearbody n.
  rewrite (u64_small (n * 8)) by (unfold is_u64; lia). set (a := replicate (Z.to_nat n) Byte.x00 ++ [byte_of (k_ p)]).
  assert (zlen a = n + 1) as Hl by (unfold a, zlen; rewrite length_app, length_replicate; cbn; lia).
  destruct (add_keys n ltac:(lia) p keys a Hl) as [[Hlen _ Hlast] Hm]. set (f := fold_left _ keys a) in *.
  assert (zlen f = n + 1) as Hlf by (unfold zlen; rewrite Hlen; exact Hl). unfold KeyMayMatch. rewrite Hlf, (proj2 (Z.ltb_ge _ _)) by lia.
  replace (n + 1 - 1) with n by lia. rewrite (u64_small (n * 8)) by (unfold is_u64; lia).
  assert (char_size (nth (Z.to_nat n) f Byte.x00) = k_ p) as ->.
  { rewrite Hlast. unfold a. rewrite app_nth2 by (rewrite length_replicate; lia). rewrite length_replicate, Nat.sub_diag. cbn [nth].
    unfold char_size. rewrite bval_byte_of_small by lia. by rewrite (proj2 (Z.ltb_lt _ _)) by lia. }
  rewrite (proj2 (Z.ltb_ge _ _)) by lia. by apply Hm.
Qed.

Lemma bloom_no_false_negatives_witness :
  KeyMayMatch [Byte.x61] (drop 1 (CreateFilter (newBloomFilterPolicy 10 6) [[Byte.x62]; [Byte.x61]] [Byte.x00])) = true.
Proof. apply (bloom_no_false_negatives (newBloomFilterPolicy 10 6) [[Byte.x62]; [Byte.x61]] [Byte.x00]); [cbn; lia|cbn; lia|by vm_compute|right; left]. Defined.
