(* ===== verification/DbFormat.v ===== *)
(** * Keys of LevelDB: leveldb/slice.h, util/comparator.cc, db/dbformat.{h,cc}

    The interface of a comparator, the order of byte strings and the order of
    internal keys, which carry a sequence number and a type behind the key of
    the user. *)

From Stdlib Require String.
From S2P Require Import Prelude CommonData Coding Bloom.
Import BigEndian.

(** ** [Status]: a code and a message *)

Inductive LStatus :=
  | OK
  | NotFound (msg : String.string)
  | Corruption (msg : String.string)
  | NotSupported (msg : String.string)
  | InvalidArgument (msg : String.string)
  | IOError (msg : String.string).
Definition ok (s : LStatus) : bool := match s with OK => true | _ => false end.

(** ** Comparison of slices *)

(** The sign of [memcmp] on strings of the same length. *)
Fixpoint memcmp (a b : bytes) : Z :=
  match a, b with
  | x :: a, y :: b => if bval x <? bval y then -1 else if bval y <? bval x then 1 else memcmp a b
  | _, _ => 0
  end.

(** [Slice::compare]. *)
Definition compare (a b : bytes) : Z :=
  let min_len := Z.to_nat (if zlen a <? zlen b then zlen a else zlen b) in
  let r := memcmp (take min_len a) (take min_len b) in
  if r =? 0 then if zlen a <? zlen b then -1 else if zlen b <? zlen a then 1 else r else r.

(** ** Comparators *)

(** The virtual functions of [Comparator]; the two that change a string give
    the new one. *)
Record Comparator : Type := mkComparator {
  Compare : bytes -> bytes -> Z;
  FindShortestSeparator : bytes -> bytes -> bytes;
  FindShortSuccessor : bytes -> bytes
}.

(** What include/leveldb/comparator.h promises, for the strings in [dom], and
    [sep_same], of which it says nothing but on which the comparator of internal
    keys relies: a key is not changed when it is its own limit. Both comparators
    of the code are instances below. *)
Class ComparatorLaws (c : Comparator) (dom : bytes -> Prop) : Prop := {
  cmp_eq a b : dom a -> dom b -> Compare c a b = 0 <-> a = b;
  cmp_flip a b : dom a -> dom b -> Compare c a b < 0 <-> 0 < Compare c b a;
  cmp_trans a b d : dom a -> dom b -> dom d -> Compare c a b < 0 -> Compare c b d < 0 -> Compare c a d < 0;
  sep_dom a b : dom a -> dom b -> dom (FindShortestSeparator c a b);
  sep_low a b : dom a -> dom b -> Compare c a b < 0 -> Compare c a (FindShortestSeparator c a b) <= 0;
  sep_high a b : dom a -> dom b -> Compare c a b < 0 -> Compare c (FindShortestSeparator c a b) b < 0;
  sep_same a : dom a -> FindShortestSeparator c a a = a;
  succ_dom a : dom a -> dom (FindShortSuccessor c a);
  succ_low a : dom a -> Compare c a (FindShortSuccessor c a) <= 0
}.

(** ** [BytewiseComparatorImpl] *)

Fixpoint common_prefix (a b : bytes) : nat :=
  match a, b with
  | x :: a, y :: b => if decide (x = y) then S (common_prefix a b) else O
  | _, _ => O
  end.

Definition bytewise_separator (start limit : bytes) : bytes :=
  let min_length := Nat.min (length start) (length limit) in
  let diff_index := common_prefix start limit in
  if (min_length <=? diff_index)%nat then start
  else
    let diff_byte := bval (nth diff_index start Byte.x00) in
    if (diff_byte <? 0xff) && (diff_byte + 1 <? bval (nth diff_index limit Byte.x00))
    then take diff_index start ++ [byte_of (diff_byte + 1)]
    else start.

(** [i] is how far the loop has come: [key] is what is left from there on. *)
Fixpoint successor_loop (seen key : bytes) : option bytes :=
  match key with
  | [] => None
  | b :: key => if negb (bval b =? 0xff) then Some (seen ++ [byte_of (bval b + 1)]) else successor_loop (seen ++ [b]) key
  end.
Definition bytewise_successor (key : bytes) : bytes := match successor_loop [] key with Some k => k | None => key end.

Definition BytewiseComparator : Comparator := mkComparator compare bytewise_separator bytewise_successor.

(** ** Internal keys *)

Inductive ValueType := kTypeDeletion | kTypeValue.
Definition type_num (t : ValueType) : Z := match t with kTypeDeletion => 0 | kTypeValue => 1 end.
Definition kValueTypeForSeek : ValueType := kTypeValue.
Definition kMaxSequenceNumber : Z := Z.shiftl 1 56 - 1.

Record ParsedInternalKey : Type := mkParsed { user_key : bytes; sequence : Z; key_type : ValueType }.

Definition PackSequenceAndType (seq : Z) (t : ValueType) : Z := Z.lor (u64 (Z.shiftl seq 8)) (type_num t).
Definition AppendInternalKey (result : bytes) (key : ParsedInternalKey) : bytes :=
  PutFixed64 (result ++ user_key key) (PackSequenceAndType (sequence key) (key_type key)).
Definition InternalKey (key : bytes) (s : Z) (t : ValueType) : bytes := AppendInternalKey [] (mkParsed key s t).

(** [Slice(data, size - 8)] and the number in the last eight bytes. *)
Definition ExtractUserKey (internal_key : bytes) : bytes := take (length internal_key - 8) internal_key.
Definition key_num (internal_key : bytes) : Z := DecodeFixed64 (drop (length internal_key - 8) internal_key).

Definition ParseInternalKey (internal_key : bytes) : option ParsedInternalKey :=
  if zlen internal_key <? 8 then None
  else
    let num := key_num internal_key in
    let c := Z.land num 0xff in
    if c =? 0 then Some (mkParsed (ExtractUserKey internal_key) (Z.shiftr num 8) kTypeDeletion)
    else if c =? 1 then Some (mkParsed (ExtractUserKey internal_key) (Z.shiftr num 8) kTypeValue)
    else None.

Section Internal.
Variable user_comparator : Comparator.

Definition internal_compare (akey bkey : bytes) : Z :=
  let r := Compare user_comparator (ExtractUserKey akey) (ExtractUserKey bkey) in
  if r =? 0 then
    let anum := key_num akey in
    let bnum := key_num bkey in
    if bnum <? anum then -1 else if anum <? bnum then 1 else r
  else r.

Definition internal_separator (start limit : bytes) : bytes :=
  let user_start := ExtractUserKey start in
  let user_limit := ExtractUserKey limit in
  let tmp := FindShortestSeparator user_comparator user_start user_limit in
  if (zlen tmp <? zlen user_start) && (Compare user_comparator user_start tmp <? 0)
  then PutFixed64 tmp (PackSequenceAndType kMaxSequenceNumber kValueTypeForSeek)
  else start.

Definition internal_successor (key : bytes) : bytes :=
  let user_key := ExtractUserKey key in
  let tmp := FindShortSuccessor user_comparator user_key in
  if (zlen tmp <? zlen user_key) && (Compare user_comparator user_key tmp <? 0)
  then PutFixed64 tmp (PackSequenceAndType kMaxSequenceNumber kValueTypeForSeek)
  else key.

Definition InternalKeyComparator : Comparator := mkComparator internal_compare internal_separator internal_successor.
End Internal.

(** [InternalFilterPolicy]: the filters see the keys of the user. *)
Definition internal_CreateFilter (p : BloomFilterPolicy) (keys : list bytes) (dst : bytes) : bytes :=
  CreateFilter p (map ExtractUserKey keys) dst.
Definition internal_KeyMayMatch (key f : bytes) : bool := KeyMayMatch (ExtractUserKey key) f.

(** [LookupKey(user_key, s)]: the three slices of its buffer. *)
Record LookupKey : Type := mkLookup { memtable_key : bytes; internal_key : bytes; lookup_user_key : bytes }.
Definition newLookupKey (key : bytes) (s : Z) : LookupKey :=
  let ikey := key ++ EncodeFixed64 (PackSequenceAndType s kValueTypeForSeek) in
  mkLookup (EncodeVarint32 (u32 (zlen key + 8)) ++ ikey) ikey (take (length ikey - 8) ikey).

(** ** The order of byte strings *)

Lemma compare_nil_nil : compare [] [] = 0.
Proof. done. Qed.
Lemma compare_nil_cons y b : compare [] (y :: b) = -1.
Proof. unfold compare. rewrite zlen_cons. pose proof (zlen_nonneg b). change (zlen []) with 0. cbn. destruct (Z.ltb_spec 0 (1 + zlen b)); [done|lia]. Qed.
Lemma compare_cons_nil x a : compare (x :: a) [] = 1.
Proof.
  unfold compare. rewrite zlen_cons. pose proof (zlen_nonneg a). change (zlen []) with 0. destruct (Z.ltb_spec (1 + zlen a) 0); [lia|]. cbn.
  destruct (Z.ltb_spec 0 (1 + zlen a)); [done|lia].
Qed.
Lemma compare_cons_cons x a y b :
  compare (x :: a) (y :: b) = if bval x <? bval y then -1 else if bval y <? bval x then 1 else compare a b.
Proof.
  unfold compare. rewrite !zlen_cons. pose proof (zlen_nonneg a). pose proof (zlen_nonneg b).
  replace (1 + zlen a <? 1 + zlen b) with (zlen a <? zlen b) by (destruct (Z.ltb_spec (zlen a) (zlen b)), (Z.ltb_spec (1 + zlen a) (1 + zlen b)); lia || done).
  replace (1 + zlen b <? 1 + zlen a) with (zlen b <? zlen a) by (destruct (Z.ltb_spec (zlen b) (zlen a)), (Z.ltb_spec (1 + zlen b) (1 + zlen a)); lia || done).
  replace (Z.to_nat (if zlen a <? zlen b then 1 + zlen a else 1 + zlen b)) with (S (Z.to_nat (if zlen a <? zlen b then zlen a else zlen b)))
    by (destruct (zlen a <? zlen b); lia).
  cbn [take memcmp]. by destruct (bval x <? bval y), (bval y <? bval x).
Qed.

Ltac compare_step := rewrite ?compare_nil_nil, ?compare_nil_cons, ?compare_cons_nil, ?compare_cons_cons in *.
Ltac ltb_cases := repeat match goal with
  | |- context [?x <? ?y] => destruct (Z.ltb_spec x y)
  | H : context [?x <? ?y] |- _ => destruct (Z.ltb_spec x y)
  end.

Lemma compare_eq a b : compare a b = 0 <-> a = b.
Proof.
  revert b. induction a as [|x a IH]; intros [|y b]; compare_step; [done|done|done|]. ltb_cases; [split; [lia|intros [= -> ->]; lia]..|]. rewrite IH.
  assert (x = y) as -> by (apply bval_inj; lia). split; congruence.
Qed.
Lemma compare_flip a b : compare a b = - compare b a.
Proof. revert b. induction a as [|x a IH]; intros [|y b]; compare_step; [done..|]. ltb_cases; first [lia|apply IH]. Qed.
Lemma compare_refl a : compare a a = 0.
Proof. by apply compare_eq. Qed.
Lemma compare_trans a b d : compare a b < 0 -> compare b d < 0 -> compare a d < 0.
Proof.
  revert b d. induction a as [|x a IH]; intros [|y b] [|z d]; compare_step; try lia. ltb_cases; try lia. by apply IH.
Qed.
Lemma compare_app p a b : compare (p ++ a) (p ++ b) = compare a b.
Proof. induction p as [|x p IH]; [done|]. cbn [app]. compare_step. by rewrite Z.ltb_irrefl. Qed.

(** The strings up to and from the first difference. *)
Lemma common_prefix_split a b : (common_prefix a b < Nat.min (length a) (length b))%nat ->
  exists p x y a' b', a = p ++ x :: a' /\ b = p ++ y :: b' /\ x <> y /\ common_prefix a b = length p.
Proof.
  revert b. induction a as [|x a IH]; intros [|y b] Hlt; cbn [length common_prefix] in *; [lia..|]. destruct (decide (x = y)) as [->|Hxy].
  - destruct (IH b ltac:(lia)) as (p & x' & y' & a' & b' & -> & -> & Hne & Hp). exists (y :: p), x', y', a', b'. by rewrite Hp.
  - by exists [], x, y, a, b.
Qed.

(** The two ways [bytewise_separator] ends. *)
Lemma bytewise_separator_cases start limit :
  bytewise_separator start limit = start \/
  exists p x y a b, start = p ++ x :: a /\ limit = p ++ y :: b /\ bval x + 1 < bval y /\ bytewise_separator start limit = p ++ [byte_of (bval x + 1)].
Proof.
  unfold bytewise_separator. destruct (Nat.leb_spec (Nat.min (length start) (length limit)) (common_prefix start limit)) as [|Hlt]; [by left|].
  destruct (common_prefix_split start limit Hlt) as (p & x & y & a & b & -> & -> & Hxy & ->). rewrite !nth_middle.
  destruct (Z.ltb_spec (bval x) 255); [|by left]. destruct (Z.ltb_spec (bval x + 1) (bval y)); [|by left]. right. exists p, x, y, a, b. by rewrite take_app_length.
Qed.

Lemma bval_succ x : bval x < 255 -> bval (byte_of (bval x + 1)) = bval x + 1.
Proof. intros Hx. pose proof (bval_range x). rewrite bval_byte_of. apply Z.mod_small. lia. Qed.

Lemma bytewise_separator_between start limit : compare start limit < 0 ->
  compare start (bytewise_separator start limit) <= 0 /\ compare (bytewise_separator start limit) limit < 0.
Proof.
  intros Hlt. destruct (bytewise_separator_cases start limit) as [->|(p & x & y & a & b & -> & -> & Hxy & ->)]; [rewrite compare_refl; lia|].
  rewrite !compare_app. compare_step. pose proof (bval_range y). rewrite bval_succ by lia. ltb_cases; lia.
Qed.

Lemma successor_loop_spec seen key k : successor_loop seen key = Some k ->
  exists p x a, key = p ++ x :: a /\ bval x < 255 /\ k = seen ++ p ++ [byte_of (bval x + 1)].
Proof.
  revert seen. induction key as [|b key IH]; intros seen; [done|]. cbn [successor_loop]. pose proof (bval_range b).
  destruct (Z.eqb_spec (bval b) 255) as [|Hb]; cbn [negb].
  - intros (p & x & a & -> & Hx & ->)%IH. exists (b :: p), x, a. by rewrite <- app_assoc.
  - intros [= <-]. exists [], b, key. split; [done|]. split; [lia|done].
Qed.
Lemma bytewise_successor_after key : compare key (bytewise_successor key) <= 0.
Proof.
  unfold bytewise_successor. destruct (successor_loop [] key) as [k|] eqn:Hk; [|rewrite compare_refl; lia].
  apply successor_loop_spec in Hk as (p & x & a & -> & Hx & ->). cbn [app]. rewrite compare_app. compare_step. rewrite bval_succ by done. ltb_cases; lia.
Qed.

#[export] Instance bytewise_laws : ComparatorLaws BytewiseComparator (fun _ => True).
Proof.
  split; cbn [Compare FindShortestSeparator FindShortSuccessor BytewiseComparator]; intros; try done.
  - apply compare_eq.
  - rewrite (compare_flip a b). lia.
  - by eapply compare_trans.
  - by apply bytewise_separator_between.
  - by apply bytewise_separator_between.
  - destruct (bytewise_separator_cases a a) as [|(p & x & y & a' & b & -> & Hy & Hxy & _)]; [done|]. apply app_inv_head in Hy. injection Hy as <- <-. lia.
  - apply bytewise_successor_after.
Qed.

(** ** Internal keys as pairs *)

(** Strings long enough to be an internal key. *)
Definition internal (k : bytes) : Prop := (8 <= length k)%nat.

Lemma internal_split k : internal k -> k = ExtractUserKey k ++ EncodeFixed64 (key_num k).
Proof.
  intros Hk. unfold ExtractUserKey, key_num, DecodeFixed64, EncodeFixed64. unfold internal in Hk.
  assert (length (drop (length k - 8) k) = 8%nat) as Hd by (rewrite length_drop; lia).
  pose proof (le_bytes_le_val (drop (length k - 8) k)) as Hb. rewrite Hd in Hb. rewrite (take_ge (drop (length k - 8) k)) by lia. by rewrite Hb, take_drop.
Qed.
Lemma length_fixed64 n : length (EncodeFixed64 n) = 8%nat.
Proof. apply length_le_list. Qed.
Lemma internal_append u n : internal (u ++ EncodeFixed64 n).
Proof. unfold internal. rewrite length_app, length_fixed64. lia. Qed.
Lemma ExtractUserKey_append u n : ExtractUserKey (u ++ EncodeFixed64 n) = u.
Proof. unfold ExtractUserKey. rewrite length_app, length_fixed64, Nat.add_sub. apply take_app_length. Qed.
Lemma key_num_append u n : is_u64 n -> key_num (u ++ EncodeFixed64 n) = n.
Proof.
  intros Hn. unfold key_num. rewrite length_app, length_fixed64, Nat.add_sub, drop_app_length.
  rewrite <- (app_nil_r (EncodeFixed64 n)). by apply fixed64_roundtrip.
Qed.
Lemma key_num_range k : is_u64 (key_num k).
Proof.
  unfold key_num, DecodeFixed64. pose proof (le_val_range (take 8 (drop (length k - 8) k))) as Hv.
  assert (256 ^ zlen (take 8 (drop (length k - 8) k)) <= 256 ^ 8); [|unfold is_u64; lia].
  apply Z.pow_le_mono_r; [lia|]. unfold zlen. rewrite length_take. lia.
Qed.
Lemma internal_inj a b : internal a -> internal b -> ExtractUserKey a = ExtractUserKey b -> key_num a = key_num b -> a = b.
Proof. intros Ha Hb Hu Hn. rewrite (internal_split a), (internal_split b) by done. by rewrite Hu, Hn. Qed.

Lemma type_num_range t : 0 <= type_num t <= 1.
Proof. destruct t; cbn; lia. Qed.
Lemma Pack_add seq t : 0 <= seq <= kMaxSequenceNumber -> PackSequenceAndType seq t = 256 * seq + type_num t.
Proof.
  intros Hs. change kMaxSequenceNumber with (2 ^ 56 - 1) in Hs. unfold PackSequenceAndType. rewrite u64_small.
  - rewrite lor_shift_byte by (pose proof (type_num_range t); lia). lia.
  - rewrite Z.shiftl_mul_pow2 by lia. unfold is_u64. lia.
Qed.
Lemma Pack_range seq t : 0 <= seq <= kMaxSequenceNumber -> is_u64 (PackSequenceAndType seq t).
Proof.
  intros Hs. rewrite Pack_add by done. pose proof (type_num_range t). change kMaxSequenceNumber with (2 ^ 56 - 1) in Hs. unfold is_u64. lia.
Qed.
Create HintDb ikeys.
#[export] Hint Resolve internal_append key_num_range Pack_range : ikeys.

Lemma parse_internal_key u seq t : 0 <= seq <= kMaxSequenceNumber ->
  ParseInternalKey (u ++ EncodeFixed64 (PackSequenceAndType seq t)) = Some (mkParsed u seq t).
Proof.
  intros Hs. unfold ParseInternalKey. rewrite key_num_append, ExtractUserKey_append by (by apply Pack_range). unfold zlen.
  pose proof (internal_append u (PackSequenceAndType seq t)) as Hi. unfold internal in Hi. destruct (Z.ltb_spec (Z.of_nat (length (u ++ EncodeFixed64 (PackSequenceAndType seq t)))) 8); [lia|].
  rewrite Pack_add by done. pose proof (type_num_range t). change 255 with (Z.ones 8). rewrite Z.land_ones, Z.shiftr_div_pow2 by lia. change (2 ^ 8) with 256.
  replace ((256 * seq + type_num t) mod 256) with (type_num t) by (rewrite Z.add_comm, Z.mul_comm, Z_mod_plus_full, Z.mod_small by lia; done).
  replace ((256 * seq + type_num t) / 256) with seq by (rewrite Z.mul_comm, Z.div_add_l, Z.div_small by lia; lia). by destruct t.
Qed.

(** [ParseInternalKey] reads what [AppendInternalKey] wrote, and only that. *)
Lemma parse_internal_key_inv k p : ParseInternalKey k = Some p ->
  k = AppendInternalKey [] p /\ 0 <= sequence p <= kMaxSequenceNumber.
Proof.
  unfold ParseInternalKey. destruct (Z.ltb_spec (zlen k) 8) as [|Hl]; [done|]. unfold zlen in Hl. assert (internal k) as Hk by (unfold internal; lia).
  pose proof (key_num_range k) as Hn. unfold is_u64 in Hn. intros Hp.
  assert (exists t, Z.land (key_num k) 255 = type_num t /\ p = mkParsed (ExtractUserKey k) (Z.shiftr (key_num k) 8) t) as (t & Ht & ->).
  { destruct (Z.eqb_spec (Z.land (key_num k) 255) 0) as [Hc|]; [injection Hp as <-; by exists kTypeDeletion|].
    destruct (Z.eqb_spec (Z.land (key_num k) 255) 1) as [Hc|]; [injection Hp as <-; by exists kTypeValue|done]. }
  cbn [sequence]. change 255 with (Z.ones 8) in Ht. rewrite Z.land_ones in Ht by lia. rewrite Z.shiftr_div_pow2 by lia. change (2 ^ 8) with 256 in *. change kMaxSequenceNumber with (2 ^ 56 - 1).
  assert (0 <= key_num k / 256 <= 2 ^ 56 - 1) as Hq.
  { split; [apply Z.div_pos; lia|]. apply Z.lt_le_pred, Z.div_lt_upper_bound; lia. }
  split; [|done]. unfold AppendInternalKey, PutFixed64. cbn [user_key sequence key_type app]. rewrite Pack_add by done. rewrite <- Ht, <- Z.div_mod by lia. by apply internal_split.
Qed.

(** ** The order of internal keys *)

Section InternalLaws.
Context (user : Comparator) `{!ComparatorLaws user (fun _ => True)}.
Implicit Types a b : bytes.

Lemma user_flip a b : Compare user a b < 0 <-> 0 < Compare user b a.
Proof. by apply (cmp_flip (c := user) (dom := fun _ => True)). Qed.
Lemma user_eq a b : Compare user a b = 0 <-> a = b.
Proof. by apply (cmp_eq (c := user) (dom := fun _ => True)). Qed.
Lemma user_trans a b d : Compare user a b < 0 -> Compare user b d < 0 -> Compare user a d < 0.
Proof. by apply (cmp_trans (c := user) (dom := fun _ => True)). Qed.

(** By user key first, and the larger number first after that. *)
Lemma internal_lt a b : internal_compare user a b < 0 <->
  Compare user (ExtractUserKey a) (ExtractUserKey b) < 0 \/ ExtractUserKey a = ExtractUserKey b /\ key_num b < key_num a.
Proof.
  unfold internal_compare. rewrite <- user_eq. destruct (Z.eqb_spec (Compare user (ExtractUserKey a) (ExtractUserKey b)) 0); ltb_cases; lia.
Qed.
Lemma internal_eq a b : internal a -> internal b -> internal_compare user a b = 0 <-> a = b.
Proof.
  intros Ha Hb. unfold internal_compare. destruct (Z.eqb_spec (Compare user (ExtractUserKey a) (ExtractUserKey b)) 0) as [He|Hne].
  - apply user_eq in He. ltb_cases; [split; [lia|intros ->; lia]..|]. split; [|by intros ->; apply user_eq]. intros _. apply internal_inj; [done..|lia].
  - split; [lia|]. intros ->. destruct Hne. by apply user_eq.
Qed.
Lemma internal_flip a b : internal_compare user a b < 0 <-> 0 < internal_compare user b a.
Proof.
  rewrite internal_lt. unfold internal_compare. pose proof (user_flip (ExtractUserKey a) (ExtractUserKey b)) as Hf. pose proof (user_eq (ExtractUserKey b) (ExtractUserKey a)) as He.
  destruct (Z.eqb_spec (Compare user (ExtractUserKey b) (ExtractUserKey a)) 0) as [E|E].
  - rewrite Hf, E. apply He in E. rewrite E. ltb_cases; (split; [intros [?|[_ ?]]; lia|intros ?; right; split; [done|lia]]).
  - split; [intros [H|[H _]]|]; [by apply Hf|by destruct E; apply He|]. intros H. left. by apply Hf.
Qed.
Lemma internal_trans a b d : internal_compare user a b < 0 -> internal_compare user b d < 0 -> internal_compare user a d < 0.
Proof.
  rewrite !internal_lt. intros [Hab|[Hab Hn]] [Hbd|[Hbd Hm]].
  - left. by eapply user_trans.
  - left. by rewrite <- Hbd.
  - left. by rewrite Hab.
  - right. rewrite Hab. split; [done|lia].
Qed.

(** A user key with the earliest number is before every other entry of it. *)
Definition seek_tag : Z := PackSequenceAndType kMaxSequenceNumber kValueTypeForSeek.
Lemma internal_lt_seek a u : Compare user (ExtractUserKey a) u < 0 -> internal_compare user a (PutFixed64 u seek_tag) < 0.
Proof. intros Hu. apply internal_lt. left. unfold PutFixed64. by rewrite ExtractUserKey_append. Qed.
Lemma internal_seek_lt u b : Compare user u (ExtractUserKey b) < 0 -> internal_compare user (PutFixed64 u seek_tag) b < 0.
Proof. intros Hu. apply internal_lt. left. unfold PutFixed64. by rewrite ExtractUserKey_append. Qed.

Lemma internal_separator_cases a b : internal_separator user a b = a \/
  internal_separator user a b = PutFixed64 (FindShortestSeparator user (ExtractUserKey a) (ExtractUserKey b)) seek_tag /\
  zlen (FindShortestSeparator user (ExtractUserKey a) (ExtractUserKey b)) < zlen (ExtractUserKey a) /\
  Compare user (ExtractUserKey a) (FindShortestSeparator user (ExtractUserKey a) (ExtractUserKey b)) < 0.
Proof.
  unfold internal_separator. destruct (Z.ltb_spec (zlen (FindShortestSeparator user (ExtractUserKey a) (ExtractUserKey b))) (zlen (ExtractUserKey a))); [|by left].
  destruct (Z.ltb_spec (Compare user (ExtractUserKey a) (FindShortestSeparator user (ExtractUserKey a) (ExtractUserKey b))) 0); [by right|by left].
Qed.
Lemma internal_successor_cases a : internal_successor user a = a \/
  internal_successor user a = PutFixed64 (FindShortSuccessor user (ExtractUserKey a)) seek_tag /\
  Compare user (ExtractUserKey a) (FindShortSuccessor user (ExtractUserKey a)) < 0.
Proof.
  unfold internal_successor. destruct (zlen _ <? _); [|by left].
  destruct (Z.ltb_spec (Compare user (ExtractUserKey a) (FindShortSuccessor user (ExtractUserKey a))) 0); [by right|by left].
Qed.

Lemma internal_separator_between a b : internal a -> internal b -> internal_compare user a b < 0 ->
  internal_compare user a (internal_separator user a b) <= 0 /\ internal_compare user (internal_separator user a b) b < 0.
Proof.
  intros Ha Hb Hlt. destruct (internal_separator_cases a b) as [->|(-> & Hl & Hs)]; [by rewrite (proj2 (internal_eq a a Ha Ha) eq_refl)|].
  split; [apply Z.lt_le_incl; by apply internal_lt_seek|]. apply internal_seek_lt. apply internal_lt in Hlt as [Hu|[Hu _]].
  - by apply (sep_high (c := user) (dom := fun _ => True)).
  - rewrite <- Hu, (sep_same (c := user) (dom := fun _ => True)) in Hl by done. lia.
Qed.

#[export] Instance internal_laws : ComparatorLaws (InternalKeyComparator user) internal.
Proof.
  split; cbn [Compare FindShortestSeparator FindShortSuccessor InternalKeyComparator]; intros.
  - by apply internal_eq.
  - apply internal_flip.
  - by eapply internal_trans.
  - destruct (internal_separator_cases a b) as [->|(-> & _)]; [done|apply internal_append].
  - by apply internal_separator_between.
  - by apply internal_separator_between.
  - destruct (internal_separator_cases a a) as [|(_ & Hl & _)]; [done|]. rewrite (sep_same (c := user) (dom := fun _ => True)) in Hl by done. lia.
  - destruct (internal_successor_cases a) as [->|(-> & _)]; [done|apply internal_append].
  - destruct (internal_successor_cases a) as [->|(-> & Hs)]; [by rewrite (proj2 (internal_eq a a H H) eq_refl)|].
    apply Z.lt_le_incl. by apply internal_lt_seek.
Qed.
End InternalLaws.
