(* ===== verification/SkipList.v ===== *)
(** * The skip list of the memtable: db/skiplist.h, util/random.h

    The nodes live in an arena, as in the code: a pointer is an index of
    [nodes], and a null pointer is [None].  An operation gives [None] when it
    would read a link or a key that is not there, or does not come to an end. *)

From S2P Require Import Prelude.

(** ** [Random] *)

Definition rnd_M : Z := 2147483647.
Definition rnd_A : Z := 16807.

Definition newRandom (s : Z) : Z :=
  let seed_ := Z.land s 0x7fffffff in
  if (seed_ =? 0) || (seed_ =? 2147483647) then 1 else seed_.

Definition rnd_Next (seed_ : Z) : Z :=
  let product := u64 (seed_ * rnd_A) in
  let seed_ := u32 (Z.shiftr product 31 + Z.land product rnd_M) in
  if rnd_M <? seed_ then seed_ - rnd_M else seed_.

(** ** The list *)

Definition kMaxHeight : nat := 12.
Definition kBranching : Z := 4.

Record Node (K : Type) : Type := mkNode { node_key : option K; next_ : list (option nat) }.
Arguments mkNode {K}. Arguments node_key {K}. Arguments next_ {K}.

Record SkipList (K : Type) : Type := mkSkipList { nodes : list (Node K); max_height_ : nat; rnd_ : Z }.
Arguments mkSkipList {K}. Arguments nodes {K}. Arguments max_height_ {K}. Arguments rnd_ {K}.

Definition head_ : nat := 0.

(** [while (height < kMaxHeight && rnd_.Next() % kBranching == 0)]. *)
Fixpoint height_loop (fuel height : nat) (rnd : Z) : nat * Z :=
  match fuel with
  | O => (height, rnd)
  | S n => let rnd := rnd_Next rnd in if rnd mod kBranching =? 0 then height_loop n (S height) rnd else (height, rnd)
  end.
Definition RandomHeight (rnd : Z) : nat * Z := height_loop (kMaxHeight - 1) 1 rnd.

Section List.
Context {K : Type} (compare_ : K -> K -> Z).
Abbreviation sl := (SkipList K).

(** The constructor: the key of the head is never looked at. *)
Definition newSkipList : sl := mkSkipList [mkNode None (replicate kMaxHeight None)] 1 (newRandom 0xdeadbeef).

Definition node_Next (s : sl) (x n : nat) : option (option nat) := nodes s !! x ≫= fun nd => next_ nd !! n.
Definition SetNext (s : sl) (x n : nat) (p : option nat) : option sl :=
  nd ← nodes s !! x;
  if (n <? length (next_ nd))%nat
  then Some (mkSkipList (<[x := mkNode (node_key nd) (<[n := p]> (next_ nd))]> (nodes s)) (max_height_ s) (rnd_ s))
  else None.
Definition key_at (s : sl) (x : nat) : option K := nodes s !! x ≫= node_key.
(** The links of a new node are set before they are read. *)
Definition NewNode (s : sl) (key : K) (height : nat) : nat * sl :=
  (length (nodes s), mkSkipList (nodes s ++ [mkNode (Some key) (replicate height None)]) (max_height_ s) (rnd_ s)).

Definition KeyIsAfterNode (s : sl) (key : K) (n : option nat) : option bool :=
  match n with None => Some false | Some n => k ← key_at s n; Some (compare_ k key <? 0) end.

(** A round of a search either moves on along a level or goes down. *)
Definition search_fuel (s : sl) : nat := length (nodes s) + max_height_ s.

Fixpoint find_ge_loop (fuel : nat) (s : sl) (key : K) (x level : nat) (prev : list (option nat)) : option (option nat * list (option nat)) :=
  match fuel with
  | O => None
  | S f =>
      next ← node_Next s x level;
      after ← KeyIsAfterNode s key next;
      match after, next with
      | true, Some y => find_ge_loop f s key y level prev
      | _, _ =>
          let prev := <[level := Some x]> prev in
          match level with O => Some (next, prev) | S level => find_ge_loop f s key x level prev end
      end
  end.
Definition FindGreaterOrEqual (s : sl) (key : K) : option (option nat * list (option nat)) :=
  find_ge_loop (search_fuel s) s key head_ (max_height_ s - 1) (replicate kMaxHeight None).

Fixpoint find_lt_loop (fuel : nat) (s : sl) (key : K) (x level : nat) : option nat :=
  match fuel with
  | O => None
  | S f =>
      next ← node_Next s x level;
      down ← match next with None => Some true | Some y => k ← key_at s y; Some (0 <=? compare_ k key) end;
      match down, next with
      | false, Some y => find_lt_loop f s key y level
      | _, _ => match level with O => Some x | S level => find_lt_loop f s key x level end
      end
  end.
Definition FindLessThan (s : sl) (key : K) : option nat := find_lt_loop (search_fuel s) s key head_ (max_height_ s - 1).

Fixpoint find_last_loop (fuel : nat) (s : sl) (x level : nat) : option nat :=
  match fuel with
  | O => None
  | S f =>
      next ← node_Next s x level;
      match next with
      | None => match level with O => Some x | S level => find_last_loop f s x level end
      | Some y => find_last_loop f s y level
      end
  end.
Definition FindLast (s : sl) : option nat := find_last_loop (search_fuel s) s head_ (max_height_ s - 1).

(** The loop that links the new node [x] in on the levels from [i] on. *)
Fixpoint link_loop (n : nat) (s : sl) (x i : nat) (prev : list (option nat)) : option sl :=
  match n with
  | O => Some s
  | S n =>
      p ← mjoin (prev !! i);
      next ← node_Next s p i;
      s ← SetNext s x i next;
      s ← SetNext s p i (Some x);
      link_loop n s x (S i) prev
  end.

(** [for (int i = from; i < to; i++) prev[i] = head_]. *)
Fixpoint fill_prev (n from : nat) (prev : list (option nat)) : list (option nat) :=
  match n with O => prev | S n => fill_prev n (S from) (<[from := Some head_]> prev) end.

Definition Insert (s : sl) (key : K) : option sl :=
  '(_, prev) ← FindGreaterOrEqual s key;
  let '(height, rnd) := RandomHeight (rnd_ s) in
  let '(prev, max) :=
    if (max_height_ s <? height)%nat then (fill_prev (height - max_height_ s) (max_height_ s) prev, height) else (prev, max_height_ s) in
  let '(x, s) := NewNode (mkSkipList (nodes s) max rnd) key height in
  link_loop height s x 0 prev.

Definition Contains (s : sl) (key : K) : option bool :=
  '(x, _) ← FindGreaterOrEqual s key;
  match x with None => Some false | Some x => k ← key_at s x; Some (compare_ key k =? 0) end.

(** ** [Iterator]: its position is [node_] *)

Definition iter_Next (s : sl) (node_ : nat) : option (option nat) := node_Next s node_ 0.
Definition iter_Prev (s : sl) (node_ : nat) : option (option nat) :=
  k ← key_at s node_; n ← FindLessThan s k; Some (if (n =? head_)%nat then None else Some n).
Definition iter_Seek (s : sl) (target : K) : option (option nat) := fst <$> FindGreaterOrEqual s target.
Definition iter_SeekToFirst (s : sl) : option (option nat) := node_Next s head_ 0.
Definition iter_SeekToLast (s : sl) : option (option nat) := n ← FindLast s; Some (if (n =? head_)%nat then None else Some n).

(** All that [SeekToFirst] and [Next] come past. *)
Fixpoint walk (fuel : nat) (s : sl) (node : option nat) : option (list K) :=
  match node with
  | None => Some []
  | Some x =>
      match fuel with
      | O => None
      | S n => k ← key_at s x; next ← iter_Next s x; r ← walk n s next; Some (k :: r)
      end
  end.
Definition contents (s : sl) : option (list K) := first ← iter_SeekToFirst s; walk (length (nodes s)) s first.

(** All that [SeekToLast] and [Prev] come past. *)
Fixpoint walk_back (fuel : nat) (s : sl) (node : option nat) : option (list K) :=
  match node with
  | None => Some []
  | Some x =>
      match fuel with
      | O => None
      | S n => k ← key_at s x; prev ← iter_Prev s x; r ← walk_back n s prev; Some (k :: r)
      end
  end.
Definition contents_back (s : sl) : option (list K) := last ← iter_SeekToLast s; walk_back (length (nodes s)) s last.

(** Insertions one after the other. *)
Definition Insert_all (s : sl) (keys : list K) : option (sl) := foldl (fun s key => s ← s; Insert s key) (Some s) keys.
End List.

(** ** The random numbers *)

Lemma rnd_Next_spec seed_ : 1 <= seed_ < rnd_M -> rnd_Next seed_ = (seed_ * rnd_A) mod rnd_M /\ 1 <= rnd_Next seed_ < rnd_M.
Proof.
  unfold rnd_Next, rnd_M, rnd_A. intros Hs. rewrite u64_small by (unfold is_u64; lia). set (p := seed_ * 16807) in *.
  assert (Z.land p 2147483647 = p mod 2 ^ 31) as -> by (apply (Z.land_ones p 31); lia). rewrite Z.shiftr_div_pow2 by lia.
  pose proof (Z.mod_pos_bound p (2 ^ 31) ltac:(lia)) as Hlo. assert (0 <= p / 2 ^ 31 < 2 ^ 15) as Hhi by (split; [apply Z.div_pos; lia|apply Z.div_lt_upper_bound; lia]).
  rewrite u32_small by (unfold is_u32; lia). pose proof (Z.div_mod p (2 ^ 31) ltac:(lia)) as Hp.
  assert (p mod 2147483647 <> 0) as Hne.
  { intros Hz%Z.mod_divide; [|lia]. unfold p in Hz. rewrite Z.mul_comm in Hz. apply Z.gauss in Hz; [|done]. apply Z.divide_pos_le in Hz; lia. }
  set (q := p / 2 ^ 31) in *. set (r := p mod 2 ^ 31) in *.
  assert (p mod 2147483647 = (q + r) mod 2147483647) as Hm.
  { replace p with (q + r + q * 2147483647) by lia. apply Z_mod_plus_full. }
  pose proof (Z.mod_pos_bound p 2147483647 ltac:(lia)). rewrite Hm in *. destruct (Z.ltb_spec 2147483647 (q + r)).
  - assert ((q + r) mod 2147483647 = q + r - 2147483647) as E; [|lia].
    replace (q + r) with (q + r - 2147483647 + 1 * 2147483647) at 1 by lia. rewrite Z_mod_plus_full. apply Z.mod_small. lia.
  - destruct (decide (q + r = 2147483647)) as [E|]; [rewrite E in Hne; by rewrite Z_mod_same_full in Hne|]. rewrite Z.mod_small by lia. split; [done|]. lia.
Qed.

Lemma height_loop_range fuel height rnd : (height <= (height_loop fuel height rnd).1 <= height + fuel)%nat.
Proof.
  revert height rnd. induction fuel as [|n IH]; intros height rnd; cbn [height_loop fst]; [lia|]. destruct (_ =? _); [|cbn; lia].
  specialize (IH (S height) (rnd_Next rnd)). lia.
Qed.
Lemma RandomHeight_range rnd : (1 <= (RandomHeight rnd).1 <= kMaxHeight)%nat.
Proof. apply (height_loop_range (kMaxHeight - 1) 1). Qed.

(** ** What the nodes stand for

    The entries in the order of the lowest level, behind the head.  A link of
    level [i] goes to the next entry that is higher than [i]. *)

Record entry (K : Type) : Type := mkEntry { ptr : nat; ekey : option K; height : nat }.
Arguments mkEntry {K}. Arguments ptr {K}. Arguments ekey {K}. Arguments height {K}.

Section Spec.
Context {K : Type}.
Implicit Types (es l : list (entry K)) (e : entry K).

Definition hd_entry : entry K := mkEntry head_ None kMaxHeight.

Fixpoint nxt (i : nat) l : option nat :=
  match l with [] => None | e :: l => if (i <? height e)%nat then Some (ptr e) else nxt i l end.
Definition links (h : nat) l : list (option nat) := (fun i => nxt i l) <$> seq 0 h.
(** The last of [p] and the entries of [l] higher than [i]. *)
Fixpoint pred_ptr (i p : nat) l : nat :=
  match l with [] => p | e :: l => pred_ptr i (if (i <? height e)%nat then ptr e else p) l end.

Lemma links_lookup h l i : (i < h)%nat -> links h l !! i = Some (nxt i l).
Proof. intros Hi. unfold links. rewrite list_lookup_fmap, lookup_seq_lt by done. done. Qed.
Lemma length_links h l : length (links h l) = h.
Proof. unfold links. by rewrite length_fmap, length_seq. Qed.

Lemma nxt_app i l1 l2 : nxt i (l1 ++ l2) = match nxt i l1 with Some p => Some p | None => nxt i l2 end.
Proof. induction l1 as [|e l1 IH]; [done|]. cbn [app nxt]. by destruct (_ <? _)%nat. Qed.
Lemma nxt_Some i l p : nxt i l = Some p -> exists l1 e l2, l = l1 ++ e :: l2 /\ ptr e = p /\ (i < height e)%nat /\ nxt i l1 = None.
Proof.
  induction l as [|e l IH]; [done|]. cbn [nxt]. destruct (Nat.ltb_spec i (height e)) as [Hi|Hi].
  - intros [= <-]. by exists [], e, l.
  - intros (l1 & e' & l2 & -> & Hp & Hh & Hn)%IH. exists (e :: l1), e', l2. cbn [app nxt]. by destruct (Nat.ltb_spec i (height e)); [lia|].
Qed.
Lemma nxt_None_Forall i l : nxt i l = None <-> Forall (fun e => height e <= i)%nat l.
Proof.
  induction l as [|e l IH]; [done|]. cbn [nxt]. rewrite Forall_cons. destruct (Nat.ltb_spec i (height e)).
  - split; [done|lia].
  - rewrite IH. tauto.
Qed.
Lemma pred_ptr_app i p l1 l2 : pred_ptr i p (l1 ++ l2) = pred_ptr i (pred_ptr i p l1) l2.
Proof. revert p. induction l1 as [|e l1 IH]; intros p; [done|]. cbn [app pred_ptr]. apply IH. Qed.
Lemma pred_ptr_None i p l : nxt i l = None -> pred_ptr i p l = p.
Proof. revert p. induction l as [|e l IH]; intros p; [done|]. cbn [nxt pred_ptr]. destruct (_ <? _)%nat; [done|]. apply IH. Qed.

(** [rep s es]: the entries [es] are the list that [s] holds. *)
Record rep (s : SkipList K) es : Prop := {
  rep_nodes : forall l1 e l2, hd_entry :: es = l1 ++ e :: l2 -> nodes s !! ptr e = Some (mkNode (ekey e) (links (height e) l2));
  rep_ptrs : NoDup (ptr <$> hd_entry :: es);
  rep_keys : Forall (fun e => is_Some (ekey e)) es;
  rep_heights : Forall (fun e => 1 <= height e <= max_height_ s)%nat es;
  rep_max : (1 <= max_height_ s <= kMaxHeight)%nat;
  rep_count : (length es < length (nodes s))%nat
}.
Lemma here_is_pred (A A1 A2 : list (entry K)) x i : hd_entry :: A = A1 ++ x :: A2 -> (i < height x)%nat -> nxt i A2 = None -> pred_ptr i head_ A = ptr x.
Proof.
  intros HA Hi Hn. assert (pred_ptr i head_ (hd_entry :: A) = pred_ptr i head_ A) as <- by (cbn [pred_ptr ptr hd_entry]; by destruct (_ <? _)%nat).
  rewrite HA, pred_ptr_app. cbn [pred_ptr]. destruct (Nat.ltb_spec i (height x)); [|lia]. by apply pred_ptr_None.
Qed.
(** Where a link of level [i] leads when the entry is not the last below. *)
Lemma advance_to (A A1 A2 : list (entry K)) x i p : hd_entry :: A = A1 ++ x :: A2 -> nxt i A2 = Some p ->
  exists A1' y A2', hd_entry :: A = A1' ++ y :: A2' /\ ptr y = p /\ y ∈ A /\ (i < height y)%nat /\ (length A2' < length A2)%nat.
Proof.
  intros HA (l1 & y & l2 & -> & Hp & Hh & _)%nxt_Some. exists (A1 ++ x :: l1), y, l2. split; [by rewrite HA, <- app_assoc|]. split; [done|].
  split; [|split; [done|rewrite length_app; cbn; lia]]. assert (y ∈ hd_entry :: A) as Hy by (rewrite HA; set_solver).
  apply elem_of_cons in Hy as [->|]; [|done]. destruct A1 as [|a A1]; injection HA as Ha HA; [rewrite HA; set_solver|rewrite HA; set_solver].
Qed.
End Spec.

(** ** Searches *)

Section Search.
Context {K : Type} (compare_ : K -> K -> Z) (s : SkipList K) (A B : list (entry K)).
Hypothesis Hrep : rep s (A ++ B).
Implicit Types e x : entry K.

Lemma rep_node_Next x A1 A2 i : hd_entry :: A = A1 ++ x :: A2 -> (i < height x)%nat -> node_Next s (ptr x) i = Some (nxt i (A2 ++ B)).
Proof.
  intros HA Hi. unfold node_Next. rewrite (rep_nodes _ _ Hrep A1 x (A2 ++ B)); [cbn; by apply links_lookup|].
  rewrite app_comm_cons, HA, <- app_assoc. done.
Qed.
Lemma rep_key_at e : e ∈ A ++ B -> exists k, ekey e = Some k /\ key_at s (ptr e) = Some k.
Proof.
  intros He. pose proof (rep_keys _ _ Hrep) as Hk. rewrite Forall_forall in Hk. destruct (Hk e He) as [k Hek]. exists k. split; [done|].
  apply list_elem_of_split in He as (l1 & l2 & Hl). unfold key_at. rewrite (rep_nodes _ _ Hrep (hd_entry :: l1) e l2) by (by rewrite Hl). done.
Qed.
Lemma lowest_next : nxt 0 B = ptr <$> head B.
Proof.
  pose proof (rep_heights _ _ Hrep) as Hh. apply Forall_app in Hh as [_ Hh]. destruct B as [|e l]; [done|]. apply Forall_cons in Hh as [Hh _]. cbn [nxt head fmap option_fmap option_map].
  by destruct (Nat.ltb_spec 0 (height e)); [|lia].
Qed.

Fixpoint set_preds (level : nat) (prev : list (option nat)) : list (option nat) :=
  let prev := <[level := Some (pred_ptr level head_ A)]> prev in
  match level with O => prev | S level => set_preds level prev end.

Definition before (key : K) e : Prop := exists k, ekey e = Some k /\ compare_ k key < 0.
Definition notbefore (key : K) e : Prop := exists k, ekey e = Some k /\ 0 <= compare_ k key.

Section Split.
Variable key : K.
Hypothesis HA : Forall (before key) A.
Hypothesis HB : Forall (notbefore key) B.

Lemma KeyIsAfterNode_A e : e ∈ A -> KeyIsAfterNode compare_ s key (Some (ptr e)) = Some true.
Proof.
  intros He. destruct (rep_key_at e) as (k & Hk & Hs); [apply elem_of_app; by left|]. unfold KeyIsAfterNode. rewrite Hs. cbn. rewrite Forall_forall in HA.
  destruct (HA e He) as (k' & Hk' & Hlt). replace k with k' by congruence. by destruct (Z.ltb_spec (compare_ k' key) 0); [|lia].
Qed.
Lemma KeyIsAfterNode_B i : KeyIsAfterNode compare_ s key (nxt i B) = Some false.
Proof.
  destruct (nxt i B) as [p|] eqn:Hn; [|done]. apply nxt_Some in Hn as (l1 & e & l2 & HBe & <- & _). assert (e ∈ B) as He by (rewrite HBe; apply elem_of_app; right; left).
  destruct (rep_key_at e) as (k & Hk & Hs); [apply elem_of_app; by right|]. unfold KeyIsAfterNode. rewrite Hs. cbn. rewrite Forall_forall in HB.
  destruct (HB e He) as (k' & Hk' & Hge). replace k with k' by congruence. by destruct (Z.ltb_spec (compare_ k' key) 0); [lia|].
Qed.

Lemma find_ge_loop_spec fuel x A1 A2 level prev :
  hd_entry :: A = A1 ++ x :: A2 -> (level < height x)%nat -> (length A2 + level < fuel)%nat ->
  find_ge_loop compare_ fuel s key (ptr x) level prev = Some (ptr <$> head B, set_preds level prev).
Proof.
  revert x A1 A2 level prev. induction fuel as [|f IH]; intros x A1 A2 level prev Hx Hl Hf; [lia|]. cbn [find_ge_loop].
  rewrite (rep_node_Next x A1 A2) by done. cbn [mbind option_bind]. rewrite nxt_app. destruct (nxt level A2) as [p|] eqn:Hn.
  - destruct (advance_to A A1 A2 x level p Hx Hn) as (A1' & y & A2' & Hy & <- & Hin & Hh & Hlen). rewrite KeyIsAfterNode_A by done. cbn [mbind option_bind].
    eapply IH; [done..|lia].
  - rewrite KeyIsAfterNode_B. cbn [mbind option_bind]. pose proof (here_is_pred A A1 A2 x level Hx Hl Hn) as Hp. destruct level as [|l]; cbn [set_preds]; rewrite Hp.
    + by rewrite lowest_next.
    + eapply IH; [done|lia..].
Qed.

Lemma find_lt_loop_spec fuel x A1 A2 level :
  hd_entry :: A = A1 ++ x :: A2 -> (level < height x)%nat -> (length A2 + level < fuel)%nat ->
  find_lt_loop compare_ fuel s key (ptr x) level = Some (pred_ptr 0 head_ A).
Proof.
  revert x A1 A2 level. induction fuel as [|f IH]; intros x A1 A2 level Hx Hl Hf; [lia|]. cbn [find_lt_loop].
  rewrite (rep_node_Next x A1 A2) by done. cbn [mbind option_bind]. rewrite nxt_app. destruct (nxt level A2) as [p|] eqn:Hn.
  - destruct (advance_to A A1 A2 x level p Hx Hn) as (A1' & y & A2' & Hy & <- & Hin & Hh & Hlen). pose proof (KeyIsAfterNode_A y Hin) as Hk. unfold KeyIsAfterNode in Hk.
    destruct (key_at s (ptr y)) as [k|]; [|done]. cbn in Hk |- *. rewrite Z.leb_antisym. injection Hk as ->. cbn [negb]. eapply IH; [done..|lia].
  - pose proof (KeyIsAfterNode_B level) as Hk. pose proof (here_is_pred A A1 A2 x level Hx Hl Hn) as Hp.
    assert (forall f', match nxt level B with None => Some true | Some y => k ← key_at s y; Some (0 <=? compare_ k key) end ≫= f' = (f' true : option nat)) as ->.
    { intros f'. destruct (nxt level B) as [y|]; [|done]. unfold KeyIsAfterNode in Hk. destruct (key_at s y) as [k|]; [|done]. cbn in Hk |- *. rewrite Z.leb_antisym. by injection Hk as ->. }
    destruct level as [|l]; [by rewrite Hp|]. eapply IH; [done|lia..].
Qed.
End Split.
End Search.

Lemma find_last_loop_spec {K} (s : SkipList K) A fuel x A1 A2 level : rep s A ->
  hd_entry :: A = A1 ++ x :: A2 -> (level < height x)%nat -> (length A2 + level < fuel)%nat ->
  find_last_loop fuel s (ptr x) level = Some (pred_ptr 0 head_ A).
Proof.
  intros Hrep. rewrite <- (app_nil_r A) in Hrep. revert x A1 A2 level. induction fuel as [|f IH]; intros x A1 A2 level Hx Hl Hf; [lia|]. cbn [find_last_loop].
  rewrite (rep_node_Next s A [] Hrep x A1 A2) by done. cbn [mbind option_bind]. rewrite app_nil_r. destruct (nxt level A2) as [p|] eqn:Hn.
  - destruct (advance_to A A1 A2 x level p Hx Hn) as (A1' & y & A2' & Hy & <- & Hin & Hh & Hlen). eapply IH; [done..|lia].
  - pose proof (here_is_pred A A1 A2 x level Hx Hl Hn) as Hp. destruct level as [|l]; [by rewrite Hp|]. eapply IH; [done|lia..].
Qed.

(** ** Insertion *)

Lemma insert_fmap_seq {X} (f g : nat -> X) i v h : g i = v -> (forall j, j <> i -> g j = f j) -> <[i := v]> (f <$> seq 0 h) = g <$> seq 0 h.
Proof.
  intros Hi Hj. apply list_eq. intros j. rewrite list_lookup_fmap. destruct (decide (j = i)) as [->|Hne].
  - destruct (decide (i < h)%nat) as [Hlt|Hge].
    + rewrite list_lookup_insert_eq by (by rewrite length_fmap, length_seq). rewrite lookup_seq_lt by done. cbn. by rewrite Hi.
    + rewrite lookup_seq_ge by lia. apply lookup_ge_None. rewrite length_insert, length_fmap, length_seq. lia.
  - rewrite list_lookup_insert_ne by done. rewrite list_lookup_fmap. destruct (seq 0 h !! j) as [m|] eqn:Hm; [|done]. apply lookup_seq in Hm as [-> _]. cbn. by rewrite Hj.
Qed.

Section Link.
Context {K : Type} (A B : list (entry K)) (x : nat) (key : K) (h : nat).
Implicit Types (s : SkipList K) (y : entry K).
Definition new_entry : entry K := mkEntry x (Some key) h.

(** The links of an entry before the new one when [i] levels are done. *)
Definition mixed (i hy : nat) (A2 : list (entry K)) : list (option nat) :=
  (fun j => if (j <? i)%nat then nxt j (A2 ++ new_entry :: B) else nxt j (A2 ++ B)) <$> seq 0 hy.

Record mid (i : nat) s : Prop := {
  mid_A : forall A1 y A2, hd_entry :: A = A1 ++ y :: A2 -> nodes s !! ptr y = Some (mkNode (ekey y) (mixed i (height y) A2));
  mid_B : forall B1 y B2, B = B1 ++ y :: B2 -> nodes s !! ptr y = Some (mkNode (ekey y) (links (height y) B2));
  mid_x : nodes s !! x = Some (mkNode (Some key) ((fun j => if (j <? i)%nat then nxt j B else None) <$> seq 0 h))
}.

Hypothesis Hptrs : NoDup (ptr <$> hd_entry :: A ++ new_entry :: B).
Hypothesis Hh : (h <= kMaxHeight)%nat.

Lemma ptr_A_inj A1 y A2 A1' y' A2' : hd_entry :: A = A1 ++ y :: A2 -> hd_entry :: A = A1' ++ y' :: A2' -> ptr y = ptr y' -> A1 = A1' /\ y = y' /\ A2 = A2'.
Proof.
  intros H1 H2 Hp. assert (NoDup (ptr <$> hd_entry :: A)) as Hnd.
  { rewrite app_comm_cons, fmap_app in Hptrs. by apply NoDup_app in Hptrs as [? _]. }
  assert (length A1 = length A1') as Hl.
  { apply (NoDup_lookup _ _ _ (ptr y) Hnd); rewrite list_lookup_fmap.
    - by rewrite H1, list_lookup_middle.
    - by rewrite H2, list_lookup_middle, Hp. }
  rewrite H1 in H2. by apply app_inj_1 in H2 as [-> [= -> ->]].
Qed.
Lemma ptr_A_x A1 y A2 : hd_entry :: A = A1 ++ y :: A2 -> ptr y <> x.
Proof.
  intros Hy Hp. rewrite app_comm_cons, fmap_app in Hptrs. apply NoDup_app in Hptrs as (_ & Hd & _). apply (Hd (ptr y)).
  - rewrite Hy, fmap_app. apply elem_of_app. right. left.
  - cbn. rewrite Hp. left.
Qed.
Lemma ptr_B_A A1 y A2 B1 z B2 : hd_entry :: A = A1 ++ y :: A2 -> B = B1 ++ z :: B2 -> ptr z <> ptr y.
Proof.
  intros Hy Hz Hp. rewrite app_comm_cons, fmap_app in Hptrs. apply NoDup_app in Hptrs as (_ & Hd & _). apply (Hd (ptr y)).
  - rewrite Hy, fmap_app. apply elem_of_app. right. left.
  - rewrite <- Hp, Hz. cbn. right. rewrite fmap_app. apply elem_of_app. right. left.
Qed.
Lemma ptr_B_x B1 z B2 : B = B1 ++ z :: B2 -> ptr z <> x.
Proof.
  intros Hz Hp. rewrite app_comm_cons, fmap_app in Hptrs. apply NoDup_app in Hptrs as (_ & _ & Hd). cbn in Hd. apply NoDup_cons in Hd as [Hd _]. apply Hd.
  rewrite <- Hp, Hz, fmap_app. apply elem_of_app. right. left.
Qed.

(** The entry that the link of level [i] has to be put behind. *)
Lemma pred_exists i : (i < kMaxHeight)%nat ->
  exists A1 y A2, hd_entry :: A = A1 ++ y :: A2 /\ ptr y = pred_ptr i head_ A /\ (i < height y)%nat /\ nxt i A2 = None.
Proof.
  intros Hi. clear Hptrs. induction A as [|e l IH] using rev_ind.
  - by exists [], hd_entry, [].
  - destruct IH as (A1 & y & A2 & Hy & Hp & Hhy & Hn). rewrite pred_ptr_app. cbn [pred_ptr]. destruct (Nat.ltb_spec i (height e)) as [He|He].
    + exists (hd_entry :: l), e, []. by rewrite app_comm_cons.
    + exists A1, y, (A2 ++ [e]). rewrite app_comm_cons, Hy, <- app_assoc. split; [done|]. split; [done|]. split; [done|].
      rewrite nxt_app, Hn. cbn [nxt]. by destruct (Nat.ltb_spec i (height e)); [lia|].
Qed.

Lemma SetNext_lookup s s' p n v q : SetNext s p n v = Some s' -> p <> q -> nodes s' !! q = nodes s !! q.
Proof.
  unfold SetNext. destruct (nodes s !! p) as [nd|]; [|done]. cbn [mbind option_bind]. destruct (_ <? _)%nat; [|done]. intros [= <-] Hne. cbn. by rewrite list_lookup_insert_ne.
Qed.
Lemma SetNext_node s p n v nd : nodes s !! p = Some nd -> (n < length (next_ nd))%nat ->
  exists s', SetNext s p n v = Some s' /\ nodes s' !! p = Some (mkNode (node_key nd) (<[n := v]> (next_ nd))) /\
    length (nodes s') = length (nodes s) /\ max_height_ s' = max_height_ s /\ rnd_ s' = rnd_ s.
Proof.
  intros Hp Hn. unfold SetNext. rewrite Hp. cbn [mbind option_bind]. destruct (Nat.ltb_spec n (length (next_ nd))); [|lia]. eexists. split; [done|]. cbn.
  rewrite list_lookup_insert_eq by (by eapply lookup_lt_Some). rewrite length_insert. done.
Qed.

Lemma length_mixed i hy A2 : length (mixed i hy A2) = hy.
Proof. unfold mixed. by rewrite length_fmap, length_seq. Qed.
Lemma mixed_lookup i hy A2 : (i < hy)%nat -> mixed i hy A2 !! i = Some (nxt i (A2 ++ B)).
Proof. intros Hi. unfold mixed. rewrite list_lookup_fmap, lookup_seq_lt by done. cbn [fmap option_fmap option_map Nat.add]. by rewrite Nat.ltb_irrefl. Qed.
Lemma ltb_S j i : j <> i -> (j <? S i)%nat = (j <? i)%nat.
Proof. intros Hj. destruct (Nat.ltb_spec j (S i)), (Nat.ltb_spec j i); lia || done. Qed.
(** One level more: the link of the entry before changes, the others stay. *)
Lemma mixed_here i hy A2 : (i < h)%nat -> nxt i A2 = None -> <[i := Some x]> (mixed i hy A2) = mixed (S i) hy A2.
Proof.
  intros Hi Hn. apply insert_fmap_seq.
  - destruct (Nat.ltb_spec i (S i)); [|lia]. rewrite nxt_app, Hn. cbn [nxt height new_entry ptr]. by destruct (Nat.ltb_spec i h); [|lia].
  - intros j Hj. by rewrite ltb_S.
Qed.
Lemma mixed_there i hy A2 : (hy <= i)%nat \/ nxt i A2 <> None -> mixed i hy A2 = mixed (S i) hy A2.
Proof.
  intros Hor. apply list_fmap_ext. intros j m Hm. apply lookup_seq in Hm as [-> Hm]. cbn [Nat.add]. destruct (decide (j = i)) as [->|Hne]; [|by rewrite ltb_S].
  rewrite Nat.ltb_irrefl. destruct (Nat.ltb_spec i (S i)); [|lia]. destruct Hor as [|Hn]; [lia|]. rewrite !nxt_app. by destruct (nxt i A2).
Qed.

Lemma mid_step i s : (i < h)%nat -> mid i s ->
  exists next s1 s2, node_Next s (pred_ptr i head_ A) i = Some next /\ SetNext s x i next = Some s1 /\ SetNext s1 (pred_ptr i head_ A) i (Some x) = Some s2 /\
    mid (S i) s2 /\ length (nodes s2) = length (nodes s) /\ max_height_ s2 = max_height_ s /\ rnd_ s2 = rnd_ s.
Proof.
  intros Hi [HmA HmB Hmx]. destruct (pred_exists i ltac:(lia)) as (A1 & y & A2 & Hy & <- & Hhy & Hn). pose proof (ptr_A_x A1 y A2 Hy) as Hyx.
  destruct (SetNext_node s x i (nxt i B) _ Hmx) as (s1 & Hs1 & Hx1 & Hl1 & Hm1 & Hr1); [cbn [next_]; by rewrite length_fmap, length_seq|].
  assert (nodes s1 !! ptr y = Some (mkNode (ekey y) (mixed i (height y) A2))) as Hy1 by (rewrite (SetNext_lookup _ _ _ _ _ _ Hs1) by done; by apply (HmA A1)).
  destruct (SetNext_node s1 (ptr y) i (Some x) _ Hy1) as (s2 & Hs2 & Hy2 & Hl2 & Hm2 & Hr2); [cbn [next_]; by rewrite length_mixed|].
  exists (nxt i B), s1, s2. split; [|split; [done|split; [done|]]].
  { unfold node_Next. rewrite (HmA A1 y A2 Hy). cbn [mbind option_bind next_]. rewrite mixed_lookup by done. by rewrite nxt_app, Hn. }
  split; [|repeat split; congruence]. split.
  - intros A1' y' A2' Hy'. destruct (decide (ptr y' = ptr y)) as [He|Hne].
    + destruct (ptr_A_inj A1' y' A2' A1 y A2 Hy' Hy He) as (-> & -> & ->). rewrite Hy2. cbn [node_key next_]. by rewrite mixed_here.
    + rewrite (SetNext_lookup _ _ _ _ _ _ Hs2), (SetNext_lookup _ _ _ _ _ _ Hs1), (HmA A1' y' A2' Hy') by (pose proof (ptr_A_x A1' y' A2' Hy'); congruence).
      do 2 f_equal. apply mixed_there. destruct (decide (height y' <= i)%nat); [by left|right]. intros Hn'. apply Hne.
      rewrite <- (here_is_pred A A1' A2' y' i), <- (here_is_pred A A1 A2 y i); [done|done|lia|done|done|lia|done].
  - intros B1 z B2 Hz. pose proof (ptr_B_A A1 y A2 B1 z B2 Hy Hz). pose proof (ptr_B_x B1 z B2 Hz).
    rewrite (SetNext_lookup _ _ _ _ _ _ Hs2), (SetNext_lookup _ _ _ _ _ _ Hs1) by congruence. by apply (HmB B1).
  - rewrite (SetNext_lookup _ _ _ _ _ _ Hs2), Hx1 by done. cbn [node_key next_]. do 2 f_equal. apply insert_fmap_seq.
    + by destruct (Nat.ltb_spec i (S i)); [|lia].
    + intros j Hj. by rewrite ltb_S.
Qed.

Lemma link_loop_spec n i s prev : (i + n = h)%nat -> mid i s -> (forall j, (j < h)%nat -> prev !! j = Some (Some (pred_ptr j head_ A))) ->
  exists s', link_loop n s x i prev = Some s' /\ mid h s' /\ length (nodes s') = length (nodes s) /\ max_height_ s' = max_height_ s /\ rnd_ s' = rnd_ s.
Proof.
  revert i s. induction n as [|n IH]; intros i s Hin Hm Hp.
  - replace h with i by lia. by exists s.
  - destruct (mid_step i s ltac:(lia) Hm) as (next & s1 & s2 & Hn & Hs1 & Hs2 & Hm2 & Hl2 & Hx2 & Hr2). cbn [link_loop]. rewrite Hp by lia. cbn [mjoin option_join mbind option_bind].
    rewrite Hn. cbn [mbind option_bind]. rewrite Hs1. cbn [mbind option_bind]. rewrite Hs2. cbn [mbind option_bind].
    destruct (IH (S i) s2 ltac:(lia) Hm2 Hp) as (s' & Hs' & Hm' & Hl' & Hx' & Hr'). exists s'. repeat split; [done|apply Hm'..|congruence|congruence|congruence].
Qed.

Lemma mixed_done hy A2 : mixed h hy A2 = links hy (A2 ++ new_entry :: B).
Proof.
  apply list_fmap_ext. intros j m Hm. apply lookup_seq in Hm as [-> Hm]. cbn [Nat.add]. destruct (Nat.ltb_spec j h); [done|].
  rewrite !nxt_app. cbn [nxt height new_entry]. by destruct (Nat.ltb_spec j h); [lia|].
Qed.
Lemma mid_new s : mid h s -> nodes s !! ptr new_entry = Some (mkNode (ekey new_entry) (links (height new_entry) B)).
Proof.
  intros Hm. change (ptr new_entry) with x. rewrite (mid_x _ _ Hm). cbn [ekey height new_entry]. do 2 f_equal. apply list_fmap_ext.
  intros j m Hj. apply lookup_seq in Hj as [-> Hj]. cbn [Nat.add]. by destruct (Nat.ltb_spec j h); [|lia].
Qed.
Lemma mid_done s l1 e l2 : mid h s -> hd_entry :: A ++ new_entry :: B = l1 ++ e :: l2 -> nodes s !! ptr e = Some (mkNode (ekey e) (links (height e) l2)).
Proof.
  intros Hm He. rewrite app_comm_cons in He. apply app_eq_inv in He as [(k & HA & Hk)|(k & -> & Hk)]; destruct k as [|e' k]; injection Hk.
  - intros -> ->. by apply mid_new.
  - intros -> ->. rewrite (mid_A _ _ Hm l1 e' k HA). by rewrite mixed_done.
  - intros <- <-. by apply mid_new.
  - intros HB <-. by apply (mid_B _ _ Hm k).
Qed.
End Link.

(** ** The list as an ordered set of keys *)

(** What [compare_] promises for the keys in [valid]. *)
Class KeyOrder {K : Type} (compare_ : K -> K -> Z) (valid : K -> Prop) : Prop := {
  ko_flip a b : valid a -> valid b -> compare_ a b < 0 <-> 0 < compare_ b a;
  ko_trans a b d : valid a -> valid b -> valid d -> compare_ a b < 0 -> compare_ b d < 0 -> compare_ a d < 0;
  ko_same a b d : valid a -> valid b -> valid d -> compare_ a b = 0 -> compare_ d a = compare_ d b
}.

Section Ordered.
Context {K : Type} (compare_ : K -> K -> Z) (valid : K -> Prop) `{!KeyOrder compare_ valid}.
Implicit Types (s : SkipList K) (ks : list K) (key : K).

Definition sorted ks : Prop := StronglySorted (fun a b => compare_ a b < 0) ks.
Definition below key ks : list K := filter (fun k => compare_ k key < 0) ks.
Definition from key ks : list K := filter (fun k => 0 <= compare_ k key) ks.
Definition insert_key key ks : list K := below key ks ++ key :: from key ks.

Lemma filter_none (P : K -> Prop) `{!forall k, Decision (P k)} ks : Forall (fun k => ~ P k) ks -> filter P ks = [].
Proof. induction 1; [done|]. by rewrite filter_cons_False. Qed.
Lemma filter_all (P : K -> Prop) `{!forall k, Decision (P k)} ks : Forall P ks -> filter P ks = ks.
Proof. induction 1; [done|]. rewrite filter_cons_True by done. by f_equal. Qed.

Lemma below_from key ks : Forall valid ks -> valid key -> sorted ks -> ks = below key ks ++ from key ks.
Proof.
  intros Hv Hk Hs. unfold below, from. induction Hs as [|k ks Hs IH Hall]; [done|]. apply Forall_cons in Hv as [Hvk Hv]. rewrite !filter_cons.
  destruct (decide (compare_ k key < 0)) as [Hlt|Hge].
  - rewrite decide_False by lia. cbn [app]. f_equal. by apply IH.
  - rewrite decide_True by lia. assert (Forall (fun a => 0 <= compare_ a key) ks) as Hge'.
    { rewrite !Forall_forall in *. intros a Ha. destruct (Z.lt_ge_cases (compare_ a key) 0) as [Hlt|]; [|lia]. destruct Hge.
      apply (ko_trans k a); [done|by apply Hv|done|by apply Hall|done]. }
    rewrite filter_none, filter_all; [done|done|]. eapply Forall_impl; [exact Hge'|]. cbn. lia.
Qed.

Lemma below_all key ks : Forall (fun k => compare_ k key < 0) (below key ks).
Proof. apply Forall_forall. intros k Hk. by apply list_elem_of_filter in Hk as [? _]. Qed.
Lemma from_all key ks : Forall (fun k => 0 <= compare_ k key) (from key ks).
Proof. apply Forall_forall. intros k Hk. by apply list_elem_of_filter in Hk as [? _]. Qed.
Lemma insert_key_perm key ks : insert_key key ks ≡ₚ key :: ks.
Proof.
  unfold insert_key. rewrite <- Permutation_middle. apply Permutation_skip. rewrite <- (filter_app_complement (fun k => compare_ k key < 0) ks) at 3.
  apply Permutation_app_head. unfold from. rewrite (list_filter_iff (fun k => 0 <= compare_ k key) (fun k => ~ compare_ k key < 0)) by (intros; lia). done.
Qed.
Lemma insert_key_valid key ks : valid key -> Forall valid ks -> Forall valid (insert_key key ks).
Proof. intros Hk Hks. rewrite insert_key_perm. by constructor. Qed.

Lemma insert_key_sorted key ks : valid key -> Forall valid ks -> Forall (fun k => compare_ k key <> 0) ks -> sorted ks -> sorted (insert_key key ks).
Proof.
  intros Hk Hks Hne Hs. pose proof (below_from key ks Hks Hk Hs) as Hsplit. unfold sorted in Hs. rewrite Hsplit in Hs. apply StronglySorted_app in Hs as (Hc & Hb & Hf).
  unfold insert_key, sorted. rewrite !Forall_forall in *. pose proof (below_all key ks) as Hba. pose proof (from_all key ks) as Hfa. rewrite !Forall_forall in *.
  assert (forall b, b ∈ from key ks -> compare_ key b < 0) as Hkb.
  { intros b Hb'. assert (b ∈ ks) as Hin by (rewrite Hsplit; apply elem_of_app; by right). pose proof (Hfa b Hb'). pose proof (Hne b Hin).
    apply (ko_flip key b); [done|by apply Hks|lia]. }
  apply StronglySorted_app. split; [|split; [done|]].
  - intros a b Ha [->|Hb']%elem_of_cons; [by apply Hba|by apply Hc].
  - constructor; [done|]. by apply Forall_forall.
Qed.

(** [holds s ks]: the keys of [s] are [ks], in this order. *)
Record holds s ks : Prop := {
  holds_rep : exists es, rep s es /\ ekey <$> es = Some <$> ks;
  holds_valid : Forall valid ks;
  holds_sorted : sorted ks
}.

Lemma newSkipList_holds : holds newSkipList [].
Proof.
  split; [exists []; split; [|done]|constructor|constructor]. split.
  - intros [|e0 l1] e l2 He; injection He as <- He; [|by destruct l1]. by subst.
  - apply NoDup_singleton.
  - constructor.
  - constructor.
  - unfold kMaxHeight. cbn [max_height_ newSkipList]. lia.
  - cbn [length nodes newSkipList]. lia.
Qed.

(** The entries before and from a key. *)
Lemma entries_split es ks key : ekey <$> es = Some <$> ks -> Forall valid ks -> sorted ks -> valid key -> exists A B, es = A ++ B /\
  ekey <$> A = Some <$> below key ks /\ ekey <$> B = Some <$> from key ks /\ Forall (before compare_ key) A /\ Forall (notbefore compare_ key) B.
Proof.
  intros He Hv Hs Hk. rewrite (below_from key ks Hv Hk Hs), fmap_app in He. apply fmap_app_inv in He as (A & B & HA & HB & ->).
  exists A, B. split; [done|]. split; [done|]. split; [done|].
  assert (forall (Q : K -> Prop) l ks', ekey <$> l = Some <$> ks' -> Forall Q ks' -> Forall (fun e => exists k, ekey e = Some k /\ Q k) l) as Hlift.
  { intros Q l. induction l as [|e l IH]; intros [|k ks'] Hl HQ; [constructor|done|done|]. injection Hl as He Hl. apply Forall_cons in HQ as [HQ HQs].
    constructor; [by exists k|by eapply IH]. }
  split; [apply (Hlift (fun k => compare_ k key < 0) A _ (eq_sym HA)); apply below_all|apply (Hlift (fun k => 0 <= compare_ k key) B _ (eq_sym HB)); apply from_all].
Qed.
Lemma holds_split s ks key : holds s ks -> valid key -> exists A B, rep s (A ++ B) /\ ekey <$> A = Some <$> below key ks /\ ekey <$> B = Some <$> from key ks /\
  Forall (before compare_ key) A /\ Forall (notbefore compare_ key) B.
Proof.
  intros [(es & Hr & He) Hv Hs] Hk. destruct (entries_split es ks key He Hv Hs Hk) as (A & B & -> & HA). by exists A, B.
Qed.

Lemma set_preds_lookup (A : list (entry K)) level prev j : (level < length prev)%nat ->
  set_preds A level prev !! j = if (j <=? level)%nat then Some (Some (pred_ptr j head_ A)) else prev !! j.
Proof.
  revert prev. induction level as [|l IH]; intros prev Hl; cbn [set_preds].
  - destruct (Nat.leb_spec j 0).
    + replace j with 0%nat by lia. by rewrite list_lookup_insert_eq.
    + by rewrite list_lookup_insert_ne by lia.
  - rewrite IH by (rewrite length_insert; lia). destruct (Nat.leb_spec j l), (Nat.leb_spec j (S l)); [done|lia| |by rewrite list_lookup_insert_ne by lia].
    replace j with (S l) by lia. by rewrite list_lookup_insert_eq by lia.
Qed.
Lemma length_set_preds (A : list (entry K)) level prev : length (set_preds A level prev) = length prev.
Proof. revert prev. induction level as [|l IH]; intros prev; cbn [set_preds]; [by rewrite length_insert|]. by rewrite IH, length_insert. Qed.

Lemma FindGreaterOrEqual_spec s key A B : rep s (A ++ B) -> Forall (before compare_ key) A -> Forall (notbefore compare_ key) B ->
  FindGreaterOrEqual compare_ s key = Some (ptr <$> head B, set_preds A (max_height_ s - 1) (replicate kMaxHeight None)).
Proof.
  intros Hr HA HB. pose proof (rep_max _ _ Hr). pose proof (rep_count _ _ Hr) as Hc. rewrite length_app in Hc.
  apply (find_ge_loop_spec compare_ s A B Hr key HA HB (search_fuel s) hd_entry [] A); [done|cbn [height hd_entry]; lia|unfold search_fuel; lia].
Qed.

Lemma fill_prev_lookup n from prev j : (from + n <= length prev)%nat ->
  fill_prev n from prev !! j = if (from <=? j)%nat && (j <? from + n)%nat then Some (Some head_) else prev !! j.
Proof.
  revert from prev. induction n as [|n IH]; intros from prev Hl; cbn [fill_prev].
  - rewrite Nat.add_0_r. destruct (Nat.leb_spec from j), (Nat.ltb_spec j from); cbn [andb]; lia || done.
  - rewrite IH by (rewrite length_insert; lia). destruct (Nat.leb_spec (S from) j), (Nat.ltb_spec j (S from + n)), (Nat.leb_spec from j), (Nat.ltb_spec j (from + S n)); cbn [andb]; try lia; try done;
      (by rewrite list_lookup_insert_ne by lia) || (replace j with from by lia; by rewrite list_lookup_insert_eq by lia).
Qed.

(** Above all entries, the head comes before the new node. *)
Lemma pred_ptr_top (A : list (entry K)) m i p : Forall (fun e => 1 <= height e <= m)%nat A -> (m <= i)%nat -> pred_ptr i p A = p.
Proof.
  intros HA Hi. apply pred_ptr_None, nxt_None_Forall. eapply Forall_impl; [exact HA|]. cbn. lia.
Qed.

Lemma rep_ptr_lt s (es : list (entry K)) p : rep s es -> p ∈ ptr <$> hd_entry :: es -> (p < length (nodes s))%nat.
Proof.
  intros Hr (e & -> & He)%list_elem_of_fmap. apply list_elem_of_split in He as (l1 & l2 & He). pose proof (rep_nodes _ _ Hr l1 e l2 He) as Hn. by eapply lookup_lt_Some.
Qed.
Lemma rep_new_ptrs s (A B : list (entry K)) key h : rep s (A ++ B) -> NoDup (ptr <$> hd_entry :: A ++ new_entry (length (nodes s)) key h :: B).
Proof.
  intros Hr. pose proof (rep_ptrs _ _ Hr) as Hnd. assert (length (nodes s) ∉ ptr <$> hd_entry :: A ++ B) as Hx.
  { intros Hin. pose proof (rep_ptr_lt s (A ++ B) _ Hr Hin). lia. }
  rewrite app_comm_cons, fmap_app in *. rewrite (fmap_cons _ (new_entry _ _ _)). rewrite <- Permutation_middle. by constructor.
Qed.

(** The new node is there and no link leads to it yet. *)
Lemma mid_start s (A B : list (entry K)) key h m r : rep s (A ++ B) ->
  mid A B (length (nodes s)) key h 0 (mkSkipList (nodes s ++ [mkNode (Some key) (replicate h None)]) m r).
Proof.
  intros Hr. split; cbn [nodes].
  - intros A1 y A2 Hy. assert (hd_entry :: A ++ B = A1 ++ y :: A2 ++ B) as Hn by (rewrite app_comm_cons, Hy, <- app_assoc; done).
    apply (rep_nodes _ _ Hr) in Hn. rewrite lookup_app_l by (by eapply lookup_lt_Some). exact Hn.
  - intros B1 y B2 Hy. assert (hd_entry :: A ++ B = (hd_entry :: A ++ B1) ++ y :: B2) as Hn by (rewrite Hy; cbn; by rewrite <- app_assoc).
    apply (rep_nodes _ _ Hr) in Hn. rewrite lookup_app_l by (by eapply lookup_lt_Some). exact Hn.
  - rewrite list_lookup_middle by done. do 2 f_equal. apply list_eq. intros j. rewrite list_lookup_fmap. destruct (decide (j < h)%nat).
    + rewrite lookup_seq_lt, lookup_replicate_2 by done. done.
    + rewrite lookup_seq_ge by lia. apply lookup_ge_None. rewrite length_replicate. lia.
Qed.

Lemma Insert_prev s (A B : list (entry K)) h prev : rep s (A ++ B) -> (h <= kMaxHeight)%nat ->
  prev = set_preds A (max_height_ s - 1) (replicate kMaxHeight None) ->
  forall j, (j < h)%nat ->
  (if (max_height_ s <? h)%nat then fill_prev (h - max_height_ s) (max_height_ s) prev else prev) !! j = Some (Some (pred_ptr j head_ A)).
Proof.
  intros Hr Hh -> j Hj. pose proof (rep_max _ _ Hr) as Hm. pose proof (rep_heights _ _ Hr) as Hhs. apply Forall_app in Hhs as [HA _].
  assert (max_height_ s - 1 < length (replicate kMaxHeight (@None nat)))%nat as Hlen by (rewrite length_replicate; lia).
  assert (forall i, (i < max_height_ s)%nat -> set_preds A (max_height_ s - 1) (replicate kMaxHeight None) !! i = Some (Some (pred_ptr i head_ A))) as Hp.
  { intros i Hi. rewrite set_preds_lookup by done. by destruct (Nat.leb_spec i (max_height_ s - 1)); [|lia]. }
  destruct (Nat.ltb_spec (max_height_ s) h); [|apply Hp; lia].
  rewrite fill_prev_lookup by (rewrite length_set_preds, length_replicate; lia).
  destruct (Nat.leb_spec (max_height_ s) j); cbn [andb].
  - destruct (Nat.ltb_spec j (max_height_ s + (h - max_height_ s))); [|lia]. by rewrite (pred_ptr_top A (max_height_ s)).
  - by apply Hp.
Qed.

Lemma Insert_rep s key A B : rep s (A ++ B) -> Forall (before compare_ key) A -> Forall (notbefore compare_ key) B ->
  exists s' h, Insert compare_ s key = Some s' /\ rep s' (A ++ new_entry (length (nodes s)) key h :: B).
Proof.
  intros Hr HA HB. unfold Insert. rewrite (FindGreaterOrEqual_spec s key A B) by done. cbn [mbind option_bind].
  pose proof (RandomHeight_range (rnd_ s)) as Hh. destruct (RandomHeight (rnd_ s)) as [h rnd]. cbn [fst] in Hh.
  set (prev := set_preds A (max_height_ s - 1) (replicate kMaxHeight None)).
  set (prev' := if (max_height_ s <? h)%nat then fill_prev (h - max_height_ s) (max_height_ s) prev else prev).
  set (m := if (max_height_ s <? h)%nat then h else max_height_ s).
  assert ((if (max_height_ s <? h)%nat then (fill_prev (h - max_height_ s) (max_height_ s) prev, h) else (prev, max_height_ s)) = (prev', m)) as -> by (unfold prev', m; by destruct (_ <? _)%nat).
  cbn [NewNode nodes max_height_ rnd_]. pose proof (rep_max _ _ Hr) as Hmax. pose proof (rep_heights _ _ Hr) as Hhs. pose proof (rep_count _ _ Hr) as Hc. rewrite length_app in Hc.
  assert (m = Nat.max (max_height_ s) h) as Hm by (unfold m; destruct (Nat.ltb_spec (max_height_ s) h); lia).
  destruct (link_loop_spec A B (length (nodes s)) key h (rep_new_ptrs s A B key h Hr) ltac:(lia) h 0 _ prev' ltac:(lia) (mid_start s A B key h m rnd Hr)) as (s' & Hs' & Hmid & Hl & Hx & Hr').
  { apply (Insert_prev s A B h prev Hr); [lia|done]. }
  exists s', h. split; [exact Hs'|]. cbn in Hl, Hx. rewrite length_app in Hl. cbn [length] in Hl. apply Forall_app in Hhs as [HhA HhB].
  pose proof (rep_keys _ _ Hr) as Hk. apply Forall_app in Hk as [HkA HkB]. split.
  - intros l1 e l2 He. apply (mid_done A B (length (nodes s)) key h ltac:(lia) s' l1); done.
  - by apply rep_new_ptrs.
  - apply Forall_app. split; [done|]. constructor; [by eexists|done].
  - rewrite Hx, Hm. apply Forall_app. split; [eapply Forall_impl; [exact HhA|cbn; lia]|]. constructor; [cbn; lia|eapply Forall_impl; [exact HhB|cbn; lia]].
  - lia.
  - rewrite length_app. cbn [length]. lia.
Qed.

Lemma Insert_holds s ks key : holds s ks -> valid key -> Forall (fun k => compare_ k key <> 0) ks ->
  exists s', Insert compare_ s key = Some s' /\ holds s' (insert_key key ks).
Proof.
  intros Hs Hk Hne. destruct (holds_split s ks key Hs Hk) as (A & B & Hr & HA & HB & HbA & HbB). destruct (Insert_rep s key A B Hr HbA HbB) as (s' & h & Hi & Hr').
  exists s'. split; [done|]. destruct Hs as [_ Hv Hs]. split; [|by apply insert_key_valid|by apply insert_key_sorted]. eexists. split; [exact Hr'|].
  unfold insert_key. rewrite !fmap_app, !fmap_cons. by rewrite HA, HB.
Qed.

(** ** Iteration *)

Lemma keys_app_inv (l : list (entry K)) k1 k2 : ekey <$> l = Some <$> k1 ++ k2 -> exists l1 l2, l = l1 ++ l2 /\ ekey <$> l1 = Some <$> k1 /\ ekey <$> l2 = Some <$> k2.
Proof. rewrite fmap_app. intros (l1 & l2 & H1 & H2 & ->)%fmap_app_inv. by exists l1, l2. Qed.
Lemma rep_node_at s es l1 e l2 k : rep s es -> es = l1 ++ e :: l2 -> ekey e = Some k -> key_at s (ptr e) = Some k /\ node_Next s (ptr e) 0 = Some (nxt 0 l2) /\ nxt 0 (e :: l2) = Some (ptr e).
Proof.
  intros Hr -> Hk. pose proof (rep_nodes _ _ Hr (hd_entry :: l1) e l2 eq_refl) as Hn. pose proof (rep_heights _ _ Hr) as Hh. apply Forall_app in Hh as [_ Hh]. apply Forall_cons in Hh as [Hh _].
  unfold key_at, node_Next. rewrite Hn. cbn [mbind option_bind node_key next_]. rewrite links_lookup by lia. split; [done|]. split; [done|]. cbn [nxt]. by destruct (Nat.ltb_spec 0 (height e)); [|lia].
Qed.
Lemma walk_spec s es fuel l1 l2 ks : rep s es -> es = l1 ++ l2 -> ekey <$> l2 = Some <$> ks -> (length l2 <= fuel)%nat -> walk fuel s (nxt 0 l2) = Some ks.
Proof.
  intros Hr. revert l1 l2 ks. induction fuel as [|n IH]; intros l1 [|e l2] [|k ks] He Hk Hf; cbn [length] in *; try done; try lia. injection Hk as Hk Hks.
  destruct (rep_node_at s es l1 e l2 k Hr He Hk) as (Hka & Hnx & Hn0). rewrite Hn0. cbn [walk]. rewrite Hka. unfold iter_Next. rewrite Hnx. cbn [mbind option_bind].
  rewrite (IH (l1 ++ [e]) l2 ks); [done|by rewrite <- app_assoc|done|lia].
Qed.
Lemma contents_spec s ks : holds s ks -> contents s = Some ks.
Proof.
  intros [(es & Hr & He) _ _]. unfold contents, iter_SeekToFirst. change head_ with (ptr (hd_entry (K := K))). pose proof (rep_count _ _ Hr). rewrite (rep_node_Next s [] es Hr hd_entry [] [] 0 eq_refl) by (unfold hd_entry, kMaxHeight; cbn [height]; lia).
  cbn [mbind option_bind app]. apply (walk_spec s es _ [] es); [done..|lia].
Qed.

Lemma Seek_spec s ks key : holds s ks -> valid key ->
  exists x, iter_Seek compare_ s key = Some x /\ walk (length (nodes s)) s x = Some (from key ks) /\
    (x = None /\ from key ks = [] \/ exists p k r, x = Some p /\ key_at s p = Some k /\ from key ks = k :: r).
Proof.
  intros Hs Hk. destruct (holds_split s ks key Hs Hk) as (A & B & Hr & HA & HB & HbA & HbB). pose proof (rep_count _ _ Hr) as Hc. rewrite length_app in Hc.
  unfold iter_Seek. rewrite (FindGreaterOrEqual_spec s key A B) by done. eexists. split; [done|]. cbn [fst]. rewrite <- (lowest_next s A B Hr). split.
  - apply (walk_spec s (A ++ B) _ A B); [done..|lia].
  - destruct B as [|e B], (from key ks) as [|k ks']; [by left|done|done|right]. injection HB as Hek _. destruct (rep_node_at s _ A e B k Hr eq_refl Hek) as (Hka & _ & Hn).
    by exists (ptr e), k, ks'.
Qed.

Lemma from_sorted_hit key ks k : Forall valid ks -> valid key -> sorted ks -> k ∈ ks -> compare_ key k = 0 -> exists r, from key ks = k :: r.
Proof.
  intros Hv Hk Hs Hin H0. unfold from. induction Hs as [|a ks Hs IH Hall]; [by apply not_elem_of_nil in Hin|]. apply Forall_cons in Hv as [Hva Hv].
  apply elem_of_cons in Hin as [->|Hin].
  - rewrite filter_cons_True; [by eexists|]. pose proof (ko_flip a key Hva Hk). lia.
  - rewrite filter_cons_False; [by apply IH|]. rewrite Forall_forall in Hall, Hv. specialize (Hall k Hin). cbn in Hall. rewrite (ko_same key k a Hk (Hv k Hin) Hva H0). lia.
Qed.
Lemma Contains_spec s ks key : holds s ks -> valid key -> Contains compare_ s key = Some (existsb (fun k => compare_ key k =? 0) ks).
Proof.
  intros Hs Hk. destruct (Seek_spec s ks key Hs Hk) as (x & Hx & _ & Hkey). unfold iter_Seek in Hx. unfold Contains. destruct Hs as [_ Hv Hso].
  destruct (FindGreaterOrEqual compare_ s key) as [[x' prev]|]; [|done]. injection Hx as ->. cbn [mbind option_bind].
  destruct (existsb (fun k => compare_ key k =? 0) ks) eqn:He.
  - apply existsb_exists in He as (k & Hin & H0). apply Z.eqb_eq in H0. apply list_elem_of_In in Hin. destruct (from_sorted_hit key ks k Hv Hk Hso Hin H0) as [r Hr]. rewrite Hr in Hkey.
    destruct Hkey as [[_ ?]|(p & k' & r' & -> & Hp & [= <- <-])]; [done|]. rewrite Hp. cbn. by rewrite H0.
  - destruct Hkey as [[-> _]|(p & k & r & -> & Hp & Hf)]; [done|]. rewrite Hp. cbn [mbind option_bind].
    destruct (Z.eqb_spec (compare_ key k) 0) as [H0|]; [|done]. assert (existsb (fun k => compare_ key k =? 0) ks = true); [|congruence].
    apply existsb_exists. exists k. split; [|by apply Z.eqb_eq]. apply list_elem_of_In. assert (k ∈ from key ks) as Hin by (rewrite Hf; left). by apply list_elem_of_filter in Hin as [_ ?].
Qed.

(** Before an entry stand those with smaller keys. *)
Lemma below_of_sorted k1 k k2 : sorted (k1 ++ k :: k2) -> Forall valid (k1 ++ k :: k2) -> below k (k1 ++ k :: k2) = k1.
Proof.
  intros Hs Hv. apply StronglySorted_app in Hs as (H12 & _ & H2). apply StronglySorted_cons in H2 as [H2 _]. apply Forall_app in Hv as [Hv1 Hv2]. apply Forall_cons in Hv2 as [Hvk Hv2].
  unfold below. rewrite filter_app, filter_all, filter_none; [by rewrite app_nil_r| |apply Forall_forall; intros a Ha; apply H12; [done|left]].
  constructor; [pose proof (ko_flip k k Hvk Hvk); lia|]. rewrite Forall_forall in *. intros a Ha. pose proof (H2 a Ha) as Hlt. apply (ko_flip k a Hvk (Hv2 a Ha)) in Hlt. lia.
Qed.
Lemma FindLessThan_spec s l1 e l2 ks k : rep s (l1 ++ e :: l2) -> ekey <$> l1 ++ e :: l2 = Some <$> ks -> Forall valid ks -> sorted ks -> ekey e = Some k ->
  FindLessThan compare_ s k = Some (pred_ptr 0 head_ l1).
Proof.
  intros Hr He Hv Hs Hek. assert (exists k1 k2, ks = k1 ++ k :: k2 /\ length k1 = length l1) as (k1 & k2 & -> & Hl).
  { rewrite fmap_app in He. symmetry in He. apply fmap_app_inv in He as (k1 & k2 & H1 & H2 & ->). destruct k2 as [|k' k2]; [done|]. injection H2 as H2 _. exists k1, k2.
    split; [congruence|]. by rewrite <- (length_fmap Some), <- H1, length_fmap. }
  assert (valid k) as Hvk by (apply Forall_app in Hv as [_ Hv]; by apply Forall_cons in Hv as [? _]).
  destruct (entries_split _ _ k He Hv Hs Hvk) as (A & B & HAB & HA & HB & HbA & HbB). rewrite below_of_sorted in HA by done.
  assert (l1 = A) as ->.
  { apply (f_equal (take (length l1))) in HAB. rewrite take_app_length in HAB. rewrite HAB at 1. apply take_app_length'. rewrite <- Hl, <- (length_fmap Some k1), <- HA. by rewrite length_fmap. }
  apply app_inv_head in HAB. rewrite HAB in Hr. pose proof (rep_max _ _ Hr). pose proof (rep_count _ _ Hr) as Hc. rewrite length_app in Hc.
  apply (find_lt_loop_spec compare_ s A B Hr k HbA HbB (search_fuel s) hd_entry [] A); [done|cbn [height hd_entry]; lia|unfold search_fuel; lia].
Qed.

Lemma pred_ptr_snoc (l : list (entry K)) e p : (1 <= height e)%nat -> pred_ptr 0 p (l ++ [e]) = ptr e.
Proof. intros He. rewrite pred_ptr_app. cbn [pred_ptr]. by destruct (Nat.ltb_spec 0 (height e)); [|lia]. Qed.
(** The position of the last of [l]. *)
Definition last_pos (l : list (entry K)) : option nat := let n := pred_ptr 0 head_ l in if (n =? head_)%nat then None else Some n.
Lemma last_pos_nil : last_pos [] = None.
Proof. done. Qed.
Lemma last_pos_snoc s l e r : rep s (l ++ e :: r) -> last_pos (l ++ [e]) = Some (ptr e).
Proof.
  intros Hr. pose proof (rep_heights _ _ Hr) as Hh. apply Forall_app in Hh as [_ Hh]. apply Forall_cons in Hh as [Hh _]. unfold last_pos. rewrite pred_ptr_snoc by lia.
  pose proof (rep_ptrs _ _ Hr) as Hp. rewrite fmap_cons in Hp. apply NoDup_cons in Hp as [Hp _]. destruct (Nat.eqb_spec (ptr e) head_) as [E|]; [|done]. destruct Hp. cbn [ptr hd_entry].
  rewrite <- E, fmap_app. apply elem_of_app. right. left.
Qed.
Lemma walk_back_spec s es ks fuel l1 l2 ks1 : rep s es -> ekey <$> es = Some <$> ks -> Forall valid ks -> sorted ks -> es = l1 ++ l2 -> ekey <$> l1 = Some <$> ks1 -> (length l1 <= fuel)%nat ->
  walk_back compare_ fuel s (last_pos l1) = Some (reverse ks1).
Proof.
  intros Hr He Hv Hs. revert l1 l2 ks1. induction fuel as [|n IH]; intros l1 l2 ks1 Hes Hk Hf.
  - destruct l1; [|cbn in Hf; lia]. by destruct ks1.
  - destruct l1 as [|e l1 _] using rev_ind; [by destruct ks1|]. rewrite fmap_app in Hk. symmetry in Hk. apply fmap_app_inv in Hk as (k1 & k2 & H1 & H2 & ->).
    destruct k2 as [|k [|]]; [done| |done]. injection H2 as Hek. rewrite <- app_assoc in Hes. cbn [app] in Hes. rewrite Hes in Hr. rewrite (last_pos_snoc s l1 e l2 Hr). cbn [walk_back].
    destruct (rep_node_at s _ l1 e l2 k Hr eq_refl Hek) as (Hka & _). rewrite Hka. unfold iter_Prev. rewrite Hka. cbn [mbind option_bind]. rewrite Hes in He.
    rewrite (FindLessThan_spec s l1 e l2 ks k) by done. cbn [mbind option_bind]. rewrite <- Hes in Hr.
    assert ((if (pred_ptr 0 head_ l1 =? head_)%nat then None else Some (pred_ptr 0 head_ l1)) = last_pos l1) as -> by done.
    rewrite (IH l1 (e :: l2) k1); [cbn; by rewrite reverse_app|done|done|rewrite length_app in Hf; cbn in Hf; lia].
Qed.
Lemma contents_back_spec s ks : holds s ks -> contents_back compare_ s = Some (reverse ks).
Proof.
  intros [(es & Hr & He) Hv Hs]. unfold contents_back, iter_SeekToLast, FindLast. pose proof (rep_count _ _ Hr). pose proof (rep_max _ _ Hr). change head_ with (ptr (hd_entry (K := K))) at 1.
  rewrite (find_last_loop_spec s es (search_fuel s) hd_entry [] es); [|done|done|cbn [height hd_entry]; lia|unfold search_fuel; lia]. cbn [mbind option_bind].
  apply (walk_back_spec s es ks _ es [] ks); [done..|by rewrite app_nil_r|done|lia].
Qed.

Definition distinct (keys : list K) : Prop := StronglySorted (fun a b => compare_ a b <> 0) keys.

Lemma Insert_all_holds s ks keys : holds s ks -> Forall valid keys -> distinct keys -> (forall a b, a ∈ ks -> b ∈ keys -> compare_ a b <> 0) ->
  exists s' ks', Insert_all compare_ s keys = Some s' /\ holds s' ks' /\ ks' ≡ₚ ks ++ keys.
Proof.
  intros Hs Hv Hd. revert s ks Hs. induction Hd as [|key keys Hd IH Hk]; intros s ks Hs Hne.
  - exists s, ks. by rewrite app_nil_r.
  - apply Forall_cons in Hv as [Hvk Hv]. destruct (Insert_holds s ks key Hs Hvk) as (s1 & Hi & Hs1); [apply Forall_forall; intros a Ha; apply Hne; [done|left]|].
    destruct (IH Hv s1 _ Hs1) as (s' & ks' & Ha & Hs' & Hp).
    { intros a b Ha Hb. rewrite insert_key_perm in Ha. rewrite Forall_forall in Hk. apply elem_of_cons in Ha as [->|Ha]; [by apply Hk|]. apply Hne; [done|by right]. }
    exists s', ks'. unfold Insert_all in *. cbn [foldl mbind option_bind]. rewrite Hi. split; [done|]. split; [done|]. rewrite Hp, insert_key_perm. by rewrite <- Permutation_middle.
Qed.

(** C17. Whatever distinct keys are inserted, in whatever order, the list then
    holds them in order: the iterators come past all of them, forwards and
    backwards, [Contains] tells which keys are there, and [Seek] stops at the
    first key that is not smaller.  Every search comes to an end and reads
    only links that exist. *)
Theorem skiplist_ordered_set keys : Forall valid keys -> distinct keys ->
  exists s ks, Insert_all compare_ newSkipList keys = Some s /\ ks ≡ₚ keys /\ sorted ks /\
    contents s = Some ks /\ contents_back compare_ s = Some (reverse ks) /\
    forall key, valid key -> Contains compare_ s key = Some (existsb (fun k => compare_ key k =? 0) ks) /\
      exists x, iter_Seek compare_ s key = Some x /\ walk (length (nodes s)) s x = Some (filter (fun k => 0 <= compare_ k key) ks).
Proof.
  intros Hv Hd. destruct (Insert_all_holds newSkipList [] keys newSkipList_holds Hv Hd) as (s & ks & Hi & Hs & Hp); [by intros a b Ha%not_elem_of_nil|].
  exists s, ks. split; [done|]. split; [done|]. split; [apply Hs|]. split; [by apply contents_spec|]. split; [by apply contents_back_spec|].
  intros key Hk. split; [by apply Contains_spec|]. destruct (Seek_spec s ks key Hs Hk) as (x & Hx & Hw & _). by exists x.
Qed.
End Ordered.

Lemma Z_key_order : KeyOrder Z.sub (fun _ => True).
Proof. split; lia. Qed.
Lemma skiplist_ordered_set_witness : exists s ks, Insert_all Z.sub newSkipList [5; 1; 9; 3] = Some s /\ ks ≡ₚ [5; 1; 9; 3] /\ contents s = Some ks.
Proof.
  destruct (@skiplist_ordered_set Z Z.sub (fun _ => True) Z_key_order [5; 1; 9; 3]) as (s & ks & Hs & Hp & _ & Hc & _).
  - repeat constructor.
  - repeat constructor; lia.
  - exists s, ks. split; [exact Hs|split; [exact Hp|exact Hc]].
Defined.
