(* ===== verification/MemTable.v ===== *)
(** * The memtable: db/memtable.cc

    The entries of the skip list are byte strings that hold an internal key
    and a value, and are ordered by the key. *)

From S2P Require Import Prelude CommonData Coding Bloom DbFormat SkipList.

(** [GetLengthPrefixedSlice(const char* data)] of this file, with what comes
    behind the slice.  The data is not corrupted; a length that cannot be read
    stands for a null pointer. *)
Definition prefixed (data : bytes) : bytes * bytes :=
  match GetVarint32Ptr data with
  | Some (len, p) => (take (Z.to_nat len) p, drop (Z.to_nat len) p)
  | None => ([], [])
  end.

Section MemTable.
Variable user_comparator : Comparator.

(** [KeyComparator::operator()]. *)
Definition KeyComparator (aptr bptr : bytes) : Z := internal_compare user_comparator (prefixed aptr).1 (prefixed bptr).1.

Definition EncodeKey (target : bytes) : bytes := PutVarint32 [] (u32 (zlen target)) ++ target.

Definition MemTable := SkipList bytes.
Definition newMemTable : MemTable := newSkipList.

Definition mem_entry (s : Z) (type : ValueType) (key value : bytes) : bytes :=
  let key_size := zlen key in
  let val_size := zlen value in
  let internal_key_size := key_size + 8 in
  EncodeVarint32 (u32 internal_key_size) ++ key ++ EncodeFixed64 (Z.lor (u64 (Z.shiftl s 8)) (type_num type)) ++
  EncodeVarint32 (u32 val_size) ++ value.
Definition Add (m : MemTable) (s : Z) (type : ValueType) (key value : bytes) : option MemTable :=
  Insert KeyComparator m (mem_entry s type key value).

(** What [Get] tells: it found a value, it found a deletion ([NotFound] in the
    status), or it returned false. *)
Inductive GetResult := Found (value : bytes) | Deleted | Absent.

Definition mem_Get (m : MemTable) (key : LookupKey) : option GetResult :=
  iter ← iter_Seek KeyComparator m (memtable_key key);
  match iter with
  | None => Some Absent
  | Some node =>
      entry ← key_at m node;
      '(key_length, key_ptr) ← GetVarint32Ptr entry;
      let key_length := Z.to_nat key_length in
      if Compare user_comparator (take (key_length - 8) key_ptr) (lookup_user_key key) =? 0 then
        let tag := DecodeFixed64 (drop (key_length - 8) key_ptr) in
        let c := Z.land tag 0xff in
        if c =? type_num kTypeValue then Some (Found (prefixed (drop key_length key_ptr)).1)
        else if c =? type_num kTypeDeletion then Some Deleted
        else Some Absent
      else Some Absent
  end.

(** [MemTableIterator]: the moves are those of the list, the key and the value
    come from the entry. *)
Definition mem_iter_Seek (m : MemTable) (k : bytes) : option (option nat) := iter_Seek KeyComparator m (EncodeKey k).
Definition mem_iter_key (entry : bytes) : bytes := (prefixed entry).1.
Definition mem_iter_value (entry : bytes) : bytes := (prefixed (prefixed entry).2).1.
(** What iterating over the memtable gives, in order. *)
Definition mem_contents (m : MemTable) : option (list (bytes * bytes)) :=
  es ← contents m; Some (map (fun e => (mem_iter_key e, mem_iter_value e)) es).
End MemTable.

(** ** Entries *)

Record op : Type := mkOp { op_seq : Z; op_type : ValueType; op_key : bytes; op_value : bytes }.
Definition op_entry (o : op) : bytes := mem_entry (op_seq o) (op_type o) (op_key o) (op_value o).
Definition op_ikey (o : op) : bytes := op_key o ++ EncodeFixed64 (PackSequenceAndType (op_seq o) (op_type o)).
Definition op_ok (o : op) : Prop := 0 <= op_seq o <= kMaxSequenceNumber /\ zlen (op_key o) + 8 < 2 ^ 32 /\ zlen (op_value o) < 2 ^ 32.

(** Entries that start with a prefixed internal key. *)
Definition valid_entry (e : bytes) : Prop := exists ikey rest, internal ikey /\ zlen ikey < 2 ^ 32 /\ e = EncodeVarint32 (zlen ikey) ++ ikey ++ rest.

Lemma prefixed_read v rest : zlen v < 2 ^ 32 -> prefixed (EncodeVarint32 (zlen v) ++ v ++ rest) = (v, rest).
Proof.
  intros Hv. pose proof (zlen_nonneg v). unfold prefixed. pose proof (get_varint32 (zlen v) (v ++ rest) ltac:(unfold is_u32; lia)) as Hg. unfold GetVarint32 in Hg. rewrite Hg.
  unfold zlen. rewrite Nat2Z.id. by rewrite take_app_length, drop_app_length.
Qed.
Lemma zlen_ikey u n : zlen (u ++ EncodeFixed64 n) = zlen u + 8.
Proof. unfold zlen. rewrite length_app, length_fixed64. lia. Qed.
Lemma op_entry_read o : op_ok o -> op_entry o = EncodeVarint32 (zlen (op_ikey o)) ++ op_ikey o ++ EncodeVarint32 (zlen (op_value o)) ++ op_value o.
Proof.
  intros (Hs & Hk & Hv). pose proof (zlen_nonneg (op_key o)). pose proof (zlen_nonneg (op_value o)). unfold op_entry, mem_entry, op_ikey. rewrite zlen_ikey. rewrite !u32_small by (unfold is_u32; lia).
  by rewrite <- app_assoc.
Qed.
Lemma op_ikey_len o : op_ok o -> zlen (op_ikey o) < 2 ^ 32.
Proof. intros (_ & Hk & _). unfold op_ikey. by rewrite zlen_ikey. Qed.
Lemma op_entry_valid o : op_ok o -> valid_entry (op_entry o).
Proof. intros Ho. eexists _, _. split; [|split; [by apply op_ikey_len|by apply op_entry_read]]. apply internal_append. Qed.
Lemma op_entry_key o : op_ok o -> prefixed (op_entry o) = (op_ikey o, EncodeVarint32 (zlen (op_value o)) ++ op_value o).
Proof. intros Ho. rewrite op_entry_read by done. apply prefixed_read. by apply op_ikey_len. Qed.
Lemma op_entry_value o : op_ok o -> mem_iter_key (op_entry o) = op_ikey o /\ mem_iter_value (op_entry o) = op_value o.
Proof.
  intros Ho. unfold mem_iter_key, mem_iter_value. rewrite op_entry_key by done. cbn [fst snd]. split; [done|]. destruct Ho as (_ & _ & Hv).
  pose proof (prefixed_read (op_value o) [] Hv) as Hp. rewrite app_nil_r in Hp. by rewrite Hp.
Qed.

(** ** Order of the entries *)

Section Order.
Context (user : Comparator) `{!ComparatorLaws user (fun _ => True)}.

Lemma valid_prefixed e : valid_entry e -> internal (prefixed e).1.
Proof. intros (ikey & rest & Hi & Hl & ->). by rewrite prefixed_read. Qed.

#[export] Instance entry_order : KeyOrder (KeyComparator user) valid_entry.
Proof.
  unfold KeyComparator. split.
  - intros a b _ _. by apply internal_flip.
  - intros a b d _ _ _. by apply internal_trans.
  - intros a b d Ha Hb _ H0. apply internal_eq in H0; [by rewrite H0|done|by apply valid_prefixed..].
Qed.

Lemma op_compare a b : op_ok a -> op_ok b -> KeyComparator user (op_entry a) (op_entry b) = internal_compare user (op_ikey a) (op_ikey b).
Proof. intros Ha Hb. unfold KeyComparator. by rewrite !op_entry_key. Qed.
Lemma op_ikey_inj a b : op_ok a -> op_ok b -> op_ikey a = op_ikey b -> op_key a = op_key b /\ op_seq a = op_seq b /\ op_type a = op_type b.
Proof.
  intros (Ha & _) (Hb & _) He. pose proof (parse_internal_key (op_key a) (op_seq a) (op_type a) Ha) as Hpa. pose proof (parse_internal_key (op_key b) (op_seq b) (op_type b) Hb) as Hpb.
  unfold op_ikey in He. rewrite He, Hpb in Hpa. by injection Hpa as -> -> ->.
Qed.

(** [Add] for a list of operations, the oldest first. *)
Definition Add_all (m : MemTable) (ops : list op) : option MemTable :=
  foldl (fun m o => m ← m; Add user m (op_seq o) (op_type o) (op_key o) (op_value o)) (Some m) ops.
Lemma Add_all_Insert m ops : Add_all m ops = Insert_all (KeyComparator user) m (map op_entry ops).
Proof.
  unfold Add_all, Insert_all, MemTable in *. generalize (Some m). induction ops as [|o ops IH]; intros x; [done|]. cbn [map foldl]. apply IH.
Qed.

Definition increasing (ops : list op) : Prop := StronglySorted (fun a b => op_seq a < op_seq b) ops.
Lemma increasing_distinct ops : Forall op_ok ops -> increasing ops -> distinct (KeyComparator user) (map op_entry ops).
Proof.
  intros Hok Hi. induction Hi as [|o ops Hi IH Ho]; [constructor|]. apply Forall_cons in Hok as [Hoo Hok]. constructor; [by apply IH|]. apply Forall_map.
  rewrite Forall_forall in *. intros b Hb. cbn. rewrite op_compare by auto. intros H0. apply internal_eq in H0; [|done|apply internal_append..].
  apply op_ikey_inj in H0 as (_ & H0 & _); [|by auto..]. specialize (Ho b Hb). lia.
Qed.
Lemma Forall_op_entry ops : Forall op_ok ops -> Forall valid_entry (map op_entry ops).
Proof. intros Hok. apply Forall_map. eapply Forall_impl; [exact Hok|]. apply op_entry_valid. Qed.

(** The order on a user key and a snapshot: an entry is not before the lookup
    key when its user key is larger, or the same with a number that is not. *)
Lemma op_ikey_user o : ExtractUserKey (op_ikey o) = op_key o.
Proof. apply ExtractUserKey_append. Qed.
Lemma op_ikey_num o : op_ok o -> key_num (op_ikey o) = 256 * op_seq o + type_num (op_type o).
Proof. intros (Hs & _). unfold op_ikey. rewrite key_num_append by (by apply Pack_range). by apply Pack_add. Qed.

Definition seek_op (k : bytes) (snap : Z) : op := mkOp snap kValueTypeForSeek k [].
Lemma lookup_entry k snap : zlen k + 8 < 2 ^ 32 -> 0 <= snap <= kMaxSequenceNumber ->
  prefixed (memtable_key (newLookupKey k snap)) = (op_ikey (seek_op k snap), []) /\ valid_entry (memtable_key (newLookupKey k snap)) /\ lookup_user_key (newLookupKey k snap) = k.
Proof.
  intros Hk Hs. pose proof (zlen_nonneg k). assert (memtable_key (newLookupKey k snap) = EncodeVarint32 (zlen (op_ikey (seek_op k snap))) ++ op_ikey (seek_op k snap) ++ []) as Hm.
  { unfold op_ikey. rewrite zlen_ikey, app_nil_r. cbn [memtable_key newLookupKey op_key seek_op]. by rewrite u32_small by (unfold is_u32; lia). }
  assert (zlen (op_ikey (seek_op k snap)) < 2 ^ 32) as Hl by (unfold op_ikey; by rewrite zlen_ikey).
  split; [rewrite Hm; by apply prefixed_read|]. split.
  - exists (op_ikey (seek_op k snap)), []. split; [apply internal_append|done].
  - apply ExtractUserKey_append.
Qed.
Lemma op_not_before o k snap : op_ok o -> zlen k + 8 < 2 ^ 32 -> 0 <= snap <= kMaxSequenceNumber ->
  0 <= KeyComparator user (op_entry o) (memtable_key (newLookupKey k snap)) <->
  0 < Compare user (op_key o) k \/ op_key o = k /\ op_seq o <= snap.
Proof.
  intros Ho Hk Hs. unfold KeyComparator. destruct (lookup_entry k snap Hk Hs) as (-> & _ & _). rewrite op_entry_key by done. cbn [fst].
  rewrite Z.le_ngt, (internal_lt user), !op_ikey_user, (op_ikey_num o) by done. cbn [op_key seek_op]. unfold op_ikey. cbn [op_key op_seq op_type seek_op].
  rewrite key_num_append, Pack_add by (done || by apply Pack_range). pose proof (type_num_range (op_type o)). cbn [type_num kValueTypeForSeek].
  pose proof (user_eq user (op_key o) k). pose proof (user_flip user (op_key o) k). destruct (Z.lt_trichotomy (Compare user (op_key o) k) 0) as [?|[?|?]].
  - split; [intros Hn; destruct Hn; by left|]. intros [?|[? _]]; [lia|]. intuition lia.
  - assert (op_key o = k) as Hok by tauto. split.
    + intros Hn. right. split; [done|]. destruct (Z.le_gt_cases (op_seq o) snap); [done|]. destruct Hn. right. split; [done|lia].
    + intros [?|[_ ?]]; [lia|]. intros [?|[_ ?]]; lia.
  - split; [by left|]. intros _ [?|[Hok _]]; [lia|]. intuition lia.
Qed.

(** ** [Get] *)

(** What an operation on [k] is to a reader at the snapshot [snap]. *)
Definition visible (k : bytes) (snap : Z) (o : op) : Prop := op_key o = k /\ op_seq o <= snap.
#[export] Instance visible_dec k snap o : Decision (visible k snap o).
Proof. unfold visible. apply _. Defined.
Definition newest (k : bytes) (snap : Z) (ops : list op) : option op := last (filter (visible k snap) ops).
Definition answer (o : option op) : GetResult :=
  match o with
  | None => Absent
  | Some o => match op_type o with kTypeValue => Found (op_value o) | kTypeDeletion => Deleted end
  end.

(** [mem_holds m ops]: [m] has the entries of the operations [ops]. *)
Definition mem_holds (m : MemTable) (ops : list op) : Prop :=
  Forall op_ok ops /\ increasing ops /\ exists ks, holds (KeyComparator user) valid_entry m ks /\ ks ≡ₚ map op_entry ops.

Lemma last_max (l : list op) o : increasing l -> o ∈ l -> (forall b, b ∈ l -> op_seq b <= op_seq o) -> last l = Some o.
Proof.
  intros Hi Ho Hmax. apply list_elem_of_split in Ho as (l1 & l2 & ->). destruct l2 as [|b l2]; [apply last_snoc|]. exfalso.
  apply StronglySorted_app in Hi as (_ & _ & Hi). apply StronglySorted_cons in Hi as [Hi _]. apply Forall_cons in Hi as [Hi _]. specialize (Hmax b ltac:(set_solver)). lia.
Qed.
Lemma increasing_inj ops a b : increasing ops -> a ∈ ops -> b ∈ ops -> op_seq a = op_seq b -> a = b.
Proof.
  intros Hi. induction Hi as [|o ops Hi IH Ho]; intros Ha Hb Hs; [by apply not_elem_of_nil in Ha|]. rewrite Forall_forall in Ho.
  apply elem_of_cons in Ha as [->|Ha], Hb as [->|Hb]; [done|specialize (Ho b Hb); lia|specialize (Ho a Ha); lia|by apply IH].
Qed.
Lemma increasing_filter (P : op -> Prop) `{!forall o, Decision (P o)} ops : increasing ops -> increasing (filter P ops).
Proof.
  intros Hi. induction Hi as [|o ops Hi IH Ho]; [constructor|]. rewrite filter_cons. destruct (decide (P o)); [|done]. constructor; [done|].
  rewrite Forall_forall in *. intros b Hb. apply Ho. by apply list_elem_of_filter in Hb as [_ ?].
Qed.

Lemma entry_fields o : op_ok o -> exists p, GetVarint32Ptr (op_entry o) = Some (zlen (op_ikey o), p) /\ take (Z.to_nat (zlen (op_ikey o)) - 8) p = op_key o /\
  DecodeFixed64 (drop (Z.to_nat (zlen (op_ikey o)) - 8) p) = 256 * op_seq o + type_num (op_type o) /\ (prefixed (drop (Z.to_nat (zlen (op_ikey o))) p)).1 = op_value o.
Proof.
  intros Ho. pose proof (op_ikey_len o Ho) as Hl. pose proof (zlen_nonneg (op_ikey o)). rewrite op_entry_read by done. eexists.
  split; [apply get_varint32; unfold is_u32; lia|]. assert (Z.to_nat (zlen (op_ikey o)) = length (op_key o) + 8)%nat as -> by (unfold op_ikey; rewrite zlen_ikey; unfold zlen; lia).
  rewrite Nat.add_sub. destruct Ho as (Hs & Hk & Hv). split; [|split].
  - unfold op_ikey. by rewrite <- app_assoc, take_app_length.
  - unfold op_ikey. rewrite <- app_assoc, drop_app_length, fixed64_roundtrip by (by apply Pack_range). by apply Pack_add.
  - rewrite drop_app_length' by (unfold op_ikey; by rewrite length_app, length_fixed64). pose proof (prefixed_read (op_value o) [] Hv) as Hp. rewrite app_nil_r in Hp. by rewrite Hp.
Qed.

Lemma entry_tag o : op_ok o -> Z.land (256 * op_seq o + type_num (op_type o)) 255 = type_num (op_type o).
Proof.
  intros (Hs & _). pose proof (type_num_range (op_type o)). change 255 with (Z.ones 8). rewrite Z.land_ones by lia. change (2 ^ 8) with 256.
  rewrite Z.add_comm, Z.mul_comm, Z_mod_plus_full. apply Z.mod_small. lia.
Qed.

(** An operation that comes before all visible ones of [k] is the newest of
    them when it is one of [k], and there is none otherwise. *)
Lemma least_is_newest ops k snap o : Forall op_ok ops -> increasing ops -> o ∈ ops -> 0 < Compare user (op_key o) k \/ op_key o = k /\ op_seq o <= snap ->
  (forall b, b ∈ ops -> visible k snap b -> op_entry b = op_entry o \/ internal_compare user (op_ikey o) (op_ikey b) < 0) ->
  newest k snap ops = if decide (op_key o = k) then Some o else None.
Proof.
  intros Hok Hi Ho Hge Hfirst. rewrite Forall_forall in Hok. unfold newest. destruct (decide (op_key o = k)) as [Hkey|Hkey].
  - assert (op_seq o <= snap) as Hsn. { destruct Hge as [Hlt|[_ ?]]; [|done]. apply (user_eq user) in Hkey. lia. }
    apply last_max; [by apply increasing_filter|by apply list_elem_of_filter|]. intros b [Hbv Hb]%list_elem_of_filter. destruct (Hfirst b Hb Hbv) as [He|Hlt].
    + apply (f_equal prefixed) in He. rewrite !op_entry_key in He by auto. injection He as He _. apply op_ikey_inj in He as (_ & -> & _); [done|by auto..].
    + apply (internal_lt user) in Hlt. rewrite !op_ikey_user, !op_ikey_num in Hlt by auto. destruct Hbv as [Hbk _]. pose proof (type_num_range (op_type o)). pose proof (type_num_range (op_type b)).
      destruct Hlt as [Hlt|[_ Hlt]]; [|lia]. rewrite Hkey, Hbk in Hlt. pose proof (proj2 (user_eq user k k) eq_refl). lia.
  - destruct (filter (visible k snap) ops) as [|b l] eqn:Hf; [done|]. exfalso. assert (b ∈ filter (visible k snap) ops) as Hb by (rewrite Hf; left).
    apply list_elem_of_filter in Hb as [Hbv Hb]. destruct (Hfirst b Hb Hbv) as [He|Hlt]; destruct Hbv as [Hbk _].
    + apply (f_equal prefixed) in He. rewrite !op_entry_key in He by auto. injection He as He _. apply op_ikey_inj in He as (He & _); [congruence|by auto..].
    + apply (internal_lt user) in Hlt. rewrite !op_ikey_user in Hlt by auto. rewrite Hbk in Hlt. destruct Hge as [Hgt|[? _]], Hlt as [Hlt|[? _]]; [lia|done..].
Qed.

(** The first entry from the lookup key on, and the operations that are
    visible: the first is one of them and the newest, or there is none. *)
Lemma first_is_newest ops ks k snap : Forall op_ok ops -> increasing ops -> Forall valid_entry ks -> sorted (KeyComparator user) ks -> ks ≡ₚ map op_entry ops ->
  zlen k + 8 < 2 ^ 32 -> 0 <= snap <= kMaxSequenceNumber ->
  match from (KeyComparator user) (memtable_key (newLookupKey k snap)) ks with
  | [] => newest k snap ops = None
  | e :: _ => exists o, e = op_entry o /\ o ∈ ops /\ newest k snap ops = if decide (op_key o = k) then Some o else None
  end.
Proof.
  intros Hok Hi Hv Hs Hp Hk Hsn. rewrite Forall_forall in Hok. set (q := memtable_key (newLookupKey k snap)).
  assert (forall o, o ∈ ops -> visible k snap o -> op_entry o ∈ from (KeyComparator user) q ks) as Hvis.
  { intros o Ho [Hok' Hseq]. apply list_elem_of_filter. split; [apply op_not_before; auto|]. rewrite Hp. by apply list_elem_of_fmap_2. }
  assert (forall o, o ∈ filter (visible k snap) ops -> visible k snap o /\ o ∈ ops) as Hfil by (intros o Ho; by apply list_elem_of_filter in Ho).
  assert (sorted (KeyComparator user) (from (KeyComparator user) q ks)) as Hsf.
  { unfold sorted in Hs. rewrite (below_from (KeyComparator user) valid_entry q ks) in Hs; [by apply StronglySorted_app in Hs as (_ & _ & ?)|done| |done]. by apply lookup_entry. }
  destruct (from (KeyComparator user) q ks) as [|e r] eqn:Hf.
  - unfold newest. destruct (filter (visible k snap) ops) as [|o l] eqn:Hfo; [done|]. destruct (Hfil o) as [Ho1 Ho2]; [left|]. specialize (Hvis o Ho2 Ho1). by apply not_elem_of_nil in Hvis.
  - assert (e ∈ from (KeyComparator user) q ks) as Hin by (rewrite Hf; left). apply list_elem_of_filter in Hin as [Hge Hin]. rewrite Hp in Hin. apply list_elem_of_fmap in Hin as (o & -> & Ho).
    exists o. split; [done|]. split; [done|]. apply op_not_before in Hge; [|by auto..]. apply StronglySorted_cons in Hsf as [Hall _]. rewrite Forall_forall in Hall.
    assert (forall b, b ∈ ops -> visible k snap b -> op_entry b = op_entry o \/ internal_compare user (op_ikey o) (op_ikey b) < 0) as Hfirst.
    { intros b Hb Hbv. specialize (Hvis b Hb Hbv). apply elem_of_cons in Hvis as [|Hr]; [by left|right]. specialize (Hall _ Hr). cbn in Hall. by rewrite op_compare in Hall by auto. }
    apply least_is_newest; [by apply Forall_forall|done..].
Qed.

Lemma newMemTable_holds : mem_holds newMemTable [].
Proof. split; [constructor|]. split; [constructor|]. exists []. split; [apply newSkipList_holds|done]. Qed.

Lemma Add_holds m ops o : mem_holds m ops -> op_ok o -> Forall (fun a => op_seq a < op_seq o) ops ->
  exists m', Add user m (op_seq o) (op_type o) (op_key o) (op_value o) = Some m' /\ mem_holds m' (ops ++ [o]).
Proof.
  intros (Hok & Hi & ks & Hm & Hp) Ho Hlt. unfold Add. change (mem_entry _ _ _ _) with (op_entry o).
  assert (Forall (fun k => KeyComparator user k (op_entry o) <> 0) ks) as Hne.
  { rewrite Hp. apply Forall_map. rewrite Forall_forall in *. intros a Ha. cbn. rewrite op_compare by auto. intros H0. apply (internal_eq user) in H0; [|apply internal_append..].
    apply op_ikey_inj in H0 as (_ & H0 & _); [|by auto..]. specialize (Hlt a Ha). lia. }
  destruct (Insert_holds (KeyComparator user) valid_entry m ks (op_entry o) Hm (op_entry_valid o Ho) Hne) as (m' & Ha & Hm'). exists m'. split; [exact Ha|].
  split; [apply Forall_app; by split; [|constructor]|]. split.
  - apply StronglySorted_app. split; [|split; [done|repeat constructor]]. rewrite Forall_forall in Hlt. intros a b Ha' Hb. apply list_elem_of_singleton in Hb as ->. by apply Hlt.
  - eexists. split; [exact Hm'|]. rewrite insert_key_perm, map_app. cbn [map]. rewrite <- Permutation_cons_append. by constructor.
Qed.

Lemma Add_all_holds m ops0 ops : mem_holds m ops0 -> Forall op_ok ops -> increasing (ops0 ++ ops) -> exists m', Add_all m ops = Some m' /\ mem_holds m' (ops0 ++ ops).
Proof.
  revert m ops0. induction ops as [|o ops IH]; intros m ops0 Hm Hok Hi.
  - exists m. by rewrite app_nil_r.
  - apply Forall_cons in Hok as [Ho Hok]. destruct (Add_holds m ops0 o Hm Ho) as (m1 & Ha & Hm1).
    { apply StronglySorted_app in Hi as (Hi & _). apply Forall_forall. intros a Ha. apply Hi; [done|left]. }
    rewrite cons_middle, app_assoc in Hi |- *. destruct (IH m1 _ Hm1 Hok Hi) as (m' & Hm' & Hh). exists m'. split; [|done].
    unfold Add_all in *. cbn [foldl mbind option_bind]. by rewrite Ha.
Qed.

Lemma mem_Get_spec m ops k snap : mem_holds m ops -> zlen k + 8 < 2 ^ 32 -> 0 <= snap <= kMaxSequenceNumber ->
  mem_Get user m (newLookupKey k snap) = Some (answer (newest k snap ops)).
Proof.
  intros (Hok & Hi & ks & Hm & Hp) Hk Hs. destruct (lookup_entry k snap Hk Hs) as (_ & Hval & Huk).
  destruct (Seek_spec (KeyComparator user) valid_entry m ks _ Hm Hval) as (x & Hx & _ & Hhead). pose proof (first_is_newest ops ks k snap Hok Hi (holds_valid _ _ _ _ Hm) (holds_sorted _ _ _ _ Hm) Hp Hk Hs) as Hfirst.
  unfold mem_Get. rewrite Hx. cbn [mbind option_bind]. destruct Hhead as [[-> Hf]|(p & e & r & -> & He & Hf)]; rewrite Hf in Hfirst; [by rewrite Hfirst|].
  destruct Hfirst as (o & -> & Hin & ->). rewrite Forall_forall in Hok. rewrite He. cbn [mbind option_bind]. destruct (entry_fields o (Hok o Hin)) as (q & Hq & Hu & Hn & Hv). rewrite Hq. cbn [mbind option_bind].
  rewrite Hu, Hn, Hv, Huk, entry_tag by auto. pose proof (user_eq user (op_key o) k) as Hue. destruct (decide (op_key o = k)) as [Hkey|Hkey].
  - apply Hue in Hkey. rewrite Hkey. cbn [Z.eqb]. by destruct (op_type o) eqn:Ht; cbn; rewrite Ht.
  - by destruct (Z.eqb_spec (Compare user (op_key o) k) 0); [tauto|].
Qed.

Lemma mem_contents_spec m ops : mem_holds m ops -> exists l, mem_contents m = Some l /\ l ≡ₚ map (fun o => (op_ikey o, op_value o)) ops /\
  StronglySorted (fun a b => internal_compare user a.1 b.1 < 0) l.
Proof.
  intros (Hok & Hi & ks & Hm & Hp). unfold mem_contents. rewrite (contents_spec (KeyComparator user) valid_entry m ks Hm). eexists. split; [done|]. split.
  - rewrite Hp. rewrite map_map. apply Permutation_refl', map_ext_Forall. eapply Forall_impl; [exact Hok|]. intros o Ho. cbn. by destruct (op_entry_value o Ho) as [-> ->].
  - pose proof (holds_sorted _ _ _ _ Hm) as Hs. clear -Hs. induction Hs as [|e ks Hs IH He]; [constructor|]. constructor; [done|]. apply Forall_map. eapply Forall_impl; [exact He|]. done.
Qed.

(** C15. A memtable that got operations with growing sequence numbers answers a
    reader at any snapshot with the newest operation on the key that the
    snapshot can see: its value, that it was a deletion, or that there is
    none.  Iterating over it gives all entries in the order of their internal
    keys. *)
Theorem memtable_reads_newest ops : Forall op_ok ops -> increasing ops ->
  exists m, Add_all newMemTable ops = Some m /\
    (forall k snap, zlen k + 8 < 2 ^ 32 -> 0 <= snap <= kMaxSequenceNumber ->
      mem_Get user m (newLookupKey k snap) = Some (answer (newest k snap ops))) /\
    exists l, mem_contents m = Some l /\ l ≡ₚ map (fun o => (op_ikey o, op_value o)) ops /\
      StronglySorted (fun a b => internal_compare user a.1 b.1 < 0) l.
Proof.
  intros Hok Hi. destruct (Add_all_holds newMemTable [] ops newMemTable_holds Hok Hi) as (m & Ha & Hm). exists m. split; [done|]. split.
  - intros k snap. by apply mem_Get_spec.
  - by apply mem_contents_spec.
Qed.
End Order.

Lemma memtable_reads_newest_witness :
  let ops := [mkOp 1 kTypeValue [Byte.x61] [Byte.x01]; mkOp 2 kTypeDeletion [Byte.x61] []; mkOp 3 kTypeValue [Byte.x62] [Byte.x02]] in
  exists m, Add_all BytewiseComparator newMemTable ops = Some m /\ mem_Get BytewiseComparator m (newLookupKey [Byte.x61] 1) = Some (Found [Byte.x01]).
Proof.
  intros ops. destruct (@memtable_reads_newest BytewiseComparator bytewise_laws ops) as (m & Ha & Hg & _).
  - repeat constructor; vm_compute; discriminate.
  - repeat constructor.
  - exists m. split; [exact Ha|]. rewrite Hg; [by vm_compute|by vm_compute|split; vm_compute; discriminate].
Defined.
