(* ===== verification/WriteBatch.v ===== *)
(** * Batches of updates: db/write_batch.cc

    A batch is the string that goes to the log; [Iterate] plays it back to a
    handler, and [InsertInto] does so to the memtable. *)

From Stdlib Require String.
From S2P Require Import Prelude CommonData Coding Bloom DbFormat SkipList MemTable.
Import (notations) String.

Definition kHeader : nat := 12.
Definition WriteBatch := bytes.

Definition Clear : WriteBatch := replicate kHeader Byte.x00.
Definition newWriteBatch : WriteBatch := Clear.
Definition ApproximateSize (rep_ : WriteBatch) : Z := zlen rep_.

(** [WriteBatchInternal]. *)
Definition Count (rep_ : WriteBatch) : Z := i32 (DecodeFixed32 (drop 8 rep_)).
Definition SetCount (rep_ : WriteBatch) (n : Z) : WriteBatch := take 8 rep_ ++ EncodeFixed32 (u32 n) ++ drop 12 rep_.
Definition Sequence (rep_ : WriteBatch) : Z := DecodeFixed64 rep_.
Definition SetSequence (rep_ : WriteBatch) (seq : Z) : WriteBatch := EncodeFixed64 seq ++ drop 8 rep_.
Definition SetContents (contents : bytes) : WriteBatch := contents.
Definition Append (dst src : WriteBatch) : WriteBatch := SetCount dst (i32 (Count dst + Count src)) ++ drop kHeader src.

Definition Put (rep_ : WriteBatch) (key value : bytes) : WriteBatch :=
  let rep_ := SetCount rep_ (i32 (Count rep_ + 1)) in
  let rep_ := rep_ ++ [byte_of (type_num kTypeValue)] in
  let rep_ := PutLengthPrefixedSlice rep_ key in
  PutLengthPrefixedSlice rep_ value.
Definition Delete (rep_ : WriteBatch) (key : bytes) : WriteBatch :=
  let rep_ := SetCount rep_ (i32 (Count rep_ + 1)) in
  let rep_ := rep_ ++ [byte_of (type_num kTypeDeletion)] in
  PutLengthPrefixedSlice rep_ key.

(** [WriteBatch::Handler], with the state it works on. *)
Record Handler (X : Type) : Type := mkHandler { h_Put : X -> bytes -> bytes -> X; h_Delete : X -> bytes -> X }.
Arguments mkHandler {X}. Arguments h_Put {X}. Arguments h_Delete {X}.

Section Iterate.
Context {X : Type} (handler : Handler X).

(** Each round takes a tag off [input], so that its length is fuel enough. *)
Fixpoint iterate_loop (fuel : nat) (input : bytes) (found : Z) (x : X) : (LStatus + Z) * X :=
  match fuel, input with
  | S n, tag :: input =>
      if bval tag =? type_num kTypeValue then
        match GetLengthPrefixedSlice input with
        | Some (key, input) =>
            match GetLengthPrefixedSlice input with
            | Some (value, input) => iterate_loop n input (found + 1) (h_Put handler x key value)
            | None => (inl (Corruption "bad WriteBatch Put"%string), x)
            end
        | None => (inl (Corruption "bad WriteBatch Put"%string), x)
        end
      else if bval tag =? type_num kTypeDeletion then
        match GetLengthPrefixedSlice input with
        | Some (key, input) => iterate_loop n input (found + 1) (h_Delete handler x key)
        | None => (inl (Corruption "bad WriteBatch Delete"%string), x)
        end
      else (inl (Corruption "unknown WriteBatch tag"%string), x)
  | _, _ => (inr found, x)
  end.

(** The status and what the calls to the handler made of its state. *)
Definition Iterate (rep_ : WriteBatch) (x : X) : LStatus * X :=
  if zlen rep_ <? Z.of_nat kHeader then (Corruption "malformed WriteBatch (too small)"%string, x)
  else
    let input := drop kHeader rep_ in
    match iterate_loop (length input) input 0 x with
    | (inl s, x) => (s, x)
    | (inr found, x) => if negb (found =? Count rep_) then (Corruption "WriteBatch has wrong count"%string, x) else (OK, x)
    end.
End Iterate.

(** [MemTableInserter]: its number and the memtable, which is [None] when an
    insertion into the list failed. *)
Definition MemTableInserter (user : Comparator) : Handler (Z * option MemTable) :=
  mkHandler (fun '(sequence_, mem_) key value => (u64 (sequence_ + 1), m ← mem_; Add user m sequence_ kTypeValue key value))
            (fun '(sequence_, mem_) key => (u64 (sequence_ + 1), m ← mem_; Add user m sequence_ kTypeDeletion key [])).
Definition InsertInto (user : Comparator) (b : WriteBatch) (memtable : MemTable) : LStatus * option MemTable :=
  let '(s, (_, mem_)) := Iterate (MemTableInserter user) b (Sequence b, Some memtable) in (s, mem_).

(** ** Batches and lists of updates *)

Inductive update := UPut (key value : bytes) | UDelete (key : bytes).
Definition apply_update (b : WriteBatch) (u : update) : WriteBatch := match u with UPut k v => Put b k v | UDelete k => Delete b k end.
Definition build (us : list update) : WriteBatch := foldl apply_update newWriteBatch us.
Definition handle {X} (h : Handler X) (x : X) (u : update) : X := match u with UPut k v => h_Put h x k v | UDelete k => h_Delete h x k end.
Definition update_ok (u : update) : Prop := match u with UPut k v => zlen k < 2 ^ 32 /\ zlen v < 2 ^ 32 | UDelete k => zlen k < 2 ^ 32 end.

Definition record (u : update) : bytes :=
  match u with
  | UPut k v => byte_of (type_num kTypeValue) :: PutLengthPrefixedSlice [] k ++ PutLengthPrefixedSlice [] v
  | UDelete k => byte_of (type_num kTypeDeletion) :: PutLengthPrefixedSlice [] k
  end.
(** The string of a batch. *)
Definition batch (seq : Z) (us : list update) : WriteBatch := EncodeFixed64 seq ++ EncodeFixed32 (zlen us) ++ concat (map record us).

Lemma i32_small n : 0 <= n < 2 ^ 31 -> i32 n = n.
Proof. intros Hn. unfold i32. rewrite Z.mod_small by lia. lia. Qed.

Lemma take_batch seq us : take 8 (batch seq us) = EncodeFixed64 seq.
Proof. unfold batch. apply take_app_length'. exact (eq_sym (length_le_list _ _)). Qed.
Lemma drop_batch_8 seq us : drop 8 (batch seq us) = EncodeFixed32 (zlen us) ++ concat (map record us).
Proof. unfold batch. apply drop_app_length'. exact (eq_sym (length_le_list _ _)). Qed.
Lemma drop_batch seq us : drop kHeader (batch seq us) = concat (map record us).
Proof. change kHeader with (8 + 4)%nat. rewrite <- drop_drop, drop_batch_8. apply drop_app_length'. exact (eq_sym (length_le_list _ _)). Qed.
Lemma zlen_batch seq us : Z.of_nat kHeader <= zlen (batch seq us).
Proof. unfold batch. rewrite !zlen_app. unfold EncodeFixed64, EncodeFixed32. rewrite !zlen_le_bytes. pose proof (zlen_nonneg (concat (map record us))). unfold kHeader. lia. Qed.

Lemma newWriteBatch_batch : newWriteBatch = batch 0 [].
Proof. by vm_compute. Qed.
Lemma Count_batch seq us : zlen us < 2 ^ 31 -> Count (batch seq us) = zlen us.
Proof.
  intros Hn. pose proof (zlen_nonneg us). unfold Count. rewrite drop_batch_8, fixed32_roundtrip by (unfold is_u32; lia). apply i32_small. lia.
Qed.
Lemma Sequence_batch seq us : is_u64 seq -> Sequence (batch seq us) = seq.
Proof. intros Hs. by apply fixed64_roundtrip. Qed.
Lemma SetSequence_batch seq us n : SetSequence (batch seq us) n = batch n us.
Proof. unfold SetSequence. by rewrite drop_batch_8. Qed.
Lemma SetCount_batch seq us n : 0 <= n < 2 ^ 31 -> SetCount (batch seq us) n = EncodeFixed64 seq ++ EncodeFixed32 n ++ concat (map record us).
Proof. intros Hn. unfold SetCount. rewrite take_batch. change 12%nat with kHeader. rewrite drop_batch, u32_small by (unfold is_u32; lia). done. Qed.

Lemma Put_batch seq us k v : zlen us + 1 < 2 ^ 31 -> Put (batch seq us) k v = batch seq (us ++ [UPut k v]).
Proof.
  intros Hn. pose proof (zlen_nonneg us). unfold Put. rewrite Count_batch, i32_small, SetCount_batch by lia.
  rewrite PutLengthPrefixedSlice_app, (PutLengthPrefixedSlice_app (_ ++ [_])). unfold batch. rewrite zlen_app, map_app, concat_app. cbn [map concat record].
  rewrite app_nil_r, <- !app_assoc. done.
Qed.
Lemma Delete_batch seq us k : zlen us + 1 < 2 ^ 31 -> Delete (batch seq us) k = batch seq (us ++ [UDelete k]).
Proof.
  intros Hn. pose proof (zlen_nonneg us). unfold Delete. rewrite Count_batch, i32_small, SetCount_batch by lia.
  rewrite PutLengthPrefixedSlice_app. unfold batch. rewrite zlen_app, map_app, concat_app. cbn [map concat record]. rewrite app_nil_r, <- !app_assoc. done.
Qed.
Lemma apply_batch seq us u : zlen us + 1 < 2 ^ 31 -> apply_update (batch seq us) u = batch seq (us ++ [u]).
Proof. intros Hn. destruct u; [by apply Put_batch|by apply Delete_batch]. Qed.
Lemma build_batch us : zlen us < 2 ^ 31 -> build us = batch 0 us.
Proof.
  unfold build. rewrite newWriteBatch_batch. induction us as [|u us IH] using rev_ind; [done|]. rewrite zlen_app, foldl_app. intros Hn. change (zlen [u]) with 1 in Hn.
  cbn [foldl]. rewrite IH by lia. by apply apply_batch.
Qed.
Lemma Append_batch seq us seq' us' : zlen us + zlen us' < 2 ^ 31 -> Append (batch seq us) (batch seq' us') = batch seq (us ++ us').
Proof.
  intros Hn. pose proof (zlen_nonneg us). pose proof (zlen_nonneg us'). unfold Append. rewrite !Count_batch, i32_small, SetCount_batch, drop_batch by lia.
  unfold batch. by rewrite zlen_app, map_app, concat_app, <- !app_assoc.
Qed.

(** ** Playing a batch back *)

Section Replay.
Context {X : Type} (h : Handler X).

Lemma iterate_record n u rest found x : update_ok u -> iterate_loop h (S n) (record u ++ rest) found x = iterate_loop h n rest (found + 1) (handle h x u).
Proof.
  intros Hu. destruct u as [k v|k]; cbn [record app iterate_loop handle].
  - destruct Hu as [Hk Hv]. change (bval (byte_of (type_num kTypeValue)) =? type_num kTypeValue) with true. by rewrite <- app_assoc, slice_roundtrip, slice_roundtrip.
  - change (bval (byte_of (type_num kTypeDeletion)) =? type_num kTypeValue) with false. change (bval (byte_of (type_num kTypeDeletion)) =? type_num kTypeDeletion) with true.
    cbv iota. by rewrite slice_roundtrip.
Qed.
Lemma record_nonempty u : (0 < length (record u))%nat.
Proof. destruct u; cbn; lia. Qed.
Lemma iterate_records fuel us found x : (length (concat (map record us)) <= fuel)%nat -> Forall update_ok us ->
  iterate_loop h fuel (concat (map record us)) found x = (inr (found + zlen us), foldl (handle h) x us).
Proof.
  revert fuel found x. induction us as [|u us IH]; intros fuel found x Hf Hok; cbn [map concat foldl] in *.
  - change (zlen []) with 0. rewrite Z.add_0_r. by destruct fuel.
  - apply Forall_cons in Hok as [Hu Hok]. rewrite length_app in Hf. pose proof (record_nonempty u). rewrite zlen_cons, Z.add_assoc.
    destruct fuel as [|n]; [lia|]. rewrite iterate_record by done. apply IH; [lia|done].
Qed.
Lemma Iterate_batch seq us x : Forall update_ok us -> zlen us < 2 ^ 31 -> Iterate h (batch seq us) x = (OK, foldl (handle h) x us).
Proof.
  intros Hok Hn. unfold Iterate. pose proof (zlen_batch seq us). destruct (Z.ltb_spec (zlen (batch seq us)) (Z.of_nat kHeader)); [lia|].
  rewrite drop_batch, iterate_records by done. rewrite Count_batch by done. by rewrite Z.add_0_l, Z.eqb_refl.
Qed.
End Replay.

(** The operations of a batch, numbered from [seq]. *)
Fixpoint number (seq : Z) (us : list update) : list op :=
  match us with
  | [] => []
  | UPut k v :: us => mkOp seq kTypeValue k v :: number (seq + 1) us
  | UDelete k :: us => mkOp seq kTypeDeletion k [] :: number (seq + 1) us
  end.
Lemma length_number seq us : zlen (number seq us) = zlen us.
Proof. revert seq. induction us as [|[k v|k] us IH]; intros seq; cbn [number]; rewrite ?zlen_cons, ?IH; done. Qed.
Lemma number_app seq us us' : number seq (us ++ us') = number seq us ++ number (seq + zlen us) us'.
Proof.
  revert seq. induction us as [|[k v|k] us IH]; intros seq; cbn [number app]; [change (zlen []) with 0; by rewrite Z.add_0_r|..]; rewrite IH, zlen_cons; do 3 f_equal; lia.
Qed.

Lemma inserter_numbers user us seq m : 0 <= seq -> seq + zlen us < 2 ^ 64 ->
  foldl (handle (MemTableInserter user)) (seq, m) us = (seq + zlen us, foldl (fun m o => m ← m; Add user m (op_seq o) (op_type o) (op_key o) (op_value o)) m (number seq us)).
Proof.
  revert seq m. induction us as [|u us IH]; intros seq m H0 Hs; [change (zlen []) with 0; by rewrite Z.add_0_r|]. rewrite zlen_cons in *. pose proof (zlen_nonneg us).
  destruct u as [k v|k]; cbn [foldl handle MemTableInserter h_Put h_Delete number op_seq op_type op_key op_value]; rewrite u64_small by (unfold is_u64; lia); (rewrite IH by lia; f_equal; lia).
Qed.
Lemma InsertInto_batch user seq us m : Forall update_ok us -> zlen us < 2 ^ 31 -> 0 <= seq -> seq + zlen us < 2 ^ 64 ->
  InsertInto user (batch seq us) m = (OK, Add_all user m (number seq us)).
Proof.
  intros Hok Hn H0 Hs. pose proof (zlen_nonneg us). unfold InsertInto. rewrite Iterate_batch, Sequence_batch by (done || unfold is_u64; lia). by rewrite inserter_numbers.
Qed.

(** What [Put], [Delete], [Append] and [SetSequence] build is played back to
    any handler: every update, in order, and nothing else, with the status OK.
    Played to a memtable, the updates get consecutive sequence numbers. *)
Theorem batch_replays user us us' seq m : Forall update_ok (us ++ us') -> zlen (us ++ us') < 2 ^ 31 -> 0 <= seq -> seq + zlen (us ++ us') < 2 ^ 64 ->
  let b := SetSequence (Append (build us) (build us')) seq in
  Sequence b = seq /\ Count b = zlen (us ++ us') /\
  (forall X (h : Handler X) x, Iterate h b x = (OK, foldl (handle h) x (us ++ us'))) /\
  InsertInto user b m = (OK, Add_all user m (number seq (us ++ us'))).
Proof.
  intros Hok Hn H0 Hs b. pose proof (zlen_nonneg us). pose proof (zlen_nonneg us'). rewrite zlen_app in *.
  assert (b = batch seq (us ++ us')) as -> by (unfold b; by rewrite !build_batch, Append_batch, SetSequence_batch by lia).
  split; [apply Sequence_batch; unfold is_u64; lia|]. split; [rewrite Count_batch by (rewrite zlen_app; lia); by rewrite zlen_app|].
  split; [intros X h x; apply Iterate_batch; [done|by rewrite zlen_app]|]. apply InsertInto_batch; rewrite ?zlen_app; done.
Qed.
Lemma batch_replays_witness :
  InsertInto BytewiseComparator (SetSequence (Append (build [UPut [Byte.x61] [Byte.x01]]) (build [UDelete [Byte.x61]])) 7) newMemTable =
  (OK, Add_all BytewiseComparator newMemTable [mkOp 7 kTypeValue [Byte.x61] [Byte.x01]; mkOp 8 kTypeDeletion [Byte.x61] []]).
Proof.
  destruct (batch_replays BytewiseComparator [UPut [Byte.x61] [Byte.x01]] [UDelete [Byte.x61]] 7 newMemTable) as (_ & _ & _ & Hi).
  - repeat constructor; vm_compute; discriminate.
  - by vm_compute.
  - lia.
  - by vm_compute.
  - exact Hi.
Defined.

(** ** Batches that are cut short *)

Section Truncated.
Context {X : Type} (h : Handler X).

(** Inside of a record the lengths do not fit. *)
Lemma iterate_cut n u q r found x : update_ok u -> record u = q ++ r -> q <> [] -> r <> [] -> exists s, iterate_loop h (S n) q found x = (inl s, x) /\ ok s = false.
Proof.
  intros Hu Hq Hq0 Hr. destruct q as [|t q]; [done|]. destruct u as [k v|k]; cbn [record app] in Hq; injection Hq as <- Hq; cbn [iterate_loop].
  - change (bval (byte_of (type_num kTypeValue)) =? type_num kTypeValue) with true. cbv iota. destruct Hu as [Hk Hv]. apply app_eq_inv in Hq as [(c & Hc & ->)|(c & -> & Hc)].
    + destruct c as [|b c]; [|rewrite (slice_truncated k q (b :: c)) by done; by eexists]. rewrite app_nil_r in Hc. rewrite <- (app_nil_r q), <- Hc, slice_roundtrip by done. by eexists.
    + rewrite slice_roundtrip by done. rewrite (slice_truncated v c r) by done. by eexists.
  - change (bval (byte_of (type_num kTypeDeletion)) =? type_num kTypeValue) with false. change (bval (byte_of (type_num kTypeDeletion)) =? type_num kTypeDeletion) with true. cbv iota.
    rewrite (slice_truncated k q r) by done. by eexists.
Qed.
Lemma iterate_truncated fuel us found x q r : Forall update_ok us -> concat (map record us) = q ++ r -> r <> [] -> (length q <= fuel)%nat ->
  match (iterate_loop h fuel q found x).1 with inl s => ok s = false | inr n => n < found + zlen us end.
Proof.
  revert fuel found x q. induction us as [|u us IH]; intros fuel found x q Hok Hq Hr Hf; cbn [map concat] in Hq.
  { symmetry in Hq. by apply app_eq_nil in Hq as [_ ?]. }
  apply Forall_cons in Hok as [Hu Hok]. rewrite zlen_cons. pose proof (zlen_nonneg us). pose proof (record_nonempty u). apply app_eq_inv in Hq as [(k & Hk & Hrk)|(k & -> & Hk)].
  - destruct q as [|t q]; [destruct fuel; cbn; lia|]. destruct fuel as [|n]; [cbn in Hf; lia|]. destruct k as [|b k].
    + rewrite app_nil_r in Hk. rewrite <- Hk, <- (app_nil_r (record u)), iterate_record by done. destruct us as [|u' us]; [by rewrite Hrk in Hr|]. rewrite zlen_cons in *. pose proof (zlen_nonneg us). destruct n; cbn; lia.
    + destruct (iterate_cut n u (t :: q) (b :: k) found x Hu Hk) as (s & -> & Hs); [done..|]. done.
  - destruct fuel as [|n]; [rewrite length_app in Hf; lia|]. rewrite iterate_record by done. rewrite Z.add_assoc. apply IH; [done|done|done|rewrite length_app in Hf; lia].
Qed.

(** A batch that lost bytes at its end is not taken for a whole one. *)
Theorem truncated_batch_rejected us seq q r x : Forall update_ok us -> zlen us < 2 ^ 31 -> SetSequence (build us) seq = q ++ r -> r <> [] -> ok (Iterate h q x).1 = false.
Proof.
  intros Hok Hn Hq Hr. rewrite build_batch, SetSequence_batch in Hq by done. unfold Iterate. destruct (Z.ltb_spec (zlen q) (Z.of_nat kHeader)) as [|Hl]; [done|]. unfold zlen in Hl.
  assert (exists d, q = (EncodeFixed64 seq ++ EncodeFixed32 (zlen us)) ++ d /\ concat (map record us) = d ++ r) as (d & -> & Hd).
  { unfold batch in Hq. rewrite app_assoc in Hq. apply app_eq_inv in Hq as [(k & Hk & ->)|(k & -> & Hk)]; [|by exists k].
    assert (k = []) as ->; [|exists []; by rewrite !app_nil_r in *].
    apply nil_length_inv. apply (f_equal length) in Hk. rewrite !length_app in Hk. unfold EncodeFixed64, EncodeFixed32 in Hk. rewrite !length_le_list in Hk. unfold kHeader in Hl. lia. }
  assert (drop kHeader ((EncodeFixed64 seq ++ EncodeFixed32 (zlen us)) ++ d) = d) as ->.
  { apply drop_app_length'. rewrite length_app. unfold EncodeFixed64, EncodeFixed32. by rewrite !length_le_list. }
  pose proof (iterate_truncated (length d) us 0 x d r Hok Hd Hr ltac:(lia)) as Ht. destruct (iterate_loop h (length d) d 0 x) as [[s|n] x']; [done|]. cbn [fst] in Ht.
  assert (Count ((EncodeFixed64 seq ++ EncodeFixed32 (zlen us)) ++ d) = zlen us) as ->.
  { pose proof (zlen_nonneg us). unfold Count. rewrite <- app_assoc, drop_app_length' by exact (eq_sym (length_le_list _ _)). rewrite fixed32_roundtrip by (unfold is_u32; lia). apply i32_small. lia. }
  by destruct (Z.eqb_spec n (zlen us)); [lia|].
Qed.
End Truncated.

Lemma truncated_batch_rejected_witness :
  ok (Iterate (mkHandler (fun x _ _ => x) (fun x _ => x) : Handler unit) (take 15 (SetSequence (build [UPut [Byte.x61] [Byte.x01]]) 7)) ()).1 = false.
Proof.
  apply (truncated_batch_rejected (mkHandler (fun x _ _ => x) (fun x _ => x) : Handler unit) [UPut [Byte.x61] [Byte.x01]] 7 _ (drop 15 (SetSequence (build [UPut [Byte.x61] [Byte.x01]]) 7))).
  - repeat constructor; vm_compute; discriminate.
  - by vm_compute.
  - by rewrite take_drop.
  - by vm_compute.
Defined.
