(* ===== verification/LogFile.v ===== *)
(** * The log of LevelDB: db/log_format.h, db/log_writer.cc, db/log_reader.cc

    The file is a sequence of blocks; a record is written as one or more
    fragments, none of which crosses the end of a block.  The files of the
    environment are parameters: a type of files and the calls on it. *)

From Stdlib Require String.
From S2P Require Import Prelude CommonData Coding Crc32c Bloom DbFormat.
Import (notations) String.

(** ** Format *)

Inductive RecordType := kZeroType | kFullType | kFirstType | kMiddleType | kLastType.
Definition rt_num (t : RecordType) : Z :=
  match t with kZeroType => 0 | kFullType => 1 | kFirstType => 2 | kMiddleType => 3 | kLastType => 4 end.
Definition kMaxRecordType : Z := 4.
Definition kBlockSize : Z := 32768.
Definition kHeaderSize : Z := 7.

(** ** [Writer] *)

(** [type_crc_], the checksums of the types.  The result of [Value] does not
    depend on the address of the data. *)
Definition type_crc_ (t : RecordType) : Z := Value 0 [byte_of (rt_num t)].

(** [WritableFile]: the calls the writer makes. *)
Record WritableFile (F : Type) : Type := mkWritable { file_Append : F -> bytes -> LStatus * F; file_Flush : F -> LStatus * F }.
Arguments mkWritable {F}. Arguments file_Append {F}. Arguments file_Flush {F}.

Section Writer.
Context {F : Type} (file : WritableFile F).

Record Writer : Type := mkWriter { dest_ : F; block_offset_ : Z }.
Definition newWriter (dest : F) : Writer := mkWriter dest 0.
Definition newWriter_at (dest : F) (dest_length : Z) : Writer := mkWriter dest (dest_length mod kBlockSize).

Definition phys_header (t : RecordType) (data : bytes) : bytes :=
  let n := zlen data in
  let crc := Mask (Extend 0 (type_crc_ t) data) in
  EncodeFixed32 crc ++ [byte_of (Z.land n 0xff); byte_of (Z.shiftr n 8); byte_of (rt_num t)].

Definition EmitPhysicalRecord (w : Writer) (t : RecordType) (data : bytes) : LStatus * Writer :=
  let n := zlen data in
  let '(s, dest) := file_Append file (dest_ w) (phys_header t data) in
  let '(s, dest) :=
    if ok s then
      let '(s, dest) := file_Append file dest data in
      if ok s then file_Flush file dest else (s, dest)
    else (s, dest) in
  (s, mkWriter dest (block_offset_ w + kHeaderSize + n)).

(** The type of a fragment. *)
Definition frag_type (begin last : bool) : RecordType :=
  if begin && last then kFullType else if begin then kFirstType else if last then kLastType else kMiddleType.

(** The [do ... while] loop of [AddRecord]; [ptr] is what is left.  It comes
    to an end as only the first fragment can be empty while data is left. *)
Fixpoint add_loop (fuel : nat) (w : Writer) (ptr : bytes) (begin : bool) : option (LStatus * Writer) :=
  match fuel with
  | O => None
  | S f =>
      let leftover := kBlockSize - block_offset_ w in
      let w :=
        if leftover <? kHeaderSize then
          let dest := if 0 <? leftover then (file_Append file (dest_ w) (replicate (Z.to_nat leftover) Byte.x00)).2 else dest_ w in
          mkWriter dest 0
        else w in
      let avail := kBlockSize - block_offset_ w - kHeaderSize in
      let left := zlen ptr in
      let fragment_length := if left <? avail then left else avail in
      let '(s, w) := EmitPhysicalRecord w (frag_type begin (left =? fragment_length)) (take (Z.to_nat fragment_length) ptr) in
      let ptr := drop (Z.to_nat fragment_length) ptr in
      if ok s && (0 <? zlen ptr) then add_loop f w ptr false else Some (s, w)
  end.
Definition AddRecord (w : Writer) (slice : bytes) : option (LStatus * Writer) := add_loop (S (S (length slice))) w slice true.
End Writer.
Arguments mkWriter {F}. Arguments dest_ {F}. Arguments block_offset_ {F}.

(** ** [Reader] *)

Definition kEof : Z := kMaxRecordType + 1.
Definition kBadRecord : Z := kMaxRecordType + 2.

(** [SequentialFile]: the calls the reader makes. *)
Record SequentialFile (F : Type) : Type := mkSequential { file_Read : F -> Z -> LStatus * bytes * F; file_Skip : F -> Z -> LStatus * F }.
Arguments mkSequential {F}. Arguments file_Read {F}. Arguments file_Skip {F}.

(** [reports] are the calls to the reporter, the last one first. *)
Record Reader (F : Type) : Type := mkReader {
  file_ : F; buffer_ : bytes; eof_ : bool; last_record_offset_ : Z; end_of_buffer_offset_ : Z; resyncing_ : bool; reports : list (Z * LStatus)
}.
Arguments mkReader {F}. Arguments file_ {F}. Arguments buffer_ {F}. Arguments eof_ {F}. Arguments last_record_offset_ {F}.
Arguments end_of_buffer_offset_ {F}. Arguments resyncing_ {F}. Arguments reports {F}.

Section Reader.
Context {F : Type} (file : SequentialFile F) (has_reporter checksum_ : bool) (initial_offset_ : Z).
Abbreviation reader := (Reader F).

Definition newReader (f : F) : reader := mkReader f [] false 0 0 (0 <? initial_offset_) [].

Definition set_buffer (b : bytes) (r : reader) : reader :=
  mkReader (file_ r) b (eof_ r) (last_record_offset_ r) (end_of_buffer_offset_ r) (resyncing_ r) (reports r).
Definition set_resyncing (b : bool) (r : reader) : reader :=
  mkReader (file_ r) (buffer_ r) (eof_ r) (last_record_offset_ r) (end_of_buffer_offset_ r) b (reports r).
Definition set_last_offset (o : Z) (r : reader) : reader :=
  mkReader (file_ r) (buffer_ r) (eof_ r) o (end_of_buffer_offset_ r) (resyncing_ r) (reports r).

Definition ReportDrop (r : reader) (n : Z) (reason : LStatus) : reader :=
  if has_reporter && (initial_offset_ <=? u64 (end_of_buffer_offset_ r - zlen (buffer_ r) - n))
  then mkReader (file_ r) (buffer_ r) (eof_ r) (last_record_offset_ r) (end_of_buffer_offset_ r) (resyncing_ r) ((n, reason) :: reports r)
  else r.
Definition ReportCorruption (r : reader) (n : Z) (reason : String.string) : reader := ReportDrop r n (Corruption reason).

(** Whether the initial block was reached. *)
Definition SkipToInitialBlock (r : reader) : bool * reader :=
  let offset_in_block := initial_offset_ mod kBlockSize in
  let start := initial_offset_ - offset_in_block in
  let start := if kBlockSize - 6 <? offset_in_block then u64 (start + kBlockSize) else start in
  let r := mkReader (file_ r) (buffer_ r) (eof_ r) (last_record_offset_ r) start (resyncing_ r) (reports r) in
  if 0 <? start then
    let '(s, f) := file_Skip file (file_ r) start in
    let r := mkReader f (buffer_ r) (eof_ r) (last_record_offset_ r) (end_of_buffer_offset_ r) (resyncing_ r) (reports r) in
    if ok s then (true, r) else (false, ReportDrop r start s)
  else (true, r).

(** The type, as the [char] of the header converted to [unsigned int]. *)
Definition header_type (b : byte) : Z := u32 (if bval b <? 128 then bval b else bval b - 256).

(** The part of [ReadPhysicalRecord] behind the reading of a block. *)
Definition parse_physical (r : reader) : Z * bytes * reader :=
  let header := buffer_ r in
  let a := bval (nth 4 header Byte.x00) in
  let b := bval (nth 5 header Byte.x00) in
  let type := header_type (nth 6 header Byte.x00) in
  let length := Z.lor a (Z.shiftl b 8) in
  if zlen header <? kHeaderSize + length then
    let drop_size := zlen header in
    let r := set_buffer [] r in
    if negb (eof_ r) then (kBadRecord, [], ReportCorruption r drop_size "bad record length"%string) else (kEof, [], r)
  else if (type =? rt_num kZeroType) && (length =? 0) then (kBadRecord, [], set_buffer [] r)
  else if checksum_ && negb (Value 0 (take (Z.to_nat (1 + length)) (drop 6 header)) =? Unmask (DecodeFixed32 header)) then
    let drop_size := zlen header in
    (kBadRecord, [], ReportCorruption (set_buffer [] r) drop_size "checksum mismatch"%string)
  else
    let r := set_buffer (drop (Z.to_nat (kHeaderSize + length)) header) r in
    if u64 (end_of_buffer_offset_ r - zlen (buffer_ r) - kHeaderSize - length) <? initial_offset_ then (kBadRecord, [], r)
    else (type, take (Z.to_nat length) (drop 7 header), r).

(** The type of the record, its data and the reader behind it.  A block is
    read at most once, so that the loop makes at most two rounds. *)
Fixpoint physical_loop (fuel : nat) (r : reader) : option (Z * bytes * reader) :=
  match fuel with
  | O => None
  | S n =>
      if zlen (buffer_ r) <? kHeaderSize then
        if negb (eof_ r) then
          let '(status, b, f) := file_Read file (file_ r) kBlockSize in
          let r := mkReader f b (eof_ r) (last_record_offset_ r) (u64 (end_of_buffer_offset_ r + zlen b)) (resyncing_ r) (reports r) in
          if negb (ok status) then
            let r := ReportDrop (set_buffer [] r) kBlockSize status in
            Some (kEof, [], mkReader (file_ r) (buffer_ r) true (last_record_offset_ r) (end_of_buffer_offset_ r) (resyncing_ r) (reports r))
          else
            let r := if zlen b <? kBlockSize then mkReader (file_ r) b true (last_record_offset_ r) (end_of_buffer_offset_ r) (resyncing_ r) (reports r) else r in
            physical_loop n r
        else Some (kEof, [], set_buffer [] r)
      else Some (parse_physical r)
  end.
Definition ReadPhysicalRecord (r : reader) : option (Z * bytes * reader) := physical_loop 2 r.

(** The loop of [ReadRecord]: [Some (Some record, r)] for true. *)
Fixpoint record_loop (fuel : nat) (r : reader) (scratch : bytes) (in_fragmented : bool) (prospective : Z) : option (option bytes * reader) :=
  match fuel with
  | O => None
  | S n =>
      '(record_type, fragment, r) ← ReadPhysicalRecord r;
      let physical_record_offset := u64 (end_of_buffer_offset_ r - zlen (buffer_ r) - kHeaderSize - zlen fragment) in
      if resyncing_ r && (record_type =? rt_num kMiddleType) then record_loop n r scratch in_fragmented prospective
      else if resyncing_ r && (record_type =? rt_num kLastType) then record_loop n (set_resyncing false r) scratch in_fragmented prospective
      else
        let r := set_resyncing false r in
        if record_type =? rt_num kFullType then
          let r := if in_fragmented && negb (zlen scratch =? 0) then ReportCorruption r (zlen scratch) "partial record without end(1)"%string else r in
          Some (Some fragment, set_last_offset physical_record_offset r)
        else if record_type =? rt_num kFirstType then
          let r := if in_fragmented && negb (zlen scratch =? 0) then ReportCorruption r (zlen scratch) "partial record without end(2)"%string else r in
          record_loop n r fragment true physical_record_offset
        else if record_type =? rt_num kMiddleType then
          if negb in_fragmented then record_loop n (ReportCorruption r (zlen fragment) "missing start of fragmented record(1)"%string) scratch in_fragmented prospective
          else record_loop n r (scratch ++ fragment) in_fragmented prospective
        else if record_type =? rt_num kLastType then
          if negb in_fragmented then record_loop n (ReportCorruption r (zlen fragment) "missing start of fragmented record(2)"%string) scratch in_fragmented prospective
          else Some (Some (scratch ++ fragment), set_last_offset prospective r)
        else if record_type =? kEof then Some (None, r)
        else if record_type =? kBadRecord then
          if in_fragmented then record_loop n (ReportCorruption r (zlen scratch) "error in middle of record"%string) [] false prospective
          else record_loop n r scratch in_fragmented prospective
        else
          record_loop n (ReportCorruption r (zlen fragment + (if in_fragmented then zlen scratch else 0)) "unknown record type"%string) [] false prospective
  end.
Definition ReadRecord (fuel : nat) (r : reader) : option (option bytes * reader) :=
  if last_record_offset_ r <? initial_offset_ then
    let '(found, r) := SkipToInitialBlock r in
    if found then record_loop fuel r [] false 0 else Some (None, r)
  else record_loop fuel r [] false 0.

(** Records until the reader says that there are no more. *)
Fixpoint read_all (fuel : nat) (r : reader) : option (list bytes * reader) :=
  match fuel with
  | O => None
  | S n =>
      '(record, r) ← ReadRecord fuel r;
      match record with
      | None => Some ([], r)
      | Some b => '(bs, r) ← read_all n r; Some (b :: bs, r)
      end
  end.
End Reader.

(** ** Files

    What the headers of the environment promise: [Append] adds the data to the
    end of the file, [Read] gives the next bytes, fewer only at the end. *)

Class WritableLaws {F : Type} (file : WritableFile F) (data : F -> bytes) : Prop := {
  append_ok f d : (file_Append file f d).1 = OK /\ data (file_Append file f d).2 = data f ++ d;
  flush_ok f : (file_Flush file f).1 = OK /\ data (file_Flush file f).2 = data f
}.
Class SequentialLaws {F : Type} (file : SequentialFile F) (data : F -> bytes) : Prop :=
  read_ok f n : exists f', file_Read file f n = (OK, take (Z.to_nat n) (data f), f') /\ data f' = drop (Z.to_nat n) (data f).

(** ** What the writer puts into the file *)

Definition phys (t : RecordType) (data : bytes) : bytes := phys_header t data ++ data.

(** Where a fragment starts, and the trailer of the block before it. *)
Definition start (off off' : Z) (pad : bytes) : Prop :=
  (kBlockSize - off < kHeaderSize /\ off' = 0 /\ pad = replicate (Z.to_nat (kBlockSize - off)) Byte.x00) \/
  (kHeaderSize <= kBlockSize - off /\ off' = off /\ pad = []).

(** [frags off begin ptr bs o]: from the offset [off] of a block on, [bs] are
    fragments of [ptr], and the last one ends at [o]. *)
Inductive frags : Z -> bool -> bytes -> bytes -> Z -> Prop :=
| frag_last off off' begin ptr pad : start off off' pad -> off' + kHeaderSize + zlen ptr <= kBlockSize ->
    frags off begin ptr (pad ++ phys (frag_type begin true) ptr) (off' + kHeaderSize + zlen ptr)
| frag_more off off' begin ptr ptr' pad bs o : start off off' pad -> off' + kHeaderSize + zlen ptr = kBlockSize -> ptr' <> [] ->
    frags kBlockSize false ptr' bs o -> frags off begin (ptr ++ ptr') (pad ++ phys (frag_type begin false) ptr ++ bs) o.

Lemma zlen_phys_header t data : zlen (phys_header t data) = kHeaderSize.
Proof. unfold phys_header, EncodeFixed32. rewrite zlen_app, zlen_le_bytes. done. Qed.
Lemma zlen_phys t data : zlen (phys t data) = kHeaderSize + zlen data.
Proof. unfold phys. by rewrite zlen_app, zlen_phys_header. Qed.
Lemma zlen_take {A} n (l : list A) : 0 <= n <= zlen l -> zlen (take (Z.to_nat n) l) = n.
Proof. intros Hn. unfold zlen in *. rewrite length_take. lia. Qed.
Lemma zlen_drop_max {A} n (l : list A) : 0 <= n -> zlen (drop (Z.to_nat n) l) = Z.max 0 (zlen l - n).
Proof. intros Hn. unfold zlen in *. rewrite length_drop. lia. Qed.
Lemma zlen_zero {A} (l : list A) : zlen l <= 0 -> l = [].
Proof. intros Hl. pose proof (zlen_nonneg l). apply nil_length_inv. unfold zlen in *. lia. Qed.

Section WriterFacts.
Context {F : Type} (file : WritableFile F) (data : F -> bytes) `{!WritableLaws file data}.

Lemma Emit_ok w t d : exists w', EmitPhysicalRecord file w t d = (OK, w') /\ data (dest_ w') = data (dest_ w) ++ phys t d /\
  block_offset_ w' = block_offset_ w + kHeaderSize + zlen d.
Proof.
  unfold EmitPhysicalRecord, phys. pose proof (append_ok (dest_ w) (phys_header t d)) as H1. destruct (file_Append file (dest_ w) (phys_header t d)) as [s1 f1]. cbn [fst snd] in H1. destruct H1 as [-> Hd1].
  cbn [ok]. pose proof (append_ok f1 d) as H2. destruct (file_Append file f1 d) as [s2 f2]. cbn [fst snd] in H2. destruct H2 as [-> Hd2].
  cbn [ok]. pose proof (flush_ok f2) as H3. destruct (file_Flush file f2) as [s3 f3]. cbn [fst snd] in H3. destruct H3 as [-> Hd3].
  eexists. split; [done|]. cbn [dest_ block_offset_]. split; [|done]. by rewrite Hd3, Hd2, Hd1, app_assoc.
Qed.

(** The block in which the next fragment goes. *)
Lemma start_ok w : 0 <= block_offset_ w <= kBlockSize -> exists pad w', start (block_offset_ w) (block_offset_ w') pad /\ data (dest_ w') = data (dest_ w) ++ pad /\
  0 <= block_offset_ w' <= kBlockSize - kHeaderSize /\ (block_offset_ w = kBlockSize -> block_offset_ w' = 0) /\
  (if kBlockSize - block_offset_ w <? kHeaderSize
   then mkWriter (if 0 <? kBlockSize - block_offset_ w then (file_Append file (dest_ w) (replicate (Z.to_nat (kBlockSize - block_offset_ w)) Byte.x00)).2 else dest_ w) 0
   else w) = w'.
Proof.
  intros Hw. unfold start, kBlockSize, kHeaderSize in *. destruct (Z.ltb_spec (32768 - block_offset_ w) 7).
  - eexists (replicate (Z.to_nat (32768 - block_offset_ w)) Byte.x00), _. split; [left; split; [done|split; [|done]]|split; [|split; [|split; [|done]]]]; cbn [block_offset_ dest_]; [done| |lia|done].
    destruct (Z.ltb_spec 0 (32768 - block_offset_ w)); [apply append_ok|]. replace (Z.to_nat (32768 - block_offset_ w)) with 0%nat by lia. by rewrite app_nil_r.
  - exists [], w. split; [right; split; [lia|done]|]. split; [by rewrite app_nil_r|]. split; [lia|]. split; [lia|done].
Qed.

Lemma add_loop_frags fuel w ptr begin : 0 <= block_offset_ w <= kBlockSize -> (length ptr + (if decide (block_offset_ w = kBlockSize) then 1 else 2) <= fuel)%nat ->
  exists w' bs, add_loop file fuel w ptr begin = Some (OK, w') /\ frags (block_offset_ w) begin ptr bs (block_offset_ w') /\ data (dest_ w') = data (dest_ w) ++ bs /\
    0 <= block_offset_ w' <= kBlockSize.
Proof.
  revert w ptr begin. induction fuel as [|f IH]; intros w ptr begin Hw Hf; [destruct (decide _); lia|]. cbn [add_loop].
  destruct (start_ok w Hw) as (pad & w1 & Hst & Hd1 & Hb1 & H0 & Hw1). rewrite Hw1. pose proof (zlen_nonneg ptr).
  set (avail := kBlockSize - block_offset_ w1 - kHeaderSize). assert (0 <= avail) as Hav by (unfold avail; lia).
  set (fl := if zlen ptr <? avail then zlen ptr else avail). assert (0 <= fl <= zlen ptr /\ fl <= avail) as Hfl by (unfold fl; destruct (Z.ltb_spec (zlen ptr) avail); lia).
  destruct (Emit_ok w1 (frag_type begin (zlen ptr =? fl)) (take (Z.to_nat fl) ptr)) as (w2 & -> & Hd2 & Hb2). rewrite zlen_take in Hb2 by lia. cbn [ok andb].
  destruct (Z.eqb_spec (zlen ptr) fl) as [Hend|Hend].
  - assert (drop (Z.to_nat fl) ptr = []) as -> by (apply zlen_zero; rewrite zlen_drop_max by lia; lia). change (0 <? @zlen byte []) with false. cbv iota.
    exists w2, (pad ++ phys (frag_type begin true) ptr). assert (take (Z.to_nat fl) ptr = ptr) as Ht by (apply take_ge; unfold zlen in Hend; lia). rewrite Ht in Hd2.
    split; [done|]. split; [rewrite Hb2, <- Hend; apply frag_last; [done|unfold avail in *; lia]|]. split; [rewrite Hd2, Hd1; by rewrite app_assoc|unfold avail, kHeaderSize in *; lia].
  - assert (fl = avail) as Hfa by (unfold fl in *; destruct (Z.ltb_spec (zlen ptr) avail); lia). assert (block_offset_ w2 = kBlockSize) as Hfull by (unfold avail in *; lia).
    destruct (Z.ltb_spec 0 (zlen (drop (Z.to_nat fl) ptr))) as [Hl|Hl]; rewrite zlen_drop_max in Hl by lia; [|lia].
    destruct (IH w2 (drop (Z.to_nat fl) ptr) false) as (w' & bs & Ha & Hfr & Hd' & Hb'); [unfold kBlockSize in *; lia| |].
    { rewrite Hfull, decide_True by done. rewrite length_drop. unfold zlen in *. destruct (decide (block_offset_ w = kBlockSize)) as [E|]; [|lia]. specialize (H0 E). unfold avail, kBlockSize, kHeaderSize in *. lia. }
    exists w', (pad ++ phys (frag_type begin false) (take (Z.to_nat fl) ptr) ++ bs). split; [done|]. rewrite Hfull in Hfr. split; [|split; [|done]].
    + rewrite <- (take_drop (Z.to_nat fl) ptr) at 1. eapply frag_more; [exact Hst|rewrite zlen_take by lia; unfold avail in *; lia| |exact Hfr].
      intros E. apply (f_equal zlen) in E. rewrite zlen_drop_max in E by lia. change (@zlen byte []) with 0 in E. lia.
    + rewrite Hd', Hd2, Hd1. by rewrite <- !app_assoc.
Qed.
End WriterFacts.

(** ** Reading fragments *)

Lemma take_zlen_app {A} n (a b : list A) : zlen a <= n -> take (Z.to_nat n) (a ++ b) = a ++ take (Z.to_nat (n - zlen a)) b.
Proof. intros Hn. unfold zlen in *. rewrite take_app, (take_ge a) by lia. do 2 f_equal. lia. Qed.
Lemma drop_zlen_app {A} n (a b : list A) : zlen a <= n -> drop (Z.to_nat n) (a ++ b) = drop (Z.to_nat (n - zlen a)) b.
Proof. intros Hn. unfold zlen in *. rewrite drop_app, (drop_ge a) by lia. cbn [app]. f_equal. lia. Qed.

(** The fields of a header. *)
Lemma header_fields t data rest : zlen data < 2 ^ 16 ->
  let header := phys t data ++ rest in
  Z.lor (bval (nth 4 header Byte.x00)) (Z.shiftl (bval (nth 5 header Byte.x00)) 8) = zlen data /\
  header_type (nth 6 header Byte.x00) = rt_num t /\
  Value 0 (take (Z.to_nat (1 + zlen data)) (drop 6 header)) = Unmask (DecodeFixed32 header) /\
  drop 7 header = data ++ rest.
Proof.
  intros Hl. pose proof (zlen_nonneg data). unfold phys, phys_header. set (crc := Mask (Extend 0 (type_crc_ t) data)).
  assert (exists b0 b1 b2 b3, EncodeFixed32 crc = [b0; b1; b2; b3]) as (b0 & b1 & b2 & b3 & Hb) by (by eexists _, _, _, _).
  assert (is_u32 (type_crc_ t)) as Ht by (unfold type_crc_, Value; rewrite Extend_crc32c by (unfold is_u32; lia); apply crc32c_u32; unfold is_u32; lia).
  split; [|split; [|split]].
  - rewrite Hb. cbn [app nth]. rewrite lor_byte_shift by apply bval_range. rewrite !bval_byte_of. change 255 with (Z.ones 8). rewrite Z.land_ones, Z.shiftr_div_pow2 by lia. change (2 ^ 8) with 256.
    rewrite Z.mod_mod by lia. rewrite (Z.mod_small (zlen data / 256)); [pose proof (Z.div_mod (zlen data) 256 ltac:(lia)); lia|].
    split; [apply Z.div_pos; lia|apply Z.div_lt_upper_bound; lia].
  - rewrite Hb. cbn [app nth]. by destruct t.
  - rewrite <- !app_assoc. rewrite fixed32_roundtrip by (unfold crc, Mask, u32, is_u32; apply Z.mod_pos_bound; lia). assert (Unmask crc = Extend 0 (type_crc_ t) data) as -> by (apply Unmask_Mask; rewrite Extend_crc32c by done; by apply crc32c_u32).
    rewrite Hb. cbn [app drop]. assert (take (Z.to_nat (1 + zlen data)) (byte_of (rt_num t) :: data ++ rest) = byte_of (rt_num t) :: data) as ->.
    { replace (Z.to_nat (1 + zlen data)) with (S (length data)) by (unfold zlen; lia). cbn [take]. by rewrite take_app_length. }
    rewrite Extend_crc32c by done. unfold type_crc_, Value. rewrite !Extend_crc32c by (unfold is_u32; lia). by rewrite crc32c_app.
  - by rewrite Hb.
Qed.

Section ReaderFacts.
Context {F : Type} (file : SequentialFile F) (data : F -> bytes) `{!SequentialLaws file data} (has_reporter checksum_ : bool).
Abbreviation rdr := (Reader F).

(** [at_ r d off]: in front of the reader is [d], from the offset [off] of a
    block on; the rest of the block is in the buffer.  The end of a block is
    as good as the start of the next. *)
Record at_ (r : rdr) (d : bytes) (off : Z) : Prop := {
  at_off : 0 <= off <= kBlockSize;
  at_buffer : buffer_ r = take (Z.to_nat (kBlockSize - off)) d;
  at_file : data (file_ r) = drop (Z.to_nat (kBlockSize - off)) d;
  at_eof : eof_ r = (zlen d <? kBlockSize - off)
}.
(** What reading leaves alone when nothing is dropped. *)
Definition quiet (r r' : rdr) : Prop := reports r' = reports r /\ resyncing_ r' = resyncing_ r.

Lemma quiet_trans r r1 r2 : quiet r r1 -> quiet r1 r2 -> quiet r r2.
Proof. intros [? ?] [? ?]. split; congruence. Qed.

(** Reading goes on to the next block. *)
Lemma refill n r d off : at_ r d off -> kBlockSize - off < kHeaderSize -> kBlockSize - off <= zlen d ->
  exists r', physical_loop file has_reporter checksum_ 0 (S n) r = physical_loop file has_reporter checksum_ 0 n r' /\ at_ r' (drop (Z.to_nat (kBlockSize - off)) d) 0 /\ quiet r r'.
Proof.
  intros [Hoff Hb Hf He] Hl Hd. cbn [physical_loop]. assert (zlen (buffer_ r) = kBlockSize - off) as Hzb by (rewrite Hb, zlen_take by lia; done). rewrite Hzb, He.
  destruct (Z.ltb_spec (kBlockSize - off) kHeaderSize); [|lia]. destruct (Z.ltb_spec (zlen d) (kBlockSize - off)); [lia|]. cbn [negb].
  destruct (read_ok (file_ r) kBlockSize) as (f' & -> & Hf'). cbn [ok negb]. eexists. split; [reflexivity|]. rewrite Hf in *. set (d' := drop (Z.to_nat (kBlockSize - off)) d) in *.
  pose proof (zlen_nonneg d'). assert (zlen (take (Z.to_nat kBlockSize) d') = Z.min kBlockSize (zlen d')) as Hz by (unfold zlen, kBlockSize; rewrite length_take; lia).
  split; [|by destruct (_ <? _)]. split; rewrite ?Z.sub_0_r; [unfold kBlockSize; lia|by destruct (_ <? _)|by destruct (_ <? _)|].
  rewrite Hz. destruct (Z.ltb_spec (Z.min kBlockSize (zlen d')) kBlockSize), (Z.ltb_spec (zlen d') kBlockSize); cbn [eof_]; lia || done || (rewrite He; by destruct (Z.ltb_spec (zlen d) (kBlockSize - off)); [lia|]).
Qed.

(** To the end of the file: a header that is not whole is no record. *)
Lemma header_cut n r d off : at_ r d off -> zlen d < kHeaderSize -> zlen d < kBlockSize - off ->
  exists r', physical_loop file has_reporter checksum_ 0 (S n) r = Some (kEof, [], r') /\ quiet r r'.
Proof.
  intros [Hoff Hb Hf He] Hd Ho. cbn [physical_loop]. rewrite Hb, take_ge by (unfold zlen in Ho; lia). rewrite He. destruct (Z.ltb_spec (zlen d) kHeaderSize); [|lia].
  destruct (Z.ltb_spec (zlen d) (kBlockSize - off)); [|lia]. cbn [negb]. by eexists.
Qed.

(** The start of a fragment: the trailer is skipped, the header is parsed. *)
Lemma at_start r d off off' pad : start off off' pad -> at_ r (pad ++ d) off -> kHeaderSize <= zlen d ->
  exists r', ReadPhysicalRecord file has_reporter checksum_ 0 r = Some (parse_physical has_reporter checksum_ 0 r') /\ at_ r' d off' /\ quiet r r'.
Proof.
  assert (forall n r d off, at_ r d off -> kHeaderSize <= zlen d -> kHeaderSize <= kBlockSize - off ->
    physical_loop file has_reporter checksum_ 0 (S n) r = Some (parse_physical has_reporter checksum_ 0 r)) as Hparse.
  { clear r d off. intros n r d off [Hoff Hb Hf He] Hd Ho. cbn [physical_loop]. assert (kHeaderSize <= zlen (buffer_ r)) as Hl by (rewrite Hb; unfold zlen in *; rewrite length_take; lia).
    by destruct (Z.ltb_spec (zlen (buffer_ r)) kHeaderSize); [lia|]. }
  intros [(Hl & -> & ->)|(Hl & -> & ->)] Hat Hd; unfold ReadPhysicalRecord.
  - pose proof (at_off _ _ _ Hat) as Hoff. assert (zlen (replicate (Z.to_nat (kBlockSize - off)) Byte.x00) = kBlockSize - off) as Hp by (unfold zlen; rewrite length_replicate; lia).
    destruct (refill 1 r _ off Hat Hl) as (r' & -> & Hat' & Hq); [rewrite zlen_app; pose proof (zlen_nonneg d); lia|].
    rewrite drop_zlen_app in Hat' by lia. rewrite Hp, Z.sub_diag, drop_0 in Hat'. exists r'. split; [|done]. apply (Hparse 0%nat r' d 0 Hat' Hd). unfold kHeaderSize, kBlockSize. lia.
  - exists r. split; [by apply (Hparse 1%nat r d off)|done].
Qed.

Lemma parse_ok r t d rest off : at_ r (phys t d ++ rest) off -> off + kHeaderSize + zlen d <= kBlockSize -> t <> kZeroType ->
  exists r', parse_physical has_reporter checksum_ 0 r = (rt_num t, d, r') /\ at_ r' rest (off + kHeaderSize + zlen d) /\ quiet r r'.
Proof.
  intros [Hoff Hb Hf He] Hfit Ht. pose proof (zlen_nonneg d). set (m := kBlockSize - off - (kHeaderSize + zlen d)).
  assert (buffer_ r = phys t d ++ take (Z.to_nat m) rest) as Hbuf by (rewrite Hb, take_zlen_app by (rewrite zlen_phys; lia); by rewrite zlen_phys).
  destruct (header_fields t d (take (Z.to_nat m) rest)) as (H1 & H2 & H3 & H4); [unfold kBlockSize, kHeaderSize in *; lia|]. cbv zeta in H1, H2, H3, H4.
  unfold parse_physical. rewrite Hbuf, H1, H2, H3, H4. rewrite zlen_app, zlen_phys. pose proof (zlen_nonneg (take (Z.to_nat m) rest)).
  destruct (Z.ltb_spec (kHeaderSize + zlen d + zlen (take (Z.to_nat m) rest)) (kHeaderSize + zlen d)); [lia|].
  assert ((rt_num t =? rt_num kZeroType) = false) as -> by (by destruct t). cbn [andb]. rewrite Z.eqb_refl. cbn [negb]. rewrite andb_false_r.
  match goal with |- context [u64 ?x <? 0] => pose proof (u64_range x) as Hu; unfold is_u64 in Hu; destruct (Z.ltb_spec (u64 x) 0); [lia|] end.
  rewrite (take_zlen_app (zlen d)), Z.sub_diag, take_0, app_nil_r by lia. eexists. split; [reflexivity|]. split; [|done]. split; cbn [buffer_ file_ eof_ set_buffer].
  - unfold kHeaderSize in *. lia.
  - rewrite drop_zlen_app by (rewrite zlen_phys; lia). rewrite zlen_phys, Z.sub_diag, drop_0. do 2 f_equal. unfold m. lia.
  - rewrite Hf, drop_zlen_app by (rewrite zlen_phys; lia). rewrite zlen_phys. do 2 f_equal. lia.
  - rewrite He, zlen_app, zlen_phys. destruct (Z.ltb_spec (kHeaderSize + zlen d + zlen rest) (kBlockSize - off)), (Z.ltb_spec (zlen rest) (kBlockSize - (off + kHeaderSize + zlen d))); lia || done.
Qed.

(** The data of a fragment is not all there: this is taken for the end. *)
Lemma parse_cut r t d q e off : at_ r q off -> phys t d = q ++ e -> e <> [] -> kHeaderSize <= zlen q -> off + kHeaderSize + zlen d <= kBlockSize ->
  exists r', parse_physical has_reporter checksum_ 0 r = (kEof, [], r') /\ quiet r r'.
Proof.
  intros [Hoff Hb Hf He] Hq Hne Hh Hfit. pose proof (zlen_nonneg d). assert (zlen q < kHeaderSize + zlen d) as Hlt.
  { rewrite <- (zlen_phys t d), Hq, zlen_app. destruct e as [|x e]; [done|]. rewrite zlen_cons. pose proof (zlen_nonneg e). lia. }
  rewrite take_ge in Hb by (unfold zlen in *; lia). assert (exists c, q = phys_header t d ++ c) as (c & Hc).
  { unfold phys in Hq. apply app_eq_inv in Hq as [(k & Hk & _)|(k & -> & _)]; [|by exists k]. exists []. pose proof (f_equal zlen Hk) as Hz. rewrite zlen_app, zlen_phys_header in Hz.
    assert (k = []) as -> by (apply zlen_zero; lia). by rewrite !app_nil_r in *. }
  destruct (header_fields t d []) as (H1 & _); [unfold kBlockSize, kHeaderSize in *; lia|]. cbv zeta in H1. rewrite app_nil_r in H1. unfold phys in H1.
  assert (forall i x, (i < 7)%nat -> nth i (phys_header t d ++ x) Byte.x00 = nth i (phys_header t d) Byte.x00) as Hn.
  { intros i x Hi. apply app_nth1. pose proof (zlen_phys_header t d) as Hz. unfold zlen, kHeaderSize in Hz. lia. }
  rewrite !Hn in H1 by lia. unfold parse_physical. rewrite Hb, Hc, !Hn, H1 by lia. rewrite <- Hc. destruct (Z.ltb_spec (zlen q) (kHeaderSize + zlen d)); [|lia].
  cbn [eof_ set_buffer]. rewrite He. destruct (Z.ltb_spec (zlen q) (kBlockSize - off)); [|lia]. cbn [negb]. by eexists.
Qed.

Lemma phys_step r t d rest off off' pad : start off off' pad -> at_ r (pad ++ phys t d ++ rest) off -> off' + kHeaderSize + zlen d <= kBlockSize -> t <> kZeroType ->
  exists r', ReadPhysicalRecord file has_reporter checksum_ 0 r = Some (rt_num t, d, r') /\ at_ r' rest (off' + kHeaderSize + zlen d) /\ quiet r r'.
Proof.
  intros Hst Hat Hfit Ht. pose proof (zlen_nonneg d). pose proof (zlen_nonneg rest). destruct (at_start r (phys t d ++ rest) off off' pad Hst Hat) as (r1 & -> & Hat1 & Hq1); [rewrite zlen_app, zlen_phys; lia|].
  destruct (parse_ok r1 t d rest off' Hat1 Hfit Ht) as (r2 & -> & Hat2 & Hq2). exists r2. split; [done|]. split; [done|]. by eapply quiet_trans.
Qed.
Lemma phys_cut r t d q e off off' pad : start off off' pad -> at_ r q off -> pad ++ phys t d = q ++ e -> e <> [] -> off' + kHeaderSize + zlen d <= kBlockSize ->
  exists r', ReadPhysicalRecord file has_reporter checksum_ 0 r = Some (kEof, [], r') /\ quiet r r'.
Proof.
  intros Hst Hat Hq He Hfit. pose proof (at_off _ _ _ Hat) as Hoff. assert (zlen pad < kHeaderSize /\ (pad <> [] -> zlen pad = kBlockSize - off)) as [Hp7 Hpl].
  { destruct Hst as [(Hl & _ & ->)|(_ & _ & ->)]; [|split; [done|done]]. unfold zlen. rewrite length_replicate. unfold kHeaderSize in *. lia. }
  apply app_eq_inv in Hq as [(k & Hk & Hek)|(k & -> & Hk)].
  - destruct (decide (k = [])) as [->|Hk0].
    + rewrite app_nil_r in Hk. subst q. destruct Hst as [(Hl & -> & Hpad)|(Hl & -> & ->)].
      * assert (zlen pad = kBlockSize - off) as Hz by (rewrite Hpad; unfold zlen; rewrite length_replicate; lia). unfold ReadPhysicalRecord.
        destruct (refill 1 r pad off Hat Hl) as (r1 & -> & Hat1 & Hq1); [lia|]. rewrite drop_ge in Hat1 by (unfold zlen in Hz; lia).
        destruct (header_cut 0 r1 [] 0 Hat1) as (r2 & -> & Hq2); [done|done|]. exists r2. split; [done|]. by eapply quiet_trans.
      * apply (header_cut 1 r [] off Hat); [done|]. change (@zlen byte []) with 0. unfold kHeaderSize in *. lia.
    + assert (zlen q < zlen pad) as Hlt by (rewrite Hk, zlen_app; destruct k as [|x k]; [done|]; rewrite zlen_cons; pose proof (zlen_nonneg k); lia).
      assert (pad <> []) as Hne by (intros ->; change (@zlen byte []) with 0 in Hlt; pose proof (zlen_nonneg q); lia). specialize (Hpl Hne).
      apply (header_cut 1 r q off Hat); lia.
  - destruct (Z.lt_ge_cases (zlen k) kHeaderSize) as [Hs|Hs].
    + destruct Hst as [(Hl & -> & Hpad)|(Hl & -> & ->)].
      * assert (zlen pad = kBlockSize - off) as Hz by (rewrite Hpad; unfold zlen; rewrite length_replicate; lia). unfold ReadPhysicalRecord.
        destruct (refill 1 r (pad ++ k) off Hat Hl) as (r1 & -> & Hat1 & Hq1); [rewrite zlen_app; pose proof (zlen_nonneg k); lia|]. rewrite drop_zlen_app, Hz, Z.sub_diag, drop_0 in Hat1 by lia.
        destruct (header_cut 0 r1 k 0 Hat1) as (r2 & -> & Hq2); [done|unfold kBlockSize, kHeaderSize in *; lia|]. exists r2. split; [done|]. by eapply quiet_trans.
      * apply (header_cut 1 r k off Hat); lia.
    + destruct (at_start r k off off' pad Hst Hat Hs) as (r1 & -> & Hat1 & Hq1). destruct (parse_cut r1 t d k e off' Hat1 Hk He Hs Hfit) as (r2 & -> & Hq2).
      exists r2. split; [done|]. by eapply quiet_trans.
Qed.

Lemma at_same r r' d off : at_ r d off -> buffer_ r' = buffer_ r -> file_ r' = file_ r -> eof_ r' = eof_ r -> at_ r' d off.
Proof. intros [H1 H2 H3 H4] Hb Hf He. split; [done|congruence..]. Qed.

Lemma frag_type_nonzero begin last : frag_type begin last <> kZeroType.
Proof. by destruct begin, last. Qed.

(** The rounds of the loop for the types that the writer uses. *)
Lemma loop_more n r r1 begin ptr scratch p : ReadPhysicalRecord file has_reporter checksum_ 0 r = Some (rt_num (frag_type begin false), ptr, r1) -> resyncing_ r1 = false ->
  (begin = true -> scratch = []) -> 0 <= p -> exists p', 0 <= p' /\ record_loop file has_reporter checksum_ 0 (S n) r scratch (negb begin) p =
    record_loop file has_reporter checksum_ 0 n (set_resyncing false r1) (scratch ++ ptr) true p'.
Proof.
  intros Hr Hre Hsc Hp. cbn [record_loop]. rewrite Hr. cbn [mbind option_bind]. rewrite Hre. cbn [andb]. destruct begin; cbn [frag_type andb negb].
  - rewrite (Hsc eq_refl). change (rt_num kFirstType =? rt_num kFullType) with false. change (rt_num kFirstType =? rt_num kFirstType) with true. cbv iota. eexists. split; [apply u64_range|done].
  - change (rt_num kMiddleType =? rt_num kFullType) with false. change (rt_num kMiddleType =? rt_num kFirstType) with false. change (rt_num kMiddleType =? rt_num kMiddleType) with true. cbv iota. by exists p.
Qed.
Lemma loop_last n r r1 begin ptr scratch p : ReadPhysicalRecord file has_reporter checksum_ 0 r = Some (rt_num (frag_type begin true), ptr, r1) -> resyncing_ r1 = false ->
  (begin = true -> scratch = []) -> 0 <= p -> exists p', 0 <= p' /\ record_loop file has_reporter checksum_ 0 (S n) r scratch (negb begin) p = Some (Some (scratch ++ ptr), set_last_offset p' (set_resyncing false r1)).
Proof.
  intros Hr Hre Hsc Hp. cbn [record_loop]. rewrite Hr. cbn [mbind option_bind]. rewrite Hre. cbn [andb]. destruct begin; cbn [frag_type andb negb].
  - rewrite (Hsc eq_refl). change (rt_num kFullType =? rt_num kFullType) with true. cbv iota. eexists. split; [apply u64_range|done].
  - change (rt_num kLastType =? rt_num kFullType) with false. change (rt_num kLastType =? rt_num kFirstType) with false. change (rt_num kLastType =? rt_num kMiddleType) with false.
    change (rt_num kLastType =? rt_num kLastType) with true. cbv iota. by exists p.
Qed.
Lemma loop_eof n r r1 scratch infrag p : ReadPhysicalRecord file has_reporter checksum_ 0 r = Some (kEof, [], r1) -> resyncing_ r1 = false ->
  record_loop file has_reporter checksum_ 0 (S n) r scratch infrag p = Some (None, set_resyncing false r1).
Proof.
  intros Hr Hre. cbn [record_loop]. rewrite Hr. cbn [mbind option_bind]. rewrite Hre. cbn [andb].
  change (kEof =? rt_num kFullType) with false. change (kEof =? rt_num kFirstType) with false. change (kEof =? rt_num kMiddleType) with false. change (kEof =? rt_num kLastType) with false.
  by change (kEof =? kEof) with true.
Qed.

(** A whole record, from its first or from a later fragment on. *)
Lemma read_frags off begin ptr bs o : frags off begin ptr bs o -> forall fuel r rest scratch p, at_ r (bs ++ rest) off -> resyncing_ r = false -> (length bs <= fuel)%nat ->
  (begin = true -> scratch = []) -> 0 <= p -> exists r', record_loop file has_reporter checksum_ 0 fuel r scratch (negb begin) p = Some (Some (scratch ++ ptr), r') /\
    at_ r' rest o /\ reports r' = reports r /\ resyncing_ r' = false /\ 0 <= last_record_offset_ r'.
Proof.
  induction 1 as [off off' begin ptr pad Hst Hfit|off off' begin ptr ptr' pad bs o Hst Hfit Hne Hfr IH]; intros fuel r rest scratch p Hat Hre Hf Hsc Hp; rewrite <- !app_assoc in Hat; rewrite !length_app in Hf.
  - destruct (phys_step r _ ptr rest off off' pad Hst Hat Hfit (frag_type_nonzero _ _)) as (r1 & Hr & Hat1 & Hrep & Hre1).
    pose proof (zlen_phys (frag_type begin true) ptr) as Hz. unfold zlen, kHeaderSize in Hz. destruct fuel as [|n]; [lia|].
    destruct (loop_last n r r1 begin ptr scratch p Hr ltac:(congruence) Hsc Hp) as (p' & Hp' & ->). eexists. split; [reflexivity|]. split; [by eapply at_same|]. done.
  - destruct (phys_step r _ ptr (bs ++ rest) off off' pad Hst Hat ltac:(lia) (frag_type_nonzero _ _)) as (r1 & Hr & Hat1 & Hrep & Hre1). rewrite Hfit in Hat1.
    pose proof (zlen_phys (frag_type begin false) ptr) as Hz. unfold zlen, kHeaderSize in Hz. destruct fuel as [|n]; [lia|].
    destruct (loop_more n r r1 begin ptr scratch p Hr ltac:(congruence) Hsc Hp) as (p' & Hp' & ->).
    destruct (IH n (set_resyncing false r1) rest (scratch ++ ptr) p') as (r' & Hr' & Hat' & Hrep' & Hre'); [by eapply at_same|done|lia|done|done|].
    exists r'. rewrite app_assoc. split; [exact Hr'|]. split; [done|]. split; [by rewrite Hrep'|done].
Qed.

(** A record of which bytes are missing is not returned, and not reported. *)
Lemma read_frags_cut off begin ptr bs o : frags off begin ptr bs o -> forall fuel r q e scratch p, at_ r q off -> bs = q ++ e -> e <> [] -> resyncing_ r = false -> (length q < fuel)%nat ->
  (begin = true -> scratch = []) -> 0 <= p -> exists r', record_loop file has_reporter checksum_ 0 fuel r scratch (negb begin) p = Some (None, r') /\ reports r' = reports r.
Proof.
  induction 1 as [off off' begin ptr pad Hst Hfit|off off' begin ptr ptr' pad bs o Hst Hfit Hne Hfr IH]; intros [|n] r q e scratch p Hat Hq He Hre Hf Hsc Hp; try lia.
  - destruct (phys_cut r _ ptr q e off off' pad Hst Hat Hq He Hfit) as (r1 & Hr & Hrep & Hre1). rewrite (loop_eof n r r1) by (done || congruence). by eexists.
  - assert ((exists k, k <> [] /\ pad ++ phys (frag_type begin false) ptr = q ++ k) \/ exists k, q = pad ++ phys (frag_type begin false) ptr ++ k /\ bs = k ++ e) as [(k & Hk0 & Hk)|(k & -> & Hk)].
    { rewrite app_assoc in Hq. apply app_eq_inv in Hq as [(k & Hk & Hek)|(k & -> & Hk)]; [|right; exists k; by rewrite <- app_assoc].
      destruct (decide (k = [])) as [->|Hk0]; [|left; by exists k]. right. exists []. rewrite !app_nil_r in *. done. }
    + destruct (phys_cut r _ ptr q k off off' pad Hst Hat Hk Hk0 ltac:(lia)) as (r1 & Hr & Hrep & Hre1). rewrite (loop_eof n r r1) by (done || congruence). by eexists.
    + destruct (phys_step r _ ptr k off off' pad Hst Hat ltac:(lia) (frag_type_nonzero _ _)) as (r1 & Hr & Hat1 & Hrep & Hre1). rewrite Hfit in Hat1.
      destruct (loop_more n r r1 begin ptr scratch p Hr ltac:(congruence) Hsc Hp) as (p' & Hp' & ->). pose proof (zlen_phys (frag_type begin false) ptr) as Hz. unfold zlen, kHeaderSize in Hz. rewrite !length_app in Hf.
      destruct (IH n (set_resyncing false r1) k e (scratch ++ ptr) p') as (r' & Hr' & Hrep'); [by eapply at_same|done|done|done|lia|done|done|]. exists r'. split; [exact Hr'|]. by rewrite Hrep'.
Qed.

Lemma read_end r off fuel : at_ r [] off -> resyncing_ r = false -> exists r', record_loop file has_reporter checksum_ 0 (S fuel) r [] false 0 = Some (None, r') /\ reports r' = reports r.
Proof.
  intros Hat Hre. assert (exists r1, ReadPhysicalRecord file has_reporter checksum_ 0 r = Some (kEof, [], r1) /\ quiet r r1) as (r1 & Hr & Hrep & Hre1).
  { pose proof (at_off _ _ _ Hat). unfold ReadPhysicalRecord. destruct (decide (off = kBlockSize)) as [->|].
    - destruct (refill 1 r [] kBlockSize Hat) as (r1 & -> & Hat1 & Hq1); [done|done|]. destruct (header_cut 0 r1 [] 0 Hat1) as (r2 & -> & Hq2); [done|done|].
      exists r2. split; [done|]. by eapply quiet_trans.
    - apply (header_cut 1 r [] off Hat); change (@zlen byte []) with 0; [done|lia]. }
  rewrite (loop_eof fuel r r1) by (done || congruence). by eexists.
Qed.
End ReaderFacts.

(** ** The whole log *)

Definition write_all {F} (file : WritableFile F) (w : Writer) (recs : list bytes) : option Writer :=
  foldl (fun w rec => w ← w; '(s, w) ← AddRecord file w rec; if ok s then Some w else None) (Some w) recs.

Inductive logs : Z -> list bytes -> list bytes -> Prop :=
| logs_nil off : logs off [] []
| logs_cons off rec recs bs bss o : frags off true rec bs o -> 0 <= o <= kBlockSize -> logs o recs bss -> logs off (rec :: recs) (bs :: bss).

Lemma write_all_cons {F} (file : WritableFile F) w w' rec recs : AddRecord file w rec = Some (OK, w') -> write_all file w (rec :: recs) = write_all file w' recs.
Proof. intros Ha. unfold write_all. cbn [foldl mbind option_bind]. rewrite Ha. done. Qed.

Lemma write_all_logs {F} (file : WritableFile F) (data : F -> bytes) `{!WritableLaws file data} w recs : 0 <= block_offset_ w <= kBlockSize ->
  exists bss, logs (block_offset_ w) recs bss /\ length bss = length recs /\
    forall j, exists w', write_all file w (take j recs) = Some w' /\ data (dest_ w') = data (dest_ w) ++ concat (take j bss) /\ 0 <= block_offset_ w' <= kBlockSize.
Proof.
  revert w. induction recs as [|rec recs IH]; intros w Hw.
  - exists []. split; [constructor|]. split; [done|]. intros j. exists w. rewrite !take_nil. cbn [concat]. by rewrite app_nil_r.
  - destruct (add_loop_frags file data (S (S (length rec))) w rec true Hw) as (w1 & bs & Ha & Hfr & Hd & Hb); [destruct (decide _); lia|].
    destruct (IH w1 Hb) as (bss & Hlogs & Hlen & Hj). exists (bs :: bss). split; [by eapply logs_cons|]. split; [cbn [length]; by rewrite Hlen|]. intros [|j].
    + exists w. cbn [take concat]. by rewrite app_nil_r.
    + cbn [take]. destruct (Hj j) as (w' & Hw' & Hd' & Hb'). exists w'. rewrite (write_all_cons file w w1 rec) by exact Ha. split; [done|]. split; [|done]. rewrite Hd', Hd. cbn [concat]. by rewrite app_assoc.
Qed.

Lemma frags_nonempty off begin ptr bs o : frags off begin ptr bs o -> (7 <= length bs)%nat.
Proof.
  intros Hf. destruct Hf as [off off' begin ptr pad _ _|off off' begin ptr ptr' pad bs o _ _ _ _].
  - pose proof (zlen_phys (frag_type begin true) ptr) as Hz. pose proof (zlen_nonneg ptr). rewrite length_app. unfold zlen, kHeaderSize in *. lia.
  - pose proof (zlen_phys (frag_type begin false) ptr) as Hz. pose proof (zlen_nonneg ptr). rewrite !length_app. unfold zlen, kHeaderSize in *. lia.
Qed.

Section ReadAll.
Context {F : Type} (file : SequentialFile F) (data : F -> bytes) `{!SequentialLaws file data} (has_reporter checksum_ : bool).

Lemma ReadRecord_0 fuel (r : Reader F) : 0 <= last_record_offset_ r -> ReadRecord file has_reporter checksum_ 0 fuel r = record_loop file has_reporter checksum_ 0 fuel r [] false 0.
Proof. intros Hl. unfold ReadRecord. by destruct (Z.ltb_spec (last_record_offset_ r) 0); [lia|]. Qed.

Lemma read_all_logs off recs bss : logs off recs bss -> forall r d e fuel, at_ data r d off -> resyncing_ r = false -> 0 <= last_record_offset_ r -> concat bss = d ++ e -> (length d < fuel)%nat ->
  exists k r', read_all file has_reporter checksum_ 0 fuel r = Some (take k recs, r') /\ reports r' = reports r /\ (k <= length recs)%nat /\
    (length (concat (take k bss)) <= length d)%nat /\ (k < length recs -> length d < length (concat (take (S k) bss)))%nat.
Proof.
  induction 1 as [off|off rec recs bs bss o Hfr Ho Hlogs IH]; intros r d e [|n] Hat Hre Hlast Hd Hf; try lia; cbn [read_all]; rewrite ReadRecord_0 by done.
  - symmetry in Hd. apply app_eq_nil in Hd as [-> ->]. destruct (read_end file data has_reporter checksum_ r off n Hat Hre) as (r' & -> & Hrep). exists 0%nat, r'. cbn. repeat split; [done|lia..].
  - cbn [concat] in Hd. pose proof (frags_nonempty _ _ _ _ _ Hfr) as H7.
    assert ((exists c, c <> [] /\ bs = d ++ c) \/ exists c, d = bs ++ c /\ concat bss = c ++ e) as [(c & Hc0 & Hc)|(c & -> & Hc)].
    { apply app_eq_inv in Hd as [(c & Hc & He)|(c & -> & Hc)]; [|right; by exists c]. destruct (decide (c = [])) as [->|Hc0]; [|left; by exists c]. right. exists []. rewrite !app_nil_r in *. done. }
    + destruct (read_frags_cut file data has_reporter checksum_ _ _ _ _ _ Hfr (S n) r d c [] 0 Hat Hc Hc0 Hre ltac:(lia) ltac:(done) ltac:(lia)) as (r' & Hr & Hrep). cbn [negb] in Hr. rewrite Hr.
      exists 0%nat, r'. cbn [take concat length mbind option_bind]. repeat split; [done|lia|lia|]. intros _. rewrite Hc, !length_app. destruct c; [done|cbn; lia].
    + destruct (read_frags file data has_reporter checksum_ _ _ _ _ _ Hfr (S n) r c [] 0 Hat Hre ltac:(rewrite length_app in Hf; lia) ltac:(done) ltac:(lia)) as (r1 & Hr & Hat1 & Hrep1 & Hre1 & Hl1). cbn [negb app] in Hr. rewrite Hr. cbn [mbind option_bind].
      destruct (IH r1 c e n Hat1 Hre1 Hl1 Hc ltac:(rewrite length_app in Hf; lia)) as (k & r' & Hra & Hrep & Hk & Hle & Hlt). rewrite Hra. cbn [mbind option_bind]. exists (S k), r'.
      cbn [take concat length]. rewrite !length_app. repeat split; [congruence|lia|lia|]. intros Hk'. specialize (Hlt ltac:(lia)). cbn [take concat] in Hlt |- *. lia.
Qed.
End ReadAll.

(** The end of a block is the start of the next one. *)
Lemma frags_wrap begin ptr bs o : frags 0 begin ptr bs o -> frags kBlockSize begin ptr bs o.
Proof.
  assert (forall off' pad, start 0 off' pad -> start kBlockSize off' pad) as Hst.
  { intros off' pad [(H & _)|(_ & -> & ->)]; [unfold kBlockSize, kHeaderSize in H; lia|]. left. done. }
  intros H. remember 0 as z. destruct H as [off off' begin ptr pad Hs Hfit|off off' begin ptr ptr' pad bs o Hs Hfit Hne Hfr]; subst; [apply frag_last|eapply frag_more]; try done; by apply Hst.
Qed.
Lemma newReader_at {G} (data : G -> bytes) g : at_ data (newReader 0 g) (data g) kBlockSize.
Proof.
  split; cbn [newReader buffer_ file_ eof_]; rewrite ?Z.sub_diag; [unfold kBlockSize; lia|done|done|]. pose proof (zlen_nonneg (data g)). by destruct (Z.ltb_spec (zlen (data g)) 0); [lia|].
Qed.

Lemma concat_take_mono {A} (l : list (list A)) j k : (j <= k)%nat -> (length (concat (take j l)) <= length (concat (take k l)))%nat.
Proof.
  intros Hjk. rewrite <- (take_drop j (take k l)), take_take, Nat.min_l by done. rewrite concat_app, length_app. lia.
Qed.

(** What is written is read back, from any prefix of the file. *)
Lemma log_read_back {F G} (fw : WritableFile F) (dw : F -> bytes) (fr : SequentialFile G) (dr : G -> bytes) (has_reporter checksum_ : bool) (f : F) (recs : list bytes) :
  WritableLaws fw dw -> SequentialLaws fr dr -> dw f = [] ->
  exists w, write_all fw (newWriter f) recs = Some w /\
    forall g e, dw (dest_ w) = dr g ++ e ->
    exists k r, read_all fr has_reporter checksum_ 0 (S (length (dr g))) (newReader 0 g) = Some (take k recs, r) /\ reports r = [] /\ (k <= length recs)%nat /\
      forall j wj, (j <= length recs)%nat -> write_all fw (newWriter f) (take j recs) = Some wj -> (length (dw (dest_ wj)) <= length (dr g) <-> j <= k)%nat.
Proof.
  intros Hw Hr Hf. destruct (write_all_logs fw dw (newWriter f) recs) as (bss & Hlogs & Hlen & Hj); [cbn; unfold kBlockSize; lia|]. cbn [newWriter dest_ block_offset_] in Hlogs, Hj. rewrite Hf in Hj.
  destruct (Hj (length recs)) as (w & Hwr & Hd & _). rewrite firstn_all in Hwr. exists w. split; [done|]. cbn [app] in Hd. rewrite <- Hlen, firstn_all in Hd. intros g e He.
  assert (logs kBlockSize recs bss) as Hlogs'.
  { clear -Hlogs. inversion Hlogs as [|? ? ? ? ? ? Hfr Ho Hl]; subst; [constructor|]. econstructor; [by apply frags_wrap|exact Ho|exact Hl]. }
  destruct (read_all_logs fr dr has_reporter checksum_ kBlockSize recs bss Hlogs' (newReader 0 g) (dr g) e (S (length (dr g)))) as (k & r & Hra & Hrep & Hk & Hle & Hlt);
    [apply newReader_at|done|cbn; lia|congruence|lia|].
  exists k, r. split; [done|]. split; [done|]. split; [done|]. intros j wj Hjl Hwj. destruct (Hj j) as (w' & Hw' & Hd' & _). rewrite Hw' in Hwj. injection Hwj as <-. rewrite Hd'. cbn [app]. split.
  - intros Hjd. destruct (decide (j <= k)%nat) as [|Hkj]; [done|]. pose proof (concat_take_mono bss (S k) j ltac:(lia)). specialize (Hlt ltac:(lia)). lia.
  - intros Hjk. pose proof (concat_take_mono bss j k Hjk). lia.
Qed.

(** C6. Any part of the log that survives gives back the records that had been
    written completely: when the file that is read is a prefix of the file
    that was written, the reader returns the first [k] records, unchanged and
    in order, and comes to its end; [k] counts just the records whose last
    byte is there; a record that was cut off is not taken for a corruption. *)
Theorem log_recovers_prefix {F G} (fw : WritableFile F) (dw : F -> bytes) (fr : SequentialFile G) (dr : G -> bytes) (has_reporter checksum_ : bool) (f : F) (recs : list bytes) :
  WritableLaws fw dw -> SequentialLaws fr dr -> dw f = [] ->
  exists w, write_all fw (newWriter f) recs = Some w /\
    forall g e, dw (dest_ w) = dr g ++ e ->
    exists k r, read_all fr has_reporter checksum_ 0 (S (length (dr g))) (newReader 0 g) = Some (take k recs, r) /\ reports r = [] /\ (k <= length recs)%nat /\
      forall j wj, (j <= length recs)%nat -> write_all fw (newWriter f) (take j recs) = Some wj -> (length (dw (dest_ wj)) <= length (dr g) <-> j <= k)%nat.
Proof. apply log_read_back. Qed.

(** Files in memory, for which the laws hold. *)
Definition mem_writable : WritableFile bytes := mkWritable (fun f d => (OK, f ++ d)) (fun f => (OK, f)).
Definition mem_sequential : SequentialFile bytes := mkSequential (fun f n => (OK, take (Z.to_nat n) f, drop (Z.to_nat n) f)) (fun f n => (OK, drop (Z.to_nat n) f)).
Lemma mem_writable_laws : WritableLaws mem_writable id.
Proof. by split. Qed.
Lemma mem_sequential_laws : SequentialLaws mem_sequential id.
Proof. intros f n. by eexists. Qed.

Lemma log_recovers_prefix_witness : exists w, write_all mem_writable (newWriter []) [[Byte.x61]; [Byte.x62; Byte.x63]] = Some w /\ length (dest_ w) = 17%nat /\
  exists r, read_all mem_sequential true true 0 17 (newReader 0 (take 16 (dest_ w))) = Some ([[Byte.x61]], r) /\ reports r = [].
Proof.
  destruct (log_recovers_prefix mem_writable id mem_sequential id true true [] [[Byte.x61]; [Byte.x62; Byte.x63]] mem_writable_laws mem_sequential_laws eq_refl) as (w & Hw & Hread).
  exists w. split; [exact Hw|]. assert (length (dest_ w) = 17%nat) as Hl by (vm_compute in Hw; injection Hw as <-; by vm_compute). split; [done|].
  destruct (Hread (take 16 (dest_ w)) (drop 16 (dest_ w))) as (k & r & Hr & Hrep & Hk & Hj); [symmetry; apply (take_drop 16 (dest_ w))|].
  assert (length (id (take 16 (dest_ w))) = 16%nat) as H16 by (unfold id; rewrite length_take; lia). rewrite H16 in Hr, Hj. exists r. split; [|done]. rewrite Hr.
  assert (exists w1, write_all mem_writable (newWriter []) [[Byte.x61]] = Some w1 /\ length (dest_ w1) = 8%nat) as (w1 & Hw1 & Hl1) by (eexists; split; vm_compute; reflexivity).
  assert (1 <= k)%nat as H1 by (apply (Hj 1%nat w1); [cbn; lia|exact Hw1|unfold id; lia]). assert (~ (2 <= k)%nat) as H2 by (intros Hk2; apply (Hj 2%nat w) in Hk2; [unfold id in Hk2; lia|cbn; lia|exact Hw]).
  replace k with 1%nat by lia. done.
Defined.

(** ** Any file at all *)

Section AnyFile.
Context {F : Type} (file : SequentialFile F) (data : F -> bytes) `{!SequentialLaws file data} (has_reporter checksum_ : bool) (initial_offset_ : Z).
Implicit Type r : Reader F.

(** The bytes in front of the reader. *)
Definition ahead r : nat := (length (buffer_ r) + length (data (file_ r)))%nat.

Lemma ReportDrop_ahead r n s : ahead (ReportDrop has_reporter initial_offset_ r n s) = ahead r.
Proof. unfold ReportDrop. by destruct (_ && _). Qed.
Lemma ReportCorruption_ahead r n s : ahead (ReportCorruption has_reporter initial_offset_ r n s) = ahead r.
Proof. apply ReportDrop_ahead. Qed.
Lemma set_buffer_ahead b r : (length b < length (buffer_ r))%nat -> (ahead (set_buffer b r) < ahead r)%nat.
Proof. unfold ahead. cbn [set_buffer buffer_ file_]. lia. Qed.

(** Parsing uses up part of the buffer. *)
Lemma parse_ahead r : kHeaderSize <= zlen (buffer_ r) -> (ahead (parse_physical has_reporter checksum_ initial_offset_ r).2 < ahead r)%nat.
Proof.
  intros Hh. unfold zlen, kHeaderSize in Hh. assert (ahead (set_buffer [] r) < ahead r)%nat as H0 by (apply set_buffer_ahead; cbn [length]; lia). unfold parse_physical.
  destruct (_ <? _); [destruct (negb _); cbn [snd]; rewrite ?ReportCorruption_ahead; done|]. destruct (_ && _); [done|]. destruct (_ && _); [cbn [snd]; by rewrite ReportCorruption_ahead|].
  match goal with |- context [set_buffer (drop ?n (buffer_ r)) r] => set (m := n) end. assert (ahead (set_buffer (drop m (buffer_ r)) r) < ahead r)%nat as Hd.
  { apply set_buffer_ahead. rewrite length_drop. assert (0 < m)%nat; [|lia]. unfold m, kHeaderSize. pose proof (bval_range (nth 4 (buffer_ r) Byte.x00)). pose proof (bval_range (nth 5 (buffer_ r) Byte.x00)).
    rewrite lor_byte_shift by done. lia. }
  by destruct (_ <? _).
Qed.

Lemma ReadPhysicalRecord_total r : exists t d r', ReadPhysicalRecord file has_reporter checksum_ initial_offset_ r = Some (t, d, r') /\ (t = kEof \/ ahead r' < ahead r)%nat.
Proof.
  assert (forall n r, kHeaderSize <= zlen (buffer_ r) -> exists t d r', physical_loop file has_reporter checksum_ initial_offset_ (S n) r = Some (t, d, r') /\ (t = kEof \/ ahead r' < ahead r)%nat) as Hp.
  { clear r. intros n r Hh. cbn [physical_loop]. destruct (Z.ltb_spec (zlen (buffer_ r)) kHeaderSize); [lia|]. pose proof (parse_ahead r Hh) as Ha.
    destruct (parse_physical has_reporter checksum_ initial_offset_ r) as [[t d] r']. exists t, d, r'. split; [done|]. by right. }
  unfold ReadPhysicalRecord. destruct (Z.lt_ge_cases (zlen (buffer_ r)) kHeaderSize) as [Hb|Hb]; [|by apply (Hp 1%nat)]. remember 1%nat as n eqn:Hn. cbn [physical_loop]. destruct (Z.ltb_spec (zlen (buffer_ r)) kHeaderSize); [|lia].
  destruct (eof_ r) eqn:He; cbn [negb]; [eexists _, _, _; split; [reflexivity|by left]|]. destruct (read_ok (file_ r) kBlockSize) as (f' & -> & Hf'). cbn [ok negb].
  set (b := take (Z.to_nat kBlockSize) (data (file_ r))). cbn [file_ buffer_ eof_ last_record_offset_ end_of_buffer_offset_ resyncing_ reports].
  match goal with |- context [if zlen b <? kBlockSize then ?x else ?y] => set (r1 := if zlen b <? kBlockSize then x else y) end.
  assert (buffer_ r1 = b /\ file_ r1 = f' /\ (zlen b < kBlockSize -> eof_ r1 = true)) as (Hb1 & Hf1 & He1) by (unfold r1; destruct (Z.ltb_spec (zlen b) kBlockSize); repeat split; done || lia).
  assert (ahead r1 <= ahead r)%nat as Ha.
  { unfold ahead. rewrite Hb1, Hf1, Hf'. unfold b. rewrite <- length_app, take_drop. lia. }
  destruct (Z.lt_ge_cases (zlen b) kHeaderSize) as [Hs|Hs].
  - subst n. cbn [physical_loop]. rewrite Hb1. destruct (Z.ltb_spec (zlen b) kHeaderSize); [|lia]. rewrite He1 by (unfold kHeaderSize, kBlockSize in *; lia). eexists _, _, _. split; [reflexivity|by left].
  - destruct (Hp 0%nat r1) as (t & d & r' & Hr' & Ht); [by rewrite Hb1|]. exists t, d, r'. subst n. split; [exact Hr'|]. destruct Ht; [by left|right; lia].
Qed.

Lemma record_loop_total fuel r scratch infrag p : (ahead r < fuel)%nat -> exists out, record_loop file has_reporter checksum_ initial_offset_ fuel r scratch infrag p = Some out.
Proof.
  revert r scratch infrag p. induction fuel as [|n IH]; intros r scratch infrag p Hf; [lia|]. destruct (ReadPhysicalRecord_total r) as (t & d & r' & Hr & Ht). cbn [record_loop]. rewrite Hr. cbn [mbind option_bind].
  assert (forall b, ahead (set_resyncing b r') = ahead r') as Hsr by done.
  destruct Ht as [->|Ht].
  - change (kEof =? rt_num kMiddleType) with false. change (kEof =? rt_num kLastType) with false. rewrite !andb_false_r. change (kEof =? rt_num kFullType) with false.
    change (kEof =? rt_num kFirstType) with false. change (kEof =? kEof) with true. by eexists.
  - repeat match goal with |- exists out, (if ?c then _ else _) = Some out => destruct c end;
      first [by eexists|apply IH; rewrite ?ReportCorruption_ahead, ?Hsr; lia|apply IH; destruct (_ && _); rewrite ?ReportCorruption_ahead, ?Hsr; lia].
Qed.

(** Whatever is in the file, reading a record comes to an end. *)
Theorem log_reader_terminates r : initial_offset_ <= last_record_offset_ r -> exists out, ReadRecord file has_reporter checksum_ initial_offset_ (S (ahead r)) r = Some out.
Proof. intros Ho. unfold ReadRecord. destruct (Z.ltb_spec (last_record_offset_ r) initial_offset_); [lia|]. apply record_loop_total. lia. Qed.
End AnyFile.

Lemma log_reader_terminates_witness : exists out, ReadRecord mem_sequential true true 0 4 (newReader 0 [Byte.x01; Byte.x02; Byte.x03]) = Some out.
Proof. apply (@log_reader_terminates bytes mem_sequential id mem_sequential_laws true true 0 (newReader 0 [Byte.x01; Byte.x02; Byte.x03])). done. Defined.
