(* ===== verification/DbIter.v ===== *)
(** * Iterators over the database: db/db_iter.cc

    The iterator below works on internal keys and is given by its contents, as
    include/leveldb/iterator.h describes it: entries in order, and a position
    or none.  The sampling of reads, which only makes compactions start
    earlier, is left out. *)

From Stdlib Require String.
From S2P Require Import Prelude CommonData Coding Bloom DbFormat.
Import (notations) String.

Inductive Direction := kForward | kReverse.

Record DBIter : Type := mkDBIter {
  pos : option nat; status_ : LStatus; saved_key_ : bytes; saved_value_ : bytes; direction_ : Direction; valid_ : bool
}.

Section DBIter.
Context (user_comparator_ : Comparator) (entries : list (bytes * bytes)) (sequence_ : Z).

(** ** The iterator below *)

Definition it_SeekToFirst : option nat := match entries with [] => None | _ => Some 0%nat end.
Definition it_SeekToLast : option nat := match entries with [] => None | _ => Some (length entries - 1)%nat end.
Definition it_Next (p : option nat) : option nat :=
  j ← p; if (S j <? length entries)%nat then Some (S j) else None.
Definition it_Prev (p : option nat) : option nat := match p with Some (S j) => Some j | _ => None end.
Definition it_Seek (target : bytes) : option nat :=
  fst <$> list_find (fun e => 0 <= internal_compare user_comparator_ e.1 target) entries.
Definition it_Valid (p : option nat) : bool := match p with Some _ => true | None => false end.
Definition it_key (p : option nat) : bytes := match p ≫= fun j => entries !! j with Some e => e.1 | None => [] end.
Definition it_value (p : option nat) : bytes := match p ≫= fun j => entries !! j with Some e => e.2 | None => [] end.

(** ** [DBIter] *)

Definition newDBIter : DBIter := mkDBIter None OK [] [] kForward false.

Definition iter_key (d : DBIter) : bytes := match direction_ d with kForward => ExtractUserKey (it_key (pos d)) | kReverse => saved_key_ d end.
Definition iter_value (d : DBIter) : bytes := match direction_ d with kForward => it_value (pos d) | kReverse => saved_value_ d end.

Definition set_pos (p : option nat) (d : DBIter) : DBIter := mkDBIter p (status_ d) (saved_key_ d) (saved_value_ d) (direction_ d) (valid_ d).
Definition set_saved (k v : bytes) (d : DBIter) : DBIter := mkDBIter (pos d) (status_ d) k v (direction_ d) (valid_ d).
Definition set_direction (r : Direction) (d : DBIter) : DBIter := mkDBIter (pos d) (status_ d) (saved_key_ d) (saved_value_ d) r (valid_ d).
Definition set_valid (b : bool) (d : DBIter) : DBIter := mkDBIter (pos d) (status_ d) (saved_key_ d) (saved_value_ d) (direction_ d) b.

Definition ParseKey (d : DBIter) : option ParsedInternalKey * DBIter :=
  match ParseInternalKey (it_key (pos d)) with
  | Some k => (Some k, d)
  | None => (None, mkDBIter (pos d) (Corruption "corrupted internal key in DBIter"%string) (saved_key_ d) (saved_value_ d) (direction_ d) (valid_ d))
  end.

(** The [do ... while] loop of [FindNextUserEntry]; [skip] is [saved_key_]. *)
Fixpoint next_loop (fuel : nat) (skipping : bool) (d : DBIter) : option DBIter :=
  match fuel with
  | O => None
  | S n =>
      let go_on skipping d :=
        let d := set_pos (it_Next (pos d)) d in
        if it_Valid (pos d) then next_loop n skipping d else Some (set_valid false (set_saved [] (saved_value_ d) d)) in
      let '(parsed, d) := ParseKey d in
      match parsed with
      | Some ikey =>
          if sequence ikey <=? sequence_ then
            match key_type ikey with
            | kTypeDeletion => go_on true (set_saved (user_key ikey) (saved_value_ d) d)
            | kTypeValue =>
                if skipping && (Compare user_comparator_ (user_key ikey) (saved_key_ d) <=? 0) then go_on skipping d
                else Some (set_saved [] (saved_value_ d) (set_valid true d))
            end
          else go_on skipping d
      | None => go_on skipping d
      end
  end.
Definition FindNextUserEntry (skipping : bool) (d : DBIter) : option DBIter := next_loop (length entries) skipping d.

Definition Next (d : DBIter) : option DBIter :=
  match direction_ d with
  | kReverse =>
      let d := set_direction kForward d in
      let d := set_pos (if it_Valid (pos d) then it_Next (pos d) else it_SeekToFirst) d in
      if it_Valid (pos d) then FindNextUserEntry true d else Some (set_saved [] (saved_value_ d) (set_valid false d))
  | kForward => FindNextUserEntry true (set_saved (ExtractUserKey (it_key (pos d))) (saved_value_ d) d)
  end.

Fixpoint prev_loop (fuel : nat) (value_type : ValueType) (d : DBIter) : option (ValueType * DBIter) :=
  match fuel with
  | O => None
  | S n =>
      let go_on value_type d :=
        let d := set_pos (it_Prev (pos d)) d in
        if it_Valid (pos d) then prev_loop n value_type d else Some (value_type, d) in
      let '(parsed, d) := ParseKey d in
      match parsed with
      | Some ikey =>
          if sequence ikey <=? sequence_ then
            if (match value_type with kTypeDeletion => false | kTypeValue => true end) &&
               (Compare user_comparator_ (user_key ikey) (saved_key_ d) <? 0)
            then Some (value_type, d)
            else
              match key_type ikey with
              | kTypeDeletion => go_on kTypeDeletion (set_saved [] [] d)
              | kTypeValue => go_on kTypeValue (set_saved (ExtractUserKey (it_key (pos d))) (it_value (pos d)) d)
              end
          else go_on value_type d
      | None => go_on value_type d
      end
  end.
Definition FindPrevUserEntry (d : DBIter) : option DBIter :=
  '(value_type, d) ← (if it_Valid (pos d) then prev_loop (length entries) kTypeDeletion d else Some (kTypeDeletion, d));
  match value_type with
  | kTypeDeletion => Some (set_direction kForward (set_saved [] [] (set_valid false d)))
  | kTypeValue => Some (set_valid true d)
  end.

(** The loop of [Prev] that leaves the entries of the current key:
    [inl] when there are no entries before. *)
Fixpoint leave_loop (fuel : nat) (d : DBIter) : option (DBIter + DBIter) :=
  match fuel with
  | O => None
  | S n =>
      let d := set_pos (it_Prev (pos d)) d in
      if it_Valid (pos d) then
        if Compare user_comparator_ (ExtractUserKey (it_key (pos d))) (saved_key_ d) <? 0 then Some (inr d) else leave_loop n d
      else Some (inl (set_saved [] [] (set_valid false d)))
  end.
Definition Prev (d : DBIter) : option DBIter :=
  match direction_ d with
  | kForward =>
      let d := set_saved (ExtractUserKey (it_key (pos d))) (saved_value_ d) d in
      r ← leave_loop (length entries) d;
      match r with inl d => Some d | inr d => FindPrevUserEntry (set_direction kReverse d) end
  | kReverse => FindPrevUserEntry d
  end.

Definition Seek (target : bytes) (d : DBIter) : option DBIter :=
  let d := set_saved (AppendInternalKey [] (mkParsed target sequence_ kValueTypeForSeek)) [] (set_direction kForward d) in
  let d := set_pos (it_Seek (saved_key_ d)) d in
  if it_Valid (pos d) then FindNextUserEntry false d else Some (set_valid false d).
Definition SeekToFirst (d : DBIter) : option DBIter :=
  let d := set_saved (saved_key_ d) [] (set_direction kForward d) in
  let d := set_pos it_SeekToFirst d in
  if it_Valid (pos d) then FindNextUserEntry false d else Some (set_valid false d).
Definition SeekToLast (d : DBIter) : option DBIter :=
  let d := set_saved (saved_key_ d) [] (set_direction kReverse d) in
  FindPrevUserEntry (set_pos it_SeekToLast d).
End DBIter.

(** ** What an iterator shows

    Of the entries of a user key, the newest that the sequence number can see
    counts; it is shown when it is a value. *)

Section View.
Context (user : Comparator) (seq : Z).
Implicit Types (e : bytes * bytes) (l : list (bytes * bytes)).

Definition ukey e : bytes := ExtractUserKey e.1.
Definition seen e : option ValueType :=
  match ParseInternalKey e.1 with Some p => if sequence p <=? seq then Some (key_type p) else None | None => None end.
Definition hidden (sk : option bytes) (u : bytes) : bool := match sk with Some k => Compare user u k <=? 0 | None => false end.

(** [sk] is the user key of the last entry that counted. *)
Fixpoint view_from (sk : option bytes) l : list (bytes * bytes) :=
  match l with
  | [] => []
  | e :: l =>
      match seen e with
      | None => view_from sk l
      | Some t =>
          if hidden sk (ukey e) then view_from sk l
          else match t with kTypeValue => (ukey e, e.2) :: view_from (Some (ukey e)) l | kTypeDeletion => view_from (Some (ukey e)) l end
      end
  end.
Definition view l : list (bytes * bytes) := view_from None l.
End View.

Section ViewFacts.
Context (user : Comparator) `{!ComparatorLaws user (fun _ => True)} (seq : Z).
Implicit Types (e : bytes * bytes) (l pre suf : list (bytes * bytes)) (sk : option bytes).
Abbreviation vfrom := (view_from user seq).
Abbreviation vw := (view user seq).
Abbreviation sn := (seen seq).

Lemma filter_id {A} (P : A -> Prop) `{!forall x, Decision (P x)} (k : list A) : (forall x, x ∈ k -> P x) -> filter P k = k.
Proof. induction k as [|a k IH]; intros Hk; [done|]. rewrite filter_cons_True by (apply Hk; left). f_equal. apply IH. intros x Hx. apply Hk. by right. Qed.

Definition lt_key (a b : bytes) : Prop := Compare user a b < 0.
#[export] Instance lt_key_dec a b : Decision (lt_key a b).
Proof. unfold lt_key. apply _. Defined.

Lemma lt_key_le a b d : lt_key a b -> Compare user b d <= 0 -> lt_key a d.
Proof.
  unfold lt_key. intros Hab Hbd. destruct (decide (Compare user b d = 0)) as [E|]; [apply (user_eq user) in E; by subst|]. apply (user_trans user a b d); [done|lia].
Qed.
Lemma le_key_lt a b d : Compare user a b <= 0 -> lt_key b d -> lt_key a d.
Proof.
  unfold lt_key. intros Hab Hbd. destruct (decide (Compare user a b = 0)) as [E|]; [apply (user_eq user) in E; by subst|]. apply (user_trans user a b d); [lia|done].
Qed.
Lemma not_lt_key_ge a b : ~ lt_key a b -> Compare user b a <= 0.
Proof.
  unfold lt_key. intros Hn. pose proof (user_flip user a b). lia.
Qed.
Lemma lt_key_irrefl a : ~ lt_key a a.
Proof. unfold lt_key. pose proof (proj2 (user_eq user a a) eq_refl). lia. Qed.

(** The keys shown behind [sk] are larger. *)
Lemma view_from_above k l x : x ∈ vfrom (Some k) l -> lt_key k x.1.
Proof.
  revert k x. induction l as [|e l IH]; intros k x Hx; cbn [view_from] in Hx; [by apply not_elem_of_nil in Hx|].
  destruct (sn e) as [t|]; [|by apply IH]. cbn [hidden] in Hx. destruct (Z.leb_spec (Compare user (ukey e) k) 0) as [|Hgt]; [by apply IH|].
  assert (lt_key k (ukey e)) as Hk by (by apply (user_flip user)). assert (forall y, y ∈ vfrom (Some (ukey e)) l -> lt_key k y.1) as Hl.
  { intros y Hy. apply IH in Hy. unfold lt_key in *. by eapply (user_trans user). }
  destruct t; [by apply Hl|]. apply elem_of_cons in Hx as [->|Hx]; [done|by apply Hl].
Qed.

(** Skipping up to a key leaves what is above it. *)
Lemma view_from_filter k sk l : (forall j, sk = Some j -> Compare user j k <= 0) -> vfrom (Some k) l = filter (fun x => lt_key k x.1) (vfrom sk l).
Proof.
  revert sk. induction l as [|e l IH]; intros sk Hsk; cbn [view_from]; [done|]. destruct (sn e) as [t|]; [|by apply IH]. cbn [hidden].
  destruct (Z.leb_spec (Compare user (ukey e) k) 0) as [Hle|Hgt].
  - destruct (hidden user sk (ukey e)); [by apply IH|]. assert (vfrom (Some k) l = filter (fun x => lt_key k x.1) (vfrom (Some (ukey e)) l)) as Hl by (apply IH; by intros j [= <-]).
    destruct t; [done|]. rewrite filter_cons_False; [done|]. cbn [fst]. intros Hlt. apply (user_flip user) in Hlt. lia.
  - assert (lt_key k (ukey e)) as Hk by (by apply (user_flip user)). assert (hidden user sk (ukey e) = false) as ->.
    { destruct sk as [j|]; [|done]. cbn. specialize (Hsk j eq_refl). destruct (Z.leb_spec (Compare user (ukey e) j) 0) as [Hj|]; [|done]. exfalso. apply (lt_key_irrefl k). eapply lt_key_le; [exact Hk|].
      destruct (decide (Compare user (ukey e) j = 0)) as [E|]; [apply (user_eq user) in E; by rewrite E|]. apply Z.lt_le_incl. eapply lt_key_le; [|exact Hsk]. unfold lt_key. lia. }
    assert (filter (fun x => lt_key k x.1) (vfrom (Some (ukey e)) l) = vfrom (Some (ukey e)) l) as Hall.
    { apply filter_id. intros x Hx. apply view_from_above in Hx. unfold lt_key in *. by eapply (user_trans user). }
    destruct t; [done|]. rewrite filter_cons_True by done. by rewrite Hall.
Qed.

(** Entries that are seen have smaller user keys on the left. *)
Definition apart pre suf : Prop := forall a b, a ∈ pre -> b ∈ suf -> is_Some (sn a) -> is_Some (sn b) -> lt_key (ukey a) (ukey b).

Lemma view_from_fresh sk l : (forall e, e ∈ l -> is_Some (sn e) -> hidden user sk (ukey e) = false) -> vfrom sk l = vw l.
Proof.
  unfold view. induction l as [|e l IH]; intros Hl; [done|]. cbn [view_from]. destruct (sn e) as [t|] eqn:Ht.
  - rewrite Hl; [done|left|by eexists].
  - apply IH. intros x Hx. apply Hl. by right.
Qed.
Lemma hidden_lt k u : lt_key k u -> hidden user (Some k) u = false.
Proof. intros Hk. apply (user_flip user) in Hk. cbn. by destruct (Z.leb_spec (Compare user u k) 0); [lia|]. Qed.
Lemma hidden_le k u : Compare user u k <= 0 -> hidden user (Some k) u = true.
Proof. intros Hk. cbn. by destruct (Z.leb_spec (Compare user u k) 0); [|lia]. Qed.

Lemma view_from_app sk pre suf : apart pre suf -> (forall e, e ∈ suf -> is_Some (sn e) -> hidden user sk (ukey e) = false) -> vfrom sk (pre ++ suf) = vfrom sk pre ++ vw suf.
Proof.
  revert sk. induction pre as [|e pre IH]; intros sk Hap Hsk; [by apply view_from_fresh|]. cbn [app view_from].
  assert (apart pre suf) as Hap' by (intros a b Ha Hb; apply Hap; [by right|done]). destruct (sn e) as [t|] eqn:Ht; [|by apply IH]. destruct (hidden user sk (ukey e)); [by apply IH|].
  assert (vfrom (Some (ukey e)) (pre ++ suf) = vfrom (Some (ukey e)) pre ++ vw suf) as Hr.
  { apply IH; [done|]. intros x Hx Hs. apply hidden_lt. apply Hap; [left|done|by eexists|done]. }
  rewrite Hr. by destruct t.
Qed.
Lemma view_app pre suf : apart pre suf -> vw (pre ++ suf) = vw pre ++ vw suf.
Proof. intros Hap. by apply view_from_app. Qed.

Lemma view_from_unseen sk l r : Forall (fun e => sn e = None) l -> vfrom sk (l ++ r) = vfrom sk r.
Proof. induction 1 as [|e l He _ IH]; [done|]. cbn [app view_from]. by rewrite He. Qed.
(** The first entry that is seen leads what is shown. *)
Lemma view_leads a e b : Forall (fun e => sn e = None) a -> sn e = Some kTypeValue -> vw (a ++ e :: b) = (ukey e, e.2) :: vfrom (Some (ukey e)) (a ++ e :: b).
Proof.
  intros Ha He. unfold view. rewrite !view_from_unseen by done. cbn [view_from]. rewrite He. rewrite hidden_le by (by rewrite (proj2 (user_eq user _ _) eq_refl)). done.
Qed.

Definition ordered l : Prop := StronglySorted (fun a b => Compare user (ukey a) (ukey b) <= 0) l.
Lemma ordered_app pre suf : ordered (pre ++ suf) -> ordered pre /\ ordered suf /\ forall a b, a ∈ pre -> b ∈ suf -> Compare user (ukey a) (ukey b) <= 0.
Proof. intros (Hc & Hp & Hs)%StronglySorted_app. done. Qed.
End ViewFacts.

(** ** Moves *)

Section Moves.
Context (user : Comparator) `{!ComparatorLaws user (fun _ => True)} (es : list (bytes * bytes)) (seq : Z).
Implicit Types (e : bytes * bytes) (pre suf a b : list (bytes * bytes)) (d : DBIter).

(** The position of the first entry of [suf] behind [pre], of the last of
    [pre]. *)
Lemma it_at pre e b d : es = pre ++ e :: b -> pos d = Some (length pre) -> it_key es (pos d) = e.1 /\ it_value es (pos d) = e.2.
Proof. intros He Hp. unfold it_key, it_value. rewrite Hp. cbn [mbind option_bind]. rewrite He, list_lookup_middle by done. done. Qed.
Definition at_first pre suf : option nat := match suf with [] => None | _ => Some (length pre) end.
Definition at_last pre : option nat := match length pre with O => None | S n => Some n end.
Lemma it_Next_at pre e b : es = pre ++ e :: b -> it_Next es (Some (length pre)) = at_first (pre ++ [e]) b.
Proof.
  intros He. unfold it_Next, at_first. cbn [mbind option_bind]. rewrite He, length_app, length_app. cbn [length]. destruct b as [|x b]; cbn [length].
  - destruct (Nat.ltb_spec (S (length pre)) (length pre + 1)); [lia|done].
  - destruct (Nat.ltb_spec (S (length pre)) (length pre + S (S (length b)))); [|lia]. f_equal. lia.
Qed.
Lemma it_Prev_at pre : it_Prev (Some (length pre)) = at_last pre.
Proof. unfold it_Prev, at_last. done. Qed.
Lemma at_last_snoc pre e : at_last (pre ++ [e]) = Some (length pre).
Proof. unfold at_last. rewrite length_app. cbn [length]. by rewrite Nat.add_1_r. Qed.

(** The keys all parse. *)
Definition parses : Prop := Forall (fun e => is_Some (ParseInternalKey e.1)) es.
Definition same_status d d' : Prop := parses -> status_ d' = status_ d.

Lemma ParseKey_at pre e b d : es = pre ++ e :: b -> pos d = Some (length pre) ->
  exists d', ParseKey es d = (ParseInternalKey e.1, d') /\ pos d' = pos d /\ saved_key_ d' = saved_key_ d /\ saved_value_ d' = saved_value_ d /\ direction_ d' = direction_ d /\ valid_ d' = valid_ d /\ same_status d d'.
Proof.
  intros He Hp. unfold ParseKey. destruct (it_at pre e b d He Hp) as [-> _]. destruct (ParseInternalKey e.1) as [p|] eqn:Hk; [by exists d|]. eexists. split; [reflexivity|]. cbn. repeat (split; [done|]).
  intros Hall. unfold parses in Hall. rewrite He in Hall. apply Forall_app in Hall as [_ Hall]. apply Forall_cons in Hall as [[? Hall] _]. congruence.
Qed.
Lemma parsed_user e p : ParseInternalKey e.1 = Some p -> user_key p = ukey e.
Proof.
  unfold ParseInternalKey, ukey. destruct (_ <? _); [done|]. destruct (_ =? _); [by intros [= <-]|]. destruct (_ =? _); [by intros [= <-]|done].
Qed.

(** What a search forwards finds: [FindNextUserEntry] stops at the first entry
    that is shown from here on, or the iterator becomes invalid. *)
Definition skip_key (skipping : bool) d : option bytes := if skipping then Some (saved_key_ d) else None.
Definition found_next pre suf sk d d' : Prop :=
  direction_ d' = direction_ d /\ same_status d d' /\
  match view_from user seq sk suf with
  | [] => valid_ d' = false
  | (k, v) :: _ => exists a e b, suf = a ++ e :: b /\ pos d' = Some (length (pre ++ a)) /\ valid_ d' = true /\ seen seq e = Some kTypeValue /\
      ukey e = k /\ e.2 = v /\ view_from user seq sk a = [] /\ (forall x, x ∈ a -> is_Some (seen seq x) -> lt_key user (ukey x) k)
  end.

Lemma found_next_skip pre e suf sk sk' d d1 d' :
  found_next (pre ++ [e]) suf sk' d1 d' -> direction_ d1 = direction_ d -> same_status d d1 ->
  view_from user seq sk (e :: suf) = view_from user seq sk' suf -> (forall a, view_from user seq sk' a = [] -> view_from user seq sk (e :: a) = []) ->
  (is_Some (seen seq e) -> exists u, sk' = Some u /\ Compare user (ukey e) u <= 0) -> found_next pre (e :: suf) sk d d'.
Proof.
  intros (Hdir & Hst & Hf) Hd1 Hs1 Hv Hva He. split; [congruence|]. split; [intros Hp; rewrite <- Hs1, <- Hst by done; done|]. rewrite Hv.
  destruct (view_from user seq sk' suf) as [|[k v] rest] eqn:Hvs; [done|]. destruct Hf as (a & x & b & -> & Hpos & Hval & Hx & Hk & Hxv & Ha & Hall).
  exists (e :: a), x, b. split; [done|]. split; [rewrite Hpos, !length_app; cbn [length]; f_equal; lia|]. repeat (split; [done|]). split; [by apply Hva|].
  intros y [->|Hy]%elem_of_cons Hys; [|by apply Hall]. destruct (He Hys) as (u & -> & Hu). eapply le_key_lt; [done|exact Hu|].
  apply (view_from_above user seq u (a ++ x :: b) (k, v)). rewrite Hvs. left.
Qed.

Lemma next_loop_spec fuel suf pre d skipping : es = pre ++ suf -> suf <> [] -> (length suf <= fuel)%nat -> pos d = Some (length pre) ->
  (forall e, e ∈ suf -> is_Some (seen seq e) -> skipping = true -> Compare user (saved_key_ d) (ukey e) <= 0) -> ordered user suf ->
  exists d', next_loop user es seq fuel skipping d = Some d' /\ found_next pre suf (skip_key skipping d) d d'.
Proof.
  revert fuel pre d skipping. induction suf as [|e suf IH]; intros [|n] pre d skipping Hes Hne Hf Hpos Hsk Hord; cbn [length] in Hf; [done|done|lia|]. cbn [next_loop].
  destruct (ParseKey_at pre e suf d Hes Hpos) as (d0 & -> & Hp0 & Hk0 & Hv0 & Hdir0 & Hval0 & Hst0).
  (* the rest of the loop behind [e] *)
  assert (forall sk d1, pos d1 = pos d -> direction_ d1 = direction_ d -> same_status d d1 ->
    (forall x, x ∈ suf -> is_Some (seen seq x) -> sk = true -> Compare user (saved_key_ d1) (ukey x) <= 0) ->
    exists d', (let d2 := set_pos (it_Next es (pos d1)) d1 in if it_Valid (pos d2) then next_loop user es seq n sk d2 else Some (set_valid false (set_saved [] (saved_value_ d2) d2))) = Some d' /\
      found_next (pre ++ [e]) suf (skip_key sk d1) d1 d') as Hgo.
  { intros sk d1 Hp1 Hd1 Hs1 Hsk1. rewrite Hp1, Hpos, (it_Next_at pre e suf Hes). cbv zeta. apply StronglySorted_cons in Hord as [_ Hord]. destruct suf as [|x suf]; cbn [at_first it_Valid pos set_pos].
    - eexists. split; [reflexivity|]. repeat split; done.
    - destruct (IH n (pre ++ [e]) (set_pos (Some (length (pre ++ [e]))) d1) sk) as (d' & Hd' & Hfn); [by rewrite <- app_assoc|done|lia|done|exact Hsk1|done|]. by exists d'. }
  assert (forall x, x ∈ suf -> Compare user (ukey e) (ukey x) <= 0) as Hle by (apply StronglySorted_cons in Hord as [Hall _]; by apply Forall_forall).
  assert (hidden user (skip_key skipping d) (ukey e) = skipping && (Compare user (ukey e) (saved_key_ d0) <=? 0)) as Hhid by (rewrite Hk0; by destruct skipping).
  assert (seen seq e = None -> exists d', (let d2 := set_pos (it_Next es (pos d0)) d0 in if it_Valid (pos d2) then next_loop user es seq n skipping d2 else Some (set_valid false (set_saved [] (saved_value_ d2) d2))) = Some d' /\
      found_next pre (e :: suf) (skip_key skipping d) d d') as Hskip.
  { intros Hs. destruct (Hgo skipping d0) as (d' & Hd' & Hfn); [done..|rewrite Hk0; intros x Hx; apply Hsk; by right|]. exists d'. split; [exact Hd'|]. unfold skip_key in Hfn. rewrite Hk0 in Hfn.
    eapply found_next_skip; [exact Hfn|done|done|cbn [view_from]; by rewrite Hs|intros a Ha; cbn [view_from]; by rewrite Hs|rewrite Hs; by intros [? ?]]. }
  unfold seen in Hskip. destruct (ParseInternalKey e.1) as [p|] eqn:Hparse; [|by apply Hskip]. destruct (Z.leb_spec (sequence p) seq) as [Hseq|Hseq]; [|by apply Hskip]. clear Hskip.
  assert (seen seq e = Some (key_type p)) as Hseen by (unfold seen; rewrite Hparse; by destruct (Z.leb_spec (sequence p) seq); [|lia]). pose proof (parsed_user e p Hparse) as Huk. destruct (key_type p).
  - destruct (Hgo true (set_saved (user_key p) (saved_value_ d0) d0)) as (d' & Hd' & Hfn); [done|done|done|cbn; rewrite Huk; auto|]. exists d'. split; [exact Hd'|]. cbn [skip_key saved_key_ set_saved] in Hfn. rewrite Huk in Hfn.
    assert (hidden user (skip_key skipping d) (ukey e) = true -> skip_key skipping d = Some (ukey e)) as Hh.
    { rewrite Hhid. destruct skipping; [|done]. cbn [andb skip_key]. intros Hle'%Z.leb_le. rewrite Hk0 in Hle'. specialize (Hsk e ltac:(left) ltac:(by eexists) eq_refl). f_equal. symmetry. apply (user_eq user).
      destruct (decide (Compare user (ukey e) (saved_key_ d) = 0)) as [|Hn]; [done|]. assert (Compare user (ukey e) (saved_key_ d) < 0) as Hlt by lia. apply (user_flip user) in Hlt. lia. }
    eapply found_next_skip; [exact Hfn|done|done| | |intros _; exists (ukey e); split; [done|by rewrite (proj2 (user_eq user _ _) eq_refl)]].
    + cbn [view_from]. rewrite Hseen. destruct (hidden user (skip_key skipping d) (ukey e)); [by rewrite Hh|done].
    + intros a Ha. cbn [view_from]. rewrite Hseen. destruct (hidden user (skip_key skipping d) (ukey e)); [by rewrite Hh|done].
  - rewrite Huk. rewrite <- Hhid. destruct (hidden user (skip_key skipping d) (ukey e)) eqn:Hh.
    + destruct (Hgo skipping d0) as (d' & Hd' & Hfn); [done..|rewrite Hk0; intros x Hx; apply Hsk; by right|]. exists d'. split; [exact Hd'|]. unfold skip_key in Hfn. rewrite Hk0 in Hfn.
      eapply found_next_skip; [exact Hfn|done|done|cbn [view_from]; fold (skip_key skipping d); by rewrite Hseen, Hh|intros a Ha; cbn [view_from]; fold (skip_key skipping d); by rewrite Hseen, Hh|].
      intros _. destruct skipping; [|done]. exists (saved_key_ d). split; [done|]. cbn in Hh. by apply Z.leb_le.
    + eexists. split; [reflexivity|]. split; [done|]. split; [done|]. cbn [view_from]. rewrite Hseen, Hh. exists [], e, suf. rewrite app_nil_r. split; [done|]. split; [cbn; congruence|]. repeat (split; [done|]). by intros x Hx%not_elem_of_nil.
Qed.

(** ** Searches backwards *)

(** What has been scanned: nothing of it is shown, or its first entry that is
    seen is the only one, and it is saved. *)
Definition scanned (s : list (bytes * bytes)) (t : ValueType) d : Prop :=
  match t with
  | kTypeDeletion => view user seq s = []
  | kTypeValue => exists a f b, s = a ++ f :: b /\ Forall (fun e => seen seq e = None) a /\ seen seq f = Some kTypeValue /\
      saved_key_ d = ukey f /\ saved_value_ d = f.2 /\ view user seq s = [(ukey f, f.2)]
  end.
Definition stopped pre (t : ValueType) d : Prop :=
  pos d = at_last pre /\
  match t with
  | kTypeDeletion => pre = []
  | kTypeValue => pre = [] \/ exists pre' e, pre = pre' ++ [e] /\ is_Some (seen seq e) /\ lt_key user (ukey e) (saved_key_ d)
  end.

Lemma view_from_key k s : view_from user seq (Some k) s = filter (fun x => lt_key user k x.1) (view user seq s).
Proof. by apply (view_from_filter user seq k None s). Qed.
Lemma view_cons_seen e s t : seen seq e = Some t -> view user seq (e :: s) = (match t with kTypeValue => [(ukey e, e.2)] | kTypeDeletion => [] end) ++ filter (fun x => lt_key user (ukey e) x.1) (view user seq s).
Proof. intros He. unfold view at 1. cbn [view_from hidden]. rewrite He, view_from_key. by destruct t. Qed.

Lemma scanned_unseen e s t d d' : seen seq e = None -> saved_key_ d' = saved_key_ d -> saved_value_ d' = saved_value_ d -> scanned s t d -> scanned (e :: s) t d'.
Proof.
  intros He Hk Hv Hs. assert (view user seq (e :: s) = view user seq s) as Hview by (unfold view; cbn [view_from]; by rewrite He). destruct t; cbn [scanned] in *; [by rewrite Hview|].
  destruct Hs as (a & f & b & -> & Ha & Hf & Hsk & Hsv & Hvw). exists (e :: a), f, b. rewrite Hview. repeat (split; [first [done|by constructor|congruence]|]). done.
Qed.
Lemma scanned_seen e s t t' d d' : seen seq e = Some t' -> scanned s t d -> (t = kTypeValue -> ukey e = saved_key_ d) ->
  (t' = kTypeValue -> saved_key_ d' = ukey e /\ saved_value_ d' = e.2) -> scanned (e :: s) t' d'.
Proof.
  intros He Hs Hsame Hsaved. assert (filter (fun x => lt_key user (ukey e) x.1) (view user seq s) = []) as Hnil.
  { destruct t; cbn [scanned] in Hs; [by rewrite Hs|]. destruct Hs as (a & f & b & _ & _ & _ & Hsk & _ & ->). rewrite filter_cons_False; [done|]. cbn [fst]. rewrite Hsame, Hsk by done. apply lt_key_irrefl; done. }
  pose proof (view_cons_seen e s t' He) as Hview. rewrite Hnil, app_nil_r in Hview. destruct t'; cbn [scanned]; [done|]. destruct (Hsaved eq_refl) as [-> ->]. exists [], e, s. repeat (split; [done|]). done.
Qed.

Lemma prev_loop_spec fuel pre s r t d : es = pre ++ s ++ r -> pre <> [] -> (length pre <= fuel)%nat -> pos d = at_last pre -> ordered user (pre ++ s) -> scanned s t d ->
  exists t' d' pre' s', prev_loop user es seq fuel t d = Some (t', d') /\ pre ++ s = pre' ++ s' /\ scanned s' t' d' /\ stopped pre' t' d' /\ direction_ d' = direction_ d /\ same_status d d'.
Proof.
  revert fuel s t d. induction pre as [|e pre IH] using rev_ind; intros [|n] s t d Hes Hne Hf Hpos Hord Hs; [done|done|rewrite length_app in Hf; cbn in Hf; lia|]. rewrite length_app in Hf. cbn [length] in Hf. cbn [prev_loop].
  rewrite at_last_snoc in Hpos. assert (es = pre ++ e :: (s ++ r)) as Hes' by (rewrite Hes, <- app_assoc; done). rewrite <- app_assoc in Hord. cbn [app] in Hord.
  destruct (ParseKey_at pre e (s ++ r) d Hes' Hpos) as (d0 & -> & Hp0 & Hk0 & Hv0 & Hdir0 & Hval0 & Hst0).
  assert (forall t1 d1, pos d1 = pos d -> direction_ d1 = direction_ d -> same_status d d1 -> scanned (e :: s) t1 d1 ->
    exists t' d' pre' s', (let d2 := set_pos (it_Prev (pos d1)) d1 in if it_Valid (pos d2) then prev_loop user es seq n t1 d2 else Some (t1, d2)) = Some (t', d') /\
      (pre ++ [e]) ++ s = pre' ++ s' /\ scanned s' t' d' /\ stopped pre' t' d' /\ direction_ d' = direction_ d /\ same_status d d') as Hgo.
  { intros t1 d1 Hp1 Hd1 Hs1 Hsc. rewrite Hp1, Hpos, it_Prev_at. cbv zeta. destruct (decide (pre = [])) as [->|Hpre].
    - cbn [at_last length it_Valid pos set_pos]. exists t1, (set_pos None d1), [], (e :: s). split; [done|]. split; [done|]. split; [by destruct t1|]. split; [split; [done|by destruct t1; [|left]]|]. done.
    - destruct (IH n (e :: s) t1 (set_pos (at_last pre) d1)) as (t' & d' & pre' & s' & Hl & Happ & Hsc' & Hst' & Hdir' & Hss'); [by rewrite Hes'|done|lia|done|done|by destruct t1|].
      assert (it_Valid (at_last pre) = true) as Hv by (destruct pre; done). cbn [pos set_pos]. rewrite Hv. exists t', d', pre', s'. split; [exact Hl|]. split; [by rewrite <- app_assoc|]. split; [done|]. split; [done|].
      split; [by rewrite Hdir'|]. intros Hp. rewrite Hss' by done. by apply Hs1. }
  assert (seen seq e = None -> exists t' d' pre' s', (let d2 := set_pos (it_Prev (pos d0)) d0 in if it_Valid (pos d2) then prev_loop user es seq n t d2 else Some (t, d2)) = Some (t', d') /\
      (pre ++ [e]) ++ s = pre' ++ s' /\ scanned s' t' d' /\ stopped pre' t' d' /\ direction_ d' = direction_ d /\ same_status d d') as Hskip.
  { intros Hse. apply Hgo; [done..|]. by eapply scanned_unseen. }
  unfold seen in Hskip. destruct (ParseInternalKey e.1) as [p|] eqn:Hparse; [|by apply Hskip]. destruct (Z.leb_spec (sequence p) seq) as [Hseq|Hseq]; [|by apply Hskip]. clear Hskip.
  assert (seen seq e = Some (key_type p)) as Hseen by (unfold seen; rewrite Hparse; by destruct (Z.leb_spec (sequence p) seq); [|lia]). pose proof (parsed_user e p Hparse) as Huk.
  destruct (match t with kTypeDeletion => false | kTypeValue => true end && (Compare user (user_key p) (saved_key_ d0) <? 0)) eqn:Hb.
  - destruct t; [done|]. cbn [andb] in Hb. apply Z.ltb_lt in Hb. rewrite Huk in Hb. exists kTypeValue, d0, (pre ++ [e]), s. split; [done|]. split; [done|].
    split; [destruct Hs as (a & f & b & Hs); exists a, f, b; by rewrite Hk0, Hv0|]. split; [|done]. split; [rewrite Hp0, at_last_snoc; done|]. right. exists pre, e. split; [done|]. split; [by eexists|done].
  - assert (t = kTypeValue -> ukey e = saved_key_ d) as Hsame.
    { intros ->. cbn [andb] in Hb. apply Z.ltb_ge in Hb. rewrite Huk, Hk0 in Hb. destruct Hs as (a & f & b & -> & _ & _ & Hk' & _ & _). rewrite Hk' in *.
      apply ordered_app in Hord as (_ & Hord & _). apply StronglySorted_cons in Hord as [Hall _]. rewrite Forall_forall in Hall. specialize (Hall f ltac:(apply elem_of_app; right; left)). apply (user_eq user). lia. }
    destruct (it_at pre e (s ++ r) d0 Hes' ltac:(congruence)) as [Hik Hiv]. destruct (key_type p).
    + apply Hgo; [done..|]. by eapply scanned_seen.
    + apply Hgo; [done..|]. eapply scanned_seen; [done|done|done|]. intros _. cbn [saved_key_ saved_value_ set_saved]. by rewrite Hik, Hiv.
Qed.

(** [FindPrevUserEntry] saves the last entry that is shown up to here, or the
    iterator becomes invalid. *)
Definition found_prev pre d' : Prop :=
  match last (view user seq pre) with
  | None => valid_ d' = false
  | Some (k, v) => valid_ d' = true /\ direction_ d' = kReverse /\ saved_key_ d' = k /\ saved_value_ d' = v /\
      exists pre' a f b, pre = pre' ++ a ++ f :: b /\ pos d' = at_last pre' /\ Forall (fun e => seen seq e = None) a /\ seen seq f = Some kTypeValue /\ ukey f = k /\ f.2 = v /\
        apart user seq pre' (a ++ f :: b) /\ view user seq pre = view user seq pre' ++ [(k, v)]
  end.

Lemma first_seen_least a f b y : Forall (fun e => seen seq e = None) a -> ordered user (a ++ f :: b) -> y ∈ a ++ f :: b -> is_Some (seen seq y) -> Compare user (ukey f) (ukey y) <= 0.
Proof.
  intros Ha Hord Hy Hs. apply elem_of_app in Hy as [Hy|Hy].
  - rewrite Forall_forall in Ha. rewrite Ha in Hs by done. by destruct Hs.
  - apply ordered_app in Hord as (_ & Hord & _). apply StronglySorted_cons in Hord as [Hall _]. rewrite Forall_forall in Hall.
    apply elem_of_cons in Hy as [->|Hy]; [by rewrite (proj2 (user_eq user _ _) eq_refl)|by apply Hall].
Qed.

Lemma stopped_apart pre a f b d : stopped pre kTypeValue d -> saved_key_ d = ukey f -> Forall (fun e => seen seq e = None) a -> ordered user (pre ++ a ++ f :: b) -> apart user seq pre (a ++ f :: b).
Proof.
  intros [_ Hst] Hk Ha Hord x y Hx Hy Hxs Hys. destruct Hst as [->|(pre' & e & -> & He & Hlt)]; [by apply not_elem_of_nil in Hx|]. rewrite Hk in Hlt.
  apply ordered_app in Hord as (Hp & Hs & _). eapply le_key_lt; [done| |eapply lt_key_le; [done|exact Hlt|by eapply first_seen_least]].
  apply elem_of_app in Hx as [Hx|Hx%list_elem_of_singleton]; [|subst; by rewrite (proj2 (user_eq user _ _) eq_refl)].
  apply ordered_app in Hp as (_ & _ & Hp). apply Hp; [done|left].
Qed.

Lemma FindPrev_spec pre r d : es = pre ++ r -> ordered user es -> pos d = at_last pre -> direction_ d = kReverse ->
  exists d', FindPrevUserEntry user es seq d = Some d' /\ found_prev pre d' /\ same_status d d'.
Proof.
  intros Hes Hord Hpos Hdir. assert (exists t' d1 pre' s', (if it_Valid (pos d) then prev_loop user es seq (length es) kTypeDeletion d else Some (kTypeDeletion, d)) = Some (t', d1) /\
    pre = pre' ++ s' /\ scanned s' t' d1 /\ stopped pre' t' d1 /\ direction_ d1 = direction_ d /\ same_status d d1) as (t & d1 & pre' & s' & Hl & Hpre & Hsc & Hst & Hd1 & Hss).
  { rewrite Hpos. destruct (decide (pre = [])) as [->|Hne].
    - exists kTypeDeletion, d, [], []. done.
    - assert (it_Valid (at_last pre) = true) as -> by (by destruct pre). destruct (prev_loop_spec (length es) pre [] r kTypeDeletion d) as (t' & d1 & pre' & s' & Hl & Happ & Hrest);
        [done|done|rewrite Hes, length_app; lia|done| |done|].
      + rewrite app_nil_r. rewrite Hes in Hord. by apply ordered_app in Hord as [? _].
      + rewrite app_nil_r in Happ. by exists t', d1, pre', s'. }
  unfold FindPrevUserEntry. rewrite Hl. cbn [mbind option_bind]. unfold found_prev. destruct t.
  - eexists. split; [reflexivity|]. destruct Hst as [_ ->]. cbn [app] in Hpre. subst s'. cbn [scanned] in Hsc. rewrite Hsc. cbn. done.
  - eexists. split; [reflexivity|]. destruct Hsc as (a & f & b & -> & Ha & Hf & Hk & Hv & Hvs).
    assert (apart user seq pre' (a ++ f :: b)) as Hap. { eapply stopped_apart; [done|done|done|]. rewrite <- Hpre. rewrite Hes in Hord. by apply ordered_app in Hord as [? _]. }
    assert (view user seq pre = view user seq pre' ++ [(ukey f, f.2)]) as Hview by (rewrite Hpre, view_app, Hvs by done; done). rewrite Hview, last_snoc. split; [|done].
    cbn [valid_ set_valid direction_ saved_key_ saved_value_ pos]. split; [done|]. split; [congruence|]. split; [done|]. split; [done|]. exists pre', a, f, b. destruct Hst as [Hst _]. repeat (split; [done|]). done.
Qed.

Lemma leave_loop_spec fuel pre r d : es = pre ++ r -> r <> [] -> (length pre < fuel)%nat -> pos d = Some (length pre) ->
  exists res, leave_loop user es fuel d = Some res /\
  match res with
  | inl d' => valid_ d' = false /\ status_ d' = status_ d /\ Forall (fun y => ~ lt_key user (ukey y) (saved_key_ d)) pre
  | inr d' => exists pre' x same, pre = (pre' ++ [x]) ++ same /\ lt_key user (ukey x) (saved_key_ d) /\ Forall (fun y => ~ lt_key user (ukey y) (saved_key_ d)) same /\
      pos d' = at_last (pre' ++ [x]) /\ status_ d' = status_ d
  end.
Proof.
  revert fuel r d. induction pre as [|x pre IH] using rev_ind; intros [|n] r d Hes Hr Hf Hpos; [lia| |lia|]; cbn [leave_loop]; rewrite Hpos, it_Prev_at.
  - cbn. eexists. split; [reflexivity|]. done.
  - rewrite at_last_snoc. cbn [pos set_pos it_Valid]. rewrite <- app_assoc in Hes. destruct (it_at pre x ([] ++ r) (set_pos (Some (length pre)) d) Hes eq_refl) as [Hk _]. cbn [pos set_pos] in Hk. rewrite Hk.
    change (saved_key_ (set_pos (Some (length pre)) d)) with (saved_key_ d). rewrite length_app in Hf. cbn [length] in Hf. destruct (Z.ltb_spec (Compare user (ExtractUserKey x.1) (saved_key_ d)) 0) as [Hlt|Hge].
    + eexists. split; [reflexivity|]. exists pre, x, []. rewrite app_nil_r, at_last_snoc. repeat (split; [done|]). done.
    + assert (~ lt_key user (ukey x) (saved_key_ d)) as Hnx by (unfold lt_key, ukey; lia).
      destruct (IH n (x :: r) (set_pos (Some (length pre)) d) Hes ltac:(done) ltac:(lia) eq_refl) as (res & Hres & Hspec). exists res. split; [exact Hres|]. destruct res as [d'|d'].
      * destruct Hspec as (Hv & Hs & Hall). split; [done|]. split; [done|]. apply Forall_app. split; [done|]. by constructor.
      * destruct Hspec as (pre' & y & same & -> & Hlt & Hall & Hp & Hs). exists pre', y, (same ++ [x]). split; [by rewrite <- app_assoc|]. split; [done|]. split; [|done]. apply Forall_app. split; [done|]. by constructor.
Qed.

(** ** The iterator as a cursor in the list that is shown *)

Hypothesis Hord : ordered user es.

(** Where an iterator stands when it shows the [i]-th entry. *)
Definition stands_forward d (i : nat) : Prop :=
  exists pre e post, es = pre ++ e :: post /\ direction_ d = kForward /\ pos d = Some (length pre) /\ seen seq e = Some kTypeValue /\
    apart user seq pre (e :: post) /\ i = length (view user seq pre).
Definition stands_reverse d (i : nat) : Prop :=
  exists pre a f b, es = pre ++ a ++ f :: b /\ direction_ d = kReverse /\ pos d = at_last pre /\ Forall (fun e => seen seq e = None) a /\ seen seq f = Some kTypeValue /\
    saved_key_ d = ukey f /\ saved_value_ d = f.2 /\ apart user seq pre (a ++ f :: b) /\ i = length (view user seq pre).
Definition stands d (c : option nat) : Prop :=
  match c with None => valid_ d = false | Some i => valid_ d = true /\ (stands_forward d i \/ stands_reverse d i) end.

Lemma stands_shows d i : stands d (Some i) -> view user seq es !! i = Some (iter_key es d, iter_value es d).
Proof.
  intros [_ [(pre & e & post & Hes & Hdir & Hpos & He & Hap & ->)|(pre & a & f & b & Hes & Hdir & Hpos & Ha & Hf & Hk & Hv & Hap & ->)]].
  - unfold iter_key, iter_value. rewrite Hdir. destruct (it_at pre e post d Hes Hpos) as [-> ->]. rewrite Hes, view_app by done. pose proof (view_leads user seq [] e post ltac:(constructor) He) as Hl. cbn [app] in Hl. rewrite Hl. by rewrite list_lookup_middle.
  - unfold iter_key, iter_value. rewrite Hdir, Hk, Hv. rewrite Hes, view_app by done. rewrite view_leads by done. by rewrite list_lookup_middle.
Qed.

(** After a search forwards over [suf] that skips [sk]. *)
Lemma found_next_stands pre suf sk d d' : es = pre ++ suf -> apart user seq pre suf -> found_next pre suf sk d d' -> direction_ d = kForward ->
  match view_from user seq sk suf with
  | [] => stands d' None
  | _ => exists a b, suf = a ++ b /\ view_from user seq sk a = [] /\ (forall u x, sk = Some u -> x ∈ b -> lt_key user u (ukey x)) /\
      stands d' (Some (length (view user seq (pre ++ a))))
  end.
Proof.
  intros Hes Hap (Hdir & _ & Hf) Hd. destruct (view_from user seq sk suf) as [|[k v] rest] eqn:Hvs; [done|]. destruct Hf as (a & e & b & -> & Hpos & Hval & He & Hk & Hv & Ha & Hall).
  assert (forall y, y ∈ e :: b -> Compare user k (ukey y) <= 0) as Hle.
  { intros y Hy. rewrite <- Hk. rewrite Hes, app_assoc in Hord. apply ordered_app in Hord as (_ & Hb & _). apply StronglySorted_cons in Hb as [Hb _]. rewrite Forall_forall in Hb.
    apply elem_of_cons in Hy as [->|Hy]; [by rewrite (proj2 (user_eq user _ _) eq_refl)|by apply Hb]. }
  exists a, (e :: b). split; [done|]. split; [done|]. split.
  { intros u x -> Hx. eapply lt_key_le; [done| |by apply Hle]. apply (view_from_above user seq u (a ++ e :: b) (k, v)). rewrite Hvs. left. }
  split; [done|]. left. exists (pre ++ a), e, b. rewrite <- app_assoc.
  split; [done|]. split; [congruence|]. split; [done|]. split; [done|]. split; [|done]. intros x y Hx Hy Hxs Hys. apply elem_of_app in Hx as [Hx|Hx].
  - apply Hap; [done|apply elem_of_app; by right|done|done].
  - eapply lt_key_le; [done|by apply Hall|by apply Hle].
Qed.

Lemma length_view_app pre a : apart user seq pre a -> length (view user seq (pre ++ a)) = (length (view user seq pre) + length (view user seq a))%nat.
Proof. intros Hap. by rewrite view_app, length_app. Qed.
Lemma apart_prefix pre a b : apart user seq pre (a ++ b) -> apart user seq pre a.
Proof. intros Hap x y Hx Hy. apply Hap; [done|apply elem_of_app; by left]. Qed.
Lemma length_view_es pre suf : es = pre ++ suf -> apart user seq pre suf -> length (view user seq es) = (length (view user seq pre) + length (view user seq suf))%nat.
Proof. intros -> Hap. by apply length_view_app. Qed.

Definition cursor_next (c : nat) : option nat := if (S c <? length (view user seq es))%nat then Some (S c) else None.
Definition cursor_first : option nat := match view user seq es with [] => None | _ => Some 0%nat end.
Definition cursor_last : option nat := match view user seq es with [] => None | _ => Some (length (view user seq es) - 1)%nat end.
Definition cursor_prev (c : nat) : option nat := match c with O => None | S c => Some c end.
Definition cursor_seek (target : bytes) : option nat := fst <$> list_find (fun x => 0 <= Compare user x.1 target) (view user seq es).

(** A search forwards from [suf] on, whose first entry that is seen is shown
    now: the next is found. *)
Lemma next_from pre a f b d d' : es = pre ++ a ++ f :: b -> apart user seq pre (a ++ f :: b) -> Forall (fun e => seen seq e = None) a -> seen seq f = Some kTypeValue ->
  found_next pre (a ++ f :: b) (Some (ukey f)) d d' -> direction_ d = kForward -> stands d' (cursor_next (length (view user seq pre))).
Proof.
  intros Hes Hap Ha Hf Hfn Hd. pose proof (found_next_stands pre (a ++ f :: b) (Some (ukey f)) d d' Hes Hap Hfn Hd) as Hst.
  pose proof (view_leads user seq a f b Ha Hf) as Hv. pose proof (length_view_es pre (a ++ f :: b) Hes Hap) as Hlen. rewrite Hv in Hlen. cbn [length] in Hlen. unfold cursor_next.
  destruct (view_from user seq (Some (ukey f)) (a ++ f :: b)) as [|x rest] eqn:Hvs.
  - cbn [length] in Hlen. by destruct (Nat.ltb_spec (S (length (view user seq pre))) (length (view user seq es))); [lia|].
  - cbn [length] in Hlen. destruct (Nat.ltb_spec (S (length (view user seq pre))) (length (view user seq es))); [|lia]. destruct Hst as (a' & b' & Hsplit & Hva & Hab & Hst).
    assert (exists c, a' = a ++ f :: c) as (c & ->).
    { assert (f ∉ b') as Hnin by (intros Hin; apply (lt_key_irrefl user (ukey f)); by apply Hab).
      apply app_eq_inv in Hsplit as [(k & _ & ->)|(k & -> & Hk)]; [destruct Hnin; apply elem_of_app; right; left|].
      destruct k as [|x' k]; [destruct Hnin; cbn [app] in Hk; rewrite <- Hk; left|]. injection Hk as -> _. by exists k. }
    rewrite length_view_app in Hst by (rewrite Hsplit in Hap; by eapply apart_prefix). rewrite (view_leads user seq a f c Ha Hf), Hva in Hst. cbn [length] in Hst. by rewrite Nat.add_1_r in Hst.
Qed.

Lemma ordered_split pre suf : es = pre ++ suf -> ordered user suf.
Proof. intros Hes. rewrite Hes in Hord. by apply ordered_app in Hord as (_ & ? & _). Qed.
Lemma at_last_valid pre : pre <> [] -> it_Valid (at_last pre) = true.
Proof. by destruct pre. Qed.
(** One step from the last entry of [pre]. *)
Lemma step_from_last pre suf : es = pre ++ suf -> suf <> [] -> (if it_Valid (at_last pre) then it_Next es (at_last pre) else it_SeekToFirst es) = Some (length pre).
Proof.
  intros Hes Hne. destruct pre as [|y pre _] using rev_ind.
  - cbn. unfold it_SeekToFirst. rewrite Hes. by destruct suf.
  - rewrite at_last_snoc. cbn [it_Valid]. rewrite <- app_assoc in Hes. rewrite (it_Next_at pre y suf) by exact Hes. by destruct suf.
Qed.

Lemma Next_spec d i : stands d (Some i) -> exists d', Next user es seq d = Some d' /\ stands d' (cursor_next i) /\ same_status d d'.
Proof.
  intros [_ [(pre & e & post & Hes & Hdir & Hpos & He & Hap & ->)|(pre & a & f & b & Hes & Hdir & Hpos & Ha & Hf & Hk & Hv & Hap & ->)]]; unfold Next, FindNextUserEntry; rewrite Hdir.
  - destruct (it_at pre e post d Hes Hpos) as [-> _]. pose proof (ordered_split pre _ Hes) as Hso.
    destruct (next_loop_spec (length es) (e :: post) pre (set_saved (ExtractUserKey e.1) (saved_value_ d) d) true) as (d' & Hd' & Hfn); [done|done|rewrite Hes, length_app; lia|done| |done|].
    { intros x Hx Hxs _. cbn. apply (first_seen_least [] e post x); [constructor|done..]. }
    exists d'. split; [exact Hd'|]. split; [|apply Hfn]. by apply (next_from pre [] e post (set_saved (ExtractUserKey e.1) (saved_value_ d) d) d').
  - pose proof (ordered_split pre _ Hes) as Hso. cbv zeta. cbn [set_direction pos]. rewrite Hpos, (step_from_last pre (a ++ f :: b)) by (done || by destruct a). cbn [it_Valid pos set_pos].
    match goal with |- context [next_loop _ _ _ _ true ?x] => set (d1 := x) end.
    destruct (next_loop_spec (length es) (a ++ f :: b) pre d1 true) as (d' & Hd' & Hfn); [done|by destruct a|rewrite Hes, !length_app; lia|done| |done|].
    { intros x Hx Hxs _. cbn. rewrite Hk. by apply (first_seen_least a f b x). }
    exists d'. split; [exact Hd'|]. split; [|apply Hfn]. cbn [skip_key] in Hfn. change (saved_key_ d1) with (saved_key_ d) in Hfn. rewrite Hk in Hfn. by apply (next_from pre a f b d1 d').
Qed.

Lemma view_unseen l : Forall (fun e => seen seq e = None) l -> view user seq l = [].
Proof. intros Hl. unfold view. rewrite <- (app_nil_r l). by rewrite view_from_unseen. Qed.
Lemma view_app_unseen p l : Forall (fun e => seen seq e = None) l -> view user seq (p ++ l) = view user seq p.
Proof.
  intros Hl. rewrite view_app, (view_unseen l Hl), app_nil_r; [done|done|]. intros x y _ Hy _ Hys. rewrite Forall_forall in Hl. rewrite Hl in Hys by done. by destruct Hys.
Qed.

Lemma found_prev_stands p r d' : es = p ++ r -> apart user seq p r -> found_prev p d' -> stands d' (cursor_prev (length (view user seq p))).
Proof.
  intros Hes Hap Hf. unfold found_prev in Hf. destruct (last (view user seq p)) as [[k v]|] eqn:Hl.
  - destruct Hf as (Hval & Hdir & Hk & Hv & pre' & a & f & b & Hp & Hpos & Ha & Hf & Hfk & Hfv & Hap' & Hview). rewrite Hview, length_app. cbn [length]. rewrite Nat.add_1_r. cbn [cursor_prev].
    split; [done|]. right. exists pre', a, f, (b ++ r). split; [by rewrite Hes, Hp, <- !app_assoc|]. repeat (split; [first [done|congruence]|]). split; [|done].
    intros x y Hx Hy Hxs Hys. rewrite app_comm_cons, app_assoc in Hy. apply elem_of_app in Hy as [Hy|Hy]; [by apply Hap'|]. apply Hap; [rewrite Hp; apply elem_of_app; by left|done..].
  - apply last_None in Hl. by rewrite Hl.
Qed.
Lemma Prev_spec d i : stands d (Some i) -> exists d', Prev user es seq d = Some d' /\ stands d' (cursor_prev i) /\ same_status d d'.
Proof.
  intros [_ [(pre & e & post & Hes & Hdir & Hpos & He & Hap & ->)|(pre & a & f & b & Hes & Hdir & Hpos & Ha & Hf & Hk & Hv & Hap & ->)]]; unfold Prev; rewrite Hdir.
  - destruct (it_at pre e post d Hes Hpos) as [-> _]. set (d1 := set_saved (ExtractUserKey e.1) (saved_value_ d) d).
    destruct (leave_loop_spec (length es) pre (e :: post) d1) as (res & -> & Hres); [done|done|rewrite Hes, length_app; cbn; lia|done|]. cbn [mbind option_bind].
    assert (forall l, (forall y, y ∈ l -> y ∈ pre) -> Forall (fun y => ~ lt_key user (ukey y) (saved_key_ d1)) l -> Forall (fun y => seen seq y = None) l) as Hun.
    { intros l Hl Hn. rewrite !Forall_forall in *. intros y Hy. destruct (seen seq y) as [t|] eqn:Hy'; [|done]. destruct (Hn y Hy). apply (Hap y e); [by apply Hl|left|by eexists|by eexists]. }
    destruct res as [d'|d'].
    + destruct Hres as (Hval & Hst & Hn). exists d'. split; [done|]. rewrite view_unseen by (apply Hun; done). split; [done|]. intros _. done.
    + destruct Hres as (pre' & x & same & Hp & _ & Hn & Hp' & Hst). assert (Forall (fun y => seen seq y = None) same) as Hsu by (apply Hun; [intros y Hy; rewrite Hp; apply elem_of_app; by right|done]).
      rewrite Hp, <- app_assoc in Hes. destruct (FindPrev_spec (pre' ++ [x]) (same ++ e :: post) (set_direction kReverse d') Hes Hord Hp' eq_refl) as (d2 & Hd2 & Hfp & Hss). exists d2. split; [exact Hd2|].
      rewrite Hp, view_app_unseen by done. split; [|intros Hpar; rewrite Hss by done; done]. apply (found_prev_stands (pre' ++ [x]) (same ++ e :: post)); [done| |done].
      intros y z Hy Hz Hys Hzs. apply elem_of_app in Hz as [Hz|Hz]; [rewrite Forall_forall in Hsu; rewrite Hsu in Hzs by done; by destruct Hzs|]. apply Hap; [rewrite Hp; apply elem_of_app; by left|done..].
  - destruct (FindPrev_spec pre (a ++ f :: b) d Hes Hord Hpos Hdir) as (d' & Hd' & Hfp & Hss). exists d'. split; [exact Hd'|]. split; [by eapply found_prev_stands|done].
Qed.

(** Behind a seek, the first entry shown from there on. *)
Lemma seek_from pre suf d : es = pre ++ suf -> suf <> [] -> apart user seq pre suf -> pos d = Some (length pre) -> direction_ d = kForward ->
  exists d', FindNextUserEntry user es seq false d = Some d' /\ stands d' (match view user seq suf with [] => None | _ => Some (length (view user seq pre)) end) /\ same_status d d'.
Proof.
  intros Hes Hne Hap Hpos Hdir. destruct (next_loop_spec (length es) suf pre d false) as (d' & Hd' & Hfn); [done|done|rewrite Hes, length_app; lia|done|done|by eapply ordered_split|].
  exists d'. split; [exact Hd'|]. split; [|apply Hfn]. pose proof (found_next_stands pre suf None d d' Hes Hap Hfn Hdir) as Hst. unfold view. destruct (view_from user seq None suf) as [|x l] eqn:Hv; [done|].
  destruct Hst as (a & b & -> & Ha & _ & Hst). rewrite length_view_app in Hst by (by eapply apart_prefix). unfold view at 2 in Hst. by rewrite Ha, Nat.add_0_r in Hst.
Qed.
Lemma SeekToFirst_spec d : exists d', SeekToFirst user es seq d = Some d' /\ stands d' cursor_first /\ same_status d d'.
Proof.
  unfold SeekToFirst, it_SeekToFirst, cursor_first. destruct (decide (es = [])) as [->|Hne]; [by eexists|].
  assert (match es with [] => None | _ => Some 0%nat end = Some (length (@nil (bytes * bytes)))) as -> by (by destruct es). cbn [it_Valid pos set_pos].
  match goal with |- context [FindNextUserEntry _ _ _ _ ?x] => destruct (seek_from [] es x) as (d' & Hd' & Hst & Hss); [done|done|by intros ? ? ?%not_elem_of_nil|done|done|] end.
  exists d'. split; [exact Hd'|]. split; [exact Hst|exact Hss].
Qed.
Lemma SeekToLast_spec d : exists d', SeekToLast user es seq d = Some d' /\ stands d' cursor_last /\ same_status d d'.
Proof.
  unfold SeekToLast, cursor_last. assert (it_SeekToLast es = at_last es) as -> by (unfold it_SeekToLast, at_last; destruct es; cbn [length]; [done|]; f_equal; lia).
  match goal with |- context [FindPrevUserEntry _ _ _ ?x] => destruct (FindPrev_spec es [] x) as (d' & Hd' & Hfp & Hss); [by rewrite app_nil_r|done|done|done|] end.
  exists d'. split; [exact Hd'|]. split; [|exact Hss]. pose proof (found_prev_stands es [] d' ltac:(by rewrite app_nil_r) ltac:(by intros ? ? ? ?%not_elem_of_nil) Hfp) as Hst.
  destruct (view user seq es) as [|x l] eqn:Hv; [done|]. cbn [length cursor_prev Nat.sub] in *. by rewrite Nat.sub_0_r.
Qed.

Hypothesis Hsorted : StronglySorted (fun x y => internal_compare user x.1 y.1 < 0) es.
Hypothesis Hseq : 0 <= seq <= kMaxSequenceNumber.

(** Entries that are seen have a number of at most the sequence number. *)
Lemma seen_num e t : seen seq e = Some t -> key_num e.1 <= 256 * seq + 1.
Proof.
  unfold seen. destruct (ParseInternalKey e.1) as [p|] eqn:Hp; [|done]. destruct (Z.leb_spec (sequence p) seq); [|done]. intros _. apply parse_internal_key_inv in Hp as [-> Hr].
  unfold AppendInternalKey, PutFixed64. cbn [app]. rewrite key_num_append, Pack_add by (done || by apply Pack_range). pose proof (type_num_range (key_type p)). lia.
Qed.
Lemma view_from_elem sk l x : x ∈ view_from user seq sk l -> exists e, e ∈ l /\ is_Some (seen seq e) /\ x.1 = ukey e.
Proof.
  revert sk. induction l as [|e l IH]; intros sk Hx; cbn [view_from] in Hx; [by apply not_elem_of_nil in Hx|]. destruct (seen seq e) as [t|] eqn:He.
  - destruct (hidden user sk (ukey e)); [destruct (IH _ Hx) as (y & Hy & Hs); exists y; split; [by right|done]|].
    assert (x = (ukey e, e.2) \/ x ∈ view_from user seq (Some (ukey e)) l) as [->|Hx'] by (destruct t; [by right|by apply elem_of_cons in Hx]).
    + exists e. split; [left|]. by rewrite He.
    + destruct (IH _ Hx') as (y & Hy & Hs). exists y. split; [by right|done].
  - destruct (IH _ Hx) as (y & Hy & Hs). exists y. split; [by right|done].
Qed.

(** Where the iterator below stands after [Seek]. *)
Lemma it_Seek_split target : exists pre suf, es = pre ++ suf /\ Forall (fun e => internal_compare user e.1 target < 0) pre /\ Forall (fun e => 0 <= internal_compare user e.1 target) suf /\
  it_Seek user es target = at_first pre suf.
Proof.
  unfold it_Seek. destruct (list_find (fun e => 0 <= internal_compare user e.1 target) es) as [[i x]|] eqn:Hf.
  - apply list_find_Some in Hf as (Hi & Hx & Hlt). exists (take i es), (drop i es). split; [by rewrite take_drop|]. rewrite (drop_S es x i Hi).
    assert (length (take i es) = i) as Hl by (rewrite length_take; apply lookup_lt_Some in Hi; lia). split; [|split; [|cbn; by rewrite Hl]].
    + apply Forall_lookup. intros j y Hj. apply lookup_take_Some in Hj as [Hj Hji]. specialize (Hlt j y Hj Hji). cbn in Hlt. lia.
    + constructor; [done|]. rewrite <- (take_drop_middle es i x Hi) in Hsorted. apply StronglySorted_app in Hsorted as (_ & _ & Hs). apply StronglySorted_cons in Hs as [Hs _].
      eapply Forall_impl; [exact Hs|]. cbn. intros y Hy. destruct (Z.lt_ge_cases (internal_compare user y.1 target) 0) as [Hn|]; [|lia]. pose proof (internal_trans user x.1 y.1 target Hy Hn). lia.
  - apply list_find_None in Hf. exists es, []. rewrite app_nil_r. split; [done|]. split; [eapply Forall_impl; [exact Hf|]; cbn; lia|]. split; [constructor|done].
Qed.

Definition seek_key (target : bytes) : bytes := AppendInternalKey [] (mkParsed target seq kValueTypeForSeek).
Lemma seek_below target e t : seen seq e = Some t -> internal_compare user e.1 (seek_key target) < 0 -> lt_key user (ukey e) target.
Proof.
  intros He Hlt. apply (internal_lt user) in Hlt. unfold seek_key, AppendInternalKey, PutFixed64 in Hlt. cbn [user_key sequence key_type app] in Hlt. rewrite ExtractUserKey_append, key_num_append, Pack_add in Hlt by (done || by apply Pack_range).
  destruct Hlt as [|[_ Hlt]]; [done|]. apply seen_num in He. cbn [type_num kValueTypeForSeek] in Hlt. lia.
Qed.
Lemma seek_above target e : 0 <= internal_compare user e.1 (seek_key target) -> 0 <= Compare user (ukey e) target.
Proof.
  intros Hge. destruct (Z.lt_ge_cases (Compare user (ukey e) target) 0) as [Hlt|]; [|lia]. assert (internal_compare user e.1 (seek_key target) < 0); [|lia].
  apply (internal_lt user). left. unfold seek_key, AppendInternalKey, PutFixed64. cbn [user_key app]. by rewrite ExtractUserKey_append.
Qed.

Lemma cursor_seek_split pre suf target : es = pre ++ suf -> apart user seq pre suf -> (forall e, e ∈ pre -> is_Some (seen seq e) -> lt_key user (ukey e) target) ->
  (forall e, e ∈ suf -> 0 <= Compare user (ukey e) target) -> cursor_seek target = match view user seq suf with [] => None | _ => Some (length (view user seq pre)) end.
Proof.
  intros Hes Hap Hpre Hsuf. unfold cursor_seek. rewrite Hes, view_app by done. assert (Forall (fun x => ~ 0 <= Compare user x.1 target) (view user seq pre)) as Hlow.
  { apply Forall_forall. intros x (e & He & Hs & ->)%view_from_elem. specialize (Hpre e He Hs). unfold lt_key in Hpre. lia. }
  destruct (view user seq suf) as [|x l] eqn:Hv.
  - rewrite app_nil_r. by rewrite (proj2 (list_find_None _ _) Hlow).
  - assert (list_find (fun x => 0 <= Compare user x.1 target) (view user seq pre ++ x :: l) = Some (length (view user seq pre), x)) as ->; [|done].
    apply list_find_Some. split; [by rewrite list_lookup_middle|]. split.
    + assert (x ∈ view user seq suf) as Hx by (rewrite Hv; left). apply view_from_elem in Hx as (e & He & _ & ->). by apply Hsuf.
    + intros j y Hj Hjl. rewrite lookup_app_l in Hj by done. rewrite Forall_lookup in Hlow. by eapply Hlow.
Qed.

Lemma DBIter_Seek_spec target d : exists d', Seek user es seq target d = Some d' /\ stands d' (cursor_seek target) /\ same_status d d'.
Proof.
  unfold Seek. cbn [saved_key_ set_saved]. fold (seek_key target). destruct (it_Seek_split (seek_key target)) as (pre & suf & Hes & Hpre & Hsuf & ->). rewrite Forall_forall in Hpre, Hsuf.
  assert (apart user seq pre suf) as Hap.
  { intros x y Hx Hy [t Hxs] _. eapply lt_key_le; [done|by eapply seek_below; [exact Hxs|apply Hpre]|]. pose proof (seek_above target y (Hsuf y Hy)). pose proof (user_flip user (ukey y) target). pose proof (user_flip user target (ukey y)). lia. }
  rewrite (cursor_seek_split pre suf target Hes Hap) by (try (intros e He [t Hs]; eapply seek_below; [exact Hs|by apply Hpre]); intros e He; by apply seek_above, Hsuf).
  destruct suf as [|x suf]; [by eexists|]. cbn [at_first it_Valid pos set_pos].
  match goal with |- context [FindNextUserEntry _ _ _ _ ?y] => destruct (seek_from pre (x :: suf) y) as (d' & Hd' & Hst & Hss); [done|done|done|done|done|] end.
  exists d'. split; [exact Hd'|]. split; [exact Hst|exact Hss].
Qed.
End Moves.

(** ** What the list shown is *)

Section Shown.
Context (user : Comparator) `{!ComparatorLaws user (fun _ => True)} (seq : Z).
Implicit Types (e : bytes * bytes) (l : list (bytes * bytes)).

Definition seen_of (k : bytes) e : Prop := is_Some (seen seq e) /\ ukey e = k.
#[export] Instance seen_of_dec k e : Decision (seen_of k e).
Proof. unfold seen_of. apply _. Defined.

(** The first entry of a key that is seen: the newest, in the order of
    internal keys. *)
Definition newest_entry (k : bytes) l : option (bytes * bytes) := head (filter (seen_of k) l).

Lemma ordered_internal l : StronglySorted (fun x y => internal_compare user x.1 y.1 < 0) l -> ordered user l.
Proof.
  unfold ordered. induction 1 as [|a l Hl IH Ha]; constructor; [done|]. eapply Forall_impl; [exact Ha|]. cbn. intros b Hb. apply (internal_lt user) in Hb. unfold ukey. destruct Hb as [|[Hb _]]; [lia|].
  by apply (user_eq user) in Hb as ->.
Qed.

Lemma view_from_sorted sk l : ordered user l -> StronglySorted (fun x y => lt_key user x.1 y.1) (view_from user seq sk l).
Proof.
  intros Hl. revert sk. induction Hl as [|e l Hl IH He]; intros sk; cbn [view_from]; [constructor|]. destruct (seen seq e) as [t|]; [|done]. destruct (hidden user sk (ukey e)); [done|]. destruct t; [done|].
  constructor; [done|]. apply Forall_forall. intros x Hx. by apply (view_from_above user seq) in Hx.
Qed.

Lemma newest_cons k e l : newest_entry k (e :: l) = if decide (seen_of k e) then Some e else newest_entry k l.
Proof. unfold newest_entry. rewrite filter_cons. by destruct (decide (seen_of k e)). Qed.

Lemma view_from_newest sk l k v : ordered user l -> (forall e s, sk = Some s -> e ∈ l -> Compare user s (ukey e) <= 0) ->
  (k, v) ∈ view_from user seq sk l <-> hidden user sk k = false /\ exists e, newest_entry k l = Some e /\ seen seq e = Some kTypeValue /\ e.2 = v.
Proof.
  intros Hl. revert sk. induction Hl as [|e l Hl IH He]; intros sk Hsk; cbn [view_from].
  { split; [by intros ?%not_elem_of_nil|by intros (_ & e & [=] & _)]. }
  rewrite Forall_forall in He. rewrite newest_cons.
  assert (forall x s, sk = Some s -> x ∈ l -> Compare user s (ukey x) <= 0) as Hsk' by (intros x s Hs Hx; apply Hsk; [done|by right]).
  destruct (seen seq e) as [t|] eqn:Hse; [|rewrite IH by done; rewrite decide_False by (intros [[? ?] _]; congruence); done].
  destruct (hidden user sk (ukey e)) eqn:Hh.
  - rewrite IH by done. destruct (decide (seen_of k e)) as [[_ <-]|]; [|done]. rewrite Hh. split; by intros [? _].
  - assert (forall x s, Some (ukey e) = Some s -> x ∈ l -> Compare user s (ukey x) <= 0) as Hsk2 by (intros x s [= <-] Hx; by apply He).
    assert ((k, v) ∈ view_from user seq (Some (ukey e)) l <-> ukey e <> k /\ hidden user sk k = false /\ exists x, newest_entry k l = Some x /\ seen seq x = Some kTypeValue /\ x.2 = v) as Hrest.
    { rewrite (IH _ Hsk2). split.
      - intros [Hk (x & Hx & Hr)]. assert (lt_key user (ukey e) k) as Hlt by (cbn [hidden] in Hk; apply Z.leb_gt in Hk; by apply (user_flip user)). split; [intros <-; by apply (lt_key_irrefl user) in Hlt|]. split; [|by exists x].
        destruct sk as [s|]; [|done]. apply hidden_lt; [done|]. eapply le_key_lt; [done|by apply Hsk; [|left]|done].
      - intros (Hne & Hk & x & Hx & Hr). split; [|by exists x]. assert (x ∈ filter (seen_of k) l) as Hin by (unfold newest_entry in Hx; destruct (filter (seen_of k) l); [done|]; injection Hx as ->; left).
        apply list_elem_of_filter in Hin as [[_ Hu] Hin]. apply hidden_lt; [done|]. specialize (He x Hin). cbn in He. rewrite Hu in He. unfold lt_key. assert (Compare user (ukey e) k <> 0) by (by rewrite user_eq). lia. }
    destruct (decide (seen_of k e)) as [[Hs Hu]|Hn].
    + destruct t; [rewrite Hrest; split; [by intros [? _]|intros [_ (x & [= <-] & Hx & _)]; congruence]|]. rewrite elem_of_cons, Hrest. rewrite <- Hu. split.
      * intros [[= ->]|[? _]]; [|done]. split; [done|]. by exists e.
      * intros [_ (x & [= <-] & _ & <-)]. by left.
    + assert (ukey e <> k) as Hne by (intros Hu; apply Hn; split; [by rewrite Hse|done]).
      destruct t; [|rewrite elem_of_cons]; rewrite Hrest; [tauto|]. split; [intros [[= ? _]|(_ & ? & ?)]; [by subst|done]|intros [? ?]; by right].
Qed.
End Shown.

(** ** Moves of an iterator, and of a cursor in a sorted list *)

Inductive move := ToFirst | ToLast | ToKey (target : bytes) | Forward | Back.

Section Runs.
Context (user : Comparator) (es : list (bytes * bytes)) (seq : Z).

(** [Next] and [Prev] assert that the iterator is valid. *)
Definition iter_move (d : DBIter) (m : move) : option DBIter :=
  match m with
  | ToFirst => SeekToFirst user es seq d
  | ToLast => SeekToLast user es seq d
  | ToKey t => Seek user es seq t d
  | Forward => if valid_ d then Next user es seq d else None
  | Back => if valid_ d then Prev user es seq d else None
  end.
Definition iter_run (d : DBIter) (ms : list move) : option DBIter := foldl (fun r m => r ≫= fun d => iter_move d m) (Some d) ms.
Definition shows (d : DBIter) : option (bytes * bytes) := if valid_ d then Some (iter_key es d, iter_value es d) else None.
End Runs.

(** The cursor: a position in a list of keys and values, or none. *)
Section Cursor.
Context (user : Comparator) (l : list (bytes * bytes)).
Definition cursor_move (c : option nat) (m : move) : option (option nat) :=
  match m, c with
  | ToFirst, _ => Some (match l with [] => None | _ => Some 0%nat end)
  | ToLast, _ => Some (match l with [] => None | _ => Some (length l - 1)%nat end)
  | ToKey t, _ => Some (fst <$> list_find (fun x => 0 <= Compare user x.1 t) l)
  | Forward, Some i => Some (if (S i <? length l)%nat then Some (S i) else None)
  | Back, Some i => Some (match i with O => None | S i => Some i end)
  | _, None => None
  end.
Definition cursor_run (c : option nat) (ms : list move) : option (option nat) := foldl (fun r m => r ≫= fun c => cursor_move c m) (Some c) ms.
End Cursor.

(** What the iterators of the library promise each other: every move that the
    cursor can make, the iterator makes, and stays related to it. *)
Class CursorLaws {S : Type} (c : Comparator) (l : list (bytes * bytes)) (allowed : move -> Prop) (step : S -> move -> option S) (R : S -> option nat -> Prop) : Prop :=
  step_refines s x m : R s x -> allowed m -> match cursor_move c l x m with Some x' => exists s', step s m = Some s' /\ R s' x' | None => step s m = None end.
Definition move_in (dom : bytes -> Prop) (m : move) : Prop := match m with ToKey t => dom t | _ => True end.

Lemma foldl_none {A B} (f : A -> B -> option A) (l : list B) : foldl (fun r m => r ≫= fun d => f d m) None l = None.
Proof. by induction l. Qed.
Lemma cursor_runs {S} c l allowed (step : S -> move -> option S) R `{!CursorLaws c l allowed step R} ms s x : R s x -> Forall allowed ms ->
  match cursor_run c l x ms with
  | Some x' => exists s', foldl (fun r m => r ≫= fun s => step s m) (Some s) ms = Some s' /\ R s' x'
  | None => foldl (fun r m => r ≫= fun s => step s m) (Some s) ms = None
  end.
Proof.
  unfold cursor_run. revert s x. induction ms as [|m ms IH]; intros s x Hs Hms; cbn [foldl]; [by exists s|]. apply Forall_cons in Hms as [Hm Hms].
  pose proof (step_refines s x m Hs Hm) as Hmv. cbn [mbind option_bind]. destruct (cursor_move c l x m) as [x'|].
  - destruct Hmv as (s' & -> & Hs'). by apply IH.
  - rewrite Hmv. rewrite foldl_none. apply foldl_none.
Qed.

Section Refinement.
Context (user : Comparator) `{!ComparatorLaws user (fun _ => True)} (es : list (bytes * bytes)) (seq : Z).
Hypothesis Hsorted : StronglySorted (fun x y => internal_compare user x.1 y.1 < 0) es.
Hypothesis Hseq : 0 <= seq <= kMaxSequenceNumber.

Lemma stands_valid d c : stands user es seq d c -> valid_ d = it_Valid c.
Proof. destruct c; [by intros [? _]|done]. Qed.
Lemma stands_showing d c : stands user es seq d c -> shows es d = c ≫= fun i => view user seq es !! i.
Proof. intros H. unfold shows. rewrite (stands_valid d c H). destruct c as [i|]; [|done]. cbn. symmetry. by eapply stands_shows. Qed.

(** One move, by the lemma of its method. *)
Definition tracks (d : DBIter) (x : option nat) : Prop := stands user es seq d x /\ (parses es -> status_ d = OK).
#[export] Instance dbiter_cursor : CursorLaws user (view user seq es) (fun _ => True) (iter_move user es seq) tracks.
Proof using All.
  intros d c m [Hst Hok] _. pose proof (ordered_internal user es Hsorted) as Hord.
  assert (forall c', (exists d', iter_move user es seq d m = Some d' /\ stands user es seq d' c' /\ same_status es d d') -> exists d', iter_move user es seq d m = Some d' /\ tracks d' c') as Hw.
  { intros c' (d' & Hd & Hst' & Hss). exists d'. split; [done|]. split; [done|]. intros Hp. rewrite Hss by done. by apply Hok. }
  pose proof (stands_valid d c Hst) as Hv. destruct m as [| |t| |]; cbn [cursor_move].
  - apply Hw. by apply SeekToFirst_spec.
  - apply Hw. by apply SeekToLast_spec.
  - apply Hw. by apply DBIter_Seek_spec.
  - destruct c as [i|]; [|cbn; by rewrite Hv]. apply Hw. cbn [iter_move]. rewrite Hv. by apply Next_spec.
  - destruct c as [i|]; [|cbn; by rewrite Hv]. apply Hw. cbn [iter_move]. rewrite Hv. by apply Prev_spec.
Qed.

(** C11. An iterator over entries in the order of internal keys behaves, under
    any sequence of SeekToFirst, SeekToLast, Seek, Next and Prev, with every
    change of direction, as a cursor in the list of what the sequence number
    sees: every search ends, it is valid exactly where the cursor stands at an
    entry and shows that entry, and the status stays OK when all keys parse.
    That list has strictly growing user keys, and holds a key with a value
    exactly if the newest entry of the key that the sequence number sees is
    that value, not a deletion. *)
Theorem dbiter_is_cursor ms :
  (match cursor_run user (view user seq es) None ms with
   | Some c => exists d, iter_run user es seq newDBIter ms = Some d /\ shows es d = (c ≫= fun i => view user seq es !! i) /\
       (Forall (fun e => is_Some (ParseInternalKey e.1)) es -> status_ d = OK)
   | None => iter_run user es seq newDBIter ms = None
   end) /\
  StronglySorted (fun x y => Compare user x.1 y.1 < 0) (view user seq es) /\
  (forall k v, (k, v) ∈ view user seq es <-> exists e, newest_entry seq k es = Some e /\ seen seq e = Some kTypeValue /\ e.2 = v).
Proof using All.
  pose proof (ordered_internal user es Hsorted) as Hord. split; [|split].
  - pose proof (cursor_runs user (view user seq es) (fun _ => True) (iter_move user es seq) tracks ms newDBIter None ltac:(done) ltac:(by apply Forall_true)) as Hr. fold (iter_run user es seq newDBIter ms) in Hr.
    destruct (cursor_run _ _ _ ms) as [c|]; [|done]. destruct Hr as (d & Hd & Hst & Hss). exists d. split; [done|]. split; [by apply stands_showing|exact Hss].
  - by apply view_from_sorted.
  - intros k v. unfold view. rewrite view_from_newest by done. split; [by intros [_ ?]|done].
Qed.
End Refinement.

(** Three keys: one overwritten, one deleted, one written after the snapshot. *)
Definition iter_example : list (bytes * bytes) :=
  let k u s t := AppendInternalKey [] (mkParsed [u] s t) in
  [ (k Byte.x61 5 kTypeValue, [Byte.x32]); (k Byte.x61 1 kTypeValue, [Byte.x31]); (k Byte.x62 4 kTypeDeletion, []); (k Byte.x62 2 kTypeValue, [Byte.x33]);
    (k Byte.x63 9 kTypeValue, [Byte.x35]); (k Byte.x63 3 kTypeValue, [Byte.x34]) ].

Lemma dbiter_is_cursor_witness :
  exists d, iter_run BytewiseComparator iter_example 6 newDBIter [ToFirst; Forward; Back; Forward] = Some d /\ shows iter_example d = Some ([Byte.x63], [Byte.x34]).
Proof.
  assert (StronglySorted (fun x y => internal_compare BytewiseComparator x.1 y.1 < 0) iter_example) as Hs by (repeat constructor; vm_compute; reflexivity).
  destruct (@dbiter_is_cursor BytewiseComparator bytewise_laws iter_example 6 Hs ltac:(vm_compute; split; discriminate) [ToFirst; Forward; Back; Forward]) as [Hrun _].
  assert (cursor_run BytewiseComparator (view BytewiseComparator 6 iter_example) None [ToFirst; Forward; Back; Forward] = Some (Some 1%nat)) as Hc by (vm_compute; reflexivity).
  rewrite Hc in Hrun. destruct Hrun as (d & Hd & Hsh & _). exists d. split; [exact Hd|]. rewrite Hsh. vm_compute. reflexivity.
Defined.
