(* ===== verification/TableBlock.v ===== *)
(** * Blocks of a table: table/block_builder.cc and table/block.cc

    Offsets into the contents of a block stand for pointers. *)

From Stdlib Require String.
From S2P Require Import Prelude CommonData Coding Bloom DbFormat DbIter.
Import (notations) String.

(** ** [BlockBuilder] *)

Record BlockBuilder : Type := mkBuilder { b_buffer_ : bytes; b_restarts_ : list Z; counter_ : Z; finished_ : bool; last_key_ : bytes }.
Definition newBlockBuilder : BlockBuilder := mkBuilder [] [0] 0 false [].
Definition Reset (b : BlockBuilder) : BlockBuilder := mkBuilder [] [0] 0 false [].
Definition CurrentSizeEstimate (b : BlockBuilder) : Z := zlen (b_buffer_ b) + zlen (b_restarts_ b) * 4 + 4.
Definition Finish (b : BlockBuilder) : bytes * BlockBuilder :=
  let buffer := foldl (fun buf r => PutFixed32 buf r) (b_buffer_ b) (b_restarts_ b) in
  let buffer := PutFixed32 buffer (u32 (zlen (b_restarts_ b))) in
  (buffer, mkBuilder buffer (b_restarts_ b) (counter_ b) true (last_key_ b)).

Definition block_Add (block_restart_interval : Z) (b : BlockBuilder) (key value : bytes) : BlockBuilder :=
  let '(shared, restarts, counter) :=
    if counter_ b <? block_restart_interval then (common_prefix (last_key_ b) key, b_restarts_ b, counter_ b)
    else (0%nat, b_restarts_ b ++ [u32 (zlen (b_buffer_ b))], 0) in
  let non_shared := zlen key - Z.of_nat shared in
  let buffer := PutVarint32 (b_buffer_ b) (u32 (Z.of_nat shared)) in
  let buffer := PutVarint32 buffer (u32 non_shared) in
  let buffer := PutVarint32 buffer (u32 (zlen value)) in
  let buffer := buffer ++ drop shared key ++ value in
  mkBuilder buffer restarts (counter + 1) (finished_ b) (take shared (last_key_ b) ++ drop shared key).
Definition block_Add_all (interval : Z) (b : BlockBuilder) (es : list (bytes * bytes)) : BlockBuilder :=
  foldl (fun b e => block_Add interval b e.1 e.2) b es.

(** ** [Block] *)

(** [Block::Block]: the size of the contents, 0 for an error, and where the
    restart array starts. *)
Definition NumRestarts (data : bytes) : Z := DecodeFixed32 (drop (length data - 4) data).
Definition newBlock (data : bytes) : Z * Z :=
  if zlen data <? 4 then (0, 0)
  else
    let max_restarts_allowed := (zlen data - 4) / 4 in
    if max_restarts_allowed <? NumRestarts data then (0, 0) else (zlen data, u32 (zlen data - (1 + NumRestarts data) * 4)).

(** From the offset [p] up to [limit]: the three numbers and where the key
    delta starts. *)
Definition DecodeEntry (data : bytes) (p limit : Z) : option (Z * Z * Z * Z) :=
  if limit - p <? 3 then None
  else
    let b := take (Z.to_nat (limit - p)) (drop (Z.to_nat p) data) in
    let shared := bval (nth 0 b Byte.x00) in
    let non_shared := bval (nth 1 b Byte.x00) in
    let value_length := bval (nth 2 b Byte.x00) in
    '(shared, non_shared, value_length, p) ←
      (if Z.lor (Z.lor shared non_shared) value_length <? 128 then Some (shared, non_shared, value_length, p + 3)
       else
         '(shared, b) ← GetVarint32Ptr b;
         '(non_shared, b) ← GetVarint32Ptr b;
         '(value_length, b) ← GetVarint32Ptr b;
         Some (shared, non_shared, value_length, limit - zlen b));
    if u32 (limit - p) <? u32 (non_shared + value_length) then None else Some (shared, non_shared, value_length, p).

(** ** [Block::Iter] *)

Record BlockIter : Type := mkBlockIter { current_ : Z; restart_index_ : Z; bi_key_ : bytes; value_off : Z; value_size : Z; bi_status : LStatus }.

Section Iter.
Context (comparator_ : Comparator) (data_ : bytes) (restarts_ num_restarts_ : Z).
Implicit Types it : BlockIter.

Definition newBlockIter : BlockIter := mkBlockIter restarts_ num_restarts_ [] 0 0 OK.
Definition bi_Valid it : bool := current_ it <? restarts_.
Definition bi_value it : bytes := take (Z.to_nat (value_size it)) (drop (Z.to_nat (value_off it)) data_).
Definition NextEntryOffset it : Z := u32 (value_off it + value_size it).
Definition GetRestartPoint (index : Z) : Z := DecodeFixed32 (drop (Z.to_nat (restarts_ + index * 4)) data_).
Definition SeekToRestartPoint (index : Z) it : BlockIter := mkBlockIter (current_ it) index [] (GetRestartPoint index) 0 (bi_status it).
Definition CorruptionError it : BlockIter := mkBlockIter restarts_ num_restarts_ [] 0 0 (Corruption "bad entry in block"%string).

(** The loop at the end of [ParseNextKey]. *)
Fixpoint restart_advance (fuel : nat) (index current : Z) : option Z :=
  match fuel with
  | O => None
  | S n => if (u32 (index + 1) <? num_restarts_) && (GetRestartPoint (index + 1) <? current) then restart_advance n (u32 (index + 1)) current else Some index
  end.
Definition ParseNextKey it : option (bool * BlockIter) :=
  let current := NextEntryOffset it in
  if restarts_ <=? current then Some (false, mkBlockIter restarts_ num_restarts_ (bi_key_ it) (value_off it) (value_size it) (bi_status it))
  else
    match DecodeEntry data_ current restarts_ with
    | Some (shared, non_shared, value_length, p) =>
        if zlen (bi_key_ it) <? shared then Some (false, CorruptionError it)
        else
          let key := take (Z.to_nat shared) (bi_key_ it) ++ take (Z.to_nat non_shared) (drop (Z.to_nat p) data_) in
          index ← restart_advance (S (Z.to_nat num_restarts_)) (restart_index_ it) current;
          Some (true, mkBlockIter current index key (p + non_shared) value_length (bi_status it))
    | None => Some (false, CorruptionError it)
    end.

Definition bi_Next it : option BlockIter := snd <$> ParseNextKey it.

(** The loop of [Prev] over restart points: [None] inside for no more
    entries. *)
Fixpoint before_loop (fuel : nat) (original index : Z) : option (option Z) :=
  match fuel with
  | O => None
  | S n => if original <=? GetRestartPoint index then if index =? 0 then Some None else before_loop n original (index - 1) else Some (Some index)
  end.
(** [do ... while] until an entry ends at [limit]. *)
Fixpoint scan_loop (fuel : nat) (limit : Z) it : option BlockIter :=
  match fuel with
  | O => None
  | S n => '(found, it) ← ParseNextKey it; if found && (NextEntryOffset it <? limit) then scan_loop n limit it else Some it
  end.
Definition bi_Prev it : option BlockIter :=
  let original := current_ it in
  r ← before_loop (S (Z.to_nat num_restarts_)) original (restart_index_ it);
  match r with
  | None => Some (mkBlockIter restarts_ num_restarts_ (bi_key_ it) (value_off it) (value_size it) (bi_status it))
  | Some index => scan_loop (S (length data_)) original (SeekToRestartPoint index it)
  end.

(** The binary search: [inl] for a restart point that is no entry. *)
Fixpoint search_loop (fuel : nat) (target : bytes) (left right : Z) : option (unit + Z) :=
  match fuel with
  | O => None
  | S n =>
      if left <? right then
        let mid := u32 (left + right + 1) / 2 in
        match DecodeEntry data_ (GetRestartPoint mid) restarts_ with
        | Some (shared, non_shared, _, key_ptr) =>
            if negb (shared =? 0) then Some (inl tt)
            else if Compare comparator_ (take (Z.to_nat non_shared) (drop (Z.to_nat key_ptr) data_)) target <? 0 then search_loop n target mid right
            else search_loop n target left (mid - 1)
        | None => Some (inl tt)
        end
      else Some (inr left)
  end.
Fixpoint linear_loop (fuel : nat) (target : bytes) it : option BlockIter :=
  match fuel with
  | O => None
  | S n => '(found, it) ← ParseNextKey it; if found && (Compare comparator_ (bi_key_ it) target <? 0) then linear_loop n target it else Some it
  end.
Definition bi_Seek (target : bytes) it : option BlockIter :=
  r ← search_loop (S (Z.to_nat num_restarts_)) target 0 (u32 (num_restarts_ - 1));
  match r with
  | inl _ => Some (CorruptionError it)
  | inr index => linear_loop (S (length data_)) target (SeekToRestartPoint index it)
  end.
Definition bi_SeekToFirst it : option BlockIter := snd <$> ParseNextKey (SeekToRestartPoint 0 it).
Definition bi_SeekToLast it : option BlockIter := scan_loop (S (length data_)) restarts_ (SeekToRestartPoint (u32 (num_restarts_ - 1)) it).
End Iter.

(** [Block::NewIterator]: an error, an empty iterator, or one of the above. *)
Inductive block_iterator := ErrorIterator (s : LStatus) | EmptyIterator | EntryIterator (restarts num_restarts : Z).
Definition block_NewIterator (data : bytes) : block_iterator :=
  let '(size_, restart_offset_) := newBlock data in
  if size_ <? 4 then ErrorIterator (Corruption "bad block contents"%string)
  else if NumRestarts data =? 0 then EmptyIterator else EntryIterator restart_offset_ (NumRestarts data).

(** ** Decoding an entry *)

Lemma varint32_small v : 0 <= v < 128 -> EncodeVarint32 v = [byte_of v].
Proof. intros Hv. unfold EncodeVarint32. change (Z.shiftl 1 7) with 128. destruct (Z.ltb_spec v 128); [done|lia]. Qed.
Lemma varint32_head v : is_u32 v -> 128 <= v -> exists b l, EncodeVarint32 v = b :: l /\ 128 <= bval b.
Proof.
  intros Hv Hge. rewrite EncodeVarint32_loop by done. unfold EncodeVarint64. cbn [varint64_loop]. destruct (Z.leb_spec 128 v); [|lia].
  eexists _, _. split; [done|]. rewrite bval_group by lia. pose proof (Z.mod_pos_bound v 128). lia.
Qed.
Lemma lor_small a b : 0 <= a < 256 -> 0 <= b < 256 -> (Z.lor a b < 128 <-> a < 128 /\ b < 128).
Proof.
  intros Ha Hb. assert (forall x, 0 <= x < 256 -> (x < 128 <-> Z.testbit x 7 = false)) as Hbit.
  { intros x Hx. rewrite Z.testbit_false by lia. change (2 ^ 7) with 128. assert (x / 128 < 2) by (apply Z.div_lt_upper_bound; lia). assert (0 <= x / 128) by (apply Z.div_pos; lia).
    pose proof (Z.div_mod x 128 ltac:(lia)). pose proof (Z.mod_pos_bound x 128 ltac:(lia)). assert (x / 128 = 0 \/ x / 128 = 1) as [E|E] by lia; rewrite E; change (0 mod 2) with 0; change (1 mod 2) with 1; lia. }
  assert (0 <= Z.lor a b < 256) as Hl.
  { split; [apply Z.lor_nonneg; lia|]. destruct (Z.eq_dec (Z.lor a b) 0) as [->|]; [lia|]. apply Z.log2_lt_cancel. rewrite Z.log2_lor by lia. change (Z.log2 256) with 8.
    apply Z.max_lub_lt; (destruct (Z.le_gt_cases a 0), (Z.le_gt_cases b 0); try (apply Z.log2_lt_pow2; lia); try (replace a with 0 by lia; cbn; lia); try (replace b with 0 by lia; cbn; lia)). }
  rewrite (Hbit _ Hl), (Hbit _ Ha), (Hbit _ Hb), Z.lor_spec. by rewrite orb_false_iff.
Qed.

Lemma fast_path s n v rest : is_u32 s -> is_u32 n -> is_u32 v ->
  let b := EncodeVarint32 s ++ EncodeVarint32 n ++ EncodeVarint32 v ++ rest in
  if Z.lor (Z.lor (bval (nth 0 b Byte.x00)) (bval (nth 1 b Byte.x00))) (bval (nth 2 b Byte.x00)) <? 128
  then bval (nth 0 b Byte.x00) = s /\ bval (nth 1 b Byte.x00) = n /\ bval (nth 2 b Byte.x00) = v /\ zlen (EncodeVarint32 s ++ EncodeVarint32 n ++ EncodeVarint32 v) = 3
  else True.
Proof.
  intros Hs Hn Hv b. pose proof (bval_range (nth 0 b Byte.x00)) as R0. pose proof (bval_range (nth 1 b Byte.x00)) as R1. pose proof (bval_range (nth 2 b Byte.x00)) as R2.
  destruct (Z.ltb_spec (Z.lor (Z.lor (bval (nth 0 b Byte.x00)) (bval (nth 1 b Byte.x00))) (bval (nth 2 b Byte.x00))) 128) as [Hlt|]; [|done].
  assert (bval (nth 0 b Byte.x00) < 128 /\ bval (nth 1 b Byte.x00) < 128 /\ bval (nth 2 b Byte.x00) < 128) as (L0 & L1 & L2).
  { destruct (Z.lt_ge_cases (Z.lor (bval (nth 0 b Byte.x00)) (bval (nth 1 b Byte.x00))) 128) as [H01|H01].
    - pose proof H01 as H. apply lor_small in H as [? ?]; [|lia..]. apply lor_small in Hlt as [? ?]; [lia| |lia]. split; [apply Z.lor_nonneg; lia|lia].
    - exfalso. pose proof (Z.lor_nonneg (bval (nth 0 b Byte.x00)) (bval (nth 1 b Byte.x00))). assert (Z.lor (bval (nth 0 b Byte.x00)) (bval (nth 1 b Byte.x00)) <= Z.lor (Z.lor (bval (nth 0 b Byte.x00)) (bval (nth 1 b Byte.x00))) (bval (nth 2 b Byte.x00))); [|lia].
      rewrite <- (Z.lor_0_r (Z.lor (bval (nth 0 b Byte.x00)) (bval (nth 1 b Byte.x00)))) at 1. apply Z.ldiff_le; [apply Z.lor_nonneg; lia|]. apply Z.bits_inj'. intros i _. rewrite Z.ldiff_spec, !Z.lor_spec, Z.bits_0. by destruct (Z.testbit _ i), (Z.testbit (bval (nth 1 b _)) i), (Z.testbit (bval (nth 2 b _)) i). }
  clear R0 R1 R2 Hlt. subst b. destruct (Z.lt_ge_cases s 128) as [S|S]; [|destruct (varint32_head s Hs S) as (x & l & E & Hx); rewrite E in L0; cbn [app nth] in L0; lia].
  rewrite (varint32_small s) in * by (unfold is_u32 in *; lia). cbn [app nth] in *.
  destruct (Z.lt_ge_cases n 128) as [N|N]; [|destruct (varint32_head n Hn N) as (x & l & E & Hx); rewrite E in L1; cbn [app nth] in L1; lia].
  rewrite (varint32_small n) in * by (unfold is_u32 in *; lia). cbn [app nth] in *.
  destruct (Z.lt_ge_cases v 128) as [V|V]; [|destruct (varint32_head v Hv V) as (x & l & E & Hx); rewrite E in L2; cbn [app nth] in L2; lia].
  rewrite (varint32_small v) in * by (unfold is_u32 in *; lia). cbn [app nth]. unfold is_u32 in *. rewrite !bval_byte_of, !Z.mod_small by lia. done.
Qed.

Lemma get_varint32_ptr v rest : is_u32 v -> GetVarint32Ptr (EncodeVarint32 v ++ rest) = Some (v, rest).
Proof. apply get_varint32. Qed.

(** An entry anywhere in the data, with [C] up to the limit and [T] behind. *)
Lemma decode_entry A s n v K C T : is_u32 s -> is_u32 n -> is_u32 v -> zlen K = n + v ->
  let h := EncodeVarint32 s ++ EncodeVarint32 n ++ EncodeVarint32 v in
  zlen (A ++ h ++ K ++ C) < 2 ^ 32 ->
  DecodeEntry (A ++ (h ++ K ++ C) ++ T) (zlen A) (zlen (A ++ h ++ K ++ C)) = Some (s, n, v, zlen A + zlen h).
Proof.
  intros Hs Hn Hv HK h Hsz. rewrite !zlen_app in Hsz. pose proof (zlen_nonneg A). pose proof (zlen_nonneg K). pose proof (zlen_nonneg C). pose proof (zlen_varint32 s Hs). pose proof (zlen_varint32 n Hn). pose proof (zlen_varint32 v Hv).
  assert (3 <= zlen h) as Hh3 by (unfold h; rewrite !zlen_app; lia). unfold DecodeEntry. rewrite !zlen_app.
  destruct (Z.ltb_spec (zlen A + (zlen h + (zlen K + zlen C)) - zlen A) 3); [lia|].
  replace (Z.to_nat (zlen A)) with (length A) by (unfold zlen; lia). rewrite drop_app_length.
  replace (Z.to_nat (zlen A + (zlen h + (zlen K + zlen C)) - zlen A)) with (length (h ++ K ++ C)) by (rewrite !length_app; unfold zlen; lia). rewrite take_app_length.
  pose proof (fast_path s n v (K ++ C) Hs Hn Hv) as Hf. cbn zeta in Hf. assert (h ++ K ++ C = EncodeVarint32 s ++ EncodeVarint32 n ++ EncodeVarint32 v ++ K ++ C) as Hh by (unfold h; by rewrite <- !app_assoc).
  rewrite Hh. rewrite !get_varint32_ptr by done. cbn [mbind option_bind].
  assert (forall p, p = zlen A + zlen h -> (if u32 (zlen A + (zlen h + (zlen K + zlen C)) - p) <? u32 (n + v) then None else Some (s, n, v, p)) = Some (s, n, v, zlen A + zlen h)) as Hend.
  { intros p ->. rewrite !u32_small by (unfold is_u32 in *; lia). destruct (Z.ltb_spec (zlen A + (zlen h + (zlen K + zlen C)) - (zlen A + zlen h)) (n + v)); [lia|done]. }
  destruct (_ <? 128).
  - destruct Hf as (-> & -> & -> & Hl). cbn [mbind option_bind]. apply Hend. by rewrite <- Hl.
  - repeat (rewrite get_varint32_ptr by done; cbn [mbind option_bind]). apply Hend. rewrite zlen_app. lia.
Qed.

(** ** The layout of a block *)

Definition entry_bytes (shared : nat) (k v : bytes) : bytes :=
  (EncodeVarint32 (Z.of_nat shared) ++ EncodeVarint32 (zlen k - Z.of_nat shared) ++ EncodeVarint32 (zlen v)) ++ drop shared k ++ v.

Section Layout.
Context (es : list (bytes * bytes)) (bs : list bytes) (rs : list nat).
Abbreviation n := (length es).

Definition off (i : nat) : Z := zlen (concat (take i bs)).
Definition prev_key (i : nat) : bytes := match i with O => [] | S j => match es !! j with Some e => e.1 | None => [] end end.
Definition block_bytes : bytes := concat bs ++ concat (map (fun r => EncodeFixed32 (off r)) rs) ++ EncodeFixed32 (zlen rs).

(** [bs] are the bytes of the entries [es], and [rs] says which of them are
    restart points. *)
Record laid : Prop := mkLaid {
  lay_len : length bs = n;
  lay_entry : forall i e, es !! i = Some e -> exists sh, bs !! i = Some (entry_bytes sh e.1 e.2) /\ (sh <= length e.1)%nat /\ (sh <= length (prev_key i))%nat /\ take sh (prev_key i) = take sh e.1 /\ (i ∈ rs -> sh = 0%nat);
  lay_first : rs !! 0%nat = Some 0%nat;
  lay_sorted : forall i j a b, rs !! i = Some a -> rs !! j = Some b -> (i < j)%nat -> (a < b)%nat;
  lay_bound : forall r, r ∈ rs -> (r < n)%nat \/ r = 0%nat
}.
Record layout : Prop := mkLayout { lay_laid :> laid; lay_small : zlen block_bytes < 2 ^ 32 }.
Hypothesis Hlay : layout.

Lemma off_S i b : bs !! i = Some b -> off (S i) = off i + zlen b.
Proof. intros Hb. unfold off. rewrite (take_S_r _ _ _ Hb), concat_app, zlen_app. cbn [concat]. by rewrite app_nil_r. Qed.
Lemma off_all : off n = zlen (concat bs).
Proof. unfold off. rewrite <- (lay_len Hlay). by rewrite firstn_all. Qed.
Lemma off_split i j : (i <= j)%nat -> exists d, off j = off i + zlen d /\ concat (take j bs) = concat (take i bs) ++ d.
Proof.
  intros Hij. exists (concat (drop i (take j bs))). assert (concat (take j bs) = concat (take i bs) ++ concat (drop i (take j bs))) as He.
  { rewrite <- concat_app. f_equal. rewrite <- (take_drop i (take j bs)) at 1. by rewrite take_take, Nat.min_l by done. }
  split; [|done]. unfold off. rewrite He at 1. by rewrite zlen_app.
Qed.
Lemma off_nonneg i : 0 <= off i.
Proof. apply zlen_nonneg. Qed.
Lemma off_le i j : (i <= j)%nat -> off i <= off j.
Proof. intros H. destruct (off_split i j H) as (d & -> & _). pose proof (zlen_nonneg d). lia. Qed.
Lemma block_parts : zlen block_bytes = off n + 4 * zlen rs + 4.
Proof.
  unfold block_bytes. rewrite !zlen_app, off_all. change (zlen (EncodeFixed32 (zlen rs))) with 4. assert (zlen (concat (map (fun r => EncodeFixed32 (off r)) rs)) = 4 * zlen rs); [|lia].
  induction rs as [|r l IH]; [done|]. cbn [map concat]. rewrite zlen_app, zlen_cons, IH. change (zlen (EncodeFixed32 (off r))) with 4. lia.
Qed.
Lemma off_u32 i : (i <= n)%nat -> is_u32 (off i).
Proof. intros Hi. pose proof (lay_small Hlay) as Hs. rewrite block_parts in Hs. pose proof (off_le i n Hi). pose proof (off_nonneg i). pose proof (zlen_nonneg rs). unfold is_u32. lia. Qed.
Lemma zlen_entry sh k v : (sh <= length k)%nat -> zlen (entry_bytes sh k v) = zlen (EncodeVarint32 (Z.of_nat sh) ++ EncodeVarint32 (zlen k - Z.of_nat sh) ++ EncodeVarint32 (zlen v)) + (zlen k - Z.of_nat sh) + zlen v.
Proof. intros Hs. unfold entry_bytes. rewrite (zlen_app _ (drop sh k ++ v)), (zlen_app (drop sh k)). assert (zlen (drop sh k) = zlen k - Z.of_nat sh) as -> by (unfold zlen; rewrite length_drop; lia). lia. Qed.
Lemma prev_key_bound i : (i <= n)%nat -> zlen (prev_key i) <= off i.
Proof.
  induction i as [|i IH]; intros Hi; [apply off_nonneg|]. destruct (lookup_lt_is_Some_2 es i ltac:(lia)) as [e He]. cbn [prev_key]. rewrite He. destruct (lay_entry Hlay i e He) as (sh & Hb & Hk & Hp & _).
  rewrite (off_S i _ Hb), zlen_entry by done. specialize (IH ltac:(lia)). pose proof (zlen_nonneg (EncodeVarint32 (Z.of_nat sh) ++ EncodeVarint32 (zlen e.1 - Z.of_nat sh) ++ EncodeVarint32 (zlen e.2))). pose proof (zlen_nonneg e.2). unfold zlen in *. lia.
Qed.
Lemma entry_at i e : es !! i = Some e -> exists sh, bs !! i = Some (entry_bytes sh e.1 e.2) /\ (sh <= length e.1)%nat /\ (sh <= length (prev_key i))%nat /\ take sh (prev_key i) = take sh e.1 /\ (i ∈ rs -> sh = 0%nat) /\
  is_u32 (Z.of_nat sh) /\ is_u32 (zlen e.1 - Z.of_nat sh) /\ is_u32 (zlen e.2) /\ 3 <= zlen (entry_bytes sh e.1 e.2).
Proof.
  intros He. destruct (lay_entry Hlay i e He) as (sh & Hb & Hk & Hp & Ht & Hr). exists sh. repeat (split; [done|]). assert (i < n)%nat as Hi by (by apply lookup_lt_Some in He).
  pose proof (prev_key_bound i ltac:(lia)) as Hpb. pose proof (off_u32 i ltac:(lia)) as Hu. pose proof (off_u32 (S i) ltac:(lia)) as Hu'. rewrite (off_S i _ Hb), zlen_entry in Hu' by done.
  pose proof (zlen_nonneg (EncodeVarint32 (Z.of_nat sh) ++ EncodeVarint32 (zlen e.1 - Z.of_nat sh) ++ EncodeVarint32 (zlen e.2))). pose proof (zlen_nonneg e.2).
  assert (is_u32 (Z.of_nat sh)) as H1 by (unfold is_u32, zlen in *; lia). assert (is_u32 (zlen e.1 - Z.of_nat sh)) as H2 by (unfold is_u32, zlen in *; lia). assert (is_u32 (zlen e.2)) as H3 by (unfold is_u32, zlen in *; lia).
  repeat (split; [done|]). rewrite zlen_entry by done. rewrite !zlen_app. pose proof (zlen_varint32 _ H1). pose proof (zlen_varint32 _ H2). pose proof (zlen_varint32 _ H3). unfold zlen in *. lia.
Qed.
Lemma off_lt i j : (i < j <= n)%nat -> off i + 3 <= off j.
Proof.
  intros Hij. destruct (lookup_lt_is_Some_2 es i ltac:(lia)) as [e He]. destruct (entry_at i e He) as (sh & Hb & _ & _ & _ & _ & _ & _ & _ & H3). pose proof (off_le (S i) j ltac:(lia)). rewrite (off_S i _ Hb) in *. lia.
Qed.
Lemma off_lt_inv i j : (i <= n)%nat -> (j <= n)%nat -> off i < off j <-> (i < j)%nat.
Proof. intros Hi Hj. split; intros H; [destruct (decide (i < j)%nat); [done|]; pose proof (off_le j i ltac:(lia)); lia|]. pose proof (off_lt i j ltac:(lia)). lia. Qed.
Lemma count_le_size : (n <= length block_bytes)%nat.
Proof.
  assert (forall i, (i <= n)%nat -> Z.of_nat i <= off i) as H by (induction i as [|i IH]; intros Hi; [apply off_nonneg|]; pose proof (off_lt i (S i) ltac:(lia)); specialize (IH ltac:(lia)); lia).
  specialize (H n ltac:(lia)). pose proof block_parts. pose proof (zlen_nonneg rs). unfold zlen in *. lia.
Qed.

(** The restart array. *)
Lemma restart_u32 j : (j <= length rs)%nat -> is_u32 (Z.of_nat j).
Proof. intros Hj. pose proof (lay_small Hlay) as Hs. rewrite block_parts in Hs. pose proof (off_nonneg n). unfold is_u32, zlen in *. lia. Qed.
Lemma restart_in j r : rs !! j = Some r -> (r <= n)%nat.
Proof. intros Hj. destruct (lay_bound Hlay r); [by eapply list_elem_of_lookup_2|lia..]. Qed.
Lemma restart_point j r : rs !! j = Some r -> GetRestartPoint block_bytes (off n) (Z.of_nat j) = off r.
Proof.
  intros Hj. unfold GetRestartPoint, block_bytes. rewrite off_all. pose proof (off_u32 r (restart_in j r Hj)) as Hu. rewrite <- (take_drop_middle rs j r Hj) at 1. rewrite map_app, concat_app. cbn [map concat]. rewrite <- !app_assoc.
  assert (forall l, length (concat (map (fun r => EncodeFixed32 (off r)) l)) = (4 * length l)%nat) as Hlen by (induction l as [|x l IH]; [done|]; cbn [map concat]; rewrite length_app, IH; cbn [length]; change (length (EncodeFixed32 (off x))) with 4%nat; lia).
  rewrite (app_assoc (concat bs)). rewrite drop_app_length'; [by apply fixed32_roundtrip|]. rewrite length_app, Hlen, length_take. apply lookup_lt_Some in Hj. unfold zlen. lia.
Qed.

(** An entry where it lies. *)
Lemma decode_at i e : es !! i = Some e -> exists sh p, DecodeEntry block_bytes (off i) (off n) = Some (Z.of_nat sh, zlen e.1 - Z.of_nat sh, zlen e.2, p) /\
  (sh <= length e.1)%nat /\ (sh <= length (prev_key i))%nat /\ take sh (prev_key i) = take sh e.1 /\ (i ∈ rs -> sh = 0%nat) /\ off (S i) = p + (zlen e.1 - Z.of_nat sh) + zlen e.2 /\ 0 <= p /\
  take (Z.to_nat (zlen e.1 - Z.of_nat sh)) (drop (Z.to_nat p) block_bytes) = drop sh e.1 /\ take (Z.to_nat (zlen e.2)) (drop (Z.to_nat (p + (zlen e.1 - Z.of_nat sh))) block_bytes) = e.2.
Proof.
  intros He. destruct (entry_at i e He) as (sh & Hb & Hk & Hp & Ht & Hr & U1 & U2 & U3 & H3). pose proof (lay_small Hlay) as Hsm. rewrite block_parts in Hsm. pose proof (zlen_nonneg rs).
  set (h := EncodeVarint32 (Z.of_nat sh) ++ EncodeVarint32 (zlen e.1 - Z.of_nat sh) ++ EncodeVarint32 (zlen e.2)). set (A := concat (take i bs)). set (C := concat (drop (S i) bs)).
  set (T := concat (map (fun r => EncodeFixed32 (off r)) rs) ++ EncodeFixed32 (zlen rs)).
  assert (concat bs = A ++ h ++ (drop sh e.1 ++ e.2) ++ C) as Hcat. { rewrite <- (take_drop_middle bs i _ Hb) at 1. rewrite concat_app. cbn [concat]. unfold entry_bytes. fold h. by rewrite <- !app_assoc. }
  assert (block_bytes = A ++ (h ++ (drop sh e.1 ++ e.2) ++ C) ++ T) as Hblk by (unfold block_bytes; rewrite Hcat; by rewrite <- !app_assoc).
  assert (zlen (drop sh e.1) = zlen e.1 - Z.of_nat sh) as Hd by (unfold zlen; rewrite length_drop; lia). pose proof off_all as Hall. rewrite Hcat in Hall.
  exists sh, (off i + zlen h). repeat split; try done.
  - rewrite Hblk, Hall. apply decode_entry; [done..|by rewrite zlen_app, Hd|cbn zeta; fold h; rewrite <- Hall; lia].
  - rewrite (off_S i _ Hb), zlen_entry by done. fold h. lia.
  - pose proof (off_nonneg i). pose proof (zlen_nonneg h). lia.
  - rewrite Hblk. replace (A ++ (h ++ (drop sh e.1 ++ e.2) ++ C) ++ T) with ((A ++ h) ++ drop sh e.1 ++ (e.2 ++ C ++ T)) by (by rewrite <- !app_assoc).
    rewrite drop_app_length' by (rewrite length_app; unfold off, zlen; fold A; lia). rewrite take_app_length'; [done|]. rewrite <- Hd. unfold zlen. lia.
  - rewrite Hblk. replace (A ++ (h ++ (drop sh e.1 ++ e.2) ++ C) ++ T) with ((A ++ h ++ drop sh e.1) ++ e.2 ++ (C ++ T)) by (by rewrite <- !app_assoc).
    rewrite drop_app_length' by (rewrite !length_app; rewrite <- Hd; unfold off, zlen; fold A; lia). rewrite take_app_length'; [done|]. unfold zlen. lia.
Qed.

(** ** Where an iterator stands *)

Abbreviation nr := (zlen rs).
Abbreviation PN := (ParseNextKey block_bytes (off n) nr).
Implicit Types it : BlockIter.

(** Some restart point at or before entry [i]. *)
Definition indexed it (i : nat) : Prop := exists j r, restart_index_ it = Z.of_nat j /\ rs !! j = Some r /\ (r <= i)%nat.
(** [ParseNextKey] is going to read entry [i]. *)
Definition ready it (i : nat) : Prop :=
  (i <= n)%nat /\ value_off it + value_size it = off i /\ (bi_key_ it = prev_key i \/ bi_key_ it = [] /\ i ∈ rs) /\ indexed it i /\ bi_status it = OK.
Definition on_entry it (i : nat) : Prop :=
  exists e, es !! i = Some e /\ current_ it = off i /\ bi_key_ it = e.1 /\ bi_value block_bytes it = e.2 /\ value_off it + value_size it = off (S i) /\ indexed it i /\ bi_status it = OK.
Definition off_end it : Prop := current_ it = off n /\ bi_status it = OK.

Lemma on_entry_ready it i : on_entry it i -> ready it (S i).
Proof.
  intros (e & He & _ & Hk & _ & Hv & (j & r & Hj & Hr & Hi) & Hs). split; [by apply lookup_lt_Some in He|]. split; [done|]. split; [left; cbn [prev_key]; by rewrite He|]. split; [|done]. exists j, r. repeat split; [done..|lia].
Qed.
Lemma restart_ready it j r : rs !! j = Some r -> bi_status it = OK -> ready (SeekToRestartPoint block_bytes (off n) (Z.of_nat j) it) r.
Proof.
  intros Hj Hs. split; [by eapply restart_in|]. cbn [SeekToRestartPoint value_off value_size bi_key_ bi_status]. rewrite (restart_point j r Hj). split; [lia|]. split; [right; split; [done|by eapply list_elem_of_lookup_2]|]. split; [|done]. by exists j, r.
Qed.

Lemma advance_spec fuel j r i : rs !! j = Some r -> (r <= i <= n)%nat -> (length rs - j < fuel)%nat ->
  exists j' r', restart_advance block_bytes (off n) nr fuel (Z.of_nat j) (off i) = Some (Z.of_nat j') /\ rs !! j' = Some r' /\ (r' <= i)%nat.
Proof.
  revert j r. induction fuel as [|f IH]; intros j r Hj Hi Hf; [lia|]. cbn [restart_advance]. pose proof (lookup_lt_Some _ _ _ Hj) as Hlt. replace (Z.of_nat j + 1) with (Z.of_nat (S j)) by lia.
  rewrite u32_small by (apply restart_u32; lia). destruct (Z.ltb_spec (Z.of_nat (S j)) nr) as [Hin|]; cbn [andb]; [|by exists j, r; repeat split; [done..|lia]].
  destruct (lookup_lt_is_Some_2 rs (S j) ltac:(unfold zlen in Hin; lia)) as [r' Hr']. rewrite (restart_point (S j) r' Hr'). destruct (Z.ltb_spec (off r') (off i)) as [Ho|]; [|by exists j, r; repeat split; [done..|lia]].
  apply (off_lt_inv r' i) in Ho; [|by eapply restart_in|lia]. apply (IH (S j) r'); [done|lia|lia].
Qed.

Lemma parse_ready it i : ready it i -> exists b it', PN it = Some (b, it') /\ if decide (i < n)%nat then b = true /\ on_entry it' i else b = false /\ off_end it'.
Proof.
  intros (Hi & Hv & Hk & (j & r & Hj & Hr & Hri) & Hs). unfold ParseNextKey, NextEntryOffset. rewrite Hv, u32_small by (by apply off_u32). destruct (decide (i < n)%nat) as [Hlt|Hge].
  - pose proof (proj2 (off_lt_inv i n ltac:(lia) ltac:(lia)) Hlt). destruct (Z.leb_spec (off n) (off i)); [lia|]. destruct (lookup_lt_is_Some_2 es i Hlt) as [e He].
    destruct (decode_at i e He) as (sh & p & -> & Hsk & Hsp & Ht & Hsr & Hoff & Hp & Hkey & Hval).
    assert ((sh <= length (bi_key_ it))%nat /\ take sh (bi_key_ it) = take sh e.1) as [Hl Hpre]. { destruct Hk as [->|[-> Hin]]; [done|]. rewrite (Hsr Hin). done. }
    destruct (Z.ltb_spec (zlen (bi_key_ it)) (Z.of_nat sh)); [unfold zlen in *; lia|]. rewrite Hj. destruct (advance_spec (S (Z.to_nat nr)) j r i Hr ltac:(lia) ltac:(unfold zlen; lia)) as (j' & r' & -> & Hr' & Hle).
    cbn [mbind option_bind]. eexists _, _. split; [done|]. split; [done|]. exists e. cbn [current_ bi_key_ value_off value_size restart_index_ bi_status]. split; [done|]. split; [done|].
    split; [rewrite Nat2Z.id, Hpre, Hkey; apply take_drop|]. split; [exact Hval|]. split; [lia|]. split; [by exists j', r'|done].
  - replace i with n in * by lia. rewrite Z.leb_refl. eexists _, _. split; [done|]. split; [done|]. by split.
Qed.
Lemma NextEntryOffset_on it i : on_entry it i -> NextEntryOffset it = off (S i).
Proof. intros (e & He & _ & _ & _ & Hv & _). unfold NextEntryOffset. rewrite Hv. apply u32_small, off_u32. by apply lookup_lt_Some in He. Qed.

(** From before entry [i] on, until entry [m] is next. *)
Lemma scan_spec fuel it i m : ready it i -> (i < m <= n)%nat -> (m - i <= fuel)%nat -> exists it', scan_loop block_bytes (off n) nr fuel (off m) it = Some it' /\ on_entry it' (m - 1).
Proof.
  revert it i. induction fuel as [|f IH]; intros it i Hr Him Hf; [lia|]. cbn [scan_loop]. destruct (parse_ready it i Hr) as (b & it' & -> & Hp). rewrite decide_True in Hp by lia. destruct Hp as [-> Hon].
  cbn [mbind option_bind andb]. rewrite (NextEntryOffset_on it' i Hon). destruct (Z.ltb_spec (off (S i)) (off m)) as [Hlt|Hge].
  - apply off_lt_inv in Hlt; [|lia..]. apply (IH it' (S i)); [by apply on_entry_ready|lia|lia].
  - exists it'. split; [done|]. assert (m = S i) as ->; [|by rewrite Nat.sub_1_r]. destruct (decide (S i < m)%nat) as [Hx|]; [|lia]. apply (off_lt_inv (S i) m) in Hx; lia.
Qed.

Definition bstands it (c : option nat) : Prop := match c with Some i => on_entry it i | None => off_end it end.

Lemma bi_Next_spec it i : on_entry it i -> exists it', bi_Next block_bytes (off n) nr it = Some it' /\ bstands it' (if (S i <? n)%nat then Some (S i) else None).
Proof.
  intros Hon. destruct (parse_ready it (S i) (on_entry_ready it i Hon)) as (b & it' & Hp & Hres). unfold bi_Next. rewrite Hp. exists it'. split; [done|].
  destruct (Nat.ltb_spec (S i) n); [rewrite decide_True in Hres by lia|rewrite decide_False in Hres by lia]; apply Hres.
Qed.
Lemma bi_SeekToFirst_spec it : bi_status it = OK -> exists it', bi_SeekToFirst block_bytes (off n) nr it = Some it' /\ bstands it' (match es with [] => None | _ => Some 0%nat end).
Proof.
  intros Hs. pose proof (restart_ready it 0 0 (lay_first Hlay) Hs) as Hr. destruct (parse_ready _ _ Hr) as (b & it' & Hp & Hres). unfold bi_SeekToFirst. change 0 with (Z.of_nat 0). rewrite Hp. exists it'. split; [done|].
  destruct es; [rewrite decide_False in Hres by (cbn; lia)|rewrite decide_True in Hres by (cbn; lia)]; apply Hres.
Qed.
Lemma last_restart : exists r, rs !! (length rs - 1)%nat = Some r /\ u32 (nr - 1) = Z.of_nat (length rs - 1).
Proof.
  pose proof (lookup_lt_Some _ _ _ (lay_first Hlay)) as Hl. destruct (lookup_lt_is_Some_2 rs (length rs - 1) ltac:(lia)) as [r Hr]. exists r. split; [done|].
  replace (nr - 1) with (Z.of_nat (length rs - 1)) by (unfold zlen; lia). apply u32_small, restart_u32. lia.
Qed.
Lemma bi_SeekToLast_spec it : bi_status it = OK -> exists it', bi_SeekToLast block_bytes (off n) nr it = Some it' /\ bstands it' (match es with [] => None | _ => Some (n - 1)%nat end).
Proof.
  intros Hs. destruct last_restart as (r & Hr & Hu). unfold bi_SeekToLast. rewrite Hu. pose proof (restart_ready it _ r Hr Hs) as Hrd. pose proof count_le_size. destruct (decide (n = 0%nat)) as [H0|Hn].
  - destruct (parse_ready _ _ Hrd) as (b & it' & Hp & Hres). rewrite decide_False in Hres by lia. destruct Hres as [-> Hend]. cbn [scan_loop]. rewrite Hp. cbn [mbind option_bind andb]. exists it'. split; [done|]. by destruct es.
  - assert (r < n)%nat as Hlt by (destruct (lay_bound Hlay r) as [| ->]; [by eapply list_elem_of_lookup_2|done|lia]).
    destruct (scan_spec (S (length block_bytes)) _ r n Hrd ltac:(lia) ltac:(lia)) as (it' & Hsc & Hon). exists it'. split; [done|]. by destruct es.
Qed.

Lemma before_spec fuel i j r : rs !! j = Some r -> (r <= i < n)%nat -> (j < fuel)%nat ->
  exists o, before_loop block_bytes (off n) fuel (off i) (Z.of_nat j) = Some o /\
    match o with None => i = 0%nat | Some x => exists j' r', x = Z.of_nat j' /\ rs !! j' = Some r' /\ (r' < i)%nat end.
Proof.
  revert j r. induction fuel as [|f IH]; intros j r Hj Hi Hf; [lia|]. cbn [before_loop]. rewrite (restart_point j r Hj). destruct (Z.leb_spec (off i) (off r)) as [Hle|Hlt].
  - destruct j as [|j].
    + eexists. split; [done|]. cbn. rewrite (lay_first Hlay) in Hj. injection Hj as <-. destruct i; [done|]. pose proof (off_lt 0 (S i) ltac:(lia)). lia.
    + destruct (Z.eqb_spec (Z.of_nat (S j)) 0); [lia|]. replace (Z.of_nat (S j) - 1) with (Z.of_nat j) by lia. pose proof (lookup_lt_Some _ _ _ Hj). destruct (lookup_lt_is_Some_2 rs j ltac:(lia)) as [r' Hr'].
      pose proof (lay_sorted Hlay j (S j) r' r Hr' Hj ltac:(lia)). apply (IH j r'); [done|lia|lia].
  - eexists. split; [done|]. exists j, r. apply off_lt_inv in Hlt; [done|lia|lia].
Qed.
Lemma bi_Prev_spec it i : on_entry it i -> exists it', bi_Prev block_bytes (off n) nr it = Some it' /\ bstands it' (match i with O => None | S i => Some i end).
Proof.
  intros (e & He & Hc & _ & _ & _ & (j & r & Hj & Hr & Hri) & Hs). assert (i < n)%nat as Hi by (by apply lookup_lt_Some in He). pose proof (lookup_lt_Some _ _ _ Hr) as Hjl. pose proof count_le_size.
  unfold bi_Prev. rewrite Hc, Hj. destruct (before_spec (S (Z.to_nat nr)) i j r Hr ltac:(lia) ltac:(unfold zlen; lia)) as (o & -> & Ho). cbn [mbind option_bind]. destruct o as [x|].
  - destruct Ho as (j' & r' & -> & Hr' & Hlt). destruct (scan_spec (S (length block_bytes)) _ r' i (restart_ready it j' r' Hr' Hs) ltac:(lia) ltac:(lia)) as (it' & Hsc & Hon). exists it'. split; [done|].
    destruct i; [lia|]. by rewrite Nat.sub_1_r in Hon.
  - subst i. eexists. split; [done|]. by split.
Qed.

(** Seeking, in a block sorted by its comparator. *)
Context (c : Comparator) (dom : bytes -> Prop) `{!ComparatorLaws c dom}.
Hypothesis Hdom : Forall (fun e => dom e.1) es.
Hypothesis Hsorted : StronglySorted (fun x y => Compare c x.1 y.1 < 0) es.

Lemma sorted_keys i j x y : es !! i = Some x -> es !! j = Some y -> (i < j)%nat -> Compare c x.1 y.1 < 0.
Proof.
  intros Hx Hy Hij. rewrite <- (take_drop_middle es i x Hx) in Hsorted. apply StronglySorted_app in Hsorted as (_ & _ & Hs). apply StronglySorted_cons in Hs as [Hs _]. rewrite Forall_lookup in Hs.
  apply (Hs (j - S i)%nat). rewrite lookup_drop. by replace (S i + (j - S i))%nat with j by lia.
Qed.
Lemma key_dom i x : es !! i = Some x -> dom x.1.
Proof. intros Hx. rewrite Forall_forall in Hdom. apply Hdom. by eapply list_elem_of_lookup_2. Qed.

(** All entries before a restart point that the search may stop at are below
    the target. *)
Definition below (target : bytes) (j : nat) : Prop := exists r, rs !! j = Some r /\ forall i x, es !! i = Some x -> (i < r)%nat -> Compare c x.1 target < 0.
Lemma search_spec fuel target l u : dom target -> below target l -> (l <= u < length rs)%nat -> (u - l < fuel)%nat ->
  exists j, search_loop c block_bytes (off n) fuel target (Z.of_nat l) (Z.of_nat u) = Some (inr (Z.of_nat j)) /\ below target j.
Proof.
  revert l u. induction fuel as [|f IH]; intros l u Hd Hb Hlu Hf; [lia|]. cbn [search_loop]. destruct (Z.ltb_spec (Z.of_nat l) (Z.of_nat u)) as [Hlt|]; [|by exists l].
  assert (2 * zlen rs < 2 ^ 32) as H2 by (pose proof (lay_small Hlay) as Hsm; rewrite block_parts in Hsm; pose proof (off_nonneg n); pose proof (zlen_nonneg rs); lia).
  assert (u32 (Z.of_nat l + Z.of_nat u + 1) / 2 = Z.of_nat ((l + u + 1) / 2)) as -> by (rewrite u32_small by (unfold is_u32, zlen in *; lia); rewrite Nat2Z.inj_div; f_equal; lia).
  set (m := ((l + u + 1) / 2)%nat). assert (l < m <= u)%nat as Hm by (unfold m; pose proof (Nat.div_mod (l + u + 1) 2 ltac:(lia)); pose proof (Nat.mod_upper_bound (l + u + 1) 2 ltac:(lia)); lia).
  destruct (lookup_lt_is_Some_2 rs m ltac:(lia)) as [r Hr]. rewrite (restart_point m r Hr).
  assert (r < n)%nat as Hrn. { pose proof (lay_sorted Hlay 0 m 0 r (lay_first Hlay) Hr ltac:(lia)). destruct (lay_bound Hlay r); [by eapply list_elem_of_lookup_2|done|lia]. }
  destruct (lookup_lt_is_Some_2 es r Hrn) as [e He]. destruct (decode_at r e He) as (sh & p & -> & _ & _ & _ & Hsr & _ & _ & Hkey & _).
  rewrite Hsr in * by (by eapply list_elem_of_lookup_2). rewrite Hkey. change (Z.of_nat 0 =? 0) with true. cbn [negb]. change (drop 0 e.1) with e.1. destruct (Z.ltb_spec (Compare c e.1 target) 0) as [Hc|Hc].
  - apply IH; [done| |lia|lia]. exists r. split; [done|]. intros i x Hx Hi. apply (cmp_trans (c := c) x.1 e.1 target); [by eapply key_dom|by eapply key_dom|done|by eapply sorted_keys|done].
  - replace (Z.of_nat m - 1) with (Z.of_nat (m - 1)) by lia. apply IH; [done|done|lia|lia].
Qed.
Lemma linear_spec fuel target it i : ready it i -> (forall j x, es !! j = Some x -> (j < i)%nat -> Compare c x.1 target < 0) -> (n - i < fuel)%nat ->
  exists it', linear_loop c block_bytes (off n) nr fuel target it = Some it' /\ bstands it' (fst <$> list_find (fun x => 0 <= Compare c x.1 target) es).
Proof.
  revert it i. induction fuel as [|f IH]; intros it i Hr Hlow Hf; [lia|]. cbn [linear_loop]. destruct (parse_ready it i Hr) as (b & it' & -> & Hp). cbn [mbind option_bind]. destruct (decide (i < n)%nat) as [Hi|Hi].
  - destruct Hp as [-> Hon]. pose proof Hon as (e & He & _ & Hk & _). rewrite Hk. cbn [andb]. destruct (Z.ltb_spec (Compare c e.1 target) 0) as [Hc|Hc].
    + apply (IH it' (S i)); [by apply on_entry_ready| |lia]. intros j x Hx Hj. destruct (decide (j = i)) as [->|]; [congruence|]. apply (Hlow j x Hx). lia.
    + exists it'. split; [done|]. assert (list_find (fun x => 0 <= Compare c x.1 target) es = Some (i, e)) as ->; [|done]. apply list_find_Some. split; [done|]. split; [done|]. intros j y Hy Hj. specialize (Hlow j y Hy Hj). cbn. lia.
  - destruct Hp as [-> Hend]. exists it'. split; [done|]. assert (list_find (fun x => 0 <= Compare c x.1 target) es = None) as ->; [|done]. apply list_find_None, Forall_lookup. intros j x Hx. pose proof (lookup_lt_Some _ _ _ Hx). specialize (Hlow j x Hx ltac:(lia)). cbn. lia.
Qed.
Lemma bi_Seek_spec it target : dom target -> bi_status it = OK -> exists it', bi_Seek c block_bytes (off n) nr target it = Some it' /\ bstands it' (fst <$> list_find (fun x => 0 <= Compare c x.1 target) es).
Proof.
  intros Hd Hs. destruct last_restart as (r & Hr & Hu). unfold bi_Seek. rewrite Hu. change 0 with (Z.of_nat 0) at 1. pose proof (lookup_lt_Some _ _ _ Hr) as Hl. pose proof count_le_size.
  destruct (search_spec (S (Z.to_nat nr)) target 0 (length rs - 1) Hd) as (j & -> & r' & Hr' & Hlow); [exists 0%nat; split; [apply (lay_first Hlay)|lia]|lia|unfold zlen; lia|].
  cbn [mbind option_bind]. apply (linear_spec (S (length block_bytes)) target _ r'); [by apply restart_ready|done|lia].
Qed.
End Layout.

(** ** What the builder builds *)

Lemma common_prefix_spec a b : (common_prefix a b <= length a)%nat /\ (common_prefix a b <= length b)%nat /\ take (common_prefix a b) a = take (common_prefix a b) b.
Proof.
  revert b. induction a as [|x a IH]; intros [|y b]; cbn [common_prefix length take]; try (repeat split; lia || done). destruct (decide (x = y)) as [->|]; [|repeat split; lia || done].
  destruct (IH b) as (H1 & H2 & H3). cbn [take]. rewrite H3. repeat split; lia.
Qed.

Lemma off_app bs b i : (i <= length bs)%nat -> off (bs ++ [b]) i = off bs i.
Proof. intros Hi. unfold off. by rewrite take_app_le. Qed.
Lemma prev_key_app es e i : (i <= length es)%nat -> prev_key (es ++ [e]) i = prev_key es i.
Proof. intros Hi. destruct i as [|i]; [done|]. cbn [prev_key]. by rewrite lookup_app_l by lia. Qed.

Lemma laid_snoc es bs rs e sh rs' : laid es bs rs -> (sh <= length e.1)%nat -> (sh <= length (prev_key es (length es)))%nat -> take sh (prev_key es (length es)) = take sh e.1 ->
  (rs' = rs /\ (es = [] -> sh = 0%nat) \/ rs' = rs ++ [length es] /\ sh = 0%nat /\ es <> []) -> laid (es ++ [e]) (bs ++ [entry_bytes sh e.1 e.2]) rs'.
Proof.
  intros [Hlen Hent Hfirst Hsort Hbound] H1 H2 H3 Hrs. assert (0 < length rs)%nat as Hrl by (by apply lookup_lt_Some in Hfirst).
  assert (forall i, i ∈ rs' -> (i < length es)%nat -> i ∈ rs) as Hold. { intros i Hi Hl. destruct Hrs as [[-> _]|(-> & _)]; [done|]. apply elem_of_app in Hi as [|Hi]; [done|]. apply list_elem_of_singleton in Hi. lia. }
  assert (length es ∈ rs' -> sh = 0%nat) as Hnew. { intros Hi. destruct Hrs as [[-> Hs]|(-> & Hs & _)]; [|done]. destruct (Hbound _ Hi) as [|H0]; [lia|]. apply Hs. by destruct es. }
  split.
  - rewrite !length_app, Hlen. done.
  - intros i x Hx. rewrite prev_key_app by (apply lookup_lt_Some in Hx; rewrite length_app in Hx; cbn in Hx; lia). apply lookup_snoc_Some in Hx as [[Hi Hx]|[-> <-]].
    + destruct (Hent i x Hx) as (s & Hb & ? & ? & ? & Hr). exists s. rewrite lookup_app_l by lia. repeat split; auto.
    + exists sh. rewrite <- Hlen at 1. rewrite list_lookup_middle by done. by repeat split.
  - destruct Hrs as [[-> _]|(-> & _)]; [done|]. by rewrite lookup_app_l by lia.
  - destruct Hrs as [[-> _]|(-> & _ & Hne)]; [done|]. assert (0 < length es)%nat by (destruct es; [done|cbn; lia]).
    intros i j a b Ha Hb Hij. apply lookup_snoc_Some in Ha as [[Hi Ha]|[-> <-]]; apply lookup_snoc_Some in Hb as [[Hj Hb]|[-> <-]]; [by eapply Hsort| |lia..].
    apply list_elem_of_lookup_2 in Ha. destruct (Hbound a Ha); lia.
  - intros r Hr. rewrite length_app. cbn [length]. destruct Hrs as [[-> _]|(-> & _)]; [destruct (Hbound r Hr); lia|]. apply elem_of_app in Hr as [Hr|Hr]; [destruct (Hbound r Hr); lia|]. apply list_elem_of_singleton in Hr. lia.
Qed.

(** The builder after some entries. *)
Record built (b : BlockBuilder) (es : list (bytes * bytes)) (bs : list bytes) (rs : list nat) : Prop := mkBuilt {
  built_laid : laid es bs rs; built_buffer : b_buffer_ b = concat bs; built_restarts : b_restarts_ b = map (off bs) rs; built_last : last_key_ b = prev_key es (length es);
  built_counter : counter_ b <= zlen es
}.
Lemma newBlockBuilder_built : built newBlockBuilder [] [] [0%nat].
Proof.
  split; [|done..]. split; try done.
  - intros i j a b Ha Hb Hij. destruct j as [|[|j]]; [lia|done..].
  - intros r Hr. apply list_elem_of_singleton in Hr. by right.
Qed.
Definition entry_small (e : bytes * bytes) : Prop := zlen e.1 < 2 ^ 32 /\ zlen e.2 < 2 ^ 32.
Lemma block_Add_built interval b es bs rs e : built b es bs rs -> 1 <= interval -> entry_small e -> zlen (b_buffer_ b) < 2 ^ 32 -> exists bs' rs', built (block_Add interval b e.1 e.2) (es ++ [e]) bs' rs'.
Proof.
  intros [Hl Hbuf Hres Hlast Hc] Hi [Hk Hv] Hsz. unfold block_Add. pose proof (zlen_nonneg e.1). pose proof (zlen_nonneg e.2).
  assert (forall sh rs' cnt, (sh <= length e.1)%nat -> (sh <= length (last_key_ b))%nat -> take sh (last_key_ b) = take sh e.1 -> laid (es ++ [e]) (bs ++ [entry_bytes sh e.1 e.2]) rs' -> cnt <= zlen es ->
    built (mkBuilder (PutVarint32 (PutVarint32 (PutVarint32 (b_buffer_ b) (u32 (Z.of_nat sh))) (u32 (zlen e.1 - Z.of_nat sh))) (u32 (zlen e.2)) ++ drop sh e.1 ++ e.2) (map (off (bs ++ [entry_bytes sh e.1 e.2])) rs') (cnt + 1) (finished_ b)
      (take sh (last_key_ b) ++ drop sh e.1)) (es ++ [e]) (bs ++ [entry_bytes sh e.1 e.2]) rs') as Hbuilt.
  { intros sh rs' cnt S1 S2 S3 Hla Hcnt. split; cbn [b_buffer_ b_restarts_ last_key_ counter_]; [done| |done| |].
    - rewrite Hbuf, !u32_small by (unfold is_u32, zlen in *; lia). unfold PutVarint32, entry_bytes. rewrite concat_app. cbn [concat]. by rewrite app_nil_r, <- !app_assoc.
    - rewrite S3, take_drop. rewrite length_app. cbn [length]. rewrite Nat.add_1_r. cbn [prev_key]. by rewrite list_lookup_middle.
    - rewrite zlen_app. change (zlen [e]) with 1. lia. }
  assert (forall r, r ∈ rs -> (r <= length bs)%nat) as Hrb by (intros r Hr; rewrite (lay_len _ _ _ Hl); destruct (lay_bound _ _ _ Hl r Hr); lia).
  assert (forall x, map (off bs) rs = map (off (bs ++ [x])) rs) as Hmap by (intros x; apply map_ext_in; intros r Hr; symmetry; apply off_app, Hrb; by apply list_elem_of_In).
  destruct (Z.ltb_spec (counter_ b) interval) as [Hlt|Hge].
  - destruct (common_prefix_spec (last_key_ b) e.1) as (H1 & H2 & H3). eexists _, rs. rewrite Hres, (Hmap (entry_bytes (common_prefix (last_key_ b) e.1) e.1 e.2)). apply Hbuilt; [done..| |done].
    apply (laid_snoc es bs rs); [done|done|by rewrite <- Hlast|by rewrite <- Hlast|]. left. split; [done|]. intros ->. rewrite Hlast. done.
  - eexists _, (rs ++ [length es]). rewrite Hres, (Hmap (entry_bytes 0 e.1 e.2)), Hbuf.
    assert ([u32 (zlen (concat bs))] = map (off (bs ++ [entry_bytes 0 e.1 e.2])) [length es]) as ->.
    { cbn [map]. rewrite off_app by (by rewrite (lay_len _ _ _ Hl)). unfold off. rewrite <- (lay_len _ _ _ Hl), firstn_all. rewrite u32_small; [done|]. rewrite <- Hbuf. pose proof (zlen_nonneg (b_buffer_ b)). unfold is_u32. lia. }
    rewrite <- map_app, <- Hbuf. apply (Hbuilt 0%nat _ 0); [lia|lia|done| |apply zlen_nonneg]. apply (laid_snoc es bs rs); [done|lia|lia|done|]. right. split; [done|]. split; [done|]. intros ->. change (zlen []) with 0 in Hc. lia.
Qed.

Lemma block_Add_grows interval b k v : zlen (b_buffer_ b) <= zlen (b_buffer_ (block_Add interval b k v)).
Proof. unfold block_Add. destruct (_ <? _); cbn [b_buffer_]; unfold PutVarint32; rewrite !zlen_app; unfold zlen; lia. Qed.
Lemma block_Add_all_grows interval b es : zlen (b_buffer_ b) <= zlen (b_buffer_ (block_Add_all interval b es)).
Proof. revert b. induction es as [|e es IH]; intros b; [done|]. change (block_Add_all interval b (e :: es)) with (block_Add_all interval (block_Add interval b e.1 e.2) es). etrans; [apply block_Add_grows|apply IH]. Qed.
Lemma block_Add_all_built interval es b es0 bs0 rs0 : built b es0 bs0 rs0 -> 1 <= interval -> Forall entry_small es -> zlen (b_buffer_ (block_Add_all interval b es)) < 2 ^ 32 ->
  exists bs rs, built (block_Add_all interval b es) (es0 ++ es) bs rs.
Proof.
  revert b es0 bs0 rs0. induction es as [|e es IH]; intros b es0 bs0 rs0 Hb Hi Hs Hsz; [exists bs0, rs0; by rewrite app_nil_r|]. apply Forall_cons in Hs as [He Hs].
  change (block_Add_all interval b (e :: es)) with (block_Add_all interval (block_Add interval b e.1 e.2) es) in *.
  destruct (block_Add_built interval b es0 bs0 rs0 e Hb Hi He) as (bs1 & rs1 & Hb1). { pose proof (block_Add_grows interval b e.1 e.2). pose proof (block_Add_all_grows interval (block_Add interval b e.1 e.2) es). lia. }
  rewrite cons_middle, app_assoc. by eapply IH.
Qed.
Lemma Finish_grows b : zlen (b_buffer_ b) <= zlen (Finish b).1.
Proof.
  unfold Finish. cbn [fst]. unfold PutFixed32 at 1. rewrite zlen_app. assert (forall l a, zlen a <= zlen (foldl (fun buf r => PutFixed32 buf r) a l)) as H.
  { induction l as [|x l IH]; intros a; [done|]. cbn [foldl]. etrans; [|apply IH]. unfold PutFixed32. rewrite zlen_app. pose proof (zlen_nonneg (EncodeFixed32 x)). lia. }
  specialize (H (b_restarts_ b) (b_buffer_ b)). pose proof (zlen_nonneg (EncodeFixed32 (u32 (zlen (b_restarts_ b))))). lia.
Qed.
Lemma Finish_block b es bs rs : built b es bs rs -> zlen (Finish b).1 < 2 ^ 32 -> (Finish b).1 = block_bytes bs rs.
Proof.
  intros [_ Hbuf Hres _ _]. unfold Finish, block_bytes. cbn [fst]. rewrite Hbuf, Hres.
  assert (forall l a, foldl (fun buf r => PutFixed32 buf r) a (map (off bs) l) = a ++ concat (map (fun r => EncodeFixed32 (off bs r)) l)) as Hf.
  { induction l as [|r l IH]; intros a; cbn [map foldl concat]; [by rewrite app_nil_r|]. rewrite IH. unfold PutFixed32. by rewrite app_assoc. }
  assert (zlen (map (off bs) rs) = zlen rs) as -> by (unfold zlen; by rewrite length_map). rewrite Hf. unfold PutFixed32. intros Hsz. rewrite <- app_assoc. rewrite u32_small; [done|].
  assert (forall l, zlen l <= zlen (concat (map (fun r => EncodeFixed32 (off bs r)) l))) as Hl by (induction l as [|r l IH]; [done|]; cbn [map concat]; rewrite zlen_cons, zlen_app; change (zlen (EncodeFixed32 (off bs r))) with 4; lia).
  specialize (Hl rs). rewrite !zlen_app in Hsz. pose proof (zlen_nonneg (concat bs)). pose proof (zlen_nonneg (EncodeFixed32 (u32 (zlen rs)))). pose proof (zlen_nonneg rs). unfold is_u32. lia.
Qed.

(** Opening a block that is laid out. *)
Lemma NewIterator_layout es bs rs : layout es bs rs -> block_NewIterator (block_bytes bs rs) = EntryIterator (off bs (length es)) (zlen rs).
Proof.
  intros Hl. pose proof (block_parts es bs rs Hl) as Hp. pose proof (lay_small _ _ _ Hl) as Hs. pose proof (off_nonneg bs (length es)). pose proof (zlen_nonneg rs).
  assert (0 < zlen rs) as Hpos by (pose proof (lookup_lt_Some _ _ _ (lay_first _ _ _ Hl)); unfold zlen; lia).
  assert (NumRestarts (block_bytes bs rs) = zlen rs) as Hn.
  { unfold NumRestarts, block_bytes. rewrite app_assoc. rewrite drop_app_length' by (rewrite length_app; change (length (EncodeFixed32 (zlen rs))) with 4%nat; lia). rewrite <- (app_nil_r (EncodeFixed32 (zlen rs))). apply fixed32_roundtrip. unfold is_u32. lia. }
  unfold block_NewIterator, newBlock. rewrite Hn. destruct (Z.ltb_spec (zlen (block_bytes bs rs)) 4); [lia|]. destruct (Z.ltb_spec ((zlen (block_bytes bs rs) - 4) / 4) (zlen rs)) as [Hlt|_].
  - exfalso. assert (zlen rs <= (zlen (block_bytes bs rs) - 4) / 4); [|lia]. apply Z.div_le_lower_bound; lia.
  - destruct (Z.ltb_spec (zlen (block_bytes bs rs)) 4); [lia|]. destruct (Z.eqb_spec (zlen rs) 0); [lia|]. f_equal. rewrite Hp, u32_small; [lia|]. unfold is_u32. lia.
Qed.

(** ** Blocks as cursors *)

Section Moves.
Context (c : Comparator) (data : bytes) (restarts num_restarts : Z).
(** [Next] and [Prev] assert that the iterator is valid. *)
Definition bi_move (it : BlockIter) (m : move) : option BlockIter :=
  match m with
  | ToFirst => bi_SeekToFirst data restarts num_restarts it
  | ToLast => bi_SeekToLast data restarts num_restarts it
  | ToKey t => bi_Seek c data restarts num_restarts t it
  | Forward => if bi_Valid restarts it then bi_Next data restarts num_restarts it else None
  | Back => if bi_Valid restarts it then bi_Prev data restarts num_restarts it else None
  end.
Definition bi_run (it : BlockIter) (ms : list move) : option BlockIter := foldl (fun r m => r ≫= fun it => bi_move it m) (Some it) ms.
Definition bi_shows (it : BlockIter) : option (bytes * bytes) := if bi_Valid restarts it then Some (bi_key_ it, bi_value data it) else None.
End Moves.

Section Cursors.
Context (c : Comparator) (dom : bytes -> Prop) `{!ComparatorLaws c dom} (es : list (bytes * bytes)) (bs : list bytes) (rs : list nat).
Hypothesis Hlay : layout es bs rs.
Hypothesis Hdom : Forall (fun e => dom e.1) es.
Hypothesis Hsorted : StronglySorted (fun x y => Compare c x.1 y.1 < 0) es.
Abbreviation data := (block_bytes bs rs).
Abbreviation restarts := (off bs (length es)).

Lemma bstands_valid it x : bstands es bs rs it x -> bi_Valid restarts it = it_Valid x /\ bi_status it = OK.
Proof.
  destruct x as [i|]; cbn [bstands it_Valid]; unfold bi_Valid.
  - intros (e & He & -> & _ & _ & _ & _ & ->). split; [|done]. apply lookup_lt_Some in He. apply Z.ltb_lt. by apply (off_lt_inv es bs rs Hlay); [lia..|].
  - intros [-> ->]. by rewrite Z.ltb_irrefl.
Qed.
Lemma bstands_shows it x : bstands es bs rs it x -> bi_shows data restarts it = x ≫= fun i => es !! i.
Proof. intros Hs. unfold bi_shows. destruct (bstands_valid it x Hs) as [-> _]. destruct x as [i|]; [|done]. destruct Hs as (e & He & _ & -> & -> & _). cbn. rewrite He. by destruct e. Qed.
#[export] Instance block_cursor : CursorLaws c es (move_in dom) (bi_move c data restarts (zlen rs)) (bstands es bs rs).
Proof using All.
  intros it x m Hst Hm. destruct (bstands_valid it x Hst) as [Hv Hs]. destruct m as [| |t| |]; cbn [cursor_move bi_move].
  - by apply bi_SeekToFirst_spec.
  - by apply bi_SeekToLast_spec.
  - by eapply bi_Seek_spec.
  - rewrite Hv. destruct x as [i|]; [|done]. by apply bi_Next_spec.
  - rewrite Hv. destruct x as [i|]; [|done]. by apply bi_Prev_spec.
Qed.
End Cursors.

(** C13. A block that was built from sorted entries, with any restart interval,
    can be opened, and its iterator behaves under any sequence of SeekToFirst,
    SeekToLast, Seek, Next and Prev as a cursor in the list of the entries:
    every search ends, within the block, it is valid just where the cursor
    stands at an entry and shows its key and value, and no corruption is
    reported. *)
Theorem block_is_cursor (c : Comparator) (dom : bytes -> Prop) interval es ms : ComparatorLaws c dom -> 1 <= interval -> Forall entry_small es -> Forall (fun e => dom e.1) es ->
  StronglySorted (fun x y => Compare c x.1 y.1 < 0) es -> Forall (move_in dom) ms ->
  let data := (Finish (block_Add_all interval newBlockBuilder es)).1 in zlen data < 2 ^ 32 ->
  exists restarts num, block_NewIterator data = EntryIterator restarts num /\
    match cursor_run c es None ms with
    | Some x => exists it, bi_run c data restarts num (newBlockIter restarts num) ms = Some it /\ bi_shows data restarts it = (x ≫= fun i => es !! i) /\ bi_status it = OK
    | None => bi_run c data restarts num (newBlockIter restarts num) ms = None
    end.
Proof.
  intros Hlaws Hi Hsm Hdom Hsort Hms data Hsz. destruct (block_Add_all_built interval es newBlockBuilder [] [] [0%nat] newBlockBuilder_built Hi Hsm) as (bs & rs & Hb); [pose proof (Finish_grows (block_Add_all interval newBlockBuilder es)); unfold data in Hsz; lia|].
  cbn [app] in Hb. pose proof (Finish_block _ es bs rs Hb Hsz) as Hd. fold data in Hd. rewrite Hd in *. assert (layout es bs rs) as Hl by (split; [by eapply built_laid|done]).
  exists (off bs (length es)), (zlen rs). split; [by apply NewIterator_layout|]. pose proof (block_cursor c dom es bs rs Hl Hdom Hsort) as Hcur.
  pose proof (cursor_runs c es (move_in dom) _ (bstands es bs rs) ms (newBlockIter (off bs (length es)) (zlen rs)) None ltac:(by split) Hms) as Hr. fold (bi_run c (block_bytes bs rs) (off bs (length es)) (zlen rs) (newBlockIter (off bs (length es)) (zlen rs)) ms) in Hr.
  destruct (cursor_run c es None ms) as [x|]; [|done]. destruct Hr as (it & Hr & Hst). exists it. split; [done|]. split; [by apply bstands_shows|by eapply bstands_valid].
Qed.

Definition block_example : list (bytes * bytes) :=
  [([Byte.x61; Byte.x61], [Byte.x01]); ([Byte.x61; Byte.x62], [Byte.x02]); ([Byte.x61; Byte.x62; Byte.x63], []); ([Byte.x62], [Byte.x04])].
Lemma block_is_cursor_witness :
  let data := (Finish (block_Add_all 2 newBlockBuilder block_example)).1 in
  exists restarts num it, block_NewIterator data = EntryIterator restarts num /\
    bi_run BytewiseComparator data restarts num (newBlockIter restarts num) [ToKey [Byte.x61; Byte.x63]; Back; Back] = Some it /\ bi_shows data restarts it = Some ([Byte.x61; Byte.x62], [Byte.x02]).
Proof.
  intros data. destruct (block_is_cursor BytewiseComparator (fun _ => True) 2 block_example [ToKey [Byte.x61; Byte.x63]; Back; Back] bytewise_laws) as (restarts & num & Hn & Hrun).
  - discriminate.
  - repeat constructor.
  - repeat constructor.
  - repeat constructor.
  - repeat constructor.
  - vm_compute. reflexivity.
  - assert (cursor_run BytewiseComparator block_example None [ToKey [Byte.x61; Byte.x63]; Back; Back] = Some (Some 1%nat)) as Hc by (vm_compute; reflexivity). rewrite Hc in Hrun.
    destruct Hrun as (it & Hit & Hsh & _). exists restarts, num, it. split; [exact Hn|]. split; [exact Hit|]. etransitivity; [exact Hsh|reflexivity].
Defined.

(** The sum of the two lengths in the check of [DecodeEntry] wraps around: an
    entry whose key does not end before the limit is accepted. *)
Lemma DecodeEntry_wraps : exists p, DecodeEntry ([Byte.x00] ++ EncodeVarint32 (2 ^ 32 - 1) ++ EncodeVarint32 1 ++ [Byte.x00]) 0 8 = Some (0, 2 ^ 32 - 1, 1, p).
Proof. eexists. vm_compute. reflexivity. Qed.
