(* ===== verification/Merger.v ===== *)
(** * The merging iterator: table/merger.cc

    A child is an iterator as include/leveldb/iterator.h describes it, a list of
    entries with a position or none, moved by [cursor_move]. *)

From S2P Require Import Prelude CommonData Coding Bloom DbFormat DbIter.

Record Child : Type := mkChild { c_entries : list (bytes * bytes); c_pos : option nat }.

Section Merger.
Context (comparator_ : Comparator).

Definition child_move (m : move) (ch : Child) : option Child := p ← cursor_move comparator_ (c_entries ch) (c_pos ch) m; Some (mkChild (c_entries ch) p).
Definition child_entry (ch : Child) : option (bytes * bytes) := c_pos ch ≫= fun i => c_entries ch !! i.

(** [current_] is the index of a child. *)
Record MergingIterator : Type := mkMerging { children_ : list Child; current_child : option nat; m_direction : Direction }.
Definition newMergingIterator (children : list Child) : MergingIterator := mkMerging children None kForward.
Definition m_entry (m : MergingIterator) : option (bytes * bytes) := i ← current_child m; ch ← children_ m !! i; child_entry ch.

(** The loops of [FindSmallest] and [FindLargest]: [i] is the index of the
    first child of the list, [best] what was found so far. *)
Fixpoint smallest_loop (i : nat) (chs : list Child) (best : option (nat * bytes)) : option (nat * bytes) :=
  match chs with
  | [] => best
  | ch :: chs =>
      let best :=
        match child_entry ch with
        | Some e => match best with None => Some (i, e.1) | Some (_, k) => if Compare comparator_ e.1 k <? 0 then Some (i, e.1) else best end
        | None => best
        end in
      smallest_loop (S i) chs best
  end.
Definition FindSmallest (chs : list Child) : option nat := fst <$> smallest_loop 0 chs None.
(** From the last child to the first. *)
Fixpoint largest_loop (i : nat) (chs : list Child) : option (nat * bytes) :=
  match chs with
  | [] => None
  | ch :: chs =>
      let best := largest_loop (S i) chs in
      match child_entry ch with
      | Some e => match best with None => Some (i, e.1) | Some (_, k) => if 0 <? Compare comparator_ e.1 k then Some (i, e.1) else best end
      | None => best
      end
  end.
Definition FindLargest (chs : list Child) : option nat := fst <$> largest_loop 0 chs.

Definition all_children (f : Child -> option Child) (chs : list Child) : option (list Child) := mapM f chs.
Definition m_SeekToFirst (m : MergingIterator) : option MergingIterator :=
  chs ← all_children (child_move ToFirst) (children_ m); Some (mkMerging chs (FindSmallest chs) kForward).
Definition m_SeekToLast (m : MergingIterator) : option MergingIterator :=
  chs ← all_children (child_move ToLast) (children_ m); Some (mkMerging chs (FindLargest chs) kReverse).
Definition m_Seek (target : bytes) (m : MergingIterator) : option MergingIterator :=
  chs ← all_children (child_move (ToKey target)) (children_ m); Some (mkMerging chs (FindSmallest chs) kForward).

(** [f] for every child but the current one, [g] for that. *)
Definition others_and_current (cur : nat) (f g : Child -> option Child) (chs : list Child) : option (list Child) :=
  mapM (fun '(i, ch) => if decide (i = cur) then g ch else f ch) (imap pair chs).

Definition after_key (key : bytes) (ch : Child) : option Child :=
  ch ← child_move (ToKey key) ch;
  match child_entry ch with
  | Some e => if Compare comparator_ key e.1 =? 0 then child_move Forward ch else Some ch
  | None => Some ch
  end.
Definition m_Next (m : MergingIterator) : option MergingIterator :=
  cur ← current_child m;
  e ← m_entry m;
  chs ← others_and_current cur (match m_direction m with kForward => Some | kReverse => after_key e.1 end) (child_move Forward) (children_ m);
  Some (mkMerging chs (FindSmallest chs) kForward).
Definition before_key (key : bytes) (ch : Child) : option Child :=
  ch ← child_move (ToKey key) ch;
  match child_entry ch with Some _ => child_move Back ch | None => child_move ToLast ch end.
Definition m_Prev (m : MergingIterator) : option MergingIterator :=
  cur ← current_child m;
  e ← m_entry m;
  chs ← others_and_current cur (match m_direction m with kReverse => Some | kForward => before_key e.1 end) (child_move Back) (children_ m);
  Some (mkMerging chs (FindLargest chs) kReverse).

Definition m_move (m : MergingIterator) (v : move) : option MergingIterator :=
  match v with ToFirst => m_SeekToFirst m | ToLast => m_SeekToLast m | ToKey t => m_Seek t m | Forward => m_Next m | Back => m_Prev m end.
Definition m_run (m : MergingIterator) (vs : list move) : option MergingIterator := foldl (fun r v => r ≫= fun m => m_move m v) (Some m) vs.
End Merger.

(** ** Cuts of a sorted list

    Every position that a child takes is where a set of small keys ends: at
    the first entry behind it, or at the last entry in it. *)

Section Cuts.
Implicit Types (l : list (bytes * bytes)) (P : bytes -> Prop).

Definition lows P `{!forall k, Decision (P k)} l : nat := length (filter (fun x => P x.1) l).
Definition first_at P `{!forall k, Decision (P k)} l : option nat := if (lows P l <? length l)%nat then Some (lows P l) else None.
Definition last_at P `{!forall k, Decision (P k)} l : option nat := match lows P l with O => None | S i => Some i end.

(** [P] holds of a prefix of [l]. *)
Definition cut P `{!forall k, Decision (P k)} l : Prop := l = filter (fun x => P x.1) l ++ filter (fun x => ~ P x.1) l.

Context (P : bytes -> Prop) `{!forall k, Decision (P k)}.
Lemma lows_le l : (lows P l <= length l)%nat.
Proof. unfold lows. apply length_filter. Qed.
Lemma cut_take l : cut P l -> take (lows P l) l = filter (fun x => P x.1) l /\ drop (lows P l) l = filter (fun x => ~ P x.1) l.
Proof. intros Hc. unfold lows. rewrite Hc at 2 5. by rewrite take_app_length, drop_app_length. Qed.
Lemma first_at_entry l : cut P l -> (first_at P l ≫= fun i => l !! i) = head (filter (fun x => ~ P x.1) l).
Proof.
  intros Hc. destruct (cut_take l Hc) as [_ Hd]. unfold first_at. rewrite <- Hd, <- (Nat.add_0_r (lows P l)) at 1. destruct (Nat.ltb_spec (lows P l + 0) (length l)) as [Hlt|Hge]; rewrite Nat.add_0_r in *.
  - cbn [mbind option_bind]. destruct (lookup_lt_is_Some_2 l (lows P l) Hlt) as [x Hx]. by rewrite (drop_S l x _ Hx).
  - by rewrite drop_ge by lia.
Qed.
Lemma last_at_entry l : cut P l -> (last_at P l ≫= fun i => l !! i) = last (filter (fun x => P x.1) l).
Proof.
  intros Hc. destruct (cut_take l Hc) as [Ht _]. unfold last_at. rewrite <- Ht. destruct (lows P l) as [|i] eqn:Hl; [done|]. cbn [mbind option_bind]. pose proof (lows_le l).
  destruct (lookup_lt_is_Some_2 l i ltac:(lia)) as [x Hx]. by rewrite (take_S_r l i x Hx), last_snoc.
Qed.
Lemma filter_ext_in {A} (R S : A -> Prop) `{!forall x, Decision (R x), !forall x, Decision (S x)} (l : list A) : (forall x, x ∈ l -> R x <-> S x) -> filter R l = filter S l.
Proof.
  induction l as [|x l IH]; intros Hx; [done|]. rewrite !filter_cons. rewrite IH by (intros y Hy; apply Hx; by right). pose proof (Hx x ltac:(left)). destruct (decide (R x)), (decide (S x)); tauto.
Qed.
End Cuts.
Lemma lows_ext (P Q : bytes -> Prop) `{!forall k, Decision (P k), !forall k, Decision (Q k)} (l : list (bytes * bytes)) : (forall x, x ∈ l -> P x.1 <-> Q x.1) -> lows P l = lows Q l.
Proof. intros Hx. unfold lows. f_equal. by apply filter_ext_in. Qed.

Section Order.
Context (c : Comparator) (dom : bytes -> Prop) `{!ComparatorLaws c dom}.
Implicit Types (l : list (bytes * bytes)).
Definition in_order l : Prop := Forall (fun x => dom x.1) l /\ StronglySorted (fun x y => Compare c x.1 y.1 < 0) l.
Definition below_key (t k : bytes) : Prop := Compare c k t < 0.
Definition upto_key (t k : bytes) : Prop := Compare c k t <= 0.
#[export] Instance below_key_dec t k : Decision (below_key t k).
Proof. unfold below_key. apply _. Defined.
#[export] Instance upto_key_dec t k : Decision (upto_key t k).
Proof. unfold upto_key. apply _. Defined.

Lemma order_irrefl a : dom a -> ~ Compare c a a < 0.
Proof. intros Ha. pose proof (proj2 (cmp_eq (c := c) (dom := dom) a a Ha Ha) eq_refl). lia. Qed.
(** Closed downwards, on the keys at hand. *)
Definition closed (P : bytes -> Prop) : Prop := forall a b, dom a -> dom b -> Compare c a b < 0 -> P b -> P a.
Lemma below_closed t : dom t -> closed (below_key t).
Proof. intros Ht a b Ha Hb Hab Hbt. unfold below_key in *. by apply (cmp_trans (c := c) a b t). Qed.
Lemma upto_closed t : dom t -> closed (upto_key t).
Proof.
  intros Ht a b Ha Hb Hab Hbt. unfold upto_key in *. destruct (Z.eq_dec (Compare c b t) 0) as [E|].
  - apply (cmp_eq (c := c) (dom := dom)) in E as ->; [lia|done..].
  - pose proof (cmp_trans (c := c) a b t Ha Hb Ht Hab ltac:(lia)). lia.
Qed.
Lemma closed_cut (P : bytes -> Prop) `{!forall k, Decision (P k)} l : closed P -> in_order l -> cut P l.
Proof.
  intros Hc [Hd Hs]. unfold cut. induction Hs as [|x l Hs IH Hx]; [done|]. apply Forall_cons in Hd as [Hdx Hd]. rewrite !filter_cons. destruct (decide (P x.1)) as [Hp|Hp].
  - rewrite decide_False by tauto. cbn [app]. f_equal. by apply IH.
  - rewrite decide_True by done. assert (forall y, y ∈ l -> ~ P y.1) as Hn. { intros y Hy Hpy. apply Hp. rewrite Forall_forall in Hd, Hx. by apply (Hc x.1 y.1); [|apply Hd|apply Hx|]. }
    assert (filter (fun y => P y.1) l = []) as ->; [|cbn [app]; f_equal; symmetry; apply filter_id; exact Hn].
    destruct (filter (fun y => P y.1) l) as [|y k] eqn:E; [done|]. exfalso. assert (y ∈ filter (fun y => P y.1) l) as Hy by (rewrite E; left). apply list_elem_of_filter in Hy as [Hpy Hy]. by apply (Hn y).
Qed.

(** At an entry: how many keys are below, and up to it. *)
Lemma in_order_lookup l i j x y : in_order l -> l !! i = Some x -> l !! j = Some y -> (i < j)%nat -> Compare c x.1 y.1 < 0.
Proof.
  intros [_ Hs] Hx Hy Hij. rewrite <- (take_drop_middle l i x Hx) in Hs. apply StronglySorted_app in Hs as (_ & _ & Hs). apply StronglySorted_cons in Hs as [Hs _]. rewrite Forall_lookup in Hs.
  apply (Hs (j - S i)%nat). rewrite lookup_drop. by replace (S i + (j - S i))%nat with j by lia.
Qed.
Lemma in_order_dom l x : in_order l -> x ∈ l -> dom x.1.
Proof. intros [Hd _] Hx. rewrite Forall_forall in Hd. by apply Hd. Qed.
Lemma lows_prefix (P : bytes -> Prop) `{!forall k, Decision (P k)} l i : (i <= length l)%nat -> (forall j y, l !! j = Some y -> P y.1 <-> (j < i)%nat) -> lows P l = i.
Proof.
  intros Hi Hp. unfold lows. rewrite <- (take_drop i l). rewrite filter_app.
  rewrite (filter_id _ (take i l)) by (intros y [j Hj]%list_elem_of_lookup_1; apply lookup_take_Some in Hj as [Hj Hl]; by apply (Hp j)).
  assert (filter (fun y => P y.1) (drop i l) = []) as ->; [|rewrite app_nil_r, length_take; lia]. destruct (filter _ (drop i l)) as [|y k] eqn:E; [done|]. exfalso.
  assert (y ∈ filter (fun y => P y.1) (drop i l)) as Hy by (rewrite E; left). apply list_elem_of_filter in Hy as [Hpy Hy]. apply list_elem_of_lookup_1 in Hy as [j Hj]. rewrite lookup_drop in Hj. apply (Hp _ _ Hj) in Hpy. lia.
Qed.
Lemma lows_at l i x : in_order l -> l !! i = Some x -> lows (below_key x.1) l = i /\ lows (upto_key x.1) l = S i.
Proof.
  intros Ho Hx. assert (dom x.1) as Hdx by (eapply in_order_dom; [done|by eapply list_elem_of_lookup_2]). pose proof (lookup_lt_Some _ _ _ Hx) as Hl.
  assert (forall j y, l !! j = Some y -> (Compare c y.1 x.1 < 0 <-> (j < i)%nat) /\ (Compare c y.1 x.1 <= 0 <-> (j < S i)%nat)) as Hcmp.
  { intros j y Hy. assert (dom y.1) as Hdy by (eapply in_order_dom; [done|by eapply list_elem_of_lookup_2]). destruct (Nat.lt_trichotomy j i) as [H|[->|H]].
    - pose proof (in_order_lookup l j i y x Ho Hy Hx H). lia.
    - rewrite Hx in Hy. injection Hy as <-. pose proof (proj2 (cmp_eq (c := c) (dom := dom) x.1 x.1 Hdx Hdx) eq_refl). lia.
    - pose proof (in_order_lookup l i j x y Ho Hx Hy H) as Hxy. apply (cmp_flip (c := c) (dom := dom)) in Hxy; [|done..]. lia. }
  split; apply lows_prefix; [lia| |lia|]; intros j y Hy; apply (Hcmp j y Hy).
Qed.
Lemma find_first_at l t : in_order l -> dom t -> fst <$> list_find (fun x => 0 <= Compare c x.1 t) l = first_at (below_key t) l.
Proof.
  intros Ho Ht. unfold first_at. pose proof (closed_cut (below_key t) l (below_closed t Ht) Ho) as Hc. destruct (cut_take (below_key t) l Hc) as [Htk Hdr].
  assert (forall x, x ∈ take (lows (below_key t) l) l -> below_key t x.1) as Hlo by (intros x Hx; rewrite Htk in Hx; by apply list_elem_of_filter in Hx as [? _]).
  destruct (Nat.ltb_spec (lows (below_key t) l) (length l)) as [Hlt|Hge].
  - destruct (lookup_lt_is_Some_2 l _ Hlt) as [x Hx]. assert (list_find (fun x => 0 <= Compare c x.1 t) l = Some (lows (below_key t) l, x)) as ->; [|done]. apply list_find_Some. split; [done|]. split.
    + assert (x ∈ drop (lows (below_key t) l) l) as Hin by (rewrite (drop_S l x _ Hx); left). rewrite Hdr in Hin. apply list_elem_of_filter in Hin as [Hn _]. unfold below_key in Hn. lia.
    + intros j y Hy Hj. specialize (Hlo y ltac:(eapply list_elem_of_lookup_2; by rewrite lookup_take_lt)). unfold below_key in Hlo. lia.
  - rewrite firstn_all2 in Hlo by lia. assert (list_find (fun x => 0 <= Compare c x.1 t) l = None) as ->; [|done]. apply list_find_None, Forall_forall. intros x Hx. specialize (Hlo x Hx). unfold below_key in Hlo. lia.
Qed.
End Order.

Lemma head_in {A} (l : list A) h : head l = Some h -> h ∈ l.
Proof. destruct l; [done|]. intros [= ->]. left. Qed.
Lemma last_in {A} (l : list A) h : last l = Some h -> h ∈ l.
Proof. intros [k ->]%last_Some. apply elem_of_app. right. left. Qed.
Lemma head_none {A} (l : list A) x : head l = None -> x ∈ l -> False.
Proof. destruct l; [|done]. by intros _ ?%not_elem_of_nil. Qed.
Lemma last_none {A} (l : list A) x : last l = None -> x ∈ l -> False.
Proof. intros H%last_None. rewrite H. apply not_elem_of_nil. Qed.

(** ** The smallest and the largest of the children *)

Section Find.
Context (c : Comparator) (dom : bytes -> Prop) `{!ComparatorLaws c dom}.
Implicit Types (chs : list Child).
Definition child_dom (ch : Child) : Prop := forall e, child_entry ch = Some e -> dom e.1.

Lemma smallest_loop_spec chs i best : Forall child_dom chs -> (forall j k, best = Some (j, k) -> dom k) ->
  match smallest_loop c i chs best with
  | None => best = None /\ Forall (fun ch => child_entry ch = None) chs
  | Some (j, k) => (best = Some (j, k) \/ exists p ch e, j = (i + p)%nat /\ chs !! p = Some ch /\ child_entry ch = Some e /\ e.1 = k) /\
      (forall b kb, best = Some (b, kb) -> ~ Compare c kb k < 0) /\ Forall (fun ch => forall e, child_entry ch = Some e -> ~ Compare c e.1 k < 0) chs
  end.
Proof.
  revert i best. induction chs as [|ch chs IH]; intros i best Hd Hb; cbn [smallest_loop].
  { destruct best as [[j k]|]; [|by split]. split; [by left|]. split; [|constructor]. intros b kb [= <- <-]. eapply order_irrefl; [done|by eapply Hb]. }
  apply Forall_cons in Hd as [Hch Hd].
  set (best' := match child_entry ch with Some e => match best with None => Some (i, e.1) | Some (_, k) => if Compare c e.1 k <? 0 then Some (i, e.1) else best end | None => best end).
  assert (forall j k, best' = Some (j, k) -> dom k) as Hb'.
  { intros j k. unfold best'. destruct (child_entry ch) as [e|] eqn:He; [|apply Hb]. destruct best as [[b kb]|]; [destruct (_ <? _); [|apply Hb]|]; intros [= <- <-]; by apply Hch. }
  specialize (IH (S i) best' Hd Hb'). destruct (smallest_loop c (S i) chs best') as [[j k]|] eqn:Hr.
  - destruct IH as (Hfrom & Hbest & Hall).
    assert ((best' = best \/ exists e, child_entry ch = Some e /\ best' = Some (i, e.1)) /\ (forall e, child_entry ch = Some e -> exists b kb, best' = Some (b, kb) /\ (kb = e.1 \/ ~ Compare c e.1 kb < 0)) /\
      (forall b kb, best = Some (b, kb) -> exists b' kb', best' = Some (b', kb') /\ (kb' = kb \/ Compare c kb' kb < 0))) as (Hcase & Hnew & Hold).
    { unfold best'. destruct (child_entry ch) as [e|]; [|split; [by left|]; split; [done|]; intros b kb ->; eauto]. destruct best as [[b kb]|].
      - destruct (Z.ltb_spec (Compare c e.1 kb) 0) as [Hlt|Hge]; (split; [by eauto|]); (split; [intros ? [= <-]; eexists _, _; split; [done|]; first [by left|right; lia]|]); intros ? ? [= <- <-]; eexists _, _; (split; [done|]); by auto.
      - split; [by eauto|]. split; [|done]. intros ? [= <-]. eauto. }
    assert (dom k) as Hdk. { destruct Hfrom as [Hf|(p & x & e & _ & Hp & He & <-)]; [by eapply Hb'|]. rewrite Forall_lookup in Hd. by eapply Hd. }
    split; [|split].
    + destruct Hfrom as [Hf|(p & x & e & -> & Hp & He & Hk)]; [|right; exists (S p), x, e; split; [lia|done]]. destruct Hcase as [Hc|(e & He & Hc)]; [left; congruence|]. right. exists 0%nat, ch, e. rewrite Nat.add_0_r. rewrite Hf in Hc. injection Hc as -> ->. done.
    + intros b kb Hbk Hlt. destruct (Hold b kb Hbk) as (b' & kb' & Hb2 & [->|Hl]); [by eapply Hbest|]. apply (Hbest _ _ Hb2). eapply (cmp_trans (c := c) kb' kb k); [by eapply Hb'|by eapply Hb|done..].
    + constructor; [|done]. intros e He Hlt. destruct (Hnew e He) as (b & kb & Hb2 & [->|Hge]); [by apply (Hbest _ _ Hb2)|].
      assert (dom kb) as Hdkb by (by eapply Hb'). assert (dom e.1) as Hde by (by apply Hch). destruct (Z.lt_trichotomy (Compare c e.1 kb) 0) as [|[E|G]]; [lia| |].
      * apply (cmp_eq (c := c) (dom := dom)) in E; [|done..]. rewrite E in Hlt. by apply (Hbest _ _ Hb2).
      * apply (Hbest _ _ Hb2). apply (cmp_flip (c := c) (dom := dom)) in G; [|done..]. by apply (cmp_trans (c := c) kb e.1 k).
  - destruct IH as [Hn Hall]. unfold best' in Hn. destruct (child_entry ch) as [e|] eqn:He; [destruct best as [[b kb]|]; [destruct (_ <? _)|]; done|]. split; [done|]. by constructor.
Qed.

Lemma largest_loop_spec chs i : Forall child_dom chs ->
  match largest_loop c i chs with
  | None => Forall (fun ch => child_entry ch = None) chs
  | Some (j, k) => (exists p ch e, j = (i + p)%nat /\ chs !! p = Some ch /\ child_entry ch = Some e /\ e.1 = k) /\ Forall (fun ch => forall e, child_entry ch = Some e -> ~ Compare c k e.1 < 0) chs
  end.
Proof.
  revert i. induction chs as [|ch chs IH]; intros i Hd; cbn [largest_loop]; [constructor|]. apply Forall_cons in Hd as [Hch Hd]. specialize (IH (S i) Hd). destruct (child_entry ch) as [e|] eqn:He.
  - assert (dom e.1) as Hde by (by apply Hch). destruct (largest_loop c (S i) chs) as [[j k]|].
    + destruct IH as [(p & x & ex & -> & Hp & Hx & <-) Hall]. assert (dom ex.1) as Hdx by (rewrite Forall_lookup in Hd; by eapply Hd). destruct (Z.ltb_spec 0 (Compare c e.1 ex.1)) as [Hgt|Hle].
      * split; [exists 0%nat, ch, e; by rewrite Nat.add_0_r|]. apply (cmp_flip (c := c) (dom := dom)) in Hgt; [|done..]. constructor; [intros e' He'; rewrite He in He'; injection He' as <-; by eapply order_irrefl|].
        rewrite Forall_lookup in Hall, Hd |- *. intros q y Hy e' He' Hlt. apply (Hall q y Hy e' He'). apply (cmp_trans (c := c) ex.1 e.1 e'.1); [done|done|by eapply Hd|done..].
      * split; [exists (S p), x, ex; split; [lia|done]|]. constructor; [|done]. intros e' He' Hlt. rewrite He in He'. injection He' as <-. apply (cmp_flip (c := c) (dom := dom)) in Hlt; [lia|done..].
    + split; [exists 0%nat, ch, e; by rewrite Nat.add_0_r|]. constructor; [intros e' He'; rewrite He in He'; injection He' as <-; by eapply order_irrefl|]. eapply Forall_impl; [exact IH|]. cbn. intros x Hx e' He'. congruence.
  - destruct (largest_loop c (S i) chs) as [[j k]|].
    + destruct IH as [(p & x & ex & -> & Hp & Hx & <-) Hall]. split; [exists (S p), x, ex; split; [lia|done]|]. constructor; [intros e' He'; congruence|done].
    + by constructor.
Qed.
End Find.

(** ** Merging refines a cursor in the merged list *)

Section Merge.
Context (c : Comparator) (dom : bytes -> Prop) `{!ComparatorLaws c dom} (M : list (bytes * bytes)) (ls : list (list (bytes * bytes))).
Hypothesis HM : in_order c dom M.
Hypothesis Hls : Forall (in_order c dom) ls.
Hypothesis Hperm : M ≡ₚ concat ls.
Implicit Types (chs : list Child) (P : bytes -> Prop) (l : list (bytes * bytes)).

Definition over chs : Prop := map c_entries chs = ls.
Lemma over_in chs j ch : over chs -> chs !! j = Some ch -> ls !! j = Some (c_entries ch).
Proof. intros Ho Hj. unfold over in Ho. rewrite <- Ho, list_lookup_fmap. by rewrite Hj. Qed.
Lemma over_order chs j ch : over chs -> chs !! j = Some ch -> in_order c dom (c_entries ch).
Proof. intros Ho Hj. rewrite Forall_lookup in Hls. eapply Hls. by eapply over_in. Qed.
Lemma over_elem chs j ch x : over chs -> chs !! j = Some ch -> x ∈ c_entries ch -> x ∈ M.
Proof. intros Ho Hj Hx. rewrite Hperm. apply list_elem_of_In, in_concat. exists (c_entries ch). split; [|by apply list_elem_of_In]. apply list_elem_of_In. eapply list_elem_of_lookup_2. by eapply over_in. Qed.
Lemma over_child chs x : over chs -> x ∈ M -> exists j ch, chs !! j = Some ch /\ x ∈ c_entries ch.
Proof.
  intros Ho Hx. unfold over in Ho. rewrite Hperm in Hx. apply list_elem_of_In, in_concat in Hx as (l & Hl & Hx). apply list_elem_of_In in Hl, Hx. apply list_elem_of_lookup_1 in Hl as [j Hj]. rewrite <- Ho, list_lookup_fmap in Hj.
  destruct (chs !! j) as [ch|] eqn:Hc; [|done]. injection Hj as <-. by exists j, ch.
Qed.
Lemma M_dom x : x ∈ M -> dom x.1.
Proof. by eapply in_order_dom. Qed.
Lemma M_total x y : x ∈ M -> y ∈ M -> Compare c x.1 y.1 < 0 \/ x = y \/ Compare c y.1 x.1 < 0.
Proof.
  intros [i Hi]%list_elem_of_lookup_1 [j Hj]%list_elem_of_lookup_1. destruct (Nat.lt_trichotomy i j) as [H|[->|H]]; [left|right; left; congruence|right; right]; by eapply in_order_lookup.
Qed.
Lemma M_equal x y : x ∈ M -> y ∈ M -> Compare c x.1 y.1 = 0 -> x = y.
Proof. intros Hx Hy H0. destruct (M_total x y Hx Hy) as [|[|Hlt]]; [lia|done|]. apply (cmp_flip (c := c) (dom := dom)) in Hlt; [lia|by apply M_dom..]. Qed.
Lemma no_cycle x y : x ∈ M -> y ∈ M -> Compare c x.1 y.1 < 0 -> Compare c y.1 x.1 < 0 -> False.
Proof. intros Hx Hy H1 H2. apply (order_irrefl c dom x.1 (M_dom x Hx)). by apply (cmp_trans (c := c) x.1 y.1 x.1); [by apply M_dom..| |]. Qed.
Lemma M_NoDup : NoDup M.
Proof.
  destruct HM as [Hd Hs]. induction Hs as [|x l Hs IH Hx]; [constructor|]. apply Forall_cons in Hd as [Hdx Hd]. constructor; [|].
  - intros Hin. rewrite Forall_forall in Hx. by apply (order_irrefl c dom x.1 Hdx), (Hx x).
  - clear -Hs Hd ComparatorLaws0. induction Hs as [|y k Hk IH Hy]; constructor; [|by apply IH; apply Forall_cons in Hd as [_ ?]]. intros Hin. rewrite Forall_forall in Hy. apply Forall_cons in Hd as [Hdy _]. by apply (order_irrefl c dom y.1 Hdy), (Hy y).
Qed.
Lemma concat_unique (k : list (list (bytes * bytes))) i j a b x : NoDup (concat k) -> k !! i = Some a -> k !! j = Some b -> x ∈ a -> x ∈ b -> i = j.
Proof.
  revert i j. induction k as [|h k IH]; intros [|i] [|j] Hn Hi Hj Ha Hb; try done; cbn [concat] in Hn; apply NoDup_app in Hn as (Hh & Hd & Hk); cbn in Hi, Hj.
  - exfalso. injection Hi as ->. apply (Hd x Ha). apply list_elem_of_In, in_concat. exists b. split; apply list_elem_of_In; [by eapply list_elem_of_lookup_2|done].
  - exfalso. injection Hj as ->. apply (Hd x Hb). apply list_elem_of_In, in_concat. exists a. split; apply list_elem_of_In; [by eapply list_elem_of_lookup_2|done].
  - f_equal. by eapply IH.
Qed.
(** No other child has the key of the current entry. *)
Lemma key_unique chs i j a b x e : over chs -> chs !! i = Some a -> chs !! j = Some b -> x ∈ c_entries a -> e ∈ c_entries b -> i <> j -> Compare c x.1 e.1 <> 0.
Proof.
  intros Ho Hi Hj Hx He Hij H0. assert (x = e) as -> by (apply M_equal; [exact (over_elem chs i a x Ho Hi Hx)|exact (over_elem chs j b e Ho Hj He)|done]). apply Hij. eapply concat_unique; [rewrite <- Hperm; apply M_NoDup|exact (over_in chs i a Ho Hi)|exact (over_in chs j b Ho Hj)|done..].
Qed.

(** All children behind a cut, or before it. *)
Definition behind P `{!forall k, Decision (P k)} chs : Prop := over chs /\ Forall (fun ch => c_pos ch = first_at P (c_entries ch)) chs.
Definition before P `{!forall k, Decision (P k)} chs : Prop := over chs /\ Forall (fun ch => c_pos ch = last_at P (c_entries ch)) chs.

Section OneCut.
Context P `{!forall k, Decision (P k)} (HP : closed c dom P).
Lemma behind_entry chs j ch : behind P chs -> chs !! j = Some ch -> child_entry ch = head (filter (fun x => ~ P x.1) (c_entries ch)).
Proof. intros [Ho Hp] Hj. rewrite Forall_lookup in Hp. unfold child_entry. rewrite (Hp j ch Hj). apply first_at_entry. eapply closed_cut; [done|by eapply over_order]. Qed.
Lemma before_entry chs j ch : before P chs -> chs !! j = Some ch -> child_entry ch = last (filter (fun x => P x.1) (c_entries ch)).
Proof. intros [Ho Hp] Hj. rewrite Forall_lookup in Hp. unfold child_entry. rewrite (Hp j ch Hj). apply last_at_entry. eapply closed_cut; [done|by eapply over_order]. Qed.
Lemma entry_elem chs j ch e : over chs -> chs !! j = Some ch -> child_entry ch = Some e -> e ∈ c_entries ch /\ e ∈ M.
Proof. intros Ho Hj He. unfold child_entry in He. destruct (c_pos ch) as [i|]; [|done]. apply list_elem_of_lookup_2 in He. split; [done|by eapply over_elem]. Qed.
Lemma over_dom chs : over chs -> Forall (child_dom dom) chs.
Proof. intros Ho. apply Forall_lookup. intros j ch Hj e He. apply M_dom, (entry_elem chs j ch e Ho Hj He). Qed.

Lemma head_least (l : list (bytes * bytes)) h x : StronglySorted (fun x y => Compare c x.1 y.1 < 0) l -> head l = Some h -> x ∈ l -> x = h \/ Compare c h.1 x.1 < 0.
Proof. intros Hs Hh Hx. destruct Hs as [|y l Hs Hy]; [done|]. injection Hh as ->. apply elem_of_cons in Hx as [->|Hx]; [by left|]. right. rewrite Forall_forall in Hy. by apply Hy. Qed.
Lemma last_greatest (l : list (bytes * bytes)) h x : StronglySorted (fun x y => Compare c x.1 y.1 < 0) l -> last l = Some h -> x ∈ l -> x = h \/ Compare c x.1 h.1 < 0.
Proof.
  intros Hs Hh Hx. apply last_Some in Hh as [k ->]. apply elem_of_app in Hx as [Hx|Hx]; [right|left; by apply list_elem_of_singleton in Hx]. apply StronglySorted_app in Hs as (Hs & _). apply Hs; [done|left].
Qed.
Lemma filter_sorted (Q : bytes * bytes -> Prop) `{!forall x, Decision (Q x)} l : StronglySorted (fun x y => Compare c x.1 y.1 < 0) l -> StronglySorted (fun x y => Compare c x.1 y.1 < 0) (filter Q l).
Proof. induction 1 as [|x l Hs IH Hx]; [constructor|]. rewrite filter_cons. destruct (decide (Q x)); [|done]. constructor; [done|]. rewrite Forall_forall in *. intros y [_ Hy]%list_elem_of_filter. by apply Hx. Qed.

Lemma FindSmallest_spec chs : behind P chs ->
  match head (filter (fun x => ~ P x.1) M) with
  | None => FindSmallest c chs = None
  | Some e => exists j ch, FindSmallest c chs = Some j /\ chs !! j = Some ch /\ child_entry ch = Some e
  end.
Proof.
  intros Hb. pose proof Hb as [Ho _]. unfold FindSmallest. pose proof (smallest_loop_spec c dom chs 0 None (over_dom chs Ho) ltac:(done)) as Hs.
  assert (forall j ch h, chs !! j = Some ch -> child_entry ch = Some h -> h ∈ filter (fun x => ~ P x.1) M) as Hcand.
  { intros j ch h Hj Hh. rewrite (behind_entry chs j ch Hb Hj) in Hh. apply head_in, list_elem_of_filter in Hh as [Hp Hh]. apply list_elem_of_filter. split; [done|by eapply over_elem]. }
  destruct (head (filter (fun x => ~ P x.1) M)) as [e|] eqn:He.
  - pose proof (head_in _ _ He) as Hin. apply list_elem_of_filter in Hin as [Hpe HeM]. pose proof (fun h Hh => head_least _ e h (filter_sorted _ _ (proj2 HM)) He Hh) as Hleast.
    destruct (over_child chs e Ho HeM) as (j0 & ch0 & Hj0 & He0).
    assert (child_entry ch0 = Some e) as Hentry.
    { destruct (child_entry ch0) as [h|] eqn:Hh; [|exfalso; rewrite (behind_entry chs j0 ch0 Hb Hj0) in Hh; eapply head_none; [exact Hh|by apply list_elem_of_filter]]. f_equal.
      pose proof (Hcand j0 ch0 h Hj0 Hh) as Hc. rewrite (behind_entry chs j0 ch0 Hb Hj0) in Hh.
      destruct (head_least _ h e (filter_sorted _ _ (proj2 (over_order chs j0 ch0 Ho Hj0))) Hh ltac:(by apply list_elem_of_filter)) as [|H1]; [done|]. destruct (Hleast h Hc) as [|H2]; [done|]. apply list_elem_of_filter in Hc as [_ HhM]. by destruct (no_cycle h e). }
    destruct (smallest_loop c 0 chs None) as [[j k]|]; [|exfalso; destruct Hs as [_ Hs]; rewrite Forall_lookup in Hs; specialize (Hs j0 ch0 Hj0); congruence].
    destruct Hs as ([|(p & ch & e' & -> & Hp & He' & <-)] & _ & Hall); [done|]. exists p, ch. split; [done|]. split; [done|]. rewrite He'. f_equal.
    destruct (Hleast e' (Hcand p ch e' Hp He')) as [|Hlt]; [done|]. exfalso. rewrite Forall_lookup in Hall. by apply (Hall j0 ch0 Hj0 e Hentry).
  - destruct (smallest_loop c 0 chs None) as [[j k]|]; [|done]. exfalso. destruct Hs as ([|(p & ch & e' & -> & Hp & He' & <-)] & _ & _); [done|]. eapply head_none; [exact He|by eapply Hcand].
Qed.
Lemma FindLargest_spec chs : before P chs ->
  match last (filter (fun x => P x.1) M) with
  | None => FindLargest c chs = None
  | Some e => exists j ch, FindLargest c chs = Some j /\ chs !! j = Some ch /\ child_entry ch = Some e
  end.
Proof.
  intros Hb. pose proof Hb as [Ho _]. unfold FindLargest. pose proof (largest_loop_spec c dom chs 0 (over_dom chs Ho)) as Hs.
  assert (forall j ch h, chs !! j = Some ch -> child_entry ch = Some h -> h ∈ filter (fun x => P x.1) M) as Hcand.
  { intros j ch h Hj Hh. rewrite (before_entry chs j ch Hb Hj) in Hh. apply last_in, list_elem_of_filter in Hh as [Hp Hh]. apply list_elem_of_filter. split; [done|by eapply over_elem]. }
  destruct (last (filter (fun x => P x.1) M)) as [e|] eqn:He.
  - pose proof (last_in _ _ He) as Hin. apply list_elem_of_filter in Hin as [Hpe HeM]. pose proof (fun h Hh => last_greatest _ e h (filter_sorted _ _ (proj2 HM)) He Hh) as Hgreat.
    destruct (over_child chs e Ho HeM) as (j0 & ch0 & Hj0 & He0).
    assert (child_entry ch0 = Some e) as Hentry.
    { destruct (child_entry ch0) as [h|] eqn:Hh; [|exfalso; rewrite (before_entry chs j0 ch0 Hb Hj0) in Hh; eapply last_none; [exact Hh|by apply list_elem_of_filter]]. f_equal.
      pose proof (Hcand j0 ch0 h Hj0 Hh) as Hc. rewrite (before_entry chs j0 ch0 Hb Hj0) in Hh.
      destruct (last_greatest _ h e (filter_sorted _ _ (proj2 (over_order chs j0 ch0 Ho Hj0))) Hh ltac:(by apply list_elem_of_filter)) as [|H1]; [done|]. destruct (Hgreat h Hc) as [|H2]; [done|]. apply list_elem_of_filter in Hc as [_ HhM]. by destruct (no_cycle h e). }
    destruct (largest_loop c 0 chs) as [[j k]|]; [|exfalso; rewrite Forall_lookup in Hs; specialize (Hs j0 ch0 Hj0); congruence].
    destruct Hs as ((p & ch & e' & -> & Hp & He' & <-) & Hall). exists p, ch. split; [done|]. split; [done|]. rewrite He'. f_equal.
    destruct (Hgreat e' (Hcand p ch e' Hp He')) as [|Hlt]; [done|]. exfalso. rewrite Forall_lookup in Hall. by apply (Hall j0 ch0 Hj0 e Hentry).
  - destruct (largest_loop c 0 chs) as [[j k]|]; [|done]. exfalso. destruct Hs as ((p & ch & e' & -> & Hp & He' & <-) & _). eapply last_none; [exact He|by eapply Hcand].
Qed.
End OneCut.

(** Where the merging iterator stands. *)
Definition mstands (m : MergingIterator) (x : option nat) : Prop :=
  over (children_ m) /\
  match x with
  | None => current_child m = None
  | Some i => exists e j ch, M !! i = Some e /\ current_child m = Some j /\ children_ m !! j = Some ch /\ child_entry ch = Some e /\
      match m_direction m with kForward => behind (below_key c e.1) (children_ m) | kReverse => before (upto_key c e.1) (children_ m) end
  end.
Lemma mstands_shows m x : mstands m x -> m_entry m = x ≫= fun i => M !! i.
Proof. intros [_ Hx]. unfold m_entry. destruct x as [i|]; [|by rewrite Hx]. destruct Hx as (e & j & ch & Hi & -> & Hj & He & _). cbn [mbind option_bind]. by rewrite Hj, Hi. Qed.

(** What a cut of the merged list says about the entry next to it. *)
Lemma cut_index P `{!forall k, Decision (P k)} x j : closed c dom P -> M !! j = Some x -> (P x.1 <-> (j < lows P M)%nat).
Proof.
  intros HP Hx. destruct (cut_take P M (closed_cut c dom P M HP HM)) as [Ht Hd]. split; intros Hx2.
  - destruct (decide (j < lows P M)%nat) as [|Hn]; [done|]. exfalso. assert (x ∈ drop (lows P M) M) as Hin by (apply list_elem_of_lookup; exists (j - lows P M)%nat; rewrite lookup_drop; by replace (lows P M + (j - lows P M))%nat with j by lia).
    rewrite Hd in Hin. by apply list_elem_of_filter in Hin as [? _].
  - assert (x ∈ take (lows P M) M) as Hin by (eapply list_elem_of_lookup_2; by rewrite lookup_take_lt). rewrite Ht in Hin. by apply list_elem_of_filter in Hin as [? _].
Qed.
Lemma index_order x y i j : M !! i = Some x -> M !! j = Some y -> (Compare c x.1 y.1 < 0 <-> (i < j)%nat) /\ (Compare c x.1 y.1 <= 0 <-> (i <= j)%nat).
Proof.
  intros Hx Hy. pose proof (cut_index (below_key c y.1) x i (below_closed c dom y.1 (M_dom y ltac:(by eapply list_elem_of_lookup_2))) Hx) as H1.
  pose proof (cut_index (upto_key c y.1) x i (upto_closed c dom y.1 (M_dom y ltac:(by eapply list_elem_of_lookup_2))) Hx) as H2. destruct (lows_at c dom M j y HM Hy) as [E1 E2]. rewrite E1 in H1. rewrite E2 in H2. unfold below_key, upto_key in *. split; [exact H1|]. rewrite H2. lia.
Qed.

Lemma forward_stands P `{!forall k, Decision (P k)} chs : closed c dom P -> behind P chs -> mstands (mkMerging chs (FindSmallest c chs) kForward) (first_at P M).
Proof.
  intros HP Hb. pose proof Hb as [Ho Hpos]. pose proof (FindSmallest_spec P HP chs Hb) as Hf. rewrite <- (first_at_entry P M (closed_cut c dom P M HP HM)) in Hf. split; [done|]. unfold first_at in *.
  destruct (Nat.ltb_spec (lows P M) (length M)) as [Hlt|_]; cbn [mbind option_bind] in Hf; [|done]. destruct (lookup_lt_is_Some_2 M _ Hlt) as [e He]. rewrite He in Hf. destruct Hf as (j & ch & Hj & Hch & Hent).
  exists e, j, ch. repeat (split; [done|]). cbn [children_]. rewrite Forall_lookup in Hpos |- *. intros q y Hy. rewrite (Hpos q y Hy). unfold first_at. rewrite (lows_ext P (below_key c e.1) (c_entries y)); [done|].
  intros x Hx. pose proof (over_elem chs q y x Ho Hy Hx) as HxM. apply list_elem_of_lookup_1 in HxM as [r Hr]. rewrite (cut_index P x r HP Hr). unfold below_key. symmetry. apply (index_order x e r _ Hr He).
Qed.
Lemma reverse_stands P `{!forall k, Decision (P k)} chs : closed c dom P -> before P chs -> mstands (mkMerging chs (FindLargest c chs) kReverse) (last_at P M).
Proof.
  intros HP Hb. pose proof Hb as [Ho Hpos]. pose proof (FindLargest_spec P HP chs Hb) as Hf. rewrite <- (last_at_entry P M (closed_cut c dom P M HP HM)) in Hf. split; [done|]. unfold last_at in *. pose proof (lows_le P M) as Hle.
  destruct (lows P M) as [|i] eqn:Hl; cbn [mbind option_bind] in Hf; [done|]. destruct (lookup_lt_is_Some_2 M i ltac:(lia)) as [e He]. rewrite He in Hf. destruct Hf as (j & ch & Hj & Hch & Hent).
  exists e, j, ch. repeat (split; [done|]). cbn [children_]. rewrite Forall_lookup in Hpos |- *. intros q y Hy. rewrite (Hpos q y Hy). unfold last_at. rewrite (lows_ext P (upto_key c e.1) (c_entries y)); [done|].
  intros x Hx. pose proof (over_elem chs q y x Ho Hy Hx) as HxM. apply list_elem_of_lookup_1 in HxM as [r Hr]. rewrite (cut_index P x r HP Hr), Hl. unfold upto_key. rewrite (proj2 (index_order x e r i Hr He)). lia.
Qed.

(** Moving the children. *)
Lemma others_spec (Q : Child -> Child -> Prop) cur f g chs : (forall i ch, chs !! i = Some ch -> exists ch', (if decide (i = cur) then g ch else f ch) = Some ch' /\ Q ch ch') ->
  exists chs', others_and_current cur f g chs = Some chs' /\ Forall2 Q chs chs'.
Proof.
  unfold others_and_current. intros H. assert (forall k n, (forall i ch, k !! i = Some ch -> exists ch', (if decide ((n + i)%nat = cur) then g ch else f ch) = Some ch' /\ Q ch ch') ->
    exists k', mapM (fun '(i, ch) => if decide (i = cur) then g ch else f ch) (imap (fun i ch => ((n + i)%nat, ch)) k) = Some k' /\ Forall2 Q k k') as Hgen.
  { induction k as [|ch k IH]; intros n Hk; [exists []; by split; [|constructor]|]. destruct (Hk 0%nat ch eq_refl) as (ch' & Hc & HQ). rewrite Nat.add_0_r in Hc.
    destruct (IH (S n)) as (k' & Hk' & HF). { intros i x Hx. destruct (Hk (S i) x Hx) as (x' & Hx' & ?). exists x'. split; [|done]. by replace (S n + i)%nat with (n + S i)%nat by lia. }
    exists (ch' :: k'). split; [|by constructor]. cbn [imap mapM]. rewrite Nat.add_0_r, Hc. cbn [mbind option_bind].
    rewrite (imap_ext _ (fun i ch => ((S n + i)%nat, ch))); [by rewrite Hk'|]. intros i x _. cbn. f_equal. lia. }
  destruct (Hgen chs 0%nat H) as (chs' & He & HF). by exists chs'.
Qed.
Lemma all_spec (Q : Child -> Child -> Prop) f chs : (forall i ch, chs !! i = Some ch -> exists ch', f ch = Some ch' /\ Q ch ch') -> exists chs', all_children f chs = Some chs' /\ Forall2 Q chs chs'.
Proof.
  unfold all_children. induction chs as [|ch chs IH]; intros H; [exists []; by split; [|constructor]|]. destruct (H 0%nat ch eq_refl) as (ch' & Hc & HQ). destruct IH as (k & Hk & HF); [intros i x Hx; by apply (H (S i))|].
  exists (ch' :: k). cbn [mapM]. rewrite Hc. cbn [mbind option_bind]. rewrite Hk. split; [done|by constructor].
Qed.
Definition to_first P `{!forall k, Decision (P k)} (ch ch' : Child) : Prop := ch' = mkChild (c_entries ch) (first_at P (c_entries ch)).
Definition to_last P `{!forall k, Decision (P k)} (ch ch' : Child) : Prop := ch' = mkChild (c_entries ch) (last_at P (c_entries ch)).
Lemma to_first_behind P `{!forall k, Decision (P k)} chs chs' : over chs -> Forall2 (to_first P) chs chs' -> behind P chs'.
Proof.
  intros Ho HF. split.
  - unfold over in *. rewrite <- Ho. clear -HF. induction HF as [|x y k k' Hxy HF IH]; [done|]. cbn [map]. rewrite IH. by rewrite Hxy.
  - apply Forall_lookup. intros j y Hy. eapply Forall2_lookup_r in HF as (x & Hx & ->); [done|exact Hy].
Qed.
Lemma to_last_before P `{!forall k, Decision (P k)} chs chs' : over chs -> Forall2 (to_last P) chs chs' -> before P chs'.
Proof.
  intros Ho HF. split.
  - unfold over in *. rewrite <- Ho. clear -HF. induction HF as [|x y k k' Hxy HF IH]; [done|]. cbn [map]. rewrite IH. by rewrite Hxy.
  - apply Forall_lookup. intros j y Hy. eapply Forall2_lookup_r in HF as (x & Hx & ->); [done|exact Hy].
Qed.

Lemma child_to_key l pos t : in_order c dom l -> dom t -> child_move c (ToKey t) (mkChild l pos) = Some (mkChild l (first_at (below_key c t) l)).
Proof. intros Ho Ht. unfold child_move. cbn [c_entries c_pos cursor_move mbind option_bind]. by rewrite (find_first_at c dom). Qed.
Lemma child_forward l i e : in_order c dom l -> l !! i = Some e -> child_move c Forward (mkChild l (Some i)) = Some (mkChild l (first_at (upto_key c e.1) l)).
Proof. intros Ho He. unfold child_move. cbn [c_entries c_pos cursor_move mbind option_bind]. unfold first_at. by rewrite (proj2 (lows_at c dom l i e Ho He)). Qed.
Lemma child_back l i e : in_order c dom l -> l !! i = Some e -> child_move c Back (mkChild l (Some i)) = Some (mkChild l (last_at (below_key c e.1) l)).
Proof. intros Ho He. unfold child_move. cbn [c_entries c_pos cursor_move mbind option_bind]. unfold last_at. by rewrite (proj1 (lows_at c dom l i e Ho He)). Qed.

(** In a list without the key, being below it and up to it are the same. *)
Lemma no_key_lows l t : (forall x, x ∈ l -> Compare c x.1 t <> 0) -> lows (below_key c t) l = lows (upto_key c t) l.
Proof. intros Hn. apply lows_ext. intros x Hx. unfold below_key, upto_key. specialize (Hn x Hx). lia. Qed.
Lemma after_key_spec l pos t : in_order c dom l -> dom t -> (forall x, x ∈ l -> Compare c x.1 t <> 0) -> after_key c t (mkChild l pos) = Some (mkChild l (first_at (upto_key c t) l)).
Proof.
  intros Ho Ht Hn. unfold after_key. rewrite child_to_key by done. cbn [mbind option_bind]. assert (first_at (upto_key c t) l = first_at (below_key c t) l) as -> by (unfold first_at; by rewrite no_key_lows).
  destruct (child_entry _) as [e|] eqn:He; [|done]. unfold child_entry in He. cbn [c_pos c_entries] in He. destruct (first_at (below_key c t) l) as [i|]; [|done]. cbn [mbind option_bind] in He. apply list_elem_of_lookup_2 in He.
  destruct (Z.eqb_spec (Compare c t e.1) 0) as [E|]; [|done]. exfalso. apply (Hn e He). assert (dom e.1) as Hde by (by eapply in_order_dom). apply (cmp_eq (c := c) (dom := dom)) in E; [|done..]. by apply (cmp_eq (c := c) (dom := dom)).
Qed.
Lemma before_key_spec l pos t : in_order c dom l -> dom t -> before_key c t (mkChild l pos) = Some (mkChild l (last_at (below_key c t) l)).
Proof.
  intros Ho Ht. unfold before_key. rewrite child_to_key by done. cbn [mbind option_bind]. unfold child_entry. cbn [c_pos c_entries]. unfold first_at, last_at. pose proof (lows_le (below_key c t) l) as Hle.
  destruct (Nat.ltb_spec (lows (below_key c t) l) (length l)) as [Hlt|Hge]; cbn [mbind option_bind].
  - destruct (lookup_lt_is_Some_2 l _ Hlt) as [e ->]. unfold child_move. cbn [c_entries c_pos cursor_move mbind option_bind]. by destruct (lows (below_key c t) l).
  - unfold child_move. cbn [c_entries c_pos cursor_move mbind option_bind]. replace (lows (below_key c t) l) with (length l) by lia. destruct l as [|x k]; [done|]. cbn [length]. by rewrite Nat.sub_1_r.
Qed.

Lemma m_seeks m v P `{!forall k, Decision (P k)} : closed c dom P -> over (children_ m) -> (forall l pos, in_order c dom l -> child_move c v (mkChild l pos) = Some (mkChild l (first_at P l))) ->
  exists chs, all_children (child_move c v) (children_ m) = Some chs /\ mstands (mkMerging chs (FindSmallest c chs) kForward) (first_at P M).
Proof.
  intros HP Ho Hv. destruct (all_spec (to_first P) (child_move c v) (children_ m)) as (chs & Hc & HF).
  { intros j [l pos] Hj. eexists. split; [apply Hv; exact (over_order (children_ m) j _ Ho Hj)|done]. }
  exists chs. split; [done|]. apply forward_stands; [done|]. by eapply to_first_behind.
Qed.
Lemma first_all l : first_at (fun _ => False) l = match l with [] => None | _ => Some 0%nat end.
Proof. unfold first_at. assert (lows (fun _ => False) l = 0%nat) as -> by (apply lows_prefix; [lia|]; intros j y _; split; [done|lia]). by destruct l. Qed.
Lemma last_all l : last_at (fun _ => True) l = match l with [] => None | _ => Some (length l - 1)%nat end.
Proof. unfold last_at. assert (lows (fun _ => True) l = length l) as -> by (apply lows_prefix; [lia|]; intros j y Hy; split; [intros _; by apply lookup_lt_Some in Hy|done]). destruct l; [done|]. cbn [length]. by rewrite Nat.sub_1_r. Qed.

Lemma m_SeekToFirst_spec m : over (children_ m) -> exists m', m_SeekToFirst c m = Some m' /\ mstands m' (match M with [] => None | _ => Some 0%nat end).
Proof.
  intros Ho. destruct (m_seeks m ToFirst (fun _ => False)) as (chs & Hc & Hst); [by intros ? ? ? ? ? []|done| |].
  - intros l pos _. unfold child_move. cbn [c_entries c_pos cursor_move mbind option_bind]. by rewrite first_all.
  - unfold m_SeekToFirst. rewrite Hc. eexists. split; [done|]. by rewrite first_all in Hst.
Qed.
Lemma m_Seek_spec m t : dom t -> over (children_ m) -> exists m', m_Seek c t m = Some m' /\ mstands m' (fst <$> list_find (fun x => 0 <= Compare c x.1 t) M).
Proof.
  intros Ht Ho. destruct (m_seeks m (ToKey t) (below_key c t)) as (chs & Hc & Hst); [by apply below_closed|done|intros l pos Hl; by apply child_to_key|].
  unfold m_Seek. rewrite Hc. eexists. split; [done|]. by rewrite (find_first_at c dom).
Qed.
Lemma m_SeekToLast_spec m : over (children_ m) -> exists m', m_SeekToLast c m = Some m' /\ mstands m' (match M with [] => None | _ => Some (length M - 1)%nat end).
Proof.
  intros Ho. destruct (all_spec (to_last (fun _ => True)) (child_move c ToLast) (children_ m)) as (chs & Hc & HF).
  { intros j [l pos] Hj. eexists. split; [|done]. unfold child_move. cbn [c_entries c_pos cursor_move mbind option_bind]. by rewrite last_all. }
  unfold m_SeekToLast. rewrite Hc. eexists. split; [done|]. rewrite <- last_all. apply reverse_stands; [done|]. by eapply to_last_before.
Qed.

(** The entry of a child is where its position says. *)
Lemma current_place chs j ch e : over chs -> chs !! j = Some ch -> child_entry ch = Some e -> exists i, ch = mkChild (c_entries ch) (Some i) /\ c_entries ch !! i = Some e.
Proof. intros _ _ He. unfold child_entry in He. destruct ch as [l [i|]]; [|done]. by exists i. Qed.
Lemma m_Next_spec m i : mstands m (Some i) -> exists m', m_Next c m = Some m' /\ mstands m' (if (S i <? length M)%nat then Some (S i) else None).
Proof.
  intros Hst. pose proof (mstands_shows m _ Hst) as Hshow. destruct Hst as [Ho (e & j & ch & Hi & Hcur & Hj & He & Hdir)]. cbn [mbind option_bind] in Hshow. rewrite Hi in Hshow.
  assert (e ∈ M) as HeM by (by eapply list_elem_of_lookup_2). pose proof (M_dom e HeM) as Hde. destruct (entry_elem (children_ m) j ch e Ho Hj He) as [Hel _].
  unfold m_Next. rewrite Hcur, Hshow. cbn [mbind option_bind].
  destruct (others_spec (to_first (upto_key c e.1)) j (match m_direction m with kForward => Some | kReverse => after_key c e.1 end) (child_move c Forward) (children_ m)) as (chs & -> & HF).
  { intros q y Hy. pose proof (over_order (children_ m) q y Ho Hy) as Hyo. destruct (decide (q = j)) as [->|Hne].
    - rewrite Hj in Hy. injection Hy as <-. destruct (current_place _ j ch e Ho Hj He) as (p & Hch & Hp). rewrite Hch. eexists. split; [by apply child_forward|done].
    - assert (forall x, x ∈ c_entries y -> Compare c x.1 e.1 <> 0) as Hnk by (intros x Hx; exact (key_unique (children_ m) q j y ch x e Ho Hy Hj Hx Hel Hne)). destruct (m_direction m).
      + exists y. split; [done|]. destruct Hdir as [_ Hpos]. rewrite Forall_lookup in Hpos. specialize (Hpos q y Hy). unfold to_first. destruct y as [l pos]. cbn [c_entries c_pos] in *. rewrite Hpos. unfold first_at. by rewrite no_key_lows.
      + destruct y as [l pos]. eexists. split; [by apply after_key_spec|done]. }
  cbn [mbind option_bind]. eexists. split; [done|]. assert ((if (S i <? length M)%nat then Some (S i) else None) = first_at (upto_key c e.1) M) as -> by (unfold first_at; by rewrite (proj2 (lows_at c dom M i e HM Hi))).
  apply forward_stands; [by apply upto_closed|]. by eapply to_first_behind.
Qed.
Lemma m_Prev_spec m i : mstands m (Some i) -> exists m', m_Prev c m = Some m' /\ mstands m' (match i with O => None | S i => Some i end).
Proof.
  intros Hst. pose proof (mstands_shows m _ Hst) as Hshow. destruct Hst as [Ho (e & j & ch & Hi & Hcur & Hj & He & Hdir)]. cbn [mbind option_bind] in Hshow. rewrite Hi in Hshow.
  assert (e ∈ M) as HeM by (by eapply list_elem_of_lookup_2). pose proof (M_dom e HeM) as Hde. destruct (entry_elem (children_ m) j ch e Ho Hj He) as [Hel _].
  unfold m_Prev. rewrite Hcur, Hshow. cbn [mbind option_bind].
  destruct (others_spec (to_last (below_key c e.1)) j (match m_direction m with kReverse => Some | kForward => before_key c e.1 end) (child_move c Back) (children_ m)) as (chs & -> & HF).
  { intros q y Hy. pose proof (over_order (children_ m) q y Ho Hy) as Hyo. destruct (decide (q = j)) as [->|Hne].
    - rewrite Hj in Hy. injection Hy as <-. destruct (current_place _ j ch e Ho Hj He) as (p & Hch & Hp). rewrite Hch. eexists. split; [by apply child_back|done].
    - assert (forall x, x ∈ c_entries y -> Compare c x.1 e.1 <> 0) as Hnk by (intros x Hx; exact (key_unique (children_ m) q j y ch x e Ho Hy Hj Hx Hel Hne)). destruct (m_direction m).
      + destruct y as [l pos]. eexists. split; [by apply before_key_spec|done].
      + exists y. split; [done|]. destruct Hdir as [_ Hpos]. rewrite Forall_lookup in Hpos. specialize (Hpos q y Hy). unfold to_last. destruct y as [l pos]. cbn [c_entries c_pos] in *. rewrite Hpos. unfold last_at. by rewrite <- no_key_lows. }
  cbn [mbind option_bind]. eexists. split; [done|]. assert (match i with O => None | S i => Some i end = last_at (below_key c e.1) M) as -> by (unfold last_at; by rewrite (proj1 (lows_at c dom M i e HM Hi))).
  apply reverse_stands; [by apply below_closed|]. by eapply to_last_before.
Qed.

#[export] Instance merging_cursor : CursorLaws c M (move_in dom) (m_move c) mstands.
Proof using All.
  intros m x v Hst Hv. pose proof Hst as [Ho Hx]. destruct v as [| |t| |]; cbn [cursor_move m_move].
  - by apply m_SeekToFirst_spec.
  - by apply m_SeekToLast_spec.
  - by apply m_Seek_spec.
  - destruct x as [i|]; [by apply m_Next_spec|]. unfold m_Next. by rewrite Hx.
  - destruct x as [i|]; [by apply m_Prev_spec|]. unfold m_Prev. by rewrite Hx.
Qed.

(** C14. The iterator that merges others behaves, under any sequence of
    SeekToFirst, SeekToLast, Seek, Next and Prev, with every change of
    direction, as a cursor in the merged list: whenever the children are
    cursors in sorted lists and [M] is the sorted list of all their entries,
    no key being in it twice, it is valid just where the cursor stands at an
    entry and shows it, and never moves a child that is not valid. *)
Theorem merger_is_cursor chs ms : map c_entries chs = ls -> Forall (move_in dom) ms ->
  match cursor_run c M None ms with
  | Some x => exists m, m_run c (newMergingIterator chs) ms = Some m /\ m_entry m = (x ≫= fun i => M !! i)
  | None => m_run c (newMergingIterator chs) ms = None
  end.
Proof using All.
  intros Hch Hms. pose proof (cursor_runs c M (move_in dom) (m_move c) mstands ms (newMergingIterator chs) None ltac:(by split) Hms) as Hr. fold (m_run c (newMergingIterator chs) ms) in Hr.
  destruct (cursor_run c M None ms) as [x|]; [|done]. destruct Hr as (m & Hm & Hst). exists m. split; [done|]. by apply mstands_shows.
Qed.
End Merge.

Definition merge_example : list (list (bytes * bytes)) := [[([Byte.x61], [Byte.x01]); ([Byte.x63], [Byte.x03])]; []; [([Byte.x62], [Byte.x02])]].
Lemma merger_is_cursor_witness :
  exists m, m_run BytewiseComparator (newMergingIterator (map (fun l => mkChild l None) merge_example)) [ToFirst; Forward; Forward; Back] = Some m /\ m_entry m = Some ([Byte.x62], [Byte.x02]).
Proof.
  pose proof (merger_is_cursor BytewiseComparator (fun _ => True) [([Byte.x61], [Byte.x01]); ([Byte.x62], [Byte.x02]); ([Byte.x63], [Byte.x03])] merge_example
    ltac:(repeat constructor) ltac:(repeat constructor) ltac:(apply perm_skip, perm_swap) (map (fun l => mkChild l None) merge_example) [ToFirst; Forward; Forward; Back] eq_refl ltac:(repeat constructor)) as H.
  assert (cursor_run BytewiseComparator [([Byte.x61], [Byte.x01]); ([Byte.x62], [Byte.x02]); ([Byte.x63], [Byte.x03])] None [ToFirst; Forward; Forward; Back] = Some (Some 1%nat)) as Hc by (vm_compute; reflexivity).
  rewrite Hc in H. exact H.
Defined.
