(* ===== verification/TwoLevel.v ===== *)
(** * The iterator over the blocks of a table: table/two_level_iterator.cc

    The index iterator and the iterators over blocks are cursors in lists, as in
    [Merger]; the index iterator never fails. *)

From S2P Require Import Prelude CommonData Coding Bloom DbFormat DbIter Merger.

Record TwoLevelIterator : Type := mkTwoLevel { index_iter_ : Child; data_iter_ : option (Child * LStatus); data_block_handle_ : bytes; tl_status_ : LStatus }.

Section TwoLevel.
Context (comparator_ : Comparator) (block_function_ : bytes -> list (bytes * bytes) * LStatus).
Implicit Types t : TwoLevelIterator.

Definition newTwoLevelIterator (index : Child) : TwoLevelIterator := mkTwoLevel index None [] OK.
Definition data_entry t : option (bytes * bytes) := '(ch, _) ← data_iter_ t; child_entry ch.
Definition tl_status t : LStatus := match data_iter_ t with Some (_, s) => if ok s then tl_status_ t else s | None => tl_status_ t end.

Definition SaveError (s status : LStatus) : LStatus := if ok status && negb (ok s) then s else status.
Definition SetDataIterator (d : option (Child * LStatus)) t : TwoLevelIterator :=
  mkTwoLevel (index_iter_ t) d (data_block_handle_ t) (match data_iter_ t with Some (_, s) => SaveError s (tl_status_ t) | None => tl_status_ t end).
Definition InitDataBlock t : TwoLevelIterator :=
  match child_entry (index_iter_ t) with
  | None => SetDataIterator None t
  | Some e =>
      let handle := e.2 in
      if bool_decide (data_iter_ t <> None) && bool_decide (handle = data_block_handle_ t) then t
      else
        let '(es, s) := block_function_ handle in
        SetDataIterator (Some (mkChild es None, s)) (mkTwoLevel (index_iter_ t) (data_iter_ t) handle (tl_status_ t))
  end.

Definition move_index (m : move) t : option TwoLevelIterator := ch ← child_move comparator_ m (index_iter_ t); Some (mkTwoLevel ch (data_iter_ t) (data_block_handle_ t) (tl_status_ t)).
(** On the data iterator, if there is one. *)
Definition move_data (m : move) t : option TwoLevelIterator :=
  match data_iter_ t with
  | Some (ch, s) => ch ← child_move comparator_ m ch; Some (mkTwoLevel (index_iter_ t) (Some (ch, s)) (data_block_handle_ t) (tl_status_ t))
  | None => Some t
  end.
(** [SkipEmptyDataBlocksForward] for [Forward], [SkipEmptyDataBlocksBackward]
    for [Back]; [start] is where a block is entered. *)
Fixpoint skip_loop (step start : move) (fuel : nat) t : option TwoLevelIterator :=
  match fuel with
  | O => None
  | S n =>
      if bool_decide (data_entry t <> None) then Some t
      else if bool_decide (child_entry (index_iter_ t) = None) then Some (SetDataIterator None t)
      else t ← move_index step t; t ← move_data start (InitDataBlock t); skip_loop step start n t
  end.
(** Every round moves the index iterator. *)
Definition SkipEmptyDataBlocksForward t : option TwoLevelIterator := skip_loop Forward ToFirst (S (S (length (c_entries (index_iter_ t))))) t.
Definition SkipEmptyDataBlocksBackward t : option TwoLevelIterator := skip_loop Back ToLast (S (S (length (c_entries (index_iter_ t))))) t.

Definition tl_Seek (target : bytes) t : option TwoLevelIterator := t ← move_index (ToKey target) t; t ← move_data (ToKey target) (InitDataBlock t); SkipEmptyDataBlocksForward t.
Definition tl_SeekToFirst t : option TwoLevelIterator := t ← move_index ToFirst t; t ← move_data ToFirst (InitDataBlock t); SkipEmptyDataBlocksForward t.
Definition tl_SeekToLast t : option TwoLevelIterator := t ← move_index ToLast t; t ← move_data ToLast (InitDataBlock t); SkipEmptyDataBlocksBackward t.
(** [Next] and [Prev] assert that the iterator is valid. *)
Definition tl_Next t : option TwoLevelIterator := if bool_decide (data_entry t <> None) then t ← move_data Forward t; SkipEmptyDataBlocksForward t else None.
Definition tl_Prev t : option TwoLevelIterator := if bool_decide (data_entry t <> None) then t ← move_data Back t; SkipEmptyDataBlocksBackward t else None.
Definition tl_move t (m : move) : option TwoLevelIterator :=
  match m with ToFirst => tl_SeekToFirst t | ToLast => tl_SeekToLast t | ToKey k => tl_Seek k t | Forward => tl_Next t | Back => tl_Prev t end.
Definition tl_run t (ms : list move) : option TwoLevelIterator := foldl (fun r m => r ≫= fun t => tl_move t m) (Some t) ms.
End TwoLevel.

(** ** Refinement of a cursor in all blocks, one after the other *)

Section Refine.
Context (c : Comparator) (dom : bytes -> Prop) `{!ComparatorLaws c dom} (block_function : bytes -> list (bytes * bytes) * LStatus).
Context (index : list (bytes * bytes)) (blocks : list (list (bytes * bytes))).
Abbreviation M := (concat blocks).
Implicit Types t : TwoLevelIterator.

(** What the index of a table says: the handle of an index entry stands for
    the block, whose keys are up to the key of the entry and behind that of
    the entry before. *)
Record indexed_by : Prop := mkIndexedBy {
  ix_len : length index = length blocks;
  ix_blocks : forall j e b, index !! j = Some e -> blocks !! j = Some b -> block_function e.2 = (b, OK);
  ix_order : in_order c dom index; ix_sorted : in_order c dom M;
  ix_upto : forall j e b x, index !! j = Some e -> blocks !! j = Some b -> x ∈ b -> Compare c x.1 e.1 <= 0;
  ix_behind : forall j j' e b x, index !! j = Some e -> blocks !! j' = Some b -> (j < j')%nat -> x ∈ b -> Compare c e.1 x.1 < 0
}.
Hypothesis Hix : indexed_by.

Definition base (j : nat) : nat := length (concat (take j blocks)).
Lemma base_S j b : blocks !! j = Some b -> base (S j) = (base j + length b)%nat.
Proof. intros Hb. unfold base. rewrite (take_S_r _ _ _ Hb), concat_app, length_app. cbn [concat]. by rewrite app_nil_r. Qed.
Lemma base_all : base (length blocks) = length M.
Proof. unfold base. by rewrite firstn_all. Qed.
Lemma base_lookup j b i : blocks !! j = Some b -> (i < length b)%nat -> M !! (base j + i)%nat = b !! i.
Proof.
  intros Hb Hi. unfold base. rewrite <- (take_drop_middle blocks j b Hb) at 2. rewrite concat_app. cbn [concat]. rewrite lookup_app_r by lia. replace (length (concat (take j blocks)) + i - length (concat (take j blocks)))%nat with i by lia. by apply lookup_app_l.
Qed.
Lemma block_in_order j b : blocks !! j = Some b -> in_order c dom b.
Proof.
  intros Hb. destruct (ix_sorted Hix) as [Hd Hs]. rewrite <- (take_drop_middle blocks j b Hb) in Hd, Hs. rewrite concat_app in Hd, Hs. cbn [concat] in Hd, Hs. apply Forall_app in Hd as [_ Hd]. apply Forall_app in Hd as [Hd _].
  apply StronglySorted_app in Hs as (_ & _ & Hs). apply StronglySorted_app in Hs as (_ & Hs & _). by split.
Qed.

(** In block [j], at [pos]. *)
Definition in_block t (j : nat) (pos : option nat) : Prop :=
  exists b e, blocks !! j = Some b /\ index !! j = Some e /\ index_iter_ t = mkChild index (Some j) /\ data_iter_ t = Some (mkChild b pos, OK) /\ data_block_handle_ t = e.2 /\ tl_status_ t = OK.
(** The index iterator is behind the last or before the first block. *)
Definition outside t : Prop := index_iter_ t = mkChild index None /\ data_iter_ t = None /\ tl_status_ t = OK.
(** Data and index are for blocks that exist, wherever they stand. *)
Definition sound t : Prop :=
  c_entries (index_iter_ t) = index /\ tl_status_ t = OK /\
  match data_iter_ t with Some (ch, s) => s = OK /\ exists j b e, blocks !! j = Some b /\ index !! j = Some e /\ data_block_handle_ t = e.2 /\ c_entries ch = b | None => True end.
Lemma in_block_sound t j pos : in_block t j pos -> sound t.
Proof. intros (b & e & Hb & He & Hi & Hd & Hh & Hs). split; [by rewrite Hi|]. split; [done|]. rewrite Hd. split; [done|]. by exists j, b, e. Qed.
Lemma outside_sound t : outside t -> sound t.
Proof. intros (Hi & Hd & Hs). split; [by rewrite Hi|]. split; [done|]. by rewrite Hd. Qed.

(** [InitDataBlock] after the index iterator was moved. *)
Lemma init_outside t : sound t -> c_pos (index_iter_ t) = None -> outside (InitDataBlock block_function t).
Proof.
  intros (Hi & Hs & Hd) Hp. unfold InitDataBlock, child_entry. rewrite Hp. cbn [mbind option_bind]. unfold SetDataIterator, outside. cbn [index_iter_ data_iter_ tl_status_]. destruct (index_iter_ t) as [l p]. cbn in Hi, Hp. subst. split; [done|]. split; [done|].
  destruct (data_iter_ t) as [[ch s]|]; [|done]. destruct Hd as [-> _]. rewrite Hs. done.
Qed.
Lemma init_block t j : sound t -> c_pos (index_iter_ t) = Some j -> (j < length blocks)%nat -> exists pos, in_block (InitDataBlock block_function t) j pos.
Proof.
  intros (Hi & Hs & Hd) Hp Hj. destruct (lookup_lt_is_Some_2 blocks j Hj) as [b Hb]. destruct (lookup_lt_is_Some_2 index j ltac:(by rewrite (ix_len Hix))) as [e He].
  unfold InitDataBlock, child_entry. rewrite Hp. cbn [mbind option_bind]. rewrite Hi, He. destruct (index_iter_ t) as [l p] eqn:Hit. cbn in Hi, Hp. subst l p. pose proof (ix_blocks Hix j e b He Hb) as Hbf. rewrite Hbf.
  destruct (bool_decide (data_iter_ t <> None)) eqn:Hdn; cbn [andb].
  - apply bool_decide_eq_true in Hdn. destruct (data_iter_ t) as [[[bl pos] s]|] eqn:Hdt; [|done]. destruct Hd as (-> & j' & b' & e' & Hb' & He' & Hh & Hc). cbn in Hc. subst bl. destruct (bool_decide (e.2 = data_block_handle_ t)) eqn:Hsame.
    + apply bool_decide_eq_true in Hsame. exists pos, b, e. repeat (split; [done|]). split; [|done]. pose proof (ix_blocks Hix j' e' b' He' Hb') as Hbf'. rewrite <- Hh, <- Hsame, Hbf in Hbf'. injection Hbf' as <-. done.
    + exists None, b, e. unfold SetDataIterator. cbn [index_iter_ data_iter_ data_block_handle_ tl_status_]. rewrite ?Hdt, ?Hs. done.
  - exists None, b, e. unfold SetDataIterator. cbn [index_iter_ data_iter_ data_block_handle_ tl_status_]. apply bool_decide_eq_false, dec_stable in Hdn. rewrite Hdn. done.
Qed.

Definition tstands t (x : option nat) : Prop :=
  match x with Some p => exists j i b, in_block t j (Some i) /\ blocks !! j = Some b /\ (i < length b)%nat /\ p = (base j + i)%nat | None => outside t end.
Lemma tstands_sound t x : tstands t x -> sound t.
Proof. destruct x as [p|]; [intros (j & i & b & Hin & _); by eapply in_block_sound|by apply outside_sound]. Qed.
Lemma in_block_entry t j b pos : in_block t j pos -> blocks !! j = Some b -> data_entry t = pos ≫= fun i => b !! i.
Proof. intros (b' & e & Hb & _ & _ & Hd & _) Hb'. rewrite Hb' in Hb. injection Hb as <-. unfold data_entry. rewrite Hd. done. Qed.
Lemma tstands_shows t x : tstands t x -> data_entry t = (x ≫= fun p => M !! p) /\ tl_status t = OK.
Proof.
  destruct x as [p|].
  - intros (j & i & b & Hin & Hb & Hi & ->). rewrite (in_block_entry t j b (Some i) Hin Hb). cbn [mbind option_bind]. rewrite (base_lookup j b i Hb Hi). split; [done|]. destruct Hin as (b' & e & _ & _ & _ & Hd & _ & Hs). unfold tl_status. by rewrite Hd.
  - intros (_ & Hd & Hs). unfold data_entry, tl_status. by rewrite Hd.
Qed.
Lemma data_moves t j b pos m pos' : in_block t j pos -> blocks !! j = Some b -> cursor_move c b pos m = Some pos' -> exists t', move_data c m t = Some t' /\ in_block t' j pos'.
Proof.
  intros (b' & e & Hb & He & Hi & Hd & Hh & Hs) Hb' Hm. rewrite Hb' in Hb. injection Hb as <-. unfold move_data. rewrite Hd. unfold child_move. cbn [c_entries c_pos]. rewrite Hm. cbn [mbind option_bind]. eexists. split; [done|]. by exists b, e.
Qed.
Lemma outside_data t m : outside t -> move_data c m t = Some t.
Proof. intros (_ & Hd & _). unfold move_data. by rewrite Hd. Qed.
(** The index iterator is moved and the block it shows entered. *)
Lemma enter t m pos start : sound t -> cursor_move c index (c_pos (index_iter_ t)) m = Some pos -> (forall j, pos = Some j -> (j < length blocks)%nat) ->
  (forall b p, exists p', cursor_move c b p start = Some p') ->
  exists t1 t2, move_index c m t = Some t1 /\ move_data c start (InitDataBlock block_function t1) = Some t2 /\
    match pos with None => outside t2 | Some j => exists b p p', blocks !! j = Some b /\ cursor_move c b p start = Some p' /\ in_block t2 j p' end.
Proof.
  intros (Hi & Hs & Hd) Hm Hpos Hstart. unfold move_index, child_move. rewrite Hi, Hm. cbn [mbind option_bind]. set (t1 := mkTwoLevel _ _ _ _). assert (sound t1) as Hs1 by (by repeat split). destruct pos as [j|].
  - destruct (init_block t1 j Hs1 eq_refl (Hpos j eq_refl)) as (p & Hin). pose proof Hin as (b & e & Hb & _). destruct (Hstart b p) as [p' Hp']. destruct (data_moves _ j b p start p' Hin Hb Hp') as (t2 & Ht2 & Hin2). exists t1, t2. split; [done|]. split; [done|]. by exists b, p, p'.
  - pose proof (init_outside t1 Hs1 eq_refl) as Ho. exists t1, (InitDataBlock block_function t1). split; [done|]. split; [by apply outside_data|done].
Qed.

Lemma skip_outside step start n t : outside t -> exists t', skip_loop c block_function step start (S n) t = Some t' /\ outside t'.
Proof.
  intros (Hi & Hd & Hs). cbn [skip_loop]. rewrite bool_decide_false by (unfold data_entry; rewrite Hd; intros H; by apply H). rewrite bool_decide_true by (by rewrite Hi). eexists. split; [done|]. unfold SetDataIterator. rewrite Hd. by split.
Qed.
Lemma skip_here step start n t j i b : in_block t j (Some i) -> blocks !! j = Some b -> (i < length b)%nat -> skip_loop c block_function step start (S n) t = Some t /\ tstands t (Some (base j + i)%nat).
Proof.
  intros Hin Hb Hi. split; [|by exists j, i, b]. cbn [skip_loop]. rewrite bool_decide_true; [done|]. rewrite (in_block_entry t j b _ Hin Hb). cbn. destruct (lookup_lt_is_Some_2 b i Hi) as [x ->]. done.
Qed.
Lemma in_block_lt t j pos : in_block t j pos -> (j < length blocks)%nat.
Proof. intros (b & _ & Hb & _). by apply lookup_lt_Some in Hb. Qed.
Lemma base_le j : (base j <= length M)%nat.
Proof. unfold base. rewrite <- (take_drop j blocks) at 2. rewrite concat_app, length_app. lia. Qed.

Lemma skip_forward fuel t j : in_block t j None -> (length blocks - j < fuel)%nat ->
  exists t', skip_loop c block_function Forward ToFirst fuel t = Some t' /\ tstands t' (if (base (S j) <? length M)%nat then Some (base (S j)) else None).
Proof.
  revert t j. induction fuel as [|n IH]; intros t j Hin Hf; [lia|]. pose proof Hin as (b & e & Hb & He & Hi & _). pose proof (in_block_lt t j None Hin) as Hj. cbn [skip_loop].
  rewrite bool_decide_false by (rewrite (in_block_entry t j b None Hin Hb); intros H; by apply H). rewrite bool_decide_false by (rewrite Hi; unfold child_entry; cbn; by rewrite He).
  destruct (enter t Forward (if (S j <? length index)%nat then Some (S j) else None) ToFirst (in_block_sound t j None Hin)) as (t1 & t2 & -> & Ht2 & Hcase); [by rewrite Hi|rewrite (ix_len Hix); intros q; destruct (Nat.ltb_spec (S j) (length blocks)); [by intros [= <-]|done]|by eexists|].
  cbn [mbind option_bind]. rewrite Ht2. cbn [mbind option_bind]. rewrite (ix_len Hix) in Hcase. destruct (Nat.ltb_spec (S j) (length blocks)) as [Hlt|Hge].
  - destruct Hcase as (b' & p & p' & Hb' & Hp' & Hin'). injection Hp' as <-. destruct n as [|n]; [lia|]. destruct b' as [|x b'].
    + destruct (IH t2 (S j) Hin' ltac:(lia)) as (t' & Ht' & Hst). exists t'. split; [done|]. rewrite (base_S (S j) [] Hb') in Hst. cbn [length] in Hst. by rewrite Nat.add_0_r in Hst.
    + destruct (skip_here Forward ToFirst n t2 (S j) 0 (x :: b') Hin' Hb' ltac:(cbn; lia)) as [-> Hst]. exists t2. split; [done|]. rewrite Nat.add_0_r in Hst. pose proof (base_S (S j) _ Hb') as HbS. pose proof (base_le (S (S j))). cbn [length] in HbS. by rewrite (proj2 (Nat.ltb_lt _ _)) by lia.
  - destruct n as [|n]; [lia|]. destruct (skip_outside Forward ToFirst n t2 Hcase) as (t' & -> & Ho). exists t'. split; [done|]. replace (S j) with (length blocks) by lia. by rewrite base_all, Nat.ltb_irrefl.
Qed.
Lemma skip_backward fuel t j : in_block t j None -> (S j < fuel)%nat ->
  exists t', skip_loop c block_function Back ToLast fuel t = Some t' /\ tstands t' (match base j with O => None | S p => Some p end).
Proof.
  revert t j. induction fuel as [|n IH]; intros t j Hin Hf; [lia|]. pose proof Hin as (b & e & Hb & He & Hi & _). pose proof (in_block_lt t j None Hin) as Hj. cbn [skip_loop].
  rewrite bool_decide_false by (rewrite (in_block_entry t j b None Hin Hb); intros H; by apply H). rewrite bool_decide_false by (rewrite Hi; unfold child_entry; cbn; by rewrite He).
  destruct (enter t Back (match j with O => None | S i => Some i end) ToLast (in_block_sound t j None Hin)) as (t1 & t2 & -> & Ht2 & Hcase); [by rewrite Hi|intros q Hq; destruct j; [done|]; injection Hq as <-; lia|by eexists|].
  cbn [mbind option_bind]. rewrite Ht2. cbn [mbind option_bind]. destruct n as [|n]; [lia|]. destruct j as [|j].
  - destruct (skip_outside Back ToLast n t2 Hcase) as (t' & -> & Ho). by exists t'.
  - destruct Hcase as (b' & p & p' & Hb' & Hp' & Hin'). injection Hp' as <-. pose proof (base_S j _ Hb') as HbS. destruct b' as [|x b'].
    + destruct (IH t2 j Hin' ltac:(lia)) as (t' & Ht' & Hst). exists t'. split; [done|]. rewrite HbS. cbn [length]. by rewrite Nat.add_0_r.
    + destruct (skip_here Back ToLast n t2 j (length (x :: b') - 1) (x :: b') Hin' Hb' ltac:(cbn; lia)) as [-> Hst]. exists t2. split; [done|]. rewrite HbS. cbn [length] in *. rewrite Nat.sub_1_r in Hst. cbn [Nat.pred] in Hst. by rewrite Nat.add_succ_r.
Qed.

Lemma skips_forward t j b pos : in_block t j pos -> blocks !! j = Some b -> (forall i, pos = Some i -> (i < length b)%nat) ->
  exists t', SkipEmptyDataBlocksForward c block_function t = Some t' /\ tstands t' (match pos with Some i => Some (base j + i)%nat | None => if (base (S j) <? length M)%nat then Some (base (S j)) else None end).
Proof.
  intros Hin Hb Hp. unfold SkipEmptyDataBlocksForward. assert (c_entries (index_iter_ t) = index) as -> by (by apply (in_block_sound t j pos)). destruct pos as [i|].
  - exists t. by apply skip_here with (b := b); [| |apply Hp].
  - apply skip_forward; [done|]. rewrite (ix_len Hix). lia.
Qed.
Lemma skips_backward t j b pos : in_block t j pos -> blocks !! j = Some b -> (forall i, pos = Some i -> (i < length b)%nat) ->
  exists t', SkipEmptyDataBlocksBackward c block_function t = Some t' /\ tstands t' (match pos with Some i => Some (base j + i)%nat | None => match base j with O => None | S p => Some p end end).
Proof.
  intros Hin Hb Hp. unfold SkipEmptyDataBlocksBackward. assert (c_entries (index_iter_ t) = index) as -> by (by apply (in_block_sound t j pos)). destruct pos as [i|].
  - exists t. by apply skip_here with (b := b); [| |apply Hp].
  - apply skip_backward; [done|]. rewrite (ix_len Hix). apply in_block_lt in Hin. lia.
Qed.
Lemma first_at_lt P `{!forall k, Decision (P k)} (l : list (bytes * bytes)) i : first_at P l = Some i -> (i < length l)%nat.
Proof. unfold first_at. destruct (Nat.ltb_spec (lows P l) (length l)); [by intros [= <-]|done]. Qed.

Lemma tl_SeekToFirst_spec t : sound t -> exists t', tl_SeekToFirst c block_function t = Some t' /\ tstands t' (match M with [] => None | _ => Some 0%nat end).
Proof.
  intros Hs. unfold tl_SeekToFirst. destruct (enter t ToFirst (match index with [] => None | _ => Some 0%nat end) ToFirst Hs) as (t1 & t2 & -> & Ht2 & Hcase); [done|intros j; rewrite <- (ix_len Hix); destruct index; [done|]; intros [= <-]; cbn; lia|by eexists|].
  cbn [mbind option_bind]. rewrite Ht2. cbn [mbind option_bind]. pose proof (ix_len Hix) as Hlen. destruct index as [|e idx].
  - destruct (skip_outside Forward ToFirst (S (length (c_entries (index_iter_ t2)))) t2 Hcase) as (t' & Ht' & Ho). exists t'. split; [done|]. destruct blocks; [done|discriminate Hlen].
  - destruct Hcase as (b & p & p' & Hb & Hp & Hin). injection Hp as <-. destruct (skips_forward t2 0 b _ Hin Hb) as (t' & Ht' & Hst); [intros i; destruct b; [done|]; intros [= <-]; cbn; lia|]. exists t'. split; [done|].
    rewrite (base_S 0 b Hb) in Hst. change (base 0) with 0%nat in Hst. cbn [Nat.add] in Hst. destruct blocks as [|b0 bl]; [done|]. injection Hb as ->. destruct b as [|x b]; [|done]. cbn [concat length app] in *. by destruct (concat bl).
Qed.
Lemma tl_SeekToLast_spec t : sound t -> exists t', tl_SeekToLast c block_function t = Some t' /\ tstands t' (match M with [] => None | _ => Some (length M - 1)%nat end).
Proof.
  intros Hs. unfold tl_SeekToLast. destruct (enter t ToLast (match index with [] => None | _ => Some (length index - 1)%nat end) ToLast Hs) as (t1 & t2 & -> & Ht2 & Hcase); [done|intros j; rewrite <- (ix_len Hix); destruct index; [done|]; intros [= <-]; cbn; lia|by eexists|].
  cbn [mbind option_bind]. rewrite Ht2. cbn [mbind option_bind]. pose proof (ix_len Hix) as Hlen. destruct index as [|e idx] eqn:Hidx.
  - destruct (skip_outside Back ToLast (S (length (c_entries (index_iter_ t2)))) t2 Hcase) as (t' & Ht' & Ho). exists t'. split; [done|]. destruct blocks; [done|discriminate Hlen].
  - rewrite <- Hidx in *. destruct Hcase as (b & p & p' & Hb & Hp & Hin). injection Hp as <-. assert (S (length index - 1) = length blocks) as HSl by (rewrite Hidx in *; cbn [length] in *; lia).
    destruct (skips_backward t2 _ b _ Hin Hb) as (t' & Ht' & Hst); [intros i; destruct b; [done|]; intros [= <-]; cbn; lia|]. exists t'. split; [done|]. pose proof (base_S _ b Hb) as HbS. rewrite HSl, base_all in HbS. destruct b as [|x b]; cbn [length] in *.
    + rewrite Nat.add_0_r in HbS. rewrite <- HbS in Hst. destruct M; [done|]. cbn [length] in *. by rewrite Nat.sub_1_r.
    + destruct M as [|y k]; [cbn [length] in HbS; lia|]. rewrite HbS. by replace (base (length index - 1) + S (length b) - 1)%nat with (base (length index - 1) + (S (length b) - 1))%nat by lia.
Qed.

(** How many entries of all blocks are below a target. *)
Lemma lows_app P `{!forall k, Decision (P k)} (a b : list (bytes * bytes)) : lows P (a ++ b) = (lows P a + lows P b)%nat.
Proof. unfold lows. by rewrite filter_app, length_app. Qed.
Lemma lows_none P `{!forall k, Decision (P k)} (l : list (bytes * bytes)) : (forall x, x ∈ l -> ~ P x.1) -> lows P l = 0%nat.
Proof. intros Hn. apply lows_prefix; [lia|]. intros j y Hy. split; [intros Hp; exfalso; eapply Hn; [by eapply list_elem_of_lookup_2|done]|lia]. Qed.
Lemma lows_every P `{!forall k, Decision (P k)} (l : list (bytes * bytes)) : (forall x, x ∈ l -> P x.1) -> lows P l = length l.
Proof. intros Hn. apply lows_prefix; [lia|]. intros j y Hy. split; [intros _; by apply lookup_lt_Some in Hy|intros _; apply Hn; by eapply list_elem_of_lookup_2]. Qed.
Lemma in_blocks x (bl : list (list (bytes * bytes))) : x ∈ concat bl -> exists j b, bl !! j = Some b /\ x ∈ b.
Proof. intros Hx. apply list_elem_of_In, in_concat in Hx as (b & Hb & Hx). apply list_elem_of_In in Hb, Hx. apply list_elem_of_lookup_1 in Hb as [j Hj]. by exists j, b. Qed.
Lemma index_dom j e : index !! j = Some e -> dom e.1.
Proof. intros He. eapply in_order_dom; [apply (ix_order Hix)|by eapply list_elem_of_lookup_2]. Qed.
Lemma block_dom j b x : blocks !! j = Some b -> x ∈ b -> dom x.1.
Proof. intros Hb Hx. eapply in_order_dom; [by eapply block_in_order|done]. Qed.
Lemma low_block k j e b x : dom k -> index !! j = Some e -> blocks !! j = Some b -> x ∈ b -> below_key c k e.1 -> below_key c k x.1.
Proof.
  intros Hk He Hb Hx Hlt. pose proof (ix_upto Hix j e b x He Hb Hx) as Hle. pose proof (index_dom j e He) as Hde. pose proof (block_dom j b x Hb Hx) as Hdx. destruct (Z.eq_dec (Compare c x.1 e.1) 0) as [E|].
  - apply (cmp_eq (c := c) (dom := dom)) in E; [|done..]. by rewrite E.
  - unfold below_key in *. apply (cmp_trans (c := c) x.1 e.1 k); [done..|lia|done].
Qed.
Lemma index_low k j e : dom k -> index !! j = Some e -> (below_key c k e.1 <-> (j < lows (below_key c k) index)%nat).
Proof. intros Hk He. apply (cut_index c dom index (ix_order Hix)); [by apply below_closed|done]. Qed.
Lemma lows_blocks k j b : dom k -> blocks !! j = Some b -> lows (below_key c k) index = j -> lows (below_key c k) M = (base j + lows (below_key c k) b)%nat.
Proof.
  intros Hk Hb Hl. rewrite <- (take_drop_middle blocks j b Hb) at 1. rewrite concat_app. cbn [concat]. rewrite !lows_app. rewrite (lows_every _ (concat (take j blocks))), (lows_none _ (concat (drop (S j) blocks))); [unfold base; lia|..].
  - intros x Hx Hlow. apply in_blocks in Hx as (q & b' & Hq & Hx). rewrite lookup_drop in Hq. destruct (lookup_lt_is_Some_2 index j) as [e He]; [rewrite (ix_len Hix); by apply lookup_lt_Some in Hb|].
    pose proof (ix_behind Hix j (S j + q) e b' x He Hq ltac:(lia) Hx) as Hbe. assert (below_key c k e.1) as Hlow'; [|apply (index_low k j e Hk He) in Hlow'; lia].
    unfold below_key in *. apply (cmp_trans (c := c) e.1 x.1 k); [by eapply index_dom|by eapply block_dom|done..].
  - intros x Hx. apply in_blocks in Hx as (q & b' & Hq & Hx). apply lookup_take_Some in Hq as [Hq Hqj]. destruct (lookup_lt_is_Some_2 index q) as [e He]; [rewrite (ix_len Hix); by apply lookup_lt_Some in Hq|].
    eapply low_block; [done|exact He|exact Hq|done|]. apply (index_low k q e Hk He). lia.
Qed.
Lemma tl_Seek_spec t k : dom k -> sound t -> exists t', tl_Seek c block_function k t = Some t' /\ tstands t' (fst <$> list_find (fun x => 0 <= Compare c x.1 k) M).
Proof.
  intros Hk Hs. unfold tl_Seek. destruct (enter t (ToKey k) (first_at (below_key c k) index) (ToKey k) Hs) as (t1 & t2 & -> & Ht2 & Hcase).
  - cbn [cursor_move]. by rewrite (find_first_at c dom index k (ix_order Hix) Hk).
  - intros j Hj. rewrite <- (ix_len Hix). by eapply first_at_lt.
  - by eexists.
  - cbn [mbind option_bind]. rewrite Ht2. cbn [mbind option_bind]. rewrite (find_first_at c dom M k (ix_sorted Hix) Hk). unfold first_at in Hcase. pose proof (lows_le (below_key c k) index) as Hle. destruct (Nat.ltb_spec (lows (below_key c k) index) (length index)) as [Hlt|Hge].
    + destruct Hcase as (b & p & p' & Hb & Hp & Hin). cbn [cursor_move] in Hp. injection Hp as <-. rewrite (find_first_at c dom b k (block_in_order _ b Hb) Hk) in Hin. destruct (skips_forward t2 _ b _ Hin Hb) as (t' & Ht' & Hst); [intros i; apply first_at_lt|].
      exists t'. split; [done|]. unfold first_at in *. rewrite (lows_blocks k _ b Hk Hb eq_refl). pose proof (base_S _ b Hb) as HbS. pose proof (base_le (S (lows (below_key c k) index))) as HbL. pose proof (lows_le (below_key c k) b).
      destruct (Nat.ltb_spec (lows (below_key c k) b) (length b)) as [Hb1|Hb1]; [by rewrite (proj2 (Nat.ltb_lt _ _)) by lia|]. replace (lows (below_key c k) b) with (length b) by lia. by rewrite <- HbS.
    + destruct (skip_outside Forward ToFirst (S (length (c_entries (index_iter_ t2)))) t2 Hcase) as (t' & Ht' & Ho). exists t'. split; [done|]. unfold first_at. rewrite (lows_every (below_key c k) M); [by rewrite Nat.ltb_irrefl|].
      intros x Hx. apply in_blocks in Hx as (q & b & Hq & Hx). destruct (lookup_lt_is_Some_2 index q) as [e He]; [rewrite (ix_len Hix); by apply lookup_lt_Some in Hq|]. eapply low_block; [done|exact He|exact Hq|done|]. apply (index_low k q e Hk He). apply lookup_lt_Some in He. lia.
Qed.

Lemma tl_Next_spec t p : tstands t (Some p) -> exists t', tl_Next c block_function t = Some t' /\ tstands t' (if (S p <? length M)%nat then Some (S p) else None).
Proof.
  intros Hst. destruct Hst as (j & i & b & Hin & Hb & Hi & ->). unfold tl_Next. rewrite bool_decide_true by (rewrite (in_block_entry t j b _ Hin Hb); cbn; by destruct (lookup_lt_is_Some_2 b i Hi) as [x ->]).
  destruct (data_moves t j b (Some i) Forward (if (S i <? length b)%nat then Some (S i) else None) Hin Hb eq_refl) as (t1 & -> & Hin1). cbn [mbind option_bind]. pose proof (base_S j b Hb) as HbS. pose proof (base_le (S j)) as HbL.
  destruct (skips_forward t1 j b _ Hin1 Hb) as (t' & Ht' & Hst); [intros q; destruct (Nat.ltb_spec (S i) (length b)); [by intros [= <-]|done]|]. exists t'. split; [done|]. destruct (Nat.ltb_spec (S i) (length b)) as [Hlt|Hge].
  - rewrite (proj2 (Nat.ltb_lt _ _)) by lia. by rewrite <- Nat.add_succ_r.
  - by replace (S (base j + i)) with (base (S j)) by lia.
Qed.
Lemma tl_Prev_spec t p : tstands t (Some p) -> exists t', tl_Prev c block_function t = Some t' /\ tstands t' (match p with O => None | S p => Some p end).
Proof.
  intros Hst. destruct Hst as (j & i & b & Hin & Hb & Hi & ->). unfold tl_Prev. rewrite bool_decide_true by (rewrite (in_block_entry t j b _ Hin Hb); cbn; by destruct (lookup_lt_is_Some_2 b i Hi) as [x ->]).
  destruct (data_moves t j b (Some i) Back (match i with O => None | S i => Some i end) Hin Hb eq_refl) as (t1 & -> & Hin1). cbn [mbind option_bind].
  destruct (skips_backward t1 j b _ Hin1 Hb) as (t' & Ht' & Hst); [intros q; destruct i; [done|]; intros [= <-]; lia|]. exists t'. split; [done|]. destruct i; [by rewrite Nat.add_0_r|]. by rewrite Nat.add_succ_r.
Qed.
#[export] Instance two_level_cursor : CursorLaws c M (move_in dom) (tl_move c block_function) tstands.
Proof using All.
  intros t x m Hst Hm. pose proof (tstands_sound t x Hst) as Hs. destruct m as [| |k| |]; cbn [cursor_move tl_move].
  - by apply tl_SeekToFirst_spec.
  - by apply tl_SeekToLast_spec.
  - by apply tl_Seek_spec.
  - destruct x as [p|]; [by apply tl_Next_spec|]. unfold tl_Next. destruct (tstands_shows t None Hst) as [-> _]. by rewrite bool_decide_false by (intros H; by apply H).
  - destruct x as [p|]; [by apply tl_Prev_spec|]. unfold tl_Prev. destruct (tstands_shows t None Hst) as [-> _]. by rewrite bool_decide_false by (intros H; by apply H).
Qed.

(** The iterator over a table behaves, under any sequence of SeekToFirst,
    SeekToLast, Seek, Next and Prev, as a cursor in the entries of all blocks,
    one after the other: whenever the key of an index entry is at or behind
    the keys of its block and before those of the next ones, it is valid just
    where the cursor stands at an entry and shows it, also with empty blocks,
    and its status stays OK. *)
Theorem two_level_is_cursor ms : Forall (move_in dom) ms ->
  match cursor_run c M None ms with
  | Some x => exists t, tl_run c block_function (newTwoLevelIterator (mkChild index None)) ms = Some t /\ data_entry t = (x ≫= fun p => M !! p) /\ tl_status t = OK
  | None => tl_run c block_function (newTwoLevelIterator (mkChild index None)) ms = None
  end.
Proof using All.
  intros Hms. pose proof (cursor_runs c M (move_in dom) (tl_move c block_function) tstands ms (newTwoLevelIterator (mkChild index None)) None ltac:(done) Hms) as Hr. fold (tl_run c block_function (newTwoLevelIterator (mkChild index None)) ms) in Hr.
  destruct (cursor_run c M None ms) as [x|]; [|done]. destruct Hr as (t & Ht & Hst). exists t. split; [done|]. by apply tstands_shows.
Qed.
End Refine.

Definition two_level_index : list (bytes * bytes) := [([Byte.x62], [Byte.x01]); ([Byte.x63], [Byte.x02]); ([Byte.x65], [Byte.x03])].
Definition two_level_blocks : list (list (bytes * bytes)) := [[([Byte.x61], [Byte.x11])]; []; [([Byte.x64], [Byte.x14])]].
Definition two_level_function (handle : bytes) : list (bytes * bytes) * LStatus :=
  if decide (handle = [Byte.x01]) then ([([Byte.x61], [Byte.x11])], OK) else if decide (handle = [Byte.x03]) then ([([Byte.x64], [Byte.x14])], OK) else ([], OK).
Lemma two_level_example : indexed_by BytewiseComparator (fun _ => True) two_level_function two_level_index two_level_blocks.
Proof.
  split; [done| |by repeat constructor|by repeat constructor| |].
  - intros [|[|[|j]]] e b He Hb; try done; cbn in He, Hb; injection He as <-; injection Hb as <-; by vm_compute.
  - intros [|[|[|j]]] e b x He Hb Hx; try done; cbn in He, Hb; injection He as <-; injection Hb as <-; try (by apply not_elem_of_nil in Hx); apply list_elem_of_singleton in Hx as ->; by vm_compute.
  - intros [|[|[|j]]] [|[|[|j']]] e b x He Hb Hj Hx; try done; try lia; cbn in He, Hb; injection He as <-; injection Hb as <-; try (by apply not_elem_of_nil in Hx); apply list_elem_of_singleton in Hx as ->; by vm_compute.
Qed.
Lemma two_level_is_cursor_witness :
  exists t, tl_run BytewiseComparator two_level_function (newTwoLevelIterator (mkChild two_level_index None)) [ToKey [Byte.x62]; Back; Forward] = Some t /\ data_entry t = Some ([Byte.x64], [Byte.x14]).
Proof.
  pose proof (two_level_is_cursor BytewiseComparator (fun _ => True) two_level_function two_level_index two_level_blocks two_level_example [ToKey [Byte.x62]; Back; Forward] ltac:(repeat constructor)) as H.
  assert (cursor_run BytewiseComparator (concat two_level_blocks) None [ToKey [Byte.x62]; Back; Forward] = Some (Some 1%nat)) as Hc by (vm_compute; reflexivity). rewrite Hc in H. destruct H as (t & Ht & Hd & _). exists t. split; [exact Ht|exact Hd].
Defined.
