(* ===== verification/FilterBlock.v ===== *)
(** * The filter block of a table: table/filter_block.cc

    [FilterPolicy] is the interface of include/leveldb/filter_policy.h, with the
    Bloom filter of [Bloom] and its wrapper for internal keys as instances. *)

From S2P Require Import Prelude CommonData Coding Bloom DbFormat.

(** ** Policies *)

Record FilterPolicy : Type := mkPolicy { policy_Name : bytes; policy_CreateFilter : list bytes -> bytes -> bytes; policy_KeyMayMatch : bytes -> bytes -> bool }.

(** What filter_policy.h promises, for at most [limit] keys: a filter is
    appended, and matches what is the [same] as one of its keys.  A filter does
    not fill the address space. *)
Class FilterLaws (p : FilterPolicy) (same : bytes -> bytes -> Prop) (limit : Z) : Prop := {
  create_appends keys dst : dst `prefix_of` policy_CreateFilter p keys dst;
  create_small keys dst : zlen keys <= limit -> zlen (policy_CreateFilter p keys dst) <= zlen dst + 2 ^ 40;
  create_matches keys dst key key' : zlen keys <= limit -> key' ∈ keys -> same key key' -> policy_KeyMayMatch p key (drop (length dst) (policy_CreateFilter p keys dst)) = true
}.

Definition bloom_policy (name : bytes) (p : BloomFilterPolicy) : FilterPolicy := mkPolicy name (CreateFilter p) KeyMayMatch.
Definition internal_policy (name : bytes) (p : BloomFilterPolicy) : FilterPolicy := mkPolicy name (internal_CreateFilter p) internal_KeyMayMatch.

Lemma length_set_loop k h delta bits a : length (set_loop k h delta bits a) = length a.
Proof. revert h a. induction k as [|k IH]; intros h a; [done|]. cbn [set_loop]. by rewrite IH, length_set_bit. Qed.
Lemma CreateFilter_size p keys dst : 0 <= bits_per_key_ p -> zlen keys * bits_per_key_ p < 2 ^ 42 -> zlen (CreateFilter p keys dst) <= zlen dst + 2 ^ 40.
Proof.
  intros Hb Hs. unfold CreateFilter. rewrite zlen_app. assert (forall bits a, length (fold_left (add_key p bits) keys a) = length a) as Hl.
  { intros bits. induction keys as [|k keys IH]; intros a; [done|]. cbn [fold_left]. rewrite IH; [apply length_set_loop|]. rewrite zlen_cons in Hs. lia. }
  unfold zlen at 2. rewrite Hl, length_app, length_replicate. cbn [length]. pose proof (zlen_nonneg keys). rewrite (u64_small (zlen keys * _)) by (unfold is_u64; nia).
  set (b := if _ <? 64 then 64 else _). assert (0 <= b < 2 ^ 42) as Hr by (unfold b; destruct (Z.ltb_spec (zlen keys * bits_per_key_ p) 64); nia). rewrite u64_small by (unfold is_u64; lia).
  assert (0 <= (b + 7) / 8 < 2 ^ 40 - 1) as Hq by (split; [apply Z.div_pos; lia|apply Z.div_lt_upper_bound; lia]). lia.
Qed.

Section Bloom.
Context (name : bytes) (p : BloomFilterPolicy) (limit : Z) (Hk : 1 <= k_ p <= 30) (Hb : 0 <= bits_per_key_ p) (Hlimit : limit * bits_per_key_ p < 2 ^ 42).
Lemma bloom_policy_laws : FilterLaws (bloom_policy name p) eq limit.
Proof using Hk Hb Hlimit.
  split; cbn [policy_CreateFilter policy_KeyMayMatch bloom_policy].
  - intros keys dst. eexists. reflexivity.
  - intros keys dst Hn. apply CreateFilter_size; [done|nia].
  - intros keys dst key ? Hn Hin <-. apply bloom_no_false_negatives; [done..|nia|done].
Qed.
Lemma internal_policy_laws : FilterLaws (internal_policy name p) (fun a b => ExtractUserKey a = ExtractUserKey b) limit.
Proof using Hk Hb Hlimit.
  assert (forall keys : list bytes, zlen (map ExtractUserKey keys) = zlen keys) as E by (intros keys; unfold zlen; by rewrite length_map).
  split; cbn [policy_CreateFilter policy_KeyMayMatch internal_policy].
  - intros keys dst. eexists. reflexivity.
  - intros keys dst Hn. apply CreateFilter_size; [done|]. rewrite E. nia.
  - intros keys dst key key' Hn Hin He. unfold internal_KeyMayMatch, internal_CreateFilter. apply bloom_no_false_negatives; [done..|rewrite E; nia|]. rewrite He. by apply list_elem_of_fmap_2.
Qed.
End Bloom.

(** ** [FilterBlockBuilder] *)

Definition kFilterBaseLg : Z := 11.
Definition kFilterBase : Z := Z.shiftl 1 kFilterBaseLg.

Record FilterBlockBuilder : Type := mkFilterBuilder { fb_keys_ : bytes; fb_start_ : list nat; fb_result_ : bytes; filter_offsets_ : list Z }.
Definition newFilterBlockBuilder : FilterBlockBuilder := mkFilterBuilder [] [] [] [].

Section Builder.
Context (policy_ : FilterPolicy).
Implicit Types b : FilterBlockBuilder.

Definition GenerateFilter b : FilterBlockBuilder :=
  let num_keys := length (fb_start_ b) in
  if (num_keys =? 0)%nat then mkFilterBuilder (fb_keys_ b) (fb_start_ b) (fb_result_ b) (filter_offsets_ b ++ [u32 (zlen (fb_result_ b))])
  else
    let start := fb_start_ b ++ [length (fb_keys_ b)] in
    let tmp_keys := map (fun i => take (nth (i + 1) start 0%nat - nth i start 0%nat) (drop (nth i start 0%nat) (fb_keys_ b))) (seq 0 num_keys) in
    let filter_offsets := filter_offsets_ b ++ [u32 (zlen (fb_result_ b))] in
    mkFilterBuilder [] [] (policy_CreateFilter policy_ tmp_keys (fb_result_ b)) filter_offsets.

Fixpoint generate_loop (fuel : nat) (filter_index : Z) b : option FilterBlockBuilder :=
  match fuel with
  | O => None
  | S n => if zlen (filter_offsets_ b) <? filter_index then generate_loop n filter_index (GenerateFilter b) else Some b
  end.
(** [None] if the assertion fails. *)
Definition StartBlock (block_offset : Z) b : option FilterBlockBuilder :=
  let filter_index := block_offset / kFilterBase in
  if zlen (filter_offsets_ b) <=? filter_index then generate_loop (S (Z.to_nat filter_index)) filter_index b else None.
Definition AddKey (key : bytes) b : FilterBlockBuilder :=
  mkFilterBuilder (fb_keys_ b ++ key) (fb_start_ b ++ [length (fb_keys_ b)]) (fb_result_ b) (filter_offsets_ b).
Definition filter_Finish b : bytes :=
  let b := if decide (fb_start_ b = []) then b else GenerateFilter b in
  let array_offset := u32 (zlen (fb_result_ b)) in
  let result := foldl (fun r o => PutFixed32 r o) (fb_result_ b) (filter_offsets_ b) in
  PutFixed32 result array_offset ++ [byte_of kFilterBaseLg].

(** ** [FilterBlockReader] *)

Record FilterBlockReader : Type := mkFilterReader { fr_data_ : bytes; fr_offset_ : Z; fr_num_ : Z; base_lg_ : Z }.
Definition newFilterBlockReader (contents : bytes) : FilterBlockReader :=
  let n := zlen contents in
  if n <? 5 then mkFilterReader [] 0 0 0
  else
    let base_lg := char_size (nth (length contents - 1) contents Byte.x00) in
    let last_word := DecodeFixed32 (drop (length contents - 5) contents) in
    if n - 5 <? last_word then mkFilterReader [] 0 0 base_lg
    else mkFilterReader contents last_word ((n - 5 - last_word) / 4) base_lg.
Definition reader_KeyMayMatch (r : FilterBlockReader) (block_offset : Z) (key : bytes) : bool :=
  let index := Z.shiftr block_offset (base_lg_ r) in
  if index <? fr_num_ r then
    let start := DecodeFixed32 (drop (Z.to_nat (fr_offset_ r + index * 4)) (fr_data_ r)) in
    let limit := DecodeFixed32 (drop (Z.to_nat (fr_offset_ r + index * 4 + 4)) (fr_data_ r)) in
    if (start <=? limit) && (limit <=? fr_offset_ r) then policy_KeyMayMatch policy_ key (take (Z.to_nat (limit - start)) (drop (Z.to_nat start) (fr_data_ r)))
    else if start =? limit then false else true
  else true.
End Builder.

(** ** The filters of a block *)

Section Facts.
Context (p : FilterPolicy) (same : bytes -> bytes -> Prop) (limit : Z) `{!FilterLaws p same limit}.
Implicit Types (b : FilterBlockBuilder) (gs : list (list bytes)) (ks : list bytes).

Definition starts ks (n : nat) : list nat := map (fun i => length (concat (take i ks))) (seq 0 n).
Lemma starts_snoc ks k : starts (ks ++ [k]) (length (ks ++ [k])) = starts ks (length ks) ++ [length (concat ks)].
Proof.
  unfold starts. rewrite length_app, Nat.add_1_r, seq_S, map_app. cbn [map Nat.add]. f_equal; [|by rewrite take_app_length].
  apply map_ext_in. intros i Hi%in_seq. rewrite take_app_le by lia. done.
Qed.
Lemma starts_last ks : starts ks (length ks) ++ [length (concat ks)] = starts ks (S (length ks)).
Proof. unfold starts. rewrite seq_S, map_app. cbn [map Nat.add]. by rewrite firstn_all. Qed.
Lemma length_starts ks n : length (starts ks n) = n.
Proof. unfold starts. by rewrite length_map, length_seq. Qed.
Lemma nth_starts ks n i : (i < n)%nat -> nth i (starts ks n) 0%nat = length (concat (take i ks)).
Proof. intros Hi. unfold starts. apply nth_lookup_Some. rewrite list_lookup_fmap, lookup_seq_lt by done. done. Qed.
Lemma split_keys ks : map (fun i => take (nth (i + 1) (starts ks (S (length ks))) 0%nat - nth i (starts ks (S (length ks))) 0%nat) (drop (nth i (starts ks (S (length ks))) 0%nat) (concat ks))) (seq 0 (length ks)) = ks.
Proof.
  apply list_eq. intros i. rewrite list_lookup_fmap. destruct (decide (i < length ks)%nat) as [Hi|Hi].
  - rewrite lookup_seq_lt by done. cbn [fmap option_fmap option_map Nat.add]. destruct (lookup_lt_is_Some_2 ks i Hi) as [k Hk]. rewrite Hk. f_equal.
    rewrite !nth_starts by lia. rewrite Nat.add_1_r, (take_S_r _ _ _ Hk), concat_app. cbn [concat]. rewrite app_nil_r, length_app. replace (_ + length k - _)%nat with (length k) by lia.
    rewrite <- (take_drop_middle ks i k Hk) at 2. rewrite concat_app, drop_app_length. cbn [concat]. by rewrite take_app_length.
  - rewrite lookup_seq_ge by lia. symmetry. apply lookup_ge_None. lia.
Qed.

(** The groups of keys that got a filter, with what was written for them. *)
Inductive generated : list (list bytes) -> bytes -> list Z -> Prop :=
  | generated_nil : generated [] [] []
  | generated_snoc gs r offs g : generated gs r offs -> generated (gs ++ [g]) (if decide (g = []) then r else policy_CreateFilter p g r) (offs ++ [zlen r]).
Lemma generated_length gs r offs : generated gs r offs -> length offs = length gs.
Proof. induction 1 as [|gs r offs g _ IH]; [done|]. rewrite !length_app. cbn. lia. Qed.

Lemma generated_bound gs r offs i o : generated gs r offs -> offs !! i = Some o -> 0 <= o <= zlen r.
Proof using All.
  induction 1 as [|gs r offs h Hgen IH]; [done|]. assert (zlen r <= zlen (if decide (h = []) then r else policy_CreateFilter p h r)) as Hle.
  { case_decide; [done|]. destruct (create_appends h r) as [x ->]. rewrite zlen_app. pose proof (zlen_nonneg x). lia. }
  intros [[_ Hi]|[_ <-]]%lookup_snoc_Some; [specialize (IH Hi); lia|]. pose proof (zlen_nonneg r). lia.
Qed.

Record filters b gs ks : Prop := mkFilters {
  flt_made : exists offs, generated gs (fb_result_ b) offs /\ filter_offsets_ b = map u32 offs;
  flt_keys : fb_keys_ b = concat ks; flt_starts : fb_start_ b = starts ks (length ks)
}.
Lemma filters_count b gs ks : filters b gs ks -> zlen (filter_offsets_ b) = zlen gs.
Proof. intros [(offs & Hg & ->) _ _]. unfold zlen. by rewrite length_map, (generated_length _ _ _ Hg). Qed.
Lemma newFilterBlockBuilder_filters : filters newFilterBlockBuilder [] [].
Proof. split; [|done..]. exists []. split; [constructor|done]. Qed.
Lemma AddKey_filters k b gs ks : filters b gs ks -> filters (AddKey k b) gs (ks ++ [k]).
Proof.
  intros [Hm Hk Hs]. split; cbn [AddKey fb_keys_ fb_start_ fb_result_ filter_offsets_]; [done| |].
  - rewrite Hk, concat_app. cbn [concat]. by rewrite app_nil_r.
  - by rewrite Hs, Hk, starts_snoc.
Qed.
Lemma GenerateFilter_filters b gs ks : filters b gs ks -> filters (GenerateFilter p b) (gs ++ [ks]) [].
Proof.
  intros [(offs & Hg & Ho) Hk Hs]. unfold GenerateFilter. rewrite Hs, Hk, starts_last, length_starts. pose proof (generated_snoc gs _ offs ks Hg) as Hn.
  destruct (Nat.eqb_spec (length ks) 0) as [E|E].
  - apply length_zero_iff_nil in E as ->. split; cbn; [|done..]. exists (offs ++ [zlen (fb_result_ b)]). split; [exact Hn|]. by rewrite map_app, Ho.
  - rewrite split_keys. rewrite decide_False in Hn by (by intros ->). split; cbn; [|done..]. exists (offs ++ [zlen (fb_result_ b)]). split; [exact Hn|]. by rewrite map_app, Ho.
Qed.

(** A key that was added for the block at [off]. *)
Definition covered gs ks (off : Z) (key : bytes) : Prop := exists g, (gs ++ [ks]) !! Z.to_nat (off / kFilterBase) = Some g /\ key ∈ g.
Lemma covered_more gs ks off key k : covered gs ks off key -> covered gs (ks ++ [k]) off key.
Proof using Type.
  intros (g & Hg & Hin). unfold covered. destruct (decide (Z.to_nat (off / kFilterBase) < length gs)%nat) as [Hl|Hl].
  - rewrite lookup_app_l in Hg |- * by done. by exists g.
  - rewrite lookup_app_r in Hg |- * by lia. apply list_lookup_singleton_Some in Hg as [-> <-]. exists (ks ++ [k]). split; [done|]. apply elem_of_app. by left.
Qed.
Lemma covered_new gs ks off key : zlen gs = off / kFilterBase -> covered gs (ks ++ [key]) off key.
Proof using Type. intros Hl. unfold covered. rewrite <- Hl. unfold zlen. rewrite Nat2Z.id, lookup_app_r, Nat.sub_diag by lia. exists (ks ++ [key]). split; [done|]. apply elem_of_app. right. by apply list_elem_of_singleton. Qed.
Lemma covered_next gs ks ks' off key : covered gs ks off key -> covered (gs ++ [ks]) ks' off key.
Proof using Type. intros (g & Hg & Hin). exists g. split; [|done]. by apply lookup_app_l_Some. Qed.

Lemma generate_loop_filters fuel index b gs ks : filters b gs ks -> zlen gs <= index -> (Z.to_nat (index - zlen gs) < fuel)%nat ->
  exists b' gs' ks', generate_loop p fuel index b = Some b' /\ filters b' gs' ks' /\ zlen gs' = index /\ concat gs' ++ ks' = concat gs ++ ks /\ forall off key, covered gs ks off key -> covered gs' ks' off key.
Proof.
  revert b gs ks. induction fuel as [|f IH]; intros b gs ks Hf Hi Hfu; [lia|]. cbn [generate_loop]. rewrite (filters_count _ _ _ Hf). destruct (Z.ltb_spec (zlen gs) index).
  - assert (zlen (gs ++ [ks]) = zlen gs + 1) as E by (by rewrite zlen_app). destruct (IH (GenerateFilter p b) (gs ++ [ks]) []) as (b' & gs' & ks' & Hb & Hf' & Hl & Hk & Hc); [by apply GenerateFilter_filters|lia..|].
    exists b', gs', ks'. do 3 (split; [done|]). split; [rewrite Hk, concat_app; cbn [concat]; by rewrite !app_nil_r|]. intros off key Hcov. by apply Hc, covered_next.
  - exists b, gs, ks. split; [done|]. split; [done|]. split; [lia|]. done.
Qed.
Lemma StartBlock_filters off b gs ks : filters b gs ks -> zlen gs <= off / kFilterBase ->
  exists b' gs' ks', StartBlock p off b = Some b' /\ filters b' gs' ks' /\ zlen gs' = off / kFilterBase /\ concat gs' ++ ks' = concat gs ++ ks /\ forall off key, covered gs ks off key -> covered gs' ks' off key.
Proof.
  intros Hf Hi. unfold StartBlock. rewrite (filters_count _ _ _ Hf), (proj2 (Z.leb_le _ _) Hi). pose proof (zlen_nonneg gs). apply generate_loop_filters; [done..|lia].
Qed.

(** ** Reading a filter *)

Lemma generated_at gs r offs i g : generated gs r offs -> gs !! i = Some g -> g <> [] ->
  exists dst rest, offs !! i = Some (zlen dst) /\ (offs ++ [zlen r]) !! S i = Some (zlen (policy_CreateFilter p g dst)) /\ r = policy_CreateFilter p g dst ++ rest.
Proof using All.
  induction 1 as [|gs r offs h Hgen IH]; [done|]. pose proof (generated_length _ _ _ Hgen) as Hl. intros Hg Hne. set (r' := if decide (h = []) then r else policy_CreateFilter p h r).
  assert (r `prefix_of` r') as [x Hx] by (unfold r'; case_decide; [done|apply create_appends]).
  destruct (decide (i < length gs)%nat) as [Hi|Hi].
  - rewrite lookup_app_l in Hg by done. destruct (IH Hg Hne) as (dst & rest & H1 & H2 & H3). exists dst, (rest ++ x). split; [by apply lookup_app_l_Some|]. split; [by apply lookup_app_l_Some|].
    by rewrite Hx, H3, app_assoc.
  - rewrite lookup_app_r in Hg by lia. apply list_lookup_singleton_Some in Hg as [Hi0 ->]. assert (i = length offs) as -> by lia.
    exists r, []. split; [by rewrite lookup_app_r, Nat.sub_diag by lia|]. unfold r'. rewrite decide_False by done. split; [|by rewrite app_nil_r].
    rewrite lookup_app_r by (rewrite length_app; cbn; lia). rewrite length_app. cbn [length]. by replace (S (length offs) - (length offs + 1))%nat with 0%nat by lia.
Qed.

Definition filter_bytes (r : bytes) (offs : list Z) : bytes := r ++ words (offs ++ [zlen r]) ++ [byte_of kFilterBaseLg].
Lemma filter_Finish_bytes b gs ks : filters b gs ks -> zlen (filter_Finish p b) < 2 ^ 32 ->
  exists gs' r offs, generated gs' r offs /\ filter_Finish p b = filter_bytes r offs /\ concat gs' = concat gs ++ ks /\ forall off key, covered gs ks off key -> exists g, gs' !! Z.to_nat (off / kFilterBase) = Some g /\ key ∈ g.
Proof using All.
  intros Hf Hsz. set (b' := if decide (fb_start_ b = []) then b else GenerateFilter p b).
  assert (exists gs' ks', filters b' gs' ks' /\ concat gs' = concat gs ++ ks /\ forall off key, covered gs ks off key -> exists g, gs' !! Z.to_nat (off / kFilterBase) = Some g /\ key ∈ g) as (gs' & ks' & [(offs & Hg & Ho) _ _] & Hcc & Hc).
  { unfold b'. case_decide as Hs.
    - exists gs, ks. split; [done|]. rewrite (flt_starts _ _ _ Hf) in Hs. apply (f_equal length) in Hs. rewrite length_starts in Hs. apply length_zero_iff_nil in Hs as ->.
      split; [by rewrite app_nil_r|]. intros off key (g & Hl & Hin). apply lookup_snoc_Some in Hl as [[_ Hl]|[_ <-]]; [by exists g|]. by apply elem_of_nil in Hin.
    - exists (gs ++ [ks]), []. split; [by apply GenerateFilter_filters|]. split; [rewrite concat_app; cbn [concat]; by rewrite app_nil_r|]. intros off key (g & Hl & Hin). by exists g. }
  exists gs', (fb_result_ b'), offs. split; [done|]. split; [|by split]. unfold filter_Finish in *. fold b' in Hsz |- *. rewrite put_words in *. unfold PutFixed32, filter_bytes in *. rewrite Ho in *.
  rewrite !zlen_app, zlen_words in Hsz. assert (zlen (map u32 offs) = zlen offs) as E by (unfold zlen; by rewrite length_map). rewrite E in Hsz.
  change (zlen (EncodeFixed32 _)) with 4 in Hsz. change (zlen [byte_of kFilterBaseLg]) with 1 in Hsz. pose proof (zlen_nonneg offs). pose proof (zlen_nonneg (fb_result_ b')). assert (map u32 offs = offs) as ->.
  { apply list_eq. intros i. rewrite list_lookup_fmap. destruct (offs !! i) as [o|] eqn:Hi; [|done]. cbn. f_equal. apply u32_small. pose proof (generated_bound _ _ _ i o Hg Hi). unfold is_u32. lia. }
  rewrite u32_small by (unfold is_u32; lia). rewrite words_app, <- !app_assoc. done.
Qed.
Lemma generated_size gs r offs : generated gs r offs -> Forall (fun g => zlen g <= limit) gs -> zlen r <= 2 ^ 40 * zlen gs.
Proof using All.
  induction 1 as [|gs r offs g _ IH]; intros Hg; [done|]. apply Forall_app in Hg as [Hgs [Hg _]%Forall_cons]. specialize (IH Hgs). rewrite zlen_app. change (zlen [g]) with 1. case_decide; [lia|]. pose proof (create_small g r Hg). lia.
Qed.
Lemma group_count (g : list bytes) gs : g ∈ gs -> zlen g <= zlen (concat gs).
Proof using Type. intros (a & b & ->)%list_elem_of_split. rewrite concat_app, zlen_app. cbn [concat]. rewrite zlen_app. pose proof (zlen_nonneg (concat a)). pose proof (zlen_nonneg (concat b)). lia. Qed.
Lemma filter_Finish_size b gs ks : filters b gs ks -> zlen (concat gs ++ ks) <= limit -> zlen (filter_Finish p b) <= (2 ^ 40 + 4) * (zlen gs + 1) + 5.
Proof using All.
  intros Hf Hl. set (b' := if decide (fb_start_ b = []) then b else GenerateFilter p b).
  assert (exists gs' ks', filters b' gs' ks' /\ zlen gs' <= zlen gs + 1 /\ Forall (fun g => zlen g <= limit) gs') as (gs' & ks' & Hf' & Hle & Hg').
  { rewrite zlen_app in Hl. pose proof (zlen_nonneg ks). pose proof (zlen_nonneg (concat gs)). assert (Forall (fun g => zlen g <= limit) gs) as Hgs by (apply Forall_forall; intros g Hg%group_count; lia). unfold b'. case_decide; [exists gs, ks; split; [done|]; split; [lia|done]|].
    exists (gs ++ [ks]), []. split; [by apply GenerateFilter_filters|]. rewrite zlen_app. split; [done|]. apply Forall_app. split; [done|]. constructor; [lia|constructor]. }
  unfold filter_Finish. fold b'. rewrite put_words. unfold PutFixed32. rewrite !zlen_app, zlen_words, (filters_count _ _ _ Hf'). change (zlen (EncodeFixed32 _)) with 4. change (zlen [byte_of kFilterBaseLg]) with 1.
  destruct Hf' as [(offs & Hg & _) _ _]. pose proof (generated_size _ _ _ Hg Hg'). lia.
Qed.
Lemma newFilterBlockReader_bytes r offs : zlen (filter_bytes r offs) < 2 ^ 32 -> newFilterBlockReader (filter_bytes r offs) = mkFilterReader (filter_bytes r offs) (zlen r) (zlen offs) kFilterBaseLg.
Proof.
  intros Hsz. unfold newFilterBlockReader. assert (zlen (filter_bytes r offs) = zlen r + 4 * zlen offs + 5) as E by (unfold filter_bytes; rewrite !zlen_app, zlen_words, zlen_app; change (zlen [_]) with 1; change (zlen [byte_of kFilterBaseLg]) with 1; lia).
  pose proof (zlen_nonneg r). pose proof (zlen_nonneg offs). rewrite E, (proj2 (Z.ltb_ge _ _)) by lia.
  assert (nth (length (filter_bytes r offs) - 1) (filter_bytes r offs) Byte.x00 = byte_of kFilterBaseLg) as ->.
  { unfold filter_bytes. rewrite app_assoc. rewrite app_nth2 by (rewrite length_app; cbn; lia). rewrite (length_app _ [_]). cbn [length]. by replace (_ + 1 - 1 - _)%nat with 0%nat by lia. }
  assert (DecodeFixed32 (drop (length (filter_bytes r offs) - 5) (filter_bytes r offs)) = zlen r) as ->.
  { replace (length (filter_bytes r offs) - 5)%nat with (Z.to_nat (zlen r + Z.of_nat (length offs) * 4)) by (unfold zlen in *; lia). unfold filter_bytes. apply word_at; [by rewrite lookup_app_r, Nat.sub_diag by lia|unfold is_u32; lia]. }
  rewrite (proj2 (Z.ltb_ge _ _)) by lia. change (char_size (byte_of kFilterBaseLg)) with kFilterBaseLg. f_equal. replace (_ - 5 - _) with (zlen offs * 4) by lia. by apply Z.div_mul.
Qed.

(** The reader finds the filter of a block, and the filter its keys. *)
Lemma reader_matches gs r offs off g key key' : generated gs r offs -> zlen (filter_bytes r offs) < 2 ^ 32 -> 0 <= off -> gs !! Z.to_nat (off / kFilterBase) = Some g -> zlen g <= limit -> key' ∈ g -> same key key' ->
  reader_KeyMayMatch p (newFilterBlockReader (filter_bytes r offs)) off key = true.
Proof using All.
  intros Hg Hsz Hoff Hl Hlim Hin Hsame. rewrite newFilterBlockReader_bytes by done. unfold reader_KeyMayMatch. cbn [base_lg_ fr_num_ fr_offset_ fr_data_]. rewrite Z.shiftr_div_pow2 by done. change (2 ^ kFilterBaseLg) with kFilterBase.
  destruct (Z.ltb_spec (off / kFilterBase) (zlen offs)) as [Hlt|]; [|done]. assert (0 <= off / kFilterBase) as Hq by (by apply Z.div_pos). set (i := Z.to_nat (off / kFilterBase)) in *. assert (off / kFilterBase = Z.of_nat i) as -> by lia.
  assert (g <> []) as Hne by (intros ->; by apply elem_of_nil in Hin). destruct (generated_at gs r offs i g Hg Hl Hne) as (dst & rest & H1 & H2 & H3).
  destruct (create_appends g dst) as [f Hf]. assert (zlen dst <= zlen (policy_CreateFilter p g dst) <= zlen r) as Hle by (rewrite H3, zlen_app; pose proof (zlen_nonneg rest); rewrite Hf, zlen_app; pose proof (zlen_nonneg f); lia).
  assert (zlen r < 2 ^ 32) as Hr by (unfold filter_bytes in Hsz; rewrite !zlen_app in Hsz; pose proof (zlen_nonneg (words (offs ++ [zlen r]))); pose proof (zlen_nonneg [byte_of kFilterBaseLg]); lia). pose proof (zlen_nonneg dst).
  replace (zlen r + Z.of_nat i * 4 + 4) with (zlen r + Z.of_nat (S i) * 4) by lia. unfold filter_bytes. rewrite (word_at r _ _ i (zlen dst)) by (unfold is_u32; (by apply lookup_app_l_Some) || lia).
  rewrite (word_at r _ _ (S i) (zlen (policy_CreateFilter p g dst))) by (unfold is_u32; done || lia). rewrite (proj2 (Z.leb_le _ _)), (proj2 (Z.leb_le (zlen (policy_CreateFilter p g dst)) _)) by lia. cbn [andb].
  rewrite <- (create_matches g dst key key' Hlim Hin Hsame). f_equal. rewrite Hf, drop_app_length. rewrite H3 at 1. rewrite Hf, <- !app_assoc, to_nat_zlen, drop_app_length. rewrite zlen_app.
  replace (zlen dst + zlen f - zlen dst) with (zlen f) by lia. by rewrite to_nat_zlen, take_app_length.
Qed.
End Facts.
