(* ===== verification/TableFormat.v ===== *)
(** * The format of a table: table/format.{h,cc}

    Handles, the footer and the reading of a block.  The compression library is
    a record of functions, a file a function that reads; [None] stands for a
    failing assertion and for reading outside of a buffer. *)

From S2P Require Import Prelude CommonData Coding Crc32c Bloom DbFormat.
From Stdlib Require String.
Import (notations) String.

(** ** [BlockHandle] and [Footer] *)

Record BlockHandle : Type := mkHandle { handle_offset : Z; handle_size : Z }.
Definition newBlockHandle : BlockHandle := mkHandle (2 ^ 64 - 1) (2 ^ 64 - 1).
Definition handle_EncodeTo (h : BlockHandle) (dst : bytes) : option bytes :=
  if (handle_offset h =? 2 ^ 64 - 1) || (handle_size h =? 2 ^ 64 - 1) then None else Some (PutVarint64 (PutVarint64 dst (handle_offset h)) (handle_size h)).
Definition handle_DecodeFrom (input : bytes) : LStatus + BlockHandle * bytes :=
  match ('(offset, input) ← GetVarint64 input; '(size, input) ← GetVarint64 input; Some (mkHandle offset size, input)) with
  | Some r => inr r
  | None => inl (Corruption "bad block handle"%string)
  end.

Definition kMaxEncodedLength : Z := 10 + 10.
Definition kEncodedLength : Z := 2 * kMaxEncodedLength + 8.
Definition kTableMagicNumber : Z := 0xdb4775248b80fb57.
Definition kBlockTrailerSize : Z := 5.

Definition resize (n : nat) (l : bytes) : bytes := take n l ++ replicate (n - length l) Byte.x00.

Record Footer : Type := mkFooter { metaindex_handle : BlockHandle; index_handle : BlockHandle }.
Definition footer_EncodeTo (f : Footer) (dst : bytes) : option bytes :=
  let original_size := zlen dst in
  dst ← handle_EncodeTo (metaindex_handle f) dst;
  dst ← handle_EncodeTo (index_handle f) dst;
  let dst := resize (Z.to_nat (2 * kMaxEncodedLength)) dst in
  let dst := PutFixed32 dst (Z.land kTableMagicNumber 0xffffffff) in
  let dst := PutFixed32 dst (Z.shiftr kTableMagicNumber 32) in
  if zlen dst =? original_size + kEncodedLength then Some dst else None.
Definition footer_DecodeFrom (input : bytes) : option (LStatus + Footer * bytes) :=
  if zlen input <? kEncodedLength then None
  else
    let magic_ptr := drop (Z.to_nat (kEncodedLength - 8)) input in
    let magic_lo := DecodeFixed32 magic_ptr in
    let magic_hi := DecodeFixed32 (drop 4 magic_ptr) in
    let magic := Z.lor (Z.shiftl magic_hi 32) magic_lo in
    if negb (magic =? kTableMagicNumber) then Some (inl (Corruption "not an sstable (bad magic number)"%string))
    else
      Some match handle_DecodeFrom input with
        | inl s => inl s
        | inr (metaindex, rest) =>
            match handle_DecodeFrom rest with
            | inl s => inl s
            | inr (index, _) => inr (mkFooter metaindex index, drop 8 magic_ptr)
            end
        end.

(** ** Reading a block *)

Inductive CompressionType := kNoCompression | kSnappyCompression.
Definition compression_byte (t : CompressionType) : byte := match t with kNoCompression => Byte.x00 | kSnappyCompression => Byte.x01 end.

Record Snappy : Type := mkSnappy { Snappy_Compress : bytes -> option bytes; Snappy_GetUncompressedLength : bytes -> option Z; Snappy_Uncompress : bytes -> option bytes }.
(** The functions of port/ without the library. *)
Definition no_snappy : Snappy := mkSnappy (fun _ => None) (fun _ => None) (fun _ => None).

(** [RandomAccessFile::Read] at an offset, with the number of bytes: its
    status, the contents and whether these are in the buffer of the caller. *)
Record RandomAccessFile : Type := mkRandom { random_Read : Z -> Z -> LStatus * bytes * bool }.

Record BlockContents : Type := mkContents { contents_data : bytes; cachable : bool; heap_allocated : bool }.

Definition ReadBlock (snappy : Snappy) (file : RandomAccessFile) (verify_checksums : bool) (handle : BlockHandle) : option (LStatus + BlockContents) :=
  let n := handle_size handle in
  let '(s, contents, in_buf) := random_Read file (handle_offset handle) (u64 (n + kBlockTrailerSize)) in
  if negb (ok s) then Some (inl s)
  else if negb (zlen contents =? u64 (n + kBlockTrailerSize)) then Some (inl (Corruption "truncated block read"%string))
  else if zlen contents <? n + kBlockTrailerSize then None
  else
    let data := take (Z.to_nat n) contents in
    let crc := Unmask (DecodeFixed32 (drop (Z.to_nat (n + 1)) contents)) in
    let actual := Value 0 (take (Z.to_nat (n + 1)) contents) in
    if verify_checksums && negb (actual =? crc) then Some (inl (Corruption "block checksum mismatch"%string))
    else
      Some
        (let type := bval (nth (Z.to_nat n) contents Byte.x00) in
         if type =? 0 then inr (if in_buf then mkContents data true true else mkContents data false false)
         else if type =? 1 then
           match Snappy_GetUncompressedLength snappy data with
           | None => inl (Corruption "corrupted compressed block contents"%string)
           | Some ulength =>
               match Snappy_Uncompress snappy data with
               | None => inl (Corruption "corrupted compressed block contents"%string)
               | Some ubuf => inr (mkContents (take (Z.to_nat ulength) ubuf) true true)
               end
           end
         else inl (Corruption "bad block type"%string)).

(** What [WriteRawBlock] puts behind the contents. *)
Definition block_trailer (block_contents : bytes) (type : CompressionType) : bytes :=
  let crc := Value 0 block_contents in
  let crc := Extend 0 crc [compression_byte type] in
  compression_byte type :: EncodeFixed32 (Mask crc).

(** ** The interfaces below *)

Class SnappyLaws (snappy : Snappy) : Prop :=
  uncompress_compressed raw c : Snappy_Compress snappy raw = Some c -> Snappy_GetUncompressedLength snappy c = Some (zlen raw) /\ Snappy_Uncompress snappy c = Some raw.
#[export] Instance no_snappy_laws : SnappyLaws no_snappy.
Proof. done. Qed.
Class RandomLaws (file : RandomAccessFile) (data : bytes) : Prop :=
  random_read_ok offset n : 0 <= offset -> 0 <= n -> (random_Read file offset n).1 = (OK, take (Z.to_nat n) (drop (Z.to_nat offset) data)).
Definition mem_random (data : bytes) : RandomAccessFile := mkRandom (fun offset n => (OK, take (Z.to_nat n) (drop (Z.to_nat offset) data), true)).
#[export] Instance mem_random_laws data : RandomLaws (mem_random data) data.
Proof. done. Qed.

(** ** Handles and footers are read back *)

Definition handle_ok (h : BlockHandle) : Prop := 0 <= handle_offset h < 2 ^ 64 - 1 /\ 0 <= handle_size h < 2 ^ 64 - 1.
Definition handle_bytes (h : BlockHandle) : bytes := EncodeVarint64 (handle_offset h) ++ EncodeVarint64 (handle_size h).
Lemma handle_EncodeTo_ok h dst : handle_ok h -> handle_EncodeTo h dst = Some (dst ++ handle_bytes h).
Proof. intros [Ho Hs]. unfold handle_EncodeTo. destruct (Z.eqb_spec (handle_offset h) (2 ^ 64 - 1)); [lia|]. destruct (Z.eqb_spec (handle_size h) (2 ^ 64 - 1)); [lia|]. cbn [orb]. unfold PutVarint64, handle_bytes. by rewrite app_assoc. Qed.
Lemma handle_roundtrip h rest : handle_ok h -> handle_DecodeFrom (handle_bytes h ++ rest) = inr (h, rest).
Proof.
  intros [Ho Hs]. unfold handle_DecodeFrom, handle_bytes. rewrite <- app_assoc, varint64_roundtrip by (unfold is_u64; lia). cbn [mbind option_bind]. rewrite varint64_roundtrip by (unfold is_u64; lia). cbn [mbind option_bind]. by destruct h.
Qed.
Lemma zlen_varint64_loop fuel v : 0 <= zlen (varint64_loop fuel v) <= Z.of_nat fuel.
Proof. revert v. induction fuel as [|f IH]; intros v; [done|]. cbn [varint64_loop]. destruct (_ <=? _); rewrite zlen_cons; [specialize (IH (Z.shiftr v 7)); lia|change (zlen []) with 0; lia]. Qed.
Lemma zlen_handle h : zlen (handle_bytes h) <= 20.
Proof. unfold handle_bytes. rewrite zlen_app. pose proof (zlen_varint64_loop 10 (handle_offset h)). pose proof (zlen_varint64_loop 10 (handle_size h)). unfold EncodeVarint64. lia. Qed.

Definition footer_bytes (f : Footer) : bytes :=
  resize 40 (handle_bytes (metaindex_handle f) ++ handle_bytes (index_handle f)) ++ EncodeFixed32 (Z.land kTableMagicNumber 0xffffffff) ++ EncodeFixed32 (Z.shiftr kTableMagicNumber 32).
Lemma length_resize n l : length (resize n l) = n.
Proof. unfold resize. rewrite length_app, length_take, length_replicate. lia. Qed.
Lemma zlen_footer f : zlen (footer_bytes f) = kEncodedLength.
Proof. unfold footer_bytes, zlen. rewrite !length_app, length_resize. done. Qed.
Lemma footer_EncodeTo_ok f : handle_ok (metaindex_handle f) -> handle_ok (index_handle f) -> footer_EncodeTo f [] = Some (footer_bytes f).
Proof.
  intros Hm Hi. unfold footer_EncodeTo. rewrite handle_EncodeTo_ok by done. cbn [mbind option_bind]. rewrite handle_EncodeTo_ok by done. cbn [mbind option_bind app]. change (Z.to_nat (2 * kMaxEncodedLength)) with 40%nat.
  unfold PutFixed32. rewrite <- app_assoc. fold (footer_bytes f). by rewrite zlen_footer.
Qed.
Lemma footer_roundtrip f rest : handle_ok (metaindex_handle f) -> handle_ok (index_handle f) -> footer_DecodeFrom (footer_bytes f ++ rest) = Some (inr (f, rest)).
Proof.
  intros Hm Hi. unfold footer_DecodeFrom. rewrite zlen_app, zlen_footer. pose proof (zlen_nonneg rest). destruct (Z.ltb_spec (kEncodedLength + zlen rest) kEncodedLength); [lia|].
  change (Z.to_nat (kEncodedLength - 8)) with 40%nat. assert (drop 40 (footer_bytes f ++ rest) = EncodeFixed32 (Z.land kTableMagicNumber 0xffffffff) ++ EncodeFixed32 (Z.shiftr kTableMagicNumber 32) ++ rest) as ->.
  { unfold footer_bytes. rewrite <- !app_assoc. apply drop_app_length'. by rewrite length_resize. }
  rewrite fixed32_roundtrip by done. change (drop 4 (EncodeFixed32 (Z.land kTableMagicNumber 0xffffffff) ++ EncodeFixed32 (Z.shiftr kTableMagicNumber 32) ++ rest)) with (EncodeFixed32 (Z.shiftr kTableMagicNumber 32) ++ rest).
  rewrite fixed32_roundtrip by done. change (Z.lor (Z.shiftl (Z.shiftr kTableMagicNumber 32) 32) (Z.land kTableMagicNumber 0xffffffff) =? kTableMagicNumber) with true. cbn [negb].
  change (drop 8 (EncodeFixed32 (Z.land kTableMagicNumber 0xffffffff) ++ EncodeFixed32 (Z.shiftr kTableMagicNumber 32) ++ rest)) with rest. f_equal.
  unfold footer_bytes, resize. pose proof (zlen_handle (metaindex_handle f)). pose proof (zlen_handle (index_handle f)). rewrite take_ge by (rewrite length_app; unfold zlen in *; lia). rewrite <- !app_assoc.
  rewrite handle_roundtrip by done. rewrite handle_roundtrip by done. by destruct f.
Qed.

(** ** A written block is read back *)

Lemma zlen_trailer d t : zlen (block_trailer d t) = kBlockTrailerSize.
Proof. done. Qed.
Lemma trailer_crc d t : Unmask (DecodeFixed32 (drop 1 (block_trailer d t))) = Value 0 (d ++ [compression_byte t]).
Proof.
  assert (is_u32 0) as H0 by done. unfold block_trailer, Value. rewrite !Extend_crc32c by (done || rewrite Extend_crc32c by done; by apply crc32c_u32). rewrite crc32c_app.
  change (drop 1 (?x :: ?l)) with l. rewrite <- (app_nil_r (EncodeFixed32 _)). rewrite fixed32_roundtrip by (unfold Mask, u32, is_u32; apply Z.mod_pos_bound; lia). apply Unmask_Mask. by apply crc32c_u32.
Qed.

Definition uncompressed (snappy : Snappy) (d : bytes) (t : CompressionType) : option bytes :=
  match t with kNoCompression => Some d | kSnappyCompression => n ← Snappy_GetUncompressedLength snappy d; b ← Snappy_Uncompress snappy d; Some (take (Z.to_nat n) b) end.
Lemma ReadBlock_written snappy file data verify pre d t post raw `{!RandomLaws file data} : data = pre ++ d ++ block_trailer d t ++ post -> zlen data < 2 ^ 63 -> uncompressed snappy d t = Some raw ->
  exists c, ReadBlock snappy file verify (mkHandle (zlen pre) (zlen d)) = Some (inr c) /\ contents_data c = raw.
Proof.
  intros -> Hsz Hraw. unfold ReadBlock. cbn [handle_size handle_offset]. pose proof (zlen_nonneg pre). pose proof (zlen_nonneg d). pose proof (zlen_nonneg post). rewrite !zlen_app, zlen_trailer in Hsz. change kBlockTrailerSize with 5 in *.
  rewrite (u64_small (zlen d + 5)) by (unfold is_u64; lia). pose proof (random_read_ok (zlen pre) (zlen d + 5) ltac:(lia) ltac:(lia)) as Hr. destruct (random_Read file (zlen pre) (zlen d + 5)) as [[s contents] in_buf]. cbn [fst] in Hr. apply pair_equal_spec in Hr as [-> ->].
  assert (take (Z.to_nat (zlen d + 5)) (drop (Z.to_nat (zlen pre)) (pre ++ d ++ block_trailer d t ++ post)) = d ++ block_trailer d t) as ->.
  { rewrite to_nat_zlen, drop_app_length, app_assoc. apply take_app_length'. rewrite length_app. unfold zlen. change (length (block_trailer d t)) with 5%nat. lia. }
  cbn [ok negb]. rewrite zlen_app, zlen_trailer. change kBlockTrailerSize with 5. rewrite Z.eqb_refl, Z.ltb_irrefl. cbn [negb].
  assert (Z.to_nat (zlen d + 1) = length d + 1)%nat as -> by (unfold zlen; lia). rewrite <- drop_drop, drop_app_length, trailer_crc. assert (take (length d + 1) (d ++ block_trailer d t) = d ++ [compression_byte t]) as ->.
  { by rewrite take_app_add. }
  rewrite Z.eqb_refl. cbn [negb]. rewrite andb_false_r, to_nat_zlen. rewrite take_app_length, app_nth2, Nat.sub_diag by lia. cbn [nth block_trailer].
  destruct t; cbn [compression_byte uncompressed] in *.
  - change (bval Byte.x00 =? 0) with true. injection Hraw as ->. destruct in_buf; eexists; split; try reflexivity.
  - change (bval Byte.x01 =? 0) with false. change (bval Byte.x01 =? 1) with true. destruct (Snappy_GetUncompressedLength snappy d) as [n|]; [|done]. destruct (Snappy_Uncompress snappy d) as [b|]; [|done]. cbn in Hraw. injection Hraw as <-. by eexists.
Qed.

(** The size of a block is not checked: with a handle near the largest number
    the sum of the sizes wraps around, and the type is read far behind the
    buffer, whatever the file holds. *)
Lemma ReadBlock_wraps snappy data verify : 2 <= zlen data -> ReadBlock snappy (mem_random data) verify (mkHandle 0 (2 ^ 64 - 3)) = None.
Proof.
  intros Hd. unfold ReadBlock. cbn [handle_size handle_offset random_Read mem_random]. change (u64 (2 ^ 64 - 3 + kBlockTrailerSize)) with 2. cbn [ok negb]. change (Z.to_nat 0) with 0%nat. rewrite drop_0.
  assert (zlen (take (Z.to_nat 2) data) = 2) as -> by (unfold zlen in *; rewrite length_take; lia). done.
Qed.
