(* ===== verification/TableBuilder.v ===== *)
(** * Building a table: table/table_builder.cc

    The options are fixed while a table is built ([ChangeOptions] is left out);
    [None] stands for a failing assertion. *)

From S2P Require Import Prelude CommonData Coding Bloom DbFormat LogFile DbIter TableBlock FilterBlock TableFormat.
From Stdlib Require String.
Import (notations) String.

Record Options : Type := mkOptions {
  comparator : Comparator; block_size : Z; block_restart_interval : Z; compression : CompressionType; filter_policy : option FilterPolicy; paranoid_checks : bool
}.

(** [TableBuilder::Rep]. *)
Record TableRep (F : Type) : Type := mkTableRep {
  t_file : F; t_offset : Z; t_status : LStatus; data_block : BlockBuilder; index_block : BlockBuilder; t_last_key : bytes; num_entries : Z; closed : bool;
  filter_block : option FilterBlockBuilder; pending_index_entry : bool; pending_handle : BlockHandle
}.
Arguments mkTableRep {F}. Arguments t_file {F}. Arguments t_offset {F}. Arguments t_status {F}. Arguments data_block {F}. Arguments index_block {F}. Arguments t_last_key {F}.
Arguments num_entries {F}. Arguments closed {F}. Arguments filter_block {F}. Arguments pending_index_entry {F}. Arguments pending_handle {F}.

Section Builder.
Context {F : Type} (file : WritableFile F) (snappy : Snappy) (options : Options).
Implicit Types r : TableRep F.

Definition set_file (f : F) (s : LStatus) (offset : Z) r : TableRep F :=
  mkTableRep f offset s (data_block r) (index_block r) (t_last_key r) (num_entries r) (closed r) (filter_block r) (pending_index_entry r) (pending_handle r).
Definition set_data_block (b : BlockBuilder) r : TableRep F :=
  mkTableRep (t_file r) (t_offset r) (t_status r) b (index_block r) (t_last_key r) (num_entries r) (closed r) (filter_block r) (pending_index_entry r) (pending_handle r).
Definition set_index_block (b : BlockBuilder) r : TableRep F :=
  mkTableRep (t_file r) (t_offset r) (t_status r) (data_block r) b (t_last_key r) (num_entries r) (closed r) (filter_block r) (pending_index_entry r) (pending_handle r).
Definition set_last_key (k : bytes) (n : Z) r : TableRep F :=
  mkTableRep (t_file r) (t_offset r) (t_status r) (data_block r) (index_block r) k n (closed r) (filter_block r) (pending_index_entry r) (pending_handle r).
Definition set_closed r : TableRep F :=
  mkTableRep (t_file r) (t_offset r) (t_status r) (data_block r) (index_block r) (t_last_key r) (num_entries r) true (filter_block r) (pending_index_entry r) (pending_handle r).
Definition set_filter_block (fb : option FilterBlockBuilder) r : TableRep F :=
  mkTableRep (t_file r) (t_offset r) (t_status r) (data_block r) (index_block r) (t_last_key r) (num_entries r) (closed r) fb (pending_index_entry r) (pending_handle r).
Definition set_pending (b : bool) (h : BlockHandle) r : TableRep F :=
  mkTableRep (t_file r) (t_offset r) (t_status r) (data_block r) (index_block r) (t_last_key r) (num_entries r) (closed r) (filter_block r) b h.

(** What is done with the filter block, if there is one. *)
Definition on_filter (f : FilterPolicy -> FilterBlockBuilder -> option FilterBlockBuilder) r : option (TableRep F) :=
  match filter_policy options, filter_block r with
  | Some p, Some fb => fb ← f p fb; Some (set_filter_block (Some fb) r)
  | _, _ => Some r
  end.

Definition newTableBuilder (f : F) : option (TableRep F) :=
  on_filter (fun p => StartBlock p 0)
    (mkTableRep f 0 OK newBlockBuilder newBlockBuilder [] 0 false (match filter_policy options with Some _ => Some newFilterBlockBuilder | None => None end) false newBlockHandle).

Definition WriteRawBlock (block_contents : bytes) (type : CompressionType) r : BlockHandle * TableRep F :=
  let handle := mkHandle (t_offset r) (zlen block_contents) in
  let '(s, f) := file_Append file (t_file r) block_contents in
  if ok s then
    let '(s, f) := file_Append file f (block_trailer block_contents type) in
    (handle, set_file f s (if ok s then u64 (t_offset r + (zlen block_contents + kBlockTrailerSize)) else t_offset r) r)
  else (handle, set_file f s (t_offset r) r).

Definition compress_block (raw : bytes) : bytes * CompressionType :=
  match compression options with
  | kNoCompression => (raw, kNoCompression)
  | kSnappyCompression =>
      match Snappy_Compress snappy raw with
      | Some compressed => if zlen compressed <? zlen raw - zlen raw / 8 then (compressed, kSnappyCompression) else (raw, kNoCompression)
      | None => (raw, kNoCompression)
      end
  end.
(** The caller resets the builder. *)
Definition WriteBlock (block : BlockBuilder) r : option (BlockHandle * TableRep F) :=
  if negb (ok (t_status r)) then None
  else
    let raw := (Finish block).1 in
    let '(block_contents, type) := compress_block raw in
    Some (WriteRawBlock block_contents type r).

Definition block_empty (b : BlockBuilder) : bool := bool_decide (b_buffer_ b = []).

Definition table_Flush r : option (TableRep F) :=
  if closed r then None
  else if negb (ok (t_status r)) then Some r
  else if block_empty (data_block r) then Some r
  else if pending_index_entry r then None
  else
    '(handle, r) ← WriteBlock (data_block r) r;
    let r := set_pending (pending_index_entry r) handle (set_data_block (Reset (data_block r)) r) in
    let r :=
      if ok (t_status r) then
        let '(s, f) := file_Flush file (t_file r) in
        set_file f s (t_offset r) (set_pending true (pending_handle r) r)
      else r in
    on_filter (fun p => StartBlock p (t_offset r)) r.

(** The index entry that waits for the first key behind its block. *)
Definition emit_index_entry (key : bytes) r : option (TableRep F) :=
  handle_encoding ← handle_EncodeTo (pending_handle r) [];
  Some (set_pending false (pending_handle r) (set_last_key key (num_entries r) (set_index_block (block_Add 1 (index_block r) key handle_encoding) r))).

Definition table_Add (key value : bytes) r : option (TableRep F) :=
  if closed r then None
  else if negb (ok (t_status r)) then Some r
  else if (0 <? num_entries r) && negb (0 <? Compare (comparator options) key (t_last_key r)) then None
  else
    r ← (if pending_index_entry r then
           if block_empty (data_block r) then emit_index_entry (FindShortestSeparator (comparator options) (t_last_key r) key) r else None
         else Some r);
    r ← on_filter (fun _ fb => Some (AddKey key fb)) r;
    let r := set_last_key key (i64 (num_entries r + 1)) r in
    let r := set_data_block (block_Add (block_restart_interval options) (data_block r) key value) r in
    let estimated_block_size := CurrentSizeEstimate (data_block r) in
    if block_size options <=? estimated_block_size then table_Flush r else Some r.

Definition filter_prefix : bytes := [Byte.x66; Byte.x69; Byte.x6c; Byte.x74; Byte.x65; Byte.x72; Byte.x2e].

(** The steps of [Finish] that write the filter block and the metaindex
    block. *)
Definition write_filter r : BlockHandle * TableRep F :=
  match filter_policy options, filter_block r with
  | Some p, Some fb => if ok (t_status r) then WriteRawBlock (filter_Finish p fb) kNoCompression r else (newBlockHandle, r)
  | _, _ => (newBlockHandle, r)
  end.
Definition write_metaindex (filter_block_handle : BlockHandle) r : option (BlockHandle * TableRep F) :=
  if negb (ok (t_status r)) then Some (newBlockHandle, r)
  else
    meta_index_block ←
      match filter_policy options, filter_block r with
      | Some p, Some _ =>
          let key := filter_prefix ++ policy_Name p in
          handle_encoding ← handle_EncodeTo filter_block_handle [];
          Some (block_Add (block_restart_interval options) newBlockBuilder key handle_encoding)
      | _, _ => Some newBlockBuilder
      end;
    WriteBlock meta_index_block r.
Definition write_index r : option (BlockHandle * TableRep F) :=
  if negb (ok (t_status r)) then Some (newBlockHandle, r)
  else
    r ← (if pending_index_entry r then emit_index_entry (FindShortSuccessor (comparator options) (t_last_key r)) r else Some r);
    '(handle, r) ← WriteBlock (index_block r) r;
    Some (handle, set_index_block (Reset (index_block r)) r).
Definition write_footer (metaindex index : BlockHandle) r : option (TableRep F) :=
  if negb (ok (t_status r)) then Some r
  else
    footer_encoding ← footer_EncodeTo (mkFooter metaindex index) [];
    let '(s, f) := file_Append file (t_file r) footer_encoding in
    Some (set_file f s (if ok s then u64 (t_offset r + zlen footer_encoding) else t_offset r) r).
Definition table_Finish r : option (LStatus * TableRep F) :=
  r ← table_Flush r;
  if closed r then None
  else
    let r := set_closed r in
    let '(filter_block_handle, r) := write_filter r in
    '(metaindex_block_handle, r) ← write_metaindex filter_block_handle r;
    '(index_block_handle, r) ← write_index r;
    r ← write_footer metaindex_block_handle index_block_handle r;
    Some (t_status r, r).

Definition table_Abandon r : option (TableRep F) := if closed r then None else Some (set_closed r).
Definition NumEntries r : Z := num_entries r.
Definition FileSize r : Z := t_offset r.

(** A table from its entries, as BuildTable of db/builder.cc makes it. *)
Definition table_Add_all (es : list (bytes * bytes)) r : option (TableRep F) := foldl (fun o e => r ← o; table_Add e.1 e.2 r) (Some r) es.
Definition build_table (es : list (bytes * bytes)) (f : F) : option (LStatus * TableRep F) := r ← newTableBuilder f; r ← table_Add_all es r; table_Finish r.
End Builder.

(** ** Comparators that do not lengthen keys *)

Class ShortKeys (c : Comparator) : Prop := {
  sep_short a b : zlen (FindShortestSeparator c a b) <= zlen a;
  succ_short a : zlen (FindShortSuccessor c a) <= zlen a
}.
#[export] Instance bytewise_short : ShortKeys BytewiseComparator.
Proof.
  split; cbn [FindShortestSeparator FindShortSuccessor BytewiseComparator].
  - intros a b. unfold bytewise_separator. destruct (Nat.leb_spec (Nat.min (length a) (length b)) (common_prefix a b)); [done|]. destruct (_ && _); [|done]. unfold zlen. rewrite length_app, length_take. cbn [length]. lia.
  - intros a. unfold bytewise_successor. assert (forall key seen k, successor_loop seen key = Some k -> zlen k <= zlen seen + zlen key) as H.
    { induction key as [|b key IH]; intros seen k; cbn [successor_loop]; [done|]. destruct (negb _).
      - intros [= <-]. rewrite zlen_app, (zlen_cons b key). change (zlen [_]) with 1. pose proof (zlen_nonneg key). lia.
      - intros Hk%IH. rewrite zlen_app in Hk. change (zlen [b]) with 1 in Hk. rewrite zlen_cons. lia. }
    destruct (successor_loop [] a) as [k|] eqn:E; [|done]. apply H in E. change (zlen []) with 0 in E. lia.
Qed.
#[export] Instance internal_short user : ShortKeys (InternalKeyComparator user).
Proof.
  assert (forall t a, zlen t < zlen (ExtractUserKey a) -> zlen (PutFixed64 t (PackSequenceAndType kMaxSequenceNumber kValueTypeForSeek)) <= zlen a) as H.
  { intros t a Ht. unfold PutFixed64. rewrite zlen_app. change (zlen (EncodeFixed64 _)) with 8. unfold ExtractUserKey, zlen in *. rewrite length_take in Ht. lia. }
  split; cbn [FindShortestSeparator FindShortSuccessor InternalKeyComparator].
  - intros a b. unfold internal_separator. destruct (Z.ltb_spec (zlen (FindShortestSeparator user (ExtractUserKey a) (ExtractUserKey b))) (zlen (ExtractUserKey a))); [|done]. destruct (_ <? _); cbn [andb]; [by apply H|done].
  - intros a. unfold internal_successor. destruct (Z.ltb_spec (zlen (FindShortSuccessor user (ExtractUserKey a))) (zlen (ExtractUserKey a))); [|done]. destruct (_ <? _); cbn [andb]; [by apply H|done].
Qed.

(** ** The size of blocks *)

Definition raw_block (interval : Z) (es : list (bytes * bytes)) : bytes := (Finish (block_Add_all interval newBlockBuilder es)).1.
Definition entry_cost (e : bytes * bytes) : Z := zlen e.1 + zlen e.2 + 100.
Definition cost (es : list (bytes * bytes)) : Z := foldr (fun e n => entry_cost e + n) 0 es.
Lemma cost_app a b : cost (a ++ b) = cost a + cost b.
Proof. induction a as [|e a IH]; [done|]. cbn [app cost foldr]. fold (cost (a ++ b)) (cost a). rewrite IH. lia. Qed.
Lemma cost_nonneg es : 100 * zlen es <= cost es.
Proof. induction es as [|e es IH]; [done|]. cbn [cost foldr]. fold (cost es). rewrite zlen_cons. unfold entry_cost. pose proof (zlen_nonneg e.1). pose proof (zlen_nonneg e.2). lia. Qed.
Lemma cost_in es e : e ∈ es -> entry_cost e <= cost es.
Proof.
  intros (a & b & ->)%list_elem_of_split. rewrite cost_app. cbn [cost foldr]. fold (cost b). pose proof (cost_nonneg a). pose proof (cost_nonneg b). pose proof (zlen_nonneg a). pose proof (zlen_nonneg b). lia.
Qed.
Lemma cost_small es : cost es < 2 ^ 32 -> Forall entry_small es.
Proof. intros Hc. apply Forall_forall. intros e He%cost_in. unfold entry_cost in He. pose proof (zlen_nonneg e.1). pose proof (zlen_nonneg e.2). split; lia. Qed.

Definition builder_size (b : BlockBuilder) : Z := zlen (b_buffer_ b) + 4 * zlen (b_restarts_ b).
Lemma u32_range z : is_u32 (u32 z).
Proof. unfold u32, is_u32. apply Z.mod_pos_bound. lia. Qed.
Lemma block_Add_size interval b k v : zlen (b_buffer_ b) + 3 <= zlen (b_buffer_ (block_Add interval b k v)) /\ builder_size (block_Add interval b k v) <= builder_size b + zlen k + zlen v + 19.
Proof.
  unfold block_Add, builder_size. assert (forall sh, zlen (b_buffer_ b) + 3 <= zlen (PutVarint32 (PutVarint32 (PutVarint32 (b_buffer_ b) (u32 (Z.of_nat sh))) (u32 (zlen k - Z.of_nat sh))) (u32 (zlen v)) ++ drop sh k ++ v) <= zlen (b_buffer_ b) + 15 + zlen k + zlen v) as H.
  { intros sh. unfold PutVarint32. rewrite !zlen_app. pose proof (zlen_varint32 _ (u32_range (Z.of_nat sh))). pose proof (zlen_varint32 _ (u32_range (zlen k - Z.of_nat sh))). pose proof (zlen_varint32 _ (u32_range (zlen v))).
    assert (zlen (drop sh k) <= zlen k) by (unfold zlen; rewrite length_drop; lia). pose proof (zlen_nonneg (drop sh k)). pose proof (zlen_nonneg v). lia. }
  destruct (_ <? _); cbn [b_buffer_ b_restarts_]; [pose proof (H (common_prefix (last_key_ b) k)); lia|]. pose proof (H 0%nat). rewrite (zlen_app (b_restarts_ b)). change (zlen [_]) with 1. lia.
Qed.
Lemma block_Add_all_size interval es b : builder_size (block_Add_all interval b es) <= builder_size b + cost es - 81 * zlen es.
Proof.
  revert b. induction es as [|e es IH]; intros b; [change (block_Add_all interval b []) with b; change (cost []) with 0; unfold zlen; cbn [length]; lia|]. change (block_Add_all interval b (e :: es)) with (block_Add_all interval (block_Add interval b e.1 e.2) es). pose proof (IH (block_Add interval b e.1 e.2)).
  destruct (block_Add_size interval b e.1 e.2). cbn [cost foldr]. fold (cost es). rewrite zlen_cons. unfold entry_cost. lia.
Qed.
Lemma block_Add_all_empty interval es : b_buffer_ (block_Add_all interval newBlockBuilder es) = [] -> es = [].
Proof.
  intros Hb. destruct es as [|e es]; [done|]. exfalso. change (block_Add_all interval newBlockBuilder (e :: es)) with (block_Add_all interval (block_Add interval newBlockBuilder e.1 e.2) es) in Hb.
  pose proof (block_Add_all_grows interval (block_Add interval newBlockBuilder e.1 e.2) es) as H. destruct (block_Add_size interval newBlockBuilder e.1 e.2) as [H' _]. rewrite Hb in H. change (zlen []) with 0 in H. pose proof (zlen_nonneg (b_buffer_ newBlockBuilder)). lia.
Qed.
Lemma raw_block_size interval es : zlen (raw_block interval es) <= cost es - 81 * zlen es + 8.
Proof.
  unfold raw_block, Finish. cbn [fst]. rewrite put_words. unfold PutFixed32. rewrite !zlen_app, zlen_words. change (zlen (EncodeFixed32 _)) with 4. pose proof (block_Add_all_size interval es newBlockBuilder) as H. unfold builder_size in H at 1.
  change (builder_size newBlockBuilder) with 4 in H. lia.
Qed.
Lemma block_Add_all_snoc interval b es e : block_Add_all interval b (es ++ [e]) = block_Add interval (block_Add_all interval b es) e.1 e.2.
Proof. unfold block_Add_all. by rewrite foldl_snoc. Qed.

(** ** What is written to the file *)

Definition image (ds : list (bytes * CompressionType)) : bytes := concat (map (fun x => x.1 ++ block_trailer x.1 x.2) ds).
Definition handle_at (ds : list (bytes * CompressionType)) (j : nat) : BlockHandle := match ds !! j with Some x => mkHandle (zlen (image (take j ds))) (zlen x.1) | None => newBlockHandle end.
Lemma image_app a b : image (a ++ b) = image a ++ image b.
Proof. unfold image. by rewrite map_app, concat_app. Qed.
Lemma zlen_image_snoc ds x : zlen (image (ds ++ [x])) = zlen (image ds) + (zlen x.1 + kBlockTrailerSize).
Proof. rewrite image_app, zlen_app. unfold image at 2. cbn [map concat]. by rewrite app_nil_r, zlen_app, zlen_trailer. Qed.
Lemma handle_at_app ds ds' j : (j < length ds)%nat -> handle_at (ds ++ ds') j = handle_at ds j.
Proof. intros Hj. unfold handle_at. rewrite lookup_app_l by done. destruct (lookup_lt_is_Some_2 ds j Hj) as [x ->]. by rewrite take_app_le by lia. Qed.
Lemma handle_at_snoc ds x : handle_at (ds ++ [x]) (length ds) = mkHandle (zlen (image ds)) (zlen x.1).
Proof. unfold handle_at. rewrite lookup_app_r, Nat.sub_diag by lia. cbn. by rewrite take_app_length. Qed.
Lemma image_at ds j x : ds !! j = Some x -> image ds = image (take j ds) ++ x.1 ++ block_trailer x.1 x.2 ++ image (drop (S j) ds).
Proof. intros Hx. rewrite <- (take_drop_middle ds j x Hx) at 1. rewrite image_app. unfold image at 2. cbn [map concat]. fold (image (drop (S j) ds)). by rewrite <- app_assoc. Qed.
Lemma handle_at_ok ds j : (j < length ds)%nat -> zlen (image ds) < 2 ^ 63 -> handle_ok (handle_at ds j).
Proof.
  intros Hj Hsz. destruct (lookup_lt_is_Some_2 ds j Hj) as [x Hx]. unfold handle_at. rewrite Hx. rewrite (image_at ds j x Hx), !zlen_app in Hsz. pose proof (zlen_nonneg (image (take j ds))). pose proof (zlen_nonneg x.1). pose proof (zlen_nonneg (block_trailer x.1 x.2)). pose proof (zlen_nonneg (image (drop (S j) ds))).
  split; cbn; lia.
Qed.

(** ** The invariant of the builder *)

Section Facts.
Context {F : Type} (file : WritableFile F) (fdata : F -> bytes) `{!WritableLaws file fdata} (snappy : Snappy) `{!SnappyLaws snappy} (options : Options).
Context (dom : bytes -> Prop) `{!ComparatorLaws (comparator options) dom, !ShortKeys (comparator options)}.
Abbreviation c := (comparator options).
Abbreviation interval := (block_restart_interval options).
Implicit Types (r : TableRep F) (blocks : list (list (bytes * bytes))) (cur idx es : list (bytes * bytes)) (ds : list (bytes * CompressionType)) (x e : bytes * bytes).

Lemma cmp_le_lt a b d : dom a -> dom b -> dom d -> Compare c a b <= 0 -> Compare c b d < 0 -> Compare c a d < 0.
Proof. intros Ha Hb Hd Hab Hbd. destruct (Z.eq_dec (Compare c a b) 0) as [E|E]; [apply (cmp_eq a b Ha Hb) in E as ->; done|]. apply (cmp_trans a b d); [done..|lia|done]. Qed.
Lemma cmp_lt_le a b d : dom a -> dom b -> dom d -> Compare c a b < 0 -> Compare c b d <= 0 -> Compare c a d < 0.
Proof. intros Ha Hb Hd Hab Hbd. destruct (Z.eq_dec (Compare c b d) 0) as [E|E]; [apply (cmp_eq b d Hb Hd) in E as <-; done|]. apply (cmp_trans a b d); [done..|lia]. Qed.
Lemma cmp_le_le a b d : dom a -> dom b -> dom d -> Compare c a b <= 0 -> Compare c b d <= 0 -> Compare c a d <= 0.
Proof. intros Ha Hb Hd Hab Hbd. destruct (Z.eq_dec (Compare c a b) 0) as [E|E]; [apply (cmp_eq a b Ha Hb) in E as ->; done|]. pose proof (cmp_lt_le a b d Ha Hb Hd ltac:(lia) Hbd). lia. Qed.

(** A stored block and what it was made from. *)
Definition holds (x : bytes * CompressionType) (raw : bytes) : Prop := uncompressed snappy x.1 x.2 = Some raw /\ zlen x.1 <= zlen raw.
Lemma compress_block_holds raw : holds (compress_block snappy options raw) raw.
Proof using SnappyLaws0.
  unfold compress_block. destruct (compression options); [by split|]. destruct (Snappy_Compress snappy raw) as [z|] eqn:E; [|by split]. destruct (Z.ltb_spec (zlen z) (zlen raw - zlen raw / 8)); [|by split].
  apply uncompress_compressed in E as [E1 E2]. pose proof (Z.div_pos (zlen raw) 8 (zlen_nonneg raw) ltac:(lia)). split; cbn [fst snd]; [|lia]. unfold uncompressed. rewrite E1, E2. cbn. by rewrite to_nat_zlen, firstn_all.
Qed.

Definition on_disk r ds : Prop := fdata (t_file r) = image ds /\ t_offset r = zlen (image ds) /\ t_status r = OK.
Lemma WriteRawBlock_ok r ds (x : bytes * CompressionType) : on_disk r ds -> zlen (image ds) + zlen x.1 + 5 < 2 ^ 64 ->
  exists f, WriteRawBlock file x.1 x.2 r = (mkHandle (zlen (image ds)) (zlen x.1), set_file f OK (zlen (image (ds ++ [x]))) r) /\ fdata f = image (ds ++ [x]).
Proof using WritableLaws0.
  intros (Hd & Ho & Hs) Hsz. unfold WriteRawBlock. pose proof (append_ok (t_file r) x.1) as [E1 Hd1]. destruct (file_Append file (t_file r) x.1) as [s1 f1]. cbn [fst snd] in E1, Hd1. subst s1. cbn [ok].
  pose proof (append_ok f1 (block_trailer x.1 x.2)) as [E2 Hd2]. destruct (file_Append file f1 (block_trailer x.1 x.2)) as [s2 f2]. cbn [fst snd] in E2, Hd2. subst s2. cbn [ok]. exists f2.
  rewrite zlen_image_snoc, Ho. change kBlockTrailerSize with 5. pose proof (zlen_nonneg (image ds)). pose proof (zlen_nonneg x.1). rewrite u64_small by (unfold is_u64; lia). split; [done|].
  rewrite Hd2, Hd1, Hd, image_app. unfold image at 3. cbn [map concat]. by rewrite app_nil_r, app_assoc.
Qed.
Lemma WriteBlock_ok r ds block : on_disk r ds -> zlen (image ds) + zlen (Finish block).1 + 5 < 2 ^ 64 ->
  exists (x : bytes * CompressionType) f, WriteBlock file snappy options block r = Some (mkHandle (zlen (image ds)) (zlen x.1), set_file f OK (zlen (image (ds ++ [x]))) r) /\ fdata f = image (ds ++ [x]) /\ holds x (Finish block).1.
Proof using WritableLaws0 SnappyLaws0.
  intros Hd Hsz. unfold WriteBlock. pose proof Hd as (_ & _ & Hs). rewrite Hs. cbn [ok negb]. pose proof (compress_block_holds (Finish block).1) as Hh. destruct (compress_block snappy options (Finish block).1) as [z t].
  destruct (WriteRawBlock_ok r ds (z, t) Hd) as (f & E & Hf); [destruct Hh as [_ Hle]; cbn [fst snd] in *; lia|]. cbn [fst snd] in E. rewrite E. by exists (z, t), f.
Qed.

(** *** Filters *)

Definition filter_ok (fbo : option FilterBlockBuilder) (off : Z) blocks cur ds : Prop :=
  match filter_policy options with
  | None => fbo = None
  | Some p => exists fb gs ks, fbo = Some fb /\ filters p fb gs ks /\ zlen gs = off / kFilterBase /\ concat gs ++ ks = map fst (concat blocks ++ cur) /\
      (forall j b x, blocks !! j = Some b -> x ∈ b -> covered gs ks (handle_offset (handle_at ds j)) x.1) /\ (forall x, x ∈ cur -> covered gs ks off x.1)
  end.
Lemma set_filter_same r : set_filter_block (filter_block r) r = r.
Proof. by destruct r. Qed.
Lemma filter_add r off blocks cur ds e : filter_ok (filter_block r) off blocks cur ds ->
  exists fbo, on_filter options (fun _ fb => Some (AddKey e.1 fb)) r = Some (set_filter_block fbo r) /\ filter_ok fbo off blocks (cur ++ [e]) ds.
Proof.
  unfold filter_ok, on_filter. destruct (filter_policy options) as [p|]; [|intros Hn; exists None; split; [|done]; by rewrite <- Hn, set_filter_same].
  intros (fb & gs & ks & Hfb & Hf & Hgs & Hk & Hb & Hc). rewrite Hfb. cbn [mbind option_bind]. eexists. split; [done|]. exists (AddKey e.1 fb), gs, (ks ++ [e.1]). split; [done|]. split; [by apply AddKey_filters|]. split; [done|].
  split; [rewrite app_assoc, Hk, (app_assoc (concat blocks)); by rewrite (map_app fst (_ ++ cur))|]. split; [intros j b x Hj Hx; apply covered_more; by eapply Hb|]. intros x [Hx|Hx%list_elem_of_singleton]%elem_of_app; [apply covered_more; by apply Hc|]. subst x. by apply covered_new.
Qed.
Lemma filter_start r off off' blocks cur ds (x : bytes * CompressionType) : filter_ok (filter_block r) off blocks cur ds -> length ds = length blocks -> off = zlen (image ds) -> off <= off' ->
  exists fbo, on_filter options (fun p => StartBlock p off') r = Some (set_filter_block fbo r) /\ filter_ok fbo off' (blocks ++ [cur]) [] (ds ++ [x]).
Proof.
  unfold filter_ok, on_filter. destruct (filter_policy options) as [p|]; [|intros Hn _ _ _; exists None; split; [|done]; by rewrite <- Hn, set_filter_same].
  intros (fb & gs & ks & Hfb & Hf & Hgs & Hk & Hb & Hc) Hl Ho Hle. rewrite Hfb. destruct (StartBlock_filters p off' fb gs ks Hf) as (fb' & gs' & ks' & Hs & Hf' & Hg' & Hk' & Hcov); [rewrite Hgs; apply Z.div_le_mono; [done|lia]|].
  rewrite Hs. cbn [mbind option_bind]. eexists. split; [done|]. exists fb', gs', ks'. split; [done|]. split; [done|]. split; [done|]. split; [rewrite Hk', Hk, concat_app; cbn [concat]; by rewrite !app_nil_r|].
  split; [|intros y Hy; by apply elem_of_nil in Hy]. intros j b y [Hj|[-> <-]]%lookup_snoc_Some Hy; apply Hcov.
  - destruct Hj as [Hlt Hj]. rewrite handle_at_app by lia. by eapply Hb.
  - rewrite <- Hl, handle_at_snoc. cbn [handle_offset]. rewrite <- Ho. by apply Hc.
Qed.

(** *** Index entries *)

(** While entries are added, [NextKey k] says that the key [k] comes next; an
    index entry is made when it does. *)
Inductive stage := Between | NextKey (key : bytes) | Done.
Definition later blocks cur (j : nat) : list (bytes * bytes) := concat (drop (S j) blocks) ++ cur.
Definition sep_ok blocks cur (st : stage) (j : nat) (sep : bytes) : Prop :=
  exists b y, blocks !! j = Some b /\ last b = Some y /\ dom sep /\ (forall x, x ∈ b -> Compare c x.1 sep <= 0) /\ zlen sep <= zlen y.1 /\
  ((st = Done /\ later blocks cur j = []) \/
   exists t, sep = FindShortestSeparator c y.1 t /\ dom t /\ Compare c y.1 t < 0 /\ Compare c sep t < 0 /\ (forall x, x ∈ later blocks cur j -> Compare c t x.1 <= 0) /\
     (forall k, st = NextKey k -> Compare c t k <= 0) /\ ((exists x, x ∈ later blocks cur j /\ x.1 = t) \/ st = NextKey t)).
Lemma later_in blocks cur j x : x ∈ later blocks cur j -> x ∈ concat blocks ++ cur.
Proof. unfold later. intros [Hx|Hx]%elem_of_app; apply elem_of_app; [left|by right]. rewrite <- (take_drop (S j) blocks), concat_app. apply elem_of_app. by right. Qed.
Lemma sep_ok_raise blocks cur k j sep : sep_ok blocks cur Between j sep -> (forall x, x ∈ concat blocks ++ cur -> Compare c x.1 k < 0) -> sep_ok blocks cur (NextKey k) j sep.
Proof.
  intros (b & y & Hb & Hy & Hd & Hup & Hz & [[? _]|(t & H1 & H2 & H3 & H4 & H5 & _ & Hm)]) Hk; [done|]. exists b, y. do 5 (split; [done|]). right. exists t. do 5 (split; [done|]). destruct Hm as [(x & Hx & E)|?]; [|done]. split; [|left; by exists x].
  intros ? [= <-]. pose proof (Hk x (later_in _ _ _ _ Hx)). rewrite E in *. lia.
Qed.
Lemma sep_ok_done blocks cur j sep : sep_ok blocks cur Between j sep -> sep_ok blocks cur Done j sep.
Proof. intros (b & y & Hb & Hy & Hd & Hup & Hz & [[? _]|(t & H1 & H2 & H3 & H4 & H5 & _ & [Hm|?])]); [done| |done]. exists b, y. do 5 (split; [done|]). right. exists t. do 6 (split; [done|]). by left. Qed.
Lemma sep_ok_add blocks cur j sep e : dom e.1 -> sep_ok blocks cur (NextKey e.1) j sep -> sep_ok blocks (cur ++ [e]) Between j sep.
Proof.
  intros He (b & y & Hb & Hy & Hd & Hup & Hz & [[? _]|(t & H1 & H2 & H3 & H4 & H5 & H6 & Hm)]); [done|]. exists b, y. do 5 (split; [done|]). right. exists t. do 4 (split; [done|]). unfold later in *. rewrite app_assoc. split; [|split; [done|]].
  - intros x [Hx|Hx%list_elem_of_singleton]%elem_of_app; [by apply H5|]. subst x. by apply H6.
  - left. destruct Hm as [(x & Hx & E)|Hm]; [exists x; split; [|done]; apply elem_of_app; by left|]. injection Hm as Hm. exists e. split; [|done]. apply elem_of_app. right. by apply list_elem_of_singleton.
Qed.
Lemma sep_ok_flush blocks cur st j sep : sep_ok blocks cur st j sep -> sep_ok (blocks ++ [cur]) [] st j sep.
Proof.
  intros (b & y & Hb & H). exists b, y. split; [by apply lookup_app_l_Some|]. assert (later (blocks ++ [cur]) [] j = later blocks cur j) as ->; [|done]. unfold later.
  rewrite drop_app_le by (apply lookup_lt_Some in Hb; lia). rewrite concat_app. cbn [concat]. by rewrite !app_nil_r.
Qed.
(** The key of an index entry is before the blocks that follow. *)
Lemma sep_behind blocks cur st j sep x : sep_ok blocks cur st j sep -> x ∈ later blocks cur j -> dom x.1 -> Compare c sep x.1 < 0.
Proof using ComparatorLaws0.
  intros (b & y & Hb & Hy & Hd & Hup & Hz & [[_ E]|(t & H1 & H2 & H3 & H4 & H5 & _)]) Hx Hdx; [rewrite E in Hx; by apply elem_of_nil in Hx|]. apply (cmp_lt_le sep t x.1); [done..|]. by apply H5.
Qed.

Definition written (b : list (bytes * bytes)) (d : bytes * CompressionType) : Prop := b <> [] /\ holds d (raw_block interval b).

(** *** All of it: [blocks] were written as [ds], [cur] is in the data block,
    and [idx] in the index block. *)
Record building r blocks cur idx ds (st : stage) : Prop := mkBuilding {
  bd_disk : on_disk r ds;
  bd_open : closed r = false;
  bd_blocks : Forall2 written blocks ds;
  bd_cur : data_block r = block_Add_all interval newBlockBuilder cur;
  bd_index : index_block r = block_Add_all 1 newBlockBuilder idx;
  bd_pending : if pending_index_entry r then cur = [] /\ length blocks = S (length idx) /\ pending_handle r = handle_at ds (length idx) else length blocks = length idx;
  bd_handles : forall j e, idx !! j = Some e -> e.2 = handle_bytes (handle_at ds j);
  bd_seps : forall j e, idx !! j = Some e -> sep_ok blocks cur st j e.1;
  bd_count : num_entries r = zlen (concat blocks ++ cur);
  bd_filter : filter_ok (filter_block r) (t_offset r) blocks cur ds
}.

Lemma image_cost blocks ds : Forall2 written blocks ds -> zlen (image ds) <= cost (concat blocks).
Proof.
  induction 1 as [|b x blocks ds [Hne [_ Hle]] _ IH]; [done|]. change (x :: ds) with ([x] ++ ds). rewrite image_app, zlen_app. change (image [x]) with (image ([] ++ [x])). rewrite zlen_image_snoc. change (zlen (image [])) with 0. change kBlockTrailerSize with 5.
  cbn [concat]. rewrite cost_app. pose proof (raw_block_size interval b) as Hr. assert (1 <= zlen b) by (destruct b; [done|]; rewrite zlen_cons; pose proof (zlen_nonneg b); lia). lia.
Qed.

(** ** The steps keep the invariant *)

Lemma Flush_building r blocks cur idx ds st : building r blocks cur idx ds st -> cost (concat blocks ++ cur) < 2 ^ 32 ->
  exists r' blocks' ds', table_Flush file snappy options r = Some r' /\ building r' blocks' [] idx ds' st /\ concat blocks' = concat blocks ++ cur /\ t_last_key r' = t_last_key r.
Proof using WritableLaws0 SnappyLaws0.
  intros [Hdisk Hopen Hbl Hcur Hidx Hpend Hh Hsep Hn Hflt] Hcost. unfold table_Flush. rewrite Hopen. pose proof Hdisk as (_ & Hoff & ->). cbn [ok negb]. unfold block_empty. rewrite Hcur. case_bool_decide as Hbuf.
  - apply block_Add_all_empty in Hbuf as ->. exists r, blocks, ds. split; [done|]. split; [by split|]. by rewrite app_nil_r.
  - assert (cur <> []) as Hne by (by intros ->). destruct (pending_index_entry r) eqn:Hp; [by destruct Hpend|]. pose proof (image_cost blocks ds Hbl) as Him. pose proof (raw_block_size interval cur) as Hraw. rewrite cost_app in Hcost. pose proof (zlen_nonneg cur).
    destruct (WriteBlock_ok r ds (block_Add_all interval newBlockBuilder cur) Hdisk) as (x & f & E & Hf & Hx); [fold (raw_block interval cur); lia|]. rewrite E. cbn [mbind option_bind].
    cbn [t_status set_pending set_data_block set_file ok t_file t_offset pending_handle]. pose proof (flush_ok f) as [E1 Hf1]. destruct (file_Flush file f) as [s1 f1]. cbn [fst snd] in E1, Hf1. subst s1.
    set (r1 := set_file f1 OK _ _). pose proof (zlen_image_snoc ds x) as Hsn. change kBlockTrailerSize with 5 in Hsn. pose proof (zlen_nonneg x.1). pose proof (Forall2_length _ _ _ Hbl) as Hlen.
    destruct (filter_start r1 (t_offset r) (t_offset r1) blocks cur ds x) as (fbo & E2 & Hflt'); [exact Hflt|done|done|cbn; lia|]. rewrite E2.
    exists (set_filter_block fbo r1), (blocks ++ [cur]), (ds ++ [x]). split; [done|]. split; [|split; [|done]]; [|rewrite concat_app; cbn [concat]; by rewrite app_nil_r].
    split; cbn [r1 set_filter_block set_file set_pending set_data_block t_file t_offset t_status closed data_block index_block pending_index_entry pending_handle num_entries filter_block].
    + split; [cbn; by rewrite Hf1|done].
    + done.
    + apply Forall2_app; [done|]. constructor; [by split|constructor].
    + done.
    + done.
    + split; [done|]. rewrite length_app. cbn [length]. split; [lia|]. rewrite <- Hpend, Hlen, handle_at_snoc. done.
    + intros j e He. rewrite handle_at_app by (apply lookup_lt_Some in He; lia). by apply Hh.
    + intros j e He. by apply sep_ok_flush, Hsep.
    + rewrite concat_app. cbn [concat]. by rewrite !app_nil_r.
    + exact Hflt'.
Qed.

(** Emitting the index entry of the last block. *)
Lemma emit_building r blocks idx ds st st' sep : building r blocks [] idx ds st -> pending_index_entry r = true -> cost (concat blocks) < 2 ^ 32 -> sep_ok blocks [] st' (length idx) sep ->
  (forall j e, idx !! j = Some e -> sep_ok blocks [] st' j e.1) ->
  exists r', emit_index_entry sep r = Some r' /\ building r' blocks [] (idx ++ [(sep, handle_bytes (handle_at ds (length idx)))]) ds st' /\ pending_index_entry r' = false.
Proof.
  intros [Hdisk Hopen Hbl Hcur Hidx Hpend Hh _ Hn Hflt] Hp Hcost Hnew Hsep. rewrite Hp in Hpend. destruct Hpend as (_ & Hl & Hph). pose proof (Forall2_length _ _ _ Hbl) as Hlen. pose proof (image_cost blocks ds Hbl) as Him. unfold emit_index_entry.
  rewrite Hph, handle_EncodeTo_ok by (apply handle_at_ok; lia). cbn [mbind option_bind app]. eexists. split; [done|]. split; [|done].
  split; cbn [set_pending set_last_key set_index_block t_file t_offset t_status closed data_block index_block pending_index_entry pending_handle num_entries filter_block]; try done.
  - by rewrite Hidx, block_Add_all_snoc.
  - rewrite length_app. cbn [length]. lia.
  - intros j e [[_ He]|[-> <-]]%lookup_snoc_Some; [by apply Hh|done].
  - intros j e [[_ He]|[-> <-]]%lookup_snoc_Some; [by apply Hsep|done].
Qed.

(** The builder between two calls. *)
Definition last_is r es : Prop := forall x, last es = Some x -> t_last_key r = x.1.
Definition ready r es : Prop := exists blocks cur idx ds, building r blocks cur idx ds Between /\ concat blocks ++ cur = es /\ last_is r es.

Lemma entries_upto es x y : Forall (fun x => dom x.1) es -> StronglySorted (fun x y => Compare c x.1 y.1 < 0) es -> last es = Some y -> x ∈ es -> Compare c x.1 y.1 <= 0.
Proof using ComparatorLaws0.
  intros Hd Hs Hl Hx. apply last_Some in Hl as [l ->]. apply elem_of_app in Hx as [Hx|Hx%list_elem_of_singleton].
  - apply StronglySorted_app in Hs as (Hs & _). specialize (Hs x y Hx ltac:(by apply list_elem_of_singleton)). lia.
  - subst x. apply Forall_app in Hd as [_ Hd]. apply Forall_cons in Hd as [Hd _]. rewrite (proj2 (cmp_eq y.1 y.1 Hd Hd)); [lia|done].
Qed.
Lemma last_of_blocks blocks b y : blocks !! (length blocks - 1)%nat = Some b -> b <> [] -> last (concat blocks) = Some y -> last b = Some y.
Proof.
  intros Hb Hne Hy. destruct blocks as [|b0 bl] using rev_ind; [done|]. clear IHbl. rewrite length_app in Hb. cbn [length] in Hb. replace (length bl + 1 - 1)%nat with (length bl) in Hb by lia. rewrite lookup_app_r, Nat.sub_diag in Hb by lia. injection Hb as ->.
  rewrite concat_app in Hy. cbn [concat] in Hy. rewrite app_nil_r, last_app in Hy. destruct (last b) as [z|] eqn:E; [congruence|]. by apply last_None in E.
Qed.

(** The last block and its last key. *)
Lemma last_of r blocks idx ds st : building r blocks [] idx ds st -> pending_index_entry r = true -> last_is r (concat blocks) ->
  exists b y, blocks !! length idx = Some b /\ last b = Some y /\ t_last_key r = y.1 /\ last (concat blocks) = Some y /\ later blocks [] (length idx) = [].
Proof.
  intros Hb Hp Hl. pose proof (bd_pending _ _ _ _ _ _ Hb) as Hpend. rewrite Hp in Hpend. destruct Hpend as (_ & Hlen & _). assert (length idx = length blocks - 1)%nat as E by lia. rewrite E.
  assert (exists b, blocks !! (length blocks - 1)%nat = Some b) as [b Hbl] by (apply lookup_lt_is_Some_2; lia). destruct (Forall2_lookup_l _ _ _ _ _ (bd_blocks _ _ _ _ _ _ Hb) Hbl) as (d & _ & Hne & _).
  assert (exists y, last (concat blocks) = Some y) as [y Hy]. { destruct (last (concat blocks)) as [y|] eqn:Hln; [by exists y|]. apply last_None in Hln. destruct b as [|x b]; [done|]. assert (x ∈ concat blocks) as Hx by (apply list_elem_of_In, in_concat; exists (x :: b); split; [apply list_elem_of_In; by eapply list_elem_of_lookup_2|by left]). rewrite Hln in Hx. by apply elem_of_nil in Hx. }
  exists b, y. split; [done|]. split; [by eapply last_of_blocks|]. split; [by apply Hl|]. split; [done|]. unfold later. by rewrite drop_ge by lia.
Qed.
(** Its index entry: before the next key, or at the end. *)
Lemma separates r blocks idx ds st st' sep : building r blocks [] idx ds st -> pending_index_entry r = true -> Forall (fun x => dom x.1) (concat blocks) -> StronglySorted (fun x y => Compare c x.1 y.1 < 0) (concat blocks) -> last_is r (concat blocks) ->
  dom sep -> Compare c (t_last_key r) sep <= 0 -> zlen sep <= zlen (t_last_key r) ->
  (st' = Done \/ exists k, st' = NextKey k /\ sep = FindShortestSeparator c (t_last_key r) k /\ dom k /\ Compare c (t_last_key r) k < 0 /\ Compare c sep k < 0) -> sep_ok blocks [] st' (length idx) sep.
Proof using ComparatorLaws0.
  intros Hb Hp Hdom Hs Hl Hd Hlow Hz Hst. destruct (last_of r blocks idx ds st Hb Hp Hl) as (b & y & Hbl & Hlb & Hk & Hy & Hlt). rewrite Hk in *. exists b, y. split; [done|]. split; [done|]. split; [done|]. rewrite Forall_forall in Hdom.
  assert (forall x, x ∈ b -> x ∈ concat blocks) as Hin by (intros x Hx; apply list_elem_of_In, in_concat; exists b; split; apply list_elem_of_In; [by eapply list_elem_of_lookup_2|done]).
  assert (y ∈ b) as Hyb by (apply last_Some in Hlb as [l' ->]; apply elem_of_app; right; by apply list_elem_of_singleton). split.
  - intros x Hx. apply (cmp_le_le x.1 y.1 sep); [by apply Hdom, Hin..|done| |done]. apply (entries_upto (concat blocks)); [by apply Forall_forall|done|done|by apply Hin].
  - split; [done|]. rewrite Hlt. destruct Hst as [->|(k & -> & H1 & H2 & H3 & H4)]; [by left|]. right. exists k. do 4 (split; [done|]). split; [intros x Hx; by apply elem_of_nil in Hx|]. split; [|by right]. intros ? [= <-]. rewrite (proj2 (cmp_eq k k H2 H2)); [lia|done].
Qed.

Lemma add_building r blocks cur idx ds e : dom e.1 -> building r blocks cur idx ds (NextKey e.1) -> pending_index_entry r = false -> cost (concat blocks ++ cur ++ [e]) < 2 ^ 32 ->
  exists fbo, on_filter options (fun _ fb => Some (AddKey e.1 fb)) r = Some (set_filter_block fbo r) /\
    building (set_data_block (block_Add interval (data_block r) e.1 e.2) (set_last_key e.1 (i64 (num_entries r + 1)) (set_filter_block fbo r))) blocks (cur ++ [e]) idx ds Between.
Proof.
  intros He [Hdisk Hopen Hbl Hcur Hidx Hpend Hh Hsep Hn Hflt] Hp Hcost. rewrite Hp in Hpend. destruct (filter_add r (t_offset r) blocks cur ds e Hflt) as (fbo & E & Hflt'). exists fbo. split; [done|].
  split; cbn [set_data_block set_last_key set_filter_block t_file t_offset t_status closed data_block index_block pending_index_entry pending_handle num_entries filter_block]; try done.
  - by rewrite Hcur, block_Add_all_snoc.
  - by rewrite Hp.
  - intros j x Hj. by apply sep_ok_add; [|apply Hsep].
  - pose proof (cost_nonneg (concat blocks ++ cur ++ [e])) as Hc. rewrite app_assoc in *. pose proof (zlen_nonneg (concat blocks ++ cur)). rewrite Hn, (zlen_app _ [e]). rewrite (zlen_app _ [e]) in Hc. change (zlen [e]) with 1 in *. apply i64_small. unfold is_i64. lia.
Qed.

Lemma table_Add_ready r es e : ready r es -> Forall (fun x => dom x.1) (es ++ [e]) -> StronglySorted (fun x y => Compare c x.1 y.1 < 0) (es ++ [e]) -> cost (es ++ [e]) < 2 ^ 32 ->
  exists r', table_Add file snappy options e.1 e.2 r = Some r' /\ ready r' (es ++ [e]).
Proof using All.
  intros (blocks & cur & idx & ds & Hb & <- & Hlast) Hdom Hs Hcost. set (es := concat blocks ++ cur) in *. pose proof Hdom as [Hdes [Hde _]%Forall_cons]%Forall_app. pose proof Hs as (Hbefore & Hses & _)%StronglySorted_app.
  assert (forall x, x ∈ es -> Compare c x.1 e.1 < 0) as Hlt by (intros x Hx; apply Hbefore; [done|by apply list_elem_of_singleton]).
  unfold table_Add. rewrite (bd_open _ _ _ _ _ _ Hb). pose proof (bd_disk _ _ _ _ _ _ Hb) as (_ & _ & ->). cbn [ok negb].
  assert ((0 <? num_entries r) && negb (0 <? Compare c e.1 (t_last_key r)) = false) as ->.
  { rewrite (bd_count _ _ _ _ _ _ Hb). fold es. destruct (Z.ltb_spec 0 (zlen es)) as [Hpos|]; [|done]. destruct (last es) as [y|] eqn:Hy; [|apply last_None in Hy; by rewrite Hy in Hpos]. rewrite (Hlast y Hy).
    assert (y ∈ es) as Hin by (apply last_Some in Hy as [l ->]; apply elem_of_app; right; by apply list_elem_of_singleton). rewrite Forall_forall in Hdes. pose proof (Hlt y Hin) as Hye. apply (cmp_flip y.1 e.1 (Hdes y Hin) Hde) in Hye. by rewrite (proj2 (Z.ltb_lt _ _)). }
  assert (exists r1 idx1, (if pending_index_entry r then if block_empty (data_block r) then emit_index_entry (FindShortestSeparator c (t_last_key r) e.1) r else None else Some r) = Some r1 /\ building r1 blocks cur idx1 ds (NextKey e.1) /\ pending_index_entry r1 = false) as (r1 & idx1 & -> & Hb1 & Hp1).
  { assert (forall j x, idx !! j = Some x -> sep_ok blocks cur (NextKey e.1) j x.1) as Hraise by (intros j x Hj; apply sep_ok_raise; [by apply (bd_seps _ _ _ _ _ _ Hb)|done]).
    destruct (pending_index_entry r) eqn:Hp; [|exists r, idx; split; [done|]; split; [|done]; by destruct Hb; split].
    pose proof (bd_pending _ _ _ _ _ _ Hb) as Hpend. rewrite Hp in Hpend. destruct Hpend as (-> & Hlen & _). unfold es in *. rewrite app_nil_r in *. unfold block_empty. rewrite (bd_cur _ _ _ _ _ _ Hb), bool_decide_true by done.
    destruct (last_of r blocks idx ds Between Hb Hp Hlast) as (b & y & _ & _ & Hk & Hy & _). assert (y ∈ concat blocks) as Hin by (apply last_Some in Hy as [l ->]; apply elem_of_app; right; by apply list_elem_of_singleton).
    assert (dom (t_last_key r)) as Hd by (rewrite Hk; rewrite Forall_forall in Hdes; by apply Hdes). pose proof (Hlt y Hin) as Hye. rewrite <- Hk in Hye.
    destruct (emit_building r blocks idx ds Between (NextKey e.1) (FindShortestSeparator c (t_last_key r) e.1) Hb Hp) as (r1 & E1 & Hb1 & Hp1); [rewrite cost_app in Hcost; pose proof (cost_nonneg [e]); pose proof (zlen_nonneg [e]); lia| |done|by eexists _, _].
    eapply separates; [done|done|done|done|done|by apply sep_dom|by apply sep_low|apply sep_short|]. right. exists e.1. do 4 (split; [done|]). by apply sep_high. }
  cbn [mbind option_bind]. unfold es in Hcost. rewrite <- app_assoc in Hcost. destruct (add_building r1 blocks cur idx1 ds e Hde Hb1 Hp1 Hcost) as (fbo & -> & Hb2). cbn [mbind option_bind].
  set (r2 := set_data_block _ _) in Hb2. change (exists r', (if block_size options <=? CurrentSizeEstimate (data_block r2) then table_Flush file snappy options r2 else Some r2) = Some r' /\ ready r' (es ++ [e])).
  assert (forall x, last (concat blocks ++ cur ++ [e]) = Some x -> t_last_key r2 = x.1) as Hl2 by (intros x Hx; rewrite app_assoc, last_snoc in Hx; by injection Hx as <-). unfold es. rewrite <- app_assoc.
  destruct (block_size options <=? _); [|exists r2; split; [done|]; by exists blocks, (cur ++ [e]), idx1, ds].
  destruct (Flush_building r2 blocks (cur ++ [e]) idx1 ds Between Hb2 Hcost) as (r3 & bl3 & ds3 & -> & Hb3 & Hc3 & Hk3). exists r3. split; [done|]. exists bl3, [], idx1, ds3. split; [done|]. rewrite app_nil_r. split; [done|]. intros x Hx. rewrite Hk3. by apply Hl2.
Qed.

Lemma newTableBuilder_ready f : fdata f = [] -> exists r, newTableBuilder options f = Some r /\ ready r [].
Proof.
  intros Hf. unfold newTableBuilder, on_filter. set (r := mkTableRep _ _ _ _ _ _ _ _ _ _ _).
  assert (forall fbo, filter_ok fbo 0 [] [] [] -> ready (set_filter_block fbo r) []) as H.
  { intros fbo Hfbo. exists [], [], [], []. split; [|done]. by split. }
  destruct (filter_policy options) as [p|] eqn:Hp.
  - destruct (StartBlock_filters p 0 newFilterBlockBuilder [] []) as (fb & gs & ks & E & Hfb & Hg & Hk & _); [apply newFilterBlockBuilder_filters|done|]. cbn [filter_block r]. rewrite E. cbn [mbind option_bind]. eexists. split; [done|]. apply H. unfold filter_ok. rewrite Hp.
    exists fb, gs, ks. do 4 (split; [done|]). split; [by intros j b x Hj|]. intros x Hx. by apply elem_of_nil in Hx.
  - eexists. split; [done|]. rewrite <- (set_filter_same r). apply H. unfold filter_ok. by rewrite Hp.
Qed.
Lemma table_Add_all_ready es r es0 : ready r es0 -> Forall (fun x => dom x.1) (es0 ++ es) -> StronglySorted (fun x y => Compare c x.1 y.1 < 0) (es0 ++ es) -> cost (es0 ++ es) < 2 ^ 32 ->
  exists r', table_Add_all file snappy options es r = Some r' /\ ready r' (es0 ++ es).
Proof using All.
  revert r es0. induction es as [|e es IH]; intros r es0 Hr Hd Hs Hc; [exists r; by rewrite app_nil_r|]. unfold table_Add_all. cbn [foldl mbind option_bind]. rewrite (app_assoc es0 [e] es : es0 ++ e :: es = (es0 ++ [e]) ++ es) in *.
  destruct (table_Add_ready r es0 e Hr) as (r1 & -> & Hr1); [by apply Forall_app in Hd as [Hd _]|by apply StronglySorted_app in Hs as (_ & Hs & _)|rewrite cost_app in Hc; pose proof (cost_nonneg es); pose proof (zlen_nonneg es); lia|]. by apply IH.
Qed.

(** ** The finished table *)

Definition meta_entries (h : BlockHandle) : list (bytes * bytes) := match filter_policy options with Some p => [(filter_prefix ++ policy_Name p, handle_bytes h)] | None => [] end.

Record table_layout (data : bytes) es blocks idx ds (flt : list (bytes * CompressionType)) (meta ix : bytes * CompressionType) : Prop := mkTableLayout {
  tl_entries : concat blocks = es;
  tl_blocks : Forall2 written blocks ds;
  tl_len : length idx = length blocks;
  tl_handles : forall j e, idx !! j = Some e -> e.2 = handle_bytes (handle_at ds j);
  tl_seps : forall j e, idx !! j = Some e -> sep_ok blocks [] Done j e.1;
  tl_filter : match filter_policy options with
    | None => flt = []
    | Some p => exists fb gs ks, flt = [(filter_Finish p fb, kNoCompression)] /\ filters p fb gs ks /\ concat gs ++ ks = map fst es /\
        forall j b x, blocks !! j = Some b -> x ∈ b -> covered gs ks (handle_offset (handle_at ds j)) x.1
    end;
  tl_meta : holds meta (raw_block interval (meta_entries (handle_at (ds ++ flt) (length ds))));
  tl_index : holds ix (raw_block 1 idx);
  tl_data : data = image (ds ++ flt ++ [meta; ix]) ++ footer_bytes (mkFooter (handle_at (ds ++ flt ++ [meta; ix]) (length (ds ++ flt))) (handle_at (ds ++ flt ++ [meta; ix]) (S (length (ds ++ flt)))))
}.

Context (same : bytes -> bytes -> Prop) (limit : Z).
Hypothesis Hpolicy : forall p, filter_policy options = Some p -> FilterLaws p same limit /\ zlen (policy_Name p) < 2 ^ 31.

Definition refiled r r' : Prop := exists f s o, r' = set_file f s o r.
Lemma write_filter_ok r blocks ds : on_disk r ds -> filter_ok (filter_block r) (t_offset r) blocks [] ds -> length ds = length blocks -> zlen (concat blocks) <= limit -> zlen (image ds) < 2 ^ 32 ->
  exists flt r', write_filter file options r = (handle_at (ds ++ flt) (length ds), r') /\ refiled r r' /\ on_disk r' (ds ++ flt) /\ zlen (image (ds ++ flt)) < 2 ^ 62 /\
    match filter_policy options with
    | None => flt = []
    | Some p => exists fb gs ks, flt = [(filter_Finish p fb, kNoCompression)] /\ filters p fb gs ks /\ concat gs ++ ks = map fst (concat blocks) /\
        forall j b x, blocks !! j = Some b -> x ∈ b -> covered gs ks (handle_offset (handle_at ds j)) x.1
    end.
Proof using Hpolicy WritableLaws0.
  intros Hd Hf Hl Hlim Him. unfold filter_ok in Hf. unfold write_filter. pose proof Hd as (_ & Hoff & Hst). rewrite Hst. destruct (filter_policy options) as [p|] eqn:Hp.
  - destruct Hf as (fb & gs & ks & -> & Hf & Hg & Hk & Hcov & _). cbn [ok]. rewrite app_nil_r in Hk. destruct (Hpolicy p eq_refl) as [Hlaws _].
    pose proof (filter_Finish_size p same limit fb gs ks Hf) as Hsz. assert (zlen (concat gs ++ ks) = zlen (concat blocks)) as E by (rewrite Hk; unfold zlen; by rewrite length_map). rewrite E in Hsz. specialize (Hsz Hlim).
    assert (zlen gs <= 2 ^ 21) as Hgs by (rewrite Hg, Hoff; change kFilterBase with 2048; apply Z.lt_le_incl, Z.div_lt_upper_bound; lia).
    set (x := (filter_Finish p fb, kNoCompression)). destruct (WriteRawBlock_ok r ds x Hd) as (f & Ew & Hf'); [cbn [fst x]; lia|]. exists [x]. eexists. rewrite handle_at_snoc. split; [exact Ew|]. split; [by eexists _, _, _|]. split; [by split|].
    split; [rewrite zlen_image_snoc; change kBlockTrailerSize with 5; cbn [fst x]; lia|]. by exists fb, gs, ks.
  - exists [], r. rewrite app_nil_r. split; [unfold handle_at; by rewrite lookup_ge_None_2 by lia|]. split; [exists (t_file r), (t_status r), (t_offset r); by destruct r|]. split; [done|]. split; [lia|done].
Qed.

Lemma write_metaindex_ok r ds h : on_disk r ds -> zlen (image ds) < 2 ^ 62 -> (forall p, filter_policy options = Some p -> is_Some (filter_block r) /\ handle_ok h) ->
  exists meta r', write_metaindex file snappy options h r = Some (handle_at (ds ++ [meta]) (length ds), r') /\ refiled r r' /\ on_disk r' (ds ++ [meta]) /\ zlen (image (ds ++ [meta])) < 2 ^ 62 + 2 ^ 32 /\ holds meta (raw_block interval (meta_entries h)).
Proof using Hpolicy WritableLaws0 SnappyLaws0.
  intros Hd Him Hh. assert (exists b, match filter_policy options, filter_block r with Some p, Some _ => handle_encoding ← handle_EncodeTo h []; Some (block_Add interval newBlockBuilder (filter_prefix ++ policy_Name p) handle_encoding) | _, _ => Some newBlockBuilder end = Some b /\
    (Finish b).1 = raw_block interval (meta_entries h)) as (b & E & Hb).
  { unfold meta_entries. destruct (filter_policy options) as [p|] eqn:Hp; [|by eexists]. destruct (Hh p eq_refl) as [[fb ->] Hok]. rewrite handle_EncodeTo_ok by done. cbn [mbind option_bind app]. by eexists. }
  assert (cost (meta_entries h) < 2 ^ 31 + 200) as Hcost.
  { unfold meta_entries. destruct (filter_policy options) as [p|] eqn:Hp; [|done]. destruct (Hpolicy p eq_refl) as [_ Hn]. unfold cost. cbn [foldr]. unfold entry_cost. cbn [fst snd]. rewrite zlen_app. change (zlen filter_prefix) with 7. pose proof (zlen_handle h). lia. }
  unfold write_metaindex. pose proof Hd as (_ & _ & ->). cbn [ok negb]. rewrite E. cbn [mbind option_bind]. pose proof (raw_block_size interval (meta_entries h)) as Hraw. pose proof (zlen_nonneg (meta_entries h)).
  destruct (WriteBlock_ok r ds b Hd) as (x & f & Ew & Hf & Hx); [rewrite Hb; lia|]. exists x. eexists. rewrite Ew, handle_at_snoc. split; [done|]. split; [by eexists _, _, _|]. split; [by split|].
  rewrite Hb in Hx. split; [|done]. destruct Hx as [_ Hx]. rewrite zlen_image_snoc. change kBlockTrailerSize with 5. lia.
Qed.

Definition final_index r idx : list (bytes * bytes) := if pending_index_entry r then idx ++ [(FindShortSuccessor c (t_last_key r), handle_bytes (pending_handle r))] else idx.
Lemma write_index_ok r ds idx : on_disk r ds -> index_block r = block_Add_all 1 newBlockBuilder idx -> (pending_index_entry r = true -> handle_ok (pending_handle r)) -> zlen (image ds) < 2 ^ 62 + 2 ^ 32 -> zlen (raw_block 1 (final_index r idx)) < 2 ^ 33 ->
  exists ix r', write_index file snappy options r = Some (handle_at (ds ++ [ix]) (length ds), r') /\ on_disk r' (ds ++ [ix]) /\ zlen (image (ds ++ [ix])) < 2 ^ 63 - 100 /\ holds ix (raw_block 1 (final_index r idx)).
Proof using WritableLaws0 SnappyLaws0.
  intros Hd Hi Hh Him Hraw. unfold write_index. pose proof Hd as (_ & _ & ->). cbn [ok negb].
  assert (exists r1, (if pending_index_entry r then emit_index_entry (FindShortSuccessor c (t_last_key r)) r else Some r) = Some r1 /\ on_disk r1 ds /\ index_block r1 = block_Add_all 1 newBlockBuilder (final_index r idx)) as (r1 & -> & Hd1 & Hi1).
  { unfold final_index. destruct (pending_index_entry r); [|by exists r]. unfold emit_index_entry. rewrite handle_EncodeTo_ok by (by apply Hh). cbn [mbind option_bind app]. eexists. split; [done|]. split; [done|]. cbn [index_block set_pending set_last_key set_index_block]. by rewrite Hi, block_Add_all_snoc. }
  cbn [mbind option_bind]. destruct (WriteBlock_ok r1 ds (index_block r1) Hd1) as (x & f & -> & Hf & Hx); [rewrite Hi1; fold (raw_block 1 (final_index r idx)); lia|]. cbn [mbind option_bind]. rewrite Hi1 in Hx. fold (raw_block 1 (final_index r idx)) in Hx.
  exists x. eexists. rewrite handle_at_snoc. split; [done|]. split; [by split|]. split; [|done]. destruct Hx as [_ Hx]. rewrite zlen_image_snoc. change kBlockTrailerSize with 5. lia.
Qed.

Lemma index_cost blocks idx : length idx = length blocks -> (forall j e, idx !! j = Some e -> zlen e.2 <= 20 /\ exists b x, blocks !! j = Some b /\ x ∈ b /\ zlen e.1 <= zlen x.1) -> cost idx - 81 * zlen idx <= cost (concat blocks).
Proof.
  intros Hl H. assert (Forall2 (fun e b => entry_cost e - 81 <= cost b) idx blocks) as Hf.
  { apply Forall2_same_length_lookup. split; [done|]. intros j e b He Hb. destruct (H j e He) as (H2 & b' & x & Hb' & Hx & Hz). rewrite Hb in Hb'. injection Hb' as <-. apply cost_in in Hx. unfold entry_cost in *. pose proof (zlen_nonneg x.2). lia. }
  clear H Hl. induction Hf as [|e b idx blocks He _ IH]; [done|]. cbn [concat cost foldr]. fold (cost idx). rewrite cost_app, zlen_cons. lia.
Qed.

Lemma table_Finish_layout r es : ready r es -> Forall (fun x => dom x.1) es -> StronglySorted (fun x y => Compare c x.1 y.1 < 0) es -> cost es < 2 ^ 32 -> zlen es <= limit ->
  exists r' blocks idx ds flt meta ix, table_Finish file snappy options r = Some (OK, r') /\ table_layout (fdata (t_file r')) es blocks idx ds flt meta ix.
Proof using All.
  intros (blocks0 & cur & idx0 & ds0 & Hb0 & He & Hlast) Hdom Hs Hcost Hlim. unfold table_Finish. destruct (Flush_building r blocks0 cur idx0 ds0 _ Hb0) as (r1 & blocks & ds & -> & Hb & Hbl & Hk); [by rewrite He|]. rewrite He in Hbl. cbn [mbind option_bind]. rewrite (bd_open _ _ _ _ _ _ Hb).
  pose proof (image_cost _ _ (bd_blocks _ _ _ _ _ _ Hb)) as Him. rewrite Hbl in Him. pose proof (Forall2_length _ _ _ (bd_blocks _ _ _ _ _ _ Hb)) as Hlen.
  assert (last_is r1 (concat blocks)) as Hlast1 by (intros x Hx; rewrite Hk; apply Hlast; by rewrite Hbl in Hx).
  assert (exists r2, building r2 blocks [] (final_index r1 idx0) ds Done /\ pending_index_entry r2 = false) as (r2 & Hb2 & Hp2).
  { pose proof (bd_seps _ _ _ _ _ _ Hb) as Hseps. unfold final_index. destruct (pending_index_entry r1) eqn:Hp.
    - pose proof (bd_pending _ _ _ _ _ _ Hb) as Hpend. rewrite Hp in Hpend. destruct Hpend as (_ & _ & ->). destruct (last_of r1 blocks idx0 ds Between Hb Hp Hlast1) as (b & y & _ & _ & Hky & Hy & _).
      assert (dom (t_last_key r1)) as Hdk by (rewrite Hky; rewrite Hbl in Hy; apply last_Some in Hy as [l ->]; by apply Forall_app in Hdom as [_ [Hd _]%Forall_cons]).
      destruct (emit_building r1 blocks idx0 ds Between Done (FindShortSuccessor c (t_last_key r1)) Hb Hp) as (r2 & _ & Hb2 & Hp2); [by rewrite Hbl| | |by exists r2].
      + eapply separates; [done|done|by rewrite Hbl|by rewrite Hbl|done|by apply succ_dom|by apply succ_low|apply succ_short|by left].
      + intros j e Hj. apply sep_ok_done. by apply Hseps.
    - exists r1. split; [|done]. destruct Hb. split; try done. intros j e Hj. apply sep_ok_done. by apply Hseps. }
  set (idx := final_index r1 idx0) in *. assert (length idx = length blocks) as Hil by (pose proof (bd_pending _ _ _ _ _ _ Hb2) as Hpp; rewrite Hp2 in Hpp; done).
  assert (zlen (raw_block 1 idx) < 2 ^ 33) as Hraw.
  { pose proof (raw_block_size 1 idx). assert (cost idx - 81 * zlen idx <= cost (concat blocks)) as Hc; [|rewrite Hbl in Hc; lia]. apply index_cost; [done|]. intros j e Hj. rewrite (bd_handles _ _ _ _ _ _ Hb2 j e Hj). split; [apply zlen_handle|]. destruct (bd_seps _ _ _ _ _ _ Hb2 j e Hj) as (b & y & Hbj & Hy & _ & _ & Hz & _). exists b, y. split; [done|]. split; [|done]. apply last_Some in Hy as [l ->]. apply elem_of_app. right. by apply list_elem_of_singleton. }
  destruct (write_filter_ok (set_closed r1) blocks ds (bd_disk _ _ _ _ _ _ Hb) (bd_filter _ _ _ _ _ _ Hb) (eq_sym Hlen)) as (flt & r3 & -> & (f3 & s3 & o3 & E3) & Hd3 & Hi3 & Hflt); [by rewrite Hbl|lia|].
  destruct (write_metaindex_ok r3 (ds ++ flt) (handle_at (ds ++ flt) (length ds)) Hd3 Hi3) as (meta & r4 & -> & (f4 & s4 & o4 & E4) & Hd4 & Hi4 & Hmeta).
  { intros p Hp. rewrite Hp in Hflt. destruct Hflt as (fb & gs & ks & -> & _). split; [|apply handle_at_ok; [rewrite length_app; cbn; lia|lia]]. rewrite E3. cbn [filter_block set_file set_closed]. pose proof (bd_filter _ _ _ _ _ _ Hb) as Hfo. unfold filter_ok in Hfo. rewrite Hp in Hfo. destruct Hfo as (fb' & _ & _ & -> & _). by eexists. }
  cbn [mbind option_bind]. assert (final_index r4 idx0 = idx) as Hfin by (by rewrite E4, E3).
  destruct (write_index_ok r4 ((ds ++ flt) ++ [meta]) idx0 Hd4) as (ix & r5 & -> & Hd5 & Hi5 & Hix); [rewrite E4, E3; exact (bd_index _ _ _ _ _ _ Hb)| |lia|by rewrite Hfin|].
  { rewrite E4, E3. cbn [pending_index_entry pending_handle set_file set_closed]. intros Hp. pose proof (bd_pending _ _ _ _ _ _ Hb) as Hpend. rewrite Hp in Hpend. destruct Hpend as (_ & Hln & ->). apply handle_at_ok; [rewrite <- Hlen, Hln; apply Nat.lt_succ_diag_r|lia]. }
  rewrite Hfin in Hix. cbn [mbind option_bind]. set (all := ds ++ flt ++ [meta; ix]). assert (((ds ++ flt) ++ [meta]) ++ [ix] = all) as Eall by (unfold all; by rewrite <- !app_assoc). rewrite Eall in *.
  assert (handle_at ((ds ++ flt) ++ [meta]) (length (ds ++ flt)) = handle_at all (length (ds ++ flt))) as -> by (rewrite <- Eall; symmetry; apply handle_at_app; rewrite (length_app (ds ++ flt) [meta]); cbn [length]; lia).
  assert (length ((ds ++ flt) ++ [meta]) = S (length (ds ++ flt))) as -> by (rewrite (length_app (ds ++ flt) [meta]); cbn [length]; lia).
  assert (length all = S (S (length (ds ++ flt)))) as Hall by (rewrite <- Eall, !(length_app _ [_]); cbn; lia).
  unfold write_footer. pose proof Hd5 as (Hda & Hof & ->). cbn [ok negb]. rewrite footer_EncodeTo_ok by (apply handle_at_ok; cbn; lia). cbn [mbind option_bind].
  set (foot := mkFooter _ _). pose proof (append_ok (t_file r5) (footer_bytes foot)) as [E6 Hd6]. destruct (file_Append file (t_file r5) (footer_bytes foot)) as [s6 f6]. cbn [fst snd] in E6, Hd6. subst s6.
  eexists _, blocks, idx, ds, flt, meta, ix. split; [done|]. split; [done|exact (bd_blocks _ _ _ _ _ _ Hb)|done|exact (bd_handles _ _ _ _ _ _ Hb2)|exact (bd_seps _ _ _ _ _ _ Hb2)|by rewrite <- Hbl|done|done|]. cbn [t_file set_file]. rewrite Hd6, Hda. done.
Qed.

Lemma build_table_layout es f : fdata f = [] -> Forall (fun x => dom x.1) es -> StronglySorted (fun x y => Compare c x.1 y.1 < 0) es -> cost es < 2 ^ 32 -> zlen es <= limit ->
  exists r' blocks idx ds flt meta ix, build_table file snappy options es f = Some (OK, r') /\ table_layout (fdata (t_file r')) es blocks idx ds flt meta ix.
Proof using All.
  intros Hf Hd Hs Hc Hl. unfold build_table. destruct (newTableBuilder_ready f Hf) as (r0 & -> & Hr0). cbn [mbind option_bind]. destruct (table_Add_all_ready es r0 [] Hr0 Hd Hs Hc) as (r1 & -> & Hr1). cbn [mbind option_bind]. by apply table_Finish_layout.
Qed.
End Facts.
