(* ===== verification/Table.v ===== *)
(** * Reading a table: table/table.cc

    A [Block] is its contents; the cache of blocks is a record of functions on a
    state.  [None] stands for a failing assertion and for reading outside of a
    buffer, as in [TableFormat]. *)

From S2P Require Import Prelude CommonData Coding Bloom DbFormat LogFile DbIter TableBlock Merger TwoLevel FilterBlock TableFormat TableBuilder.
From Stdlib Require String.
Import (notations) String.

(** [Cache], with the calls of a table; [cache_Insert] takes the charge. *)
Record BlockCache (C : Type) : Type := mkBlockCache { cache_NewId : C -> Z * C; cache_Lookup : bytes -> C -> option bytes * C; cache_Insert : bytes -> bytes -> Z -> C -> C }.
Arguments mkBlockCache {C}. Arguments cache_NewId {C}. Arguments cache_Lookup {C}. Arguments cache_Insert {C}.

(** [Table::Rep]. *)
Record Table : Type := mkTable { tb_file : RandomAccessFile; cache_id : Z; tb_filter : option FilterBlockReader; tb_metaindex_handle : BlockHandle; tb_index_block : bytes }.

(** [NewIterator] on a block and [Seek]: the entry found and the status. *)
Definition block_seek (c : Comparator) (data k : bytes) : option (option (bytes * bytes) * LStatus) :=
  match block_NewIterator data with
  | ErrorIterator s => Some (None, s)
  | EmptyIterator => Some (None, OK)
  | EntryIterator restarts num => it ← bi_Seek c data restarts num k (newBlockIter restarts num); Some (bi_shows data restarts it, bi_status it)
  end.

Section Table.
Context {C : Type} (cache : option (BlockCache C)) (snappy : Snappy) (options : Options).

Definition ReadFilter (filter_handle_value : bytes) (t : Table) : option Table :=
  match handle_DecodeFrom filter_handle_value with
  | inl _ => Some t
  | inr (filter_handle, _) =>
      r ← ReadBlock snappy (tb_file t) (paranoid_checks options) filter_handle;
      match r with
      | inl _ => Some t
      | inr block => Some (mkTable (tb_file t) (cache_id t) (Some (newFilterBlockReader (contents_data block))) (tb_metaindex_handle t) (tb_index_block t))
      end
  end.
Definition ReadMeta (footer : Footer) (t : Table) : option Table :=
  match filter_policy options with
  | None => Some t
  | Some p =>
      r ← ReadBlock snappy (tb_file t) (paranoid_checks options) (metaindex_handle footer);
      match r with
      | inl _ => Some t
      | inr contents =>
          let key := filter_prefix ++ policy_Name p in
          '(e, _) ← block_seek BytewiseComparator (contents_data contents) key;
          match e with
          | Some e => if decide (e.1 = key) then ReadFilter e.2 t else Some t
          | None => Some t
          end
      end
  end.
Definition table_Open (file : RandomAccessFile) (size : Z) (s : C) : option ((LStatus + Table) * C) :=
  if size <? kEncodedLength then Some (inl (Corruption "file is too short to be an sstable"%string), s)
  else
    let '(st, footer_input, _) := random_Read file (size - kEncodedLength) kEncodedLength in
    if negb (ok st) then Some (inl st, s)
    else
      f ← footer_DecodeFrom footer_input;
      match f with
      | inl st => Some (inl st, s)
      | inr (footer, _) =>
          r ← ReadBlock snappy file (paranoid_checks options) (index_handle footer);
          match r with
          | inl st => Some (inl st, s)
          | inr index_block_contents =>
              let '(id, s) := match cache with Some bc => cache_NewId bc s | None => (0, s) end in
              t ← ReadMeta footer (mkTable file id None (metaindex_handle footer) (contents_data index_block_contents));
              Some (inr t, s)
          end
      end.

Definition cache_key (id offset : Z) : bytes := EncodeFixed64 id ++ EncodeFixed64 offset.
(** The contents of the block of an index entry, or the status of the error
    iterator. *)
Definition BlockReader (verify_checksums fill_cache : bool) (t : Table) (index_value : bytes) (s : C) : option ((LStatus + bytes) * C) :=
  match handle_DecodeFrom index_value with
  | inl st => Some (inl st, s)
  | inr (handle, _) =>
      match cache with
      | Some block_cache =>
          let key := cache_key (cache_id t) (handle_offset handle) in
          let '(found, s) := cache_Lookup block_cache key s in
          match found with
          | Some block => Some (inr block, s)
          | None =>
              r ← ReadBlock snappy (tb_file t) verify_checksums handle;
              match r with
              | inl st => Some (inl st, s)
              | inr contents =>
                  let block := contents_data contents in
                  Some (inr block, if cachable contents && fill_cache then cache_Insert block_cache key block (newBlock block).1 s else s)
              end
          end
      | None =>
          r ← ReadBlock snappy (tb_file t) verify_checksums handle;
          match r with
          | inl st => Some (inl st, s)
          | inr contents => Some (inr (contents_data contents), s)
          end
      end
  end.

(** The status, and the entry for which the function [saver] is called. *)
Definition InternalGet (verify_checksums fill_cache : bool) (t : Table) (k : bytes) (s : C) : option (LStatus * option (bytes * bytes) * C) :=
  '(e, iiter_status) ← block_seek (comparator options) (tb_index_block t) k;
  '(st, saved, s) ←
    match e with
    | None => Some (OK, None, s)
    | Some (_, handle_value) =>
        if match tb_filter t, filter_policy options with
           | Some filter, Some p => match handle_DecodeFrom handle_value with inr (handle, _) => negb (reader_KeyMayMatch p filter (handle_offset handle) k) | inl _ => false end
           | _, _ => false
           end
        then Some (OK, None, s)
        else
          '(r, s) ← BlockReader verify_checksums fill_cache t handle_value s;
          match r with
          | inl st => Some (st, None, s)
          | inr block => '(saved, st) ← block_seek (comparator options) block k; Some (st, saved, s)
          end
    end;
  Some (if ok st then iiter_status else st, saved, s).

Definition ApproximateOffsetOf (t : Table) (key : bytes) : option Z :=
  '(e, _) ← block_seek (comparator options) (tb_index_block t) key;
  Some match e with
    | Some (_, v) => match handle_DecodeFrom v with inr (handle, _) => handle_offset handle | inl _ => handle_offset (tb_metaindex_handle t) end
    | None => handle_offset (tb_metaindex_handle t)
    end.
End Table.

(** ** The interface of the cache *)

(** [content] bounds what a lookup can find: entries can be lost, but not
    change. *)
Class CacheLaws {C : Type} (bc : BlockCache C) (content : C -> bytes -> option bytes) : Prop := {
  lookup_sound k s d : (cache_Lookup bc k s).1 = Some d -> content s k = Some d;
  lookup_keeps k s k' d : content (cache_Lookup bc k s).2 k' = Some d -> content s k' = Some d;
  insert_adds k d n s k' d' : content (cache_Insert bc k d n s) k' = Some d' -> (k' = k /\ d' = d) \/ content s k' = Some d'
}.

(** ** Seeking in a block that was built *)

Definition first_from (c : Comparator) (k : bytes) (es : list (bytes * bytes)) : option (bytes * bytes) := snd <$> list_find (fun x => 0 <= Compare c x.1 k) es.
Lemma block_seek_raw c dom interval es k `{!ComparatorLaws c dom} : 1 <= interval -> cost es < 2 ^ 32 - 8 -> Forall (fun x => dom x.1) es -> StronglySorted (fun x y => Compare c x.1 y.1 < 0) es -> dom k ->
  block_seek c (raw_block interval es) k = Some (first_from c k es, OK).
Proof.
  intros Hi Hc Hd Hs Hk. pose proof (raw_block_size interval es) as Hsz. pose proof (zlen_nonneg es). unfold raw_block in *. set (b := block_Add_all interval newBlockBuilder es) in *.
  destruct (block_Add_all_built interval es newBlockBuilder [] [] [0%nat] newBlockBuilder_built Hi) as (bs & rs & Hb); [apply cost_small; lia|fold b; pose proof (Finish_grows b); lia|]. cbn [app] in Hb. fold b in Hb. pose proof (Finish_block b es bs rs Hb ltac:(lia)) as E. rewrite E in *.
  assert (layout es bs rs) as Hl by (split; [by eapply built_laid|lia]). unfold block_seek. rewrite (NewIterator_layout es bs rs Hl).
  destruct (bi_Seek_spec es bs rs Hl c dom Hd Hs (newBlockIter (off bs (length es)) (zlen rs)) k Hk) as (it & Hit & Hst); [done|]. rewrite Hit. cbn [mbind option_bind].
  rewrite (bstands_shows es bs rs Hl it _ Hst). destruct (bstands_valid es bs rs Hl it _ Hst) as [_ ->]. do 2 f_equal. unfold first_from. destruct (list_find _ es) as [[i x]|] eqn:Ef; [|done]. cbn. by apply list_find_Some in Ef as (-> & _).
Qed.

Section First.
Context (c : Comparator) (k : bytes).
Implicit Types (l : list (bytes * bytes)) (e : bytes * bytes).
Lemma first_from_app a l : (forall x, x ∈ a -> Compare c x.1 k < 0) -> first_from c k (a ++ l) = first_from c k l.
Proof.
  induction a as [|x a IH]; intros Ha; [done|]. specialize (IH ltac:(intros y Hy; apply Ha; by right)). unfold first_from in *. cbn [app list_find]. rewrite decide_False by (specialize (Ha x ltac:(by left)); lia). rewrite <- IH. by destruct (list_find _ (a ++ l)) as [[]|].
Qed.
Lemma first_from_early l l' e : first_from c k l = Some e -> first_from c k (l ++ l') = Some e.
Proof. unfold first_from. intros H. destruct (list_find _ l) as [[i x]|] eqn:E; [|done]. cbn in H. injection H as ->. by erewrite list_find_app_l. Qed.
Lemma first_from_none l : first_from c k l = None -> forall x, x ∈ l -> Compare c x.1 k < 0.
Proof. unfold first_from. intros H%fmap_None x Hx. apply list_find_None in H. rewrite Forall_forall in H. specialize (H x Hx). cbn in H. lia. Qed.
Lemma first_from_head e l : 0 <= Compare c e.1 k -> first_from c k (e :: l) = Some e.
Proof. intros H. unfold first_from. cbn [list_find]. by rewrite decide_True by done. Qed.
Lemma first_from_spec l e : first_from c k l = Some e -> exists a b, l = a ++ e :: b /\ (forall x, x ∈ a -> Compare c x.1 k < 0) /\ 0 <= Compare c e.1 k.
Proof.
  unfold first_from. intros ([i x] & Hf & [= ->])%fmap_Some. apply list_find_Some in Hf as (Hi & Hp & Hb). exists (take i l), (drop (S i) l). split; [by rewrite take_drop_middle|]. split; [|done].
  intros y [j Hj]%list_elem_of_lookup_1. apply lookup_take_Some in Hj as [Hj Hlt]. specialize (Hb j y Hj Hlt). lia.
Qed.
End First.

(** What a comparator must do for keys that are the [same]: a separator does
    not part a key from the first one that is the same. *)
Class SeparatorLaws (c : Comparator) (dom : bytes -> Prop) (same : bytes -> bytes -> Prop) : Prop :=
  sep_same_key a b k : dom a -> dom b -> dom k -> Compare c a b < 0 -> Compare c a k < 0 -> Compare c k b <= 0 -> same k b -> Compare c (FindShortestSeparator c a b) k < 0.
Lemma separator_eq c dom `{!ComparatorLaws c dom} : SeparatorLaws c dom eq.
Proof. intros a b k Ha Hb _ Hab _ _ ->. by apply sep_high. Qed.

(** ** A table that was built *)

Section Read.
Context {C : Type} (cache : option (BlockCache C)) (content : C -> bytes -> option bytes) (Hcache : forall bc, cache = Some bc -> CacheLaws bc content).
Context (snappy : Snappy) (options : Options) (dom : bytes -> Prop) `{!ComparatorLaws (comparator options) dom} (same : bytes -> bytes -> Prop) `{!SeparatorLaws (comparator options) dom same} (limit : Z).
Context (Hpolicy : forall p, filter_policy options = Some p -> FilterLaws p same limit /\ zlen (policy_Name p) < 2 ^ 31) (Hinterval : 1 <= block_restart_interval options).
Context (data : bytes) (es : list (bytes * bytes)) (blocks : list (list (bytes * bytes))) (idx : list (bytes * bytes)) (ds flt : list (bytes * CompressionType)) (meta ix : bytes * CompressionType).
Context (Hlay : table_layout snappy options dom data es blocks idx ds flt meta ix) (Hsize : zlen data < 2 ^ 32).
Context (Hdom : Forall (fun x => dom x.1) es) (Hsorted : StronglySorted (fun x y => Compare (comparator options) x.1 y.1 < 0) es) (Hcost : cost es < 2 ^ 31 - 8) (Hlimit : zlen es <= limit).
Context (file : RandomAccessFile) `{!RandomLaws file data}.
Abbreviation c := (comparator options).
Abbreviation interval := (block_restart_interval options).
Abbreviation all := (ds ++ flt ++ [meta; ix]).
Abbreviation foot := (mkFooter (handle_at all (length (ds ++ flt))) (handle_at all (S (length (ds ++ flt))))).

Lemma image_small : zlen (image all) + 48 = zlen data.
Proof using Hlay. rewrite (tl_data _ _ _ _ _ _ _ _ _ _ _ Hlay), zlen_app, zlen_footer. done. Qed.
Lemma read_at j x raw verify : all !! j = Some x -> holds snappy x raw -> exists ct, ReadBlock snappy file verify (handle_at all j) = Some (inr ct) /\ contents_data ct = raw.
Proof using Hlay Hsize RandomLaws0.
  intros Hj [Hu _]. unfold handle_at. rewrite Hj. eapply (ReadBlock_written _ _ data); [done| |lia|exact Hu]. rewrite (tl_data _ _ _ _ _ _ _ _ _ _ _ Hlay) at 1. rewrite (image_at all j x Hj). rewrite <- !app_assoc. done.
Qed.
Lemma handle_all_ok j : (j < length all)%nat -> handle_ok (handle_at all j).
Proof using Hlay Hsize. intros Hj. apply handle_at_ok; [done|]. pose proof image_small. lia. Qed.
Lemma footer_read : (random_Read file (zlen data - kEncodedLength) kEncodedLength).1 = (OK, footer_bytes foot).
Proof using Hlay RandomLaws0.
  pose proof image_small as H. pose proof (zlen_nonneg (image all)). change kEncodedLength with 48. rewrite random_read_ok by lia. f_equal. replace (zlen data - 48) with (zlen (image all)) by lia. rewrite (tl_data _ _ _ _ _ _ _ _ _ _ _ Hlay), to_nat_zlen, drop_app_length.
  apply take_ge. pose proof (zlen_footer foot) as Hf. change kEncodedLength with 48 in Hf. unfold zlen in Hf. lia.
Qed.

(** [Open] finds the index and the filter. *)
Definition opened (t : Table) (id : Z) : Prop :=
  tb_file t = file /\ cache_id t = id /\ tb_index_block t = raw_block 1 idx /\
  match filter_policy options with None => tb_filter t = None | Some p => exists fb, flt = [(filter_Finish p fb, kNoCompression)] /\ tb_filter t = Some (newFilterBlockReader (filter_Finish p fb)) end.
Lemma ReadMeta_ok id raw_index : raw_index = raw_block 1 idx -> exists t, ReadMeta snappy options foot (mkTable file id None (metaindex_handle foot) raw_index) = Some t /\ opened t id.
Proof using Hlay Hsize RandomLaws0 Hpolicy Hinterval.
  intros ->. unfold ReadMeta, opened. pose proof (tl_filter _ _ _ _ _ _ _ _ _ _ _ Hlay) as Hf. pose proof (tl_meta _ _ _ _ _ _ _ _ _ _ _ Hlay) as Hm. unfold meta_entries in Hm. destruct (filter_policy options) as [p|] eqn:Hp; [|by eexists].
  destruct Hf as (fb & gs & ks & Hflt & _). destruct (Hpolicy p eq_refl) as [_ Hname]. set (h := handle_at (ds ++ flt) (length ds)) in *. cbn [tb_file metaindex_handle].
  assert (all !! length (ds ++ flt) = Some meta) as Hmt by (by rewrite app_assoc, lookup_app_r, Nat.sub_diag by lia). destruct (read_at _ meta _ (paranoid_checks options) Hmt Hm) as (ct & -> & Hct). cbn [mbind option_bind]. rewrite Hct.
  pose proof (zlen_handle h) as Hzh. assert (cost [(filter_prefix ++ policy_Name p, handle_bytes h)] < 2 ^ 32 - 8) as Hc.
  { unfold cost. cbn [foldr]. unfold entry_cost. cbn [fst snd]. rewrite zlen_app. change (zlen filter_prefix) with 7. lia. }
  rewrite (block_seek_raw BytewiseComparator (fun _ => True) interval _ _ Hinterval Hc) by (done || by repeat constructor).
  rewrite first_from_head by (cbn [fst]; rewrite (proj2 (cmp_eq (c := BytewiseComparator) (dom := fun _ => True) (filter_prefix ++ policy_Name p) _ I I) eq_refl); lia). cbn [mbind option_bind fst snd]. rewrite decide_True by done.
  assert (h = handle_at all (length ds)) as -> by (unfold h; rewrite (app_assoc ds flt); symmetry; apply handle_at_app; rewrite length_app, Hflt; cbn; lia).
  assert (all !! length ds = Some (filter_Finish p fb, kNoCompression)) as Hfl by (by rewrite lookup_app_r, Nat.sub_diag, Hflt by lia). unfold ReadFilter.
  rewrite <- (app_nil_r (handle_bytes _)), handle_roundtrip by (apply handle_all_ok; apply lookup_lt_Some in Hfl; done). cbn [tb_file]. destruct (read_at _ _ (filter_Finish p fb) (paranoid_checks options) Hfl) as (cf & -> & Hcf); [by split|]. cbn [mbind option_bind]. rewrite Hcf.
  eexists. split; [done|]. do 3 (split; [done|]). by exists fb.
Qed.
Lemma table_Open_ok s : exists t, let '(id, s') := match cache with Some bc => cache_NewId bc s | None => (0, s) end in table_Open cache snappy options file (zlen data) s = Some (inr t, s') /\ opened t id.
Proof using Hlay Hsize RandomLaws0 Hpolicy Hinterval.
  unfold table_Open. pose proof image_small as Him. pose proof (zlen_nonneg (image all)). change kEncodedLength with 48 at 1. destruct (Z.ltb_spec (zlen data) 48); [lia|]. pose proof footer_read as Hfr. destruct (random_Read file _ _) as [[st inp] own]. cbn [fst] in Hfr. apply pair_equal_spec in Hfr as [-> ->]. cbn [ok negb].
  assert (all !! length (ds ++ flt) = Some meta) as Hmt by (by rewrite app_assoc, lookup_app_r, Nat.sub_diag by lia). assert (all !! S (length (ds ++ flt)) = Some ix) as Hit by (rewrite app_assoc, lookup_app_r by lia; by replace (S (length (ds ++ flt)) - length (ds ++ flt))%nat with 1%nat by lia).
  rewrite <- (app_nil_r (footer_bytes foot)), footer_roundtrip by (apply handle_all_ok; eapply lookup_lt_Some; done). cbn [mbind option_bind index_handle].
  destruct (read_at _ ix _ (paranoid_checks options) Hit (tl_index _ _ _ _ _ _ _ _ _ _ _ Hlay)) as (ct & -> & Hct). cbn [mbind option_bind]. destruct (match cache with Some bc => cache_NewId bc s | None => (0, s) end) as [id s'].
  destruct (ReadMeta_ok id (contents_data ct) Hct) as (t & E & Ho). exists t. rewrite E. done.
Qed.

(** *** Blocks *)

Lemma in_block_in j b x : blocks !! j = Some b -> x ∈ b -> x ∈ es.
Proof using Hlay. intros Hb Hx. rewrite <- (tl_entries _ _ _ _ _ _ _ _ _ _ _ Hlay). apply list_elem_of_In, in_concat. exists b. split; apply list_elem_of_In; [by eapply list_elem_of_lookup_2|done]. Qed.
Lemma cost_concat bl (b : list (bytes * bytes)) : b ∈ bl -> cost b <= cost (concat bl).
Proof. intros (a & d & ->)%list_elem_of_split. rewrite concat_app, cost_app. cbn [concat]. rewrite cost_app. pose proof (cost_nonneg (concat a)). pose proof (cost_nonneg (concat d)). pose proof (zlen_nonneg (concat a)). pose proof (zlen_nonneg (concat d)). lia. Qed.
Lemma block_parts_of j b : blocks !! j = Some b -> es = concat (take j blocks) ++ b ++ later blocks [] j.
Proof using Hlay. intros Hb. rewrite <- (tl_entries _ _ _ _ _ _ _ _ _ _ _ Hlay). rewrite <- (take_drop_middle blocks j b Hb) at 1. rewrite concat_app. cbn [concat]. unfold later. by rewrite app_nil_r. Qed.
Lemma block_ok j b : blocks !! j = Some b -> Forall (fun x => dom x.1) b /\ StronglySorted (fun x y => Compare c x.1 y.1 < 0) b /\ cost b < 2 ^ 32 - 8.
Proof using Hlay Hdom Hsorted Hcost.
  intros Hb. pose proof (block_parts_of j b Hb) as E. pose proof (cost_concat blocks b ltac:(by eapply list_elem_of_lookup_2)) as Hc. rewrite (tl_entries _ _ _ _ _ _ _ _ _ _ _ Hlay) in Hc. rewrite E in Hdom, Hsorted.
  split; [by apply Forall_app in Hdom as [_ [Hd _]%Forall_app]|]. split; [by apply StronglySorted_app in Hsorted as (_ & _ & (_ & Hs & _)%StronglySorted_app)|lia].
Qed.
Lemma seek_block j b k : blocks !! j = Some b -> dom k -> block_seek c (raw_block interval b) k = Some (first_from c k b, OK).
Proof using Hlay Hdom Hsorted Hcost Hinterval ComparatorLaws0. intros Hb Hk. destruct (block_ok j b Hb) as (Hd & Hs & Hc). by apply (block_seek_raw c dom). Qed.

Lemma offset_at j b : blocks !! j = Some b -> exists x, ds !! j = Some x /\ handle_at ds j = mkHandle (zlen (image (take j ds))) (zlen x.1) /\ handle_at ds j = handle_at all j /\ holds snappy x (raw_block interval b).
Proof using Hlay.
  intros Hb. destruct (Forall2_lookup_l _ _ _ _ _ (tl_blocks _ _ _ _ _ _ _ _ _ _ _ Hlay) Hb) as (x & Hx & _ & Hh). exists x. split; [done|]. split; [unfold handle_at; by rewrite Hx|]. split; [|done]. symmetry. apply handle_at_app. by eapply lookup_lt_Some.
Qed.
Lemma image_take_lt (l : list (bytes * CompressionType)) i j : (i < j)%nat -> (j <= length l)%nat -> zlen (image (take i l)) < zlen (image (take j l)).
Proof.
  intros Hij Hj. destruct (lookup_lt_is_Some_2 l i ltac:(lia)) as [x Hx]. rewrite <- (take_drop (S i) (take j l)). rewrite take_take, Nat.min_l by lia. rewrite (take_S_r _ _ _ Hx), image_app, zlen_app, zlen_image_snoc. change kBlockTrailerSize with 5. pose proof (zlen_nonneg x.1). pose proof (zlen_nonneg (image (drop (S i) (take j l)))). lia.
Qed.
Lemma offset_inj i j a b : blocks !! i = Some a -> blocks !! j = Some b -> handle_offset (handle_at ds i) = handle_offset (handle_at ds j) -> a = b.
Proof using Hlay.
  intros Ha Hb. destruct (offset_at i a Ha) as (x & Hx & -> & _). destruct (offset_at j b Hb) as (y & Hy & -> & _). cbn. apply lookup_lt_Some in Hx, Hy. intros E. destruct (Nat.lt_trichotomy i j) as [H|[->|H]]; [pose proof (image_take_lt ds i j H ltac:(lia)); lia|congruence|pose proof (image_take_lt ds j i H ltac:(lia)); lia].
Qed.
Lemma offset_range j b : blocks !! j = Some b -> 0 <= handle_offset (handle_at ds j) < 2 ^ 32.
Proof using Hlay Hsize.
  intros Hb. destruct (offset_at j b Hb) as (x & Hx & E & Ea & _). rewrite E. cbn. pose proof image_small as Him. rewrite image_app, zlen_app, (image_at ds j x Hx), zlen_app in Him. pose proof (zlen_nonneg (image (take j ds))). pose proof (zlen_nonneg (x.1 ++ block_trailer x.1 x.2 ++ image (drop (S j) ds))). pose proof (zlen_nonneg (image (flt ++ [meta; ix]))). lia.
Qed.

(** *** The cache holds blocks of the table under their offsets. *)
Definition cache_ok (id : Z) (s : C) : Prop :=
  forall bc, cache = Some bc -> forall j b d, blocks !! j = Some b -> content s (cache_key id (handle_offset (handle_at ds j))) = Some d -> d = raw_block interval b.
Lemma cache_key_inj id a b : is_u64 a -> is_u64 b -> cache_key id a = cache_key id b -> a = b.
Proof. unfold cache_key. intros Ha Hb E%app_inv_head. by rewrite <- (fixed64_roundtrip a [] Ha), <- (fixed64_roundtrip b [] Hb), E. Qed.
Lemma BlockReader_ok verify fill t id s j b : opened t id -> cache_ok id s -> blocks !! j = Some b -> exists s', BlockReader cache snappy verify fill t (handle_bytes (handle_at ds j)) s = Some (inr (raw_block interval b), s') /\ cache_ok id s'.
Proof using Hlay Hsize RandomLaws0 Hcache.
  intros (Hf & Hid & _) Hs Hb. destruct (offset_at j b Hb) as (x & Hx & _ & E & Hh). assert (all !! j = Some x) as Ha by (by apply lookup_app_l_Some). unfold BlockReader.
  rewrite <- (app_nil_r (handle_bytes _)), E, handle_roundtrip by (apply handle_all_ok; by eapply lookup_lt_Some). destruct (read_at j x _ verify Ha Hh) as (ct & Hr & Hct). rewrite Hf, Hid. rewrite <- E in *.
  destruct cache as [bc|] eqn:Hca; [|rewrite Hr; cbn [mbind option_bind]; rewrite Hct; by exists s]. pose proof (Hcache bc eq_refl) as Hlaws. set (key := cache_key id (handle_offset (handle_at ds j))).
  pose proof (lookup_sound key s) as Hls. pose proof (lookup_keeps key s) as Hlk. destruct (cache_Lookup bc key s) as [found s1]. cbn [fst snd] in Hls, Hlk.
  assert (cache_ok id s1) as Hs1 by (intros bc' Hbc j' b' d Hj' Hd; eapply Hs; [done|done|by apply Hlk]).
  destruct found as [d|]; [exists s1; split; [|done]; by rewrite (Hs bc Hca j b d Hb (Hls d eq_refl))|]. rewrite Hr. cbn [mbind option_bind]. rewrite Hct. eexists. split; [done|]. destruct (cachable ct && fill); [|done].
  intros bc' Hbc j' b' d Hj' Hd. apply insert_adds in Hd as [[Hk ->]|Hd]; [|by eapply Hs1]. f_equal. apply cache_key_inj in Hk; [by eapply offset_inj| |]; [pose proof (offset_range j' b' Hj')|pose proof (offset_range j b Hb)]; unfold is_u64; lia.
Qed.

(** *** The filter lets through what is in a block. *)
Lemma filter_lets t id p filter j b x k : opened t id -> filter_policy options = Some p -> tb_filter t = Some filter -> blocks !! j = Some b -> x ∈ b -> same k x.1 -> reader_KeyMayMatch p filter (handle_offset (handle_at ds j)) k = true.
Proof using Hlay Hsize Hpolicy Hlimit.
  intros (_ & _ & _ & Ho) Hp Ht Hb Hx Hsame. pose proof (tl_filter _ _ _ _ _ _ _ _ _ _ _ Hlay) as Hf. rewrite Hp in Ho, Hf. destruct Ho as (fb' & E & Ht'). destruct Hf as (fb & gs & ks & Hflt & Hfs & Hk & Hcov). rewrite Hflt in E. injection E as E. rewrite <- E in Ht'. rewrite Ht in Ht'. injection Ht' as ->.
  destruct (Hpolicy p Hp) as [Hlaws _]. assert (zlen (filter_Finish p fb) < 2 ^ 32) as Hsz.
  { pose proof image_small as Him. rewrite !image_app, !zlen_app, Hflt in Him. change (image [(filter_Finish p fb, kNoCompression)]) with (image ([] ++ [(filter_Finish p fb, kNoCompression)])) in Him. rewrite zlen_image_snoc in Him. change kBlockTrailerSize with 5 in Him. change (zlen (image [])) with 0 in Him. cbn [fst] in Him.
    pose proof (zlen_nonneg (image ds)). pose proof (zlen_nonneg (image [meta; ix])). lia. }
  destruct (filter_Finish_bytes p same limit fb gs ks Hfs Hsz) as (gs' & r & offs & Hg & E' & Hcc & Hc). rewrite E' in *. destruct (Hc _ _ (Hcov j b x Hb Hx)) as (g & Hgl & Hin).
  eapply (reader_matches p same limit gs' r offs); [done|done|by apply (offset_range j b)|exact Hgl| |exact Hin|done].
  etrans; [apply (group_count g gs'); by eapply list_elem_of_lookup_2|]. rewrite Hcc, Hk. unfold zlen. rewrite length_map. exact Hlimit.
Qed.

(** *** The index *)

Lemma later_block j j' b x : (j < j')%nat -> blocks !! j' = Some b -> x ∈ b -> x ∈ later blocks [] j.
Proof. intros Hlt Hb Hx. unfold later. rewrite app_nil_r. apply list_elem_of_In, in_concat. exists b. split; apply list_elem_of_In; [|done]. apply (list_elem_of_lookup_2 _ (j' - S j)%nat). rewrite lookup_drop. by replace (S j + (j' - S j))%nat with j' by lia. Qed.
Lemma entry_dom x : x ∈ es -> dom x.1.
Proof using Hdom. intros Hx. rewrite Forall_forall in Hdom. by apply Hdom. Qed.
Lemma index_at j e : idx !! j = Some e -> exists b, blocks !! j = Some b /\ dom e.1 /\ e.2 = handle_bytes (handle_at ds j) /\ (forall x, x ∈ b -> Compare c x.1 e.1 <= 0) /\ forall j' b' x, (j < j')%nat -> blocks !! j' = Some b' -> x ∈ b' -> Compare c e.1 x.1 < 0.
Proof using Hlay Hdom ComparatorLaws0.
  intros He. pose proof (tl_seps _ _ _ _ _ _ _ _ _ _ _ Hlay j e He) as Hsep. pose proof Hsep as (b & y & Hb & _ & Hd & Hup & _). exists b. do 2 (split; [done|]). split; [by apply (tl_handles _ _ _ _ _ _ _ _ _ _ _ Hlay)|]. split; [done|].
  intros j' b' x Hlt Hb' Hx. apply (sep_behind options dom blocks [] Done j e.1 x Hsep); [by eapply later_block|]. by eapply entry_dom, in_block_in.
Qed.
Lemma sorted_of_lookup {A} (R : A -> A -> Prop) (l : list A) : (forall i j x y, l !! i = Some x -> l !! j = Some y -> (i < j)%nat -> R x y) -> StronglySorted R l.
Proof.
  induction l as [|a l IH]; intros H; constructor; [apply IH; intros i j x y Hx Hy Hij; apply (H (S i) (S j)); [done|done|lia]|]. apply Forall_forall. intros y [j Hj]%list_elem_of_lookup_1. apply (H 0%nat (S j)); [done|done|lia].
Qed.
Lemma table_index_order : Forall (fun x => dom x.1) idx /\ StronglySorted (fun x y => Compare c x.1 y.1 < 0) idx.
Proof using Hlay Hdom ComparatorLaws0.
  split; [apply Forall_forall; intros e [j He]%list_elem_of_lookup_1; by destruct (index_at j e He) as (b & _ & Hde & _)|]. apply sorted_of_lookup. intros i j e e' He He' Hij. destruct (index_at i e He) as (b & _ & Hde & _ & _ & Hbe).
  pose proof (tl_seps _ _ _ _ _ _ _ _ _ _ _ Hlay j e' He') as (b' & y & Hb' & Hy & Hde' & Hup & _). assert (y ∈ b') as Hyb by (apply last_Some in Hy as [l ->]; apply elem_of_app; right; by apply list_elem_of_singleton).
  apply (cmp_lt_le options dom e.1 y.1 e'.1); [done|by eapply entry_dom, in_block_in|done|by eapply Hbe|by apply Hup].
Qed.
Lemma index_indexed bf : (forall j e b, idx !! j = Some e -> blocks !! j = Some b -> bf e.2 = (b, OK)) -> indexed_by c dom bf idx blocks.
Proof using Hlay Hdom Hsorted ComparatorLaws0.
  intros Hbf. split; [apply (tl_len _ _ _ _ _ _ _ _ _ _ _ Hlay)|done|exact table_index_order|by rewrite (tl_entries _ _ _ _ _ _ _ _ _ _ _ Hlay)| |].
  - intros j e b x He Hb Hx. destruct (index_at j e He) as (b' & Hb' & _ & _ & Hup & _). rewrite Hb in Hb'. injection Hb' as <-. by apply Hup.
  - intros j j' e b x He Hb Hlt Hx. destruct (index_at j e He) as (b' & _ & _ & _ & _ & Hbe). by eapply Hbe.
Qed.
Lemma index_small : cost idx < 2 ^ 32 - 8.
Proof using Hlay Hcost.
  pose proof (tl_len _ _ _ _ _ _ _ _ _ _ _ Hlay) as Hl. assert (cost idx - 81 * zlen idx <= cost (concat blocks)) as Hc.
  { apply index_cost; [done|]. intros j e Hj. rewrite (tl_handles _ _ _ _ _ _ _ _ _ _ _ Hlay j e Hj). split; [apply zlen_handle|]. destruct (tl_seps _ _ _ _ _ _ _ _ _ _ _ Hlay j e Hj) as (b & y & Hb & Hy & _ & _ & Hz & _).
    exists b, y. split; [done|]. split; [|done]. apply last_Some in Hy as [l ->]. apply elem_of_app. right. by apply list_elem_of_singleton. }
  assert (zlen blocks <= zlen (concat blocks)) as Hn.
  { pose proof (tl_blocks _ _ _ _ _ _ _ _ _ _ _ Hlay) as Hf. clear -Hf. induction Hf as [|b d bl ds [Hne _] _ IH]; [done|]. cbn [concat]. rewrite zlen_cons, zlen_app. destruct b as [|x b]; [done|]. rewrite zlen_cons. pose proof (zlen_nonneg b). lia. }
  rewrite (tl_entries _ _ _ _ _ _ _ _ _ _ _ Hlay) in *. pose proof (cost_nonneg es). unfold zlen in *. lia.
Qed.
Lemma seek_index k : dom k -> block_seek c (raw_block 1 idx) k = Some (first_from c k idx, OK).
Proof using Hlay Hdom Hcost ComparatorLaws0. intros Hk. destruct table_index_order. pose proof index_small. by apply (block_seek_raw c dom). Qed.

(** *** Finding a key *)

(** The block that the index names, and what is before it. *)
Lemma index_found k e : dom k -> first_from c k idx = Some e -> exists j b, idx !! j = Some e /\ blocks !! j = Some b /\ e.2 = handle_bytes (handle_at ds j) /\ 0 <= Compare c e.1 k /\ forall x, x ∈ concat (take j blocks) -> Compare c x.1 k < 0.
Proof using Hlay Hdom ComparatorLaws0.
  intros Hk (a & l & E & Ha & Hge)%first_from_spec. assert (idx !! length a = Some e) as He by (by rewrite E, lookup_app_r, Nat.sub_diag by lia). destruct (index_at _ e He) as (b & Hb & _ & Hh & _). exists (length a), b. do 4 (split; [done|]).
  intros x Hx. apply list_elem_of_In, in_concat in Hx as (b' & Hb' & Hx). apply list_elem_of_In in Hb', Hx. apply list_elem_of_lookup_1 in Hb' as [i Hi]. apply lookup_take_Some in Hi as [Hi Hlt]. destruct (lookup_lt_is_Some_2 a i Hlt) as [e' He'].
  assert (idx !! i = Some e') as Hie by (by rewrite E, lookup_app_l by done). destruct (index_at i e' Hie) as (b'' & Hb'' & Hde & _ & Hup & _). rewrite Hi in Hb''. injection Hb'' as <-.
  apply (cmp_le_lt options dom x.1 e'.1 k); [by eapply entry_dom, in_block_in|done|done|by apply Hup|]. apply Ha. by eapply list_elem_of_lookup_2.
Qed.
Lemma index_missing k : dom k -> first_from c k idx = None -> first_from c k es = None.
Proof using Hlay Hdom ComparatorLaws0.
  intros Hk Hn. rewrite <- (app_nil_r es). rewrite first_from_app; [done|]. intros x Hx. pose proof Hx as Hx'. rewrite <- (tl_entries _ _ _ _ _ _ _ _ _ _ _ Hlay) in Hx. apply list_elem_of_In, in_concat in Hx as (b & Hb & Hxb). apply list_elem_of_In in Hb, Hxb. apply list_elem_of_lookup_1 in Hb as [j Hj].
  destruct (lookup_lt_is_Some_2 idx j) as [e He]; [rewrite (tl_len _ _ _ _ _ _ _ _ _ _ _ Hlay); by eapply lookup_lt_Some|]. destruct (index_at j e He) as (b' & Hb' & Hde & _ & Hup & _). rewrite Hj in Hb'. injection Hb' as <-.
  apply (cmp_le_lt options dom x.1 e.1 k); [by apply entry_dom|done|done|by apply Hup|]. eapply first_from_none; [exact Hn|by eapply list_elem_of_lookup_2].
Qed.
(** A key that is the same as the first one from it on is in this block. *)
Lemma same_in_block k e j b x : dom k -> idx !! j = Some e -> blocks !! j = Some b -> 0 <= Compare c e.1 k -> (forall x, x ∈ concat (take j blocks) -> Compare c x.1 k < 0) -> first_from c k es = Some x -> same k x.1 -> first_from c k b = Some x.
Proof using Hlay Hdom Hsorted ComparatorLaws0 SeparatorLaws0.
  intros Hk He Hb Hge Hpre Hx Hsame. rewrite (block_parts_of j b Hb), first_from_app in Hx by done. destruct (first_from c k b) as [y|] eqn:Hy; [rewrite (first_from_early _ _ _ _ _ Hy) in Hx; done|]. exfalso.
  pose proof (first_from_none _ _ _ Hy) as Hbk. rewrite first_from_app in Hx by done. destruct (tl_seps _ _ _ _ _ _ _ _ _ _ _ Hlay j e He) as (b' & y & Hb' & Hlast & Hde & _ & _ & Halt). rewrite Hb in Hb'. injection Hb' as <-.
  assert (y ∈ b) as Hyb by (apply last_Some in Hlast as [l ->]; apply elem_of_app; right; by apply list_elem_of_singleton). destruct Halt as [[_ E]|(t & Hsep & Hdt & Hyt & Hst & Hmin & _ & [(z & Hz & Ezt)|?])]; [by rewrite E in Hx| |done].
  assert (Compare c k t < 0) as Hkt. { destruct (Z.eq_dec (Compare c e.1 k) 0) as [E|E]; [apply (cmp_eq e.1 k Hde Hk) in E; by rewrite <- E|]. apply (cmp_trans k e.1 t); [done..| |done]. apply (cmp_flip k e.1 Hk Hde). lia. }
  assert (x.1 = t) as Ext.
  { apply first_from_spec in Hx as (a & l & E & Ha & _). assert (dom x.1) as Hdx by (apply entry_dom; rewrite (block_parts_of j b Hb), E; apply elem_of_app; right; apply elem_of_app; right; apply elem_of_app; right; by left).
    apply (cmp_eq x.1 t Hdx Hdt). assert (Compare c t x.1 <= 0) as H1 by (apply Hmin; rewrite E; apply elem_of_app; right; by left). assert (a = []) as ->.
    { destruct a as [|w a]; [done|]. exfalso. assert (w ∈ later blocks [] j) as Hw by (rewrite E; by left). pose proof (Ha w ltac:(by left)) as Hwk. pose proof (Hmin w Hw) as Htw. assert (dom w.1) as Hdw by (apply entry_dom; rewrite (block_parts_of j b Hb); apply elem_of_app; right; apply elem_of_app; by right).
      pose proof (cmp_lt_le options dom k t w.1 Hk Hdt Hdw Hkt Htw) as Hkw. apply (cmp_flip k w.1 Hk Hdw) in Hkw. lia. }
    cbn [app] in E. assert (Compare c x.1 t <= 0) as H2; [|destruct (Z.eq_dec (Compare c t x.1) 0) as [E0|E0]; [apply (cmp_eq t x.1 Hdt Hdx) in E0; by apply (cmp_eq x.1 t Hdx Hdt)|]; assert (0 < Compare c x.1 t); [apply (cmp_flip t x.1 Hdt Hdx); lia|lia]].
    rewrite <- Ezt. rewrite E in Hz. apply elem_of_cons in Hz as [->|Hz]; [rewrite (proj2 (cmp_eq x.1 x.1 Hdx Hdx)); [lia|done]|]. rewrite (block_parts_of j b Hb), E in Hsorted. apply StronglySorted_app in Hsorted as (_ & _ & (_ & _ & Hs)%StronglySorted_app). apply StronglySorted_inv in Hs as [_ Hs]. rewrite Forall_forall in Hs. specialize (Hs z Hz). lia. }
  rewrite Ext in Hsame. assert (dom y.1) as Hdy by (by eapply entry_dom, in_block_in). pose proof (sep_same_key y.1 t k Hdy Hdt Hk Hyt (Hbk y Hyb) ltac:(lia) Hsame) as Hlt. rewrite <- Hsep in Hlt. lia.
Qed.

Definition get_ok (k : bytes) (r : LStatus * option (bytes * bytes)) : Prop :=
  r.1 = OK /\ (forall e, r.2 = Some e -> first_from c k es = Some e) /\ (forall e, first_from c k es = Some e -> same k e.1 -> r.2 = Some e).
Lemma InternalGet_ok verify fill t id s k : opened t id -> cache_ok id s -> dom k -> exists saved s', InternalGet cache snappy options verify fill t k s = Some (OK, saved, s') /\ cache_ok id s' /\ get_ok k (OK, saved).
Proof using All.
  intros Ht Hs Hk. pose proof Ht as (_ & _ & Hi & Hflt). unfold InternalGet. rewrite Hi, seek_index by done. cbn [mbind option_bind]. destruct (first_from c k idx) as [[sep h]|] eqn:Hf.
  2: { exists None, s. split; [done|]. split; [done|]. split; [done|]. split; [done|]. intros e He. by rewrite index_missing in He. }
  destruct (index_found k (sep, h) Hk Hf) as (j & b & Hj & Hb & Hh & Hge & Hpre). cbn [fst snd] in *. subst h. destruct (offset_at j b Hb) as (x & Hx & _ & Ea & _).
  assert (handle_DecodeFrom (handle_bytes (handle_at ds j)) = inr (handle_at ds j, [])) as Hdec by (rewrite <- (app_nil_r (handle_bytes _)); apply handle_roundtrip; rewrite Ea; apply handle_all_ok; rewrite length_app; apply lookup_lt_Some in Hx; lia). rewrite Hdec.
  assert (forall e, first_from c k b = Some e -> first_from c k es = Some e) as Hsound by (intros e He; rewrite (block_parts_of j b Hb), first_from_app by done; by apply first_from_early).
  assert (forall e, first_from c k es = Some e -> same k e.1 -> first_from c k b = Some e) as Hcomp by (intros e He Hsm; by eapply same_in_block).
  set (skip := match tb_filter t, filter_policy options with Some filter, Some p => negb (reader_KeyMayMatch p filter (handle_offset (handle_at ds j)) k) | _, _ => false end). destruct skip eqn:Hskip.
  - exists None, s. split; [done|]. split; [done|]. split; [done|]. split; [done|]. intros e He Hsm. exfalso. assert (exists fr p, tb_filter t = Some fr /\ filter_policy options = Some p /\ reader_KeyMayMatch p fr (handle_offset (handle_at ds j)) k = false) as (fr & p & Htf & Hp & Hno).
    { clear -Hskip. unfold skip in Hskip. destruct (tb_filter t) as [fr|]; [|done]. destruct (filter_policy options) as [p|]; [|done]. exists fr, p. by apply negb_true_iff in Hskip. }
    pose proof (Hcomp e He Hsm) as (a & l & E & _)%first_from_spec. rewrite (filter_lets t id p fr j b e k Ht Hp Htf Hb) in Hno; [done|rewrite E; apply elem_of_app; right; by left|done].
  - destruct (BlockReader_ok verify fill t id s j b Ht Hs Hb) as (s' & E & Hs'). rewrite E. cbn [mbind option_bind]. rewrite (seek_block j b k Hb Hk). cbn [mbind option_bind ok]. exists (first_from c k b), s'. split; [done|]. split; [done|]. by split.
Qed.

Fixpoint get_all (verify fill : bool) (t : Table) (ks : list bytes) (s : C) : option (list (LStatus * option (bytes * bytes)) * C) :=
  match ks with
  | [] => Some ([], s)
  | k :: ks => '(st, saved, s) ← InternalGet cache snappy options verify fill t k s; '(rs, s) ← get_all verify fill t ks s; Some ((st, saved) :: rs, s)
  end.
Lemma get_all_ok verify fill t id ks s : opened t id -> cache_ok id s -> Forall dom ks -> exists rs s', get_all verify fill t ks s = Some (rs, s') /\ cache_ok id s' /\ Forall2 get_ok ks rs.
Proof using All.
  intros Ht. revert s. induction ks as [|k ks IH]; intros s Hs Hks; [exists [], s; split; [done|]; by split|]. apply Forall_cons in Hks as [Hk Hks]. cbn [get_all]. destruct (InternalGet_ok verify fill t id s k Ht Hs Hk) as (saved & s1 & -> & Hs1 & Hg). cbn [mbind option_bind].
  destruct (IH s1 Hs1 Hks) as (rs & s2 & -> & Hs2 & Hgs). cbn [mbind option_bind]. eexists _, s2. split; [done|]. split; [done|]. by constructor.
Qed.
End Read.

(** Internal keys with the same user key. *)
Lemma separator_internal user `{!ComparatorLaws user (fun _ => True)} : SeparatorLaws (InternalKeyComparator user) internal (fun a b => ExtractUserKey a = ExtractUserKey b).
Proof.
  intros a b k Ha Hb Hk Hab Hak _ Hsame. cbn [Compare FindShortestSeparator InternalKeyComparator] in *. unfold internal_separator. destruct (_ && _) eqn:E; [|done]. apply andb_true_iff in E as [_ E]. apply Z.ltb_lt in E.
  apply (internal_lt user) in Hab as [Hlt|[Heq _]].
  - apply (internal_lt user). left. unfold PutFixed64. rewrite ExtractUserKey_append, Hsame. by apply (sep_high (c := user) (dom := fun _ => True)).
  - exfalso. rewrite Heq, (sep_same (c := user) (dom := fun _ => True)) in E by done. pose proof (proj2 (user_eq user (ExtractUserKey b) (ExtractUserKey b)) eq_refl). lia.
Qed.

(** ** From the builder to the reader *)

Section Tables.
Context {F C : Type} (wfile : WritableFile F) (fdata : F -> bytes) (cache : option (BlockCache C)) (content : C -> bytes -> option bytes) (snappy : Snappy) (options : Options).
Context (dom : bytes -> Prop) (same : bytes -> bytes -> Prop) (limit : Z).

(** What the parts below a table promise. *)
Record table_laws : Prop := mkTableLaws {
  tw_file : WritableLaws wfile fdata; tw_snappy : SnappyLaws snappy; tw_order : ComparatorLaws (comparator options) dom; tw_short : ShortKeys (comparator options); tw_same : SeparatorLaws (comparator options) dom same;
  tw_cache : forall bc, cache = Some bc -> CacheLaws bc content;
  tw_policy : forall p, filter_policy options = Some p -> FilterLaws p same limit /\ zlen (policy_Name p) < 2 ^ 31;
  tw_interval : 1 <= block_restart_interval options
}.
(** Entries that a table is built from. *)
Record table_input (es : list (bytes * bytes)) : Prop := mkTableInput {
  ti_dom : Forall (fun x => dom x.1) es; ti_sorted : StronglySorted (fun x y => Compare (comparator options) x.1 y.1 < 0) es; ti_cost : cost es < 2 ^ 31 - 8; ti_limit : zlen es <= limit
}.
(** The id that [Open] gets from the cache is not in use. *)
Definition new_id (s : C) : Z * C := match cache with Some bc => cache_NewId bc s | None => (0, s) end.
Definition fresh_id (s : C) : Prop := forall offset, content (new_id s).2 (cache_key (new_id s).1 offset) = None.

(** C10. A table answers from what was put into it. Building a table from sorted
    entries succeeds, whatever the size of blocks, the restart interval, the
    compression and the filter policy; the file can be opened, and any sequence
    of lookups, through a cache of blocks or not, reports no error: what is
    found for a key is the first entry from the key on, and it is found whenever
    it is the same key in the sense of the filter policy. Index entries with
    shortened keys, prefix compression, checksums and filters never hide an
    entry. *)
Theorem table_get_finds es f : table_laws -> table_input es -> fdata f = [] ->
  exists r, build_table wfile snappy options es f = Some (OK, r) /\
    forall file s, RandomLaws file (fdata (t_file r)) -> zlen (fdata (t_file r)) < 2 ^ 32 -> fresh_id s ->
      exists t, table_Open cache snappy options file (zlen (fdata (t_file r))) s = Some (inr t, (new_id s).2) /\
        forall verify fill ks, Forall dom ks -> exists rs s', get_all cache snappy options verify fill t ks (new_id s).2 = Some (rs, s') /\
          Forall2 (fun k r => r.1 = OK /\ (forall e, r.2 = Some e -> first_from (comparator options) k es = Some e) /\ (forall e, first_from (comparator options) k es = Some e -> same k e.1 -> r.2 = Some e)) ks rs.
Proof.
  intros [] [] Hf. destruct (build_table_layout wfile fdata snappy options dom same limit ltac:(done) es f Hf) as (r & blocks & idx & ds & flt & meta & ix & Hb & Hlay); [done|done|lia|done|]. exists r. split; [done|]. intros file s Hfile Hsize Hfresh.
  destruct (table_Open_ok cache snappy options dom same limit ltac:(done) ltac:(done) (fdata (t_file r)) es blocks idx ds flt meta ix Hlay Hsize file s) as (t & Ht). unfold fresh_id, new_id in *. destruct (match cache with Some bc => cache_NewId bc s | None => (0, s) end) as [id s1]. destruct Ht as [Ho Ht]. cbn [fst snd] in *.
  exists t. split; [done|]. intros verify fill ks Hks.
  destruct (get_all_ok cache content ltac:(done) snappy options dom same limit ltac:(done) ltac:(done) (fdata (t_file r)) es blocks idx ds flt meta ix Hlay Hsize ltac:(done) ltac:(done) ltac:(done) ltac:(done) file verify fill t id ks s1 Ht) as (rs & s2 & E & _ & H); [|done|by exists rs, s2].
  intros bc Hbc j b d Hj Hd. by rewrite Hfresh in Hd.
Qed.

(** The iterator of a table is a cursor in its entries: the index block and the
    blocks behind its entries are those that [two_level_cursor] asks for. *)
Lemma table_iterates es f : table_laws -> table_input es -> fdata f = [] ->
  exists r, build_table wfile snappy options es f = Some (OK, r) /\
    forall file s, RandomLaws file (fdata (t_file r)) -> zlen (fdata (t_file r)) < 2 ^ 32 -> fresh_id s ->
      exists t idx blocks, table_Open cache snappy options file (zlen (fdata (t_file r))) s = Some (inr t, (new_id s).2) /\ tb_index_block t = raw_block 1 idx /\ concat blocks = es /\
        (forall verify fill j e b, idx !! j = Some e -> blocks !! j = Some b -> exists s', BlockReader cache snappy verify fill t e.2 (new_id s).2 = Some (inr (raw_block (block_restart_interval options) b), s')) /\
        forall bf ms, (forall j e b, idx !! j = Some e -> blocks !! j = Some b -> bf e.2 = (b, OK)) -> Forall (move_in dom) ms ->
          match cursor_run (comparator options) es None ms with
          | Some x => exists it, tl_run (comparator options) bf (newTwoLevelIterator (mkChild idx None)) ms = Some it /\ data_entry it = (x ≫= fun p => es !! p) /\ tl_status it = OK
          | None => tl_run (comparator options) bf (newTwoLevelIterator (mkChild idx None)) ms = None
          end.
Proof.
  intros [] [] Hf. destruct (build_table_layout wfile fdata snappy options dom same limit ltac:(done) es f Hf) as (r & blocks & idx & ds & flt & meta & ix & Hb & Hlay); [done|done|lia|done|]. exists r. split; [done|]. intros file s Hfile Hsize Hfresh.
  destruct (table_Open_ok cache snappy options dom same limit ltac:(done) ltac:(done) (fdata (t_file r)) es blocks idx ds flt meta ix Hlay Hsize file s) as (t & Ht). unfold fresh_id, new_id in *. destruct (match cache with Some bc => cache_NewId bc s | None => (0, s) end) as [id s1]. destruct Ht as [Ho Ht]. cbn [fst snd] in *.
  exists t, idx, blocks. split; [done|]. split; [apply Ht|]. split; [by apply (tl_entries _ _ _ _ _ _ _ _ _ _ _ Hlay)|]. split.
  - intros verify fill j e b He Hbl. rewrite (tl_handles _ _ _ _ _ _ _ _ _ _ _ Hlay j e He). destruct (BlockReader_ok cache content ltac:(done) snappy options dom (fdata (t_file r)) es blocks idx ds flt meta ix Hlay Hsize file verify fill t id s1 j b Ht) as (s2 & E & _); [|done|by exists s2]. intros bc Hbc j' b' d Hj' Hd. by rewrite Hfresh in Hd.
  - intros bf ms Hbf Hms. pose proof (index_indexed snappy options dom (fdata (t_file r)) es blocks idx ds flt meta ix Hlay ltac:(done) ltac:(done) bf Hbf) as Hix. pose proof (two_level_cursor (comparator options) dom bf idx blocks Hix) as Hcur.
    pose proof (cursor_runs (comparator options) (concat blocks) (move_in dom) (tl_move (comparator options) bf) (tstands idx blocks) ms (newTwoLevelIterator (mkChild idx None)) None ltac:(done) Hms) as Hr.
    rewrite (tl_entries _ _ _ _ _ _ _ _ _ _ _ Hlay) in Hr. fold (tl_run (comparator options) bf (newTwoLevelIterator (mkChild idx None)) ms) in Hr. destruct (cursor_run (comparator options) es None ms) as [x|]; [|done]. destruct Hr as (it & Hit & Hst). exists it. split; [done|].
    pose proof (tstands_shows idx blocks it x Hst) as Hsh. by rewrite (tl_entries _ _ _ _ _ _ _ _ _ _ _ Hlay) in Hsh.
Qed.
End Tables.

(** A cache that keeps everything. *)
Definition list_content (s : list (bytes * bytes) * Z) (k : bytes) : option bytes := (fun x => x.2.2) <$> list_find (fun e => e.1 = k) s.1.
Definition list_cache : BlockCache (list (bytes * bytes) * Z) := mkBlockCache (fun s => (s.2 + 1, (s.1, s.2 + 1))) (fun k s => (list_content s k, s)) (fun k d _ s => ((k, d) :: s.1, s.2)).
#[export] Instance list_cache_laws : CacheLaws list_cache list_content.
Proof.
  split; [done|done|]. intros k d n s k' d'. unfold list_content. cbn [list_cache cache_Insert fst snd list_find]. case_decide as E; cbn [fst] in E.
  - cbn. intros [= <-]. by left.
  - intros H. right. by destruct (list_find _ s.1) as [[]|].
Qed.

Definition table_example : list (bytes * bytes) := [([Byte.x61], [Byte.x01]); ([Byte.x62], [Byte.x02]); ([Byte.x64], [Byte.x04])].
(** Blocks of one entry, with a filter. *)
Definition table_options : Options := mkOptions BytewiseComparator 1 16 kNoCompression (Some (bloom_policy [Byte.x62] (newBloomFilterPolicy 10 6))) true.
Lemma table_example_laws : table_laws mem_writable id (Some list_cache) list_content no_snappy table_options (fun _ => True) eq 100.
Proof.
  split; cbn [comparator table_options]; [apply mem_writable_laws|apply no_snappy_laws|apply bytewise_laws|apply bytewise_short|apply separator_eq, bytewise_laws|intros bc [= <-]; apply list_cache_laws| |done].
  intros p [= <-]. split; [apply bloom_policy_laws; cbn; lia|done].
Qed.
Lemma table_example_input : table_input table_options (fun _ => True) 100 table_example.
Proof. split; [by repeat constructor|repeat constructor|done|done]. Qed.

Lemma table_get_finds_witness : exists r t rs s, build_table mem_writable no_snappy table_options table_example [] = Some (OK, r) /\
  table_Open (Some list_cache) no_snappy table_options (mem_random (t_file r)) (zlen (t_file r)) ([], 0) = Some (inr t, ([], 1)) /\
  get_all (Some list_cache) no_snappy table_options true true t [[Byte.x62]; [Byte.x62]] ([], 1) = Some (rs, s) /\ rs = [(OK, Some ([Byte.x62], [Byte.x02])); (OK, Some ([Byte.x62], [Byte.x02]))].
Proof.
  destruct (table_get_finds mem_writable id (Some list_cache) list_content no_snappy table_options (fun _ => True) eq 100 table_example [] table_example_laws table_example_input eq_refl) as (r & Hr & Hopen).
  assert (zlen (t_file r) < 2 ^ 32) as Hsz by (vm_compute in Hr; injection Hr as <-; by vm_compute).
  unfold id in Hopen. specialize (Hopen (mem_random (t_file r)) ([], 0) (mem_random_laws (t_file r)) Hsz (fun _ => eq_refl)). change (new_id (Some list_cache) ([], 0)).2 with (@nil (bytes * bytes), 1) in Hopen.
  destruct Hopen as (t & Ht & Hget). destruct (Hget true true [[Byte.x62]; [Byte.x62]] ltac:(by repeat constructor)) as (rs & s & Hrs & Hall).
  exists r, t, rs, s. split; [exact Hr|]. split; [exact Ht|]. split; [exact Hrs|]. clear -Hall.
  destruct rs as [|[st1 o1] [|[st2 o2] [|]]]; try (by apply Forall2_length in Hall). apply Forall2_cons_1 in Hall as [(E1 & _ & H1) Hall]. apply Forall2_cons_1 in Hall as [(E2 & _ & H2) _]. cbn [fst snd] in *. subst st1 st2.
  rewrite (H1 ([Byte.x62], [Byte.x02]) ltac:(by vm_compute) eq_refl), (H2 ([Byte.x62], [Byte.x02]) ltac:(by vm_compute) eq_refl). done.
Defined.
