(* ===== verification/DbScan.v ===== *)
(** * Iterating over the memtables: DBImpl::NewIterator, db/db_impl.cc

    How the parts of an iterator of the database fit together: the contents of
    the two memtables, merged, below a [DBIter]. *)

From S2P Require Import Prelude CommonData Coding Bloom DbFormat SkipList MemTable DbIter Merger.

Section Scan.
Context (user : Comparator) `{!ComparatorLaws user (fun _ => True)}.
Implicit Types (o : op) (ops : list op).

Definition op_pair o : bytes * bytes := (op_ikey o, op_value o).
Lemma op_pair_parse o : op_ok o -> ParseInternalKey (op_pair o).1 = Some (mkParsed (op_key o) (op_seq o) (op_type o)).
Proof. intros (Hs & _). by apply parse_internal_key. Qed.
Lemma op_pair_ukey o : ukey (op_pair o) = op_key o.
Proof. apply ExtractUserKey_append. Qed.
Lemma op_pair_seen seq o : op_ok o -> seen seq (op_pair o) = if op_seq o <=? seq then Some (op_type o) else None.
Proof. intros Ho. unfold seen. by rewrite op_pair_parse. Qed.
Lemma op_pair_seen_of seq k o : op_ok o -> seen_of seq k (op_pair o) <-> visible k seq o.
Proof.
  intros Ho. unfold seen_of, visible. rewrite op_pair_seen, op_pair_ukey by done. destruct (Z.leb_spec (op_seq o) seq); split; [tauto|by intros [? _]|intros [[? [=]] _]|lia].
Qed.
(** Of two operations on a key, the newer one comes first. *)
Lemma op_pair_order a b : op_ok a -> op_ok b -> op_key a = op_key b -> internal_compare user (op_pair a).1 (op_pair b).1 < 0 -> op_seq b <= op_seq a.
Proof.
  intros (Ha & _) (Hb & _) Hk Hlt. apply (internal_lt user) in Hlt. unfold op_pair, op_ikey in Hlt. cbn [fst] in Hlt. rewrite !ExtractUserKey_append, !key_num_append, !Pack_add in Hlt by (done || by apply Pack_range).
  pose proof (type_num_range (op_type a)). pose proof (type_num_range (op_type b)). destruct Hlt as [Hlt|[_ Hlt]]; [|lia]. rewrite Hk in Hlt. pose proof (proj2 (user_eq user (op_key b) (op_key b)) eq_refl). lia.
Qed.

Lemma newest_is_first M ops seq k : Forall op_ok ops -> increasing ops -> M ≡ₚ map op_pair ops -> StronglySorted (fun x y => internal_compare user x.1 y.1 < 0) M ->
  newest_entry seq k M = op_pair <$> newest k seq ops.
Proof.
  intros Hok Hi Hp Hs. rewrite Forall_forall in Hok. unfold newest_entry.
  assert (forall x, x ∈ filter (seen_of seq k) M <-> exists o, x = op_pair o /\ o ∈ ops /\ visible k seq o) as Hel.
  { intros x. rewrite list_elem_of_filter, Hp. split.
    - intros [Hx Hin]. apply list_elem_of_fmap in Hin as (o & -> & Ho). exists o. split; [done|]. split; [done|]. by apply op_pair_seen_of; [apply Hok|].
    - intros (o & -> & Ho & Hv). split; [by apply op_pair_seen_of; [apply Hok|]|]. by apply list_elem_of_fmap_2. }
  destruct (head (filter (seen_of seq k) M)) as [h|] eqn:Hh.
  - destruct (proj1 (Hel h) (head_in _ _ Hh)) as (o & -> & Ho & Hv). unfold newest. rewrite (last_max user (filter (visible k seq) ops) o); [done|by apply increasing_filter|by apply list_elem_of_filter|].
    intros b [Hbv Hb]%list_elem_of_filter. destruct (head_least (InternalKeyComparator user) (filter (seen_of seq k) M) (op_pair o) (op_pair b)) as [E|Hlt].
    + by apply (filter_sorted (InternalKeyComparator user)).
    + done.
    + apply Hel. by exists b.
    + assert (op_ikey b = op_ikey o) as He by (by injection E). apply op_ikey_inj in He as (_ & He & _); [lia|by apply Hok..].
    + apply op_pair_order; [by apply Hok..| |done]. destruct Hv as [-> _], Hbv as [-> _]. done.
  - unfold newest. destruct (last (filter (visible k seq) ops)) as [o|] eqn:Hl; [|done]. exfalso. apply last_in, list_elem_of_filter in Hl as [Hv Ho]. eapply head_none; [exact Hh|]. apply Hel. by exists o.
Qed.

(** C12. An iterator of the database agrees with reads: over the merged contents
    of the memtable and of the one being compacted it is, under any moves, a
    cursor in a list with strictly growing keys that holds a key with a value
    just if the newest operation on the key up to the sequence number of the
    iterator writes that value; its status stays OK. *)
Theorem scan_agrees_with_get mem imm ops old l l' M seq : mem_holds user mem ops -> mem_holds user imm old -> increasing (old ++ ops) -> mem_contents mem = Some l -> mem_contents imm = Some l' ->
  M ≡ₚ concat [l; l'] -> StronglySorted (fun x y => internal_compare user x.1 y.1 < 0) M -> 0 <= seq <= kMaxSequenceNumber ->
  exists V, StronglySorted (fun x y => Compare user x.1 y.1 < 0) V /\
    (forall k v, (k, v) ∈ V <-> exists o, newest k seq (old ++ ops) = Some o /\ op_type o = kTypeValue /\ op_value o = v) /\
    forall ms, match cursor_run user V None ms with
      | Some c => exists d, iter_run user M seq newDBIter ms = Some d /\ shows M d = (c ≫= fun i => V !! i) /\ status_ d = OK
      | None => iter_run user M seq newDBIter ms = None
      end.
Proof.
  intros Hm Hi Hinc Hl Hl' HM Hs Hseq. destruct (mem_contents_spec user mem ops Hm) as (l0 & E & Hp & _). destruct (mem_contents_spec user imm old Hi) as (l0' & E' & Hp' & _).
  rewrite Hl in E. injection E as <-. rewrite Hl' in E'. injection E' as <-. pose proof Hm as (Hok & _). pose proof Hi as (Hok' & _).
  assert (Forall op_ok (old ++ ops)) as Hall by (by apply Forall_app). assert (M ≡ₚ map op_pair (old ++ ops)) as HMp by (rewrite HM; cbn [concat]; rewrite app_nil_r, Hp, Hp', map_app; apply Permutation_app_comm).
  pose proof (ordered_internal user M Hs) as Hord. exists (view user seq M). split; [by apply view_from_sorted|]. split.
  - intros k v. unfold view. rewrite view_from_newest by done. rewrite (newest_is_first M (old ++ ops) seq k Hall Hinc HMp Hs). split.
    + intros (_ & e & He & Hse & Hv). apply fmap_Some in He as (o & Ho & ->). exists o. split; [done|]. assert (op_ok o) as Hoo by (unfold newest in Ho; apply last_in, list_elem_of_filter in Ho as [_ Ho]; rewrite Forall_forall in Hall; by apply Hall).
      rewrite op_pair_seen in Hse by done. destruct (_ <=? _); [|done]. by injection Hse.
    + intros (o & Ho & Ht & Hv). split; [done|]. exists (op_pair o). rewrite Ho. split; [done|]. split; [|done]. unfold newest in Ho. apply last_in, list_elem_of_filter in Ho as [[_ Hle] Ho]. rewrite Forall_forall in Hall.
      rewrite op_pair_seen by (by apply Hall). destruct (Z.leb_spec (op_seq o) seq); [by rewrite Ht|lia].
  - intros ms. pose proof (dbiter_cursor user M seq Hs Hseq) as Hcur. pose proof (cursor_runs user (view user seq M) (fun _ => True) (iter_move user M seq) (tracks user M seq) ms newDBIter None ltac:(done) ltac:(by apply Forall_true)) as Hr.
    fold (iter_run user M seq newDBIter ms) in Hr. destruct (cursor_run _ _ _ ms) as [c|]; [|done]. destruct Hr as (d & Hd & Hst & Hss). exists d. split; [done|]. split; [by apply stands_showing|]. apply Hss.
    unfold parses. rewrite HMp. apply Forall_map. eapply Forall_impl; [exact Hall|]. intros o Ho. exists (mkParsed (op_key o) (op_seq o) (op_type o)). by apply op_pair_parse.
Qed.
End Scan.

Lemma scan_agrees_with_get_witness : exists M V : list (bytes * bytes), M <> [] /\ (forall k v, (k, v) ∈ V <-> k = [Byte.x61] /\ v = [Byte.x02]) /\
  exists d, iter_run BytewiseComparator M 2 newDBIter [ToFirst] = Some d /\ shows M d = V !! 0%nat /\ status_ d = OK.
Proof.
  set (ops := [mkOp 2 kTypeValue [Byte.x61] [Byte.x02]]). set (old := [mkOp 1 kTypeValue [Byte.x61] [Byte.x01]]).
  assert (forall ops, Forall op_ok ops -> increasing ops -> exists m, mem_holds BytewiseComparator m ops) as Hex.
  { intros l Hok Hi. destruct (Add_all_holds BytewiseComparator newMemTable [] l (newMemTable_holds BytewiseComparator) Hok Hi) as (m & _ & Hm). by exists m. }
  destruct (Hex ops) as [mem Hm]; [repeat constructor; vm_compute; discriminate|repeat constructor|]. destruct (Hex old) as [imm Hi]; [repeat constructor; vm_compute; discriminate|repeat constructor|].
  destruct (mem_contents_spec BytewiseComparator mem ops Hm) as (l & Hl & Hp & _). destruct (mem_contents_spec BytewiseComparator imm old Hi) as (l' & Hl' & Hp' & _).
  cbn [map ops] in Hp. cbn [map old] in Hp'. symmetry in Hp, Hp'. apply Permutation_singleton_l in Hp, Hp'. subst l l'.
  set (M := concat [[(op_ikey (mkOp 2 kTypeValue [Byte.x61] [Byte.x02]), [Byte.x02])]; [(op_ikey (mkOp 1 kTypeValue [Byte.x61] [Byte.x01]), [Byte.x01])]]).
  assert (StronglySorted (fun x y => internal_compare BytewiseComparator x.1 y.1 < 0) M) as Hs by (repeat constructor).
  destruct (scan_agrees_with_get BytewiseComparator mem imm ops old _ _ M 2 Hm Hi ltac:(repeat constructor) Hl Hl' ltac:(reflexivity) Hs ltac:(vm_compute; split; discriminate)) as (V & HV & Hin & Hrun).
  assert (forall k v, (k, v) ∈ V <-> k = [Byte.x61] /\ v = [Byte.x02]) as Hval.
  { intros k v. rewrite Hin. unfold newest. destruct (decide (k = [Byte.x61])) as [->|Hne].
    - split; [intros (o & Ho & _ & Hv); vm_compute in Ho; injection Ho as <-; by split|]. intros [_ ->]. exists (mkOp 2 kTypeValue [Byte.x61] [Byte.x02]). repeat split.
    - split; [|by intros [? _]]. intros (o & Ho & _). unfold ops, old in Ho. cbn [app] in Ho. rewrite !filter_cons in Ho. rewrite !decide_False in Ho by (intros [Hk _]; cbn in Hk; congruence). done. }
  exists M, V. split; [discriminate|]. split; [exact Hval|]. specialize (Hrun [ToFirst]). destruct V as [|x V]; [exfalso; eapply not_elem_of_nil; apply (Hval [Byte.x61] [Byte.x02]); done|]. exact Hrun.
Defined.
