(* ===== verification/VersionEdit.v ===== *)
(** * Edits of the set of tables: db/version_edit.cc

    The counters [refs] and [allowed_seeks] of a table, which are not written
    to the descriptor, are left out. *)

From Stdlib Require String.
From S2P Require Import Prelude CommonData Coding Bloom DbFormat.
Import (notations) String.

Definition kNumLevels : Z := 7.
Definition kComparator : Z := 1.
Definition kLogNumber : Z := 2.
Definition kNextFileNumber : Z := 3.
Definition kLastSequence : Z := 4.
Definition kCompactPointer : Z := 5.
Definition kDeletedFile : Z := 6.
Definition kNewFile : Z := 7.
Definition kPrevLogNumber : Z := 9.

Record FileMetaData : Type := mkFile { f_number : Z; f_file_size : Z; f_smallest : bytes; f_largest : bytes }.

(** A flag and the field it belongs to are one option.  [ve_deleted] is a
    [std::set], in its order. *)
Record VersionEdit : Type := mkEdit {
  ve_comparator : option bytes; ve_log : option Z; ve_prev_log : option Z; ve_next_file : option Z; ve_last_sequence : option Z;
  ve_pointers : list (Z * bytes); ve_deleted : list (Z * Z); ve_new : list (Z * FileMetaData)
}.
(** [Clear] leaves the compaction pointers alone. *)
Definition ve_Clear (e : VersionEdit) : VersionEdit := mkEdit None None None None None (ve_pointers e) [] [].
Definition newVersionEdit : VersionEdit := mkEdit None None None None None [] [] [].

Definition SetComparatorName (n : bytes) (e : VersionEdit) := mkEdit (Some n) (ve_log e) (ve_prev_log e) (ve_next_file e) (ve_last_sequence e) (ve_pointers e) (ve_deleted e) (ve_new e).
Definition SetLogNumber (n : Z) (e : VersionEdit) := mkEdit (ve_comparator e) (Some n) (ve_prev_log e) (ve_next_file e) (ve_last_sequence e) (ve_pointers e) (ve_deleted e) (ve_new e).
Definition SetPrevLogNumber (n : Z) (e : VersionEdit) := mkEdit (ve_comparator e) (ve_log e) (Some n) (ve_next_file e) (ve_last_sequence e) (ve_pointers e) (ve_deleted e) (ve_new e).
Definition SetNextFile (n : Z) (e : VersionEdit) := mkEdit (ve_comparator e) (ve_log e) (ve_prev_log e) (Some n) (ve_last_sequence e) (ve_pointers e) (ve_deleted e) (ve_new e).
Definition SetLastSequence (n : Z) (e : VersionEdit) := mkEdit (ve_comparator e) (ve_log e) (ve_prev_log e) (ve_next_file e) (Some n) (ve_pointers e) (ve_deleted e) (ve_new e).
Definition SetCompactPointer (level : Z) (key : bytes) (e : VersionEdit) :=
  mkEdit (ve_comparator e) (ve_log e) (ve_prev_log e) (ve_next_file e) (ve_last_sequence e) (ve_pointers e ++ [(level, key)]) (ve_deleted e) (ve_new e).
Definition AddFile (level : Z) (f : FileMetaData) (e : VersionEdit) :=
  mkEdit (ve_comparator e) (ve_log e) (ve_prev_log e) (ve_next_file e) (ve_last_sequence e) (ve_pointers e) (ve_deleted e) (ve_new e ++ [(level, f)]).

(** [std::set::insert] on pairs. *)
Definition pair_ltb (a b : Z * Z) : bool := (a.1 <? b.1) || ((a.1 =? b.1) && (a.2 <? b.2)).
Fixpoint set_insert (x : Z * Z) (l : list (Z * Z)) : list (Z * Z) :=
  match l with
  | [] => [x]
  | y :: l' => if pair_ltb x y then x :: l else if pair_ltb y x then y :: set_insert x l' else l
  end.
Definition DeleteFile (level file : Z) (e : VersionEdit) :=
  mkEdit (ve_comparator e) (ve_log e) (ve_prev_log e) (ve_next_file e) (ve_last_sequence e) (ve_pointers e) (set_insert (level, file) (ve_deleted e)) (ve_new e).

(** ** [EncodeTo] *)

(** Internal keys are not empty; [InternalKey::Encode] asserts it. *)

Definition put_option {A} (o : option A) (put : bytes -> A -> bytes) (dst : bytes) : bytes := match o with Some a => put dst a | None => dst end.
Definition ve_EncodeTo (e : VersionEdit) (dst : bytes) : bytes :=
  let dst := put_option (ve_comparator e) (fun dst n => PutLengthPrefixedSlice (PutVarint32 dst kComparator) n) dst in
  let dst := put_option (ve_log e) (fun dst n => PutVarint64 (PutVarint32 dst kLogNumber) n) dst in
  let dst := put_option (ve_prev_log e) (fun dst n => PutVarint64 (PutVarint32 dst kPrevLogNumber) n) dst in
  let dst := put_option (ve_next_file e) (fun dst n => PutVarint64 (PutVarint32 dst kNextFileNumber) n) dst in
  let dst := put_option (ve_last_sequence e) (fun dst n => PutVarint64 (PutVarint32 dst kLastSequence) n) dst in
  let dst := foldl (fun dst p => PutLengthPrefixedSlice (PutVarint32 (PutVarint32 dst kCompactPointer) (u32 p.1)) p.2) dst (ve_pointers e) in
  let dst := foldl (fun dst p => PutVarint64 (PutVarint32 (PutVarint32 dst kDeletedFile) (u32 p.1)) p.2) dst (ve_deleted e) in
  foldl (fun dst p =>
    let f := p.2 in
    let dst := PutVarint32 (PutVarint32 dst kNewFile) (u32 p.1) in
    let dst := PutVarint64 (PutVarint64 dst (f_number f)) (f_file_size f) in
    PutLengthPrefixedSlice (PutLengthPrefixedSlice dst (f_smallest f)) (f_largest f)) dst (ve_new e).

(** ** [DecodeFrom] *)

Definition GetInternalKey (input : bytes) : option (bytes * bytes) := GetLengthPrefixedSlice input.
Definition GetLevel (input : bytes) : option (Z * bytes) := '(v, input) ← GetVarint32 input; if v <? kNumLevels then Some (v, input) else None.

(** One round of the loop: [inl] with the message. *)
Definition orelse {A} (r : option A) (msg : String.string) : String.string + A := match r with Some a => inr a | None => inl msg end.
Definition decode_tag (tag : Z) (input : bytes) (e : VersionEdit) : String.string + bytes * VersionEdit :=
  if tag =? kComparator then orelse ('(str, input) ← GetLengthPrefixedSlice input; Some (input, SetComparatorName str e)) "comparator name"%string
  else if tag =? kLogNumber then orelse ('(n, input) ← GetVarint64 input; Some (input, SetLogNumber n e)) "log number"%string
  else if tag =? kPrevLogNumber then orelse ('(n, input) ← GetVarint64 input; Some (input, SetPrevLogNumber n e)) "previous log number"%string
  else if tag =? kNextFileNumber then orelse ('(n, input) ← GetVarint64 input; Some (input, SetNextFile n e)) "next file number"%string
  else if tag =? kLastSequence then orelse ('(n, input) ← GetVarint64 input; Some (input, SetLastSequence n e)) "last sequence number"%string
  else if tag =? kCompactPointer then
    orelse ('(level, input) ← GetLevel input; '(key, input) ← GetInternalKey input; Some (input, SetCompactPointer level key e)) "compaction pointer"%string
  else if tag =? kDeletedFile then
    orelse ('(level, input) ← GetLevel input; '(number, input) ← GetVarint64 input; Some (input, DeleteFile level number e)) "deleted file"%string
  else if tag =? kNewFile then
    orelse ('(level, input) ← GetLevel input; '(number, input) ← GetVarint64 input; '(file_size, input) ← GetVarint64 input;
            '(smallest, input) ← GetInternalKey input; '(largest, input) ← GetInternalKey input; Some (input, AddFile level (mkFile number file_size smallest largest) e)) "new-file entry"%string
  else inl "unknown tag"%string.
Fixpoint decode_loop (fuel : nat) (input : bytes) (e : VersionEdit) : option (option String.string * bytes * VersionEdit) :=
  match fuel with
  | O => None
  | S n =>
      match GetVarint32 input with
      | None => Some (None, input, e)
      | Some (tag, input) => match decode_tag tag input e with inl msg => Some (Some msg, input, e) | inr (input, e) => decode_loop n input e end
      end
  end.
Definition ve_DecodeFrom (src : bytes) (e : VersionEdit) : option (LStatus * VersionEdit) :=
  '(msg, input, e) ← decode_loop (S (length src)) src (ve_Clear e);
  let msg := match msg with None => if (0 <? zlen input) then Some "invalid tag"%string else None | Some m => Some m end in
  Some (match msg with None => OK | Some m => Corruption (String.append "VersionEdit: "%string m) end, e).

(** ** An edit as a list of items *)

Inductive item := IComparator (n : bytes) | ILog (n : Z) | IPrevLog (n : Z) | INext (n : Z) | ILast (n : Z) | IPointer (level : Z) (key : bytes) | IDelete (level file : Z) | INew (level : Z) (f : FileMetaData).
Definition item_tag (i : item) : Z :=
  match i with
  | IComparator _ => kComparator | ILog _ => kLogNumber | IPrevLog _ => kPrevLogNumber | INext _ => kNextFileNumber | ILast _ => kLastSequence
  | IPointer _ _ => kCompactPointer | IDelete _ _ => kDeletedFile | INew _ _ => kNewFile
  end.
Definition item_body (i : item) : bytes :=
  match i with
  | IComparator n => PutLengthPrefixedSlice [] n
  | ILog n | IPrevLog n | INext n | ILast n => EncodeVarint64 n
  | IPointer level key => EncodeVarint32 level ++ PutLengthPrefixedSlice [] key
  | IDelete level file => EncodeVarint32 level ++ EncodeVarint64 file
  | INew level f => EncodeVarint32 level ++ EncodeVarint64 (f_number f) ++ EncodeVarint64 (f_file_size f) ++ PutLengthPrefixedSlice [] (f_smallest f) ++ PutLengthPrefixedSlice [] (f_largest f)
  end.
Definition item_bytes (i : item) : bytes := EncodeVarint32 (item_tag i) ++ item_body i.
Definition apply_item (e : VersionEdit) (i : item) : VersionEdit :=
  match i with
  | IComparator n => SetComparatorName n e | ILog n => SetLogNumber n e | IPrevLog n => SetPrevLogNumber n e | INext n => SetNextFile n e | ILast n => SetLastSequence n e
  | IPointer level key => SetCompactPointer level key e | IDelete level file => DeleteFile level file e | INew level f => AddFile level f e
  end.
Definition level_ok (level : Z) : Prop := 0 <= level < kNumLevels.
Definition item_ok (i : item) : Prop :=
  match i with
  | IComparator n => zlen n < 2 ^ 32
  | ILog n | IPrevLog n | INext n | ILast n => is_u64 n
  | IPointer level key => level_ok level /\ zlen key < 2 ^ 32
  | IDelete level file => level_ok level /\ is_u64 file
  | INew level f => level_ok level /\ is_u64 (f_number f) /\ is_u64 (f_file_size f) /\ zlen (f_smallest f) < 2 ^ 32 /\ zlen (f_largest f) < 2 ^ 32
  end.
Definition opt_item {A} (f : A -> item) (o : option A) : list item := match o with Some a => [f a] | None => [] end.
Definition edit_items (e : VersionEdit) : list item :=
  opt_item IComparator (ve_comparator e) ++ opt_item ILog (ve_log e) ++ opt_item IPrevLog (ve_prev_log e) ++ opt_item INext (ve_next_file e) ++ opt_item ILast (ve_last_sequence e) ++
  map (fun p => IPointer p.1 p.2) (ve_pointers e) ++ map (fun p => IDelete p.1 p.2) (ve_deleted e) ++ map (fun p => INew p.1 p.2) (ve_new e).
Record edit_ok (e : VersionEdit) : Prop := mkEditOk { ok_items : Forall item_ok (edit_items e); ok_deleted : StronglySorted (fun a b => pair_ltb a b = true) (ve_deleted e) }.

Lemma level_u32 l : level_ok l -> is_u32 l.
Proof. unfold level_ok, kNumLevels, is_u32. lia. Qed.
Lemma get_level l rest : level_ok l -> GetLevel (EncodeVarint32 l ++ rest) = Some (l, rest).
Proof. intros Hl. unfold GetLevel. rewrite get_varint32 by (by apply level_u32). cbn [mbind option_bind]. unfold level_ok in Hl. by rewrite (proj2 (Z.ltb_lt _ _)) by lia. Qed.

Lemma decode_item i rest e : item_ok i -> decode_tag (item_tag i) (item_body i ++ rest) e = inr (rest, apply_item e i).
Proof.
  intros Hi. destruct i; cbn [item_tag item_ok item_body] in *; unfold decode_tag; cbn [Z.eqb Pos.eqb kComparator kLogNumber kNextFileNumber kLastSequence kCompactPointer kDeletedFile kNewFile kPrevLogNumber].
  - by rewrite slice_roundtrip.
  - by rewrite varint64_roundtrip.
  - by rewrite varint64_roundtrip.
  - by rewrite varint64_roundtrip.
  - by rewrite varint64_roundtrip.
  - destruct Hi. rewrite <- app_assoc, get_level by done. cbn [mbind option_bind]. unfold GetInternalKey. by rewrite slice_roundtrip.
  - destruct Hi. rewrite <- app_assoc, get_level by done. cbn [mbind option_bind]. by rewrite varint64_roundtrip.
  - destruct Hi as (? & ? & ? & ? & ?). rewrite <- !app_assoc, get_level by done. cbn [mbind option_bind]. rewrite varint64_roundtrip by done. cbn [mbind option_bind]. rewrite varint64_roundtrip by done. cbn [mbind option_bind].
    unfold GetInternalKey. rewrite slice_roundtrip by done. cbn [mbind option_bind]. rewrite slice_roundtrip by done. by destruct f.
Qed.
Lemma item_tag_u32 i : is_u32 (item_tag i).
Proof. destruct i; vm_compute; split; congruence. Qed.
Lemma decode_items its fuel e : Forall item_ok its -> (length its < fuel)%nat -> decode_loop fuel (concat (map item_bytes its)) e = Some (None, [], foldl apply_item e its).
Proof.
  revert fuel e. induction its as [|i its IH]; intros [|n] e Hok Hf; cbn [length] in Hf; try lia; [done|]. apply Forall_cons in Hok as [Hi Hok]. cbn [map concat decode_loop foldl]. unfold item_bytes at 1. rewrite <- app_assoc.
  rewrite get_varint32 by apply item_tag_u32. rewrite decode_item by done. apply IH; [done|lia].
Qed.

(** [EncodeTo] writes the items. *)
Lemma PutLengthPrefixedSlice_dst dst v : PutLengthPrefixedSlice dst v = dst ++ PutLengthPrefixedSlice [] v.
Proof. apply PutLengthPrefixedSlice_app. Qed.
Lemma put_option_items {A} (o : option A) put (f : A -> item) dst : (forall d a, put d a = d ++ item_bytes (f a)) -> put_option o put dst = dst ++ concat (map item_bytes (opt_item f o)).
Proof. intros Hp. destruct o; cbn; [rewrite Hp; by rewrite app_nil_r|by rewrite app_nil_r]. Qed.
Lemma foldl_items {A} (l : list A) put (f : A -> item) dst : (forall d a, a ∈ l -> put d a = d ++ item_bytes (f a)) -> foldl put dst l = dst ++ concat (map item_bytes (map f l)).
Proof.
  revert dst. induction l as [|a l IH]; intros dst Hp; cbn [foldl map concat]; [by rewrite app_nil_r|]. rewrite Hp by left. rewrite IH by (intros d x Hx; apply Hp; by right). by rewrite app_assoc.
Qed.
Lemma EncodeTo_items e dst : Forall item_ok (edit_items e) -> ve_EncodeTo e dst = dst ++ concat (map item_bytes (edit_items e)).
Proof.
  intros Hok. unfold edit_items in *. rewrite !map_app, !concat_app. rewrite !Forall_app in Hok. destruct Hok as (_ & _ & _ & _ & _ & Hp & Hd & Hn). rewrite Forall_forall in Hp, Hd, Hn. unfold ve_EncodeTo.
  rewrite (put_option_items (ve_comparator e) _ IComparator) by (intros d a; unfold PutVarint32; rewrite PutLengthPrefixedSlice_dst; unfold item_bytes; by rewrite <- app_assoc).
  rewrite (put_option_items (ve_log e) _ ILog) by (intros d a; unfold PutVarint64, PutVarint32, item_bytes; by rewrite <- app_assoc).
  rewrite (put_option_items (ve_prev_log e) _ IPrevLog) by (intros d a; unfold PutVarint64, PutVarint32, item_bytes; by rewrite <- app_assoc).
  rewrite (put_option_items (ve_next_file e) _ INext) by (intros d a; unfold PutVarint64, PutVarint32, item_bytes; by rewrite <- app_assoc).
  rewrite (put_option_items (ve_last_sequence e) _ ILast) by (intros d a; unfold PutVarint64, PutVarint32, item_bytes; by rewrite <- app_assoc).
  rewrite (foldl_items (ve_pointers e) _ (fun p => IPointer p.1 p.2)).
  2:{ intros d a Ha. destruct (Hp (IPointer a.1 a.2) ltac:(by apply (list_elem_of_fmap_2 (fun p => IPointer p.1 p.2)))) as [Hl _]. unfold PutVarint32. rewrite PutLengthPrefixedSlice_dst, u32_small by (by apply level_u32). unfold item_bytes. cbn [item_tag item_body]. by rewrite <- !app_assoc. }
  rewrite (foldl_items (ve_deleted e) _ (fun p => IDelete p.1 p.2)).
  2:{ intros d a Ha. destruct (Hd (IDelete a.1 a.2) ltac:(by apply (list_elem_of_fmap_2 (fun p => IDelete p.1 p.2)))) as [Hl _]. unfold PutVarint64, PutVarint32. rewrite u32_small by (by apply level_u32). unfold item_bytes. cbn [item_tag item_body]. by rewrite <- !app_assoc. }
  rewrite (foldl_items (ve_new e) _ (fun p => INew p.1 p.2)).
  2:{ intros d a Ha. destruct (Hn (INew a.1 a.2) ltac:(by apply (list_elem_of_fmap_2 (fun p => INew p.1 p.2)))) as [Hl _]. rewrite PutLengthPrefixedSlice_dst, (PutLengthPrefixedSlice_dst _ (f_smallest _)). unfold PutVarint64, PutVarint32. rewrite u32_small by (by apply level_u32). unfold item_bytes. cbn [item_tag item_body]. by rewrite <- !app_assoc. }
  by rewrite <- !app_assoc.
Qed.

(** Applying the items builds the edit again. *)
Lemma pair_ltb_trans a b d : pair_ltb a b = true -> pair_ltb b d = true -> pair_ltb a d = true.
Proof. unfold pair_ltb. rewrite !orb_true_iff, !andb_true_iff, !Z.ltb_lt, !Z.eqb_eq. lia. Qed.
Lemma pair_ltb_flip a b : pair_ltb a b = true -> pair_ltb b a = false.
Proof. unfold pair_ltb. rewrite orb_true_iff, andb_true_iff, orb_false_iff, andb_false_iff, !Z.ltb_lt, !Z.ltb_ge, Z.eqb_eq, Z.eqb_neq. lia. Qed.
Lemma set_insert_last l x : Forall (fun a => pair_ltb a x = true) l -> set_insert x l = l ++ [x].
Proof. induction 1 as [|y l Hy Hl IH]; [done|]. cbn [set_insert app]. rewrite (pair_ltb_flip _ _ Hy), Hy. by rewrite IH. Qed.
Lemma apply_pointers l e : foldl apply_item e (map (fun p => IPointer p.1 p.2) l) = mkEdit (ve_comparator e) (ve_log e) (ve_prev_log e) (ve_next_file e) (ve_last_sequence e) (ve_pointers e ++ l) (ve_deleted e) (ve_new e).
Proof. revert e. induction l as [|[a b] l IH]; intros e; cbn [map foldl]; [rewrite app_nil_r; by destruct e|]. rewrite IH. cbn. by rewrite <- app_assoc. Qed.
Lemma apply_deleted l e : StronglySorted (fun a b => pair_ltb a b = true) (ve_deleted e ++ l) ->
  foldl apply_item e (map (fun p => IDelete p.1 p.2) l) = mkEdit (ve_comparator e) (ve_log e) (ve_prev_log e) (ve_next_file e) (ve_last_sequence e) (ve_pointers e) (ve_deleted e ++ l) (ve_new e).
Proof.
  revert e. induction l as [|[a b] l IH]; intros e Hs; cbn [map foldl]; [rewrite app_nil_r; by destruct e|].
  assert (set_insert (a, b) (ve_deleted e) = ve_deleted e ++ [(a, b)]) as Hi by (apply set_insert_last, Forall_forall; intros x Hx; apply StronglySorted_app in Hs as (Hs & _); apply Hs; [done|left]).
  rewrite IH; cbn [apply_item DeleteFile ve_deleted fst snd]; rewrite Hi; [by rewrite <- app_assoc|]. rewrite <- app_assoc. exact Hs.
Qed.
Lemma apply_new l e : foldl apply_item e (map (fun p => INew p.1 p.2) l) = mkEdit (ve_comparator e) (ve_log e) (ve_prev_log e) (ve_next_file e) (ve_last_sequence e) (ve_pointers e) (ve_deleted e) (ve_new e ++ l).
Proof. revert e. induction l as [|[a b] l IH]; intros e; cbn [map foldl]; [rewrite app_nil_r; by destruct e|]. rewrite IH. cbn. by rewrite <- app_assoc. Qed.

(** C29. An edit that was written to the descriptor is decoded from it with
    every field, the sets and lists of tables included, and OK.  The
    compaction pointers that the edit decoded into had before are kept in
    front, as they are not cleared. *)
Theorem version_edit_roundtrip e e0 : edit_ok e ->
  ve_DecodeFrom (ve_EncodeTo e []) e0 =
    Some (OK, mkEdit (ve_comparator e) (ve_log e) (ve_prev_log e) (ve_next_file e) (ve_last_sequence e) (ve_pointers e0 ++ ve_pointers e) (ve_deleted e) (ve_new e)).
Proof.
  intros [Hok Hdel]. rewrite EncodeTo_items by done. cbn [app]. unfold ve_DecodeFrom.
  assert (length (edit_items e) < S (length (concat (map item_bytes (edit_items e)))))%nat as Hl.
  { apply Nat.lt_succ_r. clear. induction (edit_items e) as [|i l IH]; [done|]. cbn [map concat length]. rewrite length_app. assert (0 < length (item_bytes i))%nat; [|lia]. unfold item_bytes. rewrite length_app.
    assert (1 <= zlen (EncodeVarint32 (item_tag i))) by (apply zlen_varint32, item_tag_u32). unfold zlen in *. lia. }
  rewrite decode_items by done. cbn [mbind option_bind]. change (0 <? zlen (@nil byte)) with false. do 2 f_equal. unfold edit_items. rewrite !foldl_app. rewrite apply_new.
  rewrite apply_deleted; [|rewrite apply_pointers; destruct e as [[] [] [] [] [] ? ? ?]; exact Hdel]. rewrite apply_pointers. destruct e as [[] [] [] [] [] ? ? ?]; reflexivity.
Qed.

Lemma version_edit_roundtrip_witness :
  let e := AddFile 1 (mkFile 7 300 [Byte.x61] [Byte.x62]) (DeleteFile 0 5 (DeleteFile 0 3 (SetLogNumber 9 newVersionEdit))) in ve_DecodeFrom (ve_EncodeTo e []) newVersionEdit = Some (OK, e).
Proof.
  intros e. rewrite (version_edit_roundtrip e newVersionEdit); [reflexivity|]. split; [repeat constructor; vm_compute; discriminate|repeat constructor].
Defined.
