(* ===== verification/Version.v ===== *)
(** * Versions: the tables of the database, level by level (db/version_set.cc)

    The class [Version]: finding the tables that can hold a key, reading a key,
    and the level a new table goes to.  A table is read through [table_get], the
    [Get] of the table cache, on a state of its own; [table_reads] is what
    [table_get_finds] shows of it. *)

From S2P Require Import Prelude CommonData Coding Bloom DbFormat MemTable DbIter Merger TwoLevel Table VersionEdit.
From Stdlib Require String.
Import (notations) String.

(** ** Finding tables *)

Section Version.
Context (user : Comparator).
Implicit Types (f : FileMetaData) (files : list FileMetaData).
Abbreviation icmp := (internal_compare user).

Definition smallest_user f : bytes := ExtractUserKey (f_smallest f).
Definition largest_user f : bytes := ExtractUserKey (f_largest f).

Fixpoint find_file_loop (fuel : nat) files (key : bytes) (left right : Z) : option Z :=
  match fuel with
  | O => None
  | S n =>
      if left <? right then
        let mid := u32 (left + right) / 2 in
        f ← files !! Z.to_nat mid;
        if icmp (f_largest f) key <? 0 then find_file_loop n files key (u32 (mid + 1)) right else find_file_loop n files key left mid
      else Some right
  end.
Definition FindFile files (key : bytes) : option Z := find_file_loop (S (length files)) files key 0 (u32 (zlen files)).

(** [None] for a null pointer. *)
Definition AfterFile (user_key : option bytes) f : bool := match user_key with Some k => 0 <? Compare user k (largest_user f) | None => false end.
Definition BeforeFile (user_key : option bytes) f : bool := match user_key with Some k => Compare user k (smallest_user f) <? 0 | None => false end.
Definition SomeFileOverlapsRange (disjoint_sorted_files : bool) files (smallest_user_key largest_user_key : option bytes) : option bool :=
  if negb disjoint_sorted_files then Some (existsb (fun f => negb (AfterFile smallest_user_key f || BeforeFile largest_user_key f)) files)
  else
    index ← match smallest_user_key with Some k => FindFile files (InternalKey k kMaxSequenceNumber kValueTypeForSeek) | None => Some 0 end;
    if zlen files <=? index then Some false
    else f ← files !! Z.to_nat index; Some (negb (BeforeFile largest_user_key f)).

(** *** [LevelFileNumIterator]: the position in the files of a level *)
Definition file_value f : bytes := EncodeFixed64 (f_number f) ++ EncodeFixed64 (f_file_size f).
Definition lfn_move files (index : Z) (m : move) : option Z :=
  match m with
  | ToKey target => FindFile files target
  | ToFirst => Some 0
  | ToLast => Some (if (length files =? 0)%nat then 0 else u32 (zlen files - 1))
  | Forward => if index <? zlen files then Some (u32 (index + 1)) else None
  | Back => if index <? zlen files then Some (if index =? 0 then u32 (zlen files) else index - 1) else None
  end.
Definition lfn_entry files (index : Z) : option (bytes * bytes) := if index <? zlen files then (fun f => (f_largest f, file_value f)) <$> files !! Z.to_nat index else None.

(** ** [Get] *)

Inductive SaverState := kNotFound | kFound (value : bytes) | kDeleted | kCorrupt.
Definition SaveValue (saver_key ikey v : bytes) (state : SaverState) : SaverState :=
  match ParseInternalKey ikey with
  | None => kCorrupt
  | Some parsed_key => if Compare user (user_key parsed_key) saver_key =? 0 then match key_type parsed_key with kTypeValue => kFound v | kTypeDeletion => kDeleted end else state
  end.

(** [std::sort] with [NewestFirst]. *)
Definition NewestFirst (a b : FileMetaData) : bool := f_number b <? f_number a.
Fixpoint insert_newest f files : list FileMetaData := match files with [] => [f] | g :: l => if NewestFirst g f then g :: insert_newest f l else f :: files end.
Definition sort_newest files : list FileMetaData := foldr insert_newest [] files.

(** The tables of a level that are searched. *)
Definition files_to_search (level : Z) files (ikey ukey : bytes) : option (list FileMetaData) :=
  if level =? 0 then
    Some (sort_newest (filter (fun f => 0 <= Compare user ukey (smallest_user f) /\ Compare user ukey (largest_user f) <= 0) files))
  else
    index ← FindFile files ikey;
    if zlen files <=? index then Some []
    else f ← files !! Z.to_nat index; Some (if Compare user ukey (smallest_user f) <? 0 then [] else [f]).

Context {S : Type} (table_get : Z -> Z -> bytes -> S -> option (LStatus * option (bytes * bytes) * S)).

(** A table with its level; the first one of several that were read is
    charged. *)
Definition GetStats : Type := option (FileMetaData * Z).
Definition charge (last_file_read seek_file : GetStats) : GetStats := match seek_file with None => last_file_read | Some _ => seek_file end.
Definition get_result : Type := LStatus * bytes * GetStats * S.
(** [inl] when [Get] returns, [inr] when the search goes on.  The message of a
    corruption also shows the key. *)
Fixpoint search_files (level : Z) files (ikey ukey : bytes) (last_file_read seek_file : GetStats) (s : S) : option (get_result + GetStats * GetStats * S) :=
  match files with
  | [] => Some (inr (last_file_read, seek_file, s))
  | f :: files =>
      let seek_file := charge last_file_read seek_file in
      let last_file_read := Some (f, level) in
      '(st, found, s) ← table_get (f_number f) (f_file_size f) ikey s;
      let state := match found with Some e => SaveValue ukey e.1 e.2 kNotFound | None => kNotFound end in
      if negb (ok st) then Some (inl (st, [], seek_file, s))
      else
        match state with
        | kNotFound => search_files level files ikey ukey last_file_read seek_file s
        | kFound v => Some (inl (OK, v, seek_file, s))
        | kDeleted => Some (inl (NotFound String.EmptyString, [], seek_file, s))
        | kCorrupt => Some (inl (Corruption "corrupted key for "%string, [], seek_file, s))
        end
  end.
Fixpoint search_levels (level : Z) (levels : list (list FileMetaData)) (ikey ukey : bytes) (last_file_read seek_file : GetStats) (s : S) : option get_result :=
  match levels with
  | [] => Some (NotFound String.EmptyString, [], seek_file, s)
  | files :: levels =>
      fs ← files_to_search level files ikey ukey;
      r ← search_files level fs ikey ukey last_file_read seek_file s;
      match r with
      | inl r => Some r
      | inr (last_file_read, seek_file, s) => search_levels (level + 1) levels ikey ukey last_file_read seek_file s
      end
  end.
Definition version_Get (files_ : list (list FileMetaData)) (k : LookupKey) (s : S) : option get_result := search_levels 0 files_ (internal_key k) (lookup_user_key k) None None s.
End Version.

(** ** The order of tables *)

Section Search.
Context (user : Comparator) `{!ComparatorLaws user (fun _ => True)}.
Implicit Types (f : FileMetaData) (files : list FileMetaData) (e x : bytes * bytes).
Abbreviation icmp := (internal_compare user).
Abbreviation c := (InternalKeyComparator user).

Lemma sorted_lookup {A} (R : A -> A -> Prop) (l : list A) i j a b : StronglySorted R l -> l !! i = Some a -> l !! j = Some b -> (i < j)%nat -> R a b.
Proof.
  intros Hs. revert i j. induction Hs as [|x l Hs IH Hx]; intros i j Ha Hb Hij; [done|]. destruct j as [|j]; [lia|]. cbn in Hb. destruct i as [|i]; [|apply (IH i j); [done|done|lia]]. cbn in Ha. injection Ha as <-. rewrite Forall_forall in Hx. apply Hx. by eapply list_elem_of_lookup_2.
Qed.

(** Files in the order of their largest keys. *)
Definition by_largest files : Prop := Forall (fun f => internal (f_largest f)) files /\ StronglySorted (fun f g => icmp (f_largest f) (f_largest g) < 0) files.
Lemma find_file_spec fuel files key l u : by_largest files -> internal key -> zlen files < 2 ^ 31 -> (l <= u <= length files)%nat -> (u - l < fuel)%nat ->
  (forall i f, files !! i = Some f -> (i < l)%nat -> icmp (f_largest f) key < 0) -> (forall i f, files !! i = Some f -> (u <= i)%nat -> 0 <= icmp (f_largest f) key) ->
  exists j, find_file_loop user fuel files key (Z.of_nat l) (Z.of_nat u) = Some (Z.of_nat j) /\ (j <= length files)%nat /\ (forall i f, files !! i = Some f -> (i < j)%nat -> icmp (f_largest f) key < 0) /\ (forall i f, files !! i = Some f -> (j <= i)%nat -> 0 <= icmp (f_largest f) key).
Proof using All.
  intros [Hd Hs] Hk Hn. revert l u. induction fuel as [|n IH]; intros l u Hlu Hf Hlo Hhi; [lia|]. cbn [find_file_loop]. destruct (Z.ltb_spec (Z.of_nat l) (Z.of_nat u)) as [Hlt|Hge].
  2: { exists u. split; [done|]. split; [lia|]. split; [|done]. intros i f Hi Hiu. apply (Hlo i f Hi). lia. }
  unfold zlen in Hn. rewrite (u32_small (Z.of_nat l + Z.of_nat u)). 2: { unfold is_u32. lia. } set (m := ((l + u) / 2)%nat). assert ((Z.of_nat l + Z.of_nat u) / 2 = Z.of_nat m) as -> by (unfold m; rewrite Nat2Z.inj_div, Nat2Z.inj_add; done).
  assert (l <= m < u)%nat as Hm. { unfold m. split; [apply Nat.div_le_lower_bound; lia|apply Nat.Div0.div_lt_upper_bound; lia]. } rewrite Nat2Z.id. destruct (lookup_lt_is_Some_2 files m ltac:(lia)) as [f Hfm]. rewrite Hfm. cbn [mbind option_bind].
  assert (forall i j a b, files !! i = Some a -> files !! j = Some b -> (i < j)%nat -> icmp (f_largest a) (f_largest b) < 0) as Hord by (intros i j a b; exact (sorted_lookup _ files i j a b Hs)).
  rewrite Forall_lookup in Hd. destruct (Z.ltb_spec (icmp (f_largest f) key) 0) as [Hc|Hc].
  - rewrite u32_small by (unfold is_u32; lia). replace (Z.of_nat m + 1) with (Z.of_nat (S m)) by lia. apply IH; [lia|lia| |done]. intros i g Hi Him. destruct (decide (i = m)) as [->|]; [rewrite Hfm in Hi; by injection Hi as <-|].
    apply (internal_trans user _ (f_largest f)); [|done]. apply (Hord i m); [done|done|lia].
  - apply IH; [lia|lia|done|]. intros i g Hi Hmi. destruct (decide (i = m)) as [->|]; [rewrite Hfm in Hi; by injection Hi as <-|]. destruct (Z.lt_ge_cases (icmp (f_largest g) key) 0) as [Hlt'|]; [|done].
    pose proof (internal_trans user _ _ _ (Hord m i f g Hfm Hi ltac:(lia)) Hlt'). lia.
Qed.
End Search.

(** ** Reading a key *)

Section Newest.
Context (user : Comparator) `{!ComparatorLaws user (fun _ => True)} (seq : Z) (Hseq : 0 <= seq <= kMaxSequenceNumber) (k : bytes).
Implicit Types (e x : bytes * bytes) (l : list (bytes * bytes)).
Abbreviation icmp := (internal_compare user).
Abbreviation c := (InternalKeyComparator user).
Definition seek_ikey : bytes := k ++ EncodeFixed64 (PackSequenceAndType seq kValueTypeForSeek).

Lemma internal_lt_irrefl a : ~ icmp a a < 0.
Proof using ComparatorLaws0. intros [H|[_ H]]%(internal_lt user); [|lia]. pose proof (proj2 (user_eq user (ExtractUserKey a) (ExtractUserKey a)) eq_refl). lia. Qed.
Lemma seek_ikey_num : ExtractUserKey seek_ikey = k /\ key_num seek_ikey = 256 * seq + 1.
Proof using Hseq. unfold seek_ikey. rewrite ExtractUserKey_append, key_num_append, Pack_add by (done || by apply Pack_range). done. Qed.
Lemma at_or_behind e : 0 <= icmp e.1 seek_ikey <-> Compare user k (ukey e) < 0 \/ ukey e = k /\ key_num e.1 <= 256 * seq + 1.
Proof using Hseq ComparatorLaws0.
  destruct seek_ikey_num as [Hu Hn]. pose proof (internal_lt user e.1 seek_ikey) as Hlt. rewrite Hu, Hn in Hlt. fold (ukey e) in Hlt. pose proof (user_flip user k (ukey e)) as Hf. pose proof (user_flip user (ukey e) k) as Hf'. pose proof (user_eq user (ukey e) k) as He. destruct (Z.lt_trichotomy (Compare user (ukey e) k) 0) as [H|[H|H]].
  - split; [intros Hge; exfalso; assert (icmp e.1 seek_ikey < 0) by (apply Hlt; by left); lia|]. intros [Hc|[Hc _]]; [apply Hf in Hc; lia|]. apply He in Hc. lia.
  - apply He in H as Hu'. split; [intros Hge; right; split; [done|]; destruct (Z.le_gt_cases (key_num e.1) (256 * seq + 1)); [done|]; exfalso; assert (icmp e.1 seek_ikey < 0) by (apply Hlt; right; split; [done|lia]); lia|].
    intros [Hc|[_ Hc]]; [apply Hf in Hc; lia|]. destruct (Z.lt_ge_cases (icmp e.1 seek_ikey) 0) as [Hx|]; [|done]. apply Hlt in Hx as [Hx|[_ Hx]]; lia.
  - split; [intros _; left; by apply Hf|]. intros _. destruct (Z.lt_ge_cases (icmp e.1 seek_ikey) 0) as [Hx|]; [|done]. apply Hlt in Hx as [Hx|[Hx _]]; [lia|]. apply He in Hx. lia.
Qed.
Lemma seen_of_num e : is_Some (ParseInternalKey e.1) -> seen_of seq k e <-> ukey e = k /\ key_num e.1 <= 256 * seq + 1.
Proof.
  intros [p Hp]. unfold seen_of, seen. rewrite Hp. apply parse_internal_key_inv in Hp as [E Hr]. assert (key_num e.1 = 256 * sequence p + type_num (key_type p)) as ->.
  { rewrite E. unfold AppendInternalKey, PutFixed64. by rewrite key_num_append, Pack_add by (done || by apply Pack_range). }
  pose proof (type_num_range (key_type p)). destruct (Z.leb_spec (sequence p) seq) as [Hle|Hgt].
  - split; [intros [_ Hk]; split; [done|lia]|intros [Hk _]; split; [by eexists|done]].
  - split; [by intros [[? [=]] _]|intros [_ Hk]; lia].
Qed.

(** What a search in one sorted list finds for the key. *)
Definition hit l : option (bytes * bytes) := e ← first_from c seek_ikey l; if decide (ukey e = k) then Some e else None.
Lemma hit_newest l : Forall (fun e => is_Some (ParseInternalKey e.1)) l -> StronglySorted (fun x y => icmp x.1 y.1 < 0) l -> hit l = newest_entry seq k l.
Proof using Hseq ComparatorLaws0.
  intros Hp Hs. induction Hs as [|x l Hs IH Hx]; [done|]. apply Forall_cons in Hp as [Hpx Hp]. specialize (IH Hp). rewrite newest_cons. pose proof (seen_of_num x Hpx) as Hseen. pose proof (at_or_behind x) as Hat.
  unfold hit, first_from in *. cbn [list_find]. destruct (decide (0 <= Compare c x.1 seek_ikey)) as [Hge|Hlt]; cbn [fmap option_fmap option_map mbind option_bind snd].
  - apply Hat in Hge as [Hb|Hb].
    + assert (ukey x <> k) as Hne by (intros E; rewrite E in Hb; pose proof (proj2 (user_eq user k k) eq_refl); lia). rewrite decide_False by done. rewrite decide_False by (by intros [? _]%Hseen). symmetry. unfold newest_entry. destruct (head (filter (seen_of seq k) l)) as [y|] eqn:Hy; [|done]. exfalso.
      apply head_in, list_elem_of_filter in Hy as [[_ Hy] Hin]. rewrite Forall_forall in Hx. specialize (Hx y Hin). apply (internal_lt user) in Hx. fold (ukey x) (ukey y) in Hx. rewrite Hy in Hx. destruct Hx as [Hx|[Hx _]]; [|done]. apply (user_flip user) in Hx. lia.
    + rewrite !decide_True; [done|by apply Hseen|by apply Hb].
  - rewrite decide_False by (intros Hsn%Hseen; apply Hlt, Hat; by right). rewrite <- IH. by destruct (list_find _ l) as [[]|].
Qed.

(** Of several lists, the first one with a hit is asked. *)
Definition first_hit (srcs : list (list (bytes * bytes))) : option (bytes * bytes) := head (omap (newest_entry seq k) srcs).
Definition aged (srcs : list (list (bytes * bytes))) : Prop := forall i j a b x y, srcs !! i = Some a -> srcs !! j = Some b -> (i < j)%nat -> x ∈ a -> y ∈ b -> ukey x = ukey y -> icmp x.1 y.1 < 0.
Lemma first_hit_cons a srcs : first_hit (a :: srcs) = match newest_entry seq k a with Some e => Some e | None => first_hit srcs end.
Proof. unfold first_hit. cbn [omap list_omap]. by destruct (newest_entry seq k a). Qed.
Lemma first_hit_app a b : first_hit (a ++ b) = match first_hit a with Some e => Some e | None => first_hit b end.
Proof. induction a as [|x a IH]; [done|]. cbn [app]. rewrite !first_hit_cons, IH. by destruct (newest_entry seq k x). Qed.
Lemma aged_tail a srcs : aged (a :: srcs) -> aged srcs.
Proof. intros H i j x y e e' Hi Hj Hij. apply (H (Datatypes.S i) (Datatypes.S j)); [done|done|lia]. Qed.
Lemma newest_filter_nil l : newest_entry seq k l = None -> forall e, e ∈ l -> ~ seen_of seq k e.
Proof. intros Hn e He Hs. eapply head_none; [exact Hn|]. by apply list_elem_of_filter. Qed.

Lemma first_hit_newest srcs M : aged srcs -> Forall (StronglySorted (fun x y => icmp x.1 y.1 < 0)) srcs -> M ≡ₚ concat srcs -> StronglySorted (fun x y => icmp x.1 y.1 < 0) M -> first_hit srcs = newest_entry seq k M.
Proof using ComparatorLaws0.
  intros Ha Hs Hp HM. destruct (newest_entry seq k M) as [e|] eqn:He.
  - pose proof (head_in _ _ He) as [Hse Hin]%list_elem_of_filter. rewrite Hp in Hin.
    assert (forall y, y ∈ concat srcs -> seen_of seq k y -> y = e \/ icmp e.1 y.1 < 0) as Hmin. { intros y Hy Hsy. apply (head_least c (filter (seen_of seq k) M)); [by apply (filter_sorted c)|done|]. apply list_elem_of_filter. by rewrite Hp. }
    clear Hp HM He. induction srcs as [|a srcs IH]; [by apply elem_of_nil in Hin|]. rewrite first_hit_cons. apply Forall_cons in Hs as [Hsa Hs]. destruct (newest_entry seq k a) as [e'|] eqn:Hn.
    + f_equal. pose proof (head_in _ _ Hn) as [Hse' Hin']%list_elem_of_filter. destruct (Hmin e') as [|Hlt]; [cbn; apply elem_of_app; by left|done|done|]. cbn in Hin. apply elem_of_app in Hin as [Hin|Hin].
      * destruct (head_least c (filter (seen_of seq k) a) e' e) as [|Hlt']; [by apply (filter_sorted c)|done|by apply list_elem_of_filter|done|]. cbn in Hlt'. pose proof (internal_trans user _ _ _ Hlt Hlt') as Hc. exfalso. by apply internal_lt_irrefl in Hc.
      * exfalso. apply list_elem_of_In, in_concat in Hin as (b & Hb & Hin). apply list_elem_of_In in Hb, Hin. apply list_elem_of_lookup_1 in Hb as [j Hj]. pose proof (Ha 0%nat (Datatypes.S j) a b e' e eq_refl Hj ltac:(lia) Hin' Hin) as Hc. destruct Hse as [_ E1], Hse' as [_ E2]. rewrite E1, E2 in Hc. specialize (Hc eq_refl).
        pose proof (internal_trans user _ _ _ Hlt Hc) as Hc'. by apply internal_lt_irrefl in Hc'.
    + apply IH; [by eapply aged_tail|done| |intros y Hy; apply Hmin; cbn; apply elem_of_app; by right]. cbn in Hin. apply elem_of_app in Hin as [Hin|Hin]; [|done]. by destruct (newest_filter_nil a Hn e Hin).
  - unfold first_hit. destruct (head (omap (newest_entry seq k) srcs)) as [e|] eqn:Hh; [|done]. exfalso. apply head_in, list_elem_of_omap in Hh as (a & Hin & Hn). apply head_in, list_elem_of_filter in Hn as [Hse Hine].
    apply (newest_filter_nil M He e); [|done]. rewrite Hp. apply list_elem_of_In, in_concat. exists a. split; by apply list_elem_of_In.
Qed.
End Newest.

Section Get.
Context (user : Comparator) `{!ComparatorLaws user (fun _ => True)} {T : Type} (table_get : Z -> Z -> bytes -> T -> option (LStatus * option (bytes * bytes) * T)) (Inv : T -> Prop) (contents : FileMetaData -> list (bytes * bytes)).
Implicit Types (f g : FileMetaData) (files : list FileMetaData) (e x : bytes * bytes).
Abbreviation icmp := (internal_compare user).
Abbreviation c := (InternalKeyComparator user).

(** A table and its contents. *)
Definition table_reads f : Prop := forall ikey s, internal ikey -> Inv s -> exists saved s', table_get (f_number f) (f_file_size f) ikey s = Some (OK, saved, s') /\ Inv s' /\
  (forall e, saved = Some e -> first_from c ikey (contents f) = Some e) /\ (forall e, first_from c ikey (contents f) = Some e -> ExtractUserKey ikey = ExtractUserKey e.1 -> saved = Some e).
Record file_ok f : Prop := mkFileOk {
  fo_parse : Forall (fun e => is_Some (ParseInternalKey e.1)) (contents f);
  fo_sorted : StronglySorted (fun x y => icmp x.1 y.1 < 0) (contents f);
  fo_smallest : internal (f_smallest f) /\ forall x, x ∈ contents f -> icmp (f_smallest f) x.1 <= 0;
  fo_largest : internal (f_largest f) /\ (forall x, x ∈ contents f -> icmp x.1 (f_largest f) <= 0) /\ exists x, x ∈ contents f /\ x.1 = f_largest f;
  fo_reads : table_reads f
}.
(** What is searched, one after the other. *)
Definition sources (levels : list (list FileMetaData)) : list (list (bytes * bytes)) :=
  match levels with [] => [] | files :: levels => map contents (sort_newest files) ++ map (fun files => concat (map contents files)) levels end.
Record levels_ok (levels : list (list FileMetaData)) : Prop := mkLevelsOk {
  lo_files : Forall (Forall file_ok) levels;
  lo_disjoint : Forall (StronglySorted (fun f g => icmp (f_largest f) (f_smallest g) < 0)) (tail levels);
  lo_small : Forall (fun files => zlen files < 2 ^ 31) levels;
  lo_aged : aged user (sources levels)
}.
Definition entry_answer e : LStatus * bytes :=
  match ParseInternalKey e.1 with Some p => match key_type p with kTypeValue => (OK, e.2) | kTypeDeletion => (NotFound String.EmptyString, []) end | None => (Corruption "corrupted key for "%string, []) end.

Context (seq : Z) (Hseq : 0 <= seq <= kMaxSequenceNumber) (k : bytes).
Abbreviation ikey := (seek_ikey seq k).

Lemma ikey_internal : internal ikey.
Proof. unfold seek_ikey. apply internal_append. Qed.
Lemma SaveValue_hit e : is_Some (ParseInternalKey e.1) -> SaveValue user k e.1 e.2 kNotFound = if decide (ukey e = k) then match (entry_answer e).1 with OK => kFound (entry_answer e).2 | _ => kDeleted end else kNotFound.
Proof using ComparatorLaws0.
  intros [p Hp]. unfold SaveValue, entry_answer. rewrite Hp. pose proof (parse_internal_key_inv _ _ Hp) as [E _]. assert (ukey e = user_key p) as Hu by (unfold ukey; rewrite E; unfold AppendInternalKey, PutFixed64; apply ExtractUserKey_append).
  pose proof (user_eq user (user_key p) k) as He. rewrite Hu. destruct (Z.eqb_spec (Compare user (user_key p) k) 0) as [Hz|Hz]; [rewrite decide_True by (by apply He)|rewrite decide_False by (by intros ?%He)]; [|done]. by destruct (key_type p).
Qed.
Lemma search_files_ok level files last seek s : Forall file_ok files -> Inv s ->
  exists r, search_files user table_get level files ikey k last seek s = Some r /\
    match first_hit seq k (map contents files) with
    | Some e => exists seek' s', r = inl (entry_answer e, seek', s') /\ Inv s'
    | None => exists last' seek' s', r = inr (last', seek', s') /\ Inv s'
    end.
Proof using All.
  revert last seek s. induction files as [|f files IH]; intros last seek s Hf Hs; [eexists; split; [done|]; cbn; by eexists _, _, _|]. apply Forall_cons in Hf as [Hf Hfs]. cbn [search_files map]. rewrite first_hit_cons, <- (hit_newest user seq Hseq k (contents f) (fo_parse f Hf) (fo_sorted f Hf)).
  destruct (fo_reads f Hf ikey s ikey_internal Hs) as (saved & s1 & E & Hs1 & Hsound & Hcomp). rewrite E. cbn [mbind option_bind ok negb]. pose proof (fo_parse f Hf) as Hp. rewrite Forall_forall in Hp. destruct (seek_ikey_num seq Hseq k) as [Hu _]. rewrite Hu in Hcomp.
  assert (forall e, first_from c ikey (contents f) = Some e -> is_Some (ParseInternalKey e.1)) as Hpe by (intros e (a & b & Ec & _)%first_from_spec; apply Hp; rewrite Ec; apply elem_of_app; right; by left).
  unfold hit. destruct (first_from c ikey (contents f)) as [e|] eqn:Hfe; cbn [mbind option_bind].
  - destruct (decide (ukey e = k)) as [Hk|Hk].
    + rewrite (Hcomp e eq_refl (eq_sym Hk)), SaveValue_hit, decide_True by (done || by apply Hpe). destruct (Hpe e eq_refl) as [p Hpp]. unfold entry_answer. rewrite Hpp. destruct (key_type p); (eexists; split; [done|]); by eexists _, _.
    + destruct saved as [e'|]; [|by apply IH]. specialize (Hsound e' eq_refl). injection Hsound as <-. rewrite SaveValue_hit, decide_False by (done || by apply Hpe). by apply IH.
  - destruct saved as [e'|]; [by specialize (Hsound e' eq_refl)|]. by apply IH.
Qed.

(** *** Level 0 *)
Lemma insert_newest_in f files g : g ∈ insert_newest f files <-> g = f \/ g ∈ files.
Proof. induction files as [|h l IH]; cbn [insert_newest]; [by rewrite elem_of_cons|]. destruct (NewestFirst h f); rewrite !elem_of_cons, ?IH; tauto. Qed.
Definition newest_sorted files : Prop := StronglySorted (fun a b => f_number b <= f_number a) files.
Lemma insert_newest_sorted f files : newest_sorted files -> newest_sorted (insert_newest f files).
Proof.
  induction 1 as [|h l Hl IH Hh]; cbn [insert_newest]; [repeat constructor|]. unfold NewestFirst. destruct (Z.ltb_spec (f_number f) (f_number h)) as [Hlt|Hge].
  - constructor; [done|]. apply Forall_forall. intros g [->|Hg]%insert_newest_in; [lia|]. rewrite Forall_forall in Hh. by apply Hh.
  - constructor; [by constructor|]. constructor; [done|]. eapply Forall_impl; [exact Hh|]. cbn. lia.
Qed.
Lemma sort_newest_sorted files : newest_sorted (sort_newest files).
Proof. induction files as [|f l IH]; [constructor|]. by apply insert_newest_sorted. Qed.
Lemma sort_newest_in files f : f ∈ sort_newest files <-> f ∈ files.
Proof. induction files as [|h l IH]; [done|]. cbn [sort_newest foldr]. fold (sort_newest l). by rewrite insert_newest_in, IH, elem_of_cons. Qed.
Lemma filter_insert_newest P `{!forall f, Decision (P f)} f files : newest_sorted files -> filter P (insert_newest f files) = if decide (P f) then insert_newest f (filter P files) else filter P files.
Proof.
  induction 1 as [|h l Hl IH Hh]; cbn [insert_newest]; [rewrite filter_cons; by case_decide|]. unfold NewestFirst. destruct (Z.ltb_spec (f_number f) (f_number h)) as [Hlt|Hge].
  - rewrite !(filter_cons P h), IH. destruct (decide (P h)); destruct (decide (P f)); try done. cbn [insert_newest]. unfold NewestFirst. by rewrite (proj2 (Z.ltb_lt _ _)).
  - rewrite (filter_cons P f). destruct (decide (P f)); [|done]. destruct (filter P (h :: l)) as [|g m] eqn:E; [done|]. cbn [insert_newest]. unfold NewestFirst. rewrite (proj2 (Z.ltb_ge _ _)); [done|].
    assert (g ∈ filter P (h :: l)) as [_ Hg]%list_elem_of_filter by (rewrite E; by left). apply elem_of_cons in Hg as [->|Hg]; [done|]. rewrite Forall_forall in Hh. specialize (Hh g Hg). lia.
Qed.
Lemma sort_newest_filter P `{!forall f, Decision (P f)} files : sort_newest (filter P files) = filter P (sort_newest files).
Proof. induction files as [|f l IH]; [done|]. rewrite filter_cons. cbn [sort_newest foldr]. fold (sort_newest l). rewrite filter_insert_newest by apply sort_newest_sorted. rewrite <- IH. by destruct (decide (P f)). Qed.
Lemma first_hit_filter P `{!forall f, Decision (P f)} files : (forall f, f ∈ files -> ~ P f -> newest_entry seq k (contents f) = None) -> first_hit seq k (map contents (filter P files)) = first_hit seq k (map contents files).
Proof.
  induction files as [|f l IH]; intros Hno; [done|]. rewrite filter_cons. destruct (decide (P f)) as [Hp|Hp]; cbn [map]; rewrite !first_hit_cons.
  - by rewrite IH by (intros g Hg; apply Hno; by right).
  - rewrite (Hno f ltac:(by left) Hp). apply IH. intros g Hg. apply Hno. by right.
Qed.

Lemma internal_le_user a b : icmp a b <= 0 -> Compare user (ExtractUserKey a) (ExtractUserKey b) <= 0.
Proof. unfold internal_compare. destruct (Z.eqb_spec (Compare user (ExtractUserKey a) (ExtractUserKey b)) 0) as [E|]; [rewrite E; lia|done]. Qed.
Lemma outside_file f : file_ok f -> ~ (0 <= Compare user k (smallest_user f) /\ Compare user k (largest_user f) <= 0) -> newest_entry seq k (contents f) = None.
Proof using ComparatorLaws0.
  intros Hf Hout. destruct (newest_entry seq k (contents f)) as [e|] eqn:He; [|done]. exfalso. apply head_in, list_elem_of_filter in He as [[_ Hu] Hin]. apply Hout. destruct (fo_smallest f Hf) as [_ Hs], (fo_largest f Hf) as (_ & Hl & _).
  pose proof (internal_le_user _ _ (Hs e Hin)) as H1. pose proof (internal_le_user _ _ (Hl e Hin)) as H2. fold (ukey e) in H1, H2. rewrite Hu in H1, H2. split; [|done]. unfold smallest_user. pose proof (user_flip user k (ExtractUserKey (f_smallest f))). lia.
Qed.
Lemma level0_hit files : Forall file_ok files -> exists fs, files_to_search user 0 files ikey k = Some fs /\ Forall file_ok fs /\ first_hit seq k (map contents fs) = first_hit seq k (map contents (sort_newest files)).
Proof using All.
  intros Hf. unfold files_to_search. rewrite Z.eqb_refl. eexists. split; [done|]. rewrite Forall_forall in Hf. split; [apply Forall_forall; intros f Hin; apply (proj1 (sort_newest_in _ f)), list_elem_of_filter in Hin as [_ Hin]; by apply Hf|].
  rewrite sort_newest_filter. apply first_hit_filter. intros f Hin Hno. apply (proj1 (sort_newest_in _ f)) in Hin. apply outside_file; [by apply Hf|done].
Qed.

(** *** The other levels *)
Section Level.
Context (files : list FileMetaData) (Hfiles : Forall file_ok files) (Hdisj : StronglySorted (fun f g => icmp (f_largest f) (f_smallest g) < 0) files).
Lemma file_at i f : files !! i = Some f -> file_ok f.
Proof using Hfiles. intros Hi. rewrite Forall_lookup in Hfiles. by eapply Hfiles. Qed.
Lemma icmp_lt_le a b d : internal b -> internal d -> icmp a b < 0 -> icmp b d <= 0 -> icmp a d < 0.
Proof using ComparatorLaws0. intros Hb Hd Hab Hbd. destruct (Z.eq_dec (icmp b d) 0) as [E|E]; [apply (internal_eq user) in E; [by rewrite <- E|done..]|]. apply (internal_trans user _ b); [done|lia]. Qed.
Lemma icmp_le_lt a b d : internal a -> internal b -> icmp a b <= 0 -> icmp b d < 0 -> icmp a d < 0.
Proof using ComparatorLaws0. intros Ha Hb Hab Hbd. destruct (Z.eq_dec (icmp a b) 0) as [E|E]; [apply (internal_eq user) in E; [by rewrite E|done..]|]. apply (internal_trans user _ b); [lia|done]. Qed.
Lemma entry_internal f x : file_ok f -> x ∈ contents f -> internal x.1.
Proof.
  intros Hf Hx. pose proof (fo_parse f Hf) as Hp. rewrite Forall_forall in Hp. destruct (Hp x Hx) as [p Hpp]. unfold ParseInternalKey in Hpp. destruct (Z.ltb_spec (zlen x.1) 8); [done|]. unfold internal, zlen in *. lia.
Qed.
Lemma before_next i j f g x : files !! i = Some f -> files !! j = Some g -> (i < j)%nat -> x ∈ contents f -> icmp x.1 (f_smallest g) < 0.
Proof using Hfiles Hdisj ComparatorLaws0.
  intros Hi Hj Hij Hx. pose proof (file_at i f Hi) as Hf. destruct (fo_largest f Hf) as (Hli & Hl & _). apply (icmp_le_lt _ (f_largest f)); [by eapply entry_internal|done|by apply Hl|]. exact (sorted_lookup _ files i j f g Hdisj Hi Hj Hij).
Qed.
Lemma level_by_largest : by_largest user files.
Proof using Hfiles Hdisj ComparatorLaws0.
  split; [eapply Forall_impl; [exact Hfiles|]; intros f Hf; apply (fo_largest f Hf)|]. apply sorted_of_lookup. intros i j f g Hi Hj Hij. pose proof (file_at j g Hj) as Hg. destruct (fo_largest f (file_at i f Hi)) as (_ & _ & x & Hx & <-). destruct (fo_smallest g Hg) as [Hsi Hs], (fo_largest g Hg) as (Hli & _ & y & Hy & Ey).
  apply (icmp_lt_le _ (f_smallest g)); [done|done|by apply (before_next i j f g)|]. rewrite <- Ey. by apply Hs.
Qed.
Lemma level_sorted : StronglySorted (fun x y => icmp x.1 y.1 < 0) (concat (map contents files)).
Proof using Hfiles Hdisj ComparatorLaws0.
  revert Hfiles Hdisj. induction files as [|f l IH]; intros Hf Hd; [constructor|]. cbn [map concat]. pose proof Hf as [Hff Hfl]%Forall_cons. pose proof Hd as [Hd' Hfd]%StronglySorted_inv. apply StronglySorted_app. split; [|split; [apply (fo_sorted f Hff)|by apply IH]].
  intros x y Hx Hy. apply list_elem_of_In, in_concat in Hy as (b & Hb & Hy). apply list_elem_of_In in Hb, Hy. apply list_elem_of_fmap in Hb as (g & -> & Hg). apply list_elem_of_lookup_1 in Hg as [j Hj]. rewrite Forall_forall in Hfl.
  pose proof (Hfl g ltac:(by eapply list_elem_of_lookup_2)) as Hgok. destruct (fo_smallest g Hgok) as [Hsi Hs]. apply (icmp_lt_le _ (f_smallest g)); [done|by apply (entry_internal g)| |by apply Hs].
  destruct (fo_largest f Hff) as (Hli & Hl & _). apply (icmp_le_lt _ (f_largest f)); [by apply (entry_internal f)|done|by apply Hl|]. rewrite Forall_forall in Hfd. apply Hfd. by eapply list_elem_of_lookup_2.
Qed.
Lemma level_parse : Forall (fun e => is_Some (ParseInternalKey e.1)) (concat (map contents files)).
Proof using Hfiles. apply Forall_concat, Forall_map. eapply Forall_impl; [exact Hfiles|]. intros f Hf. apply (fo_parse f Hf). Qed.
Lemma level_hit level : 0 < level -> zlen files < 2 ^ 31 -> exists fs, files_to_search user level files ikey k = Some fs /\ Forall file_ok fs /\ first_hit seq k (map contents fs) = newest_entry seq k (concat (map contents files)).
Proof using All.
  intros Hlv Hn. unfold files_to_search. destruct (Z.eqb_spec level 0); [lia|]. rewrite <- (hit_newest user seq Hseq k _ level_parse level_sorted).
  destruct (find_file_spec user (Datatypes.S (length files)) files ikey 0 (length files) level_by_largest ikey_internal Hn) as (j & E & Hj & Hlo & Hhi); [lia|lia|intros; lia|intros i f Hi%lookup_lt_Some; lia|].
  unfold FindFile. rewrite u32_small by (unfold is_u32, zlen in *; lia). change (Z.of_nat 0) with 0 in E. unfold zlen in *. rewrite E. cbn [mbind option_bind]. rewrite Nat2Z.id.
  assert (forall x, x ∈ concat (map contents (take j files)) -> icmp x.1 ikey < 0) as Hpre.
  { intros x Hx. apply list_elem_of_In, in_concat in Hx as (b & Hb & Hx). apply list_elem_of_In in Hb, Hx. apply list_elem_of_fmap in Hb as (f & -> & Hf). apply list_elem_of_lookup_1 in Hf as [i Hi]. apply lookup_take_Some in Hi as [Hi Hij]. pose proof (file_at i f Hi) as Hfo. destruct (fo_largest f Hfo) as (Hli & Hl & _).
    apply (icmp_le_lt _ (f_largest f)); [by eapply entry_internal|done|by apply Hl|by eapply Hlo]. }
  assert (concat (map contents files) = concat (map contents (take j files)) ++ concat (map contents (drop j files))) as -> by (by rewrite <- concat_app, <- map_app, take_drop). unfold hit. rewrite first_from_app by exact Hpre. destruct (Z.leb_spec (Z.of_nat (length files)) (Z.of_nat j)) as [Hle|Hlt].
  - rewrite drop_ge by lia. exists []. split; [done|]. split; [constructor|done].
  - destruct (lookup_lt_is_Some_2 files j ltac:(lia)) as [f Hf]. rewrite Hf. cbn [mbind option_bind]. rewrite (drop_S files f j Hf). cbn [map concat]. pose proof (file_at j f Hf) as Hfo. destruct (fo_largest f Hfo) as (_ & _ & y & Hy & Ey).
    assert (exists e, first_from c ikey (contents f) = Some e) as [e He]. { destruct (first_from c ikey (contents f)) as [e|] eqn:He; [by exists e|]. pose proof (first_from_none _ _ _ He y Hy) as Hc. cbn in Hc. rewrite Ey in Hc. pose proof (Hhi j f Hf ltac:(lia)). lia. }
    rewrite (first_from_early _ _ _ _ _ He). eexists. split; [done|]. split; [destruct (_ <? _); [constructor|constructor; [done|constructor]]|].
    pose proof (hit_newest user seq Hseq k (contents f) (fo_parse f Hfo) (fo_sorted f Hfo)) as Hh. unfold hit in Hh. rewrite He in Hh. cbn [mbind option_bind] in Hh |- *. rewrite Hh.
    destruct (Z.ltb_spec (Compare user k (smallest_user f)) 0) as [Hb|Hb]; [symmetry; apply outside_file; [done|lia]|]. cbn [map]. rewrite first_hit_cons. by destruct (newest_entry seq k (contents f)).
Qed.
End Level.

Definition told (o : option (bytes * bytes)) : LStatus * bytes := match o with Some e => entry_answer e | None => (NotFound String.EmptyString, []) end.
Lemma search_levels_ok level levels last seek s : 0 < level -> Forall (Forall file_ok) levels -> Forall (StronglySorted (fun f g => icmp (f_largest f) (f_smallest g) < 0)) levels -> Forall (fun files => zlen files < 2 ^ 31) levels -> Inv s ->
  exists seek' s', search_levels user table_get level levels ikey k last seek s = Some (told (first_hit seq k (map (fun files => concat (map contents files)) levels)), seek', s') /\ Inv s'.
Proof using All.
  revert level last seek s. induction levels as [|files levels IH]; intros level last seek s Hl Hf Hd Hn Hs; [by eexists _, _|]. apply Forall_cons in Hf as [Hf Hfs]. apply Forall_cons in Hd as [Hd Hds]. apply Forall_cons in Hn as [Hn Hns]. cbn [search_levels map].
  destruct (level_hit files Hf Hd level Hl Hn) as (fs & -> & Hfs' & Hh). cbn [mbind option_bind]. rewrite first_hit_cons, <- Hh. destruct (search_files_ok level fs last seek s Hfs' Hs) as (r & -> & Hr). cbn [mbind option_bind].
  destruct (first_hit seq k (map contents fs)) as [e|]; [destruct Hr as (seek' & s' & -> & Hs'); by eexists _, _|]. destruct Hr as (last' & seek' & s' & -> & Hs'). apply IH; [lia|done..].
Qed.
Lemma version_Get_hit levels s : levels_ok levels -> Inv s -> exists seek s', version_Get user table_get levels (newLookupKey k seq) s = Some (told (first_hit seq k (sources levels)), seek, s') /\ Inv s'.
Proof using All.
  intros [Hf Hd Hn _] Hs. unfold version_Get. change (internal_key (newLookupKey k seq)) with ikey. assert (lookup_user_key (newLookupKey k seq) = k) as -> by (exact (proj1 (seek_ikey_num seq Hseq k))). destruct levels as [|files levels]; [by eexists _, _|].
  apply Forall_cons in Hf as [Hf Hfs]. apply Forall_cons in Hn as [Hn Hns]. cbn [search_levels tail sources] in *. destruct (level0_hit files Hf) as (fs & -> & Hfs' & Hh). cbn [mbind option_bind]. rewrite first_hit_app, <- Hh. destruct (search_files_ok 0 fs None None s Hfs' Hs) as (r & -> & Hr). cbn [mbind option_bind].
  destruct (first_hit seq k (map contents fs)) as [e|]; [destruct Hr as (seek' & s' & -> & Hs'); by eexists _, _|]. destruct Hr as (last' & seek' & s' & -> & Hs'). by apply search_levels_ok.
Qed.
Lemma sources_sorted levels : levels_ok levels -> Forall (StronglySorted (fun x y => icmp x.1 y.1 < 0)) (sources levels).
Proof using All.
  intros [Hf Hd _ _]. destruct levels as [|files levels]; [constructor|]. cbn [sources tail] in *. apply Forall_cons in Hf as [Hf Hfs]. apply Forall_app. split; apply Forall_map.
  - apply Forall_forall. intros f Hin. apply (proj1 (sort_newest_in _ f)) in Hin. rewrite Forall_forall in Hf. apply (fo_sorted f (Hf f Hin)).
  - rewrite Forall_forall in *. intros fs Hin. apply level_sorted; [by apply Hfs|by apply Hd].
Qed.
End Get.

(** C9. Reading a key in a version finds its newest value. If every table is read
    as [table_get_finds] says, the tables of a level above 0 are disjoint, and
    entries of a key in a newer table of level 0, or in a lower level, are newer
    than those in older tables and higher levels, then [Get] with a snapshot
    returns the value of the newest entry of the key up to the snapshot among
    all entries of all tables, and NotFound if that entry is a deletion or if
    there is none. The binary search over a level and the choice of tables never
    miss it. *)
Theorem version_get_newest (user : Comparator) {T : Type} (table_get : Z -> Z -> bytes -> T -> option (LStatus * option (bytes * bytes) * T)) (Inv : T -> Prop) (contents : FileMetaData -> list (bytes * bytes)) levels seq k M s :
  ComparatorLaws user (fun _ => True) -> levels_ok user table_get Inv contents levels -> 0 <= seq <= kMaxSequenceNumber -> Inv s ->
  M ≡ₚ concat (sources contents levels) -> StronglySorted (fun x y => internal_compare user x.1 y.1 < 0) M ->
  exists seek s', version_Get user table_get levels (newLookupKey k seq) s =
    Some (match newest_entry seq k M with Some e => match seen seq e with Some kTypeValue => (OK, e.2) | _ => (NotFound String.EmptyString, []) end | None => (NotFound String.EmptyString, []) end, seek, s') /\ Inv s'.
Proof.
  intros Hlaws Hok Hseq Hs HM Hsort. destruct (version_Get_hit user table_get Inv contents seq Hseq k levels s Hok Hs) as (seek & s' & E & Hs'). exists seek, s'. split; [|done]. rewrite E, (first_hit_newest user seq k (sources contents levels) M); [|apply Hok|by eapply sources_sorted|done|done].
  do 3 f_equal. unfold told. destruct (newest_entry seq k M) as [e|] eqn:He; [|done]. apply head_in, list_elem_of_filter in He as [[[t Ht] _] _]. rewrite Ht. unfold seen in Ht. unfold entry_answer. destruct (ParseInternalKey e.1) as [p|]; [|done]. destruct (sequence p <=? seq); [|done]. injection Ht as <-. by destruct (key_type p).
Qed.

Lemma aged_of_sorted (user : Comparator) srcs : StronglySorted (fun a b => Forall (fun x => Forall (fun y => ukey x = ukey y -> internal_compare user x.1 y.1 < 0) b) a) srcs -> aged user srcs.
Proof. intros Hs i j a b x y Hi Hj Hij Hx Hy. pose proof (sorted_lookup _ srcs i j a b Hs Hi Hj Hij) as H. cbv beta in H. rewrite Forall_forall in H. specialize (H x Hx). rewrite Forall_forall in H. by apply H. Qed.

(** Two tables of level 0 and one of level 1. *)
Definition vkey (k : Byte.byte) (n : Z) (t : ValueType) : bytes := InternalKey [k] n t.
Definition version_contents (number : Z) : list (bytes * bytes) :=
  if number =? 9 then [(vkey Byte.x61 9 kTypeValue, [Byte.x09])]
  else if number =? 7 then [(vkey Byte.x61 5 kTypeDeletion, []); (vkey Byte.x62 4 kTypeValue, [Byte.x04])]
  else [(vkey Byte.x61 1 kTypeValue, [Byte.x01]); (vkey Byte.x63 2 kTypeValue, [Byte.x02])].
Definition version_example : list (list FileMetaData) :=
  [[mkFile 7 100 (vkey Byte.x61 5 kTypeDeletion) (vkey Byte.x62 4 kTypeValue); mkFile 9 100 (vkey Byte.x61 9 kTypeValue) (vkey Byte.x61 9 kTypeValue)]; [mkFile 3 100 (vkey Byte.x61 1 kTypeValue) (vkey Byte.x63 2 kTypeValue)]].
Definition version_table_get (number _ : Z) (ikey : bytes) (s : unit) : option (LStatus * option (bytes * bytes) * unit) := Some (OK, first_from (InternalKeyComparator BytewiseComparator) ikey (version_contents number), s).
Definition version_all : list (bytes * bytes) := [(vkey Byte.x61 9 kTypeValue, [Byte.x09]); (vkey Byte.x61 5 kTypeDeletion, []); (vkey Byte.x61 1 kTypeValue, [Byte.x01]); (vkey Byte.x62 4 kTypeValue, [Byte.x04]); (vkey Byte.x63 2 kTypeValue, [Byte.x02])].
Ltac each_entry := repeat lazymatch goal with |- Forall _ _ => first [apply Forall_nil_2|apply Forall_cons_2] | |- StronglySorted _ _ => first [apply SSorted_nil|apply SSorted_cons] end; try by vm_compute.
Lemma version_example_ok : levels_ok BytewiseComparator version_table_get (fun _ => True) (fun f => version_contents (f_number f)) version_example.
Proof.
  assert (forall f, table_reads BytewiseComparator version_table_get (fun _ => True) (fun f => version_contents (f_number f)) f) as Hr. { intros f ikey s _ _. unfold version_table_get. eexists _, _. split; [done|]. split; [done|]. split; [by intros e ->|by intros e ->]. }
  split.
  - assert (forall l x, x ∈ l -> forall P : bytes * bytes -> Prop, Forall P l -> P x) as Hin by (intros l x Hx P HP; rewrite Forall_forall in HP; by apply HP).
    repeat apply Forall_cons_2; try apply Forall_nil_2; (split; [each_entry; by eexists|each_entry|split; [apply internal_append|intros x Hx; apply (Hin _ x Hx); each_entry]|split; [apply internal_append|split; [intros x Hx; apply (Hin _ x Hx); each_entry|]]|apply Hr]).
    1: (eexists; split; [apply list_elem_of_further, list_elem_of_here|reflexivity]). 1: (eexists; split; [apply list_elem_of_here|reflexivity]). (eexists; split; [apply list_elem_of_further, list_elem_of_here|reflexivity]).
  - each_entry.
  - each_entry.
  - apply aged_of_sorted. each_entry.
Qed.
Lemma version_get_newest_witness : exists seek s', version_Get BytewiseComparator version_table_get version_example (newLookupKey [Byte.x61] 4) tt = Some ((OK, [Byte.x01]), seek, s') /\ True.
Proof.
  apply (version_get_newest BytewiseComparator version_table_get (fun _ => True) (fun f => version_contents (f_number f)) version_example 4 [Byte.x61] version_all tt); [apply bytewise_laws|apply version_example_ok|by vm_compute|done| |each_entry].
  refine (perm_skip _ (perm_skip _ (perm_swap _ _ _))).
Defined.
