(* ===== verification/DbImpl.v ===== *)
(** * Writing to and reading from the database: db/db_impl.cc

    [Write] with the queue of writers, [MakeRoomForWrite] and
    [BuildBatchGroup], and [Get].  What other threads do to the database while
    a writer sleeps, waits or has released the mutex is a list of functions on
    the state.  How the [Get] of a version answers and how much memory a
    memtable uses are arguments. *)

From Stdlib Require String.
From S2P Require Import Prelude CommonData Coding Bloom DbFormat SkipList MemTable WriteBatch LogFile.
Import (notations) String.

Definition kL0_SlowdownWritesTrigger : Z := 8.
Definition kL0_StopWritesTrigger : Z := 12.

(** A writer in the queue; [status] and [done] are told when it leaves it. *)
Record DBWriter : Type := mkDBWriter { w_batch : option WriteBatch; w_sync : bool }.

Record DBImpl (F : Type) : Type := mkDBImpl {
  mem_ : MemTable; imm_ : option MemTable; logfile_number_ : Z; log_ : Writer (F := F);
  next_file_number_ : Z; last_sequence_ : Z; num_level0 : Z; writers_ : list DBWriter; tmp_batch_ : WriteBatch; bg_error_ : LStatus
}.
Arguments mkDBImpl {F}. Arguments mem_ {F}. Arguments imm_ {F}. Arguments logfile_number_ {F}. Arguments log_ {F}. Arguments next_file_number_ {F}.
Arguments last_sequence_ {F}. Arguments num_level0 {F}. Arguments writers_ {F}. Arguments tmp_batch_ {F}. Arguments bg_error_ {F}.

Section Write.
Context {F : Type} (user : Comparator) (file : WritableFile F) (file_Sync : F -> LStatus * F) (NewWritableFile : Z -> LStatus * F).
Context (ApproximateMemoryUsage : MemTable -> Z) (write_buffer_size : Z).
Abbreviation db_t := (DBImpl F).

(** ** [MakeRoomForWrite] *)

Definition ReuseFileNumber (next file_number : Z) : Z := if next =? u64 (file_number + 1) then file_number else next.

(** The new log and memtable; the old memtable is left to be compacted. *)
Definition switch_memtable (db : db_t) (new_log_number : Z) (lfile : F) : db_t :=
  mkDBImpl newMemTable (Some (mem_ db)) new_log_number (newWriter lfile) (u64 (new_log_number + 1)) (last_sequence_ db) (num_level0 db) (writers_ db) (tmp_batch_ db) (bg_error_ db).
Definition set_next_file_number (n : Z) (db : db_t) : db_t :=
  mkDBImpl (mem_ db) (imm_ db) (logfile_number_ db) (log_ db) n (last_sequence_ db) (num_level0 db) (writers_ db) (tmp_batch_ db) (bg_error_ db).

(** [Blocked]: the thread sleeps or waits, and no other thread has run since. *)
Inductive room : Type := Room (s : LStatus) (db : db_t) | Blocked (db : db_t).

Fixpoint room_loop (fuel : nat) (force allow_delay : bool) (db : db_t) (others : list (db_t -> db_t)) : option room :=
  match fuel with
  | O => None
  | S n =>
      let wait allow_delay := match others with [] => Some (Blocked db) | o :: others => room_loop n force allow_delay (o db) others end in
      if negb (ok (bg_error_ db)) then Some (Room (bg_error_ db) db)
      else if allow_delay && (kL0_SlowdownWritesTrigger <=? num_level0 db) then wait false
      else if negb force && (ApproximateMemoryUsage (mem_ db) <=? write_buffer_size) then Some (Room OK db)
      else if bool_decide (imm_ db <> None) then wait allow_delay
      else if kL0_StopWritesTrigger <=? num_level0 db then wait allow_delay
      else
        let new_log_number := next_file_number_ db in
        let '(s, lfile) := NewWritableFile new_log_number in
        if negb (ok s) then Some (Room s (set_next_file_number (ReuseFileNumber (u64 (new_log_number + 1)) new_log_number) db))
        else room_loop n false allow_delay (switch_memtable db new_log_number lfile) others
  end.
(** Between two runs of other threads there is at most one switch. *)
Definition MakeRoomForWrite (force : bool) (db : db_t) (others : list (db_t -> db_t)) : option room :=
  room_loop (S (S (2 * length others))) force (negb force) db others.

(** ** [BuildBatchGroup] *)

(** Whether the batch is [tmp_batch_] and no longer that of the first writer,
    the batch, and how many writers of the queue it serves. *)
Fixpoint group_loop (tmp_batch : WriteBatch) (first : DBWriter) (first_batch : WriteBatch) (max_size : Z) (ws : list DBWriter) (size : Z) (tmp : bool) (result : WriteBatch) (n : nat) :
    bool * WriteBatch * nat :=
  match ws with
  | [] => (tmp, result, n)
  | w :: ws =>
      if w_sync w && negb (w_sync first) then (tmp, result, n)
      else
        match w_batch w with
        | Some b =>
            let size := u64 (size + zlen b) in
            if max_size <? size then (tmp, result, n)
            else
              let result := if tmp then result else Append tmp_batch first_batch in
              group_loop tmp_batch first first_batch max_size ws size true (Append result b) (S n)
        | None => group_loop tmp_batch first first_batch max_size ws size tmp result (S n)
        end
  end.
Definition max_group_size (size : Z) : Z := if size <=? Z.shiftl 128 10 then size + Z.shiftl 128 10 else Z.shiftl 1 20.
Definition BuildBatchGroup (tmp_batch : WriteBatch) (first : DBWriter) (first_batch : WriteBatch) (ws : list DBWriter) : bool * WriteBatch * nat :=
  let size := zlen first_batch in
  group_loop tmp_batch first first_batch (max_group_size size) ws size false first_batch 1.

(** ** [Write] *)

Definition RecordBackgroundError (s bg_error : LStatus) : LStatus := if ok bg_error then s else bg_error.

(** The log and the memtable, without the mutex: the status, the log, whether
    the synchronisation failed, and the memtable. *)
Definition log_and_insert (sync : bool) (updates : WriteBatch) (log : Writer) (mem : MemTable) : option (LStatus * Writer * bool * MemTable) :=
  '(s, log) ← AddRecord file log updates;
  let '(s, log, sync_error) :=
    if ok s && sync then let '(s, f) := file_Sync (dest_ log) in (s, mkWriter f (block_offset_ log), negb (ok s)) else (s, log, false) in
  if ok s then let '(s, m) := InsertInto user updates mem in m ← m; Some (s, log, sync_error, m) else Some (s, log, sync_error, mem).

(** [Written s n db b]: the first [n] writers of the queue have left it with
    status [s]; [b] is now in the batch of the writer that did the work. *)
Inductive write_result : Type := Written (s : LStatus) (told : nat) (db : db_t) (my_batch : option WriteBatch) | Waiting (db : db_t).

(** What the writer at the front of the queue does; [during] is what other
    threads do while it writes. *)
Definition commit_group (w : DBWriter) (b : WriteBatch) (db : db_t) (during : db_t -> db_t) : option write_result :=
  let '(tmp, updates, n) := BuildBatchGroup (tmp_batch_ db) w b (tail (writers_ db)) in
  let updates := SetSequence updates (u64 (last_sequence_ db + 1)) in
  let last_sequence := u64 (last_sequence_ db + Count updates) in
  '(s, log, sync_error, mem) ← log_and_insert (w_sync w) updates (log_ db) (mem_ db);
  let db' := during db in
  let bg_error := if sync_error : bool then RecordBackgroundError s (bg_error_ db') else bg_error_ db' in
  Some (Written s n
    (mkDBImpl mem (imm_ db') (logfile_number_ db') log (next_file_number_ db') last_sequence (num_level0 db') (drop n (writers_ db'))
       (if tmp then Clear else tmp_batch_ db') bg_error)
    (Some (if tmp then b else updates))).
Definition pop_writer (db : db_t) : db_t :=
  mkDBImpl (mem_ db) (imm_ db) (logfile_number_ db) (log_ db) (next_file_number_ db) (last_sequence_ db) (num_level0 db) (tail (writers_ db)) (tmp_batch_ db) (bg_error_ db).
Definition db_Write (w : DBWriter) (db : db_t) (others : list (db_t -> db_t)) (during : db_t -> db_t) : option write_result :=
  r ← MakeRoomForWrite (bool_decide (w_batch w = None)) db others;
  match r with
  | Blocked db => Some (Waiting db)
  | Room s db =>
      match w_batch w with
      | Some b => if ok s then commit_group w b db during else Some (Written s 1 (pop_writer db) (Some b))
      | None => Some (Written s 1 (pop_writer db) None)
      end
  end.
(** A thread enters the queue. *)
Definition enqueue (w : DBWriter) (db : db_t) : db_t :=
  mkDBImpl (mem_ db) (imm_ db) (logfile_number_ db) (log_ db) (next_file_number_ db) (last_sequence_ db) (num_level0 db) (writers_ db ++ [w]) (tmp_batch_ db) (bg_error_ db).

(** ** [Get] *)

(** [current_Get] is the [Get] of the current version. *)
Definition db_Get (current_Get : LookupKey -> LStatus * bytes) (snapshot : option Z) (key : bytes) (db : db_t) : option (LStatus * bytes) :=
  let snapshot := match snapshot with Some s => s | None => last_sequence_ db end in
  let lkey := newLookupKey key snapshot in
  let tell r rest := match r with Found v => Some (OK, v) | Deleted => Some (NotFound String.EmptyString, []) | Absent => rest end in
  r ← mem_Get user (mem_ db) lkey;
  tell r (match imm_ db with
          | Some imm => r ← mem_Get user imm lkey; tell r (Some (current_Get lkey))
          | None => Some (current_Get lkey)
          end).
End Write.

(** ** What other threads may do

    Only the writer at the front of the queue touches the memtable, the log,
    the sequence number and the batch of groups.  Others enter the queue, and
    the background thread turns the immutable memtable into a table. *)

Definition small (u : update) : Prop := match u with UPut k v => zlen k + 8 < 2 ^ 32 /\ zlen v < 2 ^ 32 | UDelete k => zlen k + 8 < 2 ^ 32 end.
(** The updates of a writer; its batch may have any sequence number. *)
Definition carries (w : DBWriter) (us : list update) : Prop :=
  match w_batch w with None => us = [] | Some b => zlen us < 2 ^ 31 /\ Forall small us /\ zlen b < 2 ^ 63 /\ exists seq, b = batch seq us end.
Definition writer_ok (w : DBWriter) : Prop := exists us, carries w us.

Section Room.
Context {F : Type} (NewWritableFile : Z -> LStatus * F) (usage : MemTable -> Z) (size : Z).
Implicit Types (db : DBImpl F).

Record beside db db' : Prop := mkBeside {
  beside_mem : mem_ db' = mem_ db; beside_log : log_ db' = log_ db; beside_seq : last_sequence_ db' = last_sequence_ db; beside_tmp : tmp_batch_ db' = tmp_batch_ db;
  beside_writers : exists more, writers_ db' = writers_ db ++ more /\ Forall writer_ok more;
  beside_imm : imm_ db' = imm_ db \/ imm_ db' = None
}.
Definition bystander (o : DBImpl F -> DBImpl F) : Prop := forall db, beside db (o db).

Lemma beside_same db db' : mem_ db' = mem_ db -> log_ db' = log_ db -> last_sequence_ db' = last_sequence_ db -> tmp_batch_ db' = tmp_batch_ db -> writers_ db' = writers_ db -> imm_ db' = imm_ db -> beside db db'.
Proof. intros. split; [done..| |by left]. exists []. by rewrite app_nil_r. Qed.
Lemma beside_trans a b d : beside a b -> beside b d -> beside a d.
Proof.
  intros [H1 H2 H3 H4 (m & H5 & H6) H7] [K1 K2 K3 K4 (m' & K5 & K6) K7]. split; [congruence..| |].
  - exists (m ++ m'). split; [rewrite K5, H5; by rewrite app_assoc|by apply Forall_app].
  - destruct K7 as [->|]; [done|by right].
Qed.

(** A new log and memtable since [db]. *)
Record switched db db' : Prop := mkSwitched {
  switched_mem : mem_ db' = newMemTable; switched_log : exists n f, NewWritableFile n = (OK, f) /\ log_ db' = newWriter f;
  switched_seq : last_sequence_ db' = last_sequence_ db; switched_tmp : tmp_batch_ db' = tmp_batch_ db;
  switched_writers : exists more, writers_ db' = writers_ db ++ more /\ Forall writer_ok more;
  switched_imm : imm_ db' = Some (mem_ db) \/ imm_ db' = None
}.
Lemma switched_beside a b d : switched a b -> beside b d -> switched a d.
Proof.
  intros [H1 (n & f & Hn & Hf) H3 H4 (m & H5 & H6) H7] [K1 K2 K3 K4 (m' & K5 & K6) K7]. split; [congruence|exists n, f; split; congruence|congruence..| |].
  - exists (m ++ m'). split; [rewrite K5, H5; by rewrite app_assoc|by apply Forall_app].
  - destruct K7 as [->|]; [done|by right].
Qed.
Lemma beside_switched a b d : beside a b -> switched b d -> switched a d.
Proof.
  intros [H1 H2 H3 H4 (m & H5 & H6) H7] [K1 K2 K3 K4 (m' & K5 & K6) K7]. split; [done..|congruence|congruence| |by rewrite <- H1].
  exists (m ++ m'). split; [rewrite K5, H5; by rewrite app_assoc|by apply Forall_app].
Qed.
Definition moved db db' : Prop := beside db db' \/ switched db db'.
Lemma moved_writers db db' : moved db db' -> exists more, writers_ db' = writers_ db ++ more.
Proof. intros [Hb|Hs]; [destruct (beside_writers _ _ Hb) as (m & Hm & _)|destruct (switched_writers _ _ Hs) as (m & Hm & _)]; by exists m. Qed.
Definition room_db (r : room) : DBImpl F := match r with Room _ db => db | Blocked db => db end.

Lemma beside_refl db : beside db db.
Proof. by apply beside_same. Qed.

(** A memtable with room is not replaced. *)
Lemma room_fits fuel delay db others r : usage (mem_ db) <= size -> Forall bystander others ->
  room_loop NewWritableFile usage size fuel false delay db others = Some r -> beside db (room_db r).
Proof.
  revert delay db others. induction fuel as [|n IH]; intros delay db others Hu Ho; [done|]. cbn [room_loop]. destruct (negb (ok (bg_error_ db))); [intros [= <-]; apply beside_refl|].
  destruct (delay && _).
  - destruct others as [|o others]; [intros [= <-]; apply beside_refl|]. apply Forall_cons in Ho as [Ho Hos]. intros Hr. eapply beside_trans; [apply Ho|]. eapply IH; [|done|exact Hr]. by rewrite (beside_mem _ _ (Ho db)).
  - rewrite (proj2 (Z.leb_le _ _) Hu). cbn [negb andb]. intros [= <-]. apply beside_refl.
Qed.

Lemma switch_switched db n f : NewWritableFile n = (OK, f) -> switched db (switch_memtable db n f).
Proof. intros Hn. split; [done|by exists n, f|done..| |by left]. exists []. by rewrite app_nil_r. Qed.

Hypothesis Hfresh : usage newMemTable <= size.

Lemma room_moves fuel force delay db others r : Forall bystander others ->
  room_loop NewWritableFile usage size fuel force delay db others = Some r -> moved db (room_db r).
Proof.
  revert force delay db others. induction fuel as [|n IH]; intros force delay db others Ho; [done|].
  assert (forall delay, match others with [] => Some (Blocked db) | o :: others => room_loop NewWritableFile usage size n force delay (o db) others end = Some r -> moved db (room_db r)) as Hwait.
  { intros d. destruct others as [|o others]; [intros [= <-]; left; apply beside_refl|]. apply Forall_cons in Ho as [Ho Hos]. intros Hr. destruct (IH _ _ _ _ Hos Hr) as [Hb|Hs].
    - left. eapply beside_trans; [apply Ho|done].
    - right. eapply beside_switched; [apply Ho|done]. }
  cbn [room_loop]. destruct (negb (ok (bg_error_ db))); [intros [= <-]; left; apply beside_refl|].
  destruct (delay && _); [apply Hwait|]. destruct (negb force && _); [intros [= <-]; left; apply beside_refl|]. destruct (bool_decide _); [apply Hwait|]. destruct (_ <=? _); [apply Hwait|].
  destruct (NewWritableFile (next_file_number_ db)) as [s f] eqn:Hn. destruct (ok s) eqn:Hs; cbn [negb].
  - intros Hr. right. assert (s = OK) as -> by (by destruct s). eapply switched_beside; [by apply switch_switched|]. eapply room_fits; [|done|exact Hr]. done.
  - intros [= <-]. left. by apply beside_same.
Qed.

(** The loop has enough rounds. *)
Definition rounds db (others : list (DBImpl F -> DBImpl F)) : nat := (2 * length others + if bool_decide (imm_ db <> None) then 0 else 1)%nat.
Lemma room_total fuel force delay db others : (rounds db others < fuel)%nat -> exists r, room_loop NewWritableFile usage size fuel force delay db others = Some r.
Proof.
  revert force delay db others. induction fuel as [|n IH]; intros force delay db others Hf; [lia|]. unfold rounds in Hf.
  assert (forall delay, exists r, match others with [] => Some (Blocked db) | o :: others => room_loop NewWritableFile usage size n force delay (o db) others end = Some r) as Hwait.
  { intros d. destruct others as [|o others]; [by eexists|]. apply IH. cbn [length] in Hf. unfold rounds. destruct (bool_decide (imm_ (o db) <> None)); lia. }
  cbn [room_loop]. destruct (negb (ok (bg_error_ db))); [by eexists|]. destruct (delay && _); [apply Hwait|]. destruct (negb force && _); [by eexists|].
  destruct (bool_decide _) eqn:Hi; [apply Hwait|]. destruct (_ <=? _); [apply Hwait|]. destruct (NewWritableFile (next_file_number_ db)) as [s f]. destruct (ok s); cbn [negb]; [|by eexists].
  apply IH. unfold rounds. cbn [switch_memtable imm_]. rewrite bool_decide_true by done. lia.
Qed.
Lemma MakeRoom_total force db others : exists r, MakeRoomForWrite NewWritableFile usage size force db others = Some r.
Proof. apply room_total. unfold rounds. destruct (bool_decide _); lia. Qed.
Lemma MakeRoom_free db others : bg_error_ db = OK -> num_level0 db < kL0_SlowdownWritesTrigger -> usage (mem_ db) <= size ->
  MakeRoomForWrite NewWritableFile usage size false db others = Some (Room OK db).
Proof.
  intros Hb Hl Hu. unfold MakeRoomForWrite. cbn [room_loop]. rewrite Hb. cbn [ok negb]. rewrite (proj2 (Z.leb_gt _ _) Hl), (proj2 (Z.leb_le _ _) Hu). done.
Qed.
End Room.

(** ** Groups of batches *)

Lemma small_ok us : Forall small us -> Forall update_ok us.
Proof. intros H. eapply Forall_impl; [exact H|]. intros [k v|k]; cbn; lia. Qed.
Lemma zlen_batch_updates seq us : zlen us <= zlen (batch seq us).
Proof.
  unfold batch. rewrite !zlen_app. pose proof (zlen_nonneg (EncodeFixed64 seq)). pose proof (zlen_nonneg (EncodeFixed32 (zlen us))).
  assert (zlen us <= zlen (concat (map record us))); [|lia]. induction us as [|u us IH]; [done|]. cbn [map concat]. rewrite zlen_cons, zlen_app. pose proof (record_nonempty u). unfold zlen in *. lia.
Qed.
Lemma max_group_size_bound n : max_group_size n <= 2 ^ 20.
Proof. unfold max_group_size. change (Z.shiftl 128 10) with 131072. change (Z.shiftl 1 20) with (2 ^ 20). destruct (Z.leb_spec n 131072); lia. Qed.

Section Group.
Context (first : DBWriter) (first_batch : WriteBatch) (max : Z).
Hypothesis Hmax : max <= 2 ^ 20.

(** What the group is, for the [k] writers behind the first that are in it. *)
Record grouped (ws : list DBWriter) (us : list update) (k : nat) (uss : list (list update)) (result : WriteBatch) : Prop := mkGrouped {
  grouped_le : (k <= length ws)%nat; grouped_carries : Forall2 carries (take k ws) uss; grouped_sync : w_sync first = false -> Forall (fun w => w_sync w = false) (take k ws);
  grouped_batch : exists seq, result = batch seq (us ++ concat uss); grouped_count : zlen (us ++ concat uss) < 2 ^ 31; grouped_small : Forall small (us ++ concat uss)
}.
Lemma grouped_none ws us seq : zlen us < 2 ^ 31 -> Forall small us -> grouped ws us 0 [] (batch seq us).
Proof. intros Hn Hs. split; rewrite ?app_nil_r; [lia|constructor|constructor|by exists seq|done..]. Qed.
Lemma grouped_cons w ws us us' k uss result : carries w us' -> (w_sync w && negb (w_sync first) = false) -> grouped ws (us ++ us') k uss result -> grouped (w :: ws) us (S k) (us' :: uss) result.
Proof.
  intros Hc Hsy [H1 H2 H3 H4 H5 H6]. destruct H4 as [sq ->]. cbn [concat]. split; cbn [concat]; [cbn [length]; lia|by constructor| |exists sq; by rewrite app_assoc|by rewrite app_assoc..]. intros Hf. constructor; [|by apply H3]. rewrite Hf in Hsy. by destruct (w_sync w).
Qed.

Lemma group_loop_tmp tb ws size r n t result m : group_loop tb first first_batch max ws size true r n = (t, result, m) -> t = true.
Proof.
  revert size r n. induction ws as [|w ws IH]; intros size r n; cbn [group_loop]; [by intros [= <- _ _]|]. destruct (w_sync w && _); [by intros [= <- _ _]|]. destruct (w_batch w); [|apply IH].
  destruct (_ <? _); [by intros [= <- _ _]|apply IH].
Qed.
Lemma group_loop_spec us0 s0 ws size tmp us seq n : first_batch = batch s0 us0 -> Forall writer_ok ws -> zlen us <= size < 2 ^ 63 -> zlen us < 2 ^ 31 -> Forall small us -> (tmp = false -> us = us0 /\ seq = s0) ->
  exists tmp' result k uss, group_loop Clear first first_batch max ws size tmp (batch seq us) n = (tmp', result, (n + k)%nat) /\ grouped ws us k uss result /\ (tmp' = false -> result = batch seq us).
Proof.
  intros Hfb. revert size tmp us seq n. induction ws as [|w ws IH]; intros size tmp us seq n Hws Hsz Hn Hsm Htmp; cbn [group_loop].
  { exists tmp, (batch seq us), 0%nat, []. rewrite Nat.add_0_r. split; [done|]. split; [by apply grouped_none|done]. }
  apply Forall_cons in Hws as [[us' Hw] Hws]. assert (exists tmp' result k uss, (tmp, batch seq us, n) = (tmp', result, (n + k)%nat) /\ grouped (w :: ws) us k uss result /\ (tmp' = false -> result = batch seq us)) as Hstop.
  { exists tmp, (batch seq us), 0%nat, []. rewrite Nat.add_0_r. split; [done|]. split; [by apply grouped_none|done]. }
  destruct (w_sync w && negb (w_sync first)) eqn:Hsy; [done|]. pose proof Hw as Hc. unfold carries in Hc. destruct (w_batch w) as [b|] eqn:Hb.
  - destruct Hc as (Hn' & Hsm' & Hlen & seq' & ->). pose proof (zlen_batch_updates seq' us') as Hu'. pose proof (zlen_nonneg us). pose proof (zlen_nonneg us'). rewrite u64_small by (unfold is_u64; lia).
    destruct (Z.ltb_spec max (size + zlen (batch seq' us'))) as [|Hle]; [done|].
    assert (exists sq, (if tmp then batch seq us else Append Clear first_batch) = batch sq us) as [sq ->].
    { destruct tmp; [by exists seq|]. destruct Htmp as [-> ->]; [done|]. exists 0. rewrite Hfb. change Clear with newWriteBatch. rewrite newWriteBatch_batch, Append_batch; [done|]. change (zlen []) with 0. lia. }
    rewrite Append_batch by lia. destruct (IH (size + zlen (batch seq' us')) true (us ++ us') sq (S n)) as (tmp' & result & k & uss & Hg & Hgr & Ht); [done|rewrite zlen_app; lia..|by apply Forall_app|done|].
    exists tmp', result, (S k), (us' :: uss). rewrite Hg. split; [f_equal; lia|]. split; [by apply grouped_cons|]. intros ->.
    by apply group_loop_tmp in Hg.
  - rewrite Hc in Hw. destruct (IH size tmp us seq (S n)) as (tmp' & result & k & uss & Hg & Hgr & Ht); [done..|]. exists tmp', result, (S k), ([] :: uss). rewrite Hg. split; [f_equal; lia|]. split; [|done].
    apply grouped_cons; [done|done|]. by rewrite app_nil_r.
Qed.
End Group.

Lemma BuildBatchGroup_spec w us seq ws : carries w us -> w_batch w = Some (batch seq us) -> Forall writer_ok ws ->
  exists tmp result k uss, BuildBatchGroup Clear w (batch seq us) ws = (tmp, result, S k) /\ grouped w ws us k uss result /\ (tmp = false -> result = batch seq us).
Proof.
  intros Hc Hb Hws. unfold carries in Hc. rewrite Hb in Hc. destruct Hc as (Hn & Hsm & Hl & _). unfold BuildBatchGroup.
  eapply (group_loop_spec w (batch seq us) _ (max_group_size_bound _) us seq ws _ false us seq 1); [done|done| |done..]. pose proof (zlen_batch_updates seq us). lia.
Qed.

(** ** The log and the memtable since the log was started *)

Inductive logged : Z -> list bytes -> list bytes -> Z -> Prop :=
| logged_nil off : logged off [] [] off
| logged_cons off rec recs bs bss o o' : frags off true rec bs o -> 0 <= o <= kBlockSize -> logged o recs bss o' -> logged off (rec :: recs) (bs :: bss) o'.
Lemma logged_logs off recs bss o : logged off recs bss o -> logs off recs bss.
Proof. induction 1; [constructor|by econstructor]. Qed.
Lemma logged_snoc off recs bss o rec bs o' : logged off recs bss o -> frags o true rec bs o' -> 0 <= o' <= kBlockSize -> logged off (recs ++ [rec]) (bss ++ [bs]) o'.
Proof. induction 1 as [|? ? ? ? ? ? ? ? ? ? IH]; intros Hfr Ho; cbn [app]; [by eapply logged_cons; [| |apply logged_nil]|]. econstructor; [done|done|by apply IH]. Qed.

(** Where each of the records ends. *)
Definition ends (bss : list bytes) : list nat := imap (fun j _ => length (concat (take (S j) bss))) bss.
Lemma ends_snoc bss bs : ends (bss ++ [bs]) = ends bss ++ [length (concat (bss ++ [bs]))].
Proof.
  unfold ends. rewrite imap_app. f_equal.
  - apply imap_ext. intros j x Hj. apply lookup_lt_Some in Hj. by rewrite take_app_le by lia.
  - cbn [imap]. rewrite firstn_all2; [done|]. rewrite length_app. cbn [length]. lia.
Qed.

Fixpoint batches (seq : Z) (gs : list (list update)) : list bytes :=
  match gs with [] => [] | us :: gs => batch seq us :: batches (seq + zlen us) gs end.
Lemma batches_snoc seq gs us : batches seq (gs ++ [us]) = batches seq gs ++ [batch (seq + zlen (concat gs)) us].
Proof.
  revert seq. induction gs as [|g gs IH]; intros seq; cbn [batches app concat]; [change (zlen []) with 0; by rewrite Z.add_0_r|]. by rewrite IH, zlen_app, Z.add_assoc.
Qed.

Lemma number_elem seq us o : Forall small us -> o ∈ number seq us -> seq <= op_seq o < seq + zlen us /\ zlen (op_key o) + 8 < 2 ^ 32 /\ zlen (op_value o) < 2 ^ 32.
Proof.
  revert seq. induction us as [|u us IH]; intros seq Hs Ho; [by apply not_elem_of_nil in Ho|]. apply Forall_cons in Hs as [Hu Hs]. rewrite zlen_cons. pose proof (zlen_nonneg us).
  destruct u as [k v|k]; cbn [number] in Ho; apply elem_of_cons in Ho as [->|Ho]; cbn in *; try (specialize (IH _ Hs Ho)); change (zlen (@nil byte)) with 0 in *; lia.
Qed.
Lemma number_ok seq us : Forall small us -> 0 <= seq -> seq + zlen us - 1 <= kMaxSequenceNumber -> Forall op_ok (number seq us).
Proof. intros Hs H0 Hm. apply Forall_forall. intros o Ho. apply number_elem in Ho; [|done]. unfold op_ok. lia. Qed.
Lemma number_increasing seq us : Forall small us -> increasing (number seq us).
Proof.
  unfold increasing. revert seq. induction us as [|u us IH]; intros seq Hs; [constructor|]. apply Forall_cons in Hs as [Hu Hs].
  destruct u; (cbn [number]; constructor; [by apply IH|]; apply Forall_forall; intros o Ho; apply number_elem in Ho; [cbn; lia|done]).
Qed.

Section Epoch.
Context {F : Type} (user : Comparator) `{!ComparatorLaws user (fun _ => True)} (file : WritableFile F) (dw : F -> bytes) `{!WritableLaws file dw}.
Context (file_Sync : F -> LStatus * F) (NewWritableFile : Z -> LStatus * F) (usage : MemTable -> Z) (size : Z).
Implicit Types (db : DBImpl F).

(** The groups that were committed since the log was started, each with the
    length of the log behind it: the log holds their batches, the memtable
    their operations, numbered from [s0]. *)
Record epoch db (s0 : Z) (gs : list (list update * nat)) : Prop := mkEpoch {
  ep_log : exists bss, logged 0 (batches s0 (map fst gs)) bss (block_offset_ (log_ db)) /\ dw (dest_ (log_ db)) = concat bss /\ ends bss = map snd gs;
  ep_off : 0 <= block_offset_ (log_ db) <= kBlockSize;
  ep_mem : mem_holds user (mem_ db) (number s0 (concat (map fst gs)));
  ep_seq : last_sequence_ db = s0 + zlen (concat (map fst gs)) - 1;
  ep_pos : 0 < s0; ep_max : last_sequence_ db <= kMaxSequenceNumber;
  ep_small : Forall small (concat (map fst gs)); ep_counts : Forall (fun g => zlen g < 2 ^ 31) (map fst gs);
  ep_tmp : tmp_batch_ db = Clear; ep_writers : Forall writer_ok (writers_ db)
}.

Lemma writers_more (ws more : list DBWriter) : Forall writer_ok ws -> Forall writer_ok more -> Forall writer_ok (ws ++ more).
Proof. intros. by apply Forall_app. Qed.
Lemma epoch_beside db db' s0 gs : epoch db s0 gs -> beside db db' -> epoch db' s0 gs.
Proof.
  intros [] [Hm Hl Hs Ht (more & Hw & Hmore) _]. split; rewrite ?Hm, ?Hl, ?Hs, ?Ht, ?Hw; try done. by apply writers_more.
Qed.
Hypothesis Hnew : forall n f, NewWritableFile n = (OK, f) -> dw f = [].
Lemma epoch_switched db db' s0 gs : epoch db s0 gs -> switched NewWritableFile db db' -> epoch db' (last_sequence_ db + 1) [].
Proof.
  intros [] [Hm (n & f & Hn & Hl) Hs Ht (more & Hw & Hmore) _]. pose proof (zlen_nonneg (concat (map fst gs))). split; rewrite ?Hm, ?Hl, ?Hs, ?Ht, ?Hw; cbn [map concat]; try done.
  - exists []. split; [constructor|]. split; [by eapply Hnew|done].
  - by apply newMemTable_holds.
  - change (zlen []) with 0. lia.
  - lia.
  - by apply writers_more.
Qed.

Hypothesis Hsync : forall f, (file_Sync f).1 = OK /\ dw (file_Sync f).2 = dw f.
Lemma log_and_insert_spec sync seq us log m ops : 0 <= block_offset_ log <= kBlockSize -> mem_holds user m ops -> Forall small us -> zlen us < 2 ^ 31 -> 0 <= seq -> seq + zlen us - 1 <= kMaxSequenceNumber ->
  increasing (ops ++ number seq us) ->
  exists log' m' bs, log_and_insert user file file_Sync sync (batch seq us) log m = Some (OK, log', false, m') /\ frags (block_offset_ log) true (batch seq us) bs (block_offset_ log') /\
    0 <= block_offset_ log' <= kBlockSize /\ dw (dest_ log') = dw (dest_ log) ++ bs /\ mem_holds user m' (ops ++ number seq us).
Proof.
  intros Hoff Hm Hsm Hn H0 Hmax Hi. destruct (Add_all_holds user m ops (number seq us) Hm (number_ok _ _ Hsm H0 Hmax) Hi) as (m' & Ha & Hm').
  destruct (add_loop_frags file dw (S (S (length (batch seq us)))) log (batch seq us) true Hoff) as (log1 & bs & Hadd & Hfr & Hd & Hb); [destruct (decide _); lia|].
  unfold log_and_insert, AddRecord. rewrite Hadd. cbn [mbind option_bind ok andb]. change kMaxSequenceNumber with (2 ^ 56 - 1) in Hmax. rewrite InsertInto_batch, Ha by (done || by apply small_ok || lia).
  destruct sync.
  - destruct (Hsync (dest_ log1)) as [Hs Hf]. destruct (file_Sync (dest_ log1)) as [s f]. cbn in Hs, Hf. rewrite Hs. exists (mkWriter f (block_offset_ log1)), m', bs. cbn. by rewrite Hf.
  - exists log1, m', bs. done.
Qed.

(** One more group, in the log and in the memtable. *)
Lemma epoch_grows db db' s0 gs us bs : epoch db s0 gs -> frags (block_offset_ (log_ db)) true (batch (last_sequence_ db + 1) us) bs (block_offset_ (log_ db')) -> 0 <= block_offset_ (log_ db') <= kBlockSize ->
  dw (dest_ (log_ db')) = dw (dest_ (log_ db)) ++ bs -> mem_holds user (mem_ db') (number s0 (concat (map fst gs)) ++ number (last_sequence_ db + 1) us) -> last_sequence_ db' = last_sequence_ db + zlen us ->
  last_sequence_ db' <= kMaxSequenceNumber -> Forall small us -> zlen us < 2 ^ 31 -> tmp_batch_ db' = Clear -> Forall writer_ok (writers_ db') ->
  epoch db' s0 (gs ++ [(us, length (dw (dest_ (log_ db'))))]).
Proof.
  intros [(bss & Hl & Hd & He) Hoff Hm Hs Hp Hx Hsm Hc _ _] Hfr Ho Hd' Hm' Hs' Hx' Hsm' Hc' Ht' Hw'.
  assert (s0 + zlen (concat (map fst gs)) = last_sequence_ db + 1) as Hnext by lia.
  split; rewrite ?map_app, ?concat_app; cbn [map fst snd concat]; rewrite ?app_nil_r; try done.
  - exists (bss ++ [bs]). rewrite batches_snoc, Hnext. split; [by eapply logged_snoc|]. rewrite Hd', Hd, ends_snoc, He, concat_app. cbn [concat]. by rewrite app_nil_r.
  - by rewrite number_app, Hnext.
  - rewrite zlen_app. lia.
  - by apply Forall_app.
  - apply Forall_app. by repeat constructor.
Qed.

(** What [Write] leaves behind when it succeeds: the writers in the group [told]
    are at the front of the queue, the group counts as one. *)
Definition committed db (w : DBWriter) (us : list update) db' (k : nat) (b : option WriteBatch) (uss : list (list update)) : Prop :=
  (exists queue more, (exists m, queue = writers_ db ++ m) /\ writers_ db' = drop k queue ++ more /\ (1 <= k <= length queue)%nat /\ Forall2 carries (take k queue) uss /\
     (w_sync w = false -> Forall (fun w => w_sync w = false) (take k queue))) /\
  last_sequence_ db' = last_sequence_ db + zlen (concat uss) /\ exists seq, b = Some (batch seq us).

Lemma group_caller (tmp : bool) sq s sr us c : zlen (us ++ c) < 2 ^ 31 -> (tmp = false -> batch sr (us ++ c) = batch sq us) -> exists seq, Some (if tmp then batch sq us else batch s (us ++ c)) = Some (batch seq us).
Proof.
  intros Hn Ht. destruct tmp; [by exists sq|]. exists s. rewrite zlen_app in Hn. pose proof (zlen_nonneg c). pose proof (zlen_nonneg us). assert (zlen c = 0) as Hc.
  { pose proof (f_equal Count (Ht eq_refl)) as He. rewrite !Count_batch in He by (rewrite ?zlen_app; lia). rewrite zlen_app in He. lia. }
  destruct c; [by rewrite app_nil_r|]. rewrite zlen_cons in Hc. pose proof (zlen_nonneg c). lia.
Qed.
Lemma commit_spec db s0 gs w ws us during : epoch db s0 gs -> writers_ db = w :: ws -> carries w us -> last_sequence_ db + 2 ^ 31 <= kMaxSequenceNumber -> bystander during ->
  forall b, w_batch w = Some b -> exists k db' b' uss, commit_group user file file_Sync w b db during = Some (Written OK k db' b') /\ committed db w us db' k b' uss /\
    (imm_ db' = imm_ db \/ imm_ db' = None) /\ epoch db' s0 (gs ++ [(concat uss, length (dw (dest_ (log_ db'))))]).
Proof.
  intros Hep Hq Hc Hmax Hdur b Hb. pose proof Hc as Hc'. unfold carries in Hc'. rewrite Hb in Hc'. destruct Hc' as (_ & _ & _ & sq & ->).
  pose proof (ep_writers _ _ _ Hep) as Hok. rewrite Hq in Hok. apply Forall_cons in Hok as [_ Hws].
  destruct (BuildBatchGroup_spec w us sq ws Hc Hb Hws) as (tmp & result & k & uss & Hg & [Hk Hcs Hsy [sr ->] Hcnt Hsm] & Htmp). unfold commit_group. rewrite (ep_tmp _ _ _ Hep), Hq. cbn [tail]. rewrite Hg.
  pose proof (zlen_nonneg (us ++ concat uss)) as Hz. pose proof (ep_seq _ _ _ Hep) as Hseq. pose proof (ep_pos _ _ _ Hep) as Hpos. pose proof (zlen_nonneg (concat (map fst gs))) as Hzg.
  assert (kMaxSequenceNumber = 2 ^ 56 - 1) as HM by done. rewrite SetSequence_batch, (u64_small (last_sequence_ db + 1)) by (unfold is_u64; lia). rewrite Count_batch, u64_small by (done || unfold is_u64; lia).
  destruct (log_and_insert_spec (w_sync w) (last_sequence_ db + 1) (us ++ concat uss) (log_ db) (mem_ db) (number s0 (concat (map fst gs)))) as (log' & m' & bs & -> & Hfr & Ho & Hd & Hm');
    [by eapply ep_off|by eapply ep_mem|done|done|lia|lia| |].
  { replace (last_sequence_ db + 1) with (s0 + zlen (concat (map fst gs))) by lia. rewrite <- number_app. apply number_increasing, Forall_app. split; [by eapply ep_small|done]. }
  cbn [mbind option_bind]. destruct (Hdur db) as [_ _ _ Hdt (more & Hdw & Hmore) Hdi].
  eexists (S k), _, _, (us :: uss). split; [done|]. split; [|split].
  - split; [|split; [done|]]; [|exact (group_caller tmp sq (last_sequence_ db + 1) sr us (concat uss) Hcnt Htmp)]. exists (writers_ db), more. split; [exists []; by rewrite app_nil_r|]. cbn [writers_]. rewrite Hdw, Hq. cbn [length take].
    split; [by rewrite drop_app_le by (cbn; lia)|]. split; [lia|]. split; [by constructor|]. intros Hs. constructor; [done|by apply Hsy].
  - done.
  - eapply epoch_grows; [exact Hep|exact Hfr|exact Ho|exact Hd|exact Hm'|done|cbn [last_sequence_]; lia|done|done|cbn [tmp_batch_]; destruct tmp; [done|rewrite Hdt; by eapply ep_tmp]|]. cbn [writers_]. apply Forall_drop. rewrite Hdw. apply writers_more; [by eapply ep_writers|done].
Qed.

Hypothesis Hfresh : usage newMemTable <= size.
(** C8. A writer at the front of the queue commits a group: always, unless an
    error in the background is passed on, a new log cannot be created, or it
    still waits for other threads.  The group is its own batch with those of
    the next writers in the queue, all of which leave the queue with the same
    status; no writer that asks for a synchronised log is served by one that
    does not.  The log has grown by one record and the memtable by the
    operations of the group, with consecutive sequence numbers, in the log and
    memtable as they were or in new ones, the old memtable being kept; the
    updates in the batch of the caller are as before. *)
Theorem write_commits_group db s0 gs w ws us others during : epoch db s0 gs -> writers_ db = w :: ws -> carries w us -> w_batch w <> None -> last_sequence_ db + 2 ^ 31 <= kMaxSequenceNumber ->
  Forall bystander others -> bystander during ->
  exists r, db_Write user file file_Sync NewWritableFile usage size w db others during = Some r /\
    (bg_error_ db = OK -> num_level0 db < kL0_SlowdownWritesTrigger -> usage (mem_ db) <= size -> exists k db' b, r = Written OK k db' b) /\
    match r with
    | Waiting db' => moved NewWritableFile db db'
    | Written s k db' b =>
        if ok s then
          exists uss, committed db w us db' k b uss /\
            let g := (concat uss, length (dw (dest_ (log_ db')))) in
            (epoch db' s0 (gs ++ [g]) /\ (imm_ db' = imm_ db \/ imm_ db' = None)) \/
            (epoch db' (last_sequence_ db + 1) [g] /\ (imm_ db' = Some (mem_ db) \/ imm_ db' = None))
        else k = 1%nat /\ exists db1, moved NewWritableFile db db1 /\ db' = pop_writer db1
    end.
Proof using All.
  intros Hep Hq Hc Hnn Hmax Hot Hdur. destruct (w_batch w) as [b|] eqn:Hb; [|done]. unfold db_Write. rewrite bool_decide_false by (by rewrite Hb).
  destruct (MakeRoom_total NewWritableFile usage size false db others) as [r Hr]. pose proof (room_moves NewWritableFile usage size Hfresh _ _ _ _ _ _ Hot Hr) as Hmv. rewrite Hr, Hb. cbn [mbind option_bind].
  destruct r as [s db1|db1]; cbn [room_db] in Hmv.
  - destruct (ok s) eqn:Hs.
    + assert (s = OK) as -> by (by destruct s).
      assert (exists more, writers_ db1 = w :: ws ++ more /\ writers_ db1 = writers_ db ++ more) as (more & Hq1 & Hq2) by (destruct (moved_writers _ _ _ Hmv) as [m Hm]; exists m; by rewrite Hm, Hq).
      assert (last_sequence_ db1 = last_sequence_ db) as Hs1 by (by destruct Hmv as [[]|[]]).
      assert (exists s1 gs1, epoch db1 s1 gs1 /\ (s1 = s0 /\ gs1 = gs /\ beside db db1 \/ s1 = last_sequence_ db + 1 /\ gs1 = [] /\ switched NewWritableFile db db1)) as (s1 & gs1 & Hep1 & Hcase).
      { destruct Hmv as [Hbs|Hsw]; [exists s0, gs|exists (last_sequence_ db + 1), []]; (split; [|by auto]); [by eapply epoch_beside|by eapply epoch_switched]. }
      destruct (commit_spec db1 s1 gs1 w (ws ++ more) us during Hep1 Hq1 Hc ltac:(by rewrite Hs1) Hdur b Hb) as (k & db' & b' & uss & Hcm & ((queue & more2 & [m ->] & Hrest) & Hls & Hbb) & Him & Hep').
      eexists. split; [exact Hcm|]. split; [by eauto|]. cbn [ok]. exists uss. split.
      * split; [|by rewrite Hls, Hs1]. exists (writers_ db1 ++ m), more2. split; [exists (more ++ m); by rewrite Hq2, app_assoc|done].
      * destruct Hcase as [(-> & -> & Hbs)|(-> & -> & Hsw)]; [left|right]; (split; [done|]).
        -- destruct Him as [->|]; [by apply beside_imm|by right].
        -- destruct Him as [->|]; [by eapply switched_imm|by right].
    + eexists. split; [done|]. split; [|rewrite Hs; split; [done|by exists db1]]. intros Hbg Hl Hu. rewrite MakeRoom_free in Hr by done. by injection Hr as <- _.
  - eexists. split; [done|]. split; [|done]. intros Hbg Hl Hu. by rewrite MakeRoom_free in Hr by done.
Qed.
End Epoch.

(** ** Reading *)

Lemma newest_app k snap (a b : list op) : newest k snap (a ++ b) = match newest k snap b with Some o => Some o | None => newest k snap a end.
Proof.
  unfold newest. rewrite filter_app. induction (filter (visible k snap) b) as [|x l _] using rev_ind; [by rewrite app_nil_r|]. by rewrite app_assoc, !last_snoc.
Qed.

Definition told (current : LStatus * bytes) (o : option op) : LStatus * bytes :=
  match o with
  | Some o => match op_type o with kTypeValue => (OK, op_value o) | kTypeDeletion => (NotFound String.EmptyString, []) end
  | None => current
  end.

(** C16. A read at a snapshot, or at the last sequence number without one,
    returns what the newest operation on the key that the snapshot sees says,
    in the memtable or before it in the memtable that is being compacted: the
    value, or that the key is not there.  The tables are asked only if there
    is no such operation. *)
Theorem get_newest_first {F} (user : Comparator) (current_Get : LookupKey -> LStatus * bytes) (db : DBImpl F) ops old k snapshot : ComparatorLaws user (fun _ => True) -> mem_holds user (mem_ db) ops ->
  match imm_ db with Some m => mem_holds user m old | None => old = [] end -> zlen k + 8 < 2 ^ 32 ->
  let snap := match snapshot with Some s => s | None => last_sequence_ db end in 0 <= snap <= kMaxSequenceNumber ->
  db_Get user current_Get snapshot k db = Some (told (current_Get (newLookupKey k snap)) (newest k snap (old ++ ops))).
Proof.
  intros Hlaws Hm Hi Hk snap Hs. unfold db_Get. fold snap. rewrite (mem_Get_spec user (mem_ db) ops k snap Hm Hk Hs). rewrite newest_app. cbn [mbind option_bind].
  destruct (newest k snap ops) as [o|]; [cbn; by destruct (op_type o)|]. cbn [answer]. destruct (imm_ db) as [m|]; [|by rewrite Hi].
  rewrite (mem_Get_spec user m old k snap Hi Hk Hs). cbn [mbind option_bind]. destruct (newest k snap old) as [o|]; [cbn; by destruct (op_type o)|done].
Qed.

(** ** A new database, with files in memory *)

Definition new_db (ws : list DBWriter) : DBImpl bytes := mkDBImpl newMemTable None 3 (newWriter []) 4 0 0 ws Clear OK.
Lemma new_db_epoch user `{!ComparatorLaws user (fun _ => True)} ws : Forall writer_ok ws -> epoch user id (new_db ws) 1 [].
Proof.
  intros Hws. split; cbn [map concat new_db log_ mem_ last_sequence_ tmp_batch_ writers_]; try done.
  - exists []. split; [apply logged_nil|done].
  - by apply newMemTable_holds.
Qed.
Lemma build_carries us sync : zlen us < 2 ^ 31 -> Forall small us -> zlen (build us) < 2 ^ 63 -> carries (mkDBWriter (Some (build us)) sync) us.
Proof. intros Hn Hs Hl. unfold carries. cbn [w_batch]. split; [done|]. split; [done|]. split; [done|]. exists 0. by apply build_batch. Qed.

Definition example_writers : list DBWriter := [mkDBWriter (Some (build [UPut [Byte.x61] [Byte.x01]])) true; mkDBWriter (Some (build [UDelete [Byte.x61]; UPut [Byte.x62] []])) false].
Lemma example_writers_carry : Forall2 carries example_writers [[UPut [Byte.x61] [Byte.x01]]; [UDelete [Byte.x61]; UPut [Byte.x62] []]].
Proof. repeat constructor; apply build_carries; repeat constructor. Qed.
Lemma example_writers_ok : Forall writer_ok example_writers.
Proof. pose proof example_writers_carry as H. apply Forall2_cons_1 in H as [H1 H]. apply Forall2_cons_1 in H as [H2 _]. repeat constructor; by eexists. Qed.
Lemma id_bystander {F} : @bystander F id.
Proof. intros db. apply beside_refl. Qed.

Lemma write_commits_group_witness :
  exists k db' b, db_Write BytewiseComparator mem_writable (fun f => (OK, f)) (fun _ => (OK, [])) (fun _ => 0) 4194304 (mkDBWriter (Some (build [UPut [Byte.x61] [Byte.x01]])) true) (new_db example_writers) [] id = Some (Written OK k db' b).
Proof.
  pose proof mem_writable_laws as Hlaws. destruct (write_commits_group BytewiseComparator mem_writable id (fun f => (OK, f)) (fun _ => (OK, [])) (fun _ => 0) 4194304 ltac:(by intros n f [= <-]) ltac:(done) ltac:(done)
    (new_db example_writers) 1 [] (mkDBWriter (Some (build [UPut [Byte.x61] [Byte.x01]])) true) (tail example_writers) [UPut [Byte.x61] [Byte.x01]] [] id) as (r & Hr & Hfree & _).
  - apply new_db_epoch; [apply bytewise_laws|exact example_writers_ok].
  - reflexivity.
  - apply build_carries; repeat constructor.
  - discriminate.
  - vm_compute. discriminate.
  - constructor.
  - exact id_bystander.
  - destruct (Hfree eq_refl eq_refl ltac:(discriminate)) as (k & db' & b & ->). exists k, db', b. exact Hr.
Defined.

Lemma get_newest_first_witness : db_Get BytewiseComparator (fun _ => (NotFound String.EmptyString, [])) None [Byte.x61] (new_db []) = Some (NotFound String.EmptyString, []).
Proof.
  rewrite (get_newest_first BytewiseComparator (fun _ => (NotFound String.EmptyString, [])) (new_db []) [] [] [Byte.x61] None); [reflexivity|exact bytewise_laws|apply newMemTable_holds|reflexivity|reflexivity|].
  split; vm_compute; discriminate.
Defined.
