(* ===== verification/DbRecover.v ===== *)
(** * Opening the database: how a log is read back, db/db_impl.cc

    [RecoverLogFile].  How much memory a memtable uses and what
    [WriteLevel0Table] returns for it are arguments; a log that cannot be
    opened and one that is reused are covered, and so is a table that cannot be
    written, which ends the loop with its status. *)

From Stdlib Require String.
From S2P Require Import Prelude CommonData Coding Bloom DbFormat SkipList MemTable WriteBatch LogFile DbImpl.
Import (notations) String.

(** ** [RecoverLogFile] *)

Section Recover.
Context {F G : Type} (user : Comparator) (file : SequentialFile F).
Context (paranoid_checks reuse_logs : bool) (write_buffer_size : Z) (ApproximateMemoryUsage : MemTable -> Z) (WriteLevel0Table : MemTable -> LStatus).

Definition MaybeIgnoreError (s : LStatus) : LStatus := if ok s || paranoid_checks then s else OK.

(** [LogReporter::Corruption] for a list of calls, the last one first. *)
Definition note_reports (rs : list (Z * LStatus)) (status : LStatus) : LStatus :=
  if paranoid_checks then foldr (fun r s => if ok s then r.2 else s) status rs else status.

(** The variables of the loop; [edit] lists the memtables that were written
    as tables. *)
Record recovery : Type := mkRecovery { r_mem : option MemTable; r_compactions : Z; r_save_manifest : bool; r_edit : list MemTable; r_max_sequence : Z }.

Fixpoint recover_loop (fuel : nat) (reader : Reader F) (status : LStatus) (x : recovery) : option (LStatus * recovery) :=
  match fuel with
  | O => None
  | S n =>
      '(record, reader') ← ReadRecord file true true 0 fuel reader;
      let status := note_reports (take (length (reports reader') - length (reports reader)) (reports reader')) status in
      match record with
      | None => Some (status, x)
      | Some record =>
          if negb (ok status) then Some (status, x)
          else if zlen record <? 12 then recover_loop n reader' (note_reports [(zlen record, Corruption "log record too small"%string)] status) x
          else
            let batch := SetContents record in
            let mem := match r_mem x with Some m => m | None => newMemTable end in
            let '(s, mem) := InsertInto user batch mem in
            mem ← mem;
            let status := MaybeIgnoreError s in
            if negb (ok status) then Some (status, mkRecovery (Some mem) (r_compactions x) (r_save_manifest x) (r_edit x) (r_max_sequence x))
            else
              let last_seq := u64 (Sequence batch + Count batch - 1) in
              let max_sequence := if r_max_sequence x <? last_seq then last_seq else r_max_sequence x in
              if write_buffer_size <? ApproximateMemoryUsage mem then
                let status := WriteLevel0Table mem in
                let x := mkRecovery None (r_compactions x + 1) true (r_edit x ++ [mem]) max_sequence in
                if ok status then recover_loop n reader' status x else Some (status, x)
              else recover_loop n reader' status (mkRecovery (Some mem) (r_compactions x) (r_save_manifest x) (r_edit x) max_sequence)
      end
  end.

(** What is left of the function: the status, the memtable and log that are
    used on, if any, and the variables.  [opened] is the file of the log,
    [fuel] counts its records; [reopened] is the log opened for appending,
    with its size, if both calls succeed. *)
Definition RecoverLogFile (fuel : nat) (opened : LStatus * F) (reopened : option (G * Z)) (last_log save_manifest : bool) (edit : list MemTable) (max_sequence : Z) :
    option (LStatus * option (MemTable * Writer (F := G)) * recovery) :=
  let x := mkRecovery None 0 save_manifest edit max_sequence in
  let '(status, f) := opened in
  if negb (ok status) then Some (MaybeIgnoreError status, None, x)
  else
    '(status, x) ← recover_loop fuel (newReader 0 f) status x;
    let '(kept, mem) :=
      if ok status && reuse_logs && last_log && (r_compactions x =? 0) then
        match reopened with
        | Some (g, lfile_size) => (Some (match r_mem x with Some m => m | None => newMemTable end, newWriter_at g lfile_size), None)
        | None => (None, r_mem x)
        end
      else (None, r_mem x) in
    match mem with
    | Some m =>
        if ok status then Some (WriteLevel0Table m, kept, mkRecovery None (r_compactions x) true (r_edit x ++ [m]) (r_max_sequence x))
        else Some (status, kept, mkRecovery None (r_compactions x) (r_save_manifest x) (r_edit x) (r_max_sequence x))
    | None => Some (status, kept, x)
    end.
End Recover.


(** ** Reports only grow *)

Section Reports.
Context {F : Type} (file : SequentialFile F) (has_reporter checksum_ : bool) (init : Z).
Implicit Types r : Reader F.
Abbreviation grows r r' := (reports r `suffix_of` reports r').

Lemma ReportDrop_grows r n s : grows r (ReportDrop has_reporter init r n s).
Proof. unfold ReportDrop. destruct (_ && _); [|done]. cbn. by apply suffix_cons_r. Qed.
Lemma parse_physical_grows r : grows r (parse_physical has_reporter checksum_ init r).2.
Proof.
  unfold parse_physical, ReportCorruption. repeat (case_match; try done); cbn [snd].
  - apply (ReportDrop_grows (set_buffer [] r)).
  - apply (ReportDrop_grows (set_buffer [] r)).
Qed.
Lemma physical_loop_grows n r x b r' : physical_loop file has_reporter checksum_ init n r = Some (x, b, r') -> grows r r'.
Proof.
  revert r. induction n as [|n IH]; intros r; cbn [physical_loop]; [done|]. destruct (_ <? _).
  - destruct (negb _); [|by intros [= <- <- <-]]. destruct (file_Read file (file_ r) kBlockSize) as [[s d] f]. destruct (negb (ok s)).
    + intros [= <- <- <-]. cbn [reports]. match goal with |- context [ReportDrop _ _ ?y _ _] => apply (ReportDrop_grows y) end.
    + intros H. apply IH in H. by destruct (_ <? _).
  - intros [= H]. pose proof (parse_physical_grows r) as Hg. by rewrite H in Hg.
Qed.
Lemma record_loop_grows n r sc fr p x r' : record_loop file has_reporter checksum_ init n r sc fr p = Some (x, r') -> grows r r'.
Proof.
  revert r sc fr p. induction n as [|n IH]; intros r sc fr p; cbn [record_loop]; [done|]. unfold ReadPhysicalRecord.
  destruct (physical_loop file has_reporter checksum_ init 2 r) as [[[t d] r1]|] eqn:Hp; cbn [mbind option_bind]; [|done]. apply physical_loop_grows in Hp. intros H. etrans; [exact Hp|].
  assert (forall m s, grows r1 (ReportDrop has_reporter init (set_resyncing false r1) m s)) as Hd by (intros m s; apply (ReportDrop_grows (set_resyncing false r1))).
  unfold ReportCorruption in H. repeat case_match; simplify_eq; try done; try (cbn [reports set_last_offset]; by apply Hd); try (apply IH in H; (etrans; [|exact H]); first [done|apply Hd]).
Qed.
Lemma ReadRecord_grows n r x r' : ReadRecord file has_reporter checksum_ init n r = Some (x, r') -> grows r r'.
Proof.
  unfold ReadRecord. destruct (_ <? _); [|apply record_loop_grows]. unfold SkipToInitialBlock. intros H. repeat case_match; simplify_eq; try (apply record_loop_grows in H; done).
  all: match goal with |- context [ReportDrop _ _ ?y _ _] => apply (ReportDrop_grows y) end.
Qed.
Lemma read_all_grows n r x r' : read_all file has_reporter checksum_ init n r = Some (x, r') -> grows r r'.
Proof.
  revert r x. induction n as [|n IH]; intros r x; cbn [read_all]; [done|]. destruct (ReadRecord _ _ _ _ _ r) as [[[b|] r1]|] eqn:Hr; cbn [mbind option_bind]; [| |done]; apply ReadRecord_grows in Hr.
  - destruct (read_all _ _ _ _ n r1) as [[bs r2]|] eqn:Ha; [|done]. cbn. intros [= <- <-]. etrans; [exact Hr|by eapply IH].
  - by intros [= <- <-].
Qed.
End Reports.

(** ** Recovery replays the groups *)

Section Replay.
Context {F G : Type} (user : Comparator) `{!ComparatorLaws user (fun _ => True)} (file : SequentialFile F).
Context (paranoid reuse : bool) (buffer_size : Z) (usage : MemTable -> Z) (write0 : MemTable -> LStatus).
Hypothesis Hwrite0 : forall m, write0 m = OK.
Implicit Types (x : recovery) (us : list update) (gs : list (list update)).

(** The memtables that were written as tables and the current one hold the
    operations one after the other. *)
Definition replayed (edit : list MemTable) x (ops : list op) : Prop :=
  exists tables segs now, r_edit x = edit ++ tables /\ Forall2 (mem_holds user) tables segs /\ concat segs ++ now = ops /\
    match r_mem x with Some m => mem_holds user m now | None => now = [] end.
Lemma replayed_current edit x ops : replayed edit x ops -> exists tables segs now, r_edit x = edit ++ tables /\ Forall2 (mem_holds user) tables segs /\ concat segs ++ now = ops /\
  mem_holds user (match r_mem x with Some m => m | None => newMemTable end) now.
Proof. intros (t & segs & now & He & Ht & Ho & Hm). exists t, segs, now. repeat (split; [done|]). destruct (r_mem x); [done|]. subst. by apply newMemTable_holds. Qed.

Definition next_max (max s : Z) us : Z := if max <? s + zlen us - 1 then s + zlen us - 1 else max.

(** One record. *)
Lemma replay_record edit x s0 done s us n rd rd' rec : replayed edit x (number s0 done) -> s = s0 + zlen done -> Forall small (done ++ us) -> zlen us < 2 ^ 31 -> 0 < s -> s + zlen us - 1 <= kMaxSequenceNumber ->
  ReadRecord file true true 0 (S n) rd = Some (Some rec, rd') -> reports rd' = reports rd -> rec = batch s us ->
  exists x', recover_loop user file paranoid buffer_size usage write0 (S n) rd OK x = recover_loop user file paranoid buffer_size usage write0 n rd' OK x' /\
    replayed edit x' (number s0 (done ++ us)) /\ r_max_sequence x' = next_max (r_max_sequence x) s us.
Proof.
  intros Hx -> Hsm Hn Hs Hmax Hr Hrep ->. destruct (replayed_current _ _ _ Hx) as (t & segs & now & He & Ht & Ho & Hm). rewrite number_app, <- Ho. pose proof (zlen_nonneg us) as Hz.
  assert (kMaxSequenceNumber = 2 ^ 56 - 1) as HM by done. pose proof Hsm as Hsm2. apply Forall_app in Hsm2 as [_ Hus].
  destruct (Add_all_holds user _ now (number (s0 + zlen done) us) Hm) as (m' & Ha & Hm'); [apply number_ok; [done|lia|lia]| |].
  { pose proof (number_increasing s0 (done ++ us) Hsm) as Hi. rewrite number_app, <- Ho, <- app_assoc in Hi. unfold increasing in *. by apply StronglySorted_app in Hi as (_ & _ & Hi). }
  cbn [recover_loop]. rewrite Hr. cbn [mbind option_bind]. rewrite Hrep, Nat.sub_diag. cbn [take]. assert (forall st, note_reports paranoid [] st = st) as -> by (intros st; unfold note_reports; by destruct paranoid).
  cbn [ok negb]. pose proof (zlen_batch (s0 + zlen done) us) as H12. destruct (Z.ltb_spec (zlen (batch (s0 + zlen done) us)) 12) as [Hlt|_]; [unfold kHeader in H12; lia|].
  unfold SetContents. rewrite InsertInto_batch, Ha by (by apply small_ok || lia). cbn [mbind option_bind]. unfold MaybeIgnoreError. cbn [ok orb negb].
  rewrite Sequence_batch, Count_batch, u64_small by (done || unfold is_u64; lia). rewrite Hwrite0. cbn [ok]. destruct (buffer_size <? usage m').
  - eexists. split; [done|]. split; [|done]. exists (t ++ [m']), (segs ++ [now ++ number (s0 + zlen done) us]), []. cbn [r_edit r_mem]. split; [by rewrite He, app_assoc|]. split; [by apply Forall2_app; [|constructor]|].
    split; [|done]. rewrite concat_app. cbn [concat]. by rewrite !app_nil_r, app_assoc.
  - eexists. split; [done|]. split; [|done]. exists t, segs, (now ++ number (s0 + zlen done) us). cbn [r_edit r_mem]. split; [done|]. split; [done|]. split; [by rewrite app_assoc|done].
Qed.

(** All records that the reader returns. *)
Lemma replay_all edit gs n rd rd' x s0 done : read_all file true true 0 n rd = Some (batches (s0 + zlen done) gs, rd') -> reports rd' = reports rd -> replayed edit x (number s0 done) ->
  Forall small (done ++ concat gs) -> Forall (fun us => zlen us < 2 ^ 31) gs -> 0 < s0 -> s0 + zlen (done ++ concat gs) - 1 <= kMaxSequenceNumber ->
  exists x', recover_loop user file paranoid buffer_size usage write0 n rd OK x = Some (OK, x') /\ replayed edit x' (number s0 (done ++ concat gs)) /\
    r_max_sequence x' = match gs with [] => r_max_sequence x | _ => Z.max (r_max_sequence x) (s0 + zlen (done ++ concat gs) - 1) end.
Proof.
  revert n rd x done. induction gs as [|us gs IH]; intros [|n] rd x done Hra Hrep Hx Hsm Hc Hs Hmax; cbn [read_all batches] in Hra; try discriminate.
  - destruct (ReadRecord file true true 0 (S n) rd) as [[[b|] r1]|] eqn:Hr; cbn [mbind option_bind] in Hra; [destruct (read_all file true true 0 n r1) as [[]|]; done| |done]. injection Hra as <-.
    exists x. cbn [recover_loop]. rewrite Hr. cbn [mbind option_bind]. rewrite Hrep, Nat.sub_diag. cbn [take concat]. rewrite app_nil_r. split; [|done]. unfold note_reports. by destruct paranoid.
  - destruct (ReadRecord file true true 0 (S n) rd) as [[[b|] r1]|] eqn:Hr; cbn [mbind option_bind] in Hra; [|done..]. destruct (read_all file true true 0 n r1) as [[bs r2]|] eqn:Hra'; [|done]. cbn in Hra. injection Hra as -> -> ->.
    assert (reports r1 = reports rd) as Hrep1.
    { pose proof (ReadRecord_grows _ _ _ _ _ _ _ _ Hr) as H1. pose proof (read_all_grows _ _ _ _ _ _ _ _ Hra') as H2. rewrite Hrep in H2. apply (anti_symm suffix); done. }
    cbn [concat] in *. rewrite app_assoc in *. apply Forall_cons in Hc as [Hus Hc]. pose proof (zlen_nonneg done). pose proof (zlen_nonneg us). pose proof (zlen_nonneg (concat gs)). rewrite !zlen_app in Hmax.
    destruct (replay_record edit x s0 done (s0 + zlen done) us n rd r1 (batch (s0 + zlen done) us)) as (x1 & -> & Hx1 & Hm1); [done|done|by apply Forall_app in Hsm as [? _]|done|lia|lia|done|done|done|].
    destruct (IH n r1 x1 (done ++ us)) as (x' & -> & Hx' & Hm'); [by rewrite zlen_app, Z.add_assoc|by rewrite Hrep1|done|done|done|done|by rewrite !zlen_app|].
    exists x'. split; [done|]. split; [done|]. rewrite Hm', Hm1. unfold next_max. rewrite !zlen_app in *. destruct gs as [|g gs]; [cbn [concat]; change (zlen (@nil update)) with 0|]; destruct (Z.ltb_spec (r_max_sequence x) (s0 + zlen done + zlen us - 1)); lia.
Qed.

(** Behind the loop. *)
Lemma RecoverLogFile_loop n g reopened last_log save edit max x : recover_loop user file paranoid buffer_size usage write0 n (newReader 0 g) OK (mkRecovery None 0 save edit max) = Some (OK, x) ->
  forall ops, replayed edit x ops -> exists kept x', RecoverLogFile (G := G) user file paranoid reuse buffer_size usage write0 n (OK, g) reopened last_log save edit max = Some (OK, kept, x') /\
    r_max_sequence x' = r_max_sequence x /\
    exists tables segs, r_edit x' = edit ++ tables /\ Forall2 (mem_holds user) (tables ++ match kept with Some (m, _) => [m] | None => [] end) segs /\ concat segs = ops.
Proof.
  intros Hl ops Hx. unfold RecoverLogFile. cbn [ok negb]. rewrite Hl. cbn [mbind option_bind ok andb].
  assert (exists x', match r_mem x with Some m => Some (write0 m, @None (MemTable * Writer (F := G)), mkRecovery None (r_compactions x) true (r_edit x ++ [m]) (r_max_sequence x)) | None => Some (OK, None, x) end = Some (OK, None, x') /\
    r_max_sequence x' = r_max_sequence x /\ exists tables segs, r_edit x' = edit ++ tables /\ Forall2 (mem_holds user) (tables ++ []) segs /\ concat segs = ops) as Hplain.
  { destruct Hx as (t & segs & now & He & Ht & Ho & Hm). destruct (r_mem x) as [m|].
    - rewrite Hwrite0. eexists. split; [done|]. split; [done|]. exists (t ++ [m]), (segs ++ [now]). cbn [r_edit]. rewrite app_nil_r, concat_app. cbn [concat]. rewrite app_nil_r. split; [by rewrite He, app_assoc|]. split; [by apply Forall2_app; [|constructor]|done].
    - eexists. split; [done|]. split; [done|]. exists t, segs. rewrite app_nil_r. subst now. rewrite app_nil_r in Ho. done. }
  destruct (reuse && last_log && (r_compactions x =? 0)).
  - destruct reopened as [[h sz]|]; [|destruct Hplain as (x' & Hp & ?); exists None, x'; done]. eexists _, x. split; [done|]. split; [done|].
    destruct (replayed_current _ _ _ Hx) as (t & segs & now & He & Ht & Ho & Hm). exists t, (segs ++ [now]). split; [done|]. split; [by apply Forall2_app; [|constructor]|]. rewrite concat_app. cbn [concat]. by rewrite app_nil_r.
  - destruct Hplain as (x' & Hp & ?). by exists None, x'.
Qed.
End Replay.

Lemma take_batches k seq gs : take k (batches seq gs) = batches seq (take k gs).
Proof. revert seq gs. induction k as [|k IH]; intros seq [|us gs]; cbn [take batches]; [done..|]. by rewrite IH. Qed.
Lemma length_batches seq gs : length (batches seq gs) = length gs.
Proof. revert seq. induction gs as [|us gs IH]; intros seq; cbn [batches length]; [done|]. by rewrite IH. Qed.

(** Which records lie in the first [n] bytes. *)
Lemma ends_below bss k n j en : (k <= length bss)%nat -> (length (concat (take k bss)) <= n)%nat -> (k < length bss -> n < length (concat (take (S k) bss)))%nat -> ends bss !! j = Some en -> (j < k <-> en <= n)%nat.
Proof.
  intros Hk Hle Hlt Hj. unfold ends in Hj. rewrite list_lookup_imap in Hj. destruct (bss !! j) as [b|] eqn:Hb; [|done]. injection Hj as <-. apply lookup_lt_Some in Hb. split; intros H.
  - pose proof (concat_take_mono bss (S j) k ltac:(lia)). lia.
  - destruct (decide (j < k)%nat) as [|Hn]; [done|]. pose proof (concat_take_mono bss (S k) (S j) ltac:(lia)). specialize (Hlt ltac:(lia)). lia.
Qed.

Section Recovery.
Context {F G H : Type} (user : Comparator) `{!ComparatorLaws user (fun _ => True)} (dw : F -> bytes) (fr : SequentialFile G) (dr : G -> bytes) `{!SequentialLaws fr dr}.
Context (paranoid reuse : bool) (buffer_size : Z) (usage : MemTable -> Z) (write0 : MemTable -> LStatus).
Hypothesis Hwrite0 : forall m, write0 m = OK.

(** C7. When the database is opened again after a crash that left any prefix
    of the log, the recovery succeeds and restores the first [k] groups: the
    memtables that it writes as tables, in their order, and the memtable it
    goes on with hold just the operations of these groups, with their sequence
    numbers, and the last sequence number is restored.  The groups that are
    restored are just those whose record had reached the file, so that a group
    is restored as a whole or not at all. *)
Theorem recovery_restores_prefix (db : DBImpl F) s0 gs g e (reopened : option (H * Z)) last_log save edit max : epoch user dw db s0 gs -> dw (dest_ (log_ db)) = dr g ++ e ->
  exists k kept x, RecoverLogFile user fr paranoid reuse buffer_size usage write0 (S (length (dr g))) (OK, g) reopened last_log save edit max = Some (OK, kept, x) /\
    (exists tables segs, r_edit x = edit ++ tables /\ Forall2 (mem_holds user) (tables ++ match kept with Some (m, _) => [m] | None => [] end) segs /\
       concat segs = number s0 (concat (take k (map fst gs)))) /\
    r_max_sequence x = (if decide (k = 0%nat) then max else Z.max max (s0 + zlen (concat (take k (map fst gs))) - 1)) /\
    (k <= length gs)%nat /\ forall j us en, gs !! j = Some (us, en) -> (j < k <-> en <= length (dr g))%nat.
Proof using All.
  intros [(bss & Hlog & Hd & He) _ _ Hs Hp Hmax Hsm Hc _ _] Hg. set (us := map fst gs) in *.
  assert (logs kBlockSize (batches s0 us) bss) as Hlogs.
  { apply logged_logs in Hlog. clear -Hlog. inversion Hlog as [|? ? ? ? ? ? Hfr Ho Hl]; subst; [constructor|]. econstructor; [by apply frags_wrap|exact Ho|exact Hl]. }
  destruct (read_all_logs fr dr true true kBlockSize _ bss Hlogs (newReader 0 g) (dr g) e (S (length (dr g)))) as (k & rd & Hra & Hrep & Hk & Hle & Hlt); [apply newReader_at|done|cbn; lia|congruence|lia|].
  rewrite length_batches in Hk, Hlt. assert (length bss = length gs) as Hlb by (rewrite <- (length_map snd gs), <- He; unfold ends; by rewrite length_imap). assert (length us = length gs) as Hlu by apply length_map.
  assert (us = take k us ++ drop k us) as Hsplit by (by rewrite take_drop). assert (concat us = concat (take k us) ++ concat (drop k us)) as Hcat by (rewrite <- concat_app; by rewrite take_drop).
  rewrite Hcat in Hsm, Hs. apply Forall_app in Hsm as [Hsm _]. rewrite zlen_app in Hs. pose proof (zlen_nonneg (concat (drop k us))).
  rewrite take_batches in Hra. destruct (replay_all user fr paranoid buffer_size usage write0 Hwrite0 edit (take k us) (S (length (dr g))) (newReader 0 g) rd (mkRecovery None 0 save edit max) s0 []) as (x & Hx & Hrp & Hm);
    [change (zlen (@nil update)) with 0; by rewrite Z.add_0_r|done|by exists [], [], []; rewrite app_nil_r|done|by apply Forall_take|done|cbn [app]; lia|]. cbn [app r_max_sequence] in *.
  destruct (RecoverLogFile_loop (G := H) user fr paranoid reuse buffer_size usage write0 Hwrite0 _ _ reopened last_log save edit max x Hx _ Hrp) as (kept & x' & Hr & Hmx & Hholds).
  exists k, kept, x'. split; [exact Hr|]. split; [exact Hholds|]. split; [|split; [lia|]].
  - rewrite Hmx, Hm. destruct (decide (k = 0%nat)) as [->|]; [done|]. destruct (take k us) as [|u l] eqn:Htk; [|done]. apply (f_equal length) in Htk. rewrite length_take in Htk. cbn in Htk. lia.
  - intros j u en Hj. apply (ends_below bss k); [lia|done|rewrite Hlb; rewrite Hlu in Hlt; done|]. rewrite He, list_lookup_fmap. by rewrite Hj.
Qed.
End Recovery.

Lemma recovery_restores_prefix_witness : exists (db : DBImpl bytes) us n kept x, epoch BytewiseComparator id db 1 [(us, n)] /\
  RecoverLogFile BytewiseComparator mem_sequential true false 4194304 (fun _ => 0) (fun _ => OK) (S (length (dest_ (log_ db)))) (OK, dest_ (log_ db)) (@None (bytes * Z)) true false [] 0 = Some (OK, kept, x) /\
  r_max_sequence x = zlen us.
Proof.
  pose proof mem_writable_laws as Hlaws. pose proof mem_sequential_laws as Hlaws'. pose proof example_writers_carry as Hc. apply Forall2_cons_1 in Hc as [Hc _].
  destruct (commit_spec BytewiseComparator mem_writable id (fun f => (OK, f)) ltac:(done) (new_db example_writers) 1 [] _ _ _ id (new_db_epoch BytewiseComparator _ example_writers_ok) eq_refl Hc ltac:(vm_compute; discriminate) id_bystander _ eq_refl)
    as (k & db & b & uss & _ & _ & _ & Hep). cbn [app] in Hep.
  destruct (recovery_restores_prefix (H := bytes) BytewiseComparator id mem_sequential id true false 4194304 (fun _ => 0) (fun _ => OK) ltac:(done) db 1 _ (dest_ (log_ db)) [] None true false [] 0 Hep) as (j & kept & x & Hr & _ & Hm & Hj & Hends).
  { cbn. by rewrite app_nil_r. }
  exists db, (concat uss), (length (id (dest_ (log_ db)))), kept, x. split; [exact Hep|]. split; [exact Hr|]. rewrite Hm. assert (j = 1%nat) as ->.
  { pose proof (proj2 (Hends 0%nat _ _ eq_refl)) as H1. cbn in Hj. specialize (H1 ltac:(lia)). lia. }
  cbn [map fst take concat decide]. pose proof (zlen_nonneg (concat uss)). rewrite app_nil_r. destruct (decide (1%nat = 0%nat)); [done|]. lia.
Defined.

(** ** A reused log

    When the last record of a log was cut off, [reuse_logs] makes the database
    write on behind the rest of it.  A record that is then added successfully
    is not found by the next recovery, which reports success: its bytes are
    taken for those that the record before still lacks. *)

Definition cut_log : bytes :=
  match AddRecord mem_writable (newWriter []) (batch 1 [UPut [Byte.x61] (replicate 30 Byte.x01)]) with Some (_, w) => take 20 (dest_ w) | None => [] end.
Definition recover_cut (f : bytes) : option (LStatus * option (MemTable * Writer (F := bytes)) * recovery) :=
  RecoverLogFile BytewiseComparator mem_sequential false true 4194304 (fun _ => 0) (fun _ => OK) (S (length f)) (OK, f) (Some (f, zlen f)) true false [] 0.

Lemma reused_log_loses_write : exists m log x log', recover_cut cut_log = Some (OK, Some (m, log), x) /\ AddRecord mem_writable log (batch 1 [UPut [Byte.x62] [Byte.x02]]) = Some (OK, log') /\
  exists log2 x', recover_cut (dest_ log') = Some (OK, Some (newMemTable, log2), x') /\ r_edit x' = [] /\ r_max_sequence x' = 0.
Proof.
  do 4 eexists. split; [vm_compute; reflexivity|]. split; [vm_compute; reflexivity|]. do 2 eexists. split; [vm_compute; reflexivity|]. by split.
Qed.
